(* ===== verification/_CoqProject ===== *)
-Q . S2P
Prelude.v
Mem.v
Words.v
Cstr.v
Serialize.v
Vector.v
Script.v
Sha2.v
Sha2Stream.v
Hmac.v
Sha256.v
Sha512.v
Utils.v
Tx.v
Arith256.v
Pow.v
Block.v
Merkle.v
Scrypt.v
Auxpow.v
Btree.v
Bip37.v
MerkleBlock.v
Bloom.v
Headersdb.v
Chain.v
HeadersFile.v
Base58.v
Rmd160.v
Address.v
Chainparams.v
Keys.v
TxSign.v
Registry.v
Siphash.v
Bitstream.v
Golomb.v
Koinu.v
WorkingTx.v
Gf256.v
Slip39Words.v
Rs1024.v
Slip39Text.v
Slip39.v
Protocol.v
CompactBlock.v
Net.v
Chacha20.v
FilterHeaders.v
Base64.v
Sign.v
Bip32.v
Psbt.v
PsbtRoles.v
