(* ===== verification/Prelude.v ===== *)
(** * Libdogecoin in Rocq

    A model of the core of libdogecoin, a C library for Dogecoin light clients and wallets:
    definitions translated from [src/src/*.c] and [src/include/dogecoin/*.h], and the theorems
    that make them correct.  A definition has the name of the C function it translates, less
    the prefix [dogecoin_].

    ** Conventions

    An unsigned [w]-bit integer is a [Z] in [[0, 2^w)] ([urange w]); every operation that can
    leave the range goes through [wrap w] ([u8], [u16], [u32], [u64]) or, for signed integers,
    [swrap w].  Bytes are [Byte.byte]; a region of memory is a list, of [option] cells where the
    program may read what it has not written.  A write outside its region, a read through a
    dangling pointer, a failed assertion or any other undefined behaviour is the result [None];
    a theorem that a function returns [Some] is a theorem that this does not happen.  The
    memory mapper is the class [Mem.Allocator]: under the default mapper a failed request ends
    the process, so that the theorems about successful runs use [Mem.default_mapper].  Loops
    whose recursion is not structural take fuel; each has a lemma that the fuel it is given is
    enough for every input (below).  Calls to the C library are modelled where the code depends
    on their results ([memcmp], [strlen], [qsort], [strtoull], the sequences of [tsearch]).

    ** The files

    Foundations.
    - [Prelude]: machine integers, little-endian codecs, bytes and lists (this file).
    - [Mem] (mem.c): the allocator, regions and their block operations.
    - [Words] : words of the hash functions, big- and little-endian, rotations.
    - [Cstr] (cstr.c): growable strings, as regions with a capacity; every operation refines
      the operation on byte lists.
    - [Vector] (vector.c): vectors of pointers with a callback that frees elements.
    - [Serialize] (serialize.c, buffer.c): writers over the interface [ByteSink], which both
      byte lists and [Cstr.cstring] implement, and readers as a state and error monad; the
      class [RoundTrip] states that a reader undoes a writer.
    - [Btree] (utils.h): search trees over the interface [Comparison].
    - [Utils] (utils.c): hexadecimal text and byte order.

    Hashes and encodings.
    - [Sha2], [Sha2Stream], [Sha256], [Sha512], [Hmac] (sha2.c, hash.h): the transforms against
      FIPS 180-4, contexts fed in pieces against the padded message, HMAC and PBKDF2.
    - [Rmd160] (rmd160.c), [Scrypt] (scrypt.c), [Siphash] (hash.h), [Chacha20] (chacha20.c).
    - [Base58] (base58.c): the two numeral systems, and the variant with a checksum; [Base64]
      (utils.c).
    - [Arith256] (arith_uint256.c): 256-bit numbers as eight words.

    Transactions, blocks and chains.
    - [Script] (script.c, key.c), [Tx] (tx.c): parsing, wire format, signature hashes.
    - [Psbt], [PsbtRoles] (psbt.c): partially signed transactions (BIP 174): the format, and the
      roles that create, sign, combine, finish and extract them.  The operations on keys are
      parameters.
    - [Address] (address.c, and the address functions of script.c and tx.c).
    - [Koinu] (koinu.c): amounts and their text.
    - [Chainparams] (chainparams.c): the three chains, their checkpoints, and the chain of a text.
    - [Pow] (pow.c), [Block], [Merkle] (block.c), [Auxpow] (auxpow.c, validation.c): headers,
      merkle roots, proofs of work and merge mining.
    - [Headersdb], [Chain], [HeadersFile] (headersdb_file.c, blockchain.h): the database of
      headers.  Indexes live in a store by address, because branches share them and a
      reorganisation frees them; [Chain] has the invariant, [HeadersFile] the file.
    - [Bip37], [MerkleBlock], [Bloom] (bip37.c): the walk over a partial merkle tree with its
      explicit stack, the matches it collects, and bloom filters.
    - [Bitstream], [Golomb] (golomb.c): compact filters of BIP 158; [FilterHeaders]
      (compact_filter.c, cfheadersdb_file.c): the messages of BIP 157, the chain of filter
      headers, its checkpoints, and the files, as their contents with the position of a handle.

    Seeds.
    - [Gf256], [Slip39Words], [Rs1024], [Slip39Text], [Slip39] (slip0039.c): the field and its
      interpolation, the word list, the checksum, the text of a share, and the secret split
      into shares and recovered.  The source of random bytes is a parameter.

    Keys.
    - [Keys] (ecc.c, key.c): keys, public keys and signatures over the class [Secp256k1] of the
      operations of the vendored curve library, with the laws its documentation gives in
      [Secp256k1Group] and [Secp256k1Signatures]; [integers] is an instance of all three.
    - [TxSign] (tx.c): the signing of an input, with every result code, and the scripts it leaves
      behind for a public key hash and, round by round, for several signatures.
    - [Sign] (sign.c): signed messages.
    - [Bip32] (bip32.c, bip44.c): extended keys, their text, paths, and the wrappers.

    Transactions under construction.
    - [Registry] (transaction.c): the table of numbered transactions that clients look up, hold
      and remove.  Objects live in a store with their counts of references; the sections under
      the lock are the steps of any number of clients.
    - [WorkingTx] (transaction.c, and the address helpers of tx.c): what is done to an entry:
      inputs, outputs, change, the final check, texts of transactions and signing by text.

    Messages and peers.
    - [Protocol] (protocol.c): the frame of a message, addresses, the version message.
    - [CompactBlock] (compact_block.c): compact blocks, and the blocks rebuilt from them.
    - [Net] (net.c, and a callback of spv.c): nodes and their groups.  The operations work on
      a group; the callbacks of a program are functions in a record, and the class [Polite]
      says what the handlers need of them, which the callbacks of the broadcasting program
      are shown to give.  The steps of [Net.net_step] are the events the library reports.

    Clients use the components below them: a merkle block uses [Sha256] and [Btree], the
    headers database [Block], [Pow] and [Auxpow], the filters [Siphash]; [WorkingTx] runs on
    [Registry], [TxSign], [Koinu] and [Address].

    ** What the theorems show

    - Codecs: what is written is read back, with any bytes behind it, for transactions,
      headers, strings, filters, base 58 text, addresses, amounts and the file of headers.
    - Equivalence: each hash is the function of its standard, however its input is cut into
      pieces; the optimised double SHA-256 and the merkle sweep are the plain definitions.
    - Shares: whichever texts of the shares of a secret are given, in whatever order, the
      secret comes back exactly if they are enough and none is repeated; the checksum finds
      every error within three consecutive words.
    - Safety: a walk over a partial merkle tree only reports leaves under the root; a filter
      never misses an element; a signature hash of type ALL commits to the transaction.
    - Partially signed transactions: the parser only gives well-formed ones and undoes the
      writer; only outputs that the given previous transaction really has are signed for;
      combining is the union of both sides; finishing gives the scripts that spend; and the
      roles compose to a transaction whose inputs carry the signatures of their key.
    - Keys: what a key signs is verified by its public key in every format, a signed message by
      the address; extended keys are read back from their text; the public tree is the public
      side of the private tree, from text to text; the paths of BIP 44 lead where they say.
    - Signing: an input that pays to the hash of the key is signed completely, with a script
      whose signature verifies for the hash of the transaction; signing by text does so for every
      input; a script of several signatures is completed one key at a time.
    - Transactions under construction: starting, adding and finishing gives the transaction with
      those inputs and outputs; whatever the steps of the clients, no entry is freed while it
      is held, and the registry is a map from numbers to transactions.
    - Peers: a node is connecting, connected or neither, with its handles exactly in the
      first two cases, and never comes back once it is disconnected, whatever the network
      does; the stream of a peer is cut into the same messages however it arrives, nothing
      that can be handled is left, and what is corrupt is not handled.
    - Files: the file of filter headers implements a list with a genesis header, and the file
      of filters gives back what was written; a header stands for every filter below it.
    - Compact blocks: rebuilding succeeds when the transactions are known, asks for exactly
      those that are not, and fills in no transaction with another identifier.
    - Invariants and refinement: the store of the headers database, search trees, vectors and
      strings keep their well-formedness and behave as the abstract lists and chains.
    - Where the code does not do what it means to, a theorem or an example shows what it does:
      merge-mining proofs that are not bound to the block, forks chosen by height alone,
      headers that need no work, addresses whose length is not checked, amounts of more than
      twelve digits, secrets of 24 bytes whose shares cannot be read back, nodes stranded by a
      callback after a timeout, user agents without an end, records behind a torn one, signatures
      that are valid for every message of 256 characters, derivations that fail unnoticed,
      redeem scripts above 75 bytes that are not pushed, change of a negative amount.

    ** Fuel and bounds

    The walk over a merkle tree has fuel for twice the nodes of the tree, and
    [Bip37.traverse_terminates] shows a run for every height; numbers in base 58 lose a digit
    per step; the unary code in [Bitstream] has one step per bit of its input; the walk over
    queries in [Golomb] one per value and query; counting the digits of 64 bits takes twenty
    steps; a search among 1024 words takes eleven, a text has no more words than bytes,
    and [Net.read_loop] takes at least 24 bytes per message.  Lengths are assumed below 2^63, or 2^32 where the code keeps them in 32 bits.

    ** Not modelled

    Vendored code (secp256k1, libevent, logdb, utf8proc, the SHA and scrypt kernels in
    assembler, AES) and what only calls it or the system: the
    table of keys, the event
    loop and the resolver, the state of the header client (spv.c), the wallet's files, sealing with a TPM or an enclave, pictures, the command-line
    programs.  Allocation failures inside helpers that ignore them and locks are left out.

    ** Plan

    The client of spv.c, and the words of bip39.c. *)

From Stdlib Require Export ZArith Lia List Bool.
From stdpp Require Export base numbers list option sets.
From coqutil Require Export Byte Word.LittleEndianList.

#[export] Set Default Goal Selector "!".

Abbreviation bytes := (list Byte.byte).

Declare Scope doge_scope.
Delimit Scope doge_scope with doge.

Local Open Scope Z_scope.

(** ** Machine integers *)

(** An unsigned [w]-bit integer is a [Z] in [[0, 2^w)]; C's conversion to it is
    reduction modulo [2^w]. *)
Definition wrap (w z : Z) : Z := z mod 2 ^ w.

(** Conversion to a signed [w]-bit integer (two's complement). *)
Definition swrap (w z : Z) : Z :=
  let u := wrap w z in if u <? 2 ^ (w - 1) then u else u - 2 ^ w.

Abbreviation u8 := (wrap 8).
Abbreviation u16 := (wrap 16).
Abbreviation u32 := (wrap 32).
Abbreviation u64 := (wrap 64).
Abbreviation s32 := (swrap 32).
Abbreviation s64 := (swrap 64).

(** [urange w z]: [z] is the value of an unsigned [w]-bit integer; [srange w z]:
    of a signed one. *)
Definition urange (w z : Z) : Prop := 0 <= z < 2 ^ w.
Definition srange (w z : Z) : Prop := - 2 ^ (w - 1) <= z < 2 ^ (w - 1).

#[export] Instance urange_dec w z : Decision (urange w z).
Proof. unfold urange; apply _. Defined.
#[export] Instance srange_dec w z : Decision (srange w z).
Proof. unfold srange; apply _. Defined.

Lemma wrap_range w z : 0 <= w -> urange w (wrap w z).
Proof. intros. apply Z.mod_pos_bound, Z.pow_pos_nonneg; lia. Qed.

Lemma wrap_small w z : urange w z -> wrap w z = z.
Proof. intros. by apply Z.mod_small. Qed.

Lemma wrap_wrap w v z : 0 <= v <= w -> wrap v (wrap w z) = wrap v z.
Proof.
  intros. unfold wrap. apply Z.mod_mod_divide.
  exists (2 ^ (w - v)). rewrite <- Z.pow_add_r by lia. f_equal; lia.
Qed.

Lemma wrap_add_l w a b : wrap w (wrap w a + b) = wrap w (a + b).
Proof. apply Zplus_mod_idemp_l. Qed.

Lemma wrap_add_r w a b : wrap w (a + wrap w b) = wrap w (a + b).
Proof. apply Zplus_mod_idemp_r. Qed.

(** A conversion changes the value by a multiple of the modulus. *)
Lemma wrap_diff w z : exists k, wrap w z = z + k * 2 ^ w.
Proof.
  exists (- (z / 2 ^ w)). unfold wrap. destruct (decide (2 ^ w = 0)) as [->|H].
  - rewrite Zmod_0_r. lia.
  - pose proof (Z.div_mod z (2 ^ w) H). lia.
Qed.

Lemma swrap_small w z : 0 < w -> srange w z -> swrap w z = z.
Proof.
  unfold srange, swrap, wrap. intros Hw Hz.
  assert (2 ^ w = 2 * 2 ^ (w - 1)) as E.
  { rewrite <- Z.pow_succ_r by lia. f_equal; lia. }
  assert (0 < 2 ^ (w - 1)) by (apply Z.pow_pos_nonneg; lia).
  destruct (decide (0 <= z)).
  - rewrite Z.mod_small by lia. destruct (Z.ltb_spec z (2 ^ (w - 1))); lia.
  - assert (z mod 2 ^ w = z + 2 ^ w) as ->.
    { symmetry. apply Zmod_unique with (-1); lia. }
    destruct (Z.ltb_spec (z + 2 ^ w) (2 ^ (w - 1))); lia.
Qed.

Lemma swrap_wrap w z : 0 <= w -> swrap w (wrap w z) = swrap w z.
Proof. intros. unfold swrap. rewrite wrap_wrap by lia. done. Qed.

Lemma swrap_range w z : 0 < w -> srange w (swrap w z).
Proof.
  intros Hw. pose proof (wrap_range w z ltac:(lia)) as Hr.
  unfold swrap, srange, urange in *.
  assert (2 ^ w = 2 * 2 ^ (w - 1)) as E.
  { rewrite <- Z.pow_succ_r by lia. f_equal; lia. }
  destruct (Z.ltb_spec (wrap w z) (2 ^ (w - 1))); lia.
Qed.

Lemma wrap_land w z : 0 <= w -> wrap w z = Z.land z (Z.ones w).
Proof. intros. unfold wrap. by rewrite Z.land_ones. Qed.

Lemma urange_wrap w z : 0 <= w -> wrap w z = z -> urange w z.
Proof. intros Hw <-. by apply wrap_range. Qed.

Section bitwise.
Context (w : Z).
Implicit Types a b : Z.

Lemma lor_range a b : 0 <= w -> urange w a -> urange w b -> urange w (Z.lor a b).
Proof.
  intros Hw Ha Hb. apply urange_wrap; [done|].
  by rewrite wrap_land, Z.land_lor_distr_l, <- !wrap_land, !wrap_small.
Qed.

Lemma land_range a b : 0 <= w -> urange w a -> urange w (Z.land a b).
Proof.
  intros Hw Ha. apply urange_wrap; [done|].
  rewrite wrap_land, <- Z.land_assoc, (Z.land_comm b), Z.land_assoc by done.
  by rewrite <- wrap_land, wrap_small.
Qed.

Lemma lxor_range a b : 0 <= w -> urange w a -> urange w b -> urange w (Z.lxor a b).
Proof.
  intros Hw Ha Hb. apply urange_wrap; [done|].
  rewrite wrap_land by done. apply Z.bits_inj'. intros n Hn.
  rewrite Z.land_spec, Z.lxor_spec.
  assert (forall x, urange w x -> Z.testbit x n && Z.testbit (Z.ones w) n = Z.testbit x n)
    as E.
  { intros x Hx. by rewrite <- Z.land_spec, <- wrap_land, wrap_small. }
  rewrite <- (E a Ha), <- (E b Hb) at 2.
  by destruct (Z.testbit a n), (Z.testbit b n), (Z.testbit (Z.ones w) n).
Qed.
End bitwise.

(** ** Little-endian encodings *)

(** [htoleN]/[leNtoh] applied to an object and copied out as bytes: the [n]-byte
    little-endian encoding, and its inverse. *)
Definition le_enc (n : nat) (z : Z) : bytes := le_split n z.
Definition le_dec (bs : bytes) : Z := le_combine bs.

#[global] Arguments le_enc : simpl never.
#[global] Arguments le_dec : simpl never.
#[global] Arguments wrap : simpl never.
#[global] Arguments swrap : simpl never.

Lemma le_enc_length n z : length (le_enc n z) = n.
Proof. apply length_le_split. Qed.

Lemma le_dec_enc n z : le_dec (le_enc n z) = wrap (8 * Z.of_nat n) z.
Proof. unfold le_dec, le_enc, wrap. rewrite le_combine_split. do 2 f_equal; lia. Qed.

Lemma le_dec_enc_small n z :
  urange (8 * Z.of_nat n) z -> le_dec (le_enc n z) = z.
Proof. intros. by rewrite le_dec_enc, wrap_small. Qed.

Lemma le_enc_dec bs n : length bs = n -> le_enc n (le_dec bs) = bs.
Proof. intros <-. apply split_le_combine. Qed.

Lemma le_dec_range bs : urange (8 * Z.of_nat (length bs)) (le_dec bs).
Proof. apply le_combine_bound. Qed.

Lemma le_enc_wrap n z : le_enc n (wrap (8 * Z.of_nat n) z) = le_enc n z.
Proof.
  rewrite <- (le_dec_enc n z). apply le_enc_dec, le_enc_length.
Qed.

Lemma le_enc_1 b : le_enc 1 (byte.unsigned b) = [b].
Proof. cbv [le_enc le_split]. by rewrite byte.of_Z_unsigned. Qed.

Lemma le_dec_1 b : le_dec [b] = byte.unsigned b.
Proof. apply le_combine_1. Qed.

(** ** Bytes *)

#[export] Instance byte_eq_dec : EqDecision Byte.byte := Byte.byte_eq_dec.
#[export] Instance byte_inhabited : Inhabited Byte.byte := populate Byte.x00.

Definition byte_zero : Byte.byte := Byte.x00.

Lemma byte_range b : urange 8 (byte.unsigned b).
Proof. apply byte.unsigned_range. Qed.

Lemma byte_unsigned_of_Z z : byte.unsigned (byte.of_Z z) = wrap 8 z.
Proof. apply byte.unsigned_of_Z. Qed.

Definition byte_eqb (a b : Byte.byte) : bool := Byte.eqb a b.

(** [memcmp(a, b, n) == 0] on two regions of the same length. *)
Definition bytes_eqb (a b : bytes) : bool := bool_decide (a = b).

(** [zeros n]: [n] zero bytes, what [calloc] and [dogecoin_mem_zero] leave. *)
Definition zeros (n : nat) : bytes := replicate n byte_zero.

(** ** Lists *)

Section lists.
Context {A : Type}.
Implicit Types l k : list A.

Lemma take_app_exact l k n : length l = n -> take n (l ++ k) = l.
Proof. intros <-. by rewrite take_app_length. Qed.

Lemma drop_app_exact l k n : length l = n -> drop n (l ++ k) = k.
Proof. intros <-. by rewrite drop_app_length. Qed.

(** [memcpy(dst + off, src, |src|)] on a region held as a list. *)
Lemma inserts_split (off : nat) l k :
  (off + length k <= length l)%nat ->
  list_inserts off k l = take off l ++ k ++ drop (off + length k) l.
Proof.
  intros Hl. apply list_eq. intros i.
  destruct (decide (i < off)%nat).
  { rewrite list_lookup_inserts_lt by lia.
    rewrite lookup_app_l by (rewrite length_take; lia).
    by rewrite lookup_take_lt. }
  destruct (decide (i < off + length k)%nat).
  { rewrite list_lookup_inserts by lia.
    rewrite lookup_app_r by (rewrite length_take; lia).
    rewrite length_take, Nat.min_l by lia.
    by rewrite lookup_app_l by lia. }
  rewrite list_lookup_inserts_ge by lia.
  rewrite lookup_app_r by (rewrite length_take; lia).
  rewrite length_take, Nat.min_l by lia.
  rewrite lookup_app_r by lia. rewrite lookup_drop. f_equal; lia.
Qed.

Lemma length_concat_const (n : nat) (ls : list (list A)) :
  (forall l, l ∈ ls -> length l = n) -> length (concat ls) = (length ls * n)%nat.
Proof.
  induction ls as [|l ls IH]; intros H; [done|]. cbn [concat length].
  rewrite length_app, (H l), IH; [lia|set_solver|set_solver].
Qed.

(** Pieces of [n] elements each. *)
Definition chunks (n count : nat) l : list (list A) :=
  (fun i => take n (drop (n * i) l)) <$> seq 0 count.

Lemma chunks_length n count l : length (chunks n count l) = count.
Proof. unfold chunks. by rewrite length_fmap, length_seq. Qed.

Lemma chunks_concat n (ls : list (list A)) :
  Forall (fun x => length x = n) ls -> chunks n (length ls) (concat ls) = ls.
Proof.
  unfold chunks. induction ls as [|x ls IH]; intros H; [done|].
  apply Forall_cons in H as [Hx Hls]. cbn [length seq concat]. rewrite <- fmap_S_seq.
  cbn [fmap list_fmap]. rewrite Nat.mul_0_r, drop_0, take_app_exact by done.
  f_equal. rewrite <- list_fmap_compose. unfold compose. rewrite <- (IH Hls) at 2.
  apply list_fmap_ext. intros i j _. rewrite drop_app_ge by lia. do 2 f_equal. lia.
Qed.

Lemma concat_chunks n count l : concat (chunks n count l) = take (n * count) l.
Proof.
  unfold chunks. induction count as [|k IH]; [by rewrite Nat.mul_0_r|].
  rewrite seq_S, fmap_app, concat_app, IH, <- Nat.add_1_r, Nat.mul_add_distr_l, <- take_take_drop.
  cbn [fmap list_fmap concat]. by rewrite app_nil_r, Nat.add_0_l, Nat.mul_1_r.
Qed.

Lemma chunks_all n count l :
  (n * count <= length l)%nat -> Forall (fun x => length x = n) (chunks n count l).
Proof.
  intros Hl. apply Forall_forall. intros x (i & -> & Hi)%list_elem_of_fmap.
  apply elem_of_seq in Hi. rewrite length_take, length_drop. nia.
Qed.

Lemma length_inserts off l k : length (list_inserts off k l) = length l.
Proof. apply length_inserts. Qed.
End lists.

(** ** Automation *)

Create HintDb doge discriminated.
Create Rewrite HintDb doge_rw.
#[export] Hint Resolve wrap_range wrap_small swrap_range byte_range le_dec_range : doge.
#[export] Hint Rewrite le_enc_length : doge_rw.

(** Case analysis on the condition of the first [if] or [match] of the goal. *)
Ltac case_if :=
  match goal with
  | |- context [if ?b then _ else _] => destruct b eqn:?
  | H : context [if ?b then _ else _] |- _ => destruct b eqn:?
  end.

(** The same, in the goal only. *)
Ltac case_goal :=
  match goal with
  | |- context [if ?b then _ else _] => destruct b eqn:?
  end.

(** Turn boolean comparisons of hypotheses into arithmetic facts. *)
Ltac zbool :=
  repeat match goal with
  | H : (_ <? _)%Z = true |- _ => apply Z.ltb_lt in H
  | H : (_ <? _)%Z = false |- _ => apply Z.ltb_ge in H
  | H : (_ <=? _)%Z = true |- _ => apply Z.leb_le in H
  | H : (_ <=? _)%Z = false |- _ => apply Z.leb_gt in H
  | H : (_ =? _)%Z = true |- _ => apply Z.eqb_eq in H
  | H : (_ =? _)%Z = false |- _ => apply Z.eqb_neq in H
  | H : (_ <? _)%nat = true |- _ => apply Nat.ltb_lt in H
  | H : (_ <? _)%nat = false |- _ => apply Nat.ltb_ge in H
  | H : (_ =? _)%nat = true |- _ => apply Nat.eqb_eq in H
  | H : (_ =? _)%nat = false |- _ => apply Nat.eqb_neq in H
  | H : (_ && _)%bool = true |- _ => apply andb_true_iff in H as [? ?]
  | H : (_ || _)%bool = false |- _ => apply orb_false_iff in H as [? ?]
  | H : negb _ = true |- _ => apply negb_true_iff in H
  | H : negb _ = false |- _ => apply negb_false_iff in H
  end.

(** Evaluate comparisons of integer constants. *)
Ltac zconst :=
  repeat match goal with
  | |- context [?op ?a ?b] =>
      lazymatch op with
      | Z.ltb => idtac | Z.leb => idtac | Z.eqb => idtac
      end;
      lazymatch isZcst a with true => idtac end;
      lazymatch isZcst b with true => idtac end;
      let v := eval vm_compute in (op a b) in
      change (op a b) with v
  end; cbn [andb orb negb]; cbv iota.
