(* ===== verification/Mem.v ===== *)
(** * Memory ([src/src/mem.c])

    The allocator the library calls through its memory mapper, regions of memory as
    lists of cells, the C library's block operations on them and the library's own
    block helpers.  An operation that would leave its region has no result. *)

From S2P Require Import Prelude.

Local Open Scope Z_scope.

(** ** The memory mapper *)

(** What the code relies on from the memory mapper: does a request succeed? *)
Class Allocator := { alloc_ok : Z -> bool }.

(** The default mapper: a failed request ends the process, so a request that
    returns has succeeded. *)
Definition default_mapper : Allocator := {| alloc_ok := fun _ => true |}.

(** ** Regions *)

(** A cell of an allocated region is [None] until it is written. *)
Abbreviation cells := (list (option Byte.byte)).

Section regions.
Context {A : Type}.
Implicit Types r src : list A.

(** [memcpy(r + off, src, |src|)], defined when it stays inside the region. *)
Definition mem_write (off : Z) (src : list A) (r : list A) : option (list A) :=
  if (0 <=? off) && (off + Z.of_nat (length src) <=? Z.of_nat (length r))
  then Some (list_inserts (Z.to_nat off) src r) else None.

Definition mem_read (off n : Z) (r : list A) : option (list A) :=
  if (0 <=? off) && (0 <=? n) && (off + n <=? Z.of_nat (length r))
  then Some (take (Z.to_nat n) (drop (Z.to_nat off) r)) else None.

Definition memmove_cells (dst src n : Z) (r : list A) : option (list A) :=
  chunk ← mem_read src n r; mem_write dst chunk r.

Lemma mem_write_in off src r :
  0 <= off -> off + Z.of_nat (length src) <= Z.of_nat (length r) ->
  mem_write off src r = Some (list_inserts (Z.to_nat off) src r).
Proof.
  intros. unfold mem_write.
  by rewrite (proj2 (Z.leb_le 0 off)), (proj2 (Z.leb_le _ _)).
Qed.

Lemma mem_read_in off n r :
  0 <= off -> 0 <= n -> off + n <= Z.of_nat (length r) ->
  mem_read off n r = Some (take (Z.to_nat n) (drop (Z.to_nat off) r)).
Proof.
  intros. unfold mem_read.
  by rewrite (proj2 (Z.leb_le 0 off)), (proj2 (Z.leb_le 0 n)), (proj2 (Z.leb_le _ _)).
Qed.
End regions.

(** [realloc(r, n)]: the new cells are indeterminate. *)
Definition realloc_cells {A} (n : nat) (r : list (option A)) : list (option A) :=
  take n r ++ replicate (n - length r) None.

(** [strlen]: the bytes in front of the first NUL; without one it reads on. *)
Fixpoint c_strlen (s : bytes) : option nat :=
  match s with
  | [] => None
  | b :: s => if byte_eqb b byte_zero then Some O else S <$> c_strlen s
  end.

(** [strnlen], which reads no further than [maxlen]. *)
Definition c_strnlen (s : bytes) (maxlen : nat) : option nat :=
  match c_strlen s with
  | Some n => Some (Nat.min n maxlen)
  | None => if (maxlen <=? length s)%nat then Some maxlen else None
  end.

(** A string without NULs, and the bytes it occupies. *)
Definition nul_free (s : bytes) : Prop := Forall (fun b => byte_eqb b byte_zero = false) s.

Lemma c_strlen_app s rest :
  nul_free s -> c_strlen (s ++ byte_zero :: rest) = Some (length s).
Proof. induction 1 as [|b s Hb Hs IH]; simpl; [done|]. by rewrite Hb, IH. Qed.

(** ** Block helpers *)

Definition EINVAL : Z := 22.

Definition RSIZE_MAX : Z := Z.shiftr (2 ^ 64 - 1) 1.

Definition memset_safe (v : option cells) (smax c n : Z)
    : option (Z * option cells) :=
  match v with
  | None => Some (EINVAL, None)
  | Some r =>
      if RSIZE_MAX <? smax then Some (EINVAL, v)
      else if smax <? n then Some (EINVAL, v)
      else
        r' ← mem_write 0 (replicate (Z.to_nat n) (Some (byte.of_Z c))) r;
        Some (0, Some r')
  end.

(** The result of [memset_safe] is dropped. *)
Definition mem_zero (dst : cells) (len : Z) : option cells :=
  r ← memset_safe (Some dst) len 0 len; r.2.

(** [destination] and [source] do not overlap; either may be NULL. *)
Definition memcpy_safe (destination source : option cells) (count : Z)
    : option (option cells) :=
  match destination, source with
  | Some d, Some s => b ← mem_read 0 count s; d' ← mem_write 0 b d; Some (Some d')
  | _, _ => Some destination
  end.

(** The accumulator [diff] after the bytes [a] and [b]. *)
Fixpoint mem_cmp_loop (diff : Z) (a b : bytes) : Z :=
  match a, b with
  | x :: a, y :: b =>
      mem_cmp_loop (u8 (Z.lor diff (u8 (Z.lxor (byte.unsigned x) (byte.unsigned y))))) a b
  | _, _ => diff
  end.

(** [a] and [b]: the [len] bytes at the two arguments. *)
Definition mem_cmp_ct (a b : bytes) : Z := mem_cmp_loop 0 a b.

(** The constant-time comparison returns a byte value that is zero exactly when
    the two buffers are equal. *)
Theorem mem_cmp_ct_spec a b :
  length a = length b ->
  urange 8 (mem_cmp_ct a b) /\ (mem_cmp_ct a b = 0 <-> a = b).
Proof.
  intros Hl. unfold mem_cmp_ct.
  assert (forall d, urange 8 d -> urange 8 (mem_cmp_loop d a b) /\
            (mem_cmp_loop d a b = 0 <-> d = 0 /\ a = b)) as H.
  { revert b Hl. induction a as [|x a IH]; intros [|y b] Hl d Hd;
      simpl in *; try done; [tauto|]. injection Hl as Hl.
    pose proof (lxor_range 8 _ _ ltac:(lia) (byte_range x) (byte_range y)) as Hx.
    rewrite (wrap_small 8 (Z.lxor _ _)) by done.
    rewrite wrap_small by (by apply lor_range).
    destruct (IH b Hl (Z.lor d (Z.lxor (byte.unsigned x) (byte.unsigned y)))) as [Hr He].
    { by apply lor_range. }
    split; [done|]. rewrite He, Z.lor_eq_0_iff, Z.lxor_eq_0_iff.
    split; [intros [[-> E] ->]; by apply byte.unsigned_inj in E as ->|].
    by intros [-> [= -> ->]]. }
  destruct (H 0) as [H1 H2]; [done|]. split; [done|]. rewrite H2. tauto.
Qed.

Lemma mem_cmp_ct_spec_witness :
  urange 8 (mem_cmp_ct [Byte.x01; Byte.x02] [Byte.x01; Byte.x03]) /\
  (mem_cmp_ct [Byte.x01; Byte.x02] [Byte.x01; Byte.x03] = 0 <->
   [Byte.x01; Byte.x02] = [Byte.x01; Byte.x03]).
Proof. apply (mem_cmp_ct_spec [Byte.x01; Byte.x02] [Byte.x01; Byte.x03]). reflexivity. Defined.
