(* ===== verification/Words.v ===== *)
(** * Words and their bytes

    Bitwise operations on words taken from memory, byte by byte: the lemmas behind the
    endianness swaps of the hash functions. *)

From S2P Require Import Prelude.

Local Open Scope Z_scope.

(** ** Bitwise operations on little-endian words *)

Lemma testbit_high w z n : urange w z -> 0 <= w <= n -> Z.testbit z n = false.
Proof.
  intros Hz Hn. rewrite <- (wrap_small w z) by done. apply Z.mod_pow2_bits_high. lia.
Qed.

Lemma le_dec_cons b bs : le_dec (b :: bs) = Z.lor (byte.unsigned b) (Z.shiftl (le_dec bs) 8).
Proof. done. Qed.

Lemma le_dec_testbit b bs n :
  0 <= n ->
  Z.testbit (le_dec (b :: bs)) n =
  if n <? 8 then Z.testbit (byte.unsigned b) n else Z.testbit (le_dec bs) (n - 8).
Proof.
  intros Hn. rewrite le_dec_cons, Z.lor_spec, Z.shiftl_spec by done.
  destruct (Z.ltb_spec n 8).
  - by rewrite (Z.testbit_neg_r _ (n - 8)), orb_false_r by lia.
  - by rewrite (testbit_high 8), orb_false_l by (apply byte_range || lia).
Qed.

(** An operation that works bit by bit on words works byte by byte on their bytes. *)
Lemma le_dec_bitwise (f : Z -> Z -> Z) (g : bool -> bool -> bool) a b :
  (forall x y n, Z.testbit (f x y) n = g (Z.testbit x n) (Z.testbit y n)) ->
  g false false = false -> length a = length b ->
  f (le_dec a) (le_dec b) =
  le_dec (zip_with (fun x y => byte.of_Z (f (byte.unsigned x) (byte.unsigned y))) a b).
Proof.
  intros Hf Hg. revert b. induction a as [|x a IH]; intros [|y b] Hl; try done; simpl in *.
  { apply Z.bits_inj'. intros n _. rewrite Hf. unfold le_dec. simpl. by rewrite Z.bits_0. }
  apply Z.bits_inj'. intros n Hn. rewrite Hf, !le_dec_testbit by done.
  destruct (Z.ltb_spec n 8).
  - rewrite byte_unsigned_of_Z. unfold wrap.
    rewrite Z.mod_pow2_bits_low by done. by rewrite Hf.
  - rewrite <- IH by lia. by rewrite Hf.
Qed.

Lemma le_dec_lor a b :
  length a = length b ->
  Z.lor (le_dec a) (le_dec b) =
  le_dec (zip_with (fun x y => byte.of_Z (Z.lor (byte.unsigned x) (byte.unsigned y))) a b).
Proof. apply (le_dec_bitwise _ orb); [apply Z.lor_spec|done]. Qed.

Lemma le_dec_land a b :
  length a = length b ->
  Z.land (le_dec a) (le_dec b) =
  le_dec (zip_with (fun x y => byte.of_Z (Z.land (byte.unsigned x) (byte.unsigned y))) a b).
Proof. apply (le_dec_bitwise _ andb); [apply Z.land_spec|done]. Qed.

Lemma le_dec_shiftr_1 b bs : Z.shiftr (le_dec (b :: bs)) 8 = le_dec bs.
Proof.
  apply Z.bits_inj'. intros n Hn. rewrite Z.shiftr_spec, le_dec_testbit by lia.
  rewrite (proj2 (Z.ltb_ge _ _)) by lia. f_equal; lia.
Qed.

Lemma le_dec_shiftl_1 bs : Z.shiftl (le_dec bs) 8 = le_dec (byte_zero :: bs).
Proof. by rewrite le_dec_cons. Qed.

Lemma le_dec_shiftr k bs :
  (k <= length bs)%nat -> Z.shiftr (le_dec bs) (8 * Z.of_nat k) = le_dec (drop k bs).
Proof.
  revert bs. induction k as [|k IH]; intros bs Hk; [by rewrite Z.shiftr_0_r|].
  destruct bs as [|b bs]; simpl in Hk; [lia|].
  replace (8 * Z.of_nat (S k)) with (8 + 8 * Z.of_nat k) by lia.
  rewrite <- Z.shiftr_shiftr, le_dec_shiftr_1 by lia. apply IH. lia.
Qed.

Lemma le_dec_shiftl k bs :
  Z.shiftl (le_dec bs) (8 * Z.of_nat k) = le_dec (zeros k ++ bs).
Proof.
  induction k as [|k IH]; [by rewrite Z.shiftl_0_r|].
  replace (8 * Z.of_nat (S k)) with (8 * Z.of_nat k + 8) by lia.
  rewrite <- Z.shiftl_shiftl, IH by lia. apply le_dec_shiftl_1.
Qed.

Lemma le_dec_take k bs :
  (k <= length bs)%nat -> wrap (8 * Z.of_nat k) (le_dec bs) = le_dec (take k bs).
Proof.
  revert bs. induction k as [|k IH]; intros bs Hk.
  { apply Z.mod_1_r. }
  destruct bs as [|b bs]; simpl in Hk; [lia|]. rewrite firstn_cons.
  apply Z.bits_inj'. intros n Hn. unfold wrap.
  destruct (Z.lt_ge_cases n (8 * Z.of_nat (S k))).
  - rewrite Z.mod_pow2_bits_low, !le_dec_testbit by lia.
    destruct (Z.ltb_spec n 8); [done|]. rewrite <- IH by lia. unfold wrap.
    by rewrite Z.mod_pow2_bits_low by lia.
  - rewrite Z.mod_pow2_bits_high by lia. symmetry.
    eapply testbit_high; [apply le_dec_range|]. simpl. rewrite length_take. lia.
Qed.

Lemma byte_lor_zero_l b : byte.of_Z (Z.lor (byte.unsigned byte_zero) (byte.unsigned b)) = b.
Proof. apply byte.of_Z_unsigned. Qed.
Lemma byte_lor_zero_r b : byte.of_Z (Z.lor (byte.unsigned b) (byte.unsigned byte_zero)) = b.
Proof. change (byte.unsigned byte_zero) with 0. rewrite Z.lor_0_r. apply byte.of_Z_unsigned. Qed.
Lemma byte_land_zero b : byte.of_Z (Z.land (byte.unsigned b) (byte.unsigned byte_zero)) = byte_zero.
Proof. change (byte.unsigned byte_zero) with 0. by rewrite Z.land_0_r. Qed.
Lemma byte_land_ones b : byte.of_Z (Z.land (byte.unsigned b) (byte.unsigned Byte.xff)) = b.
Proof.
  change (byte.unsigned Byte.xff) with (Z.ones 8). rewrite <- wrap_land by lia.
  rewrite wrap_small by apply byte_range. apply byte.of_Z_unsigned.
Qed.

Lemma le_dec_pad bs k : le_dec (bs ++ zeros k) = le_dec bs.
Proof.
  induction bs as [|b bs IH]; simpl.
  - induction k as [|k IH]; [done|]. change (zeros (S k)) with (byte_zero :: zeros k). by rewrite le_dec_cons, IH.
  - by rewrite (le_dec_cons b (bs ++ zeros k)), IH, <- le_dec_cons.
Qed.

Lemma le_dec_shiftr_pad k bs :
  (k <= length bs)%nat -> Z.shiftr (le_dec bs) (8 * Z.of_nat k) = le_dec (drop k bs ++ zeros k).
Proof. intros. by rewrite le_dec_pad, le_dec_shiftr. Qed.


Section widths.
Context (bs : bytes).
Lemma le_dec_shiftr_8 :
  (1 <= length bs)%nat -> Z.shiftr (le_dec bs) 8 = le_dec (drop 1 bs ++ zeros 1).
Proof. apply (le_dec_shiftr_pad 1). Qed.
Lemma le_dec_shiftr_16 :
  (2 <= length bs)%nat -> Z.shiftr (le_dec bs) 16 = le_dec (drop 2 bs ++ zeros 2).
Proof. apply (le_dec_shiftr_pad 2). Qed.
Lemma le_dec_shiftr_32 :
  (4 <= length bs)%nat -> Z.shiftr (le_dec bs) 32 = le_dec (drop 4 bs ++ zeros 4).
Proof. apply (le_dec_shiftr_pad 4). Qed.
Lemma le_dec_shiftl_8 : Z.shiftl (le_dec bs) 8 = le_dec (zeros 1 ++ bs).
Proof. apply (le_dec_shiftl 1). Qed.
Lemma le_dec_shiftl_16 : Z.shiftl (le_dec bs) 16 = le_dec (zeros 2 ++ bs).
Proof. apply (le_dec_shiftl 2). Qed.
Lemma le_dec_shiftl_32 : Z.shiftl (le_dec bs) 32 = le_dec (zeros 4 ++ bs).
Proof. apply (le_dec_shiftl 4). Qed.
Lemma le_dec_u32 : (4 <= length bs)%nat -> u32 (le_dec bs) = le_dec (take 4 bs).
Proof. apply (le_dec_take 4). Qed.
Lemma le_dec_u64 : (8 <= length bs)%nat -> u64 (le_dec bs) = le_dec (take 8 bs).
Proof. apply (le_dec_take 8). Qed.
End widths.

(** Turn word operations on [le_dec] of explicit byte lists into operations on the
    lists. *)
Ltac word_bytes :=
  repeat (first
    [ rewrite le_dec_shiftr_8 by (simpl; lia) | rewrite le_dec_shiftr_16 by (simpl; lia)
    | rewrite le_dec_shiftr_32 by (simpl; lia)
    | rewrite le_dec_shiftl_8 | rewrite le_dec_shiftl_16 | rewrite le_dec_shiftl_32
    | rewrite le_dec_u32 by (simpl; lia) | rewrite le_dec_u64 by (simpl; lia)
    | rewrite le_dec_lor by reflexivity | rewrite le_dec_land by reflexivity ];
    cbn [take drop zeros replicate app zip_with];
    rewrite ?byte_lor_zero_l, ?byte_lor_zero_r, ?byte_land_zero, ?byte_land_ones).

(** Big-endian encodings. *)
Definition be_enc (n : nat) (z : Z) : bytes := rev (le_enc n z).
Definition be_dec (bs : bytes) : Z := le_dec (rev bs).

#[global] Arguments be_enc : simpl never.
#[global] Arguments be_dec : simpl never.

Lemma be_enc_length n z : length (be_enc n z) = n.
Proof. unfold be_enc. by rewrite length_rev, le_enc_length. Qed.

#[export] Hint Rewrite be_enc_length : doge_rw.

(** A region of known length is the list of its bytes. *)
Lemma length_4_inv (bs : bytes) :
  length bs = 4%nat -> exists a b c d, bs = [a; b; c; d].
Proof. destruct bs as [|a [|b [|c [|d []]]]]; try done. by exists a, b, c, d. Qed.

Lemma length_8_inv (bs : bytes) :
  length bs = 8%nat -> exists a b c d e f g h, bs = [a; b; c; d; e; f; g; h].
Proof.
  destruct bs as [|a [|b [|c [|d [|e [|f [|g [|h []]]]]]]]]; try done.
  by exists a, b, c, d, e, f, g, h.
Qed.

Lemma le_enc_add n m z :
  le_enc (n + m) z = le_enc n z ++ le_enc m (Z.shiftr z (8 * Z.of_nat n)).
Proof.
  revert z. induction n as [|n IH]; intros z; [by rewrite Z.shiftr_0_r|].
  change (le_enc (S n + m) z) with (byte.of_Z z :: le_enc (n + m) (Z.shiftr z 8)).
  change (le_enc (S n) z) with (byte.of_Z z :: le_enc n (Z.shiftr z 8)).
  rewrite IH, Z.shiftr_shiftr by lia. cbn [app]. do 4 f_equal. lia.
Qed.

Lemma be_enc_add n m z :
  be_enc (n + m) z = be_enc m (Z.shiftr z (8 * Z.of_nat n)) ++ be_enc n z.
Proof. unfold be_enc. by rewrite le_enc_add, rev_app_distr. Qed.

Lemma lor_disjoint a h s :
  0 <= s -> (2 ^ s | a) -> 0 <= h < 2 ^ s -> Z.lor a h = a + h.
Proof.
  intros Hs [q ->] Hh. symmetry. apply Z.add_nocarry_lor.
  apply Z.bits_inj'. intros n Hn. rewrite Z.land_spec, Z.bits_0.
  destruct (Z.lt_ge_cases n s).
  - by rewrite Z.mul_pow2_bits_low.
  - rewrite (testbit_high s h), andb_false_r by (done || lia). done.
Qed.

Lemma le_dec_app a b : le_dec (a ++ b) = le_dec a + 2 ^ (8 * Z.of_nat (length a)) * le_dec b.
Proof.
  unfold le_dec. rewrite le_combine_app, Z.shiftl_mul_pow2 by lia.
  rewrite (Z.mul_comm (Z.of_nat _)). fold (le_dec a) (le_dec b).
  rewrite Z.lor_comm, lor_disjoint with (s := 8 * Z.of_nat (length a)).
  - lia.
  - lia.
  - by exists (le_dec b).
  - apply le_dec_range.
Qed.

(** ** Single bits *)

Lemma land_pow2_eqb x j : 0 <= j -> (Z.land x (2 ^ j) =? 0) = negb (Z.testbit x j).
Proof.
  intros Hj. assert (Z.testbit (Z.land x (2 ^ j)) j = Z.testbit x j) as E.
  { by rewrite Z.land_spec, Z.pow2_bits_true, andb_true_r. }
  destruct (Z.testbit x j) eqn:Ex; simpl.
  - apply Z.eqb_neq. intros H0. by rewrite H0, Z.testbit_0_l in E.
  - apply Z.eqb_eq. apply Z.bits_inj'. intros n Hn.
    rewrite Z.land_spec, Z.pow2_bits_eqb, Z.testbit_0_l by done.
    destruct (Z.eqb_spec j n) as [<-|]; [by rewrite Ex|by rewrite andb_false_r].
Qed.

Lemma land_pow2 x j : 0 <= j -> Z.land x (2 ^ j) = if Z.testbit x j then 2 ^ j else 0.
Proof.
  intros Hj. apply Z.bits_inj'. intros n Hn. rewrite Z.land_spec, Z.pow2_bits_eqb by done.
  destruct (Z.eqb_spec j n) as [<-|Hne].
  - rewrite andb_true_r. destruct (Z.testbit x j); [|by rewrite Z.testbit_0_l].
    by rewrite Z.pow2_bits_true.
  - rewrite andb_false_r. destruct (Z.testbit x j); [|by rewrite Z.testbit_0_l].
    by rewrite Z.pow2_bits_false.
Qed.
