(* ===== verification/Cstr.v ===== *)
(** * Growable byte strings ([src/src/cstr.c])

    A [cstring] owns a heap region of [alloc] bytes of which the first [len] are
    the contents, followed by a NUL.  The region is a list of cells; a cell is
    [None] while the C object is indeterminate (fresh memory of [realloc]).
    Whether an allocation of [n] bytes succeeds is the interface [Allocator]
    (the memory mapper of [src/src/mem.c] can be replaced by the caller).
    Operations that write outside the region have no result ([None]). *)

From S2P Require Import Prelude Mem.

Local Open Scope Z_scope.

Record cstring := mk_cstring { str : cells; len : Z; alloc : Z }.

(** [calloc(1, sizeof( cstring ))]: NULL region, no contents. *)
Definition cstring_zero : cstring := {| str := []; len := 0; alloc := 0 |}.

Definition SIZEOF_CSTRING : Z := 24.

(** ** Operations *)

(** [s->str[s->len] = 0] *)
Definition terminate (s : cstring) : option cstring :=
  r ← mem_write (len s) [Some byte_zero] (str s);
  Some {| str := r; len := len s; alloc := alloc s |}.

Definition set_len (s : cstring) (n : Z) : cstring :=
  {| str := str s; len := n; alloc := alloc s |}.

Section ops.
Context `{!Allocator}.

(** The loop of [cstr_alloc_min_sz]: the least [shift >= 3] with
    [sz <= 1 << shift], or 64 when there is none. *)
Fixpoint find_shift (fuel : nat) (shift sz : Z) : Z :=
  match fuel with
  | O => shift
  | S fuel =>
      if (shift <? 64) && (Z.shiftl 1 shift <? sz)
      then find_shift fuel (shift + 1) sz else shift
  end.

Definition cstr_alloc_min_sz (s : cstring) (sz : Z) : option (bool * cstring) :=
  if sz =? 2 ^ 64 - 1 then Some (false, s)
  else
    let sz := u64 (sz + 1) in
    if negb (alloc s =? 0) && (sz <=? alloc s) then Some (true, s)
    else
      let shift := find_shift 62 3 sz in
      if 64 <=? shift then Some (false, s)
      else
        let al_sz := Z.shiftl 1 shift in
        if alloc_ok al_sz then
          s' ← terminate {| str := realloc_cells (Z.to_nat al_sz) (str s);
                            len := len s; alloc := al_sz |};
          Some (true, s')
        else Some (false, s).

Definition cstr_alloc_minsize (s : cstring) (new_sz : Z) : option (bool * cstring) :=
  if new_sz =? len s then Some (true, s)
  else if new_sz <=? len s then Some (false, s)
  else
    r ← cstr_alloc_min_sz s new_sz;
    if (r.1 : bool) then s' ← terminate r.2; Some (true, s')
    else Some (false, r.2).

(** The result is [None] for NULL; the outer option is undefined behaviour. *)
Definition cstr_new_sz (sz : Z) : option (option cstring) :=
  if alloc_ok SIZEOF_CSTRING then
    r ← cstr_alloc_min_sz cstring_zero sz;
    Some (if (r.1 : bool) then Some r.2 else None)
  else Some None.

Definition cstr_new_buf (buf : bytes) : option (option cstring) :=
  let sz := Z.of_nat (length buf) in
  o ← cstr_new_sz sz;
  match o with
  | None => Some None
  | Some s =>
      r ← mem_write 0 (Some <$> buf) (str s);
      s' ← terminate {| str := r; len := sz; alloc := alloc s |};
      Some (Some s')
  end.

Definition cstr_resize (s : cstring) (new_sz : Z) : option (bool * cstring) :=
  if new_sz =? len s then Some (true, s)
  else if new_sz <=? len s then
    s' ← terminate (set_len s new_sz); Some (true, s')
  else
    r ← cstr_alloc_min_sz s new_sz;
    if (r.1 : bool) then s' ← terminate (set_len r.2 new_sz); Some (true, s')
    else Some (false, r.2).

Definition cstr_append_buf (s : cstring) (buf : bytes) : option (bool * cstring) :=
  let sz := Z.of_nat (length buf) in
  r ← cstr_alloc_min_sz s (u64 (len s + sz));
  if (r.1 : bool) then
    r' ← mem_write (len r.2) (Some <$> buf) (str r.2);
    s' ← terminate {| str := r'; len := u64 (len r.2 + sz); alloc := alloc r.2 |};
    Some (true, s')
  else Some (false, r.2).

Definition cstr_append_c (s : cstring) (ch : Byte.byte) : option (bool * cstring) :=
  cstr_append_buf s [ch].

(** [len] is signed; the conversions to [size_t] are written out. *)
Definition cstr_erase (s : cstring) (pos elen : Z) : option (bool * cstring) :=
  if (pos =? len s) && (elen =? 0) then Some (true, s)
  else if len s <=? pos then Some (false, s)
  else
    let old_tail := len s - pos in
    if (0 <=? elen) && (old_tail <? elen) then Some (false, s)
    else
      r ← memmove_cells pos (pos + elen) (old_tail - elen) (str s);
      s' ← terminate {| str := r; len := len s - elen; alloc := alloc s |};
      Some (true, s').
End ops.

(** The contents a caller reads through [str] and [len]. *)
Definition cstr_view (s : cstring) : option bytes :=
  mapM id (take (Z.to_nat (len s)) (str s)).

Definition cstr_append_cstr `{!Allocator} (s append : cstring) : option (bool * cstring) :=
  b ← cstr_view append; cstr_append_buf s b.

(** [a == b] compares pointers; two distinct objects are compared by length and
    [memcmp].  [None] stands for a NULL pointer. *)
Definition cstr_equal (a b : option cstring) : bool :=
  match a, b with
  | None, None => true
  | Some a, Some b =>
      if negb (len a =? len b) then false
      else bool_decide (take (Z.to_nat (len a)) (str a) = take (Z.to_nat (len a)) (str b))
  | _, _ => false
  end.

Section compare.
(** Whether plain [char] is signed is up to the platform. *)
Context (char_signed : bool).

Definition char_val (b : Byte.byte) : Z :=
  if char_signed then swrap 8 (byte.unsigned b) else byte.unsigned b.

Fixpoint compare_chars (a b : bytes) : Z :=
  match a, b with
  | x :: a, y :: b =>
      if char_val y <? char_val x then 1
      else if char_val x <? char_val y then -1
      else compare_chars a b
  | _, _ => 0
  end.

Definition cstr_compare (a b : bytes) : Z :=
  if (length b <? length a)%nat then 1
  else if (length a <? length b)%nat then -1
  else compare_chars a b.
End compare.

(** ** Representation invariant *)

(** [s] holds the contents [l]: a power-of-two region with room for the
    contents and the NUL behind them. *)
Record cstr_repr (s : cstring) (l : bytes) : Prop := {
  repr_len : len s = Z.of_nat (length l);
  repr_alloc : Z.of_nat (length (str s)) = alloc s;
  repr_pow2 : exists k, 3 <= k < 64 /\ alloc s = 2 ^ k;
  repr_room : len s < alloc s;
  repr_data : take (length l) (str s) = Some <$> l;
  repr_nul : str s !! length l = Some (Some byte_zero);
}.

(** What holds of a string before its region is grown: no room yet for a NUL. *)
Record cstr_raw (s : cstring) (l : bytes) : Prop := {
  raw_len : len s = Z.of_nat (length l);
  raw_alloc : Z.of_nat (length (str s)) = alloc s;
  raw_data : take (length l) (str s) = Some <$> l;
}.

Lemma cstr_repr_raw s l : cstr_repr s l -> cstr_raw s l.
Proof. by intros []. Qed.

Lemma cstr_raw_room s l : cstr_raw s l -> len s <= alloc s.
Proof.
  intros [H1 H2 H3]. apply (f_equal length) in H3.
  rewrite length_take, length_fmap in H3. lia.
Qed.

Lemma mapM_id_some (l : bytes) : mapM id (Some <$> l) = Some l.
Proof. apply mapM_Some_2. induction l; constructor; auto. Qed.

Lemma cstr_view_repr s l : cstr_repr s l -> cstr_view s = Some l.
Proof.
  intros [H1 _ _ _ H4 _]. unfold cstr_view.
  rewrite H1, Nat2Z.id, H4. apply mapM_id_some.
Qed.

(** Writing the NUL turns a raw string with a power-of-two region into a
    represented one. *)
Lemma terminate_repr s l k :
  cstr_raw s l -> 3 <= k < 64 -> alloc s = 2 ^ k -> len s < alloc s ->
  exists s', terminate s = Some s' /\ cstr_repr s' l /\ alloc s' = alloc s.
Proof.
  intros [H1 H2 H3] Hk Ha Hlt. unfold terminate.
  rewrite mem_write_in by (simpl; lia). simpl.
  eexists; split; [done|]. split; [|done].
  split; simpl; try done; rewrite ?length_inserts; simpl; eauto.
  - by rewrite length_insert.
  - rewrite H1, Nat2Z.id. by rewrite take_insert_ge by lia.
  - rewrite H1, Nat2Z.id. apply list_lookup_insert_eq. lia.
Qed.

Lemma mem_write_raw s l b r :
  cstr_raw s l -> mem_write (len s) (Some <$> b) (str s) = Some r ->
  cstr_raw {| str := r; len := len s + Z.of_nat (length b); alloc := alloc s |} (l ++ b).
Proof.
  intros [H1 H2 H3]. unfold mem_write. case_if; [|done].
  intros [= <-]. zbool. rewrite length_fmap in *. split; simpl.
  - rewrite length_app. lia.
  - by rewrite length_inserts.
  - rewrite inserts_split by (rewrite length_fmap; lia).
    rewrite app_assoc, take_app_exact.
    + rewrite H1, Nat2Z.id, H3. by rewrite fmap_app.
    + rewrite !length_app, length_take, length_fmap. lia.
Qed.

Lemma find_shift_spec fuel shift sz :
  0 <= shift <= 64 -> 64 - shift <= Z.of_nat fuel ->
  let r := find_shift fuel shift sz in
  shift <= r <= 64 /\ (r < 64 -> sz <= 2 ^ r) /\
  (forall j, shift <= j < r -> 2 ^ j < sz).
Proof.
  revert shift. induction fuel as [|fuel IH]; intros shift Hs Hf; simpl.
  { repeat split; try lia. }
  case_if; zbool; rewrite ?Z.shiftl_1_l in *.
  - destruct (IH (shift + 1)) as (? & ? & Hj); [lia..|].
    split; [lia|]. split; [done|]. intros j Hj'.
    destruct (decide (j = shift)) as [->|]; [done|apply Hj; lia].
  - apply andb_false_iff in Heqb as [?|?]; zbool; rewrite ?Z.shiftl_1_l in *;
      repeat split; intros; lia.
Qed.

Section specs.
Context `{!Allocator}.

(** Growing the region keeps the contents; the new capacity is the least power
    of two (at least 8) with room for [sz] bytes and a NUL. *)
Lemma cstr_alloc_min_sz_spec s l sz :
  cstr_raw s l -> (alloc s = 0 \/ cstr_repr s l) -> len s <= sz < 2 ^ 63 ->
  exists ok s', cstr_alloc_min_sz s sz = Some (ok, s') /\
  if (ok : bool) then
    cstr_repr s' l /\ sz < alloc s' /\
    (alloc s' = alloc s \/
     exists k, 3 <= k /\ alloc s' = 2 ^ k /\ (3 < k -> 2 ^ (k - 1) <= sz))
  else s' = s /\ exists n, alloc_ok n = false.
Proof.
  intros Hraw Hor Hsz. unfold cstr_alloc_min_sz.
  destruct (Z.eqb_spec sz (2 ^ 64 - 1)); [lia|].
  pose proof (raw_len _ _ Hraw).
  rewrite (wrap_small 64) by (unfold urange; lia).
  case_if; zbool.
  { destruct Hor as [|Hrepr]; [lia|]. eexists true, s. split; [done|].
    split; [done|]. split; [lia|by left]. }
  destruct (find_shift_spec 62 3 (sz + 1)) as (Hr & Hle & Hgt); [lia..|].
  set (k := find_shift 62 3 (sz + 1)) in *.
  assert (k < 64) as Hk.
  { destruct (decide (k = 64)) as [Hk|]; [|lia].
    specialize (Hgt 63 ltac:(lia)). lia. }
  destruct (Z.leb_spec 64 k); [lia|]. specialize (Hle Hk).
  rewrite Z.shiftl_1_l.
  destruct (alloc_ok (2 ^ k)) eqn:Hok.
  2:{ eexists false, s. split; [done|]. split; [done|]. by exists (2 ^ k). }
  set (s1 := {| str := _; len := len s; alloc := 2 ^ k |}).
  assert (cstr_raw s1 l) as Hraw1.
  { pose proof (cstr_raw_room _ _ Hraw). destruct Hraw as [E1 E2 E3].
    assert (alloc s <= 2 ^ k).
    { apply andb_false_iff in Heqb. destruct Heqb; zbool; lia. }
    split; simpl; [done|..]; unfold realloc_cells.
    - rewrite length_app, length_take, length_replicate. lia.
    - rewrite take_app_le by (rewrite length_take; lia).
      by rewrite take_take, Nat.min_l by lia. }
  destruct (terminate_repr s1 l k Hraw1) as (s2 & -> & Hrepr & Ha); simpl; [lia..|].
  eexists true, s2. split; [done|]. split; [done|]. simpl in Ha.
  rewrite Ha. split; [lia|]. right. exists k. split; [lia|]. split; [done|].
  intros. specialize (Hgt (k - 1) ltac:(lia)). lia.
Qed.

Lemma cstr_append_buf_cases s l b :
  cstr_repr s l -> Z.of_nat (length l + length b) < 2 ^ 63 ->
  exists ok s', cstr_append_buf s b = Some (ok, s') /\
  if (ok : bool) then
    cstr_repr s' (l ++ b) /\
    (alloc s' = alloc s \/
     exists k, 3 <= k /\ alloc s' = 2 ^ k /\
               (3 < k -> 2 ^ (k - 1) <= Z.of_nat (length (l ++ b))))
  else s' = s /\ exists n, alloc_ok n = false.
Proof.
  intros Hrepr Hlt. unfold cstr_append_buf.
  pose proof (repr_len _ _ Hrepr) as Hlen.
  rewrite wrap_small by (unfold urange; lia).
  destruct (cstr_alloc_min_sz_spec s l (len s + Z.of_nat (length b)))
    as (ok & s1 & -> & Hok); [by apply cstr_repr_raw|by right|lia|].
  simpl. destruct ok; [|eauto 6].
  destruct Hok as (Hrepr1 & Hcap & Hgrow).
  pose proof (repr_len _ _ Hrepr1) as Hlen1.
  pose proof (repr_alloc _ _ Hrepr1) as Ha1.
  destruct (mem_write (len s1) (Some <$> b) (str s1)) as [r|] eqn:Hw.
  2:{ exfalso. rewrite mem_write_in in Hw by (rewrite ?length_fmap; lia). done. }
  simpl. rewrite wrap_small by (unfold urange; lia).
  pose proof (mem_write_raw _ _ _ _ (cstr_repr_raw _ _ Hrepr1) Hw) as Hraw.
  destruct (repr_pow2 _ _ Hrepr1) as (k & Hk & Hak).
  destruct (terminate_repr _ _ k Hraw) as (s2 & -> & Hrepr2 & Ha2); simpl; [lia..|].
  simpl in Ha2. eexists true, s2. split; [done|]. split; [done|].
  rewrite Ha2, length_app. destruct Hgrow as [|(k' & ? & ? & ?)]; [by left|].
  right. exists k'. split; [done|]. split; [done|]. intros. lia.
Qed.
End specs.

(** ** The abstract string and the refinement *)

(** The calls a client makes on one string. *)
Inductive cstr_op :=
  | OpAppend (b : bytes)
  | OpAppendC (c : Byte.byte)
  | OpResize (n : Z)
  | OpMinsize (n : Z)
  | OpErase (pos n : Z).

Definition run_op `{!Allocator} (o : cstr_op) (s : cstring) : option (bool * cstring) :=
  match o with
  | OpAppend b => cstr_append_buf s b
  | OpAppendC c => cstr_append_c s c
  | OpResize n => cstr_resize s n
  | OpMinsize n => cstr_alloc_minsize s n
  | OpErase pos n => cstr_erase s pos n
  end.

Fixpoint run_ops `{!Allocator} (os : list cstr_op) (s : cstring)
    : option (list bool * cstring) :=
  match os with
  | [] => Some ([], s)
  | o :: os =>
      r ← run_op o s; r' ← run_ops os r.2; Some (r.1 :: r'.1, r'.2)
  end.

(** What the calls promise of the contents.  A growing [cstr_resize] leaves the
    new tail indeterminate and a negative erase length reads backwards: no
    contents are promised for them. *)
Definition spec_op (o : cstr_op) (l : bytes) : option (bool * bytes) :=
  let n := Z.of_nat (length l) in
  match o with
  | OpAppend b =>
      if n + Z.of_nat (length b) <? 2 ^ 63 then Some (true, l ++ b) else None
  | OpAppendC c => if n + 1 <? 2 ^ 63 then Some (true, l ++ [c]) else None
  | OpResize m =>
      if (0 <=? m) && (m <=? n) then Some (true, take (Z.to_nat m) l) else None
  | OpMinsize m =>
      if (0 <=? m) && (m <? 2 ^ 63) then Some (n <=? m, l) else None
  | OpErase pos m =>
      if (0 <=? pos) && (0 <=? m) then
        if (pos =? n) && (m =? 0) then Some (true, l)
        else if (n <=? pos) || (n - pos <? m) then Some (false, l)
        else Some (true, take (Z.to_nat pos) l ++ drop (Z.to_nat (pos + m)) l)
      else None
  end.

Fixpoint spec_ops (os : list cstr_op) (l : bytes) : option (list bool * bytes) :=
  match os with
  | [] => Some ([], l)
  | o :: os =>
      r ← spec_op o l; r' ← spec_ops os r.2; Some (r.1 :: r'.1, r'.2)
  end.

Section refinement.
#[local] Existing Instance default_mapper.

Lemma append_refines s l b :
  cstr_repr s l -> Z.of_nat (length l) + Z.of_nat (length b) < 2 ^ 63 ->
  exists s', cstr_append_buf s b = Some (true, s') /\ cstr_repr s' (l ++ b).
Proof.
  intros Hr Hlt.
  destruct (cstr_append_buf_cases s l b) as ([] & s' & -> & H); [done|lia|..].
  - destruct H; eauto.
  - by destruct H as [_ [n Hn]].
Qed.

Lemma minsize_refines s l n :
  cstr_repr s l -> 0 <= n < 2 ^ 63 ->
  exists s', cstr_alloc_minsize s n = Some (Z.of_nat (length l) <=? n, s') /\
             cstr_repr s' l.
Proof.
  intros Hr Hn. pose proof (repr_len _ _ Hr) as Hl. unfold cstr_alloc_minsize.
  rewrite <- Hl. destruct (Z.eqb_spec n (len s)) as [->|].
  { exists s. by rewrite Z.leb_refl. }
  destruct (Z.leb_spec n (len s)).
  { exists s. by rewrite (proj2 (Z.leb_gt _ _)) by lia. }
  destruct (cstr_alloc_min_sz_spec s l n) as ([] & s1 & -> & H1);
    [by apply cstr_repr_raw|by right|lia|..].
  2:{ by destruct H1 as [_ [m Hm]]. }
  destruct H1 as (Hr1 & _). simpl.
  destruct (repr_pow2 _ _ Hr1) as (k & Hk & Ha).
  destruct (terminate_repr s1 l k) as (s2 & -> & Hr2 & _);
    [by apply cstr_repr_raw|done|done|by apply (repr_room _ _ Hr1)|].
  exists s2. by rewrite (proj2 (Z.leb_le _ _)) by lia.
Qed.

Lemma truncate_raw s l n :
  cstr_repr s l -> 0 <= n <= len s -> cstr_raw (set_len s n) (take (Z.to_nat n) l).
Proof.
  intros [H1 H2 _ _ H5 _] Hn. split; simpl.
  - rewrite length_take. lia.
  - done.
  - rewrite length_take, Nat.min_l by lia.
    rewrite fmap_take, <- H5, take_take, Nat.min_l by lia. done.
Qed.

Lemma resize_refines s l n :
  cstr_repr s l -> 0 <= n <= Z.of_nat (length l) ->
  exists s', cstr_resize s n = Some (true, s') /\ cstr_repr s' (take (Z.to_nat n) l).
Proof.
  intros Hr Hn. pose proof (repr_len _ _ Hr) as Hl. unfold cstr_resize.
  destruct (Z.eqb_spec n (len s)) as [->|].
  { exists s. split; [done|]. by rewrite take_ge by lia. }
  rewrite (proj2 (Z.leb_le _ _)) by lia.
  destruct (repr_pow2 _ _ Hr) as (k & Hk & Ha).
  pose proof (repr_room _ _ Hr).
  destruct (terminate_repr (set_len s n) (take (Z.to_nat n) l) k)
    as (s2 & -> & Hr2 & _); simpl; [apply truncate_raw; [done|lia]|done|done|lia|].
  by exists s2.
Qed.

Lemma erase_raw s l pos n r :
  cstr_repr s l -> 0 <= pos -> 0 <= n -> pos + n <= len s ->
  memmove_cells pos (pos + n) (len s - pos - n) (str s) = Some r ->
  cstr_raw {| str := r; len := len s - n; alloc := alloc s |}
           (take (Z.to_nat pos) l ++ drop (Z.to_nat (pos + n)) l).
Proof.
  intros [H1 H2 _ H4 H5 _] Hp Hn Hle. unfold memmove_cells.
  rewrite mem_read_in by lia. simpl.
  set (chunk := take _ _).
  assert (chunk = Some <$> drop (Z.to_nat (pos + n)) l) as ->.
  { unfold chunk. rewrite fmap_drop, <- H5. rewrite skipn_firstn_comm.
    do 2 f_equal. lia. }
  rewrite mem_write_in by (rewrite ?length_fmap, ?length_drop; lia).
  intros [= <-]. split; simpl.
  - rewrite length_app, length_take, length_drop. lia.
  - by rewrite length_inserts.
  - rewrite inserts_split by (rewrite length_fmap, length_drop; lia).
    rewrite app_assoc, take_app_exact.
    2:{ rewrite !length_app, !length_take, length_fmap, length_drop. lia. }
    rewrite fmap_app. f_equal. rewrite fmap_take, <- H5, take_take.
    f_equal. lia.
Qed.

Lemma erase_refines s l pos n :
  cstr_repr s l -> 0 <= pos -> 0 <= n -> pos + n <= Z.of_nat (length l) ->
  pos < Z.of_nat (length l) ->
  exists s', cstr_erase s pos n = Some (true, s') /\
    cstr_repr s' (take (Z.to_nat pos) l ++ drop (Z.to_nat (pos + n)) l).
Proof.
  intros Hr Hp Hn Hle Hlt. pose proof (repr_len _ _ Hr) as Hl.
  pose proof (repr_alloc _ _ Hr). pose proof (repr_room _ _ Hr).
  unfold cstr_erase.
  rewrite (proj2 (Z.eqb_neq pos (len s))) by lia. simpl.
  rewrite (proj2 (Z.leb_gt (len s) pos)), (proj2 (Z.ltb_ge (len s - pos) n)) by lia.
  rewrite andb_false_r.
  destruct (memmove_cells _ _ _ _) as [r|] eqn:Hm.
  2:{ exfalso. unfold memmove_cells in Hm. rewrite mem_read_in in Hm by lia.
      simpl in Hm. rewrite mem_write_in in Hm; [done|lia|].
      rewrite length_take, length_drop. lia. }
  simpl. apply (erase_raw _ l) in Hm; [|done..|lia].
  destruct (repr_pow2 _ _ Hr) as (k & Hk & Ha).
  destruct (terminate_repr _ _ k Hm) as (s2 & -> & Hr2 & _); simpl; [lia..|].
  by exists s2.
Qed.

Lemma op_refines o s l r l' :
  cstr_repr s l -> spec_op o l = Some (r, l') ->
  exists s', run_op o s = Some (r, s') /\ cstr_repr s' l'.
Proof.
  intros Hr. pose proof (repr_len _ _ Hr) as Hl.
  destruct o as [b|c|n|n|pos n]; simpl; intros Hs.
  - case_if; [|done]. simplify_eq. zbool. by apply append_refines.
  - case_if; [|done]. simplify_eq. zbool. by apply append_refines.
  - case_if; [|done]. simplify_eq. zbool. by apply resize_refines.
  - case_if; [|done]. simplify_eq. zbool. by apply minsize_refines.
  - case_if; [|done]. zbool. destruct (_ && _)%bool eqn:He.
    { simplify_eq. exists s. split; [|done]. unfold cstr_erase.
      by rewrite Hl, He. }
    destruct (_ || _)%bool eqn:Ho; simplify_eq.
    + exists s. split; [|done]. unfold cstr_erase. rewrite Hl, He.
      apply orb_true_iff in Ho as [Ho|Ho]; rewrite Ho; [done|].
      destruct (_ <=? pos); [done|]. by rewrite (proj2 (Z.leb_le 0 n)) by done.
    + zbool. by apply erase_refines; [..|lia|lia].
Qed.

Lemma run_ops_refine os s l rs l' :
  cstr_repr s l -> spec_ops os l = Some (rs, l') ->
  exists s', run_ops os s = Some (rs, s') /\ cstr_repr s' l'.
Proof.
  revert s l rs. induction os as [|o os IH]; intros s l rs Hr; simpl.
  { intros [= <- <-]. eauto. }
  destruct (spec_op o l) as [[b l1]|] eqn:Ho; [|done]. simpl.
  destruct (spec_ops os l1) as [[bs l2]|] eqn:Hos; [|done]. simpl.
  intros [= <- <-].
  destruct (op_refines o s l b l1 Hr Ho) as (s1 & -> & Hr1). simpl.
  destruct (IH s1 l1 bs Hr1 Hos) as (s2 & -> & Hr2). eauto.
Qed.

Lemma cstr_new_sz_repr n :
  0 <= n < 2 ^ 63 ->
  exists s, cstr_new_sz n = Some (Some s) /\ cstr_repr s [] /\ n < alloc s.
Proof.
  intros Hn. unfold cstr_new_sz. simpl.
  destruct (cstr_alloc_min_sz_spec cstring_zero [] n)
    as ([] & s1 & -> & H1); [by split|by left|simpl; lia|..].
  - destruct H1 as (? & ? & _). simpl. eauto.
  - by destruct H1 as [_ [m Hm]].
Qed.

Lemma cstr_new_buf_repr b :
  Z.of_nat (length b) < 2 ^ 63 ->
  exists s, cstr_new_buf b = Some (Some s) /\ cstr_repr s b.
Proof.
  intros Hb. unfold cstr_new_buf.
  destruct (cstr_new_sz_repr (Z.of_nat (length b))) as (s & -> & Hr & Hcap); [lia|].
  simpl. pose proof (repr_alloc _ _ Hr). pose proof (repr_len _ _ Hr) as Hl.
  destruct (mem_write 0 (Some <$> b) (str s)) as [r|] eqn:Hw.
  2:{ exfalso. rewrite mem_write_in in Hw by (rewrite ?length_fmap; lia). done. }
  simpl. change (Z.of_nat (length [])) with 0 in Hl. rewrite <- Hl in Hw.
  apply (mem_write_raw s []) in Hw; [|by apply cstr_repr_raw].
  rewrite Hl, Z.add_0_l in Hw.
  destruct (repr_pow2 _ _ Hr) as (k & Hk & Ha).
  destruct (terminate_repr _ _ k Hw) as (s2 & -> & Hr2 & _); simpl; [lia..|].
  eauto.
Qed.

(** A string made by [cstr_new_buf] and driven by any sequence of appends,
    truncations, reservations and erasures runs without undefined behaviour
    under the default mapper, returns what the abstract string returns, and
    ends with a region (a power of two, NUL-terminated) that holds exactly the
    abstract contents. *)
Theorem cstr_ops_refine b os rs l :
  Z.of_nat (length b) < 2 ^ 63 -> spec_ops os b = Some (rs, l) ->
  exists s s', cstr_new_buf b = Some (Some s) /\
    run_ops os s = Some (rs, s') /\ cstr_repr s' l /\ cstr_view s' = Some l.
Proof.
  intros Hb Hs. destruct (cstr_new_buf_repr b Hb) as (s & Hn & Hr).
  destruct (run_ops_refine os s b rs l Hr Hs) as (s' & Hrun & Hr').
  exists s, s'. split_and!; auto using cstr_view_repr.
Qed.

Lemma cstr_ops_refine_witness :
  exists s s', cstr_new_buf [Byte.x61] = Some (Some s) /\
    run_ops [OpAppend [Byte.x62; Byte.x63]; OpErase 1 1; OpResize 1] s
      = Some ([true; true; true], s') /\
    cstr_repr s' [Byte.x61] /\ cstr_view s' = Some [Byte.x61].
Proof.
  apply (cstr_ops_refine [Byte.x61]
           [OpAppend [Byte.x62; Byte.x63]; OpErase 1 1; OpResize 1]
           [true; true; true] [Byte.x61]).
  - vm_compute. reflexivity.
  - vm_compute. reflexivity.
Defined.
End refinement.

(** [cstr_erase] guards only non-negative lengths: with a negative one the move
    reads before [pos] and can run past the region. *)
Example cstr_erase_negative :
  cstr_erase {| str := Some <$> (replicate 7 Byte.x61 ++ [byte_zero]);
                len := 7; alloc := 8 |} 3 (-2) = None.
Proof. vm_compute. reflexivity. Qed.
