(* ===== verification/Serialize.v ===== *)
(** * Wire encoding ([src/src/serialize.c], [src/src/buffer.c])

    The [ser_*] functions append to a byte sink; the [deser_*] functions consume
    a [const_buffer].  A sink is anything with an append operation (interface
    [ByteSink]): the plain byte list, or the heap-allocated string of [Cstr].
    A deserialiser is a function on the remaining bytes; it returns the decoded
    value, if any, together with the bytes it leaves, since a failing C
    deserialiser keeps what it has consumed. *)

From S2P Require Import Prelude Mem Cstr.

Local Open Scope Z_scope.

(** ** Sinks *)

Class ByteSink (S : Type) := sink_append : S -> bytes -> S.

(** [sink_holds s l]: the sink [s] holds the bytes [l]; appending extends them as
    long as the total stays below [2^63] bytes. *)
Class ByteSinkSpec (S : Type) `{!ByteSink S} := {
  sink_holds : S -> bytes -> Prop;
  sink_append_holds s l b :
    sink_holds s l -> Z.of_nat (length l + length b) < 2 ^ 63 ->
    sink_holds (sink_append s b) (l ++ b);
}.

#[export] Instance bytes_sink : ByteSink bytes := fun s b => s ++ b.

#[export] Program Instance bytes_sink_spec : ByteSinkSpec bytes :=
  {| sink_holds := eq |}.
Next Obligation. intros; by subst. Qed.

(** A [cstring *] whose appends ignore the return value, as every [ser_*]
    function does; [None] once undefined behaviour has occurred. *)
#[export] Instance cstring_sink `{!Allocator} : ByteSink (option cstring) :=
  fun s b => s ← s; r ← cstr_append_buf s b; Some r.2.

Section cstring_sink.
#[local] Existing Instance default_mapper.

#[export] Program Instance cstring_sink_spec : ByteSinkSpec (option cstring) :=
  {| sink_holds s l := exists c, s = Some c /\ cstr_repr c l |}.
Next Obligation.
  intros s l b (c & -> & Hr) Hlt. unfold sink_append, cstring_sink. simpl.
  destruct (append_refines c l b) as (c' & -> & Hr'); [done|lia|].
  simpl. eauto.
Qed.
End cstring_sink.

(** ** Serialisers *)

Definition UINT32_MAX : Z := 2 ^ 32 - 1.

(** [strnlen]: bytes before the first NUL, at most [maxlen]. *)
Fixpoint strnlen (s : bytes) (maxlen : nat) : nat :=
  match maxlen, s with
  | S maxlen, b :: s => if byte_eqb b byte_zero then O else S (strnlen s maxlen)
  | _, _ => O
  end.

Section ser.
Context {S : Type} `{!ByteSink S}.

Definition ser_bytes (s : S) (p : bytes) : S := sink_append s p.
Definition ser_u16 (s : S) (v : Z) : S := sink_append s (le_enc 2 v).
Definition ser_u32 (s : S) (v : Z) : S := sink_append s (le_enc 4 v).
Definition ser_s32 (s : S) (v : Z) : S := ser_u32 s (u32 v).
Definition ser_u64 (s : S) (v : Z) : S := sink_append s (le_enc 8 v).
Definition ser_s64 (s : S) (v : Z) : S := ser_u64 s (u64 v).
(** The 32 bytes at [v]. *)
Definition ser_u256 (s : S) (v : bytes) : S := ser_bytes s (take 32 v).

Definition ser_varlen (s : S) (vlen : Z) : S :=
  if vlen <? 253 then ser_bytes s [byte.of_Z vlen]
  else if vlen <? 65536 then ser_u16 (ser_bytes s [byte.of_Z 253]) (u16 vlen)
  else ser_u32 (ser_bytes s [byte.of_Z 254]) vlen.

Definition ser_str (s : S) (s_in : bytes) (maxlen : nat) : S :=
  let slen := strnlen s_in maxlen in
  if UINT32_MAX <? Z.of_nat slen then ser_varlen s 0
  else ser_bytes (ser_varlen s (u32 (Z.of_nat slen))) (take slen s_in).

(** [None] is the NULL pointer. *)
Definition ser_varstr (s : S) (s_in : option bytes) : S :=
  match s_in with
  | None => ser_varlen s 0
  | Some b =>
      let blen := Z.of_nat (length b) in
      if blen =? 0 then ser_varlen s 0
      else if UINT32_MAX <? blen then ser_varlen s 0
      else ser_bytes (ser_varlen s (u32 blen)) b
  end.
End ser.

(** ** Deserialisers *)

Definition deser (A : Type) : Type := bytes -> option A * bytes.

#[export] Instance deser_ret : MRet deser := fun A a buf => (Some a, buf).
#[export] Instance deser_bind : MBind deser := fun A B f d buf =>
  match d buf with
  | (Some a, buf) => f a buf
  | (None, buf) => (None, buf)
  end.

(** [return false] *)
Definition deser_fail {A} : deser A := fun buf => (None, buf).
Definition deser_guard (b : bool) : deser unit :=
  if b then mret tt else deser_fail.
(** [buf->len] *)
Definition deser_remaining : deser Z := fun buf => (Some (Z.of_nat (length buf)), buf).

Definition deser_skip (n : Z) : deser unit := fun buf =>
  if Z.of_nat (length buf) <? n then (None, buf)
  else (Some tt, drop (Z.to_nat n) buf).

Definition deser_bytes (n : Z) : deser bytes := fun buf =>
  if Z.of_nat (length buf) <? n then (None, buf)
  else (Some (take (Z.to_nat n) buf), drop (Z.to_nat n) buf).

Definition deser_u16 : deser Z := v ← deser_bytes 2; mret (le_dec v).
Definition deser_s32 : deser Z := v ← deser_bytes 4; mret (s32 (le_dec v)).
Definition deser_u32 : deser Z := v ← deser_bytes 4; mret (le_dec v).
Definition deser_u64 : deser Z := v ← deser_bytes 8; mret (le_dec v).
Definition deser_s64 : deser Z := v ← deser_u64; mret (s64 v).
Definition deser_u256 : deser bytes := deser_bytes 32.

Definition deser_varlen : deser Z :=
  c ← deser_bytes 1;
  let c := le_dec c in
  if c =? 253 then deser_u16
  else if c =? 254 then deser_u32
  else if c =? 255 then v64 ← deser_u64; mret (u32 v64)
  else mret c.

(** [so] is the caller's region; a value longer than [maxlen] is cut and the rest
    skipped, and a NUL is stored behind the copy or in the last cell. *)
Definition deser_str (so : bytes) (maxlen : Z) : deser bytes :=
  len ← deser_varlen;
  let skip_len := if maxlen <? len then u32 (len - maxlen) else 0 in
  let len := if maxlen <? len then maxlen else len in
  b ← deser_bytes len;
  deser_skip skip_len;;
  mret (<[Z.to_nat (if len <? maxlen then len else u64 (maxlen - 1)) := byte_zero]>
          (list_inserts 0 b so)).

(** The new string's contents; [*so] is NULL after a failure. *)
Definition deser_varstr : deser bytes :=
  len ← deser_varlen;
  n ← deser_remaining;
  if n <? len then deser_fail else deser_bytes len.

(** ** Reading a length from a file *)

(** [fread(p, 1, n, file)]: a short read consumes what there is. *)
Definition fread (n : nat) : deser bytes := fun file =>
  (if (length file <? n)%nat then None else Some (take n file), drop n file).

Definition deser_varlen_from_file : deser Z :=
  c ← fread 1;
  let c := le_dec c in
  if c =? 253 then v ← fread 2; mret (le_dec v)
  else if c =? 254 then v ← fread 4; mret (le_dec v)
  else if c =? 255 then v ← fread 8; mret (u32 (le_dec v))
  else mret c.

(** [rawdata] and [*buflen_inout] are returned as the call leaves them, also when
    it fails. *)
Definition deser_varlen_file (rawdata : bytes) (buflen : Z) (file : bytes)
    : option Z * bytes * Z * bytes :=
  if buflen <? 5 then (None, rawdata, buflen, file)
  else
    match fread 1 file with
    | (None, file) => (None, rawdata, buflen, file)
    | (Some c, file) =>
        let rawdata := list_inserts 0 c rawdata in
        let c := le_dec c in
        let more (n m : nat) :=
          match fread n file with
          | (None, file) => (None, rawdata, 1, file)
          | (Some v, file) =>
              (Some (u32 (le_dec v)), list_inserts 1 (take m v) rawdata,
               1 + Z.of_nat m, file)
          end in
        if c =? 253 then more 2%nat 2%nat
        else if c =? 254 then more 4%nat 4%nat
        else if c =? 255 then more 8%nat 4%nat
        else (Some c, rawdata, 1, file)
    end.

(** ** Plain buffers ([buffer.c]) *)

Definition buffer_equal (a b : bytes) : bool :=
  if negb (Z.of_nat (length a) =? Z.of_nat (length b)) then false
  else bool_decide (take (length a) a = take (length a) b).

Definition buffer_copy `{!Allocator} (data : bytes) : option bytes :=
  if alloc_ok 16 then
    if alloc_ok (Z.of_nat (length data)) then Some data else None
  else None.

(** ** Interfaces of a wire format *)

(** [Appends f]: on plain bytes, [f] only appends. *)
Class Appends {A} (f : bytes -> A -> bytes) : Prop :=
  appends s a : f s a = s ++ f [] a.

(** [RoundTrip ok f d]: on the values [ok], [d] reads back what [f] appended and
    leaves what follows. *)
Class RoundTrip {A} (ok : A -> Prop) (f : bytes -> A -> bytes) (d : deser A) : Prop :=
  round_trip a rest : ok a -> d (f [] a ++ rest) = (Some a, rest).

Lemma deser_bytes_app n b rest :
  Z.of_nat (length b) = n -> deser_bytes n (b ++ rest) = (Some b, rest).
Proof.
  intros <-. unfold deser_bytes. rewrite length_app.
  rewrite (proj2 (Z.ltb_ge _ _)) by lia.
  by rewrite Nat2Z.id, take_app_length, drop_app_length.
Qed.

Lemma deser_bytes_short n buf :
  Z.of_nat (length buf) < n -> deser_bytes n buf = (None, buf).
Proof. intros. unfold deser_bytes. by rewrite (proj2 (Z.ltb_lt _ _)). Qed.

Lemma deser_bind_some {A B} (d : deser A) (f : A -> deser B) buf a rest :
  d buf = (Some a, rest) -> (d ≫= f) buf = f a rest.
Proof. intros E. unfold mbind, deser_bind. by rewrite E. Qed.

Lemma deser_bind_none {A B} (d : deser A) (f : A -> deser B) buf rest :
  d buf = (None, rest) -> (d ≫= f) buf = (None, rest).
Proof. intros E. unfold mbind, deser_bind. by rewrite E. Qed.

(** Split a bind in a hypothesis. *)
Lemma deser_bind_inv {A B} (d : deser A) (f : A -> deser B) buf b rest :
  (d ≫= f) buf = (Some b, rest) ->
  exists a mid, d buf = (Some a, mid) /\ f a mid = (Some b, rest).
Proof.
  unfold mbind, deser_bind. destruct (d buf) as [[a|] mid] eqn:E; [eauto|done].
Qed.

(** Run the next read on bytes known to be in front of the buffer. *)
Ltac deser_step lem := erewrite deser_bind_some by (apply lem; auto).

Lemma ser_bytes_app (s p : bytes) : ser_bytes s p = s ++ p.
Proof. done. Qed.

#[export] Instance ser_bytes_appends : Appends (ser_bytes (S := bytes)).
Proof. done. Qed.
#[export] Instance ser_u16_appends : Appends (ser_u16 (S := bytes)).
Proof. done. Qed.
#[export] Instance ser_u32_appends : Appends (ser_u32 (S := bytes)).
Proof. done. Qed.
#[export] Instance ser_s32_appends : Appends (ser_s32 (S := bytes)).
Proof. done. Qed.
#[export] Instance ser_u64_appends : Appends (ser_u64 (S := bytes)).
Proof. done. Qed.
#[export] Instance ser_s64_appends : Appends (ser_s64 (S := bytes)).
Proof. done. Qed.
#[export] Instance ser_u256_appends : Appends (ser_u256 (S := bytes)).
Proof. done. Qed.
#[export] Instance ser_varlen_appends : Appends (ser_varlen (S := bytes)).
Proof.
  intros s v. unfold ser_varlen, ser_u16, ser_u32, ser_bytes, sink_append, bytes_sink.
  repeat case_if; by rewrite <- ?app_assoc.
Qed.
#[export] Instance ser_varstr_appends : Appends (ser_varstr (S := bytes)).
Proof.
  intros s [b|]; unfold ser_varstr; [repeat case_if|]; try apply ser_varlen_appends.
  rewrite (ser_varlen_appends s). unfold ser_bytes, sink_append, bytes_sink.
  by rewrite app_assoc.
Qed.

(** [ser l v] on the plain bytes is what [ser s v] leaves in any sink that held
    [l]. *)
Section sinks.
Context {S : Type} `{!ByteSink S, !ByteSinkSpec S}.

Lemma ser_bytes_holds s l p :
  sink_holds s l -> Z.of_nat (length (ser_bytes l p)) < 2 ^ 63 ->
  sink_holds (ser_bytes s p) (ser_bytes l p).
Proof.
  unfold ser_bytes. intros H Hl. apply sink_append_holds; [done|].
  unfold sink_append, bytes_sink in Hl. rewrite length_app in Hl. lia.
Qed.

Lemma ser_u16_holds s l v :
  sink_holds s l -> Z.of_nat (length (ser_u16 l v)) < 2 ^ 63 ->
  sink_holds (ser_u16 s v) (ser_u16 l v).
Proof. apply ser_bytes_holds. Qed.

Lemma ser_u32_holds s l v :
  sink_holds s l -> Z.of_nat (length (ser_u32 l v)) < 2 ^ 63 ->
  sink_holds (ser_u32 s v) (ser_u32 l v).
Proof. apply ser_bytes_holds. Qed.

Lemma ser_varlen_holds s l v :
  sink_holds s l -> Z.of_nat (length (ser_varlen l v)) < 2 ^ 63 ->
  sink_holds (ser_varlen s v) (ser_varlen l v).
Proof.
  unfold ser_varlen. intros H.
  repeat case_if; intros Hl;
    [by apply ser_bytes_holds|apply ser_u16_holds|apply ser_u32_holds];
    try done; apply ser_bytes_holds; try done; revert Hl;
    unfold ser_u16, ser_u32, ser_bytes, sink_append, bytes_sink;
    rewrite !length_app; lia.
Qed.

Lemma ser_varstr_holds s l o :
  sink_holds s l -> Z.of_nat (length (ser_varstr l o)) < 2 ^ 63 ->
  sink_holds (ser_varstr s o) (ser_varstr l o).
Proof.
  intros H. destruct o as [b|]; simpl; [|by apply ser_varlen_holds].
  repeat case_if; try by apply ser_varlen_holds. intros Hl.
  apply ser_bytes_holds; [|done]. apply ser_varlen_holds; [done|].
  rewrite ser_bytes_app, length_app in Hl. lia.
Qed.
End sinks.

(** ** Round trips *)

#[export] Instance u16_round_trip : RoundTrip (urange 16) ser_u16 deser_u16.
Proof.
  intros v rest Hv. unfold deser_u16, ser_u16, sink_append, bytes_sink.
  rewrite app_nil_l.
  rewrite (deser_bind_some _ _ _ (le_enc 2 v) rest) by by apply deser_bytes_app.
  by rewrite le_dec_enc_small.
Qed.

#[export] Instance u32_round_trip : RoundTrip (urange 32) ser_u32 deser_u32.
Proof.
  intros v rest Hv. unfold deser_u32, ser_u32, sink_append, bytes_sink.
  rewrite app_nil_l.
  rewrite (deser_bind_some _ _ _ (le_enc 4 v) rest) by by apply deser_bytes_app.
  by rewrite le_dec_enc_small.
Qed.

#[export] Instance s32_round_trip : RoundTrip (srange 32) ser_s32 deser_s32.
Proof.
  intros v rest Hv. unfold deser_s32, ser_s32, ser_u32, sink_append, bytes_sink.
  rewrite app_nil_l.
  rewrite (deser_bind_some _ _ _ (le_enc 4 (u32 v)) rest) by by apply deser_bytes_app.
  unfold mret, deser_ret. do 2 f_equal. rewrite le_dec_enc, wrap_wrap by lia.
  rewrite (swrap_wrap 32) by lia. by apply swrap_small.
Qed.

#[export] Instance u64_round_trip : RoundTrip (urange 64) ser_u64 deser_u64.
Proof.
  intros v rest Hv. unfold deser_u64, ser_u64, sink_append, bytes_sink.
  rewrite app_nil_l.
  rewrite (deser_bind_some _ _ _ (le_enc 8 v) rest) by by apply deser_bytes_app.
  by rewrite le_dec_enc_small.
Qed.

#[export] Instance s64_round_trip : RoundTrip (srange 64) ser_s64 deser_s64.
Proof.
  intros v rest Hv. unfold deser_s64, ser_s64.
  rewrite (deser_bind_some _ _ _ (u64 v) rest)
    by (apply (round_trip (ok := urange 64) (f := ser_u64)), wrap_range; lia).
  unfold mret, deser_ret. rewrite (swrap_wrap 64), swrap_small by (done || lia). done.
Qed.

#[export] Instance u256_round_trip :
  RoundTrip (fun b => length b = 32%nat) ser_u256 deser_u256.
Proof.
  intros b rest Hb. unfold deser_u256, ser_u256, ser_bytes, sink_append, bytes_sink.
  rewrite app_nil_l, take_ge by lia. apply deser_bytes_app. lia.
Qed.

Lemma byte_tag z rest :
  urange 8 z -> deser_bytes 1 ([byte.of_Z z] ++ rest) = (Some [byte.of_Z z], rest).
Proof. intros. by apply deser_bytes_app. Qed.

Lemma le_dec_tag z : urange 8 z -> le_dec [byte.of_Z z] = z.
Proof. intros. rewrite le_dec_1, byte_unsigned_of_Z. by apply wrap_small. Qed.

#[export] Instance varlen_round_trip : RoundTrip (urange 32) ser_varlen deser_varlen.
Proof.
  intros v rest Hv. unfold urange in Hv. unfold deser_varlen, ser_varlen.
  destruct (Z.ltb_spec v 253); [|destruct (Z.ltb_spec v 65536)].
  - unfold ser_bytes, sink_append, bytes_sink. rewrite app_nil_l.
    rewrite (deser_bind_some _ _ _ _ _ (byte_tag v rest ltac:(unfold urange; lia))).
    cbv zeta. rewrite le_dec_tag by (unfold urange; lia).
    by rewrite !(proj2 (Z.eqb_neq _ _)) by lia.
  - unfold ser_u16, ser_bytes, sink_append, bytes_sink. rewrite app_nil_l, <- app_assoc.
    rewrite (deser_bind_some _ _ _ _ _ (byte_tag 253 _ ltac:(unfold urange; lia))).
    cbv zeta. rewrite le_dec_tag, Z.eqb_refl by (unfold urange; lia).
    rewrite wrap_small by (unfold urange; lia).
    apply u16_round_trip. unfold urange; lia.
  - unfold ser_u32, ser_bytes, sink_append, bytes_sink. rewrite app_nil_l, <- app_assoc.
    rewrite (deser_bind_some _ _ _ _ _ (byte_tag 254 _ ltac:(unfold urange; lia))).
    cbv zeta. rewrite le_dec_tag by (unfold urange; lia).
    rewrite (proj2 (Z.eqb_neq _ _)), Z.eqb_refl by lia.
    by apply u32_round_trip.
Qed.

(** Strings the length prefix can carry. *)
Definition varstr_ok (b : bytes) : Prop := Z.of_nat (length b) <= UINT32_MAX.

#[export] Instance varstr_round_trip :
  RoundTrip varstr_ok (fun s b => ser_varstr s (Some b)) deser_varstr.
Proof.
  intros b rest Hb. unfold varstr_ok, UINT32_MAX in Hb.
  assert (deser_varstr (ser_bytes (ser_varlen [] (Z.of_nat (length b))) b ++ rest)
          = (Some b, rest)) as Hgen.
  { unfold ser_bytes, sink_append, bytes_sink. rewrite <- app_assoc. unfold deser_varstr.
    rewrite (deser_bind_some _ _ _ (Z.of_nat (length b)) (b ++ rest))
      by (apply varlen_round_trip; unfold urange; lia).
    rewrite (deser_bind_some _ _ _ (Z.of_nat (length (b ++ rest))) (b ++ rest)) by done.
    rewrite (proj2 (Z.ltb_ge _ _)) by (rewrite length_app; lia).
    by apply deser_bytes_app. }
  simpl. destruct (Z.eqb_spec (Z.of_nat (length b)) 0) as [He|].
  - destruct b; [|done]. unfold ser_bytes, sink_append, bytes_sink in Hgen.
    by rewrite app_nil_r in Hgen.
  - rewrite (proj2 (Z.ltb_ge _ _)) by (unfold UINT32_MAX; lia).
    by rewrite wrap_small by (unfold urange; lia).
Qed.

(** ** Loops *)

(** [for (i = 0; i < n; i++)] over one element each. *)
Fixpoint deser_times {A} (n : nat) (d : deser A) : deser (list A) :=
  match n with
  | O => mret []
  | S n => a ← d; l ← deser_times n d; mret (a :: l)
  end.

Lemma times_round_trip {A} (ok : A -> Prop) f d `{!RoundTrip ok f d, !Appends f} l rest :
  Forall ok l ->
  deser_times (length l) d (foldl f [] l ++ rest) = (Some l, rest).
Proof.
  assert (forall l s, foldl f s l = s ++ foldl f [] l) as Hfold.
  { intros l'; induction l' as [|x l' IH]; intros s; simpl.
    - by rewrite app_nil_r.
    - by rewrite (IH (f s x)), (IH (f [] x)), (appends s), app_assoc. }
  induction 1 as [|a l Ha Hl IH]; simpl; [done|].
  rewrite Hfold, <- app_assoc.
  rewrite (deser_bind_some _ _ _ a _ (round_trip a _ Ha)).
  by rewrite (deser_bind_some _ _ _ _ _ IH).
Qed.

Lemma foldl_appends {A} f `{!Appends f} (l : list A) s :
  foldl f s l = s ++ foldl f [] l.
Proof.
  revert s. induction l as [|x l IH]; intros s; simpl.
  - by rewrite app_nil_r.
  - by rewrite (IH (f s x)), (IH (f [] x)), (appends s), app_assoc.
Qed.

(** ** Properties of the wire format *)

Section claims.
#[local] Existing Instance default_mapper.

(** A byte string serialised behind what a C string already holds can be read
    back: the string grows (through its reallocations) by exactly one encoding, from
    which the reader recovers the bytes and stops in front of whatever follows. *)
Theorem varstr_cstring_round_trip c l b rest :
  cstr_repr c l -> varstr_ok b -> Z.of_nat (length l + length b) < 2 ^ 62 ->
  exists c' e, ser_varstr (Some c) (Some b) = Some c' /\ cstr_repr c' (l ++ e) /\
    deser_varstr (e ++ rest) = (Some b, rest).
Proof.
  intros Hc Hb Hl. set (e := ser_varstr [] (Some b)).
  assert (length e <= length b + 5)%nat as He.
  { unfold e, ser_varstr, ser_varlen, ser_u16, ser_u32, ser_bytes, sink_append, bytes_sink.
    repeat case_if; cbn [length app]; rewrite ?length_app, ?le_enc_length; simpl; lia. }
  destruct (ser_varstr_holds (Some c) l (Some b)) as (c' & Hs & Hc').
  - exists c. done.
  - rewrite (ser_varstr_appends l). fold e. rewrite length_app. lia.
  - exists c', e. split; [done|]. rewrite (ser_varstr_appends l) in Hc'.
    split; [done|]. by apply (varstr_round_trip b rest).
Qed.

Lemma varstr_cstring_round_trip_witness :
  exists c' e,
    ser_varstr (Some (mk_cstring (Some byte_zero :: replicate 7 None) 0 8))
      (Some [Byte.x07]) = Some c' /\
    cstr_repr c' ([] ++ e) /\ deser_varstr (e ++ [Byte.x01]) = (Some [Byte.x07], [Byte.x01]).
Proof.
  apply (varstr_cstring_round_trip (mk_cstring (Some byte_zero :: replicate 7 None) 0 8)
           [] [Byte.x07] [Byte.x01]).
  - split; try reflexivity. exists 3. by split.
  - unfold varstr_ok. simpl. vm_compute. discriminate.
  - simpl. lia.
Defined.
End claims.

Lemma fread_deser n file :
  fread n file = match deser_bytes (Z.of_nat n) file with
                 | (Some b, rest) => (Some b, rest)
                 | (None, _) => (None, drop n file)
                 end.
Proof.
  unfold fread, deser_bytes. destruct (Nat.ltb_spec (length file) n).
  - by rewrite (proj2 (Z.ltb_lt _ _)) by lia.
  - rewrite (proj2 (Z.ltb_ge _ _)) by lia. by rewrite Nat2Z.id.
Qed.

(** The first byte and the field behind it, as [deser_varlen_file] stores them. *)
Lemma stored_prefix (c : Byte.byte) (v raw : bytes) :
  (1 + length v <= length raw)%nat ->
  take (1 + length v) (list_inserts 1 v (list_inserts 0 [c] raw)) = c :: v.
Proof.
  intros H. destruct raw as [|r raw]; [simpl in H; lia|].
  change (list_inserts 0 [c] (r :: raw)) with (c :: raw). simpl in H.
  rewrite inserts_split by (simpl; lia). simpl. f_equal.
  by rewrite ?take_0, ?app_nil_l, take_app_exact.
Qed.

Lemma deser_bytes_cases n buf :
  0 <= n ->
  deser_bytes n buf = (None, buf) \/
  exists b rest, deser_bytes n buf = (Some b, rest) /\ buf = b ++ rest /\
                 Z.of_nat (length b) = n.
Proof.
  intros Hn. unfold deser_bytes. destruct (Z.ltb_spec (Z.of_nat (length buf)) n); [by left|].
  right. eexists _, _. split; [done|]. rewrite take_drop, length_take. split; [done|lia].
Qed.

(** The three readers of a length prefix agree. The file readers return the value
    the buffer reader returns (an eight-byte prefix cut to 32 bits by all of them),
    stop at the same place when it succeeds, and the raw copy of the prefix is the
    bytes consumed, except for the eight-byte form, of which it keeps half. *)
Theorem varlen_readers_agree file raw buflen :
  5 <= buflen -> (5 <= length raw)%nat ->
  let '(v, rest) := deser_varlen file in
  let '(vf, restf) := deser_varlen_from_file file in
  let '(vr, raw', n, restr) := deser_varlen_file raw buflen file in
  vf = v /\ vr = v /\
  (forall x, v = Some x ->
     restf = rest /\ restr = rest /\ urange 32 x /\
     (hd_error file <> Some Byte.xff -> take (Z.to_nat n) raw' ++ rest = file)).
Proof.
  intros Hb Hraw. unfold deser_varlen, deser_varlen_from_file, deser_varlen_file.
  rewrite (proj2 (Z.ltb_ge _ _)) by lia.
  unfold mbind, deser_bind. rewrite !fread_deser.
  destruct file as [|c file]; [done|].
  assert (forall rest, deser_bytes (Z.of_nat 1) (c :: rest) = (Some [c], rest)) as E
    by by intros; apply (deser_bytes_app (Z.of_nat 1) [c]).
  change 1 with (Z.of_nat 1) at 1. rewrite E. clear E. rewrite le_dec_1.
  pose proof (byte_range c) as Hc. unfold urange in Hc.
  destruct (Z.eqb_spec (byte.unsigned c) 253) as [E|_].
  { unfold deser_u16, mbind, deser_bind. rewrite fread_deser.
    destruct (deser_bytes_cases 2 file) as [F|(v & rest & F & -> & Hl)]; [done| |];
      change (Z.of_nat 2) with 2; rewrite F; [done|].
    cbn [mret deser_ret]. pose proof (le_dec_range v) as Hv. rewrite Hl in Hv.
    assert (urange 32 (le_dec v)) by (unfold urange in *; lia).
    rewrite wrap_small by done. split_and!; [done..|]. intros x [= <-].
    split_and!; [done..|]. intros _. rewrite (take_ge v) by lia.
    replace (Z.to_nat (1 + 2)) with (1 + length v)%nat by lia.
    by rewrite stored_prefix by lia. }
  destruct (Z.eqb_spec (byte.unsigned c) 254) as [E'|_].
  { unfold deser_u32, mbind, deser_bind. rewrite fread_deser.
    destruct (deser_bytes_cases 4 file) as [F|(v & rest & F & -> & Hl)]; [done| |];
      change (Z.of_nat 4) with 4; rewrite F; [done|].
    cbn [mret deser_ret]. pose proof (le_dec_range v) as Hv. rewrite Hl in Hv.
    rewrite wrap_small by done. split_and!; [done..|]. intros x [= <-].
    split_and!; [done..|]. intros _. rewrite (take_ge v) by lia.
    replace (Z.to_nat (1 + 4)) with (1 + length v)%nat by lia.
    by rewrite stored_prefix by lia. }
  destruct (Z.eqb_spec (byte.unsigned c) 255) as [E'|_].
  { unfold deser_u64, mbind, deser_bind. rewrite fread_deser.
    destruct (deser_bytes_cases 8 file) as [F|(v & rest & F & -> & Hl)]; [done| |];
      change (Z.of_nat 8) with 8; rewrite F; [done|].
    cbn [mret deser_ret]. split_and!; [done..|]. intros x [= <-].
    split_and!; [done..|by apply wrap_range|]. intros [].
    assert (c = Byte.xff) as -> by (apply byte.unsigned_inj; by rewrite E'). done. }
  cbn [mret deser_ret]. split_and!; [done..|]. intros x [= <-].
  split_and!; [done..|unfold urange; lia|]. intros _.
  destruct raw; [simpl in Hraw; lia|done].
Qed.

Lemma varlen_readers_agree_witness :
  let file := [Byte.xfd; Byte.x34; Byte.x12; Byte.x99] in
  let '(v, rest) := deser_varlen file in
  let '(vf, restf) := deser_varlen_from_file file in
  let '(vr, raw', n, restr) := deser_varlen_file (zeros 5) 5 file in
  vf = v /\ vr = v /\
  (forall x, v = Some x ->
     restf = rest /\ restr = rest /\ urange 32 x /\
     (hd_error file <> Some Byte.xff -> take (Z.to_nat n) raw' ++ rest = file)).
Proof.
  apply (varlen_readers_agree [Byte.xfd; Byte.x34; Byte.x12; Byte.x99] (zeros 5) 5).
  - lia.
  - simpl. lia.
Defined.

(** ** Reading what is in front of the buffer

    One rewrite for each kind of field, for readers that read many of them. *)

Section reads.
  Context {B : Type}.

Lemma read_bytes (f : bytes -> deser B) n b rest :
  Z.of_nat (length b) = n -> (deser_bytes n ≫= f) (b ++ rest) = f b rest.
Proof. intros H. by apply deser_bind_some, deser_bytes_app. Qed.

Lemma read_u16 (f : Z -> deser B) v rest : urange 16 v -> (deser_u16 ≫= f) (le_enc 2 v ++ rest) = f v rest.
Proof. intros H. apply deser_bind_some, (u16_round_trip v rest H). Qed.

Lemma read_u32 (f : Z -> deser B) v rest : urange 32 v -> (deser_u32 ≫= f) (le_enc 4 v ++ rest) = f v rest.
Proof. intros H. apply deser_bind_some, (u32_round_trip v rest H). Qed.

Lemma read_s32 (f : Z -> deser B) v rest : srange 32 v -> (deser_s32 ≫= f) (le_enc 4 (u32 v) ++ rest) = f v rest.
Proof. intros H. apply deser_bind_some, (s32_round_trip v rest H). Qed.

Lemma read_u64 (f : Z -> deser B) v rest : urange 64 v -> (deser_u64 ≫= f) (le_enc 8 v ++ rest) = f v rest.
Proof. intros H. apply deser_bind_some, (u64_round_trip v rest H). Qed.

Lemma read_s64 (f : Z -> deser B) v rest : srange 64 v -> (deser_s64 ≫= f) (le_enc 8 (u64 v) ++ rest) = f v rest.
Proof. intros H. apply deser_bind_some, (s64_round_trip v rest H). Qed.

Lemma read_u256 (f : bytes -> deser B) b rest : length b = 32%nat -> (deser_u256 ≫= f) (b ++ rest) = f b rest.
Proof. intros H. apply deser_bind_some, deser_bytes_app. lia. Qed.

Lemma read_varlen (f : Z -> deser B) v rest :
  urange 32 v -> (deser_varlen ≫= f) (ser_varlen [] v ++ rest) = f v rest.
Proof. intros H. apply deser_bind_some, (varlen_round_trip v rest H). Qed.

Lemma read_guard (f : unit -> deser B) (b : bool) rest : b = true -> (deser_guard b ≫= f) rest = f tt rest.
Proof. by intros ->. Qed.

End reads.

(** Writers on plain bytes as appends. *)
Ltac flatten_ser :=
  repeat match goal with
  | |- context [ser_varlen ?s ?v] => lazymatch s with [] => fail | _ => rewrite (ser_varlen_appends s v) end
  end;
  unfold ser_s64, ser_s32, ser_u64, ser_u32, ser_u16, ser_u256, ser_bytes, sink_append, bytes_sink;
  rewrite <- ?app_assoc.
