(* ===== verification/Vector.v ===== *)
(** * Vectors of pointers ([src/src/vector.c])

    A [vector_t] owns an array of [alloc] pointers of which the first [len] are in
    use; the elements are freed with the callback the vector was made with.  An
    element is [None] for NULL.  A cell of the array is [None] while it is
    indeterminate.  Operations return the elements they passed to the callback, so
    that ownership can be stated; undefined behaviour has no result. *)

From S2P Require Import Prelude Mem.

Local Open Scope Z_scope.

Section vector.
Context {A : Type} `{!EqDecision A}.

Abbreviation elem := (option A).

(** [elem_free_f]: is there a callback? *)
Record vector := mk_vector {
  vdata : option (list (option elem));
  vlen : Z;
  valloc : Z;
  elem_free_f : bool;
}.

Context `{!Allocator}.

Definition SIZEOF_PTR : Z := 8.
Definition SIZEOF_VECTOR : Z := 32.

(** The doubling loops; [None] when the fuel ends before the loop does. *)
Fixpoint double_until (fuel : nat) (new_alloc min_sz : Z) : option Z :=
  if new_alloc <? min_sz then
    match fuel with
    | O => None
    | S fuel => double_until fuel (u64 (new_alloc * 2)) min_sz
    end
  else Some new_alloc.

(** The inner [None] is NULL. *)
Definition vector_new (res : Z) (free_f : bool) : option (option vector) :=
  if alloc_ok SIZEOF_VECTOR then
    al ← double_until 64 8 res;
    let size := u64 (al * SIZEOF_PTR) in
    if alloc_ok size then
      Some (Some (mk_vector (Some (replicate (Z.to_nat (size / SIZEOF_PTR)) (Some None)))
                    0 al free_f))
    else Some None
  else Some None.

(** Reading and writing [vec->data[i]]. *)
Definition vget (v : vector) (i : Z) : option elem :=
  d ← vdata v; c ← mem_read i 1 d; head c ≫= id.

Definition vset (v : vector) (i : Z) (e : elem) : option vector :=
  d ← vdata v; d' ← mem_write i [Some e] d;
  Some (mk_vector (Some d') (vlen v) (valloc v) (elem_free_f v)).

Definition set_vlen (v : vector) (n : Z) : vector :=
  mk_vector (vdata v) n (valloc v) (elem_free_f v).

(** [vector_idx] on a range: the elements at [i], ..., [i + n - 1]. *)
Fixpoint vget_range (v : vector) (i : Z) (n : nat) : option (list elem) :=
  match n with
  | O => Some []
  | S n => e ← vget v i; l ← vget_range v (u64 (i + 1)) n; Some (e :: l)
  end.

(** The vector and the elements freed, NULL ones left out. *)
Definition vector_free_data (v : vector) : option (vector * list elem) :=
  match vdata v with
  | None => Some (v, [])
  | Some _ =>
      freed ← (if elem_free_f v then
                 l ← vget_range v 0 (Z.to_nat (vlen v)); Some (filter is_Some l)
               else Some []);
      Some (mk_vector None 0 0 (elem_free_f v), freed)
  end.

(** The elements freed when the object is destroyed. *)
Definition vector_free (v : option vector) (free_array : bool) : option (list elem) :=
  match v with
  | None => Some []
  | Some v => if free_array then r ← vector_free_data v; Some r.2 else Some []
  end.

Definition vector_grow (v : vector) (min_sz : Z) : option (bool * vector) :=
  new_alloc ← double_until 64 (valloc v) min_sz;
  if valloc v =? new_alloc then Some (true, v)
  else
    let size := u64 (new_alloc * SIZEOF_PTR) in
    if alloc_ok size then
      Some (true, mk_vector (Some (realloc_cells (Z.to_nat (size / SIZEOF_PTR))
                                     (default [] (vdata v))))
                    (vlen v) new_alloc (elem_free_f v))
    else Some (false, v).

Fixpoint find_loop (l : list elem) (data : elem) (i : Z) : Z :=
  match l with
  | [] => -1
  | e :: l => if bool_decide (e = data) then i else find_loop l data (i + 1)
  end.

Definition vector_find (v : option vector) (data : elem) : option Z :=
  match v with
  | None => Some (-1)
  | Some v =>
      if vlen v =? 0 then Some (-1)
      else l ← vget_range v 0 (Z.to_nat (vlen v)); Some (find_loop l data 0)
  end.

Definition vector_add (v : vector) (data : elem) : option (bool * vector) :=
  r ← (if vlen v =? valloc v then vector_grow v (u64 (vlen v + 1)) else Some (true, v));
  if (r.1 : bool) then
    v' ← vset r.2 (vlen r.2) data; Some (true, set_vlen v' (u64 (vlen v' + 1)))
  else Some (false, r.2).

(** The vector and the elements passed to the callback. *)
Definition vector_remove_range (v : vector) (pos n : Z) : option (vector * list elem) :=
  if vlen v <? u64 (pos + n) then Some (v, [])
  else
    freed ← (if elem_free_f v then vget_range v pos (Z.to_nat n) else Some []);
    d ← vdata v;
    d' ← memmove_cells pos (pos + n) (u64 (vlen v - pos - n)) d;
    Some (mk_vector (Some d') (u64 (vlen v - n)) (valloc v) (elem_free_f v), freed).

Definition vector_remove_idx (v : vector) (pos : Z) : option (vector * list elem) :=
  vector_remove_range v pos 1.

Definition vector_remove (v : vector) (data : elem) : option (bool * vector * list elem) :=
  idx ← vector_find (Some v) data;
  if idx <? 0 then Some (false, v, [])
  else r ← vector_remove_idx v idx; Some (true, r.1, r.2).

(** [for (i = from; i < from + n; i++) vec->data[i] = NULL] *)
Fixpoint clear_range (v : vector) (i : Z) (n : nat) : option vector :=
  match n with
  | O => Some v
  | S n => v ← vset v i None; clear_range v (i + 1) n
  end.

(** Growing leaves [vlen] as it was. *)
Definition vector_resize (v : vector) (newsz : Z) : option (bool * vector * list elem) :=
  if newsz =? vlen v then Some (true, v, [])
  else if newsz <? vlen v then
    let del_count := Z.to_nat (vlen v - newsz) in
    freed ← (if elem_free_f v then vget_range v newsz del_count else Some []);
    v' ← clear_range v newsz del_count;
    Some (true, set_vlen v' newsz, freed)
  else
    r ← vector_grow v newsz;
    if (r.1 : bool) then
      v' ← clear_range r.2 (vlen r.2) (Z.to_nat (newsz - vlen r.2));
      Some (true, v', [])
    else Some (false, r.2, []).
End vector.

#[global] Arguments vector : clear implicits.
#[global] Arguments double_until : simpl never.

(** ** Vectors of strings *)

Section strings.
Context `{!Allocator}.
Implicit Types (v : vector bytes) (out : cells).

Definition MAX_SERIALIZE_SIZE : Z := 2048.

Fixpoint ser_strings (l : list (option bytes)) (out : cells) (outlen offset : Z)
    : option (bool * cells * Z) :=
  match l with
  | [] => Some (true, out, offset)
  | None :: l => ser_strings l out outlen offset
  | Some s :: l =>
      let len := Z.of_nat (length s) in
      if outlen - offset <? len then Some (false, out, offset)
      else out ← mem_write offset (Some <$> s) out; ser_strings l out outlen (offset + len)
  end.

(** [written] is only stored on success.  [None] is a NULL argument. *)
Definition serializeVector (vec : option (vector bytes)) (out : option cells) (outlen : Z)
    : option (bool * option cells * option Z) :=
  match vec, out with
  | Some v, Some o =>
      if outlen =? 0 then Some (false, out, None)
      else
        l ← vget_range v 0 (Z.to_nat (vlen v));
        r ← ser_strings l o outlen 0;
        Some (r.1.1, Some r.1.2, if (r.1.1 : bool) then Some r.2 else None)
  | _, _ => Some (false, out, None)
  end.

(** [inp] is all of the region the pointer points into; [strdup_ok]: does the C
    library's copy of a string succeed? *)
Fixpoint deser_strings (strdup_ok : bytes -> bool) (fuel : nat) (v : vector bytes)
    (inp : bytes) (inlen offset : Z) : option (bool * vector bytes * Z) :=
  if offset <? inlen then
    match fuel with
    | O => None
    | S fuel =>
        let s := drop (Z.to_nat offset) inp in
        len ← c_strnlen s (Z.to_nat (MAX_SERIALIZE_SIZE - offset));
        if (len =? 0)%nat || (MAX_SERIALIZE_SIZE <=? Z.of_nat len) then Some (false, v, offset)
        else
          dlen ← c_strlen s;
          let dup := take dlen s in
          if strdup_ok dup then
            r ← vector_add v (Some dup);
            if (r.1 : bool) then
              deser_strings strdup_ok fuel r.2 inp inlen (offset + Z.of_nat len + 1)
            else Some (false, r.2, offset)
          else Some (false, v, offset)
    end
  else Some (true, v, offset).

Definition deserializeVector (strdup_ok : bytes -> bool) (vec : option (vector bytes))
    (inp : option bytes) (inlen : Z) : option (bool * option (vector bytes) * option Z) :=
  match vec, inp with
  | Some v, Some i =>
      if MAX_SERIALIZE_SIZE <? inlen then Some (false, vec, None)
      else
        r ← deser_strings strdup_ok (Z.to_nat inlen) v i inlen 0;
        Some (r.1.1, Some r.1.2, if (r.1.1 : bool) then Some r.2 else None)
  | _, _ => Some (false, vec, None)
  end.
End strings.

(** ** Representation invariant *)

Section specs.
Context {A : Type} `{!EqDecision A}.
#[local] Existing Instance default_mapper.
Implicit Types (v : vector A) (l : list (option A)).

(** [v] holds the elements [l] in an array whose size is a power of two. *)
Record vec_repr v l : Prop := {
  vr_len : vlen v = Z.of_nat (length l);
  vr_pow2 : exists k, 3 <= k <= 60 /\ valloc v = 2 ^ k;
  vr_data : exists tl, vdata v = Some ((Some <$> l) ++ tl) /\
                       Z.of_nat (length l + length tl) = valloc v;
}.

Lemma double_until_spec fuel k min_sz :
  0 <= k <= 60 -> min_sz <= 2 ^ 60 -> 60 - k <= Z.of_nat fuel ->
  exists k', k <= k' <= 60 /\ min_sz <= 2 ^ k' /\
    double_until fuel (2 ^ k) min_sz = Some (2 ^ k') /\
    (min_sz <= 2 ^ k -> k' = k) /\ (2 ^ k < min_sz -> 2 ^ k' < 2 * min_sz).
Proof.
  revert k. induction fuel as [|fuel IH]; intros k Hk Hm Hf.
  { exists k. assert (k = 60) as -> by lia. unfold double_until.
    rewrite (proj2 (Z.ltb_ge _ _)) by lia. split_and!; lia || done. }
  unfold double_until; fold double_until. destruct (Z.ltb_spec (2 ^ k) min_sz) as [Hlt|].
  2:{ exists k. split_and!; lia || done. }
  assert (k < 60) as Hk60.
  { destruct (decide (k = 60)) as [->|]; lia. }
  assert (2 ^ k * 2 = 2 ^ (k + 1)) as E by (rewrite Z.pow_add_r; lia).
  assert (2 ^ (k + 1) <= 2 ^ 60) by (apply Z.pow_le_mono_r; lia).
  rewrite wrap_small by (unfold urange; split; [lia|]; change (2 ^ 64) with (16 * 2 ^ 60); lia).
  rewrite E. destruct (IH (k + 1)) as (k' & Hk' & Hm' & -> & Hsame & Hless); [lia..|].
  exists k'. split_and!; [lia|lia|done|done|lia|].
  intros _. destruct (Z.le_gt_cases min_sz (2 ^ (k + 1))).
  - rewrite Hsame by done. lia.
  - by apply Hless.
Qed.

Lemma vget_repr v l i e :
  vec_repr v l -> l !! i = Some e -> vget v (Z.of_nat i) = Some e.
Proof.
  intros [_ _ (tl & Hd & Hl)] Hi. unfold vget. rewrite Hd. simpl.
  pose proof (lookup_lt_Some _ _ _ Hi).
  rewrite mem_read_in by (rewrite ?length_app, ?length_fmap; lia). simpl.
  rewrite Nat2Z.id. destruct (drop i _) eqn:E.
  - apply (f_equal length) in E. rewrite length_drop, length_app, length_fmap in E.
    simpl in E. lia.
  - assert ((((Some <$> l) ++ tl) !! i) = Some o) as Ho.
    { rewrite <- (Nat.add_0_r i), <- lookup_drop, E. done. }
    rewrite lookup_app_l in Ho by (rewrite length_fmap; lia).
    rewrite list_lookup_fmap, Hi in Ho. injection Ho as <-. done.
Qed.

Lemma vget_range_repr v l pos n :
  vec_repr v l -> (pos + n <= length l)%nat ->
  vget_range v (Z.of_nat pos) n = Some (take n (drop pos l)).
Proof.
  intros Hr. revert pos. induction n as [|n IH]; intros pos Hn; [by rewrite take_0|].
  destruct (lookup_lt_is_Some_2 l pos) as [e He]; [lia|].
  simpl. rewrite (vget_repr _ _ _ _ Hr He). simpl.
  destruct (vr_pow2 _ _ Hr) as (k & Hk & Hak). destruct (vr_data _ _ Hr) as (tl & _ & Hl).
  assert (2 ^ k <= 2 ^ 60) by (apply Z.pow_le_mono_r; lia).
  rewrite wrap_small by (unfold urange; split; [lia|]; change (2 ^ 64) with (16 * 2 ^ 60); lia).
  replace (Z.of_nat pos + 1) with (Z.of_nat (S pos)) by lia.
  rewrite IH by lia. simpl. by rewrite (drop_S _ _ _ He).
Qed.
Lemma size_bytes k : 0 <= k <= 60 -> u64 (2 ^ k * SIZEOF_PTR) / SIZEOF_PTR = 2 ^ k.
Proof.
  intros Hk. assert (0 < 2 ^ k <= 2 ^ 60).
  { split; [apply Z.pow_pos_nonneg; lia|apply Z.pow_le_mono_r; lia]. }
  unfold SIZEOF_PTR. rewrite wrap_small.
  - by rewrite Z.div_mul by lia.
  - unfold urange. change (2 ^ 64) with (16 * 2 ^ 60). lia.
Qed.

Lemma vector_new_spec res f :
  res <= 2 ^ 60 ->
  exists v, vector_new (A := A) res f = Some (Some v) /\ vec_repr v [] /\
            elem_free_f v = f /\ res <= valloc v.
Proof.
  intros Hres. unfold vector_new. cbn [alloc_ok default_mapper].
  destruct (double_until_spec 64 3 res) as (k & Hk & Hle & E & _); [lia..|].
  change (2 ^ 3) with 8 in E. rewrite E. cbn [mbind option_bind]. rewrite size_bytes by lia.
  eexists. split; [done|]. split; [|done]. split; simpl; [done|exists k; split; [lia|done]|].
  eexists. split; [done|]. rewrite length_replicate.
  pose proof (Z.pow_nonneg 2 k). lia.
Qed.

Lemma vector_grow_spec v l min_sz :
  vec_repr v l -> min_sz <= 2 ^ 60 ->
  exists v', vector_grow v min_sz = Some (true, v') /\ vec_repr v' l /\
             vlen v' = vlen v /\ elem_free_f v' = elem_free_f v /\ min_sz <= valloc v'.
Proof.
  intros [H1 (k & Hk & Ha) (tl & Hd & Hl)] Hmin. unfold vector_grow. rewrite Ha.
  destruct (double_until_spec 64 k min_sz) as (k' & Hk' & Hle & -> & _); [lia..|]. simpl.
  destruct (Z.eqb_spec (2 ^ k) (2 ^ k')) as [E|E].
  { exists v. split_and!; [done| |done..|lia]. split; eauto. }
  rewrite size_bytes by lia. eexists. split; [done|]. split_and!; [|done|done|done].
  assert (2 ^ k <= 2 ^ k') by (apply Z.pow_le_mono_r; lia).
  split; [done|exists k'; split; [lia|done]|]. exists (tl ++ replicate (Z.to_nat (2 ^ k') - length (l) - length tl) None).
  cbn [vdata valloc]. rewrite Hd. simpl. unfold realloc_cells.
  rewrite take_ge by (rewrite length_app, length_fmap; lia).
  rewrite length_app, length_fmap, Nat.sub_add_distr, app_assoc. split; [done|].
  rewrite length_app, length_replicate. lia.
Qed.

(** Storing into the array behind the elements in use. *)
Lemma vset_next v l e :
  vec_repr v l -> vlen v < valloc v ->
  exists v', vset v (vlen v) e = Some v' /\ vlen v' = vlen v /\
    elem_free_f v' = elem_free_f v /\ vec_repr (set_vlen v' (vlen v + 1)) (l ++ [e]).
Proof.
  intros [H1 (k & Hk & Ha) (tl & Hd & Hl)] Hlt. unfold vset. rewrite Hd. simpl.
  rewrite mem_write_in by (simpl; rewrite ?length_app, ?length_fmap; simpl; lia). simpl.
  eexists. split; [done|]. split; [done|]. split; [done|]. split; simpl.
  - rewrite length_app. simpl. lia.
  - by exists k.
  - destruct tl as [|x tl]; [simpl in Hl; lia|]. exists tl.
    rewrite H1, Nat2Z.id, <- (Nat.add_0_r (length l)), <- (length_fmap Some l).
    rewrite insert_app_r. simpl. rewrite fmap_app, <- app_assoc. simpl.
    split; [done|]. rewrite length_app in *. simpl in *. lia.
Qed.

Lemma vector_add_spec v l e :
  vec_repr v l -> Z.of_nat (length l) < 2 ^ 60 ->
  exists v', vector_add v e = Some (true, v') /\ vec_repr v' (l ++ [e]) /\
             elem_free_f v' = elem_free_f v.
Proof.
  intros Hr Hlt. unfold vector_add. pose proof (vr_len _ _ Hr) as Hlen.
  assert (exists v1, (if vlen v =? valloc v then vector_grow v (u64 (vlen v + 1))
                      else Some (true, v)) = Some (true, v1) /\ vec_repr v1 l /\
            vlen v1 = vlen v /\ elem_free_f v1 = elem_free_f v /\ vlen v1 < valloc v1)
    as (v1 & -> & Hr1 & Hl1 & Hf1 & Hlt1).
  { rewrite wrap_small by (unfold urange; lia).
    destruct (Z.eqb_spec (vlen v) (valloc v)).
    - destruct (vector_grow_spec v l (vlen v + 1) Hr ltac:(lia))
        as (v1 & E & ? & ? & ? & ?). exists v1. split_and!; done || lia.
    - exists v. split_and!; try done.
      destruct (vr_data _ _ Hr) as (tl & _ & Hl). lia. }
  simpl. destruct (vset_next v1 l e Hr1 Hlt1) as (v2 & -> & Hl2 & Hf2 & Hr2). simpl.
  rewrite wrap_small by (unfold urange; lia). rewrite Hl2.
  eexists. split; [done|]. split; [done|]. simpl. congruence.
Qed.

Lemma vector_remove_range_spec v l (pos n : nat) :
  vec_repr v l -> (pos + n <= length l)%nat ->
  exists v', vector_remove_range v (Z.of_nat pos) (Z.of_nat n) =
    Some (v', if elem_free_f v then take n (drop pos l) else []) /\
    vec_repr v' (take pos l ++ drop (pos + n) l) /\ elem_free_f v' = elem_free_f v.
Proof.
  intros Hr Hn. unfold vector_remove_range.
  destruct (vr_pow2 _ _ Hr) as (k & Hk & Ha). destruct (vr_data _ _ Hr) as (tl & Hd & Hl).
  pose proof (vr_len _ _ Hr) as Hlen.
  assert (2 ^ k <= 2 ^ 60) by (apply Z.pow_le_mono_r; lia).
  change (2 ^ 60) with 1152921504606846976 in *.
  rewrite !wrap_small by (unfold urange; lia).
  rewrite (proj2 (Z.ltb_ge _ _)) by lia. rewrite Nat2Z.id.
  rewrite (vget_range_repr v l pos n Hr Hn).
  replace (if elem_free_f v then Some (take n (drop pos l)) else Some [])
    with (Some (if elem_free_f v then take n (drop pos l) else [])) by by case_if.
  simpl. rewrite Hd. simpl. unfold memmove_cells.
  rewrite mem_read_in by (rewrite ?length_app, ?length_fmap; lia). simpl.
  replace (Z.to_nat (Z.of_nat pos + Z.of_nat n)) with (pos + n)%nat by lia.
  replace (Z.to_nat (vlen v - Z.of_nat pos - Z.of_nat n))
    with (length (drop (pos + n) l)) by (rewrite length_drop; lia).
  rewrite drop_app_le by (rewrite length_fmap; lia).
  rewrite <- fmap_drop, take_app_exact by (by rewrite length_fmap).
  rewrite mem_write_in
    by (rewrite ?length_app, ?length_fmap, ?length_drop; lia). simpl.
  eexists. split; [done|]. split; [|done]. split; simpl.
  - rewrite length_app, length_take, length_drop. lia.
  - by exists k.
  - rewrite Nat2Z.id, inserts_split
      by (rewrite ?length_app, ?length_fmap, ?length_drop; lia).
    rewrite take_app_le by (rewrite length_fmap; lia).
    rewrite fmap_app, fmap_take.
    exists (drop (pos + length (Some <$> drop (pos + n) l)) ((Some <$> l) ++ tl)).
    split; [by rewrite <- app_assoc|].
    rewrite !length_app, !length_drop, ?length_app, length_take, ?length_fmap, ?length_drop.
    lia.
Qed.

Lemma find_loop_spec l e i :
  find_loop l e i =
  match list_find (.= e) l with Some (j, _) => i + Z.of_nat j | None => -1 end.
Proof.
  revert i. induction l as [|x l IH]; intros i; simpl; [done|].
  case_bool_decide as Hx; [subst; rewrite decide_True by done; lia|].
  rewrite decide_False by done. rewrite IH.
  destruct (list_find _ l) as [[j y]|]; simpl; lia.
Qed.

Lemma vector_find_spec v l e :
  vec_repr v l ->
  vector_find (Some v) e =
  Some (match list_find (.= e) l with Some (j, _) => Z.of_nat j | None => -1 end).
Proof.
  intros Hr. unfold vector_find. rewrite (vr_len _ _ Hr).
  destruct l as [|x l']; [done|]. rewrite (proj2 (Z.eqb_neq _ _)) by (simpl; lia).
  rewrite Nat2Z.id.
  pose proof (vget_range_repr v _ 0 (length (x :: l')) Hr (le_n _)) as E.
  change (Z.of_nat 0) with 0 in E. rewrite E.
  rewrite drop_0, take_ge by lia. cbn [mbind option_bind].
  by rewrite find_loop_spec.
Qed.

(** Storing NULL behind the elements kept, or in indeterminate cells. *)
Lemma clear_range_spec v l (m n : nat) :
  vec_repr v l -> (m + n = length l)%nat ->
  exists v', clear_range v (Z.of_nat m) n = Some v' /\
    vec_repr (set_vlen v' (Z.of_nat m)) (take m l) /\ elem_free_f v' = elem_free_f v.
Proof.
  revert v l m. induction n as [|n IH]; intros v l m Hr Hl.
  - exists v. split; [done|]. split; [|done]. rewrite take_ge by lia.
    destruct Hr as [H1 H2 H3]. split; [simpl; lia|done|done].
  - simpl. destruct (lookup_lt_is_Some_2 l m) as [x Hx]; [lia|].
    assert (exists v1, vset v (Z.of_nat m) None = Some v1 /\
              elem_free_f v1 = elem_free_f v /\ vec_repr v1 (<[m:=None]> l))
      as (v1 & -> & Hf1 & Hr1).
    { destruct Hr as [H1 H2 (tl & Hd & Ht)]. unfold vset. rewrite Hd. simpl.
      rewrite mem_write_in by (simpl; rewrite ?length_app, ?length_fmap; simpl; lia).
      simpl. eexists. split; [done|]. split; [done|].
      split; simpl; rewrite ?length_insert; [done..|]. exists tl.
      rewrite Nat2Z.id, insert_app_l by (rewrite length_fmap; lia).
      by rewrite list_fmap_insert. }
    simpl. replace (Z.of_nat m + 1) with (Z.of_nat (S m)) by lia.
    destruct (IH v1 (<[m:=None]> l) (S m) Hr1) as (v2 & E & Hr2 & Hf2).
    { rewrite length_insert. lia. }
    exists v2. split; [done|]. split; [|congruence].
    destruct Hr2 as [H1 H2 (tl & Hd & Ht)]. split; simpl in *.
    + rewrite length_take. lia.
    + done.
    + rewrite length_take, length_insert in Ht.
      rewrite (take_S_r _ m None) in Hd by (apply list_lookup_insert_eq; lia).
      rewrite take_insert_ge in Hd by lia. rewrite fmap_app, <- app_assoc in Hd.
      eexists. split; [done|]. rewrite length_take, length_app. simpl. lia.
Qed.

Lemma clear_spare v l (n : nat) :
  vec_repr v l -> vlen v + Z.of_nat n <= valloc v ->
  exists v', clear_range v (vlen v) n = Some v' /\ vec_repr v' l /\
             elem_free_f v' = elem_free_f v.
Proof.
  intros Hr. pose proof (vr_len _ _ Hr) as Hlen. rewrite Hlen.
  assert (forall m v, (length l <= m)%nat -> vec_repr v l ->
    Z.of_nat m + Z.of_nat n <= valloc v ->
    exists v', clear_range v (Z.of_nat m) n = Some v' /\ vec_repr v' l /\
               elem_free_f v' = elem_free_f v) as H.
  { clear. induction n as [|n IH]; intros m v Hm Hr Hle; [by exists v|]. simpl.
    destruct Hr as [H1 H2 (tl & Hd & Ht)]. unfold vset at 1. rewrite Hd. simpl.
    rewrite mem_write_in by (simpl; rewrite ?length_app, ?length_fmap; simpl; lia). simpl.
    set (v1 := mk_vector _ _ _ _).
    replace (Z.of_nat m + 1) with (Z.of_nat (S m)) by lia.
    destruct (IH (S m) v1) as (v2 & E & Hr2 & Hf2); [lia| |simpl; lia|by exists v2].
    split; simpl; [done..|]. exists (<[m - length l:=Some None]> tl)%nat.
    rewrite Nat2Z.id. replace m with (length (Some <$> l) + (m - length l))%nat at 1
      by (rewrite length_fmap; lia).
    by rewrite insert_app_r, length_insert. }
  intros Hn. apply H; [done|done|lia].
Qed.

Lemma vector_resize_spec v l (n : nat) :
  vec_repr v l -> Z.of_nat n <= 2 ^ 60 ->
  exists v', vector_resize v (Z.of_nat n) =
    Some (true, v', if elem_free_f v then drop n l else []) /\
    vec_repr v' (take n l) /\ elem_free_f v' = elem_free_f v.
Proof.
  intros Hr Hn. unfold vector_resize. pose proof (vr_len _ _ Hr) as Hlen.
  destruct (Z.eqb_spec (Z.of_nat n) (vlen v)).
  { exists v. rewrite drop_ge, take_ge by lia. by case_if. }
  destruct (Z.ltb_spec (Z.of_nat n) (vlen v)).
  - replace (Z.to_nat (vlen v - Z.of_nat n)) with (length l - n)%nat by lia.
    rewrite (vget_range_repr v l n _ Hr) by lia.
    rewrite (take_ge (drop n l)) by (rewrite length_drop; lia).
    destruct (clear_range_spec v l n (length l - n) Hr ltac:(lia)) as (v' & -> & Hr' & Hf').
    replace (if elem_free_f v then Some (drop n l) else Some [])
      with (Some (if elem_free_f v then drop n l else [])) by by case_if.
    simpl. by eexists.
  - destruct (vector_grow_spec v l (Z.of_nat n) Hr Hn) as (v1 & -> & Hr1 & Hl1 & Hf1 & Ha1).
    simpl. rewrite drop_ge, take_ge by lia.
    destruct (clear_spare v1 l (Z.to_nat (Z.of_nat n - vlen v1)) Hr1) as (v2 & -> & Hr2 & Hf2).
    { lia. }
    simpl. exists v2. split; [by case_if|]. split; [done|congruence].
Qed.
End specs.

(** ** The abstract vector: a list, and the elements it gave up *)

Inductive vec_op (A : Type) :=
  | VAdd (e : option A)
  | VRemoveRange (pos n : nat)
  | VRemove (e : option A)
  | VResize (n : nat).
Arguments VAdd {A} _.
Arguments VRemoveRange {A} _ _.
Arguments VRemove {A} _.
Arguments VResize {A} _.

Section refinement.
Context {A : Type} `{!EqDecision A}.
#[local] Existing Instance default_mapper.
Implicit Types (v : vector A) (l freed : list (option A)).

(** One call: its result, the vector and the elements freed. *)
Definition run_vec_op (o : vec_op A) v : option (bool * vector A * list (option A)) :=
  match o with
  | VAdd e => r ← vector_add v e; Some (r.1, r.2, [])
  | VRemoveRange pos n =>
      r ← vector_remove_range v (Z.of_nat pos) (Z.of_nat n); Some (true, r.1, r.2)
  | VRemove e => vector_remove v e
  | VResize n => vector_resize v (Z.of_nat n)
  end.

(** The same on the list: result, list, elements given up. *)
Definition spec_vec_op (o : vec_op A) l : bool * list (option A) * list (option A) :=
  match o with
  | VAdd e => (true, l ++ [e], [])
  | VRemoveRange pos n =>
      if (pos + n <=? length l)%nat
      then (true, take pos l ++ drop (pos + n) l, take n (drop pos l))
      else (true, l, [])
  | VRemove e =>
      match list_find (.= e) l with
      | Some (j, _) => (true, take j l ++ drop (j + 1) l, [e])
      | None => (false, l, [])
      end
  | VResize n => (true, take n l, drop n l)
  end.

(** Sizes the array can take. *)
Definition vec_op_ok (o : vec_op A) l : Prop :=
  match o with
  | VAdd _ => Z.of_nat (length l) < 2 ^ 60
  | VRemoveRange pos n => Z.of_nat pos + Z.of_nat n < 2 ^ 64
  | VRemove _ => True
  | VResize n => Z.of_nat n <= 2 ^ 60
  end.

Fixpoint run_vec_ops (os : list (vec_op A)) v
    : option (list bool * vector A * list (option A)) :=
  match os with
  | [] => Some ([], v, [])
  | o :: os =>
      r ← run_vec_op o v; r' ← run_vec_ops os r.1.2;
      Some (r.1.1 :: r'.1.1, r'.1.2, r.2 ++ r'.2)
  end.

Fixpoint spec_vec_ops (os : list (vec_op A)) l
    : list bool * list (option A) * list (option A) :=
  match os with
  | [] => ([], l, [])
  | o :: os =>
      let '(b, l, f) := spec_vec_op o l in
      let '(bs, l, f') := spec_vec_ops os l in (b :: bs, l, f ++ f')
  end.

Fixpoint vec_ops_ok (os : list (vec_op A)) l : Prop :=
  match os with
  | [] => True
  | o :: os => vec_op_ok o l /\ vec_ops_ok os (spec_vec_op o l).1.2
  end.

Lemma run_vec_op_spec o v l :
  vec_repr v l -> elem_free_f v = true -> vec_op_ok o l ->
  let '(b, l', f) := spec_vec_op o l in
  exists v', run_vec_op o v = Some (b, v', f) /\ vec_repr v' l' /\ elem_free_f v' = true.
Proof.
  intros Hr Hf Hok. destruct o as [e|pos n|e|n]; cbn [spec_vec_op run_vec_op vec_op_ok] in *.
  - destruct (vector_add_spec v l e Hr Hok) as (v' & -> & Hr' & Hf').
    eexists. split; [done|]. split; [done|simpl; congruence].
  - destruct (Nat.leb_spec (pos + n) (length l)) as [Hn|Hn].
    + destruct (vector_remove_range_spec v l pos n Hr Hn) as (v' & -> & Hr' & Hf').
      rewrite Hf. eexists. split; [done|]. split; [done|simpl; congruence].
    + unfold vector_remove_range. rewrite wrap_small by (unfold urange; lia).
      rewrite (vr_len _ _ Hr), (proj2 (Z.ltb_lt _ _)) by lia. by exists v.
  - unfold vector_remove. rewrite (vector_find_spec v l e Hr). simpl.
    destruct (list_find _ l) as [[j x]|] eqn:E.
    + apply list_find_Some in E as (Hj & -> & _). pose proof (lookup_lt_Some _ _ _ Hj).
      rewrite (proj2 (Z.ltb_ge _ _)) by lia. unfold vector_remove_idx.
      destruct (vector_remove_range_spec v l j 1 Hr ltac:(lia)) as (v' & E & Hr' & Hf').
      change (Z.of_nat 1) with 1 in E. rewrite E, Hf. simpl.
      rewrite (drop_S _ _ _ Hj). simpl. rewrite take_0.
      eexists. split; [done|]. split; [done|simpl; congruence].
    + by exists v.
  - destruct (vector_resize_spec v l n Hr Hok) as (v' & -> & Hr' & Hf').
    rewrite Hf. eexists. split; [done|]. split; [done|simpl; congruence].
Qed.

Lemma run_vec_ops_spec os v l :
  vec_repr v l -> elem_free_f v = true -> vec_ops_ok os l ->
  let '(bs, l', f) := spec_vec_ops os l in
  exists v', run_vec_ops os v = Some (bs, v', f) /\ vec_repr v' l' /\ elem_free_f v' = true.
Proof.
  revert v l. induction os as [|o os IH]; intros v l Hr Hf Hok; [by exists v|].
  simpl in *. destruct Hok as [Ho Hos].
  pose proof (run_vec_op_spec o v l Hr Hf Ho) as H1.
  destruct (spec_vec_op o l) as [[b l1] f1]. destruct H1 as (v1 & -> & Hr1 & Hf1).
  simpl in *. pose proof (IH v1 l1 Hr1 Hf1 Hos) as H2.
  destruct (spec_vec_ops os l1) as [[bs l2] f2]. destruct H2 as (v2 & -> & Hr2 & Hf2).
  by exists v2.
Qed.

(** The elements the calls add. *)
Definition added (os : list (vec_op A)) : list (option A) :=
  omap (fun o => match o with VAdd e => Some e | _ => None end) os.

Lemma spec_vec_op_perm o l :
  let '(_, l', f) := spec_vec_op o l in f ++ l' ≡ₚ l ++ added [o].
Proof.
  destruct o as [e|pos n|e|n]; simpl.
  - done.
  - case_if; rewrite app_nil_r; [|done].
    rewrite <- (take_drop pos l) at 4. rewrite <- (take_drop n (drop pos l)) at 2.
    rewrite drop_drop, !app_assoc. apply Permutation_app_tail, Permutation_app_comm.
  - rewrite app_nil_r. destruct (list_find _ l) as [[j x]|] eqn:E; [|done].
    apply list_find_Some in E as (Hj & -> & _).
    rewrite <- (take_drop_middle l j e Hj) at 3. rewrite Nat.add_1_r. simpl.
    apply Permutation_middle.
  - rewrite app_nil_r. rewrite Permutation_app_comm. by rewrite take_drop.
Qed.

Lemma spec_vec_ops_perm os l :
  let '(_, l', f) := spec_vec_ops os l in f ++ l' ≡ₚ l ++ added os.
Proof.
  revert l. induction os as [|o os IH]; intros l; simpl; [by rewrite app_nil_r|].
  pose proof (spec_vec_op_perm o l) as H1.
  destruct (spec_vec_op o l) as [[b l1] f1]. specialize (IH l1).
  destruct (spec_vec_ops os l1) as [[bs l2] f2].
  rewrite <- app_assoc, IH, app_assoc, H1, <- app_assoc.
  by destruct o.
Qed.

Lemma vector_free_spec v l :
  vec_repr v l -> elem_free_f v = true ->
  vector_free (Some v) true = Some (filter is_Some l).
Proof.
  intros Hr Hf. unfold vector_free, vector_free_data.
  destruct (vr_data _ _ Hr) as (tl & Hd & _). rewrite Hd, Hf, (vr_len _ _ Hr), Nat2Z.id.
  pose proof (vget_range_repr v l 0 (length l) Hr (le_n _)) as E.
  change (Z.of_nat 0) with 0 in E. rewrite E. cbn [mbind option_bind].
  by rewrite drop_0, take_ge by lia.
Qed.

(** A vector made with a callback behaves as the list of its elements under any
    sequence of calls: the same results and contents, and the same elements freed. *)
Theorem vector_ops_refine res os :
  res <= 2 ^ 60 -> vec_ops_ok os [] ->
  exists v v' bs l f,
    vector_new res true = Some (Some v) /\
    spec_vec_ops os [] = (bs, l, f) /\
    run_vec_ops os v = Some (bs, v', f) /\ vec_repr v' l.
Proof.
  intros Hres Hok. destruct (vector_new_spec (A := A) res true Hres) as (v & E & Hr & Hf & _).
  pose proof (run_vec_ops_spec os v [] Hr Hf Hok) as H.
  destruct (spec_vec_ops os []) as [[bs l] f]. destruct H as (v' & H & Hr' & _).
  by exists v, v', bs, l, f.
Qed.

(** No element is lost and none is freed twice: once the vector is destroyed, the
    elements freed (by the calls and by the destruction, which skips NULLs) are, up to
    order, the elements that were added. *)
Theorem vector_frees_each_once res os :
  res <= 2 ^ 60 -> vec_ops_ok os [] ->
  exists v v' bs f f',
    vector_new res true = Some (Some v) /\
    run_vec_ops os v = Some (bs, v', f) /\
    vector_free (Some v') true = Some f' /\
    filter is_Some f ++ f' ≡ₚ filter is_Some (added os).
Proof.
  intros Hres Hok. destruct (vector_new_spec (A := A) res true Hres) as (v & E & Hr & Hf & _).
  pose proof (run_vec_ops_spec os v [] Hr Hf Hok) as H.
  pose proof (spec_vec_ops_perm os []) as Hp.
  destruct (spec_vec_ops os []) as [[bs l] f]. destruct H as (v' & H & Hr' & Hf').
  exists v, v', bs, f, (filter is_Some l). split_and!; [done|done|by apply vector_free_spec|].
  rewrite <- list.filter_app. by rewrite Hp.
Qed.
End refinement.

Definition demo_ops : list (vec_op Z) :=
  [VAdd (Some 1); VAdd None; VAdd (Some 2); VResize 2; VRemove (Some 1); VAdd (Some 3)].

Lemma vector_ops_refine_witness :
  exists v v' bs l f,
    vector_new (H := default_mapper) 3 true = Some (Some v) /\
    spec_vec_ops demo_ops [] = (bs, l, f) /\
    run_vec_ops demo_ops v = Some (bs, v', f) /\ vec_repr v' l.
Proof. apply (vector_ops_refine 3 demo_ops); [lia|].
  vm_compute. repeat split; discriminate.
Defined.

Lemma vector_frees_each_once_witness :
  exists v v' bs f f',
    vector_new (H := default_mapper) 3 true = Some (Some v) /\
    run_vec_ops demo_ops v = Some (bs, v', f) /\
    vector_free (Some v') true = Some f' /\
    filter is_Some f ++ f' ≡ₚ filter is_Some (added demo_ops).
Proof. apply (vector_frees_each_once 3 demo_ops); [lia|].
  vm_compute. repeat split; discriminate.
Defined.

(** Growing does not change the number of elements, whatever the comment of
    [vector_resize] says. *)
Example resize_grow_keeps_len :
  (v ← vector_new (A := Z) (H := default_mapper) 0 false;
   v ← v; r ← vector_resize (H := default_mapper) v 5; Some (vlen r.1.2)) = Some 0.
Proof. reflexivity. Qed.

(** The serialiser writes no separators, so that the reader of the same file takes two
    strings back as one. *)
Example serialize_two_strings :
  let v0 := vector_new (A := bytes) (H := default_mapper) 0 true in
  (v ← v0; v ← v;
   v ← vector_add (H := default_mapper) v (Some [Byte.x61]);
   v ← vector_add (H := default_mapper) v.2 (Some [Byte.x62]);
   serializeVector (Some v.2) (Some (replicate 8 None)) 8)
  = Some (true, Some ((Some <$> [Byte.x61; Byte.x62]) ++ replicate 6 None), Some 2) /\
  (v ← v0;
   r ← deserializeVector (H := default_mapper) (fun _ => true) v
         (Some [Byte.x61; Byte.x62; Byte.x00]) 2;
   v ← r.1.2; vget v 0) = Some (Some [Byte.x61; Byte.x62]).
Proof. split; reflexivity. Qed.
