(* ===== verification/Script.v ===== *)
(** * Transaction scripts ([src/src/script.c])

    Parsing a script into operations, recognising the standard templates,
    building them, and copying a script without its code separators. *)

From S2P Require Import Prelude Mem Cstr Serialize.

Local Open Scope Z_scope.

(** ** Opcodes ([include/dogecoin/script.h]) *)

Definition OP_0 : Z := 0x00.
Definition OP_PUSHDATA1 : Z := 0x4c.
Definition OP_PUSHDATA2 : Z := 0x4d.
Definition OP_PUSHDATA4 : Z := 0x4e.
Definition OP_1 : Z := 0x51.
Definition OP_16 : Z := 0x60.
Definition OP_RETURN : Z := 0x6a.
Definition OP_DUP : Z := 0x76.
Definition OP_EQUAL : Z := 0x87.
Definition OP_EQUALVERIFY : Z := 0x88.
Definition OP_HASH160 : Z := 0xa9.
Definition OP_HASH256 : Z := 0xaa.
Definition OP_CODESEPARATOR : Z := 0xab.
Definition OP_CHECKSIG : Z := 0xac.
Definition OP_CHECKMULTISIG : Z := 0xae.

Definition ECKEY_COMPRESSED_LENGTH : Z := 33.
Definition ECKEY_UNCOMPRESSED_LENGTH : Z := 65.

Inductive tx_out_type :=
  | TX_NONSTANDARD | TX_PUBKEY | TX_PUBKEYHASH | TX_SCRIPTHASH | TX_MULTISIG.

#[export] Instance tx_out_type_eq_dec : EqDecision tx_out_type.
Proof. solve_decision. Defined.

(** [data] is [None] for the NULL pointer of a non-push operation. *)
Record script_op := mk_op { op : Z; data : option bytes; datalen : Z }.

(** ** Copying without OP_CODESEPARATOR *)

(** One round of the loop: the bytes left and the output so far, or the output at
    the point where the script was rejected. *)
Inductive copy_result := CopyMore (buf out : bytes) | CopyErr (out : bytes).

(** [if (data_len > 0) ... else append opcode]: the tail of the loop body. *)
Definition copy_push (opcode : bytes) (data_len : Z) (buf out : bytes) : copy_result :=
  if 0 <? data_len then
    if Z.of_nat (length buf) <? data_len then CopyErr out
    else match deser_bytes data_len buf with
         | (Some d, buf) => CopyMore buf (out ++ d)
         | (None, _) => CopyErr out
         end
  else CopyMore buf (out ++ opcode).

Definition copy_step (buf out : bytes) : copy_result :=
  match deser_bytes 1 buf with
  | (None, _) => CopyErr out
  | (Some opc, buf) =>
      let opcode := le_dec opc in
      if (opcode <? OP_PUSHDATA1) && (OP_0 <? opcode) then
        copy_push opc opcode buf (out ++ opc)
      else if opcode =? OP_PUSHDATA1 then
        match deser_bytes 1 buf with
        | (Some v8, buf) => copy_push opc (le_dec v8) buf (out ++ opc ++ v8)
        | (None, _) => CopyErr out
        end
      else if opcode =? OP_PUSHDATA2 then
        match deser_u16 buf with
        | (Some v16, buf) => copy_push opc v16 buf (out ++ opc ++ le_enc 2 v16)
        | (None, _) => CopyErr out
        end
      else if opcode =? OP_PUSHDATA4 then
        match deser_u32 buf with
        | (Some v32, buf) => copy_push opc v32 buf (out ++ opc ++ le_enc 4 v32)
        | (None, _) => CopyErr out
        end
      else if opcode =? OP_CODESEPARATOR then CopyMore buf out
      else copy_push opc 0 buf out
  end.

(** [while (buf.len > 0)]; every round consumes a byte, so [length buf] rounds
    are enough ([copy_loop_fuel]). *)
Fixpoint copy_loop (fuel : nat) (buf out : bytes) : bool * bytes :=
  match buf with
  | [] => (true, out)
  | _ =>
      match fuel with
      | O => (false, out)
      | S fuel =>
          match copy_step buf out with
          | CopyMore buf out => copy_loop fuel buf out
          | CopyErr out => (false, out)
          end
      end
  end.

Definition script_copy_without_op_codeseperator (script_in script_out : bytes)
    : bool * bytes :=
  if Z.of_nat (length script_in) =? 0 then (false, script_out)
  else copy_loop (length script_in) script_in script_out.

(** ** Parsing into operations *)

(** The push length of the next operation, [None] when it is not a push. *)
Definition op_data_len (opcode : Z) : deser (option Z) :=
  if opcode <? OP_PUSHDATA1 then mret (Some opcode)
  else if opcode =? OP_PUSHDATA1 then v8 ← deser_bytes 1; mret (Some (le_dec v8))
  else if opcode =? OP_PUSHDATA2 then v16 ← deser_u16; mret (Some v16)
  else if opcode =? OP_PUSHDATA4 then v32 ← deser_u32; mret (Some v32)
  else mret None.

Definition get_op : deser script_op :=
  opc ← deser_bytes 1;
  let opcode := le_dec opc in
  o ← op_data_len opcode;
  match o with
  | None => mret (mk_op opcode None 0)
  | Some data_len =>
      left ← deser_remaining;
      if (left =? 0) || (left <? data_len) then deser_fail
      else d ← deser_bytes data_len; mret (mk_op opcode (Some d) data_len)
  end.

(** [ops_out] keeps the operations parsed before a failure. *)
Fixpoint get_ops_loop (fuel : nat) (buf : bytes) (ops_out : list script_op)
    : bool * list script_op :=
  match buf with
  | [] => (true, ops_out)
  | _ =>
      match fuel with
      | O => (false, ops_out)
      | S fuel =>
          match get_op buf with
          | (Some o, buf) => get_ops_loop fuel buf (ops_out ++ [o])
          | (None, _) => (false, ops_out)
          end
      end
  end.

Definition script_get_ops (script_in : bytes) (ops_out : list script_op)
    : bool * list script_op :=
  if Z.of_nat (length script_in) =? 0 then (false, ops_out)
  else get_ops_loop (length script_in) script_in ops_out.

(** ** Templates *)

Definition script_is_pushdata (opc : Z) : bool := opc <=? OP_PUSHDATA4.

Definition script_is_op (o : script_op) (opcode : Z) : bool := op o =? opcode.

(** [src/src/key.c] *)
Definition pubkey_get_length (ch_header : Z) : Z :=
  if (ch_header =? 2) || (ch_header =? 3) then ECKEY_COMPRESSED_LENGTH
  else if (ch_header =? 4) || (ch_header =? 6) || (ch_header =? 7)
  then ECKEY_UNCOMPRESSED_LENGTH
  else 0.

(** [op->data[0]], read only behind the length checks. *)
Definition op_first_byte (o : script_op) : Z :=
  match data o with Some (b :: _) => byte.unsigned b | _ => 0 end.

Definition script_is_op_pubkey (o : script_op) : bool :=
  if negb (script_is_pushdata (op o)) then false
  else if negb (datalen o =? ECKEY_COMPRESSED_LENGTH) &&
          negb (datalen o =? ECKEY_UNCOMPRESSED_LENGTH) then false
  else if negb (pubkey_get_length (op_first_byte o) =? datalen o) then false
  else true.

Definition script_is_op_pubkeyhash (o : script_op) : bool :=
  if negb (script_is_pushdata (op o)) then false
  else if negb (datalen o =? 20) then false
  else true.

Definition op_bytes (o : script_op) : bytes := default [] (data o).

(** The recognisers add the key or hash to [data_out]. *)
Definition script_is_pubkey (ops : list script_op) (data_out : list bytes)
    : bool * list bytes :=
  match ops with
  | [o0; o1] =>
      if script_is_op o1 OP_CHECKSIG && script_is_op_pubkey o0
      then (true, data_out ++ [take (Z.to_nat (datalen o0)) (op_bytes o0)])
      else (false, data_out)
  | _ => (false, data_out)
  end.

Definition script_is_pubkeyhash (ops : list script_op) (data_out : list bytes)
    : bool * list bytes :=
  match ops with
  | [o0; o1; o2; o3; o4] =>
      if script_is_op o0 OP_DUP && script_is_op o1 OP_HASH160 &&
         script_is_op_pubkeyhash o2 && script_is_op o3 OP_EQUALVERIFY &&
         script_is_op o4 OP_CHECKSIG
      then (true, data_out ++ [take 20 (op_bytes o2)])
      else (false, data_out)
  | _ => (false, data_out)
  end.

Definition script_is_scripthash (ops : list script_op) (data_out : list bytes)
    : bool * list bytes :=
  match ops with
  | [o0; o1; o2] =>
      if script_is_op o0 OP_HASH160 && script_is_op_pubkeyhash o1 &&
         script_is_op o2 OP_EQUAL
      then (true, data_out ++ [take 20 (op_bytes o1)])
      else (false, data_out)
  | _ => (false, data_out)
  end.

Definition script_is_op_smallint (o : script_op) : bool :=
  (op o =? OP_0) || ((OP_1 <=? op o) && (op o <=? OP_16)).

(** [vector_idx(ops, i)] on an index in range. *)
Definition op_at (ops : list script_op) (i : nat) : script_op :=
  default (mk_op 0 None 0) (ops !! i).

Definition script_is_multisig (ops : list script_op) : bool :=
  let n := length ops in
  if (n <? 3)%nat || (19 <? n)%nat ||
     negb (script_is_op_smallint (op_at ops 0)) ||
     negb (script_is_op_smallint (op_at ops (n - 2))) ||
     negb (script_is_op (op_at ops (n - 1)) OP_CHECKMULTISIG) then false
  else forallb script_is_op_pubkey (take (n - 3) (drop 1 ops)).

Definition script_classify_ops (ops : list script_op) : tx_out_type :=
  if (script_is_pubkeyhash ops []).1 then TX_PUBKEYHASH
  else if (script_is_scripthash ops []).1 then TX_SCRIPTHASH
  else if (script_is_pubkey ops []).1 then TX_PUBKEY
  else if script_is_multisig ops then TX_MULTISIG
  else TX_NONSTANDARD.

(** The parse result of [script_get_ops] is not looked at; later templates
    overwrite the type found by earlier ones. *)
Definition script_classify (script : bytes) (data_out : list bytes)
    : tx_out_type * list bytes :=
  let '(_, ops) := script_get_ops script [] in
  let ty := TX_NONSTANDARD in
  let '(b, data_out) := script_is_pubkeyhash ops data_out in
  let ty := if b then TX_PUBKEYHASH else ty in
  let '(b, data_out) := script_is_scripthash ops data_out in
  let ty := if b then TX_SCRIPTHASH else ty in
  let '(b, data_out) := script_is_pubkey ops data_out in
  let ty := if b then TX_PUBKEY else ty in
  let ty := if script_is_multisig ops then TX_MULTISIG else ty in
  (ty, data_out).

(** ** Builders *)

(** [None]: the assertion of [dogecoin_encode_op_n] fails. *)
Definition encode_op_n (n : Z) : option Z :=
  if (0 <=? n) && (n <=? 16) then
    if n =? 0 then Some OP_0 else Some (OP_1 + n - 1)
  else None.

Section builders.
Context {S : Type} `{!ByteSink S}.

Definition script_append_op (script_in : S) (o : Z) : S :=
  sink_append script_in (le_enc 1 o).

Definition script_append_pushdata (script_in : S) (d : bytes) : S :=
  let datalen := Z.of_nat (length d) in
  let script_in :=
    if datalen <? OP_PUSHDATA1 then sink_append script_in (le_enc 1 datalen)
    else if datalen <=? 0xff then
      sink_append (script_append_op script_in OP_PUSHDATA1) (le_enc 1 datalen)
    else if datalen <=? 0xffff then
      sink_append (script_append_op script_in OP_PUSHDATA2) (le_enc 2 (u16 datalen))
    else
      sink_append (script_append_op script_in OP_PUSHDATA4) (le_enc 4 (u32 datalen)) in
  sink_append script_in d.
End builders.

Record pubkey := mk_pubkey { pk_compressed : bool; pk_bytes : bytes }.

Definition pubkey_len (pk : pubkey) : nat := if pk_compressed pk then 33%nat else 65%nat.

(** The script is cleared first, also when the arguments are refused. *)
Definition script_build_multisig (required_signatures : Z)
    (pubkeys_chars : option (list pubkey)) : bool * bytes :=
  match pubkeys_chars with
  | None => (false, [])
  | Some keys =>
      let n := Z.of_nat (length keys) in
      if n =? 0 then (false, [])
      else if (required_signatures =? 0) || (16 <? required_signatures) then (false, [])
      else if (16 <? n) || (n <? required_signatures) then (false, [])
      else
        match encode_op_n required_signatures, encode_op_n n with
        | Some op_req_sig, Some op_pub_len =>
            let s := script_append_op [] op_req_sig in
            let s := foldl (fun s pk =>
                       script_append_pushdata s (take (pubkey_len pk) (pk_bytes pk)))
                       s keys in
            let s := script_append_op s op_pub_len in
            (true, script_append_op s OP_CHECKMULTISIG)
        | _, _ => (false, [])
        end
  end.

(** [hash160]: the 20 bytes at the argument. *)
Definition script_build_p2pkh (hash160 : bytes) : bytes :=
  let s := script_append_op [] OP_DUP in
  let s := script_append_op s OP_HASH160 in
  let s := script_append_pushdata s (take 20 hash160) in
  let s := script_append_op s OP_EQUALVERIFY in
  script_append_op s OP_CHECKSIG.

Definition script_build_p2sh (hash160 : bytes) : bytes :=
  let s := script_append_op [] OP_HASH160 in
  let s := script_append_pushdata s (take 20 hash160) in
  script_append_op s OP_EQUAL.

(** ** Scripts as sequences of items *)

(** What the builders append: one data push, or one other opcode. *)
Inductive item := IPush (d : bytes) | IOp (o : Z).

Definition item_ok (it : item) : Prop :=
  match it with
  | IPush d => Z.of_nat (length d) < 2 ^ 32
  | IOp o => OP_PUSHDATA4 < o < 256
  end.

Definition emit (s : bytes) (it : item) : bytes :=
  match it with
  | IPush d => script_append_pushdata s d
  | IOp o => script_append_op s o
  end.

Definition build (its : list item) : bytes := foldl emit [] its.

(** The operation an item is parsed into. *)
Definition push_opcode (n : Z) : Z :=
  if n <? OP_PUSHDATA1 then n
  else if n <=? 0xff then OP_PUSHDATA1
  else if n <=? 0xffff then OP_PUSHDATA2 else OP_PUSHDATA4.

Definition item_op (it : item) : script_op :=
  match it with
  | IPush d =>
      mk_op (push_opcode (Z.of_nat (length d))) (Some d) (Z.of_nat (length d))
  | IOp o => mk_op o None 0
  end.

(** The opcode and the length field in front of the data. *)
Definition push_header (n : Z) : bytes :=
  if n <? OP_PUSHDATA1 then le_enc 1 n
  else if n <=? 0xff then le_enc 1 OP_PUSHDATA1 ++ le_enc 1 n
  else if n <=? 0xffff then le_enc 1 OP_PUSHDATA2 ++ le_enc 2 n
  else le_enc 1 OP_PUSHDATA4 ++ le_enc 4 n.

Lemma append_op_bytes (s : bytes) o : script_append_op s o = s ++ le_enc 1 o.
Proof. done. Qed.

Lemma append_pushdata_bytes (s d : bytes) :
  Z.of_nat (length d) < 2 ^ 32 ->
  script_append_pushdata s d = s ++ push_header (Z.of_nat (length d)) ++ d.
Proof.
  intros Hd. unfold script_append_pushdata, push_header, script_append_op,
    sink_append, bytes_sink.
  repeat case_if; zbool; rewrite ?(wrap_small 16), ?(wrap_small 32) by (unfold urange; lia);
    by rewrite <- ?app_assoc.
Qed.

Lemma emit_app s it : item_ok it -> emit s it = s ++ emit [] it.
Proof.
  destruct it as [d|o]; simpl; [|done].
  intros. by rewrite !(append_pushdata_bytes _ d).
Qed.

Lemma build_app its its' :
  Forall item_ok its' -> build (its ++ its') = build its ++ build its'.
Proof.
  unfold build. rewrite foldl_app. generalize (foldl emit [] its) as s.
  induction its' as [|it its' IH] using rev_ind; intros s Hok; simpl.
  { by rewrite app_nil_r. }
  apply Forall_app in Hok as [Hok Hit]. rewrite Forall_singleton in Hit.
  rewrite !foldl_app. simpl.
  rewrite (emit_app (foldl emit s its')), (emit_app (foldl emit [] its')) by done.
  by rewrite IH, app_assoc.
Qed.

Lemma build_cons it its :
  Forall item_ok (it :: its) -> build (it :: its) = emit [] it ++ build its.
Proof.
  intros H. pose proof (Forall_cons_1 _ _ _ H) as [Hit Hok]. change (it :: its) with ([it] ++ its).
  by rewrite build_app.
Qed.

Lemma emit_nonempty it : item_ok it -> emit [] it <> [].
Proof.
  destruct it as [d|o]; simpl; [|by intros].
  intros Hd. rewrite append_pushdata_bytes by done. simpl. unfold push_header.
  by repeat case_if.
Qed.

Lemma emit_length it : item_ok it -> (1 <= length (emit [] it))%nat.
Proof. intros H%emit_nonempty. destruct (emit [] it); simpl; [done|lia]. Qed.

Lemma build_nonempty its : its <> [] -> Forall item_ok its -> build its <> [].
Proof.
  destruct its as [|it its]; [done|]. intros _ Hok. rewrite build_cons by done.
  pose proof (Forall_cons_1 _ _ _ Hok) as [Hit _]. apply emit_nonempty in Hit.
  by destruct (emit [] it).
Qed.

(** ** Parsing what the builders wrote *)

Lemma read_byte z rest :
  urange 8 z -> deser_bytes 1 (le_enc 1 z ++ rest) = (Some (le_enc 1 z), rest).
Proof. intros. by apply deser_bytes_app. Qed.

Lemma read_byte_val z : urange 8 z -> le_dec (le_enc 1 z) = z.
Proof. intros. by apply le_dec_enc_small. Qed.

Ltac read_opcode :=
  rewrite (deser_bind_some _ _ _ _ _ (read_byte _ _ ltac:(unfold urange; lia)));
  cbv zeta; rewrite read_byte_val by (unfold urange; lia).

Lemma op_data_len_push (d rest : bytes) :
  let n := Z.of_nat (length d) in
  n < 2 ^ 32 ->
  exists tl, push_header n ++ rest = le_enc 1 (push_opcode n) ++ tl /\
    urange 8 (push_opcode n) /\
    op_data_len (push_opcode n) tl = (Some (Some n), rest).
Proof.
  intros n Hn. unfold push_header, push_opcode, op_data_len.
  destruct (Z.ltb_spec n OP_PUSHDATA1); [|destruct (Z.leb_spec n 255);
    [|destruct (Z.leb_spec n 65535)]]; unfold OP_PUSHDATA1 in *.
  - exists rest. split; [done|]. split; [unfold urange; lia|].
    by rewrite (proj2 (Z.ltb_lt n 76)).
  - exists (le_enc 1 n ++ rest). split; [by rewrite app_assoc|].
    split; [done|]. simpl.
    rewrite (deser_bind_some _ _ _ _ _ (read_byte n rest ltac:(unfold urange; lia))).
    by rewrite read_byte_val by (unfold urange; lia).
  - exists (le_enc 2 n ++ rest). split; [by rewrite app_assoc|].
    split; [done|]. simpl.
    by rewrite (deser_bind_some _ _ _ _ _
                  (u16_round_trip n rest ltac:(unfold urange; lia))).
  - exists (le_enc 4 n ++ rest). split; [by rewrite app_assoc|].
    split; [done|]. simpl.
    by rewrite (deser_bind_some _ _ _ _ _
                  (u32_round_trip n rest ltac:(unfold urange; lia))).
Qed.

Lemma get_op_emit it rest :
  item_ok it -> (it = IPush [] -> rest <> []) ->
  get_op (emit [] it ++ rest) = (Some (item_op it), rest).
Proof.
  intros Hok Hlast. unfold get_op. destruct it as [d|o]; cbn [emit item_op item_ok] in *.
  - rewrite append_pushdata_bytes, app_nil_l, <- app_assoc by done.
    destruct (op_data_len_push d (d ++ rest) Hok) as (tl & -> & Hr & Hd).
    rewrite (deser_bind_some _ _ _ _ _ (read_byte _ tl Hr)). cbv zeta.
    rewrite read_byte_val by done.
    rewrite (deser_bind_some _ _ _ _ _ Hd).
    rewrite (deser_bind_some _ _ _ (Z.of_nat (length (d ++ rest))) (d ++ rest)) by done.
    assert (d ++ rest <> []) as Hne.
    { destruct d; [|done]. apply Hlast. done. }
    rewrite (proj2 (Z.eqb_neq _ _)) by (destruct (d ++ rest); simpl; [done|lia]).
    rewrite (proj2 (Z.ltb_ge _ _)) by (rewrite length_app; lia). simpl.
    by rewrite (deser_bind_some _ _ _ d rest) by by apply deser_bytes_app.
  - rewrite append_op_bytes, app_nil_l. unfold OP_PUSHDATA4 in Hok.
    rewrite (deser_bind_some _ _ _ _ _ (read_byte o rest ltac:(unfold urange; lia))).
    cbv zeta. rewrite read_byte_val by (unfold urange; lia).
    unfold op_data_len, OP_PUSHDATA1, OP_PUSHDATA2, OP_PUSHDATA4.
    rewrite (proj2 (Z.ltb_ge _ _)), !(proj2 (Z.eqb_neq _ _)) by lia. done.
Qed.

(** [well_parsed its rest]: an empty push is not the end of the script. *)
Fixpoint no_final_empty_push (its : list item) : Prop :=
  match its with
  | [] => True
  | [it] => it <> IPush []
  | _ :: its => no_final_empty_push its
  end.

Lemma get_ops_loop_build its fuel out :
  Forall item_ok its -> no_final_empty_push its ->
  (length (build its) <= fuel)%nat ->
  get_ops_loop fuel (build its) out = (true, out ++ (item_op <$> its)).
Proof.
  revert fuel out. induction its as [|it its IH]; intros fuel out Hok Hlast Hf.
  { rewrite app_nil_r. by destruct fuel. }
  rewrite build_cons in * by done. pose proof (Forall_cons_1 _ _ _ Hok) as [Hit Hits].
  pose proof (emit_length _ Hit). rewrite length_app in Hf.
  destruct fuel as [|fuel]; [lia|].
  unfold get_ops_loop; fold get_ops_loop.
  destruct (emit [] it ++ build its) eqn:He.
  { apply app_eq_nil in He as [He _]. by apply emit_nonempty in He. }
  rewrite <- He, get_op_emit; [|done|].
  - rewrite IH by (try done; try lia; destruct its; done).
    by rewrite <- app_assoc.
  - intros ->. destruct its as [|it' its]; [done|]. by apply build_nonempty.
Qed.

Lemma get_ops_build its out :
  its <> [] -> Forall item_ok its -> no_final_empty_push its ->
  script_get_ops (build its) out = (true, out ++ (item_op <$> its)).
Proof.
  intros Hne Hok Hlast. unfold script_get_ops.
  pose proof (build_nonempty its Hne Hok).
  rewrite (proj2 (Z.eqb_neq _ _)) by (destruct (build its); [done|simpl; lia]).
  by apply get_ops_loop_build.
Qed.

(** ** Copying what the builders wrote *)

Definition is_separator (it : item) : bool :=
  match it with IOp o => o =? OP_CODESEPARATOR | _ => false end.

Lemma copy_push_data opc n (d rest out : bytes) :
  n = Z.of_nat (length d) -> (d = [] -> opc = []) ->
  copy_push opc n (d ++ rest) out = CopyMore rest (out ++ d).
Proof.
  intros -> Hd. unfold copy_push. destruct d as [|b d].
  - rewrite Hd by done. done.
  - rewrite (proj2 (Z.ltb_lt _ _)) by (simpl; lia).
    rewrite (proj2 (Z.ltb_ge _ _)) by (rewrite length_app; lia).
    by rewrite deser_bytes_app.
Qed.

(** One round copies one item, or drops it when it is a separator. *)
Lemma copy_step_emit it rest out :
  item_ok it ->
  copy_step (emit [] it ++ rest) out =
  CopyMore rest (out ++ if is_separator it then [] else emit [] it).
Proof.
  intros Hok. destruct it as [d|o]; cbn [emit item_ok is_separator] in *.
  - rewrite append_pushdata_bytes, app_nil_l, <- app_assoc by done.
    set (n := Z.of_nat (length d)) in *.
    unfold push_header, copy_step, OP_PUSHDATA1, OP_PUSHDATA2, OP_PUSHDATA4, OP_0.
    destruct (Z.ltb_spec n 76); [|destruct (Z.leb_spec n 255);
      [|destruct (Z.leb_spec n 65535)]];
      rewrite <- ?app_assoc, read_byte by (unfold urange; lia); cbv zeta;
      rewrite !read_byte_val by (unfold urange; lia).
    + rewrite (proj2 (Z.ltb_lt n 76)) by lia. simpl.
      destruct (Z.ltb_spec 0 n).
      * rewrite copy_push_data; [by rewrite <- ?app_assoc|done|].
        intros ->; simpl in *; lia.
      * by destruct d; [|simpl in *; lia].
    + zconst. rewrite read_byte by (unfold urange; lia).
      rewrite read_byte_val by (unfold urange; lia).
      rewrite copy_push_data; [by rewrite <- ?app_assoc|done|].
      intros ->; simpl in *; lia.
    + zconst. rewrite (u16_round_trip n _ ltac:(unfold urange; lia)).
      rewrite copy_push_data; [by rewrite <- ?app_assoc|done|].
      intros ->; simpl in *; lia.
    + zconst. rewrite (u32_round_trip n _ ltac:(unfold urange; lia)).
      rewrite copy_push_data; [by rewrite <- ?app_assoc|done|].
      intros ->; simpl in *; lia.
  - rewrite append_op_bytes, app_nil_l.
    unfold copy_step, OP_PUSHDATA1, OP_PUSHDATA2, OP_PUSHDATA4, OP_0 in *.
    rewrite read_byte by (unfold urange; lia). cbv zeta.
    rewrite read_byte_val by (unfold urange; lia).
    rewrite (proj2 (Z.ltb_ge o 76)), !(proj2 (Z.eqb_neq _ _)) by lia. simpl.
    destruct (o =? OP_CODESEPARATOR); [by rewrite app_nil_r|done].
Qed.

Lemma copy_loop_build its fuel out :
  Forall item_ok its -> (length (build its) <= fuel)%nat ->
  copy_loop fuel (build its) out =
  (true, out ++ build (filter (fun it => is_separator it = false) its)).
Proof.
  revert fuel out. induction its as [|it its IH]; intros fuel out Hok Hf.
  { rewrite app_nil_r. by destruct fuel. }
  rewrite build_cons in * by done. pose proof (Forall_cons_1 _ _ _ Hok) as [Hit Hits].
  pose proof (emit_length _ Hit). rewrite length_app in Hf.
  destruct fuel as [|fuel]; [lia|].
  unfold copy_loop; fold copy_loop.
  destruct (emit [] it ++ build its) eqn:He.
  { apply app_eq_nil in He as [He _]. by apply emit_nonempty in He. }
  rewrite <- He, copy_step_emit by done. rewrite IH by (done || lia).
  rewrite filter_cons. destruct (is_separator it) eqn:Hs.
  - rewrite app_nil_r, decide_False by done. done.
  - rewrite decide_True by done. rewrite build_cons.
    + by rewrite app_assoc.
    + constructor; [done|]. apply list.Forall_forall.
      intros x [_ Hx]%list_elem_of_filter. by eapply list.Forall_forall in Hits.
Qed.

(** Parsing a script assembled with [dogecoin_script_append_op] and
    [dogecoin_script_append_pushdata] succeeds and returns exactly the appended
    operations with their data, in order, provided the script does not end with
    an empty push. *)
Theorem script_parse_build its ops_out :
  its <> [] -> Forall item_ok its -> no_final_empty_push its ->
  script_get_ops (build its) ops_out = (true, ops_out ++ (item_op <$> its)).
Proof. apply get_ops_build. Qed.

Lemma script_parse_build_witness :
  script_get_ops (build [IPush []; IPush [Byte.x01; Byte.x02]; IOp OP_CHECKSIG]) []
  = (true, item_op <$> [IPush []; IPush [Byte.x01; Byte.x02]; IOp OP_CHECKSIG]).
Proof.
  apply (script_parse_build [IPush []; IPush [Byte.x01; Byte.x02]; IOp OP_CHECKSIG] []).
  - discriminate.
  - repeat constructor.
  - discriminate.
Defined.

(** Copying such a script without OP_CODESEPARATOR succeeds and appends to the
    output exactly the script made of the items that are not separators. *)
Theorem script_copy_drops_separators its script_out :
  its <> [] -> Forall item_ok its ->
  script_copy_without_op_codeseperator (build its) script_out =
  (true, script_out ++ build (filter (fun it => is_separator it = false) its)).
Proof.
  intros Hne Hok. unfold script_copy_without_op_codeseperator.
  pose proof (build_nonempty its Hne Hok).
  rewrite (proj2 (Z.eqb_neq _ _)) by (destruct (build its); [done|simpl; lia]).
  by apply copy_loop_build.
Qed.

Lemma script_copy_drops_separators_witness :
  script_copy_without_op_codeseperator
    (build [IPush [Byte.x07]; IOp OP_CODESEPARATOR; IOp OP_CHECKSIG]) []
  = (true, build [IPush [Byte.x07]; IOp OP_CHECKSIG]).
Proof.
  apply (script_copy_drops_separators
           [IPush [Byte.x07]; IOp OP_CODESEPARATOR; IOp OP_CHECKSIG] []).
  - discriminate.
  - repeat constructor.
Defined.

(** An empty push written with an explicit length is copied with its opcode twice:
    the last [else] of the loop appends the opcode once more. *)
Example copy_empty_pushdata1 :
  script_copy_without_op_codeseperator [Byte.x4c; Byte.x00; Byte.xac] []
  = (true, [Byte.x4c; Byte.x00; Byte.x4c; Byte.xac]).
Proof. reflexivity. Qed.

(** A script that ends with OP_0 is refused by the parser. *)
Example get_ops_final_op_0 :
  script_get_ops [Byte.x51; Byte.x00] [] = (false, [item_op (IOp OP_1)]).
Proof. reflexivity. Qed.

(** ** Termination *)

(** Every round consumes a byte, so the fuel given is enough. *)
Lemma copy_push_shorter opc n buf out buf' out' :
  copy_push opc n buf out = CopyMore buf' out' -> (length buf' <= length buf)%nat.
Proof.
  unfold copy_push, deser_bytes. repeat case_if; intros; simplify_eq; try lia.
  rewrite length_drop. lia.
Qed.

Lemma deser_bytes_shorter n buf b buf' :
  deser_bytes n buf = (Some b, buf') ->
  length buf = (Z.to_nat n + length buf')%nat \/ n <= 0 /\ buf' = buf.
Proof.
  unfold deser_bytes. case_if; intros; simplify_eq. zbool.
  destruct (Z.leb_spec n 0).
  - right. by rewrite Z2Nat.nonpos by lia.
  - left. rewrite length_drop. lia.
Qed.

Lemma copy_step_shorter buf out buf' out' :
  copy_step buf out = CopyMore buf' out' -> (length buf' < length buf)%nat.
Proof.
  unfold copy_step.
  destruct (deser_bytes 1 buf) as [[opc|] b1] eqn:E1; [|done].
  apply deser_bytes_shorter in E1 as [E1|]; [|lia].
  assert (forall n d b2, deser_bytes n b1 = (Some d, b2) -> (length b2 <= length b1)%nat).
  { intros n d b2 [?|[_ ->]]%deser_bytes_shorter; lia. }
  assert (forall n v b2, (v ← deser_bytes n; mret (le_dec v)) b1 = (Some v, b2) ->
          (length b2 <= length b1)%nat).
  { intros n v b2 (d & mid & Hd & [= _ <-])%deser_bind_inv. eauto. }
  cbv zeta. repeat case_if; intros Hstep.
  - apply copy_push_shorter in Hstep. lia.
  - destruct (deser_bytes 1 b1) as [[d|] b2] eqn:E2; [|done].
    apply copy_push_shorter in Hstep. apply H in E2. lia.
  - destruct (deser_u16 b1) as [[d|] b2] eqn:E2; [|done].
    apply copy_push_shorter in Hstep. apply H0 in E2. lia.
  - destruct (deser_u32 b1) as [[d|] b2] eqn:E2; [|done].
    apply copy_push_shorter in Hstep. apply H0 in E2. lia.
  - simplify_eq. lia.
  - apply copy_push_shorter in Hstep. lia.
Qed.

Lemma copy_loop_fuel fuel buf out :
  (length buf <= fuel)%nat -> copy_loop fuel buf out = copy_loop (length buf) buf out.
Proof.
  revert buf out. induction fuel as [fuel IH] using lt_wf_ind. intros buf out Hf.
  destruct buf as [|b buf]; [by destruct fuel|].
  destruct fuel as [|fuel]; [simpl in Hf; lia|].
  cbn [copy_loop length]. destruct (copy_step (b :: buf) out) as [buf' out'|] eqn:E; [|done].
  apply copy_step_shorter in E. simpl in *.
  rewrite (IH fuel), (IH (length buf)) by lia. done.
Qed.

Lemma get_op_shorter buf o buf' :
  get_op buf = (Some o, buf') -> (length buf' < length buf)%nat.
Proof.
  unfold get_op. intros (opc & b1 & E1 & H)%deser_bind_inv.
  apply deser_bytes_shorter in E1 as [E1|]; [|lia].
  apply deser_bind_inv in H as (o' & b2 & E2 & H).
  assert (length b2 <= length b1)%nat as Hle.
  { revert E2. unfold op_data_len. repeat case_goal;
      intros E2; try (injection E2 as <- <-; lia);
      apply deser_bind_inv in E2 as (v & b3 & E3 & [= _ <-]).
    - apply deser_bytes_shorter in E3 as [?|[_ ->]]; lia.
    - apply deser_bind_inv in E3 as (v' & b4 & E4 & [= _ <-]).
      apply deser_bytes_shorter in E4 as [?|[_ ->]]; lia.
    - apply deser_bind_inv in E3 as (v' & b4 & E4 & [= _ <-]).
      apply deser_bytes_shorter in E4 as [?|[_ ->]]; lia. }
  destruct o' as [n|]; [|injection H as <- <-; lia].
  apply deser_bind_inv in H as (l & b3 & [= _ <-] & H). case_if; [done|].
  apply deser_bind_inv in H as (d & b4 & E4 & [= _ <-]).
  apply deser_bytes_shorter in E4 as [?|[_ ->]]; lia.
Qed.

Lemma get_ops_loop_fuel fuel buf ops :
  (length buf <= fuel)%nat -> get_ops_loop fuel buf ops = get_ops_loop (length buf) buf ops.
Proof.
  revert buf ops. induction fuel as [fuel IH] using lt_wf_ind. intros buf ops Hf.
  destruct buf as [|b buf]; [by destruct fuel|].
  destruct fuel as [|fuel]; [simpl in Hf; lia|].
  cbn [get_ops_loop length]. destruct (get_op (b :: buf)) as [[o|] buf'] eqn:E; [|done].
  apply get_op_shorter in E. simpl in *.
  rewrite (IH fuel), (IH (length buf)) by lia. done.
Qed.

(** ** Classification *)

Lemma multisig_shape ops :
  script_is_multisig ops = true ->
  (3 <= length ops)%nat /\ script_is_op_smallint (op_at ops 0) = true /\
  op (op_at ops (length ops - 1)) = OP_CHECKMULTISIG.
Proof.
  unfold script_is_multisig. intros H. case_if; [done|]. zbool.
  unfold script_is_op in *. zbool. auto.
Qed.

Lemma pubkeyhash_shape ops d :
  (script_is_pubkeyhash ops d).1 = true ->
  exists o0 o1 o2 o3 o4, ops = [o0; o1; o2; o3; o4] /\ op o0 = OP_DUP /\
    op o4 = OP_CHECKSIG.
Proof.
  destruct ops as [|o0 [|o1 [|o2 [|o3 [|o4 []]]]]]; simpl; try done.
  case_if; [|done]. intros _. unfold script_is_op in *. zbool. eauto 10.
Qed.

Lemma scripthash_shape ops d :
  (script_is_scripthash ops d).1 = true ->
  exists o0 o1 o2, ops = [o0; o1; o2] /\ op o0 = OP_HASH160 /\ op o2 = OP_EQUAL.
Proof.
  destruct ops as [|o0 [|o1 [|o2 []]]]; simpl; try done.
  case_if; [|done]. intros _. unfold script_is_op in *. zbool. eauto 10.
Qed.

Lemma pubkey_shape ops d :
  (script_is_pubkey ops d).1 = true ->
  exists o0 o1, ops = [o0; o1] /\ op o1 = OP_CHECKSIG.
Proof.
  destruct ops as [|o0 [|o1 []]]; simpl; try done.
  case_if; [|done]. intros _. unfold script_is_op in *. zbool. eauto 10.
Qed.

(** The recognisers' answer does not depend on the output vector. *)
Lemma is_pubkeyhash_out ops d : (script_is_pubkeyhash ops d).1 = (script_is_pubkeyhash ops []).1.
Proof. destruct ops as [|? [|? [|? [|? [|? []]]]]]; simpl; try done. by case_if. Qed.
Lemma is_scripthash_out ops d : (script_is_scripthash ops d).1 = (script_is_scripthash ops []).1.
Proof. destruct ops as [|? [|? [|? []]]]; simpl; try done. by case_if. Qed.
Lemma is_pubkey_out ops d : (script_is_pubkey ops d).1 = (script_is_pubkey ops []).1.
Proof. destruct ops as [|? [|? []]]; simpl; try done. by case_if. Qed.

(** A multisig script starts with a small integer and ends with
    OP_CHECKMULTISIG, which no other template does. *)
Lemma multisig_excludes ops :
  script_is_multisig ops = true ->
  (script_is_pubkeyhash ops []).1 = false /\ (script_is_scripthash ops []).1 = false /\
  (script_is_pubkey ops []).1 = false.
Proof.
  intros (Hn & Hs & Hl)%multisig_shape. split_and!; apply not_true_iff_false; intros H.
  - apply pubkeyhash_shape in H as (?&?&?&?&?& -> & ? & H). change (op x3 = OP_CHECKMULTISIG) in Hl. by rewrite H in Hl.
  - apply scripthash_shape in H as (?&?&?& -> & ? & H). change (op x1 = OP_CHECKMULTISIG) in Hl. by rewrite H in Hl.
  - apply pubkey_shape in H as (?&?& -> & H). simpl in Hn. lia.
Qed.

(** [dogecoin_script_classify], which tries every template and lets a later
    match overwrite an earlier one, finds the same type as the first-match
    cascade of [dogecoin_script_classify_ops] on the parsed operations, for every
    script: the templates exclude each other. *)
Theorem script_classify_first_match script data_out :
  (script_classify script data_out).1
  = script_classify_ops (script_get_ops script []).2.
Proof.
  unfold script_classify, script_classify_ops.
  destruct (script_get_ops script []) as [b ops]. cbn [snd].
  pose proof (is_pubkeyhash_out ops data_out) as E1.
  destruct (script_is_pubkeyhash ops data_out) as [b1 d1]. simpl in E1. subst b1.
  pose proof (is_scripthash_out ops d1) as E2.
  destruct (script_is_scripthash ops d1) as [b2 d2]. simpl in E2. subst b2.
  pose proof (is_pubkey_out ops d2) as E3.
  destruct (script_is_pubkey ops d2) as [b3 d3]. simpl in E3. subst b3. simpl.
  destruct (script_is_multisig ops) eqn:Em.
  { apply multisig_excludes in Em as (-> & -> & ->). done. }
  destruct (script_is_pubkeyhash ops []).1 eqn:E1.
  { apply pubkeyhash_shape in E1 as (?&?&?&?&?& -> & _). done. }
  destruct (script_is_scripthash ops []).1 eqn:E2; [|done].
  apply scripthash_shape in E2 as (?&?&?& -> & _). done.
Qed.

(** A key whose header byte announces the length it is pushed with. *)
Definition pubkey_ok (pk : pubkey) : Prop :=
  length (pk_bytes pk) = 65%nat /\
  pubkey_get_length (byte.unsigned (hd byte_zero (pk_bytes pk))) = Z.of_nat (pubkey_len pk).

#[export] Instance pubkey_ok_dec pk : Decision (pubkey_ok pk).
Proof. unfold pubkey_ok; apply _. Defined.

Definition key_item (pk : pubkey) : item := IPush (take (pubkey_len pk) (pk_bytes pk)).

Lemma key_item_length pk :
  pubkey_ok pk -> length (take (pubkey_len pk) (pk_bytes pk)) = pubkey_len pk.
Proof.
  intros [H _]. rewrite length_take, H. unfold pubkey_len. by case_if.
Qed.

Lemma key_item_ok pk : pubkey_ok pk -> item_ok (key_item pk).
Proof.
  intros H%key_item_length. simpl. rewrite H. unfold pubkey_len. case_if; lia.
Qed.

Lemma key_item_is_pubkey pk :
  pubkey_ok pk -> script_is_op_pubkey (item_op (key_item pk)) = true.
Proof.
  intros Hok. pose proof (key_item_length pk Hok) as Hl. destruct Hok as [H Hh].
  unfold script_is_op_pubkey, key_item, item_op. cbn [op datalen data]. rewrite Hl.
  assert (op_first_byte (mk_op (push_opcode (Z.of_nat (pubkey_len pk)))
            (Some (take (pubkey_len pk) (pk_bytes pk))) (Z.of_nat (pubkey_len pk)))
          = byte.unsigned (hd byte_zero (pk_bytes pk))) as ->.
  { unfold op_first_byte. simpl. destruct (pk_bytes pk); [done|].
    unfold pubkey_len. by case_if. }
  rewrite Hh, Z.eqb_refl. unfold pubkey_len. by destruct (pk_compressed pk).
Qed.

Lemma encode_op_n_ok n o :
  1 <= n -> encode_op_n n = Some o ->
  item_ok (IOp o) /\ script_is_op_smallint (mk_op o None 0) = true.
Proof.
  unfold encode_op_n, script_is_op_smallint, item_ok, OP_0, OP_1, OP_16, OP_PUSHDATA4.
  cbn [op].
  intros Hn. case_if; [|done]. zbool. rewrite (proj2 (Z.eqb_neq n 0)) by lia.
  intros [= <-]. split; [lia|]. apply orb_true_iff. right. apply andb_true_iff. lia.
Qed.

Lemma build_multisig_items m keys s :
  script_build_multisig m (Some keys) = (true, s) -> 0 <= m ->
  exists om on, s = build (IOp om :: (key_item <$> keys) ++ [IOp on; IOp OP_CHECKMULTISIG]) /\
    item_ok (IOp om) /\ item_ok (IOp on) /\
    script_is_op_smallint (mk_op om None 0) = true /\
    script_is_op_smallint (mk_op on None 0) = true /\ (1 <= length keys <= 16)%nat.
Proof.
  unfold script_build_multisig. intros H Hm. revert H.
  repeat (case_goal; [done|]). zbool.
  destruct (encode_op_n m) as [om|] eqn:Em; [|done].
  destruct (encode_op_n (Z.of_nat (length keys))) as [on|] eqn:En; [|done].
  apply encode_op_n_ok in Em as [? ?]; [|lia].
  apply encode_op_n_ok in En as [? ?]; [|lia].
  intros [= <-]. exists om, on. split; [|do 4 (split; [done|]); lia].
  unfold build. simpl. rewrite foldl_app. simpl. f_equal. f_equal.
  by rewrite foldl_fmap.
Qed.

Lemma multisig_recognised om on keys :
  script_is_op_smallint (mk_op om None 0) = true ->
  script_is_op_smallint (mk_op on None 0) = true ->
  (1 <= length keys <= 16)%nat -> Forall pubkey_ok keys ->
  script_is_multisig
    (item_op <$> IOp om :: (key_item <$> keys) ++ [IOp on; IOp OP_CHECKMULTISIG]) = true.
Proof.
  intros Hom Hon Hk Hok. rewrite fmap_cons, fmap_app.
  set (ks := item_op <$> (key_item <$> keys)).
  assert (length ks = length keys) as Hl by (unfold ks; by rewrite !length_fmap).
  unfold script_is_multisig.
  assert (length (item_op (IOp om) :: ks ++ (item_op <$> [IOp on; IOp OP_CHECKMULTISIG]))
          = length keys + 3)%nat as ->.
  { simpl. rewrite length_app. simpl. lia. }
  assert (op_at (item_op (IOp om) :: ks ++ (item_op <$> [IOp on; IOp OP_CHECKMULTISIG]))
            (length keys + 3 - 2) = mk_op on None 0) as ->.
  { unfold op_at. rewrite lookup_cons_ne_0 by lia. rewrite lookup_app_r by lia.
    replace (Nat.pred (length keys + 3 - 2) - length ks)%nat with 0%nat by lia. done. }
  assert (op_at (item_op (IOp om) :: ks ++ (item_op <$> [IOp on; IOp OP_CHECKMULTISIG]))
            (length keys + 3 - 1) = mk_op OP_CHECKMULTISIG None 0) as ->.
  { unfold op_at. rewrite lookup_cons_ne_0 by lia. rewrite lookup_app_r by lia.
    replace (Nat.pred (length keys + 3 - 1) - length ks)%nat with 1%nat by lia. done. }
  rewrite (proj2 (Nat.ltb_ge _ 3)), (proj2 (Nat.ltb_ge 19 _)) by lia.
  change (op_at _ 0) with (mk_op om None 0). rewrite Hom, Hon. simpl.
  rewrite drop_0, take_app_exact by lia. apply forallb_forall.
  intros o Ho. unfold ks in Ho. rewrite <- list_elem_of_In in Ho.
  apply list_elem_of_fmap in Ho as (it & -> & Ho).
  apply list_elem_of_fmap in Ho as (pk & -> & Ho).
  apply key_item_is_pubkey. by eapply list.Forall_forall in Hok.
Qed.

Ltac items_ok :=
  repeat (apply List.Forall_cons;
          [cbn [item_ok]; first [lia | split; reflexivity]|]); try apply List.Forall_nil.

(** Each template the library builds is recognised as its own type, with the
    hash it was built from: pay-to-pubkey-hash, pay-to-script-hash and, for well
    formed keys, the multisig script (which delivers no data). *)
Theorem script_classify_built h m keys s :
  length h = 20%nat -> Forall pubkey_ok keys -> 0 <= m ->
  script_build_multisig m (Some keys) = (true, s) ->
  script_classify (script_build_p2pkh h) [] = (TX_PUBKEYHASH, [h]) /\
  script_classify (script_build_p2sh h) [] = (TX_SCRIPTHASH, [h]) /\
  script_classify s [] = (TX_MULTISIG, []).
Proof.
  intros Hh Hkeys Hm Hs. split_and!.
  - change (script_build_p2pkh h) with (build [IOp OP_DUP; IOp OP_HASH160;
      IPush (take 20 h); IOp OP_EQUALVERIFY; IOp OP_CHECKSIG]).
    rewrite take_ge by lia. unfold script_classify.
    rewrite get_ops_build; [|done|items_ok|done].
    simpl. unfold push_opcode. rewrite Hh. simpl. change (op_bytes _) with h.
    by rewrite take_ge by lia.
  - change (script_build_p2sh h) with (build [IOp OP_HASH160;
      IPush (take 20 h); IOp OP_EQUAL]).
    rewrite take_ge by lia. unfold script_classify.
    rewrite get_ops_build; [|done|items_ok|done].
    simpl. unfold push_opcode. rewrite Hh. simpl. change (op_bytes _) with h.
    by rewrite take_ge by lia.
  - apply build_multisig_items in Hs as (om & on & -> & Hom & Hon & Hsm & Hsn & Hk);
      [|done].
    unfold script_classify. rewrite get_ops_build.
    + pose proof (multisig_recognised om on keys Hsm Hsn Hk Hkeys) as Hms.
      rewrite app_nil_l. set (ops := item_op <$> _) in *.
      destruct (multisig_excludes ops Hms) as (E1 & E2 & E3).
      assert (script_is_pubkeyhash ops [] = (false, [])) as ->.
      { clearbody ops. destruct ops as [|? [|? [|? [|? [|? []]]]]]; try done.
        revert E1. simpl. by case_goal. }
      assert (script_is_scripthash ops [] = (false, [])) as ->.
      { clearbody ops. destruct ops as [|? [|? [|? []]]]; try done.
        revert E2. simpl. by case_goal. }
      assert (script_is_pubkey ops [] = (false, [])) as ->.
      { clearbody ops. destruct ops as [|? [|? []]]; done. }
      by rewrite Hms.
    + done.
    + simpl. apply List.Forall_cons; [done|]. apply list.Forall_app. split.
      * apply Forall_fmap. apply (list.Forall_impl pubkey_ok); [done|]. apply key_item_ok.
      * apply List.Forall_cons; [done|]. apply List.Forall_cons; [done|]. apply List.Forall_nil.
    + destruct keys as [|k keys]; [simpl in Hk; lia|]. clear.
      simpl. destruct keys as [|k' keys]; [done|].
      cbn [fmap list_fmap app no_final_empty_push].
      induction keys as [|k'' keys IH] in k' |- *; [done|].
      apply (IH k'').
Qed.

Lemma script_classify_built_witness :
  let k := mk_pubkey true (Byte.x02 :: zeros 64) in
  script_classify (script_build_p2pkh (zeros 20)) [] = (TX_PUBKEYHASH, [zeros 20]) /\
  script_classify (script_build_p2sh (zeros 20)) [] = (TX_SCRIPTHASH, [zeros 20]) /\
  script_classify (script_build_multisig 1 (Some [k; k])).2 [] = (TX_MULTISIG, []).
Proof.
  apply (script_classify_built (zeros 20) 1
           [mk_pubkey true (Byte.x02 :: zeros 64); mk_pubkey true (Byte.x02 :: zeros 64)]).
  - reflexivity.
  - repeat (apply List.Forall_cons; [split; reflexivity|]); apply List.Forall_nil.
  - lia.
  - vm_compute. reflexivity.
Defined.

(** ** Truncated scripts *)

Lemma get_ops_loop_tail its junk r fuel out :
  Forall item_ok its -> get_op junk = (None, r) -> junk <> [] ->
  (length (build its ++ junk) <= fuel)%nat ->
  get_ops_loop fuel (build its ++ junk) out = (false, out ++ (item_op <$> its)).
Proof.
  intros Hok Hj Hne. revert fuel out.
  induction its as [|it its IH]; intros fuel out Hf.
  { rewrite app_nil_r. cbn [build foldl app] in *. destruct junk; [done|].
    destruct fuel; [simpl in Hf; lia|]. unfold get_ops_loop. by rewrite Hj. }
  rewrite build_cons in * by done. pose proof (Forall_cons_1 _ _ _ Hok) as [Hit Hits].
  pose proof (emit_length _ Hit). rewrite <- app_assoc, length_app in Hf.
  destruct fuel as [|fuel]; [lia|]. rewrite <- app_assoc.
  unfold get_ops_loop; fold get_ops_loop.
  destruct (emit [] it ++ build its ++ junk) eqn:He.
  { apply app_eq_nil in He as [He _]. by apply emit_nonempty in He. }
  rewrite <- He, get_op_emit; [|done|].
  - rewrite IH by (try done; lia). by rewrite <- app_assoc.
  - intros _. by destruct (build its), junk.
Qed.

(** A pay-to-pubkey-hash script followed by bytes that no operation can be read
    from is refused by the parser, and still classified as pay-to-pubkey-hash: the
    classifier does not look at the parser's result. *)
Theorem script_classify_ignores_parse_error h junk r :
  length h = 20%nat -> junk <> [] -> get_op junk = (None, r) ->
  (script_get_ops (script_build_p2pkh h ++ junk) []).1 = false /\
  script_classify (script_build_p2pkh h ++ junk) [] = (TX_PUBKEYHASH, [h]).
Proof.
  intros Hh Hne Hj.
  assert (script_get_ops (script_build_p2pkh h ++ junk) [] =
    (false, item_op <$> [IOp OP_DUP; IOp OP_HASH160; IPush h; IOp OP_EQUALVERIFY;
                         IOp OP_CHECKSIG])) as E.
  { assert (script_build_p2pkh h = build [IOp OP_DUP; IOp OP_HASH160; IPush h;
      IOp OP_EQUALVERIFY; IOp OP_CHECKSIG]) as ->.
    { unfold script_build_p2pkh. by rewrite take_ge by lia. }
    unfold script_get_ops. rewrite (proj2 (Z.eqb_neq _ _)).
    - rewrite (get_ops_loop_tail _ junk r); [done| |done|done|lia].
      repeat (apply List.Forall_cons; [cbn [item_ok]; first [done | lia]|]); apply List.Forall_nil.
    - rewrite length_app. destruct junk; [done|]. simpl. lia. }
  unfold script_classify. rewrite E. split; [done|].
  simpl. unfold push_opcode. rewrite Hh. simpl. change (op_bytes _) with h.
  by rewrite take_ge by lia.
Qed.

Lemma script_classify_ignores_parse_error_witness :
  (script_get_ops (script_build_p2pkh (zeros 20) ++ [Byte.x4c]) []).1 = false /\
  script_classify (script_build_p2pkh (zeros 20) ++ [Byte.x4c]) []
  = (TX_PUBKEYHASH, [zeros 20]).
Proof.
  apply (script_classify_ignores_parse_error (zeros 20) [Byte.x4c] []);
    [reflexivity | discriminate | reflexivity].
Defined.
