(* ===== verification/Sha2.v ===== *)
(** * The SHA-2 compression functions ([src/src/sha2.c])

    SHA-256 and SHA-512 have the same transform over words of different width: the
    class [Sha2] holds what differs (the word size, the constants, the four sigma
    functions and the byte swap), and the transform is written once, as the loops of
    [sha256_transform] and [sha512_transform] (the portable variant, not unrolled, on
    a little-endian machine).

    The code keeps the sixteen last words of the message schedule in a ring that
    occupies the context's own buffer, and may be called with that buffer as the
    message block.  The specification is the one of FIPS 180-4: the whole schedule is
    computed first.  [sha2_transform_spec] shows that the two agree, also when the
    block is the buffer. *)

From S2P Require Import Prelude Words.

Local Open Scope Z_scope.

(** ** The logical functions and the byte swaps *)

Definition R (b x : Z) : Z := Z.shiftr x b.
Definition S32 (b x : Z) : Z := Z.lor (Z.shiftr x b) (u32 (Z.shiftl x (32 - b))).
Definition S64 (b x : Z) : Z := Z.lor (Z.shiftr x b) (u64 (Z.shiftl x (64 - b))).

Definition Sigma0_256 (x : Z) : Z := Z.lxor (Z.lxor (S32 2 x) (S32 13 x)) (S32 22 x).
Definition Sigma1_256 (x : Z) : Z := Z.lxor (Z.lxor (S32 6 x) (S32 11 x)) (S32 25 x).
Definition sigma0_256 (x : Z) : Z := Z.lxor (Z.lxor (S32 7 x) (S32 18 x)) (R 3 x).
Definition sigma1_256 (x : Z) : Z := Z.lxor (Z.lxor (S32 17 x) (S32 19 x)) (R 10 x).

Definition Sigma0_512 (x : Z) : Z := Z.lxor (Z.lxor (S64 28 x) (S64 34 x)) (S64 39 x).
Definition Sigma1_512 (x : Z) : Z := Z.lxor (Z.lxor (S64 14 x) (S64 18 x)) (S64 41 x).
Definition sigma0_512 (x : Z) : Z := Z.lxor (Z.lxor (S64 1 x) (S64 8 x)) (R 7 x).
Definition sigma1_512 (x : Z) : Z := Z.lxor (Z.lxor (S64 19 x) (S64 61 x)) (R 6 x).

Definition REVERSE32 (w : Z) : Z :=
  let tmp := u32 (Z.lor (Z.shiftr w 16) (u32 (Z.shiftl w 16))) in
  u32 (Z.lor (Z.shiftr (Z.land tmp 0xff00ff00) 8) (u32 (Z.shiftl (Z.land tmp 0x00ff00ff) 8))).

Definition REVERSE64 (w : Z) : Z :=
  let tmp := u64 (Z.lor (Z.shiftr w 32) (u64 (Z.shiftl w 32))) in
  let tmp := u64 (Z.lor (Z.shiftr (Z.land tmp 0xff00ff00ff00ff00) 8)
                        (u64 (Z.shiftl (Z.land tmp 0x00ff00ff00ff00ff) 8))) in
  u64 (Z.lor (Z.shiftr (Z.land tmp 0xffff0000ffff0000) 16)
             (u64 (Z.shiftl (Z.land tmp 0x0000ffff0000ffff) 16))).

Abbreviation x0 := byte_zero.
Abbreviation xf := Byte.xff.

Lemma REVERSE32_bytes a b c d : REVERSE32 (le_dec [a; b; c; d]) = le_dec [d; c; b; a].
Proof.
  unfold REVERSE32. cbv zeta.
  change 0xff00ff00 with (le_dec [x0; xf; x0; xf]).
  change 0x00ff00ff with (le_dec [xf; x0; xf; x0]).
  by word_bytes.
Qed.

Lemma REVERSE64_bytes a b c d e f g h :
  REVERSE64 (le_dec [a; b; c; d; e; f; g; h]) = le_dec [h; g; f; e; d; c; b; a].
Proof.
  unfold REVERSE64. cbv zeta.
  change 0xff00ff00ff00ff00 with (le_dec [x0; xf; x0; xf; x0; xf; x0; xf]).
  change 0x00ff00ff00ff00ff with (le_dec [xf; x0; xf; x0; xf; x0; xf; x0]).
  change 0xffff0000ffff0000 with (le_dec [x0; x0; xf; xf; x0; x0; xf; xf]).
  change 0x0000ffff0000ffff with (le_dec [xf; xf; x0; x0; xf; xf; x0; x0]).
  by word_bytes.
Qed.

(** ** The parameters of a member of the family *)

Class Sha2 := {
  wbytes : nat;                     (* bytes of a word *)
  rounds : nat;
  K : list Z;
  initial_hash_value : list Z;
  Sigma0 : Z -> Z; Sigma1 : Z -> Z; sigma0 : Z -> Z; sigma1 : Z -> Z;
  REVERSE : Z -> Z;
}.

(** What the proofs need of them. *)
Class Sha2Ok `{!Sha2} : Prop := {
  wbytes_pos : (0 < wbytes)%nat;
  rounds_ge : (16 <= rounds)%nat;
  H0_length : length initial_hash_value = 8%nat;
  H0_range : Forall (urange (8 * Z.of_nat wbytes)) initial_hash_value;
  REVERSE_swaps bs : length bs = wbytes -> REVERSE (le_dec bs) = be_dec bs;
}.

(** The working variables. *)
Record regs := mk_regs { ra : Z; rb : Z; rc : Z; rd : Z; re : Z; rf : Z; rg : Z; rh : Z }.

Definition regs_of (s : list Z) : regs :=
  let v i := default 0 (s !! i) in mk_regs (v 0%nat) (v 1%nat) (v 2%nat) (v 3%nat)
                                     (v 4%nat) (v 5%nat) (v 6%nat) (v 7%nat).

Definition regs_list (r : regs) : list Z :=
  [ra r; rb r; rc r; rd r; re r; rf r; rg r; rh r].

Section sha2.
Context {P : Sha2}.

Definition wbits : Z := 8 * Z.of_nat wbytes.
Definition block_length : nat := (16 * wbytes)%nat.
Abbreviation uw := (wrap wbits).

Definition hyperbolic_cosign (x y z : Z) : Z :=
  Z.lxor (Z.land x y) (Z.land (uw (Z.lnot x)) z).
Definition majority (x y z : Z) : Z :=
  Z.lxor (Z.lxor (Z.land x y) (Z.land x z)) (Z.land y z).

(** One application of the compression function, with the word and the constant. *)
Definition round (r : regs) (k w : Z) : regs :=
  let T1 := uw (rh r + Sigma1 (re r) + hyperbolic_cosign (re r) (rf r) (rg r) + k + w) in
  let T2 := uw (Sigma0 (ra r) + majority (ra r) (rb r) (rc r)) in
  mk_regs (uw (T1 + T2)) (ra r) (rb r) (rc r) (uw (rd r + T1)) (re r) (rf r) (rg r).

Definition K_at (j : nat) : Z := default 0 (K !! j).

(** [((word * )buf)[j]] on a little-endian machine. *)
Definition word_at (buf : bytes) (j : nat) : Z :=
  le_dec (take wbytes (drop (j * wbytes) buf)).

Definition set_word (buf : bytes) (j : nat) (w : Z) : bytes :=
  list_inserts (j * wbytes) (le_enc wbytes w) buf.

(** The block to process: another region, or the context's buffer itself. *)
Inductive block_src := Region (data : bytes) | OwnBuffer.

Definition src_word (src : block_src) (W : bytes) (j : nat) : Z :=
  match src with Region data => word_at data j | OwnBuffer => word_at W j end.

(** Rounds 0 to 15: load, swap and store the word, then the round. *)
Definition load_step (src : block_src) (st : bytes * regs) (j : nat) : bytes * regs :=
  let W := set_word st.1 j (REVERSE (src_word src st.1 j)) in
  (W, round st.2 (K_at j) (word_at W j)).

(** The remaining rounds: the ring [W] is updated in place. *)
Definition ring (j : nat) : nat := Nat.land j 15.

Definition expand_step (st : bytes * regs) (j : nat) : bytes * regs :=
  let W := st.1 in
  let s0 := sigma0 (word_at W (ring (j + 1))) in
  let s1 := sigma1 (word_at W (ring (j + 14))) in
  let w := uw (word_at W (ring j) + uw (s1 + word_at W (ring (j + 9)) + s0)) in
  let W := set_word W (ring j) w in
  (W, round st.2 (K_at j) (word_at W (ring j))).

(** The new state and buffer. *)
Definition sha2_transform (state : list Z) (buffer : bytes) (src : block_src)
    : list Z * bytes :=
  let st := foldl (load_step src) (buffer, regs_of state) (seq 0 16) in
  let st := foldl expand_step st (seq 16 (rounds - 16)) in
  (zip_with (fun s r => uw (s + r)) state (regs_list st.2), st.1).

(** ** FIPS 180-4 *)

Definition message_words (block : bytes) : list Z :=
  (fun i => be_dec (take wbytes (drop (i * wbytes) block))) <$> seq 0 16.

Definition next_word (W : list Z) : Z :=
  let t := length W in
  let w i := default 0 (W !! (t - i)%nat) in
  uw (sigma1 (w 2%nat) + w 7%nat + sigma0 (w 15%nat) + w 16%nat).

Fixpoint schedule (W : list Z) (n : nat) : list Z :=
  match n with O => W | S n => let W := schedule W n in W ++ [next_word W] end.

Definition fips_compress (H : list Z) (block : bytes) : list Z :=
  let W := schedule (message_words block) (rounds - 16) in
  let r := foldl (fun r t => round r (K_at t) (default 0 (W !! t))) (regs_of H)
             (seq 0 rounds) in
  zip_with (fun s r => uw (s + r)) H (regs_list r).

(** [n] blocks of a message. *)
Fixpoint fips_blocks (n : nat) (H : list Z) (msg : bytes) : list Z :=
  match n with
  | O => H
  | S n => fips_blocks n (fips_compress H (take block_length msg)) (drop block_length msg)
  end.

(** A one bit, zeros, and the length in bits as a number of two words. *)
Definition fips_pad (len : nat) : bytes :=
  let lb := (2 * wbytes)%nat in
  let z := ((2 * block_length - 1 - lb - len mod block_length) mod block_length)%nat in
  Byte.x80 :: zeros z ++ be_enc lb (8 * Z.of_nat len).

Definition fips_hash (msg : bytes) : bytes :=
  let p := msg ++ fips_pad (length msg) in
  let n := (length p / block_length)%nat in
  concat (be_enc wbytes <$> fips_blocks n initial_hash_value p).
End sha2.

(** ** The ring buffer computes the schedule *)

Section proofs.
Context {P : Sha2} {Pok : Sha2Ok}.

Lemma be_dec_range bs : urange (8 * Z.of_nat (length bs)) (be_dec bs).
Proof. unfold be_dec. rewrite <- length_rev. apply le_dec_range. Qed.

Lemma wbits_nonneg : 0 <= wbits.
Proof. unfold wbits. lia. Qed.

Lemma set_word_length buf j w :
  length (set_word buf j w) = length buf.
Proof. apply length_inserts. Qed.

Lemma word_in_block (i j : nat) : (i < j)%nat -> (i * wbytes + wbytes <= j * wbytes)%nat.
Proof. nia. Qed.

Lemma word_at_length (buf : bytes) j :
  length buf = block_length -> (j < 16)%nat ->
  length (take wbytes (drop (j * wbytes) buf)) = wbytes.
Proof.
  intros Hb Hj. pose proof (word_in_block j 16 Hj). unfold block_length in Hb.
  rewrite length_take, length_drop. lia.
Qed.

Lemma word_at_set buf j w :
  length buf = block_length -> (j < 16)%nat -> word_at (set_word buf j w) j = wrap wbits w.
Proof.
  intros Hb Hj. pose proof (word_in_block j 16 Hj). unfold block_length in Hb.
  unfold word_at, set_word.
  rewrite inserts_split by (rewrite le_enc_length; lia).
  rewrite drop_app_exact by (rewrite length_take; lia).
  rewrite take_app_exact by apply le_enc_length. apply le_dec_enc.
Qed.

Lemma word_at_set_ne buf i j w :
  length buf = block_length -> (j < 16)%nat -> i <> j ->
  word_at (set_word buf j w) i = word_at buf i.
Proof.
  intros Hb Hj Hij. unfold word_at. f_equal. apply list_eq. intros k.
  destruct (decide (k < wbytes)%nat) as [Hk|].
  2:{ rewrite !lookup_take_ge by lia. done. }
  rewrite !lookup_take_lt, !lookup_drop by lia. unfold set_word.
  pose proof (word_in_block j 16 Hj). unfold block_length in Hb.
  destruct (decide (i < j)%nat) as [Hlt|].
  - pose proof (word_in_block i j Hlt). by rewrite list_lookup_inserts_lt by lia.
  - pose proof (word_in_block j i ltac:(lia)).
    by rewrite list_lookup_inserts_ge by (rewrite le_enc_length; lia).
Qed.

Lemma ring_mod j : ring j = (j mod 16)%nat.
Proof. unfold ring. change 15%nat with (Nat.ones 4). by rewrite Nat.land_ones. Qed.

Lemma ring_lt j : (ring j < 16)%nat.
Proof. rewrite ring_mod. apply Nat.mod_upper_bound. lia. Qed.

Lemma ring_add_16 j k : ring (16 + j + k) = ring (j + k).
Proof.
  rewrite !ring_mod. replace (16 + j + k)%nat with (j + k + 1 * 16)%nat by lia.
  by rewrite Nat.Div0.mod_add.
Qed.

(** The schedule grows at its end. *)
Lemma schedule_length W n : length (schedule W n) = (length W + n)%nat.
Proof. induction n; simpl; [lia|]. rewrite length_app. simpl. lia. Qed.

Lemma schedule_lookup W n m t :
  (t < length W + n)%nat -> (n <= m)%nat -> schedule W m !! t = schedule W n !! t.
Proof.
  intros Ht Hn. induction m as [|m IH]; [by replace n with 0%nat by lia|].
  destruct (decide (n = S m)) as [->|]; [done|]. simpl.
  rewrite lookup_app_l by (rewrite schedule_length; lia). apply IH. lia.
Qed.

Lemma message_words_length block : length (message_words block) = 16%nat.
Proof. unfold message_words. by rewrite length_fmap, length_seq. Qed.

(** The words of the schedule of a block, by index. *)
Definition sched_word (block : bytes) (t : nat) : Z :=
  default 0 (schedule (message_words block) (rounds - 16) !! t).

Lemma sched_word_load block t :
  (t < 16)%nat -> sched_word block t = be_dec (take wbytes (drop (t * wbytes) block)).
Proof.
  intros Ht. unfold sched_word.
  rewrite (schedule_lookup _ 0) by (rewrite ?message_words_length; lia). simpl.
  unfold message_words. rewrite list_lookup_fmap, lookup_seq_lt by lia. done.
Qed.

Lemma sched_word_expand block m :
  (16 + m < rounds)%nat ->
  sched_word block (16 + m) =
  wrap wbits (sigma1 (sched_word block (m + 14)) + sched_word block (m + 9) +
              sigma0 (sched_word block (m + 1)) + sched_word block m).
Proof.
  intros Hm. unfold sched_word at 1.
  pose proof (message_words_length block) as Hl.
  rewrite (schedule_lookup _ (S m)) by lia. simpl.
  rewrite lookup_app_r by (rewrite schedule_length; lia).
  rewrite schedule_length, Hl, Nat.sub_diag. simpl. unfold next_word.
  rewrite schedule_length, Hl.
  assert (forall i, (1 <= i <= 16)%nat ->
    default 0 (schedule (message_words block) m !! (16 + m - i)%nat) =
    sched_word block (16 + m - i)) as E.
  { intros i Hi. unfold sched_word.
    rewrite (schedule_lookup _ m (rounds - 16)) by lia. done. }
  rewrite !E by lia. f_equal. do 3 f_equal; do 2 f_equal; lia.
Qed.

Definition round_at (block : bytes) (r : regs) (t : nat) : regs :=
  round r (K_at t) (sched_word block t).

(** The bytes of the block. *)
Definition src_bytes (src : block_src) (buffer : bytes) : bytes :=
  match src with Region data => data | OwnBuffer => buffer end.

Lemma load_loop src buffer r0 n :
  length buffer = block_length -> length (src_bytes src buffer) = block_length ->
  (n <= 16)%nat ->
  let st := foldl (load_step src) (buffer, r0) (seq 0 n) in
  length st.1 = block_length /\
  (forall i, (i < n)%nat -> word_at st.1 i = sched_word (src_bytes src buffer) i) /\
  (forall i, (n <= i < 16)%nat -> word_at st.1 i = word_at buffer i) /\
  st.2 = foldl (round_at (src_bytes src buffer)) r0 (seq 0 n).
Proof.
  intros Hb Hs. induction n as [|n IH]; intros Hn.
  { split_and!; [done|intros; lia|done|done]. }
  rewrite seq_S, !foldl_app. simpl.
  destruct IH as (Hl & Hlow & Hhigh & Hr); [lia|].
  set (st := foldl (load_step src) (buffer, r0) (seq 0 n)) in *.
  assert (src_word src st.1 n = word_at (src_bytes src buffer) n) as Hw.
  { destruct src; simpl; [done|]. apply Hhigh. lia. }
  assert (wrap wbits (REVERSE (src_word src st.1 n)) = sched_word (src_bytes src buffer) n)
    as Hnew.
  { pose proof (word_at_length _ n Hs ltac:(lia)) as Hwl.
    rewrite Hw, sched_word_load by lia. unfold word_at.
    rewrite REVERSE_swaps by done. apply wrap_small.
    unfold wbits. rewrite <- Hwl at 1. apply be_dec_range. }
  split_and!.
  - by rewrite set_word_length.
  - intros i Hi. destruct (decide (i = n)) as [->|].
    + by rewrite word_at_set, Hnew by (done || lia).
    + rewrite word_at_set_ne by (done || lia). apply Hlow. lia.
  - intros i Hi. rewrite word_at_set_ne by (done || lia). apply Hhigh. lia.
  - rewrite word_at_set by (done || lia). by rewrite Hnew, Hr.
Qed.

Lemma expand_loop block W r0 m :
  length W = block_length -> (16 + m <= rounds)%nat ->
  (forall i, (i < 16)%nat -> word_at W i = sched_word block i) ->
  let st := foldl expand_step (W, r0) (seq 16 m) in
  length st.1 = block_length /\
  (forall t, (m <= t < m + 16)%nat -> word_at st.1 (ring t) = sched_word block t) /\
  st.2 = foldl (round_at block) r0 (seq 16 m).
Proof.
  intros HW Hm H0. induction m as [|m IH].
  { split_and!; [done| |done]. intros t Ht. rewrite ring_mod, Nat.mod_small by lia.
    apply H0. lia. }
  rewrite seq_S, !foldl_app. destruct IH as (Hl & Hring & Hr); [lia|].
  set (st := foldl expand_step (W, r0) (seq 16 m)) in *. cbn [foldl].
  unfold expand_step. cbn [fst snd].
  pose proof (ring_lt (16 + m)) as Hlt.
  assert (ring (16 + m) = ring m) as Erm.
  { pose proof (ring_add_16 m 0) as E. by rewrite !Nat.add_0_r in E. }
  rewrite !ring_add_16, Erm in *.
  rewrite !Hring by lia.
  assert (forall a b c d, wrap wbits (wrap wbits (a + wrap wbits (b + c + d)))
            = wrap wbits (b + c + d + a)) as Hadd.
  { intros. rewrite wrap_wrap by (pose proof wbits_nonneg; lia).
    rewrite wrap_add_r. f_equal. lia. }
  split_and!.
  - by rewrite set_word_length.
  - intros t Ht. destruct (decide (t = 16 + m)%nat) as [->|].
    + rewrite Erm, word_at_set, Hadd by done. by rewrite <- sched_word_expand by lia.
    + rewrite word_at_set_ne; [apply Hring; lia|done|done|].
      rewrite !ring_mod. intros E.
      rewrite (Nat.div_mod_eq t 16), (Nat.div_mod_eq m 16) in Ht. 
      pose proof (Nat.div_mod_eq t 16). pose proof (Nat.div_mod_eq m 16). lia.
  - rewrite word_at_set, Hadd by done. by rewrite <- sched_word_expand, Hr by lia.
Qed.

(** The transform is the compression function of the standard, also when the block is
    the buffer the ring overwrites. *)
Lemma sha2_transform_spec state buffer src :
  length buffer = block_length -> length (src_bytes src buffer) = block_length ->
  (sha2_transform state buffer src).1 = fips_compress state (src_bytes src buffer) /\
  length (sha2_transform state buffer src).2 = block_length.
Proof.
  intros Hb Hs. unfold sha2_transform.
  destruct (load_loop src buffer (regs_of state) 16 Hb Hs (le_n _)) as (Hl & Hlow & _ & Hr).
  destruct (foldl (load_step src) _ _) as [W r1] eqn:E. cbn [fst snd] in Hl, Hlow, Hr.
  pose proof rounds_ge as Hge.
  destruct (expand_loop (src_bytes src buffer) W r1 (rounds - 16)) as (Hl2 & _ & Hr2);
    [done|lia|done|].
  split; [|done]. cbn [fst]. rewrite Hr2, Hr, <- foldl_app, <- seq_app.
  unfold fips_compress. do 2 f_equal. by rewrite Nat.add_comm, Nat.sub_add by lia.
Qed.
End proofs.
