(* ===== verification/Sha2Stream.v ===== *)
(** * Hashing a message in pieces ([src/src/sha2.c])

    The context of a hash in progress: the chaining state, the bit count and the
    buffer that holds an incomplete block (and the ring of the transform).  SHA-256
    counts bits in one 64-bit word, SHA-512 in two; the class [BitCount] holds what
    differs.  [sha2_write] is [sha256_write] and [sha512_write], [sha2_finalize]
    their [_finalize] (with [sha512_last]). *)

From S2P Require Import Prelude Words Sha2.

Local Open Scope Z_scope.

Class BitCount `{!Sha2} := {
  bitcount_t : Type;
  bc_zero : bitcount_t;
  bc_add : bitcount_t -> Z -> bitcount_t;   (* [+= n], a 64-bit [n] *)
  bc_low : bitcount_t -> Z;                 (* the word the used space is taken from *)
  bc_store : bitcount_t -> bytes;           (* as stored at the end of the last block *)
  last_zero : nat;                          (* bytes cleared before the last block *)
}.

Section stream.
Context {P : Sha2} {C : BitCount}.

Record context := mk_context { state : list Z; bitcount : bitcount_t; buffer : bytes }.

Definition length_bytes : nat := (2 * wbytes)%nat.
Definition short_block_length : nat := (block_length - length_bytes)%nat.

Definition sha2_init : context :=
  mk_context initial_hash_value bc_zero (zeros block_length).

(** What [MEMSET_BZERO] leaves of a context. *)
Definition context_zero : context :=
  mk_context (replicate 8 0) bc_zero (zeros block_length).

Definition transform (c : context) (src : block_src) : context :=
  let r := sha2_transform (state c) (buffer c) src in mk_context r.1 (bitcount c) r.2.

(** [MEMCPY_BCOPY(&context->buffer[off], src, |src|)] *)
Definition set_buffer (c : context) (off : nat) (src : bytes) : context :=
  mk_context (state c) (bitcount c) (list_inserts off src (buffer c)).

(** [context->bitcount += n << 3] in 64 bits. *)
Definition count (c : context) (n : nat) : context :=
  mk_context (state c) (bc_add (bitcount c) (u64 (Z.shiftl (Z.of_nat n) 3))) (buffer c).

Definition usedspace (c : context) : nat :=
  Z.to_nat (Z.shiftr (bc_low (bitcount c)) 3 mod Z.of_nat block_length).

(** The loop over the complete blocks of [data]. *)
Fixpoint write_blocks (fuel : nat) (c : context) (data : bytes) : context * bytes :=
  if (block_length <=? length data)%nat then
    match fuel with
    | O => (c, data)
    | S fuel =>
        write_blocks fuel (count (transform c (Region (take block_length data))) block_length)
          (drop block_length data)
    end
  else (c, data).

Definition write_rest (c : context) (data : bytes) : context :=
  let '(c, data) := write_blocks (length data) c data in
  if (0 <? length data)%nat then count (set_buffer c 0 data) (length data) else c.

Definition sha2_write (c : context) (data : bytes) : context :=
  if (length data =? 0)%nat then c
  else
    let used := usedspace c in
    if (0 <? used)%nat then
      let freespace := (block_length - used)%nat in
      if (freespace <=? length data)%nat then
        let c := count (set_buffer c used (take freespace data)) freespace in
        write_rest (transform c OwnBuffer) (drop freespace data)
      else count (set_buffer c used data) (length data)
    else write_rest c data.

(** The padding and the last transforms. *)
Definition sha2_last (c : context) : context :=
  let used := usedspace c in
  let len := bc_store (bitcount c) in
  let c :=
    if (0 <? used)%nat then
      let c := set_buffer c used [Byte.x80] in
      let used := (used + 1)%nat in
      if (used <=? short_block_length)%nat then
        set_buffer c used (zeros (short_block_length - used))
      else
        let c := if (used <? block_length)%nat
                 then set_buffer c used (zeros (block_length - used)) else c in
        set_buffer (transform c OwnBuffer) 0 (zeros last_zero)
    else set_buffer (set_buffer c 0 (zeros short_block_length)) 0 [Byte.x80] in
  transform (set_buffer c short_block_length len) OwnBuffer.

(** The digest and the context; without a place for the digest ([NULL]) the context is
    only cleared. *)
Definition sha2_finalize (c : context) (want_digest : bool) : option bytes * context :=
  ((if want_digest
    then Some (concat ((fun w => le_enc wbytes (REVERSE w)) <$> state (sha2_last c)))
    else None), context_zero).

Definition digest_of (c : context) : bytes := default [] (sha2_finalize c true).1.

Definition sha2_raw (data : bytes) : bytes := digest_of (sha2_write sha2_init data).
End stream.

(** What the proofs need of a bit count: [bc_repr b n] says that [b] counts [n]
    bytes. *)
Class BitCountOk {P : Sha2} {C : BitCount} := {
  bc_repr : bitcount_t -> Z -> Prop;
  bc_repr_zero : bc_repr bc_zero 0;
  bc_repr_add b n m :
    bc_repr b n -> 0 <= m < 2 ^ 61 -> bc_repr (bc_add b (u64 (Z.shiftl m 3))) (n + m);
  bc_repr_used b n :
    bc_repr b n -> 0 <= n ->
    Z.shiftr (bc_low b) 3 mod Z.of_nat block_length = n mod Z.of_nat block_length;
  bc_repr_store b n : bc_repr b n -> bc_store b = be_enc (2 * wbytes) (8 * n);
  last_zero_range :
    (14 * wbytes <= last_zero <= 16 * wbytes)%nat;
  block_small : Z.of_nat block_length < 2 ^ 61;
}.

Section proofs.
Context {P : Sha2} {Pok : Sha2Ok} {C : BitCount} {Cok : BitCountOk}.
Implicit Types (c : context) (msg data : bytes).

Lemma block_pos : (0 < block_length)%nat.
Proof. pose proof wbytes_pos. unfold block_length. lia. Qed.

(** ** Chains of blocks *)

Lemma fips_blocks_plus n m H d x :
  length d = (n * block_length)%nat ->
  fips_blocks (n + m) H (d ++ x) = fips_blocks m (fips_blocks n H d) x.
Proof.
  revert H d. induction n as [|n IH]; intros H d Hd.
  { destruct d; [done|]. done. }
  simpl. simpl in Hd. rewrite take_app_le, drop_app_le by lia.
  apply IH. rewrite length_drop. lia.
Qed.

Lemma fips_blocks_one H b :
  length b = block_length -> fips_blocks 1 H b = fips_compress H b.
Proof. intros Hb. simpl. by rewrite take_ge by lia. Qed.

(** ** The context represents a message *)

(** [done]: the bytes already compressed; [rest]: those waiting in the buffer. *)
Record ctx_repr c (n : nat) (done rest : bytes) : Prop := {
  cr_done : length done = (n * block_length)%nat;
  cr_rest : (length rest < block_length)%nat;
  cr_state : state c = fips_blocks n initial_hash_value done;
  cr_count : bc_repr (bitcount c) (Z.of_nat (length done + length rest));
  cr_buffer : length (buffer c) = block_length;
  cr_held : take (length rest) (buffer c) = rest;
}.

Definition ctx_holds c msg : Prop :=
  exists n done rest, msg = done ++ rest /\ ctx_repr c n done rest.

Lemma take_inserts_end {A} (off : nat) (k l : list A) :
  (off + length k <= length l)%nat ->
  take (off + length k) (list_inserts off k l) = take off l ++ k.
Proof.
  intros H. rewrite inserts_split, app_assoc by done. apply take_app_exact.
  rewrite length_app, length_take. lia.
Qed.

Lemma usedspace_repr c n d r : ctx_repr c n d r -> usedspace c = length r.
Proof.
  intros H. unfold usedspace. pose proof block_pos.
  rewrite (bc_repr_used _ _ (cr_count _ _ _ _ H)) by lia.
  rewrite (cr_done _ _ _ _ H). pose proof (cr_rest _ _ _ _ H).
  rewrite Nat2Z.inj_add, Nat2Z.inj_mul, Z.add_comm, Z.mod_add by lia.
  rewrite Z.mod_small by lia. lia.
Qed.

Lemma init_repr : ctx_repr sha2_init 0 [] [].
Proof.
  pose proof block_pos. split; simpl; [done|lia|done|apply bc_repr_zero| |done].
  apply length_replicate.
Qed.

Lemma transform_spec c src :
  length (buffer c) = block_length -> length (src_bytes src (buffer c)) = block_length ->
  state (transform c src) = fips_compress (state c) (src_bytes src (buffer c)) /\
  length (buffer (transform c src)) = block_length.
Proof. apply sha2_transform_spec. Qed.

Lemma count_repr c n m z :
  bc_repr (bitcount c) n -> Z.of_nat m < 2 ^ 61 -> z = n + Z.of_nat m ->
  bc_repr (bitcount (count c m)) z.
Proof. intros H Hm ->. simpl. apply bc_repr_add; [done|lia]. Qed.

(** Bytes that do not complete a block wait in the buffer. *)
Lemma write_partial c n d r data :
  ctx_repr c n d r -> (length r + length data < block_length)%nat ->
  ctx_repr (count (set_buffer c (length r) data) (length data)) n d (r ++ data).
Proof.
  intros [H1 H2 H3 H4 H5 H6] Hlt. pose proof block_small.
  split.
  - done.
  - rewrite length_app. lia.
  - done.
  - apply (count_repr (set_buffer c _ _) _ _ _ H4); rewrite ?length_app; lia.
  - simpl. by rewrite length_inserts.
  - simpl. rewrite length_app, take_inserts_end by lia. by rewrite H6.
Qed.

(** A full buffer is compressed. *)
Lemma write_full c n d r data :
  ctx_repr c n d r -> (length r + length data = block_length)%nat ->
  ctx_repr (transform (count (set_buffer c (length r) data) (length data)) OwnBuffer)
    (S n) (d ++ r ++ data) [].
Proof.
  intros [H1 H2 H3 H4 H5 H6] Hlen. pose proof block_small. pose proof block_pos.
  set (c1 := count _ _).
  assert (buffer c1 = r ++ data) as Hb.
  { unfold c1. simpl. rewrite <- (take_ge (list_inserts _ _ _) (length r + length data))
      by (rewrite length_inserts; lia).
    rewrite take_inserts_end by lia. by rewrite H6. }
  assert (length (buffer c1) = block_length) as Hbl by (rewrite Hb, length_app; lia).
  destruct (transform_spec c1 OwnBuffer Hbl Hbl) as [Hs Hl].
  split.
  - rewrite !length_app. lia.
  - simpl. lia.
  - rewrite Hs. cbn [src_bytes]. rewrite Hb.
    replace (S n) with (n + 1)%nat by lia. rewrite fips_blocks_plus by done.
    rewrite fips_blocks_one by (rewrite length_app; lia). unfold c1. simpl. by rewrite H3.
  - apply (count_repr (set_buffer c _ _) _ _ _ H4); rewrite ?length_app; simpl; lia.
  - done.
  - done.
Qed.

(** A block read straight from the message. *)
Lemma write_block c n d b :
  ctx_repr c n d [] -> length b = block_length ->
  ctx_repr (count (transform c (Region b)) block_length) (S n) (d ++ b) [].
Proof.
  intros [H1 H2 H3 H4 H5 H6] Hb. pose proof block_small. pose proof block_pos.
  destruct (transform_spec c (Region b) H5 Hb) as [Hs Hl].
  split.
  - rewrite length_app. lia.
  - simpl. lia.
  - change (state (count ?c _)) with (state c). rewrite Hs. cbn [src_bytes]. replace (S n) with (n + 1)%nat by lia.
    rewrite fips_blocks_plus, fips_blocks_one by done. by rewrite H3.
  - apply (count_repr c _ _ _ H4); rewrite ?length_app; simpl; lia.
  - done.
  - done.
Qed.

Lemma write_blocks_spec fuel c n d data :
  ctx_repr c n d [] -> (length data <= fuel)%nat ->
  exists m b rest,
    (write_blocks fuel c data).2 = rest /\ data = b ++ rest /\ (length rest < block_length)%nat /\
    ctx_repr (write_blocks fuel c data).1 m (d ++ b) [].
Proof.
  revert c n d data. induction fuel as [|fuel IH]; intros c n d data H Hf; simpl.
  - pose proof block_pos. rewrite (proj2 (Nat.leb_gt _ _)) by lia.
    exists n, [], data. rewrite app_nil_r. split_and!; done || lia.
  - destruct (Nat.leb_spec block_length (length data)) as [Hle|].
    2:{ exists n, [], data. rewrite app_nil_r. split_and!; done || lia. }
    pose proof block_pos.
    assert (length (take block_length data) = block_length) as Htl
      by (rewrite length_take; lia).
    destruct (IH _ _ _ (drop block_length data) (write_block _ _ _ _ H Htl))
      as (m & b & rest & E1 & E2 & E3 & E4); [rewrite length_drop; lia|].
    exists m, (take block_length data ++ b), rest. split_and!; [done| |done|].
    + by rewrite <- app_assoc, <- E2, take_drop.
    + by rewrite app_assoc.
Qed.

Lemma write_rest_spec c n d data :
  ctx_repr c n d [] -> ctx_holds (write_rest c data) (d ++ data).
Proof.
  intros H. unfold write_rest.
  destruct (write_blocks_spec (length data) c n d data H (le_n _))
    as (m & b & rest & E1 & E2 & E3 & E4).
  destruct (write_blocks (length data) c data) as [c' rest']. simpl in *. subst rest'.
  destruct (Nat.ltb_spec 0 (length rest)) as [Hr|].
  - exists m, (d ++ b), rest. split; [by rewrite E2, app_assoc|].
    apply (write_partial c' m (d ++ b) [] rest E4). simpl. lia.
  - destruct rest; [|simpl in *; lia]. exists m, (d ++ b), []. split; [|done].
    by rewrite E2, !app_nil_r.
Qed.

(** Writing appends to the message the context represents. *)
Lemma sha2_write_spec c msg data :
  ctx_holds c msg -> ctx_holds (sha2_write c data) (msg ++ data).
Proof.
  intros (n & d & r & -> & H). unfold sha2_write.
  destruct (Nat.eqb_spec (length data) 0) as [E|].
  { destruct data; [|done]. rewrite app_nil_r. by exists n, d, r. }
  rewrite (usedspace_repr _ _ _ _ H). pose proof (cr_rest _ _ _ _ H).
  destruct (Nat.ltb_spec 0 (length r)) as [Hr|Hr].
  - destruct (Nat.leb_spec (block_length - length r) (length data)) as [Hle|Hlt].
    + set (fs := (block_length - length r)%nat) in *.
      assert (length (take fs data) = fs) as Hfs by (rewrite length_take; lia).
      pose proof (write_full c n d r (take fs data) H ltac:(lia)) as H'. rewrite Hfs in H'.
      pose proof (write_rest_spec _ _ _ (drop fs data) H') as Hw.
      by rewrite <- !app_assoc, take_drop, app_assoc in Hw.
    + exists n, d, (r ++ data). split; [by rewrite app_assoc|].
      apply write_partial; [done|lia].
  - destruct r; [|simpl in Hr; lia]. rewrite app_nil_r. by apply write_rest_spec with n.
Qed.
(** ** The padding *)

Lemma set_buffer_state c off src : state (set_buffer c off src) = state c.
Proof. done. Qed.

(** Setting the bytes behind a known prefix of the buffer. *)
Lemma set_buffer_prefix c off (pre src : bytes) :
  length (buffer c) = block_length -> take off (buffer c) = pre -> length pre = off ->
  (off + length src <= block_length)%nat ->
  take (off + length src) (buffer (set_buffer c off src)) = pre ++ src /\
  length (buffer (set_buffer c off src)) = block_length.
Proof.
  intros Hb Hp Hl Hs. simpl. rewrite length_inserts. split; [|done].
  rewrite take_inserts_end by lia. by rewrite Hp.
Qed.

(** The last block: the buffer up to the length field, then the length. *)
Lemma last_block c (pre len : bytes) :
  length (buffer c) = block_length -> take short_block_length (buffer c) = pre ->
  length pre = short_block_length -> length len = length_bytes ->
  state (transform (set_buffer c short_block_length len) OwnBuffer) =
  fips_blocks 1 (state c) (pre ++ len).
Proof.
  intros Hb Hp Hl Hlen. unfold short_block_length, length_bytes, block_length in *.
  pose proof wbytes_pos.
  destruct (set_buffer_prefix c _ pre len Hb Hp Hl) as [E Hb'].
  { unfold block_length. lia. }
  assert (buffer (set_buffer c (16 * wbytes - 2 * wbytes) len) = pre ++ len) as Eb.
  { rewrite <- E, take_ge; [done|]. rewrite Hb'. unfold block_length. lia. }
  destruct (transform_spec (set_buffer c (16 * wbytes - 2 * wbytes) len) OwnBuffer) as [-> _].
  { done. } { done. }
  cbn [src_bytes]. rewrite Eb, set_buffer_state.
  rewrite fips_blocks_one; [done|]. rewrite length_app. unfold block_length. lia.
Qed.

Lemma zeros_length n : length (zeros n) = n.
Proof. apply length_replicate. Qed.

Lemma take_zeros_over n m (b : bytes) :
  (n <= m <= length b)%nat -> take n (list_inserts 0 (zeros m) b) = zeros n.
Proof.
  intros H. rewrite inserts_split by (rewrite zeros_length; lia). simpl.
  rewrite take_app_le by (rewrite zeros_length; lia).
  unfold zeros. rewrite take_replicate. f_equal. lia.
Qed.

(** When the bit and the length fit behind the bytes in the buffer. *)
Lemma sha2_last_one c n d r :
  ctx_repr c n d r -> (length r < short_block_length)%nat ->
  state (sha2_last c) =
  fips_blocks 1 (state c)
    (r ++ Byte.x80 :: zeros (short_block_length - length r - 1) ++ bc_store (bitcount c)).
Proof.
  intros H Hr. unfold sha2_last. rewrite (usedspace_repr _ _ _ _ H).
  pose proof (bc_repr_store _ _ (cr_count _ _ _ _ H)) as Hst.
  assert (length (bc_store (bitcount c)) = length_bytes) as Hlen
    by (rewrite Hst; apply be_enc_length).
  pose proof (cr_buffer _ _ _ _ H) as Hb. pose proof (cr_held _ _ _ _ H) as Hh.
  assert (short_block_length <= block_length)%nat by (unfold short_block_length; lia).
  assert (r ++ Byte.x80 :: zeros (short_block_length - length r - 1) ++
            bc_store (bitcount c) =
          (r ++ [Byte.x80] ++ zeros (short_block_length - length r - 1)) ++
            bc_store (bitcount c)) as -> by by rewrite <- !app_assoc.
  destruct (Nat.ltb_spec 0 (length r)).
  - rewrite (proj2 (Nat.leb_le _ _)) by lia.
    destruct (set_buffer_prefix c _ r [Byte.x80] Hb Hh eq_refl) as [E1 Hb1]; [simpl; lia|].
    destruct (set_buffer_prefix (set_buffer c (length r) [Byte.x80]) _ _
                (zeros (short_block_length - (length r + 1))) Hb1 E1) as [E2 Hb2].
    { rewrite length_app. done. } { rewrite zeros_length. simpl. lia. }
    rewrite zeros_length in E2. simpl length in E2.
    rewrite <- Nat.sub_add_distr.
    rewrite (last_block _ (r ++ [Byte.x80] ++ zeros (short_block_length - (length r + 1))));
      [done|done| | |done].
    + rewrite app_assoc. rewrite <- E2. f_equal. lia.
    + rewrite !length_app, zeros_length. simpl. lia.
  - destruct r; [|simpl in *; lia]. simpl length. rewrite app_nil_l.
    rewrite (last_block _ ([Byte.x80] ++ zeros (short_block_length - 0 - 1)));
      [done|simpl; by rewrite ?length_insert, ?length_inserts| | |done].
    + simpl. rewrite Nat.sub_0_r.
      rewrite inserts_split by (simpl; rewrite zeros_length; lia).
      cbn [take app length]. rewrite zeros_length.
      destruct short_block_length as [|s] eqn:Es; [lia|].
      simpl. rewrite ?Nat.sub_0_r, ?drop_0. f_equal.
      by rewrite take_app_exact by apply zeros_length.
    + rewrite length_app, zeros_length. simpl. lia.
Qed.

(** When they do not: one block more. *)
Lemma sha2_last_two c n d r :
  ctx_repr c n d r -> (short_block_length <= length r)%nat ->
  state (sha2_last c) =
  fips_blocks 2 (state c)
    ((r ++ Byte.x80 :: zeros (block_length - length r - 1)) ++
     zeros short_block_length ++ bc_store (bitcount c)).
Proof.
  intros H Hr. unfold sha2_last. rewrite (usedspace_repr _ _ _ _ H).
  pose proof (bc_repr_store _ _ (cr_count _ _ _ _ H)) as Hst.
  assert (length (bc_store (bitcount c)) = length_bytes) as Hlen
    by (rewrite Hst; apply be_enc_length).
  pose proof (cr_buffer _ _ _ _ H) as Hb. pose proof (cr_held _ _ _ _ H) as Hh.
  pose proof (cr_rest _ _ _ _ H). pose proof wbytes_pos.
  assert (0 < short_block_length <= last_zero)%nat as Hs0.
  { pose proof last_zero_range. unfold short_block_length, block_length, length_bytes. lia. }
  rewrite (proj2 (Nat.ltb_lt _ _)), (proj2 (Nat.leb_gt _ _)) by lia.
  set (c1 := if (length r + 1 <? block_length)%nat then _ else _).
  assert (buffer c1 = r ++ Byte.x80 :: zeros (block_length - length r - 1) /\
          state c1 = state c) as [Hb1 Hs1].
  { destruct (set_buffer_prefix c _ r [Byte.x80] Hb Hh eq_refl) as [E1 Hl1]; [simpl; lia|].
    subst c1. destruct (Nat.ltb_spec (length r + 1) block_length).
    - split; [|done].
      destruct (set_buffer_prefix (set_buffer c (length r) [Byte.x80]) _ _
                  (zeros (block_length - (length r + 1))) Hl1 E1) as [E2 Hl2].
      { rewrite length_app. done. } { rewrite zeros_length. simpl. lia. }
      rewrite take_ge in E2 by (rewrite Hl2, zeros_length; simpl; lia).
      rewrite <- app_assoc in E2. by rewrite <- Nat.sub_add_distr.
    - split; [|done]. rewrite take_ge in E1 by (rewrite Hl1; simpl; lia).
      rewrite E1. replace (block_length - length r - 1)%nat with 0%nat by lia. done. }
  assert (length (buffer c1) = block_length) as Hl1.
  { rewrite Hb1, length_app. simpl. rewrite zeros_length. lia. }
  destruct (transform_spec c1 OwnBuffer Hl1 Hl1) as [Hs2 Hl2].
  pose proof last_zero_range.
  rewrite (last_block _ (zeros short_block_length)).
  - change 2%nat with (1 + 1)%nat. rewrite fips_blocks_plus.
    + f_equal. rewrite set_buffer_state, Hs2, Hs1. cbn [src_bytes].
      rewrite Hb1, fips_blocks_one; [done|]. by rewrite <- Hb1.
    + rewrite <- Hb1. lia.
  - cbn [buffer set_buffer]. by rewrite length_inserts.
  - cbn [buffer set_buffer]. apply take_zeros_over. rewrite Hl2. unfold block_length. lia.
  - apply zeros_length.
  - done.
Qed.

(** ** The digest *)

Lemma compress_range H b : Forall (urange wbits) (fips_compress H b).
Proof.
  unfold fips_compress. generalize (regs_list (foldl (fun r t => round r (K_at t)
    (default 0 (schedule (message_words b) (rounds - 16) !! t))) (regs_of H) (seq 0 rounds))).
  induction H as [|h H IH]; intros [|x l]; simpl; try apply List.Forall_nil.
  apply List.Forall_cons; [apply wrap_range, wbits_nonneg|apply IH].
Qed.

Lemma blocks_range n msg : Forall (urange wbits) (fips_blocks n initial_hash_value msg).
Proof.
  assert (forall H, Forall (urange wbits) H -> Forall (urange wbits) (fips_blocks n H msg)) as HF.
  { revert msg. induction n as [|n IH]; intros msg H HH; simpl; [done|].
    apply IH, compress_range. }
  apply HF, H0_range.
Qed.

Lemma word_out w : urange wbits w -> le_enc wbytes (REVERSE w) = be_enc wbytes w.
Proof.
  intros Hw. rewrite <- (le_dec_enc_small wbytes w) at 1 by done.
  rewrite REVERSE_swaps by apply le_enc_length. unfold be_dec, be_enc.
  apply le_enc_dec. by rewrite length_rev, le_enc_length.
Qed.

Lemma finalize_spec c msg : ctx_holds c msg -> digest_of c = fips_hash msg.
Proof.
  intros (n & d & r & -> & H). unfold digest_of, sha2_finalize, fips_hash. cbn [fst from_option]. unfold id.
  pose proof block_pos. pose proof (cr_done _ _ _ _ H) as Hd.
  pose proof (cr_rest _ _ _ _ H) as Hr. pose proof wbytes_pos.
  assert (length (d ++ r) mod block_length = length r)%nat as Hmod.
  { rewrite length_app, Hd, Nat.add_comm, Nat.Div0.mod_add. by apply Nat.mod_small. }
  set (len := be_enc (2 * wbytes) (8 * Z.of_nat (length (d ++ r)))).
  assert (bc_store (bitcount c) = len) as Hst.
  { rewrite (bc_repr_store _ _ (cr_count _ _ _ _ H)). unfold len.
    by rewrite length_app. }
  assert (length len = length_bytes) as Hlen by apply be_enc_length.
  assert (exists m pad, fips_pad (length (d ++ r)) = pad /\
    length (r ++ pad) = (m * block_length)%nat /\
    state (sha2_last c) = fips_blocks m (state c) (r ++ pad)) as (m & pad & Hp & Hl & Hs).
  { unfold fips_pad. rewrite Hmod. fold len.
    unfold short_block_length, length_bytes, block_length in *.
    destruct (Nat.lt_ge_cases (length r) (16 * wbytes - 2 * wbytes)).
    - exists 1%nat. eexists. split; [done|].
      replace ((2 * (16 * wbytes) - 1 - 2 * wbytes - length r) mod (16 * wbytes))%nat
        with (16 * wbytes - 2 * wbytes - length r - 1)%nat.
      2:{ apply (Nat.mod_unique _ _ 1); lia. }
      split.
      + rewrite length_app. simpl. rewrite length_app, zeros_length. lia.
      + rewrite (sha2_last_one c n d r H), Hst by (unfold short_block_length, block_length, length_bytes; lia).
        done.
    - exists 2%nat. eexists. split; [done|].
      replace ((2 * (16 * wbytes) - 1 - 2 * wbytes - length r) mod (16 * wbytes))%nat
        with (2 * (16 * wbytes) - 1 - 2 * wbytes - length r)%nat.
      2:{ symmetry. apply Nat.mod_small. lia. }
      split.
      + rewrite length_app. simpl. rewrite length_app, zeros_length. lia.
      + rewrite (sha2_last_two c n d r H), Hst by (unfold short_block_length, block_length, length_bytes; lia).
        f_equal. rewrite <- app_assoc. f_equal. simpl. f_equal. rewrite app_assoc. f_equal.
        unfold zeros. rewrite <- replicate_add. f_equal.
        unfold short_block_length, block_length, length_bytes. lia. }
  rewrite Hp, <- app_assoc.
  replace (length (d ++ r ++ pad) / block_length)%nat with (n + m)%nat.
  2:{ rewrite length_app, Hd, Hl, <- Nat.mul_add_distr_r. symmetry. apply Nat.div_mul. lia. }
  rewrite fips_blocks_plus by done. rewrite Hs, (cr_state _ _ _ _ H).
  f_equal. rewrite <- (fips_blocks_plus n m _ d) by done.
  pose proof (blocks_range (n + m) (d ++ r ++ pad)) as Hf.
  revert Hf. generalize (fips_blocks (n + m) initial_hash_value (d ++ r ++ pad)) as l.
  induction 1 as [|w l Hw Hf IH]; [done|]. cbn [fmap list_fmap]. by rewrite IH, word_out.
Qed.

(** A message written in any pieces has the digest of the standard. *)
Lemma stream_spec (ds : list bytes) :
  digest_of (foldl sha2_write sha2_init ds) = fips_hash (concat ds).
Proof.
  apply finalize_spec.
  assert (forall c msg, ctx_holds c msg ->
            ctx_holds (foldl sha2_write c ds) (msg ++ concat ds)) as H.
  { induction ds as [|x ds IH]; intros c msg Hc; simpl; [by rewrite app_nil_r|].
    rewrite app_assoc. by apply IH, sha2_write_spec. }
  apply (H sha2_init []). exists 0%nat, [], []. split; [done|apply init_repr].
Qed.

Lemma sha2_raw_spec data : sha2_raw data = fips_hash data.
Proof.
  unfold sha2_raw. rewrite (finalize_spec _ data); [done|].
  apply (sha2_write_spec sha2_init []). exists 0%nat, [], []. split; [done|apply init_repr].
Qed.
End proofs.
