(* ===== verification/Hmac.v ===== *)
(** * HMAC and PBKDF2 over a SHA-2 hash ([src/src/sha2.c])

    [hmac_sha256*] and [hmac_sha512*] are the same code over the two hashes; so are the
    iterations of [pbkdf2_hmac_sha256_write] and [pbkdf2_hmac_sha512_write].  Both are
    shown to be the functions of RFC 2104 and RFC 8018. *)

From S2P Require Import Prelude Words Sha2 Sha2Stream.

Local Open Scope Z_scope.

Definition xor_bytes (a b : bytes) : bytes :=
  zip_with (fun x y => byte.of_Z (Z.lxor (byte.unsigned x) (byte.unsigned y))) a b.

Section hmac.
Context {P : Sha2} {C : BitCount}.

Definition digest_length : nat := (8 * wbytes)%nat.

(** The key, or its digest when it is longer than a block, on a cleared block. *)
Definition key_block (key : bytes) : bytes :=
  list_inserts 0 (if (block_length <? length key)%nat then sha2_raw key else key)
    (zeros block_length).

Definition xor_pad (c : Byte.byte) (block : bytes) : bytes :=
  (fun x => byte.of_Z (Z.lxor (byte.unsigned x) (byte.unsigned c))) <$> block.

Record hmac_context := mk_hmac { o_key_pad : bytes; hmac_ctx : context }.

Definition hmac_init (key : bytes) : hmac_context :=
  mk_hmac (xor_pad Byte.x5c (key_block key))
    (sha2_write sha2_init (xor_pad Byte.x36 (key_block key))).

Definition hmac_write (h : hmac_context) (msg : bytes) : hmac_context :=
  mk_hmac (o_key_pad h) (sha2_write (hmac_ctx h) msg).

(** The code; the context is cleared. *)
Definition hmac_finalize (h : hmac_context) : bytes :=
  let hash := digest_of (hmac_ctx h) in
  let c := sha2_write sha2_init (o_key_pad h) in
  let c := sha2_write c hash in
  digest_of c.

(** In one call: [buf] holds the key block and then the inner digest. *)
Definition hmac (key msg : bytes) : bytes :=
  let buf := key_block key in
  let c := sha2_write (sha2_write sha2_init (xor_pad Byte.x36 buf)) msg in
  let buf' := list_inserts 0 (digest_of c) buf in
  let c := sha2_write (sha2_write sha2_init (xor_pad Byte.x5c buf)) (take digest_length buf') in
  digest_of c.

(** RFC 2104. *)
Definition rfc2104_hmac (key msg : bytes) : bytes :=
  let k := if (block_length <? length key)%nat then fips_hash key else key in
  let k := k ++ zeros (block_length - length k) in
  fips_hash (xor_pad Byte.x5c k ++ fips_hash (xor_pad Byte.x36 k ++ msg)).

(** The iterations: [g] becomes the next value, which is added to [f]; they start at
    [first], which is 0 after the first call. *)
Fixpoint pbkdf2_loop (n : nat) (pass f g : bytes) : bytes * bytes :=
  match n with
  | O => (f, g)
  | S n =>
      let g := list_inserts 0 (hmac pass (take digest_length g)) g in
      pbkdf2_loop n pass (xor_bytes f (take digest_length g)) g
  end.

(** RFC 8018: the block for [S || INT(i)] is the sum of the [c] iterates. *)
Fixpoint rfc8018_iter (n : nat) (pass u : bytes) : bytes :=
  match n with O => u | S n => rfc8018_iter n pass (rfc2104_hmac pass u) end.

Definition rfc8018_F (pass salt_nr : bytes) (c : nat) : bytes :=
  let u1 := rfc2104_hmac pass salt_nr in
  foldl (fun acc j => xor_bytes acc (rfc8018_iter j pass u1)) u1 (seq 1 (c - 1)).
End hmac.

Section proofs.
Context {P : Sha2} {Pok : Sha2Ok} {C : BitCount} {Cok : BitCountOk}.

Lemma transform_state_length n (H : list Z) msg :
  length H = 8%nat -> length (fips_blocks n H msg) = 8%nat.
Proof.
  revert H msg. induction n as [|n IH]; intros H msg HH; simpl; [done|].
  apply IH. unfold fips_compress. rewrite length_zip_with, HH. done.
Qed.

Lemma fips_hash_length msg : length (fips_hash msg) = digest_length.
Proof.
  unfold fips_hash, digest_length.
  set (l := fips_blocks _ _ _).
  assert (length l = 8%nat) as <- by apply transform_state_length, H0_length.
  induction l as [|w l IH]; simpl; [done|]. rewrite length_app, be_enc_length.
  unfold fmap in IH. lia.
Qed.

Lemma key_block_spec key :
  key_block key =
  let k := if (block_length <? length key)%nat then fips_hash key else key in
  k ++ zeros (block_length - length k).
Proof.
  unfold key_block. rewrite sha2_raw_spec. cbv zeta.
  set (k := if (block_length <? length key)%nat then fips_hash key else key).
  assert (length k <= block_length)%nat as Hk.
  { unfold k. destruct (Nat.ltb_spec block_length (length key)); [|done].
    rewrite fips_hash_length. unfold digest_length, block_length. lia. }
  rewrite inserts_split by (rewrite zeros_length; lia). simpl. f_equal.
  unfold zeros. by rewrite drop_replicate.
Qed.

Lemma key_block_length key : length (key_block key) = block_length.
Proof. unfold key_block. rewrite length_inserts. apply zeros_length. Qed.

(** Two writes and a digest. *)
Lemma digest_two a b :
  digest_of (sha2_write (sha2_write sha2_init a) b) = fips_hash (a ++ b).
Proof. pose proof (stream_spec [a; b]) as H. simpl in H. by rewrite app_nil_r in H. Qed.

Lemma hmac_spec key msg : hmac key msg = rfc2104_hmac key msg.
Proof.
  unfold hmac. rewrite !digest_two.
  rewrite inserts_split by (rewrite fips_hash_length, key_block_length;
                            unfold digest_length, block_length; simpl; lia).
  simpl. rewrite take_app_exact by apply fips_hash_length.
  by rewrite key_block_spec.
Qed.

Lemma hmac_stream_spec key (ds : list bytes) :
  hmac_finalize (foldl hmac_write (hmac_init key) ds) = rfc2104_hmac key (concat ds).
Proof.
  assert (forall h, foldl hmac_write h ds =
            mk_hmac (o_key_pad h) (foldl sha2_write (hmac_ctx h) ds)) as E.
  { induction ds as [|d ds IH]; intros h; simpl; [by destruct h|]. by rewrite IH. }
  rewrite E. unfold hmac_finalize, hmac_init. cbn [o_key_pad hmac_ctx].
  pose proof (stream_spec (xor_pad Byte.x36 (key_block key) :: ds)) as Hs.
  simpl in Hs. rewrite Hs, digest_two.
  unfold rfc2104_hmac. by rewrite key_block_spec.
Qed.

Lemma rfc2104_length key msg : length (rfc2104_hmac key msg) = digest_length.
Proof. apply fips_hash_length. Qed.

(** The iterations: [g] may be a larger region than a digest. *)
Lemma pbkdf2_loop_spec n pass (f u tl : bytes) :
  length u = digest_length ->
  exists tl',
  pbkdf2_loop n pass f (u ++ tl) =
  (foldl (fun acc j => xor_bytes acc (rfc8018_iter j pass u)) f (seq 1 n),
   rfc8018_iter n pass u ++ tl') /\ length tl' = length tl.
Proof.
  revert f u tl. induction n as [|n IH]; intros f u tl Hu; [by exists tl|].
  simpl. rewrite take_app_exact by done. rewrite hmac_spec.
  pose proof (rfc2104_length pass u) as Hl.
  rewrite inserts_split by (rewrite length_app; simpl; lia). simpl.
  rewrite Hl, <- Hu, drop_app_length, take_app_exact by lia.
  destruct (IH (xor_bytes f (rfc2104_hmac pass u)) (rfc2104_hmac pass u) tl)
    as (tl' & -> & Htl); [done|].
  exists tl'. split; [|done]. f_equal.
  rewrite <- (fmap_S_seq 1 n), foldl_fmap. done.
Qed.
End proofs.
