(* ===== verification/Sha256.v ===== *)
(** * SHA-256 ([src/src/sha2.c], [src/include/dogecoin/hash.h])

    The instance of the SHA-2 code for 32-bit words, the two-input and the many-block
    double hash, HMAC and PBKDF2 over it, and the hash helpers of the rest of the
    program. *)

From S2P Require Import Prelude Mem Words Sha2 Sha2Stream Hmac.

Local Open Scope Z_scope.

Definition K256 : list Z := Eval cbv in concat [
   [0x428a2f98; 0x71374491; 0xb5c0fbcf; 0xe9b5dba5];
   [0x3956c25b; 0x59f111f1; 0x923f82a4; 0xab1c5ed5];
   [0xd807aa98; 0x12835b01; 0x243185be; 0x550c7dc3];
   [0x72be5d74; 0x80deb1fe; 0x9bdc06a7; 0xc19bf174];
   [0xe49b69c1; 0xefbe4786; 0x0fc19dc6; 0x240ca1cc];
   [0x2de92c6f; 0x4a7484aa; 0x5cb0a9dc; 0x76f988da];
   [0x983e5152; 0xa831c66d; 0xb00327c8; 0xbf597fc7];
   [0xc6e00bf3; 0xd5a79147; 0x06ca6351; 0x14292967];
   [0x27b70a85; 0x2e1b2138; 0x4d2c6dfc; 0x53380d13];
   [0x650a7354; 0x766a0abb; 0x81c2c92e; 0x92722c85];
   [0xa2bfe8a1; 0xa81a664b; 0xc24b8b70; 0xc76c51a3];
   [0xd192e819; 0xd6990624; 0xf40e3585; 0x106aa070];
   [0x19a4c116; 0x1e376c08; 0x2748774c; 0x34b0bcb5];
   [0x391c0cb3; 0x4ed8aa4a; 0x5b9cca4f; 0x682e6ff3];
   [0x748f82ee; 0x78a5636f; 0x84c87814; 0x8cc70208];
   [0x90befffa; 0xa4506ceb; 0xbef9a3f7; 0xc67178f2]].

Definition sha256_initial_hash_value : list Z := [
   0x6a09e667; 0xbb67ae85; 0x3c6ef372; 0xa54ff53a;
   0x510e527f; 0x9b05688c; 0x1f83d9ab; 0x5be0cd19 ].

#[export] Instance sha256 : Sha2 := {|
  wbytes := 4; rounds := 64; K := K256; initial_hash_value := sha256_initial_hash_value;
  Sigma0 := Sigma0_256; Sigma1 := Sigma1_256; sigma0 := sigma0_256; sigma1 := sigma1_256;
  REVERSE := REVERSE32;
|}.

#[export] Instance sha256_ok : Sha2Ok.
Proof.
  split.
  - simpl. lia.
  - simpl. lia.
  - done.
  - repeat (apply List.Forall_cons; [by vm_compute|]). apply List.Forall_nil.
  - intros bs Hl. destruct (length_4_inv bs Hl) as (a & b & c & d & ->).
    apply REVERSE32_bytes.
Qed.

(** One 64-bit counter, stored byte-swapped. *)
#[export] Instance sha256_count : @BitCount sha256 := {|
  bitcount_t := Z; bc_zero := 0; bc_add b n := u64 (b + n); bc_low b := b;
  bc_store b := le_enc 8 (REVERSE64 b); last_zero := 56;
|}.

Lemma REVERSE64_store z : le_enc 8 (REVERSE64 (u64 z)) = be_enc 8 z.
Proof.
  replace (u64 z) with (le_dec (le_enc 8 z)) by apply le_dec_enc.
  destruct (length_8_inv (le_enc 8 z) (le_enc_length 8 z))
    as (a & b & c & d & e & f & g & h & E).
  unfold be_enc. rewrite E, REVERSE64_bytes. by apply le_enc_dec.
Qed.

(** The used space does not depend on the bits the counter has lost. *)
Lemma used_of_bits n m : 0 < m -> (m | 2 ^ 61) -> Z.shiftr (u64 (8 * n)) 3 mod m = n mod m.
Proof.
  intros Hm Hd. rewrite Z.shiftr_div_pow2 by lia. unfold wrap.
  change (2 ^ 64) with (8 * 2 ^ 61). rewrite Z.mul_mod_distr_l by lia.
  change (2 ^ 3) with 8. rewrite (Z.mul_comm 8), Z.div_mul by lia.
  by apply Z.mod_mod_divide.
Qed.

#[export] Program Instance sha256_count_ok : @BitCountOk sha256 sha256_count := {|
  bc_repr (b : Z) n := b = u64 (8 * n);
|}.
Next Obligation. done. Qed.
Next Obligation.
  intros b n m -> Hm. simpl. rewrite wrap_add_l, wrap_add_r.
  f_equal. rewrite Z.shiftl_mul_pow2 by lia. lia.
Qed.
Next Obligation.
  intros b n -> Hn. apply used_of_bits; [done|]. by exists (2 ^ 55).
Qed.
Next Obligation. intros b n ->. apply REVERSE64_store. Qed.
Next Obligation. simpl. lia. Qed.
Next Obligation. done. Qed.

(** ** The functions by their names *)

Definition sha256_init : context := sha2_init.
Definition sha256_transform : list Z -> bytes -> block_src -> list Z * bytes := sha2_transform.
Definition sha256_write : context -> bytes -> context := sha2_write.
Definition sha256_finalize : context -> bool -> option bytes * context := sha2_finalize.
Definition sha256_raw : bytes -> bytes := sha2_raw.
(** [sha256_reset(ctx)] *)
Definition sha256_reset (c : context) : context := sha2_init.

Definition hmac_sha256_init : bytes -> hmac_context := hmac_init.
Definition hmac_sha256_write : hmac_context -> bytes -> hmac_context := hmac_write.
Definition hmac_sha256_finalize : hmac_context -> bytes := hmac_finalize.
Definition hmac_sha256 : bytes -> bytes -> bytes := hmac.

(** The digest words of a state, in memory. *)
Definition state_out (s : list Z) : bytes :=
  concat ((fun w => le_enc 4 (REVERSE32 w)) <$> s).

(** A cleared block that holds [pre], the padding bit and the bit count. *)
Definition sha256d64_pad (pre : bytes) (bits : Z) : bytes :=
  let block := list_inserts 0 pre (zeros 64) in
  let block := list_inserts (length pre) [Byte.x80] block in
  list_inserts 56 (le_enc 8 (REVERSE64 bits)) block.

(** One round of the loop of [sha256d64] on the 64 bytes at [input] (the portable
    path, without the multi-way kernels). *)
Definition sha256d64_block (input : bytes) : bytes :=
  let c := transform sha2_init (Region (take 64 input)) in
  let c := transform c (Region (sha256d64_pad [] (Z.shiftl 64 3))) in
  let mid := state_out (state c) in
  let c := transform sha2_init (Region (sha256d64_pad mid (Z.shiftl 32 3))) in
  state_out (state c).

Fixpoint sha256d64 (input : bytes) (blocks : nat) : bytes :=
  match blocks with
  | O => []
  | S blocks => sha256d64_block input ++ sha256d64 (drop 64 input) blocks
  end.

Definition sha256d_2_input (left right : bytes) : bytes :=
  sha256d64 (take 32 left ++ take 32 right) 1.

(** ** They are the functions of the standards *)

Lemma transform_fresh c b :
  length (buffer c) = 64%nat -> length b = 64%nat ->
  state (transform c (Region b)) = fips_compress (state c) b /\
  length (buffer (transform c (Region b))) = 64%nat.
Proof. intros. by apply (transform_spec c (Region b)). Qed.

Lemma state_out_spec s : Forall (urange 32) s -> state_out s = concat (be_enc 4 <$> s).
Proof.
  unfold state_out. induction 1 as [|w s Hw Hs IH]; [done|].
  cbn [fmap list_fmap concat].
  f_equal; [by apply (word_out (P := sha256) w)|exact IH].
Qed.

Lemma REVERSE64_const z : urange 64 z -> le_enc 8 (REVERSE64 z) = be_enc 8 z.
Proof. intros. rewrite <- REVERSE64_store. by rewrite wrap_small. Qed.

(** The padded block of a message of at most 55 bytes. *)
Lemma sha256d64_pad_spec pre bits :
  (length pre <= 55)%nat -> urange 64 bits ->
  sha256d64_pad pre bits = pre ++ Byte.x80 :: zeros (55 - length pre) ++ be_enc 8 bits.
Proof.
  intros Hp Hb. unfold sha256d64_pad. rewrite REVERSE64_const by done.
  rewrite (inserts_split 0) by (rewrite zeros_length; lia).
  rewrite take_0, app_nil_l, Nat.add_0_l.
  rewrite (inserts_split (length pre)) by
    (rewrite length_app, length_drop, zeros_length; simpl; lia).
  rewrite take_app_exact, drop_app_ge by (lia || done). simpl length.
  unfold zeros. rewrite !drop_replicate.
  rewrite inserts_split by
    (rewrite !length_app, length_replicate, be_enc_length; simpl; lia).
  rewrite be_enc_length.
  rewrite (drop_ge (pre ++ _)) by (rewrite !length_app, length_replicate; simpl; lia).
  rewrite app_nil_r. rewrite take_app_ge by lia. rewrite <- app_assoc. f_equal.
  destruct (56 - length pre)%nat eqn:E; [lia|]. simpl. do 2 f_equal.
  rewrite take_replicate. f_equal. lia.
Qed.

Lemma fips_hash_64 b :
  length b = 64%nat ->
  fips_hash b = concat (be_enc 4 <$> fips_compress (fips_compress initial_hash_value b)
                          (Byte.x80 :: zeros 55 ++ be_enc 8 512)).
Proof.
  intros Hb. unfold fips_hash, fips_pad. rewrite Hb.
  change (((2 * block_length - 1 - 2 * wbytes - 64 mod block_length) mod block_length))%nat
    with 55%nat. change (2 * wbytes)%nat with 8%nat.
  change (8 * Z.of_nat 64) with 512.
  assert (length (b ++ Byte.x80 :: zeros 55 ++ be_enc 8 512) / block_length = 1 + 1)%nat as ->.
  { by rewrite length_app, length_cons, length_app, zeros_length, be_enc_length, Hb. }
  rewrite fips_blocks_plus by (by rewrite Hb).
  rewrite !fips_blocks_one; [done|done|].
  by rewrite length_cons, length_app, zeros_length, be_enc_length.
Qed.

Lemma fips_hash_32 b :
  length b = 32%nat ->
  fips_hash b = concat (be_enc 4 <$> fips_compress initial_hash_value
                          (b ++ Byte.x80 :: zeros 23 ++ be_enc 8 256)).
Proof.
  intros Hb. unfold fips_hash, fips_pad. rewrite Hb.
  change (((2 * block_length - 1 - 2 * wbytes - 32 mod block_length) mod block_length))%nat
    with 23%nat. change (2 * wbytes)%nat with 8%nat.
  change (8 * Z.of_nat 32) with 256.
  assert (length (b ++ Byte.x80 :: zeros 23 ++ be_enc 8 256) = 64%nat) as El.
  { by rewrite length_app, length_cons, length_app, zeros_length, be_enc_length, Hb. }
  rewrite El. change (64 / block_length)%nat with 1%nat. by rewrite fips_blocks_one.
Qed.

Lemma compress_range_256 H b : Forall (urange 32) (fips_compress (P := sha256) H b).
Proof. exact (compress_range (P := sha256) H b). Qed.

#[local] Opaque fips_compress sha2_transform state_out.

Lemma sha256d64_block_spec input :
  (64 <= length input)%nat ->
  sha256d64_block input = fips_hash (fips_hash (take 64 input)).
Proof.
  intros Hi. unfold sha256d64_block.
  assert (length (take 64 input) = 64%nat) as Ht by (rewrite length_take; lia).
  destruct (transform_fresh sha2_init (take 64 input)) as [E1 L1]; [done|done|].
  assert (sha256d64_pad [] (Z.shiftl 64 3) = Byte.x80 :: zeros 55 ++ be_enc 8 (Z.shiftl 64 3))
    as -> by (apply (sha256d64_pad_spec []); [simpl; lia|by split]).
  set (p1 := Byte.x80 :: zeros 55 ++ be_enc 8 (Z.shiftl 64 3)).
  assert (length p1 = 64%nat) as Hp1
    by (unfold p1; by rewrite length_cons, length_app, zeros_length, be_enc_length).
  destruct (transform_fresh (transform sha2_init (Region (take 64 input))) p1 L1 Hp1) as [E2 _].
  rewrite E2, E1.
  assert (state_out (fips_compress (fips_compress (state sha2_init) (take 64 input)) p1)
          = fips_hash (take 64 input)) as ->.
  { rewrite fips_hash_64 by done. apply state_out_spec, compress_range_256. }
  set (mid := fips_hash (take 64 input)).
  assert (length mid = 32%nat) as Hm by apply (fips_hash_length (P := sha256)).
  rewrite (sha256d64_pad_spec mid) by (rewrite ?Hm; first [lia|by split]). rewrite Hm.
  destruct (transform_fresh sha2_init (mid ++ Byte.x80 :: zeros (55 - 32) ++
    be_enc 8 (Z.shiftl 32 3))) as [E3 _]; [done| |].
  { by rewrite length_app, length_cons, length_app, zeros_length, be_enc_length, Hm. }
  rewrite E3, state_out_spec by apply compress_range_256.
  by rewrite (fips_hash_32 mid).
Qed.

#[local] Transparent fips_compress sha2_transform state_out.

Lemma sha256d64_spec (blocks : list bytes) rest :
  Forall (fun b => length b = 64%nat) blocks ->
  sha256d64 (concat blocks ++ rest) (length blocks) =
  concat ((fun b => fips_hash (fips_hash b)) <$> blocks).
Proof.
  induction 1 as [|b blocks Hb Hbs IH]; [done|]. cbn [concat length sha256d64].
  rewrite <- app_assoc, drop_app_exact by done.
  rewrite sha256d64_block_spec by (rewrite length_app; lia).
  rewrite take_app_exact by done. cbn [fmap list_fmap concat]. f_equal. apply IH.
Qed.

(** ** PBKDF2 *)

(** The states after the padded key blocks, computed and stored but not used by the
    iterations. *)
Definition hmac_sha256_prepare (key : bytes) : list Z * list Z :=
  let key_block := key_block key in
  (state (transform sha2_init (Region (xor_pad Byte.x5c key_block))),
   state (transform sha2_init (Region (xor_pad Byte.x36 key_block)))).

Record pbkdf2_hmac_sha256_context := mk_pbkdf2_256 {
  f256 : bytes; g256 : bytes; pass256 : bytes; first256 : Z;
  odig : list Z; idig : list Z;
}.

Definition pbkdf2_hmac_sha256_init (pass salt : bytes) (blocknr : Z)
    : pbkdf2_hmac_sha256_context :=
  let '(odig, idig) := hmac_sha256_prepare pass in
  let g := zeros 64 in
  let g := list_inserts (8 * 4) (le_enc 4 0x80000000) g in
  let g := list_inserts (15 * 4) (le_enc 4 ((64 + 32) * 8)) g in
  let hctx := hmac_sha256_init pass in
  let hctx := hmac_sha256_write hctx salt in
  let hctx := hmac_sha256_write hctx (le_enc 4 (REVERSE32 blocknr)) in
  let g := list_inserts 0 (hmac_sha256_finalize hctx) g in
  mk_pbkdf2_256 (take 32 g) g pass 1 odig idig.

Definition pbkdf2_hmac_sha256_write (c : pbkdf2_hmac_sha256_context) (iterations : Z)
    : pbkdf2_hmac_sha256_context :=
  let '(f, g) := pbkdf2_loop (Z.to_nat (iterations - first256 c)) (pass256 c) (f256 c) (g256 c) in
  mk_pbkdf2_256 f g (pass256 c) 0 (odig c) (idig c).

Definition pbkdf2_hmac_sha256_finalize (c : pbkdf2_hmac_sha256_context) : bytes := f256 c.

(** One block of the key, [blocknr] counted from 1. *)
Definition pbkdf2_block (pass salt : bytes) (iterations : Z) (blocks_count last_block_size : nat)
    (key : bytes) (blocknr : nat) : bytes :=
  let pctx := pbkdf2_hmac_sha256_init pass salt (Z.of_nat blocknr) in
  let digest := pbkdf2_hmac_sha256_finalize (pbkdf2_hmac_sha256_write pctx iterations) in
  let key_offset := ((blocknr - 1) * 32)%nat in
  if (blocknr <? blocks_count)%nat then list_inserts key_offset (take 32 digest) key
  else list_inserts key_offset (take last_block_size digest) key.

(** [key]: the region the caller passed, with the key on return. *)
Definition pbkdf2_hmac_sha256 (pass salt : bytes) (iterations : Z) (key : bytes)
    (keylen : nat) : bytes :=
  let rem := (keylen mod 32)%nat in
  let blocks_count := (if (rem =? 0)%nat then keylen / 32 else keylen / 32 + 1)%nat in
  let last_block_size := (if (rem =? 0)%nat then 32 else rem)%nat in
  foldl (pbkdf2_block pass salt iterations blocks_count last_block_size) key
    (seq 1 blocks_count).

(** RFC 8018: the first [keylen] bytes of the blocks. *)
Definition rfc8018_pbkdf2 (pass salt : bytes) (c keylen : nat) : bytes :=
  take keylen (concat ((fun i => rfc8018_F pass (salt ++ be_enc 4 (Z.of_nat i)) c)
                         <$> seq 1 ((keylen + 31) / 32))).

Lemma xor_bytes_length a b : length b = length a -> length (xor_bytes a b) = length a.
Proof. intros H. unfold xor_bytes. rewrite length_zip_with. lia. Qed.

Lemma rfc8018_iter_length n pass u :
  length u = 32%nat -> length (rfc8018_iter n pass u) = 32%nat.
Proof.
  revert u. induction n as [|n IH]; intros u Hu; [done|]. simpl. apply IH.
  apply (rfc2104_length (P := sha256)).
Qed.

Lemma rfc8018_F_length pass s c : length (rfc8018_F pass s c) = 32%nat.
Proof.
  unfold rfc8018_F. pose proof (rfc2104_length (P := sha256) pass s) as Hl.
  change digest_length with 32%nat in Hl.
  assert (forall l acc, length acc = 32%nat ->
    length (foldl (fun acc j => xor_bytes acc (rfc8018_iter j pass (rfc2104_hmac pass s)))
              acc l) = 32%nat) as H.
  { induction l as [|j l IH]; intros acc Ha; [done|]. simpl. apply IH.
    rewrite xor_bytes_length; [done|]. rewrite Ha. by apply rfc8018_iter_length. }
  by apply H.
Qed.

Lemma pbkdf2_digest pass salt nr c :
  urange 32 nr -> (1 <= c)%nat ->
  pbkdf2_hmac_sha256_finalize
    (pbkdf2_hmac_sha256_write (pbkdf2_hmac_sha256_init pass salt nr) (Z.of_nat c)) =
  rfc8018_F pass (salt ++ be_enc 4 nr) c.
Proof.
  intros Hnr Hc. unfold pbkdf2_hmac_sha256_init. destruct (hmac_sha256_prepare pass).
  cbv zeta. unfold hmac_sha256_finalize, hmac_sha256_write, hmac_sha256_init.
  pose proof (hmac_stream_spec (P := sha256) pass [salt; le_enc 4 (REVERSE32 nr)]) as Hh.
  cbn [foldl concat] in Hh. rewrite Hh, app_nil_r. clear Hh.
  pose proof (word_out (P := sha256) nr Hnr) as Hw. simpl in Hw. rewrite Hw.
  set (g0 := list_inserts (15 * 4) _ _).
  assert (length g0 = 64%nat) as Hg0 by (unfold g0; rewrite !length_inserts; done).
  set (u1 := rfc2104_hmac pass (salt ++ be_enc 4 nr)).
  assert (length u1 = 32%nat) as Hu by apply (rfc2104_length (P := sha256)).
  assert (list_inserts 0 u1 g0 = u1 ++ drop 32 g0) as E.
  { rewrite inserts_split by lia. rewrite take_0, app_nil_l, Nat.add_0_l. by rewrite Hu. }
  rewrite E. unfold pbkdf2_hmac_sha256_write. cbn [first256 pass256 f256 g256].
  rewrite take_app_exact by done.
  replace (Z.to_nat (Z.of_nat c - 1)) with (c - 1)%nat by lia.
  destruct (pbkdf2_loop_spec (P := sha256) (c - 1) pass u1 u1 (drop 32 g0)) as (tl & -> & _);
    [done|]. done.
Qed.

Lemma pbkdf2_blocks pass salt c key bc last k (F := fun i =>
    rfc8018_F pass (salt ++ be_enc 4 (Z.of_nat i)) c) :
  (1 <= c)%nat -> (k <= bc)%nat -> Z.of_nat bc < 2 ^ 32 -> (1 <= last <= 32)%nat ->
  length key = ((bc - 1) * 32 + last)%nat ->
  let key' := foldl (pbkdf2_block pass salt (Z.of_nat c) bc last) key (seq 1 k) in
  length key' = length key /\
  take (k * 32) key' = take (length key) (concat (F <$> seq 1 k)).
Proof.
  intros Hc Hk Hbc Hlast Hlen. induction k as [|k IH].
  { split; [done|]. simpl. by rewrite take_nil. }
  destruct IH as [Hl Ht]; [lia|]. cbv zeta in *. rewrite seq_S, foldl_app.
  set (key' := foldl _ key (seq 1 k)) in *. cbn [foldl Nat.add].
  unfold pbkdf2_block. cbv zeta. rewrite pbkdf2_digest by (unfold urange; lia).
  pose proof (rfc8018_F_length pass (salt ++ be_enc 4 (Z.of_nat (S k))) c) as HF.
  change (rfc8018_F pass (salt ++ be_enc 4 (Z.of_nat (S k))) c) with (F (S k)) in *.
  replace ((S k - 1) * 32)%nat with (k * 32)%nat by lia.
  assert (length (concat (F <$> seq 1 k)) = k * 32)%nat as Hcl.
  { rewrite (length_concat_const 32); [by rewrite length_fmap, length_seq|].
    intros l (i & -> & _)%list_elem_of_fmap. unfold F. by rewrite rfc8018_F_length. }
  rewrite (take_ge (concat (F <$> seq 1 k))) in Ht by nia.
  rewrite fmap_app, concat_app. cbn [fmap list_fmap concat]. rewrite app_nil_r.
  destruct (Nat.ltb_spec (S k) bc).
  - rewrite length_inserts, (take_ge (F (S k))) by lia. split; [done|].
    rewrite (take_ge (_ ++ _)) by (rewrite length_app; nia).
    replace (S k * 32)%nat with (k * 32 + length (F (S k)))%nat by lia.
    rewrite take_inserts_end by nia. by rewrite Ht.
  - rewrite length_inserts. split; [done|].
    assert (length (take last (F (S k))) = last) as Hll by (rewrite length_take; lia).
    rewrite (take_ge (list_inserts _ _ _)) by (rewrite length_inserts; nia).
    rewrite <- (take_ge (list_inserts (k * 32) (take last (F (S k))) key')
                  (k * 32 + length (take last (F (S k)))))
      by (rewrite length_inserts; nia).
    rewrite take_inserts_end by nia. rewrite Ht.
    rewrite take_app_ge by nia. f_equal. f_equal. nia.
Qed.

(** ** Hash helpers ([hash.h]) *)

(** [hash[0] == 0 && !memcmp(hash, hash + 1, 19)] *)
Definition hash_is_empty (hash : bytes) : bool :=
  (byte.unsigned (default byte_zero (head hash)) =? 0) &&
  bytes_eqb (take 19 hash) (take 19 (drop 1 hash)).

Definition hash_equal (a b : bytes) : bool := bytes_eqb (take 32 a) (take 32 b).
Definition hash_clear : bytes := zeros 32.
Definition hash_set (src : bytes) : bytes := take 32 src.

(** Double SHA-256, also [dogecoin_dblhash]; single SHA-256; of two inputs. *)
Definition dogecoin_hash (datain : bytes) : bytes := sha256_raw (sha256_raw datain).
Definition dogecoin_dblhash (datain : bytes) : bool * bytes := (true, dogecoin_hash datain).
Definition hash_sngl_sha256 (datain : bytes) : bytes := sha256_raw datain.
Definition hash_2_inputs (left right : bytes) : bytes := sha256d_2_input left right.

(** Only twenty of the thirty-two bytes are looked at. *)
Lemma hash_is_empty_spec h :
  length h = 32%nat -> hash_is_empty h = true <-> take 20 h = zeros 20.
Proof.
  intros Hl. unfold hash_is_empty, bytes_eqb. rewrite andb_true_iff, bool_decide_eq_true.
  do 33 (destruct h as [|? h]; try done). clear Hl. simpl.
  split.
  - intros [H0 [=]]. simplify_eq. apply Z.eqb_eq in H0.
    apply (byte.unsigned_inj _ byte_zero) in H0. by subst.
  - intros [=]. by subst.
Qed.

(** ** Properties *)

(** One call of the transform applies the compression function of FIPS 180-4 to the
    chaining state, although the message schedule only ever exists as a ring of sixteen
    words inside the context's buffer, and also when the block to be processed is that
    same buffer. *)
Theorem sha256_transform_is_fips state buffer src :
  length buffer = 64%nat -> length (src_bytes src buffer) = 64%nat ->
  (sha256_transform state buffer src).1 = fips_compress state (src_bytes src buffer) /\
  length (sha256_transform state buffer src).2 = 64%nat.
Proof. apply (sha2_transform_spec (P := sha256)). Qed.

Lemma sha256_transform_is_fips_witness :
  (sha256_transform sha256_initial_hash_value (zeros 64) OwnBuffer).1 =
  fips_compress sha256_initial_hash_value (zeros 64) /\
  length (sha256_transform sha256_initial_hash_value (zeros 64) OwnBuffer).2 = 64%nat.
Proof.
  apply (sha256_transform_is_fips sha256_initial_hash_value (zeros 64) OwnBuffer); reflexivity.
Defined.

(** C35: however a message is cut into pieces, writing them to a fresh context and
    finalizing it gives the SHA-256 digest of the whole message, the one [sha256_raw]
    computes; and the context is cleared. *)
Theorem sha256_stream_correct (ds : list bytes) :
  sha256_finalize (foldl sha256_write sha256_init ds) true =
    (Some (fips_hash (concat ds)), context_zero) /\
  sha256_raw (concat ds) = fips_hash (concat ds).
Proof.
  split; [|apply (sha2_raw_spec (P := sha256))].
  pose proof (stream_spec (P := sha256) ds) as H.
  unfold digest_of, sha2_finalize in H. cbn [fst from_option] in H. unfold id in H.
  unfold sha256_finalize, sha2_finalize, sha256_write, sha256_init. by rewrite H.
Qed.

Lemma dogecoin_hash_fips b : dogecoin_hash b = fips_hash (fips_hash b).
Proof. unfold dogecoin_hash, sha256_raw. by rewrite !sha2_raw_spec. Qed.

Lemma dogecoin_hash_length b : length (dogecoin_hash b) = 32%nat.
Proof. rewrite dogecoin_hash_fips. apply (fips_hash_length (P := sha256)). Qed.

Lemma hash_2_inputs_spec left right :
  length left = 32%nat -> length right = 32%nat ->
  hash_2_inputs left right = dogecoin_hash (left ++ right).
Proof.
  intros Hl Hr. unfold hash_2_inputs, sha256d_2_input. rewrite !take_ge by lia.
  pose proof (sha256d64_spec [left ++ right] []) as H. rewrite dogecoin_hash_fips.
  cbn [concat length fmap list_fmap] in H. rewrite !app_nil_r in H. apply H.
  apply List.Forall_cons; [rewrite length_app; lia|apply List.Forall_nil].
Qed.

(** The many-block and the two-input double hash are SHA-256 applied twice, block by
    block: to each 64-byte block, and to the concatenation of the two inputs. *)
Theorem sha256d_is_double_sha256 (blocks : list bytes) (left right : bytes) :
  Forall (fun b => length b = 64%nat) blocks ->
  length left = 32%nat -> length right = 32%nat ->
  sha256d64 (concat blocks) (length blocks) = concat (dogecoin_hash <$> blocks) /\
  hash_2_inputs left right = dogecoin_hash (left ++ right).
Proof.
  intros Hb Hl Hr.
  split; [|by apply hash_2_inputs_spec].
  rewrite <- (app_nil_r (concat blocks)), sha256d64_spec by done.
  f_equal. apply list_fmap_ext. intros i b _. by rewrite dogecoin_hash_fips.
Qed.

Lemma sha256d_is_double_sha256_witness :
  sha256d64 (concat [zeros 64]) (length [zeros 64]) = concat (dogecoin_hash <$> [zeros 64]) /\
  hash_2_inputs (zeros 32) (zeros 32) = dogecoin_hash (zeros 32 ++ zeros 32).
Proof.
  apply (sha256d_is_double_sha256 [zeros 64] (zeros 32) (zeros 32)); [|done|done].
  apply List.Forall_cons; [reflexivity|apply List.Forall_nil].
Defined.

(** HMAC-SHA256, in one call or with the message in pieces, is the function of
    RFC 2104. *)
Theorem hmac_sha256_correct key (ds : list bytes) :
  hmac_sha256 key (concat ds) = rfc2104_hmac key (concat ds) /\
  hmac_sha256_finalize (foldl hmac_sha256_write (hmac_sha256_init key) ds) =
  rfc2104_hmac key (concat ds).
Proof.
  split; [apply (hmac_spec (P := sha256))|apply (hmac_stream_spec (P := sha256))].
Qed.

Lemma pbkdf2_spec pass salt c key keylen :
  (1 <= c)%nat -> (0 < keylen)%nat -> Z.of_nat keylen < 2 ^ 31 -> length key = keylen ->
  pbkdf2_hmac_sha256 pass salt (Z.of_nat c) key keylen = rfc8018_pbkdf2 pass salt c keylen /\
  length (rfc8018_pbkdf2 pass salt c keylen) = keylen.
Proof.
  intros Hc H0 Hlen Hkey. unfold pbkdf2_hmac_sha256, rfc8018_pbkdf2. cbv zeta.
  pose proof (Nat.div_mod_eq keylen 32) as Hd. pose proof (Nat.mod_upper_bound keylen 32).
  set (bc := (if (keylen mod 32 =? 0)%nat then keylen / 32 else keylen / 32 + 1)%nat).
  set (last := (if (keylen mod 32 =? 0)%nat then 32 else keylen mod 32)%nat).
  assert (keylen = (bc - 1) * 32 + last /\ 1 <= last <= 32 /\ 1 <= bc)%nat as (Hk & Hl & Hb).
  { unfold bc, last. destruct (Nat.eqb_spec (keylen mod 32) 0); lia. }
  replace ((keylen + 31) / 32)%nat with bc.
  2:{ apply (Nat.div_unique _ 32 bc (last - 1)); lia. }
  destruct (pbkdf2_blocks pass salt c key bc last bc) as [Hl1 Ht]; [lia..|].
  rewrite take_ge in Ht by (rewrite Hl1; lia). rewrite Hkey in Ht. rewrite <- Ht. split; [done|congruence].
Qed.

(** PBKDF2-HMAC-SHA256 with at least one iteration fills the whole key, its last
    partial block included, with the bytes RFC 8018 prescribes. *)
Theorem pbkdf2_hmac_sha256_correct pass salt c key keylen :
  (1 <= c)%nat -> (0 < keylen)%nat -> Z.of_nat keylen < 2 ^ 31 -> length key = keylen ->
  pbkdf2_hmac_sha256 pass salt (Z.of_nat c) key keylen = rfc8018_pbkdf2 pass salt c keylen.
Proof. intros. by apply pbkdf2_spec. Qed.

Lemma pbkdf2_hmac_sha256_correct_witness :
  pbkdf2_hmac_sha256 [Byte.x70] [Byte.x73] 2 (zeros 40) 40 =
  rfc8018_pbkdf2 [Byte.x70] [Byte.x73] 2 40.
Proof.
  apply (pbkdf2_hmac_sha256_correct [Byte.x70] [Byte.x73] 2 (zeros 40) 40);
    [lia | lia | lia | reflexivity].
Defined.

(** The digest of the three letters [abc]. *)
Example sha256_abc :
  sha256_raw [Byte.x61; Byte.x62; Byte.x63] =
  be_enc 32 0xba7816bf8f01cfea414140de5dae2223b00361a396177a9cb410ff61f20015ad.
Proof. vm_compute. reflexivity. Qed.
