(* ===== verification/Sha512.v ===== *)
(** * SHA-512 ([src/src/sha2.c])

    The instance of the SHA-2 code for 64-bit words, with its counter of two words, and
    HMAC and PBKDF2 over it. *)

From S2P Require Import Prelude Mem Words Sha2 Sha2Stream Hmac Sha256.

Local Open Scope Z_scope.

Definition K512 : list Z := [
   0x428a2f98d728ae22; 0x7137449123ef65cd; 0xb5c0fbcfec4d3b2f; 0xe9b5dba58189dbbc;
   0x3956c25bf348b538; 0x59f111f1b605d019; 0x923f82a4af194f9b; 0xab1c5ed5da6d8118;
   0xd807aa98a3030242; 0x12835b0145706fbe; 0x243185be4ee4b28c; 0x550c7dc3d5ffb4e2;
   0x72be5d74f27b896f; 0x80deb1fe3b1696b1; 0x9bdc06a725c71235; 0xc19bf174cf692694;
   0xe49b69c19ef14ad2; 0xefbe4786384f25e3; 0x0fc19dc68b8cd5b5; 0x240ca1cc77ac9c65;
   0x2de92c6f592b0275; 0x4a7484aa6ea6e483; 0x5cb0a9dcbd41fbd4; 0x76f988da831153b5;
   0x983e5152ee66dfab; 0xa831c66d2db43210; 0xb00327c898fb213f; 0xbf597fc7beef0ee4;
   0xc6e00bf33da88fc2; 0xd5a79147930aa725; 0x06ca6351e003826f; 0x142929670a0e6e70;
   0x27b70a8546d22ffc; 0x2e1b21385c26c926; 0x4d2c6dfc5ac42aed; 0x53380d139d95b3df;
   0x650a73548baf63de; 0x766a0abb3c77b2a8; 0x81c2c92e47edaee6; 0x92722c851482353b;
   0xa2bfe8a14cf10364; 0xa81a664bbc423001; 0xc24b8b70d0f89791; 0xc76c51a30654be30;
   0xd192e819d6ef5218; 0xd69906245565a910; 0xf40e35855771202a; 0x106aa07032bbd1b8;
   0x19a4c116b8d2d0c8; 0x1e376c085141ab53; 0x2748774cdf8eeb99; 0x34b0bcb5e19b48a8;
   0x391c0cb3c5c95a63; 0x4ed8aa4ae3418acb; 0x5b9cca4f7763e373; 0x682e6ff3d6b2b8a3;
   0x748f82ee5defb2fc; 0x78a5636f43172f60; 0x84c87814a1f0ab72; 0x8cc702081a6439ec;
   0x90befffa23631e28; 0xa4506cebde82bde9; 0xbef9a3f7b2c67915; 0xc67178f2e372532b;
   0xca273eceea26619c; 0xd186b8c721c0c207; 0xeada7dd6cde0eb1e; 0xf57d4f7fee6ed178;
   0x06f067aa72176fba; 0x0a637dc5a2c898a6; 0x113f9804bef90dae; 0x1b710b35131c471b;
   0x28db77f523047d84; 0x32caab7b40c72493; 0x3c9ebe0a15c9bebc; 0x431d67c49c100d4c;
   0x4cc5d4becb3e42b6; 0x597f299cfc657e2a; 0x5fcb6fab3ad6faec; 0x6c44198c4a475817 ].

Definition sha512_initial_hash_value : list Z := [
   0x6a09e667f3bcc908; 0xbb67ae8584caa73b; 0x3c6ef372fe94f82b; 0xa54ff53a5f1d36f1;
   0x510e527fade682d1; 0x9b05688c2b3e6c1f; 0x1f83d9abfb41bd6b; 0x5be0cd19137e2179 ].

#[export] Instance sha512 : Sha2 := {|
  wbytes := 8; rounds := 80; K := K512; initial_hash_value := sha512_initial_hash_value;
  Sigma0 := Sigma0_512; Sigma1 := Sigma1_512; sigma0 := sigma0_512; sigma1 := sigma1_512;
  REVERSE := REVERSE64;
|}.

#[export] Instance sha512_ok : @Sha2Ok sha512.
Proof.
  split.
  - simpl. lia.
  - simpl. lia.
  - done.
  - repeat (apply List.Forall_cons; [by vm_compute|]). apply List.Forall_nil.
  - intros bs Hl. destruct (length_8_inv bs Hl) as (a & b & c & d & e & f & g & h & ->).
    apply REVERSE64_bytes.
Qed.

(** [ADDINC128]: the low word, and the high word that takes its carry. *)
Definition ADDINC128 (w : Z * Z) (n : Z) : Z * Z :=
  let w0 := u64 (w.1 + n) in (w0, if w0 <? n then u64 (w.2 + 1) else w.2).

#[export] Instance sha512_count : @BitCount sha512 := {|
  bitcount_t := Z * Z; bc_zero := (0, 0); bc_add := ADDINC128; bc_low b := b.1;
  bc_store b := le_enc 8 (REVERSE64 b.2) ++ le_enc 8 (REVERSE64 b.1); last_zero := 126;
|}.

(** The two words are the number of bits modulo [2^128]. *)
Lemma ADDINC128_spec n m :
  0 <= m < 2 ^ 61 ->
  ADDINC128 (u64 (8 * n), u64 (8 * n / 2 ^ 64)) (u64 (Z.shiftl m 3)) =
  (u64 (8 * (n + m)), u64 (8 * (n + m) / 2 ^ 64)).
Proof.
  intros Hm. rewrite Z.shiftl_mul_pow2 by lia. change (2 ^ 3) with 8.
  rewrite (wrap_small 64 (m * 8)) by (unfold urange; lia).
  unfold ADDINC128. cbn [fst snd]. rewrite wrap_add_l.
  replace (8 * n + m * 8) with (8 * (n + m)) by lia. f_equal.
  unfold wrap. pose proof (Z.div_mod (8 * n) (2 ^ 64) ltac:(lia)) as E.
  pose proof (Z.mod_pos_bound (8 * n) (2 ^ 64) ltac:(lia)) as Hb.
  set (q := 8 * n / 2 ^ 64) in *. set (r := 8 * n mod 2 ^ 64) in *.
  replace (8 * (n + m)) with (r + m * 8 + q * 2 ^ 64) by lia.
  rewrite Z.mod_add, Z.div_add by lia.
  destruct (Z.lt_ge_cases (r + m * 8) (2 ^ 64)).
  - rewrite (Z.mod_small (r + m * 8)), (Z.div_small (r + m * 8)) by lia.
    by rewrite (proj2 (Z.ltb_ge _ _)) by lia.
  - assert ((r + m * 8) mod 2 ^ 64 = r + m * 8 - 2 ^ 64) as ->.
    { symmetry. apply Zmod_unique with 1; lia. }
    assert ((r + m * 8) / 2 ^ 64 = 1) as -> by (symmetry; apply Z.div_unique with (r + m * 8 - 2 ^ 64); lia).
    rewrite (proj2 (Z.ltb_lt _ _)) by lia.
    rewrite Z.add_mod_idemp_l by lia. f_equal. lia.
Qed.

#[export] Program Instance sha512_count_ok : @BitCountOk sha512 sha512_count := {|
  bc_repr b n := b = (u64 (8 * n), u64 (8 * n / 2 ^ 64));
|}.
Next Obligation. done. Qed.
Next Obligation. intros b n m -> Hm. by apply ADDINC128_spec. Qed.
Next Obligation.
  intros b n -> Hn. apply used_of_bits; [done|]. by exists (2 ^ 54).
Qed.
Next Obligation.
  intros b n ->. cbn [bc_store sha512_count fst snd]. rewrite !REVERSE64_store.
  change (2 * wbytes)%nat with (8 + 8)%nat. rewrite be_enc_add.
  rewrite Z.shiftr_div_pow2 by lia. done.
Qed.
Next Obligation. simpl. lia. Qed.
Next Obligation. done. Qed.

(** ** The functions by their names *)

Definition sha512_init : @context sha512 sha512_count := sha2_init.
Definition sha512_transform : list Z -> bytes -> block_src -> list Z * bytes :=
  sha2_transform (P := sha512).
Definition sha512_write : @context sha512 sha512_count -> bytes -> context := sha2_write.
Definition sha512_last : @context sha512 sha512_count -> context := sha2_last.
Definition sha512_finalize : @context sha512 sha512_count -> bool -> option bytes * context :=
  sha2_finalize.
Definition sha512_raw : bytes -> bytes := sha2_raw (P := sha512).

Definition hmac_sha512_init : bytes -> @hmac_context sha512 sha512_count := hmac_init.
Definition hmac_sha512_write : @hmac_context sha512 sha512_count -> bytes -> hmac_context :=
  hmac_write.
Definition hmac_sha512_finalize : @hmac_context sha512 sha512_count -> bytes := hmac_finalize.
Definition hmac_sha512 : bytes -> bytes -> bytes := hmac (P := sha512).

(** ** PBKDF2: one block of 64 bytes *)

Record pbkdf2_hmac_sha512_context := mk_pbkdf2_512 {
  f512 : bytes; g512 : bytes; pass512 : bytes; first512 : Z;
}.

Definition pbkdf2_hmac_sha512_init (pass salt : bytes) : pbkdf2_hmac_sha512_context :=
  let hctx := hmac_sha512_init pass in
  let hctx := hmac_sha512_write hctx salt in
  let hctx := hmac_sha512_write hctx [Byte.x00; Byte.x00; Byte.x00; Byte.x01] in
  let g := hmac_sha512_finalize hctx in
  mk_pbkdf2_512 (take 64 g) g pass 1.

Definition pbkdf2_hmac_sha512_write (c : pbkdf2_hmac_sha512_context) (iterations : Z)
    : pbkdf2_hmac_sha512_context :=
  let '(f, g) := pbkdf2_loop (P := sha512) (Z.to_nat (iterations - first512 c))
                   (pass512 c) (f512 c) (g512 c) in
  mk_pbkdf2_512 f g (pass512 c) 0.

Definition pbkdf2_hmac_sha512_finalize (c : pbkdf2_hmac_sha512_context) : bytes := f512 c.

Definition pbkdf2_hmac_sha512 (pass salt : bytes) (iterations : Z) : bytes :=
  let pctx := pbkdf2_hmac_sha512_init pass salt in
  let pctx := pbkdf2_hmac_sha512_write pctx iterations in
  pbkdf2_hmac_sha512_finalize pctx.

(** ** Properties *)

(** However a message is cut into pieces, writing them to a fresh SHA-512 context and
    finalizing it gives the digest of FIPS 180-4 of the whole message, with the bit
    count kept in two words; HMAC-SHA512 is the function of RFC 2104 in one call and in
    pieces. *)
Theorem sha512_stream_correct key (ds : list bytes) :
  (sha512_finalize (foldl sha512_write sha512_init ds) true).1 =
    Some (fips_hash (P := sha512) (concat ds)) /\
  hmac_sha512 key (concat ds) = rfc2104_hmac (P := sha512) key (concat ds) /\
  hmac_sha512_finalize (foldl hmac_sha512_write (hmac_sha512_init key) ds) =
    rfc2104_hmac (P := sha512) key (concat ds).
Proof.
  split_and!.
  - pose proof (stream_spec (P := sha512) ds) as H.
    unfold digest_of, sha2_finalize in H. cbn [fst from_option] in H. unfold id in H.
    unfold sha512_finalize, sha2_finalize, sha512_write, sha512_init. by rewrite H.
  - apply (hmac_spec (P := sha512)).
  - apply (hmac_stream_spec (P := sha512)).
Qed.

Lemma hmac_sha512_length key msg : length (hmac_sha512 key msg) = 64%nat.
Proof. unfold hmac_sha512. rewrite hmac_spec. apply (rfc2104_length (P := sha512)). Qed.

(** PBKDF2-HMAC-SHA512 with at least one iteration computes the first block RFC 8018
    prescribes, which is the whole key of 64 bytes. *)
Theorem pbkdf2_hmac_sha512_correct pass salt c :
  (1 <= c)%nat ->
  pbkdf2_hmac_sha512 pass salt (Z.of_nat c) =
  rfc8018_F (P := sha512) pass (salt ++ be_enc 4 1) c.
Proof.
  intros Hc. unfold pbkdf2_hmac_sha512, pbkdf2_hmac_sha512_init. cbv zeta.
  unfold hmac_sha512_finalize, hmac_sha512_write, hmac_sha512_init.
  pose proof (hmac_stream_spec (P := sha512) pass
                [salt; [Byte.x00; Byte.x00; Byte.x00; Byte.x01]]) as Hh.
  cbn [foldl concat] in Hh. rewrite Hh, app_nil_r. clear Hh.
  change [Byte.x00; Byte.x00; Byte.x00; Byte.x01] with (be_enc 4 1).
  set (u1 := rfc2104_hmac pass (salt ++ be_enc 4 1)).
  assert (length u1 = 64%nat) as Hu by apply (rfc2104_length (P := sha512)).
  unfold pbkdf2_hmac_sha512_write. cbn [first512 pass512 f512 g512].
  rewrite take_ge by lia.
  replace (Z.to_nat (Z.of_nat c - 1)) with (c - 1)%nat by lia.
  destruct (pbkdf2_loop_spec (P := sha512) (c - 1) pass u1 u1 []) as (tl & E & _); [done|].
  rewrite app_nil_r in E. by rewrite E.
Qed.

Lemma pbkdf2_hmac_sha512_correct_witness :
  pbkdf2_hmac_sha512 [Byte.x70] [Byte.x73] (Z.of_nat 3) =
  rfc8018_F (P := sha512) [Byte.x70] ([Byte.x73] ++ be_enc 4 1) 3.
Proof. apply (pbkdf2_hmac_sha512_correct [Byte.x70] [Byte.x73] 3). lia. Defined.
