(* ===== verification/Utils.v ===== *)
(** * Hexadecimal strings and byte order ([src/src/utils.c])

    Characters are bytes; a string is the list of its characters, without the NUL.
    Every reader of hexadecimal strings is shown to invert the writer. *)

From S2P Require Import Prelude Words.

Local Open Scope Z_scope.

(** [digits\[n\]] *)
Definition digit (n : Z) : Byte.byte := byte.of_Z (if n <? 10 then 48 + n else 87 + n).

(** The two characters of a byte. *)
Definition hex_byte (b : Byte.byte) : bytes :=
  [digit (Z.land (Z.shiftr (byte.unsigned b) 4) 0xf); digit (Z.land (byte.unsigned b) 0xf)].

(** The string written to [hex_out], with its terminator. *)
Definition utils_bin_to_hex (bin_in : bytes) : bytes := concat (hex_byte <$> bin_in) ++ [Byte.x00].

Definition TO_UINT8_HEX_BUF_LEN : Z := 200001.

(** The string in the buffer of the thread; [None]: NULL. *)
Definition utils_uint8_to_hex (bin : bytes) : option bytes :=
  if TO_UINT8_HEX_BUF_LEN / 2 - 1 <? Z.of_nat (length bin) then None
  else Some (concat (hex_byte <$> bin)).

(** [for (i = 0; i < len - 1; i += 2)], on an even number of characters. *)
Definition reverse_step (copy : bytes) (len : nat) (h : bytes) (k : nat) : bytes :=
  let i := (2 * k)%nat in
  <[(i + 1)%nat := default byte_zero (copy !! (len - i - 1)%nat)]>
    (<[i := default byte_zero (copy !! (len - i - 2)%nat)]> h).

Definition utils_reverse_hex (h : bytes) (len : nat) : bytes :=
  foldl (reverse_step h len) h (seq 0 (len / 2)).

(** [to_string] and [hash_to_string], of 32 bytes. *)
Definition to_string (x : bytes) : option bytes := utils_uint8_to_hex (take 32 x).
Definition hash_to_string (x : bytes) : option bytes :=
  hexbuf ← to_string x; Some (utils_reverse_hex hexbuf 64).

(** ** Readers *)

(** The three ranges every reader knows; the comparisons are on signed characters, where
    those from 128 on are below all the ranges. *)
Definition hex_value (c : Byte.byte) : option Z :=
  let c := byte.unsigned c in
  if (48 <=? c) && (c <=? 57) then Some (c - 48)
  else if (97 <=? c) && (c <=? 102) then Some (10 + c - 97)
  else if (65 <=? c) && (c <=? 70) then Some (10 + c - 65)
  else None.

(** One byte: a character that is no digit leaves its half zero. *)
Definition hex_to_bin_byte (hi lo : Byte.byte) : Byte.byte :=
  let out := match hex_value hi with Some n => u8 (Z.shiftl n 4) | None => 0 end in
  let out := match hex_value lo with Some n => Z.lor out n | None => out end in
  byte.of_Z out.

Fixpoint hex_to_bin_loop (f : Byte.byte -> Byte.byte -> Byte.byte) (str : bytes) : bytes :=
  match str with
  | hi :: lo :: str => f hi lo :: hex_to_bin_loop f str
  | _ => []
  end.

(** The bytes written to [out] and [*outLen]; [str] has at least [inLen] characters. *)
Definition utils_hex_to_bin (str : bytes) (inLen : nat) : bytes * nat :=
  let out := hex_to_bin_loop hex_to_bin_byte (take inLen str) in (out, length out).

(** The same with additions, on the whole string; the bytes behind those of the string
    are zero.  [None]: NULL. *)
Definition hex_to_uint8_byte (hi lo : Byte.byte) : Byte.byte :=
  let c := match hex_value hi with Some n => u8 (Z.shiftl n 4) | None => 0 end in
  let c := match hex_value lo with Some n => u8 (c + n) | None => c end in
  byte.of_Z c.

Definition utils_hex_to_uint8 (str : bytes) : option bytes :=
  if TO_UINT8_HEX_BUF_LEN <? Z.of_nat (length str) then None
  else Some (hex_to_bin_loop hex_to_uint8_byte str).

(** [p_util_hexdigit] *)
Definition utils_hex_digit (c : Byte.byte) : Z := default (-1) (hex_value c).

Definition is_space (c : Byte.byte) : bool :=
  (byte.unsigned c =? 32) || ((9 <=? byte.unsigned c) && (byte.unsigned c <? 14)).

Fixpoint skip_spaces (psz : bytes) : bytes :=
  match psz with c :: psz' => if is_space c then skip_spaces psz' else psz | [] => [] end.

(** [psz\[0\] == '0' && (psz\[1\] == 'x' || psz\[1\] == 'X')] *)
Definition is_0x (psz : bytes) : bool :=
  match psz with
  | a :: b :: _ => byte_eqb a Byte.x30 && (byte_eqb b Byte.x78 || byte_eqb b Byte.x58)
  | _ => false
  end.

(** The digits in front of the first other character, the last one first. *)
Fixpoint leading_digits (psz acc : bytes) : bytes :=
  match psz with
  | c :: psz => if utils_hex_digit c =? -1 then acc else leading_digits psz (c :: acc)
  | [] => acc
  end.

(** From the last digit on, two per byte, while there is room. *)
Fixpoint sethex_fill (digits : bytes) (room : nat) : bytes :=
  match room, digits with
  | S room, lo :: hi :: digits =>
      byte.of_Z (Z.lor (utils_hex_digit lo) (u8 (Z.shiftl (utils_hex_digit hi) 4)))
        :: sethex_fill digits room
  | S _, [lo] => [byte.of_Z (utils_hex_digit lo)]
  | _, _ => []
  end.

Definition utils_uint256_sethex (psz : bytes) : bytes :=
  let psz := skip_spaces psz in
  let psz := if is_0x psz then drop 2 psz else psz in
  list_inserts 0 (sethex_fill (leading_digits psz []) 32) (zeros 32).

(** [while (is_0x) psz++]: a prefix is left at its x, which is no digit. *)
Fixpoint skip_0x (psz : bytes) : bytes :=
  match psz with
  | _ :: psz' => if is_0x psz then skip_0x psz' else psz
  | [] => []
  end.

(** The bytes before the first character that is no digit.  [fuel]: more than the number
    of characters. *)
Fixpoint parse_hex_loop (fuel : nat) (psz : bytes) : bytes :=
  match fuel with
  | O => []
  | S fuel =>
      match skip_0x psz with
      | hi :: lo :: psz =>
          if utils_hex_digit hi =? -1 then []
          else if utils_hex_digit lo =? -1 then []
          else byte.of_Z (Z.lor (u8 (Z.shiftl (utils_hex_digit hi) 4)) (utils_hex_digit lo))
                 :: parse_hex_loop fuel psz
      | _ => []
      end
  end.
Definition parse_hex (psz : bytes) : bytes := parse_hex_loop (S (length psz)) psz.

(** ** Byte order *)

(** The two ends are exchanged, inwards. *)
Definition swap_step (buf_size : nat) (buf : bytes) (i : nat) : bytes :=
  match buf !! i, buf !! (buf_size - i - 1)%nat with
  | Some temp, Some other => <[(buf_size - i - 1)%nat := temp]> (<[i := other]> buf)
  | _, _ => buf
  end.

Definition swap_bytes (buf : bytes) (buf_size : nat) : bytes :=
  foldl (swap_step buf_size) buf (seq 0 (buf_size / 2)).

Lemma swap_bytes_32 b : length b = 32%nat -> swap_bytes b 32 = rev b.
Proof.
  intros Hl. do 32 (destruct b as [|? b]; [done|]). destruct b; [reflexivity|done].
Qed.

(** ** Proofs *)

(** The characters of a byte, by going through the bytes. *)
Lemma hex_byte_spec b :
  exists hi lo h l, hex_byte b = [hi; lo] /\ hex_value hi = Some h /\ hex_value lo = Some l /\
    byte_eqb lo Byte.x78 = false /\ byte_eqb lo Byte.x58 = false /\ is_space hi = false /\
    hex_to_bin_byte hi lo = b /\ hex_to_uint8_byte hi lo = b /\
    byte.of_Z (Z.lor l (u8 (Z.shiftl h 4))) = b /\
    byte.of_Z (Z.lor (u8 (Z.shiftl h 4)) l) = b /\ 0 <= h /\ 0 <= l.
Proof. destruct b; do 4 eexists; split_and!; try reflexivity; vm_compute; discriminate. Qed.

Lemma hex_loop_spec f b rest :
  (forall b, exists hi lo, hex_byte b = [hi; lo] /\ f hi lo = b) ->
  hex_to_bin_loop f (concat (hex_byte <$> b) ++ rest) = b ++ hex_to_bin_loop f rest.
Proof.
  intros Hf. induction b as [|x b IH]; [done|]. rewrite fmap_cons. cbn [concat].
  destruct (Hf x) as (hi & lo & -> & E). cbn [app hex_to_bin_loop]. by rewrite IH, E.
Qed.

Lemma hex_length b : length (concat (hex_byte <$> b)) = (2 * length b)%nat.
Proof. induction b as [|x b IH]; [done|]. rewrite fmap_cons. simpl in *. lia. Qed.

Lemma leading_digits_spec b acc :
  leading_digits (concat (hex_byte <$> b)) acc = rev (concat (hex_byte <$> b)) ++ acc.
Proof.
  revert acc. induction b as [|x b IH]; intros acc; [done|]. rewrite fmap_cons. cbn [concat].
  destruct (hex_byte_spec x) as (hi & lo & h & l & -> & Eh & El & _ & _ & _ & _ & _ & _ & _ & Hh & Hl).
  cbn [app leading_digits rev]. unfold utils_hex_digit. rewrite Eh, El. cbn [default from_option].
  unfold id. rewrite !(proj2 (Z.eqb_neq _ _)) by lia. rewrite IH. by rewrite <- !app_assoc.
Qed.

Lemma sethex_fill_spec b room :
  (length b <= room)%nat -> sethex_fill (rev (concat (hex_byte <$> b))) room = rev b.
Proof.
  revert room. induction b as [|x b IH] using rev_ind; intros room Hl; [by destruct room|].
  rewrite fmap_app, concat_app, !rev_app_distr. cbn [fmap list_fmap concat].
  destruct (hex_byte_spec x) as (hi & lo & h & l & -> & Eh & El & _ & _ & _ & _ & _ & E & _).
  rewrite length_app in Hl. simpl in Hl. destruct room as [|room]; [lia|].
  cbn [app rev sethex_fill]. unfold utils_hex_digit at 1 2. rewrite Eh, El. cbn [default from_option].
  unfold id. rewrite E, IH by lia. done.
Qed.

Lemma is_0x_hex b : is_0x (concat (hex_byte <$> b)) = false.
Proof.
  destruct b as [|x b]; [done|]. rewrite fmap_cons. cbn [concat].
  destruct (hex_byte_spec x) as (hi & lo & h & l & -> & _ & _ & E1 & E2 & _).
  cbn [app is_0x]. rewrite E1, E2. by rewrite andb_false_r.
Qed.

Lemma parse_hex_spec b fuel :
  (length b < fuel)%nat -> parse_hex_loop fuel (concat (hex_byte <$> b)) = b.
Proof.
  revert fuel. induction b as [|x b IH]; intros [|fuel] Hf; try (simpl in Hf; lia).
  { done. }
  cbn [parse_hex_loop].
  assert (skip_0x (concat (hex_byte <$> (x :: b))) = concat (hex_byte <$> (x :: b))) as ->.
  { pose proof (is_0x_hex (x :: b)) as E0. destruct (concat (hex_byte <$> (x :: b))); [done|].
    cbn [skip_0x]. by rewrite E0. }
  rewrite fmap_cons. cbn [concat].
  destruct (hex_byte_spec x) as (hi & lo & h & l & -> & Eh & El & _ & _ & _ & _ & _ & _ & E & Hh & Hl).
  cbn [app]. unfold utils_hex_digit. rewrite Eh, El. cbn [default from_option]. unfold id.
  rewrite !(proj2 (Z.eqb_neq _ _)) by lia. rewrite E, IH by (simpl in Hf; lia). done.
Qed.

Lemma fmap_rev {A B} (f : A -> B) l : f <$> rev l = rev (f <$> l).
Proof. induction l as [|x l IH]; [done|]. cbn [rev]. by rewrite fmap_app, IH. Qed.

Fixpoint char_pairs (l : bytes) : list bytes :=
  match l with a :: b :: l => [a; b] :: char_pairs l | _ => [] end.

Lemma reverse_hex_64 h :
  length h = 64%nat -> utils_reverse_hex h 64 = concat (rev (char_pairs h)).
Proof.
  intros Hl. do 64 (destruct h as [|? h]; [done|]). destruct h; [|done]. vm_compute. reflexivity.
Qed.

Lemma char_pairs_hex b : char_pairs (concat (hex_byte <$> b)) = hex_byte <$> b.
Proof. induction b as [|x b IH]; [done|]. rewrite fmap_cons. cbn. by f_equal. Qed.

Lemma hash_to_string_spec x :
  length x = 32%nat -> hash_to_string x = Some (concat (hex_byte <$> rev x)).
Proof.
  intros Hl. unfold hash_to_string, to_string, utils_uint8_to_hex.
  rewrite (take_ge x), Hl by lia. rewrite (proj2 (Z.ltb_ge _ _)) by done.
  cbn [mbind option_bind]. f_equal.
  rewrite reverse_hex_64, char_pairs_hex by (by rewrite hex_length, Hl). f_equal.
  symmetry. apply fmap_rev.
Qed.

(** What the hexadecimal writer produces for a byte string is read back by all readers:
    the two converters (whatever follows, for the first), the parser, and, for 32 bytes
    printed in reverse order by [hash_to_string], the reader of hashes. *)
Theorem hex_round_trip b :
  utils_hex_to_bin (utils_bin_to_hex b) (2 * length b) = (b, length b) /\
  parse_hex (concat (hex_byte <$> b)) = b /\
  (2 * Z.of_nat (length b) <= TO_UINT8_HEX_BUF_LEN - 2 ->
   (utils_uint8_to_hex b ≫= utils_hex_to_uint8) = Some b) /\
  (length b = 32%nat -> utils_uint256_sethex <$> hash_to_string b = Some b).
Proof.
  split_and!.
  - unfold utils_hex_to_bin, utils_bin_to_hex.
    rewrite take_app_exact by apply hex_length. rewrite <- (app_nil_r (concat _)).
    rewrite hex_loop_spec; [by rewrite app_nil_r|]. intros x.
    destruct (hex_byte_spec x) as (hi & lo & ? & ? & E & _ & _ & _ & _ & _ & E' & _). eauto.
  - unfold parse_hex. apply parse_hex_spec. rewrite hex_length. lia.
  - intros Hl. unfold utils_uint8_to_hex, TO_UINT8_HEX_BUF_LEN in *.
    change (200001 `div` 2 - 1) with 99999. rewrite (proj2 (Z.ltb_ge _ _)) by lia. cbn [mbind option_bind]. unfold utils_hex_to_uint8.
    rewrite hex_length. rewrite (proj2 (Z.ltb_ge _ _)) by (unfold TO_UINT8_HEX_BUF_LEN; lia).
    rewrite <- (app_nil_r (concat _)). rewrite hex_loop_spec; [by rewrite app_nil_r|]. intros x.
    destruct (hex_byte_spec x) as (hi & lo & ? & ? & E & _ & _ & _ & _ & _ & _ & E' & _). eauto.
  - intros Hl. rewrite hash_to_string_spec by done. cbn [fmap option_fmap option_map]. f_equal.
    unfold utils_uint256_sethex. set (r := rev b).
    assert (length r = 32%nat) as Hr by (unfold r; by rewrite length_rev).
    assert (skip_spaces (concat (hex_byte <$> r)) = concat (hex_byte <$> r)) as ->.
    { destruct r as [|x r]; [done|]. rewrite fmap_cons. cbn [concat].
      destruct (hex_byte_spec x) as (hi & lo & ? & ? & -> & _ & _ & _ & _ & E & _).
      cbn [app skip_spaces]. by rewrite E. }
    rewrite is_0x_hex, leading_digits_spec, app_nil_r, sethex_fill_spec by lia.
    rewrite inserts_split by (rewrite length_rev; unfold zeros; rewrite length_replicate; lia).
    rewrite drop_ge by (rewrite length_rev; unfold zeros; rewrite length_replicate; lia).
    rewrite take_0, app_nil_r. unfold r. by rewrite rev_involutive.
Qed.

Lemma hex_round_trip_witness :
  utils_uint256_sethex <$> hash_to_string (replicate 31 Byte.xa5 ++ [Byte.x0f]) =
  Some (replicate 31 Byte.xa5 ++ [Byte.x0f]).
Proof. by apply (hex_round_trip (replicate 31 Byte.xa5 ++ [Byte.x0f])). Defined.

(** A prefix is not skipped but ends the string. *)
Example parse_hex_prefix : parse_hex [Byte.x30; Byte.x78; Byte.x61; Byte.x62] = [].
Proof. reflexivity. Qed.
