(* ===== verification/Tx.v ===== *)
(** * Transactions ([src/src/tx.c])

    Transactions, their wire format, identifiers and signature hashes.  The contents of
    vectors and strings are lists, as [Vector.vector_ops_refine] and
    [Cstr.cstr_ops_refine] justify; [None] is a NULL pointer.  The mutex of a
    transaction and its flag are left out.  The serialisers are written over a
    [ByteSink]; their specification is on plain bytes. *)

From S2P Require Import Prelude Mem Cstr Serialize Script Sha256.

Local Open Scope Z_scope.

Record tx_outpoint := mk_outpoint { op_hash : bytes; op_n : Z }.

Record tx_in := mk_tx_in {
  prevout : tx_outpoint;
  script_sig : option bytes;
  sequence : Z;
}.

Record tx_out := mk_tx_out { value : Z; script_pubkey : option bytes }.

Record tx := mk_tx {
  version : Z;
  vin : option (list tx_in);
  vout : option (list tx_out);
  locktime : Z;
}.

#[export] Instance tx_outpoint_eq_dec : EqDecision tx_outpoint.
Proof. solve_decision. Defined.
#[export] Instance tx_in_eq_dec : EqDecision tx_in.
Proof. solve_decision. Defined.
#[export] Instance tx_out_eq_dec : EqDecision tx_out.
Proof. solve_decision. Defined.
#[export] Instance tx_eq_dec : EqDecision tx.
Proof. solve_decision. Defined.

Definition tx_in_new : tx_in := mk_tx_in (mk_outpoint (zeros 32) UINT32_MAX) None UINT32_MAX.
Definition tx_out_new : tx_out := mk_tx_out 0 None.
Definition tx_new : tx := mk_tx 1 (Some []) (Some []) 0.

(** ** Serialisation *)

Section ser.
Context {S : Type} `{!ByteSink S}.

Definition tx_in_serialize (s : S) (i : tx_in) : S :=
  let s := ser_u256 s (op_hash (prevout i)) in
  let s := ser_u32 s (op_n (prevout i)) in
  let s := ser_varstr s (script_sig i) in
  ser_u32 s (sequence i).

Definition tx_out_serialize (s : S) (o : tx_out) : S :=
  let s := ser_s64 s (value o) in
  ser_varstr s (script_pubkey o).

(** [vec ? vec->len : 0], as the 32-bit argument of [ser_varlen]. *)
Definition vec_len {A} (v : option (list A)) : Z := u32 (Z.of_nat (length (default [] v))).

Definition tx_serialize (s : S) (t : tx) : S :=
  let s := ser_s32 s (version t) in
  let s := ser_varlen s (vec_len (vin t)) in
  let s := foldl tx_in_serialize s (default [] (vin t)) in
  let s := ser_varlen s (vec_len (vout t)) in
  let s := foldl tx_out_serialize s (default [] (vout t)) in
  ser_u32 s (locktime t).
End ser.

(** ** Deserialisation *)

(** The result of reading the previous hash is not looked at: on a short buffer the
    hash stays as it was. *)
Definition tx_in_deserialize (i : tx_in) : deser tx_in := fun buf =>
  let '(h, buf) := deser_u256 buf in
  let hash := default (op_hash (prevout i)) h in
  (n ← deser_u32;
   s ← deser_varstr;
   q ← deser_u32;
   mret (mk_tx_in (mk_outpoint hash n) (Some s) q)) buf.

Definition tx_out_deserialize (o : tx_out) : deser tx_out :=
  v ← deser_s64;
  s ← deser_varstr;
  mret (mk_tx_out v (Some s)).

(** [n] elements appended to the vector; a failure keeps those read before it. *)
Fixpoint deser_vec {A} (d : deser A) (n : nat) (v : list A) (buf : bytes)
    : bool * list A * bytes :=
  match n with
  | O => (true, v, buf)
  | S n =>
      match d buf with
      | (Some a, buf) => deser_vec d n (v ++ [a]) buf
      | (None, buf) => (false, v, buf)
      end
  end.

(** The witness stacks, read and dropped. *)
Definition deser_witness : deser unit :=
  vlen ← deser_varlen;
  deser_times (Z.to_nat vlen) deser_varstr;;
  mret tt.

Definition set_vin (t : tx) (v : list tx_in) : tx := mk_tx (version t) (Some v) (vout t) (locktime t).
Definition set_vout (t : tx) (v : list tx_out) : tx := mk_tx (version t) (vin t) (Some v) (locktime t).

(** The flag byte behind the marker; reading it may fail unnoticed. *)
Definition deser_flags : deser Z := fun buf =>
  let '(f, buf) := deser_bytes 1 buf in
  (Some (match f with Some b => le_dec b | None => 0 end), buf).

(** The input count and the flags. *)
Definition deser_vin_count (allow_witness : bool) : deser (Z * Z) :=
  vlen ← deser_varlen;
  if (vlen =? 0) && allow_witness then
    flags ← deser_flags;
    if flags =? 0 then mret (vlen, flags)
    else vlen ← deser_varlen; mret (vlen, flags)
  else mret (vlen, 0).

(** Result, transaction and consumed length; the transaction is as the failing step
    left it.  [vin] and [vout] of the argument must be vectors. *)
Definition tx_deserialize_ex (tx_serialized : bytes) (t : tx) (allow_witness : bool)
    : bool * tx * Z :=
  match deser_s32 tx_serialized with
  | (None, _) => (false, t, 0)
  | (Some v, buf) =>
    let t := mk_tx v (vin t) (vout t) (locktime t) in
    match deser_vin_count allow_witness buf with
    | (None, _) => (false, t, 0)
    | (Some (vlen, flags), buf) =>
      let '(ok, ins, buf) :=
        deser_vec (tx_in_deserialize tx_in_new) (Z.to_nat vlen) (default [] (vin t)) buf in
      let t := set_vin t ins in
      if negb ok then (false, t, 0) else
      match deser_varlen buf with
      | (None, _) => (false, t, 0)
      | (Some vlen, buf) =>
        let '(ok, outs, buf) :=
          deser_vec (tx_out_deserialize tx_out_new) (Z.to_nat vlen) (default [] (vout t)) buf in
        let t := set_vout t outs in
        if negb ok then (false, t, 0) else
        let '(w, flags, buf) :=
          if negb (Z.land flags 1 =? 0) then
            let '(w, buf) := deser_times (length ins) deser_witness buf in
            (bool_decide (is_Some w), Z.lxor flags 1, buf)
          else (true, flags, buf) in
        if negb w then (false, t, 0)
        else if negb (flags =? 0) then (false, t, 0)
        else
          match deser_u32 buf with
          | (None, _) => (false, t, 0)
          | (Some l, buf) =>
              (true, mk_tx (version t) (vin t) (vout t) l,
               Z.of_nat (length tx_serialized) - Z.of_nat (length buf))
          end
      end
    end
  end.

Definition tx_deserialize (tx_serialized : bytes) (t : tx) : bool * tx * Z :=
  tx_deserialize_ex tx_serialized t true.

(** ** Copies and identifiers *)

Definition tx_in_copy (dest src : tx_in) : tx_in :=
  mk_tx_in (prevout src) (script_sig src) (sequence src).

Definition tx_out_copy (dest src : tx_out) : tx_out :=
  mk_tx_out (value src) (script_pubkey src).

(** What [dest] held is freed; the copies are new objects. *)
Definition tx_copy (dest src : tx) : tx :=
  mk_tx (version src)
    (option_map (map (tx_in_copy tx_in_new)) (vin src))
    (option_map (map (tx_out_copy tx_out_new)) (vout src))
    (locktime src).

Definition tx_hash (t : tx) : bytes := dogecoin_hash (tx_serialize [] t).

(** [None]: [tx->vin] is NULL. *)
Definition tx_prevout_hash (t : tx) : option bytes :=
  ins ← vin t;
  Some (dogecoin_hash (foldl (fun s i => ser_u32 (ser_u256 s (op_hash (prevout i)))
                                           (op_n (prevout i))) [] ins)).

Definition tx_sequence_hash (t : tx) : option bytes :=
  ins ← vin t;
  Some (dogecoin_hash (foldl (fun s i => ser_u32 s (sequence i)) [] ins)).

(** The hash is left as it is when there is no output vector. *)
Definition tx_outputs_hash (t : tx) (hash : bytes) : bytes :=
  match vout t with
  | None => hash
  | Some outs => dogecoin_hash (foldl tx_out_serialize [] outs)
  end.

(** ** Signature hashes *)

Definition SIGHASH_ALL : Z := 1.
Definition SIGHASH_NONE : Z := 2.
Definition SIGHASH_SINGLE : Z := 3.
Definition SIGHASH_ANYONECANPAY : Z := 0x80.

(** The loop over the inputs that clears their scripts and sets that of the input to be
    signed; [cstr_resize] and [cstr_append_buf] need a string ([None]: undefined). *)
Definition set_script (new_script : bytes) (in_num : nat) (k : nat) (i : tx_in)
    : option tx_in :=
  s ← script_sig i;
  Some (mk_tx_in (prevout i) (Some (if (k =? in_num)%nat then new_script else []))
          (sequence i)).

Fixpoint set_scripts (new_script : bytes) (in_num : nat) (k : nat) (ins : list tx_in)
    : option (list tx_in) :=
  match ins with
  | [] => Some []
  | i :: ins =>
      i ← set_script new_script in_num k i;
      ins ← set_scripts new_script in_num (S k) ins;
      Some (i :: ins)
  end.

(** [if (i != in_num) tx_in->sequence = 0;] *)
Definition clear_sequences (in_num : nat) (ins : list tx_in) : list tx_in :=
  imap (fun k i => if (k =? in_num)%nat then i
                   else mk_tx_in (prevout i) (script_sig i) 0) ins.

Definition blank_out : tx_out := mk_tx_out (-1) None.

(** The bytes that are hashed: the inner [None] is the failure of SIGHASH_SINGLE
    without a matching output or of an index out of range; the outer one undefined
    behaviour. *)
Definition sighash_preimage (tx_to : tx) (fromPubKey : bytes) (in_num : nat) (hashtype : Z)
    : option (option bytes) :=
  ins ← vin tx_to;
  match vout tx_to with
  | None => Some None
  | Some _ =>
    if (length ins <=? in_num)%nat then Some None
    else
      let tx_tmp := tx_copy tx_new tx_to in
      let new_script := (script_copy_without_op_codeseperator fromPubKey []).2 in
      ins ← vin tx_tmp;
      outs ← vout tx_tmp;
      ins ← set_scripts new_script in_num 0 ins;
      let base := Z.land hashtype 0x1f in
      let modified : option (list tx_in * list tx_out) :=
        if base =? SIGHASH_NONE then Some (clear_sequences in_num ins, [])
        else if base =? SIGHASH_SINGLE then
          if (length outs <=? in_num)%nat then None
          else
            Some (clear_sequences in_num ins,
                  imap (fun k o => if (k <? in_num)%nat then blank_out else o)
                    (take (in_num + 1) outs))
        else Some (ins, outs) in
      match modified with
      | None => Some None
      | Some (ins, outs) =>
          let ins := if negb (Z.land hashtype SIGHASH_ANYONECANPAY =? 0)
                     then take 1 (drop in_num ins) else ins in
          Some (Some (ser_s32 (tx_serialize []
            (mk_tx (version tx_tmp) (Some ins) (Some outs) (locktime tx_tmp))) hashtype))
      end
  end.

(** Result and hash; the hash is not written on failure. *)
Definition tx_sighash (tx_to : tx) (fromPubKey : bytes) (in_num : nat) (hashtype : Z)
    : option (bool * option bytes) :=
  r ← sighash_preimage tx_to fromPubKey in_num hashtype;
  Some (match r with Some p => (true, Some (dogecoin_hash p)) | None => (false, None) end).

(** [None] arguments are NULL; [out32] keeps its value on failure. *)
Definition tx_sighash32 (tx_to : option tx) (fromPubKey : option bytes) (in_num : nat)
    (hashtype : Z) (out32 : option bytes) : option (bool * option bytes) :=
  match tx_to, fromPubKey, out32 with
  | Some t, Some s, Some o =>
      r ← tx_sighash t s in_num hashtype;
      Some (match r with (true, Some h) => (true, Some h) | _ => (false, out32) end)
  | _, _, _ => Some (false, out32)
  end.

(** ** Adding outputs *)

Definition add_out (t : tx) (o : tx_out) : option tx :=
  outs ← vout t; Some (set_vout t (outs ++ [o])).

Definition tx_add_data_out (t : tx) (amount : Z) (data : bytes) : option (bool * tx) :=
  if 80 <? Z.of_nat (length data) then Some (false, t)
  else
    let s := script_append_op [] OP_RETURN in
    let s := script_append_pushdata s data in
    t ← add_out t (mk_tx_out amount (Some s)); Some (true, t).

Definition tx_add_puzzle_out (t : tx) (amount : Z) (puzzle : bytes) : option (bool * tx) :=
  if 32 <? Z.of_nat (length puzzle) then Some (false, t)
  else
    let s := script_append_op [] OP_HASH256 in
    let s := script_append_pushdata s puzzle in
    let s := script_append_op s OP_EQUAL in
    t ← add_out t (mk_tx_out amount (Some s)); Some (true, t).

Definition tx_add_p2pkh_hash160_out (t : tx) (amount : Z) (hash160 : bytes) : option (bool * tx) :=
  t ← add_out t (mk_tx_out amount (Some (script_build_p2pkh hash160))); Some (true, t).

Definition tx_add_p2sh_hash160_out (t : tx) (amount : Z) (hash160 : bytes) : option (bool * tx) :=
  t ← add_out t (mk_tx_out amount (Some (script_build_p2sh hash160))); Some (true, t).

(** ** Coinbase *)

Definition tx_outpoint_is_null (o : option tx_outpoint) : bool :=
  match o with
  | None => true
  | Some o => if negb (op_n o =? UINT32_MAX) then false
              else forallb (fun b => byte.unsigned b =? 0) (op_hash o)
  end.

(** [None]: [tx->vin] is NULL. *)
Definition tx_is_coinbase (t : tx) : option bool :=
  ins ← vin t;
  Some (match ins with
        | [i] => hash_is_empty (op_hash (prevout i)) && (op_n (prevout i) =? UINT32_MAX)
        | _ => false
        end).

(** ** The wire format round trip *)

Definition tx_in_ok (i : tx_in) : Prop :=
  length (op_hash (prevout i)) = 32%nat /\ urange 32 (op_n (prevout i)) /\
  (exists s, script_sig i = Some s /\ varstr_ok s) /\ urange 32 (sequence i).

Definition tx_out_ok (o : tx_out) : Prop :=
  srange 64 (value o) /\ exists s, script_pubkey o = Some s /\ varstr_ok s.

(** A transaction the format can carry: NULL scripts apart, which are written as empty
    ones. *)
Record tx_ok (t : tx) (ins : list tx_in) (outs : list tx_out) : Prop := {
  ok_version : srange 32 (version t);
  ok_vin : vin t = Some ins;
  ok_vin_len : Z.of_nat (length ins) < 2 ^ 32;
  ok_ins : Forall tx_in_ok ins;
  ok_vout : vout t = Some outs;
  ok_vout_len : Z.of_nat (length outs) < 2 ^ 32;
  ok_outs : Forall tx_out_ok outs;
  ok_locktime : urange 32 (locktime t);
}.

#[export] Instance tx_in_appends : Appends (tx_in_serialize (S := bytes)).
Proof.
  intros s i. unfold tx_in_serialize.
  rewrite (ser_u32_appends (ser_varstr (ser_u32 (ser_u256 s _) _) _)),
    (ser_varstr_appends (ser_u32 (ser_u256 s _) _)), (ser_u32_appends (ser_u256 s _)),
    (ser_u256_appends s).
  rewrite (ser_u32_appends (ser_varstr (ser_u32 (ser_u256 [] _) _) _)),
    (ser_varstr_appends (ser_u32 (ser_u256 [] _) _)), (ser_u32_appends (ser_u256 [] _)).
  by rewrite <- !app_assoc.
Qed.

#[export] Instance tx_out_appends : Appends (tx_out_serialize (S := bytes)).
Proof.
  intros s o. unfold tx_out_serialize.
  rewrite (ser_varstr_appends (ser_s64 s _)), (ser_varstr_appends (ser_s64 [] _)).
  rewrite (ser_s64_appends s). by rewrite <- app_assoc.
Qed.

#[export] Instance tx_in_round_trip :
  RoundTrip tx_in_ok tx_in_serialize (tx_in_deserialize tx_in_new).
Proof.
  intros [[h n] ss q] rest (Hh & Hn & (s & Hs & Hok) & Hq). simpl in *. subst ss.
  unfold tx_in_serialize, tx_in_deserialize. cbn [prevout op_hash op_n script_sig sequence].
  rewrite (ser_u32_appends (ser_varstr _ _)), (ser_varstr_appends (ser_u32 _ _)),
    (ser_u32_appends (ser_u256 _ _)), <- !app_assoc.
  rewrite (u256_round_trip h _ Hh). cbn [from_option default id].
  rewrite (deser_bind_some _ _ _ _ _ (u32_round_trip n _ Hn)).
  rewrite (deser_bind_some _ _ _ _ _ (varstr_round_trip s _ Hok)).
  by rewrite (deser_bind_some _ _ _ _ _ (u32_round_trip q _ Hq)).
Qed.

#[export] Instance tx_out_round_trip :
  RoundTrip tx_out_ok tx_out_serialize (tx_out_deserialize tx_out_new).
Proof.
  intros [v ss] rest (Hv & (s & Hs & Hok)). simpl in *. subst ss.
  unfold tx_out_serialize, tx_out_deserialize. cbn [value script_pubkey].
  rewrite (ser_varstr_appends (ser_s64 _ _)), <- app_assoc.
  rewrite (deser_bind_some _ _ _ _ _ (s64_round_trip v _ Hv)).
  by rewrite (deser_bind_some _ _ _ _ _ (varstr_round_trip s _ Hok)).
Qed.

Lemma deser_vec_round_trip {A} (ok : A -> Prop) f d `{!RoundTrip ok f d, !Appends f}
    l v rest :
  Forall ok l -> deser_vec d (length l) v (foldl f [] l ++ rest) = (true, v ++ l, rest).
Proof.
  intros Hl. revert v. induction Hl as [|a l Ha Hl IH]; intros v; simpl.
  { by rewrite app_nil_r. }
  rewrite foldl_appends, <- app_assoc by done. rewrite (round_trip a _ Ha).
  rewrite IH. by rewrite <- app_assoc.
Qed.

Lemma vec_len_small {A} (l : list A) :
  Z.of_nat (length l) < 2 ^ 32 -> vec_len (Some l) = Z.of_nat (length l).
Proof. intros. unfold vec_len. simpl. apply wrap_small. unfold urange. lia. Qed.

(** The serialisation as the concatenation of its fields. *)
Lemma tx_serialize_fields t ins outs :
  tx_ok t ins outs ->
  tx_serialize [] t =
  ser_s32 [] (version t) ++ ser_varlen [] (Z.of_nat (length ins)) ++
  foldl tx_in_serialize [] ins ++ ser_varlen [] (Z.of_nat (length outs)) ++
  foldl tx_out_serialize [] outs ++ ser_u32 [] (locktime t).
Proof.
  intros [H1 H2 H3 H4 H5 H6 H7 H8]. unfold tx_serialize. rewrite H2, H5, !vec_len_small by done.
  cbn [default from_option]. unfold id.
  rewrite ser_u32_appends, foldl_appends, (ser_varlen_appends (foldl _ _ _)),
    (foldl_appends tx_in_serialize), (ser_varlen_appends (ser_s32 _ _)), <- !app_assoc by apply _.
  done.
Qed.

Lemma tx_serialize_length_ge t ins outs :
  tx_ok t ins outs -> (0 < length (tx_serialize [] t))%nat.
Proof.
  intros H. rewrite (tx_serialize_fields t ins outs H). unfold ser_s32, ser_u32, sink_append,
    bytes_sink. rewrite length_app. simpl. lia.
Qed.

Lemma deser_vin_count_plain n w rest :
  urange 32 n -> (w = true -> n <> 0) ->
  deser_vin_count w (ser_varlen [] n ++ rest) = (Some (n, 0), rest).
Proof.
  intros Hn Hw. unfold deser_vin_count.
  rewrite (deser_bind_some _ _ _ _ _ (varlen_round_trip n rest Hn)).
  destruct (Z.eqb_spec n 0), w; try done. by destruct Hw.
Qed.

(** Reading back what [tx_serialize] wrote, in front of any other bytes. *)
Lemma tx_deserialize_serialize t t0 ins outs rest w :
  tx_ok t ins outs -> vin t0 = Some [] -> vout t0 = Some [] -> (w = true -> ins <> []) ->
  tx_deserialize_ex (tx_serialize [] t ++ rest) t0 w =
  (true, t, Z.of_nat (length (tx_serialize [] t))).
Proof.
  intros Hok Hv0 Ho0 Hw. unfold tx_deserialize_ex.
  rewrite (tx_serialize_fields t ins outs Hok) at 1. rewrite <- !app_assoc.
  rewrite (s32_round_trip (version t)) by apply (ok_version _ _ _ Hok).
  cbn [vin vout locktime version].
  rewrite deser_vin_count_plain.
  2:{ pose proof (ok_vin_len _ _ _ Hok). unfold urange. lia. }
  2:{ intros Hwt. specialize (Hw Hwt). destruct ins; [done|]. simpl. lia. }
  rewrite Nat2Z.id, Hv0. cbn [default from_option]. unfold id.
  rewrite (deser_vec_round_trip tx_in_ok tx_in_serialize)
    by (apply (ok_ins _ _ _ Hok) || apply _). cbn [negb].
  rewrite (varlen_round_trip (Z.of_nat (length outs))).
  2:{ pose proof (ok_vout_len _ _ _ Hok). unfold urange. lia. }
  cbn [vin vout set_vin]. rewrite Nat2Z.id, Ho0. cbn [default from_option].
  rewrite (deser_vec_round_trip tx_out_ok tx_out_serialize)
    by (apply (ok_outs _ _ _ Hok) || apply _). cbn [negb].
  change (Z.land 0 1 =? 0) with true. cbn [negb]. rewrite Z.eqb_refl. cbn [negb].
  rewrite (u32_round_trip (locktime t)) by apply (ok_locktime _ _ _ Hok).
  rewrite length_app. f_equal; [|lia]. f_equal.
  unfold set_vout, set_vin. cbn [version vin vout locktime]. rewrite !app_nil_l.
  rewrite <- (ok_vin _ _ _ Hok), <- (ok_vout _ _ _ Hok). by destruct t.
Qed.

Lemma tx_serialize_inj t1 i1 o1 t2 i2 o2 r1 r2 :
  tx_ok t1 i1 o1 -> tx_ok t2 i2 o2 ->
  tx_serialize [] t1 ++ r1 = tx_serialize [] t2 ++ r2 -> t1 = t2 /\ r1 = r2.
Proof.
  intros H1 H2 E.
  pose proof (tx_deserialize_serialize t1 tx_new i1 o1 r1 false H1 eq_refl eq_refl) as D1.
  pose proof (tx_deserialize_serialize t2 tx_new i2 o2 r2 false H2 eq_refl eq_refl) as D2.
  rewrite E, D2 in D1; [|done..]. specialize (D1 ltac:(done)). injection D1 as -> _.
  split; [done|]. by apply app_inv_head in E.
Qed.

(** C36: a transaction written by the serialiser is read back unchanged, whatever bytes
    follow it, and the consumed length is that of the encoding.  A transaction without
    inputs is the one exception, when the reader looks for a witness marker. *)
Theorem tx_round_trip t ins outs rest allow_witness :
  tx_ok t ins outs -> (allow_witness = true -> ins <> []) ->
  tx_deserialize_ex (tx_serialize [] t ++ rest) tx_new allow_witness =
  (true, t, Z.of_nat (length (tx_serialize [] t))).
Proof. intros Hok Hw. by apply (tx_deserialize_serialize t tx_new ins outs). Qed.

Definition demo_in : tx_in := mk_tx_in (mk_outpoint (zeros 32) 7) (Some [Byte.x51]) 9.
Definition demo_out : tx_out := mk_tx_out 100 (Some [Byte.x52]).
Definition demo_tx : tx := mk_tx 1 (Some [demo_in]) (Some [demo_out]) 5.

Lemma demo_tx_ok : tx_ok demo_tx [demo_in] [demo_out].
Proof.
  split; try done.
  - apply List.Forall_cons; [|apply List.Forall_nil].
    split_and!; try done. by exists [Byte.x51].
  - apply List.Forall_cons; [|apply List.Forall_nil].
    split; [done|]. by exists [Byte.x52].
Qed.

Lemma tx_round_trip_witness :
  tx_deserialize_ex (tx_serialize [] demo_tx ++ [Byte.xff]) tx_new true =
  (true, demo_tx, Z.of_nat (length (tx_serialize [] demo_tx))).
Proof. by apply (tx_round_trip demo_tx [demo_in] [demo_out] [Byte.xff] true demo_tx_ok). Defined.

(** The exception: the output count is taken for the flag byte. *)
Example tx_without_inputs :
  let t := mk_tx 1 (Some []) (Some [demo_out]) 5 in
  (tx_deserialize (tx_serialize [] t) tx_new).1.1 = false /\
  (tx_deserialize_ex (tx_serialize [] t) tx_new false).1 = (true, t).
Proof. split; reflexivity. Qed.

(** ** What a signature commits to *)

Lemma set_scripts_spec sc n k ins :
  Forall (fun i => is_Some (script_sig i)) ins ->
  set_scripts sc n k ins =
  Some (imap (fun j i => mk_tx_in (prevout i)
          (Some (if (k + j =? n)%nat then sc else [])) (sequence i)) ins).
Proof.
  intros H. revert k. induction H as [|i ins [s Hs] H IH]; intros k; [done|].
  simpl. unfold set_script. rewrite Hs. simpl. rewrite IH. simpl.
  rewrite Nat.add_0_r. do 2 f_equal. apply imap_ext. intros j x _. simpl.
  by rewrite Nat.add_succ_r.
Qed.

Lemma copy_ins ins : map (tx_in_copy tx_in_new) ins = ins.
Proof. induction ins as [|[] ins IH]; simpl; [done|]. by rewrite IH. Qed.

Lemma copy_outs outs : map (tx_out_copy tx_out_new) outs = outs.
Proof. induction outs as [|[] outs IH]; simpl; [done|]. by rewrite IH. Qed.

(** The inputs of the transaction that is signed. *)
Definition signed_ins (sc : bytes) (n : nat) (ins : list tx_in) : list tx_in :=
  imap (fun j i => mk_tx_in (prevout i) (Some (if (j =? n)%nat then sc else []))
                     (sequence i)) ins.

(** Without SIGHASH_NONE, SIGHASH_SINGLE and SIGHASH_ANYONECANPAY. *)
Definition hashtype_all (h : Z) : Prop :=
  Z.land h 0x1f <> SIGHASH_NONE /\ Z.land h 0x1f <> SIGHASH_SINGLE /\
  Z.land h SIGHASH_ANYONECANPAY = 0.

Lemma preimage_all t ins outs sc n h :
  tx_ok t ins outs -> (n < length ins)%nat -> hashtype_all h ->
  sighash_preimage t sc n h =
  Some (Some (ser_s32 (tx_serialize [] (mk_tx (version t)
    (Some (signed_ins (script_copy_without_op_codeseperator sc []).2 n ins))
    (Some outs) (locktime t))) h)).
Proof.
  intros Hok Hn (H1 & H2 & H3). unfold sighash_preimage, tx_copy.
  rewrite (ok_vin _ _ _ Hok), (ok_vout _ _ _ Hok). cbn [mbind option_bind].
  rewrite (proj2 (Nat.leb_gt _ _)) by done. cbv zeta.
  cbn [vin vout version locktime option_map mbind option_bind].
  rewrite copy_ins, copy_outs, set_scripts_spec.
  2:{ eapply list.Forall_impl; [apply (ok_ins _ _ _ Hok)|]. intros i (_ & _ & (s & -> & _) & _).
      eauto. }
  cbn [mbind option_bind]. rewrite !(proj2 (Z.eqb_neq _ _)) by done. rewrite H3.
  by change (negb (0 =? 0)) with false.
Qed.

Lemma signed_ok t ins outs sc n :
  tx_ok t ins outs -> varstr_ok sc ->
  tx_ok (mk_tx (version t) (Some (signed_ins sc n ins)) (Some outs) (locktime t))
    (signed_ins sc n ins) outs.
Proof.
  intros [H1 H2 H3 H4 H5 H6 H7 H8] Hsc. split; try done.
  - unfold signed_ins. by rewrite length_imap.
  - apply list.Forall_forall. intros x (j & i & -> & Hi)%elem_of_lookup_imap_1.
    rewrite list.Forall_forall in H4.
    destruct (H4 i (list_elem_of_lookup_2 _ _ _ Hi)) as (A1 & A2 & A3 & A4).
    split_and!; try done. eexists. split; [done|]. by case_if.
Qed.

Lemma signed_ins_inj sc1 n1 ins1 sc2 n2 ins2 :
  signed_ins sc1 n1 ins1 = signed_ins sc2 n2 ins2 ->
  (n1 < length ins1)%nat -> sc1 <> [] ->
  n1 = n2 /\ sc1 = sc2 /\ (prevout <$> ins1) = (prevout <$> ins2) /\
  (sequence <$> ins1) = (sequence <$> ins2).
Proof.
  intros E Hn Hne.
  assert (forall sc n ins, (prevout <$> signed_ins sc n ins) = (prevout <$> ins) /\
            (sequence <$> signed_ins sc n ins) = (sequence <$> ins)) as Hproj.
  { intros. unfold signed_ins. split; apply list_eq; intros j;
      rewrite !list_lookup_fmap, list_lookup_imap; by destruct (ins !! j). }
  destruct (Hproj sc1 n1 ins1) as [P1 Q1], (Hproj sc2 n2 ins2) as [P2 Q2].
  destruct (lookup_lt_is_Some_2 ins1 n1 Hn) as [x Hx].
  assert (signed_ins sc1 n1 ins1 !! n1 = Some (mk_tx_in (prevout x) (Some sc1) (sequence x)))
    as L1.
  { unfold signed_ins. rewrite list_lookup_imap, Hx. simpl. by rewrite Nat.eqb_refl. }
  rewrite E in L1. unfold signed_ins in L1. rewrite list_lookup_imap in L1.
  destruct (ins2 !! n1) as [y|]; [|done]. simpl in L1.
  destruct (Nat.eqb_spec n1 n2) as [->|]; [|by injection L1 as _ <- _].
  injection L1 as _ <- _. rewrite <- P1, <- Q1, E. done.
Qed.

(** C37: what a signature under SIGHASH_ALL commits to. If two transactions give the same
    bytes to be hashed, for scripts that fit a string and are not empty once their
    separators are dropped, then hash type, version, lock time, all outpoints, all
    sequence numbers, all outputs, the index of the signed input and its script agree:
    only the other input scripts are left open. *)
Theorem sighash_all_commits t1 i1 o1 s1 n1 h1 t2 i2 o2 s2 n2 h2
    (sc1 := (script_copy_without_op_codeseperator s1 []).2)
    (sc2 := (script_copy_without_op_codeseperator s2 []).2) :
  tx_ok t1 i1 o1 -> tx_ok t2 i2 o2 -> (n1 < length i1)%nat -> (n2 < length i2)%nat ->
  hashtype_all h1 -> hashtype_all h2 -> srange 32 h1 -> srange 32 h2 ->
  varstr_ok sc1 -> varstr_ok sc2 -> sc1 <> [] ->
  sighash_preimage t1 s1 n1 h1 = sighash_preimage t2 s2 n2 h2 ->
  h1 = h2 /\ version t1 = version t2 /\ locktime t1 = locktime t2 /\
  (prevout <$> i1) = (prevout <$> i2) /\ (sequence <$> i1) = (sequence <$> i2) /\
  o1 = o2 /\ n1 = n2 /\ sc1 = sc2.
Proof.
  intros H1 H2 L1 L2 T1 T2 R1 R2 V1 V2 Hne E.
  rewrite (preimage_all t1 i1 o1 s1 n1 h1), (preimage_all t2 i2 o2 s2 n2 h2) in E by done.
  injection E as E. rewrite (ser_s32_appends _ h1), (ser_s32_appends _ h2) in E.
  destruct (tx_serialize_inj _ _ _ _ _ _ _ _ (signed_ok _ _ _ _ n1 H1 V1)
              (signed_ok _ _ _ _ n2 H2 V2) E) as [Et Eh].
  assert (h1 = h2) as Hh.
  { pose proof (s32_round_trip h1 [] R1) as A. pose proof (s32_round_trip h2 [] R2) as B.
    rewrite Eh, B in A. by injection A. }
  injection Et as Ev Ei Eo El.
  destruct (signed_ins_inj _ _ _ _ _ _ Ei L1 Hne) as (En & Es & Ep & Eq).
  done.
Qed.

Lemma sighash_all_commits_witness :
  let t2 := mk_tx 1 (Some [mk_tx_in (mk_outpoint (zeros 32) 7) (Some []) 9]) (Some [demo_out]) 5 in
  1 = 1 /\ version demo_tx = version t2 /\ locktime demo_tx = locktime t2 /\
  (prevout <$> [demo_in]) =
    (prevout <$> [mk_tx_in (mk_outpoint (zeros 32) 7) (Some []) 9]) /\
  (sequence <$> [demo_in]) =
    (sequence <$> [mk_tx_in (mk_outpoint (zeros 32) 7) (Some []) 9]) /\
  [demo_out] = [demo_out] /\ 0%nat = 0%nat /\
  (script_copy_without_op_codeseperator [Byte.x51] []).2 =
  (script_copy_without_op_codeseperator [Byte.x51; Byte.xab] []).2.
Proof.
  apply (sighash_all_commits demo_tx [demo_in] [demo_out] [Byte.x51] 0 1
    (mk_tx 1 (Some [mk_tx_in (mk_outpoint (zeros 32) 7) (Some []) 9]) (Some [demo_out]) 5)
    [mk_tx_in (mk_outpoint (zeros 32) 7) (Some []) 9] [demo_out] [Byte.x51; Byte.xab] 0 1);
    try done; try (by vm_compute).
  - apply demo_tx_ok.
  - destruct demo_tx_ok as [A1 A2 A3 A4 A5 A6 A7 A8]. split; try done.
    apply List.Forall_cons; [|apply List.Forall_nil]. split_and!; try done. by exists [].
Defined.

(** ** Signature hashes: the other types *)

Lemma single_outs n outs o :
  outs !! n = Some o ->
  imap (fun k o => if (k <? n)%nat then blank_out else o) (take (n + 1) outs) =
  replicate n blank_out ++ [o].
Proof.
  intros Ho. rewrite Nat.add_1_r, (take_S_r _ _ _ Ho), imap_app. simpl.
  pose proof (lookup_lt_Some _ _ _ Ho) as Hlt.
  rewrite length_take, Nat.min_l, Nat.add_0_r, Nat.ltb_irrefl by lia. f_equal.
  apply list_eq. intros j. rewrite list_lookup_imap.
  destruct (decide (j < n)%nat) as [Hj|].
  - rewrite lookup_take_lt, lookup_replicate_2 by done.
    destruct (lookup_lt_is_Some_2 outs j) as [x ->]; [lia|]. simpl.
    by rewrite (proj2 (Nat.ltb_lt _ _)).
  - rewrite lookup_take_ge by lia. symmetry. apply lookup_ge_None_2.
    rewrite length_replicate. lia.
Qed.

(** On every hash type, the call fails exactly when the index is out of range, there
    are no outputs, or SIGHASH_SINGLE has no matching output; otherwise what is hashed
    is the serialisation, followed by the hash type, of the transaction with these
    inputs and outputs: only the signed input under SIGHASH_ANYONECANPAY; the script in
    the signed input alone; the other sequence numbers zero under SIGHASH_NONE and
    SIGHASH_SINGLE; no outputs under the first and, under the second, those up to the
    index with all but the last blank. *)
Theorem sighash_preimage_spec t ins outs sc n h
    (none := Z.land h 0x1f =? SIGHASH_NONE) (single := Z.land h 0x1f =? SIGHASH_SINGLE)
    (sc' := (script_copy_without_op_codeseperator sc []).2) :
  tx_ok t ins outs ->
  sighash_preimage t sc n h =
  Some (if (length ins <=? n)%nat || (single && (length outs <=? n)%nat) then None
        else
          let input (k : nat) (i : tx_in) :=
            mk_tx_in (prevout i) (Some (if (k =? n)%nat then sc' else []))
              (if (k =? n)%nat || negb (none || single) then sequence i else 0) in
          let ins' := imap input ins in
          let ins' := if negb (Z.land h SIGHASH_ANYONECANPAY =? 0)
                      then match ins' !! n with Some i => [i] | None => [] end else ins' in
          let outs' := if none then []
                       else if single
                       then replicate n blank_out ++
                            match outs !! n with Some o => [o] | None => [] end
                       else outs in
          Some (ser_s32 (tx_serialize []
                  (mk_tx (version t) (Some ins') (Some outs') (locktime t))) h)).
Proof.
  intros Hok. unfold sighash_preimage, tx_copy.
  rewrite (ok_vin _ _ _ Hok), (ok_vout _ _ _ Hok). cbn [mbind option_bind]. cbv zeta.
  destruct (Nat.leb_spec (length ins) n) as [|Hn]; [done|].
  cbn [vin vout version locktime option_map mbind option_bind orb].
  rewrite copy_ins, copy_outs, set_scripts_spec.
  2:{ eapply list.Forall_impl; [apply (ok_ins _ _ _ Hok)|]. intros i (_ & _ & (s & -> & _) & _).
      eauto. }
  cbn [mbind option_bind]. fold none single sc'. cbn [Nat.add].
  assert (forall l : list tx_in, (if negb (Z.land h SIGHASH_ANYONECANPAY =? 0)
            then take 1 (drop n l) else l) =
          if negb (Z.land h SIGHASH_ANYONECANPAY =? 0)
          then match l !! n with Some i => [i] | None => [] end else l) as Hany.
  { intros l. case_goal; [|done]. clear. revert n.
    induction l as [|x l IH]; intros [|n]; try done. simpl. apply IH. }
  assert (clear_sequences n (imap (fun j i => mk_tx_in (prevout i)
            (Some (if (j =? n)%nat then sc' else [])) (sequence i)) ins) =
          imap (fun k i => mk_tx_in (prevout i) (Some (if (k =? n)%nat then sc' else []))
            (if (k =? n)%nat || false then sequence i else 0)) ins) as Hclear.
  { unfold clear_sequences. rewrite imap_imap || idtac.
    apply list_eq. intros j. rewrite !list_lookup_imap.
    destruct (ins !! j) as [x|]; [|done]. simpl. by case_if. }
  assert (imap (fun j i => mk_tx_in (prevout i)
            (Some (if (j =? n)%nat then sc' else [])) (sequence i)) ins =
          imap (fun k i => mk_tx_in (prevout i) (Some (if (k =? n)%nat then sc' else []))
            (if (k =? n)%nat || true then sequence i else 0)) ins) as Hkeep.
  { apply imap_ext. intros j x _. by rewrite orb_true_r. }
  assert (none = true -> single = false) as Hexcl.
  { unfold none, single. intros ->%Z.eqb_eq. done. }
  destruct none; cbn [orb negb].
  { rewrite Hexcl by done. cbn [andb]. by rewrite Hclear, Hany. }
  destruct single; cbn [andb orb negb].
  2:{ by rewrite Hkeep, Hany. }
  destruct (Nat.leb_spec (length outs) n) as [|Ho]; [done|].
  destruct (lookup_lt_is_Some_2 outs n Ho) as [o Hoo].
  by rewrite Hclear, Hany, Hoo, (single_outs n outs o Hoo).
Qed.

Lemma sighash_preimage_spec_witness :
  sighash_preimage demo_tx [Byte.x51; Byte.xab] 0 (SIGHASH_SINGLE + SIGHASH_ANYONECANPAY) =
  Some (Some (ser_s32 (tx_serialize []
    (mk_tx 1 (Some [mk_tx_in (mk_outpoint (zeros 32) 7) (Some [Byte.x51]) 9])
       (Some [demo_out]) 5)) (SIGHASH_SINGLE + SIGHASH_ANYONECANPAY))).
Proof.
  apply (sighash_preimage_spec demo_tx [demo_in] [demo_out] [Byte.x51; Byte.xab] 0
           (SIGHASH_SINGLE + SIGHASH_ANYONECANPAY) demo_tx_ok).
Defined.

(** ** Coinbase transactions *)

(** A transaction is taken for a coinbase exactly when it has one input whose index
    is all ones and the first twenty bytes of whose previous hash are zero; the other
    twelve bytes are not looked at, unlike in [tx_outpoint_is_null]. *)
Theorem tx_is_coinbase_spec t ins :
  vin t = Some ins -> Forall tx_in_ok ins ->
  exists b, tx_is_coinbase t = Some b /\
    (b = true <-> exists i, ins = [i] /\ op_n (prevout i) = UINT32_MAX /\
                   take 20 (op_hash (prevout i)) = zeros 20).
Proof.
  intros Hv Hok. unfold tx_is_coinbase. rewrite Hv. cbn [mbind option_bind].
  eexists. split; [done|]. destruct ins as [|i [|]]; [naive_solver| |naive_solver].
  apply list.Forall_singleton in Hok as (Hl & _).
  rewrite andb_true_iff, Z.eqb_eq, hash_is_empty_spec by done. naive_solver.
Qed.

Lemma tx_is_coinbase_spec_witness :
  exists b, tx_is_coinbase demo_tx = Some b /\
    (b = true <-> exists i, [demo_in] = [i] /\ op_n (prevout i) = UINT32_MAX /\
                   take 20 (op_hash (prevout i)) = zeros 20).
Proof.
  apply (tx_is_coinbase_spec demo_tx [demo_in]); [reflexivity|].
  apply (ok_ins demo_tx [demo_in] [demo_out] demo_tx_ok).
Defined.

(** A spend of a real output whose hash starts with twenty zero bytes. *)
Example coinbase_mistaken :
  let o := mk_outpoint (zeros 20 ++ replicate 12 Byte.x01) UINT32_MAX in
  tx_is_coinbase (mk_tx 1 (Some [mk_tx_in o None 0]) None 0) = Some true /\
  tx_outpoint_is_null (Some o) = false.
Proof. split; reflexivity. Qed.
