(* ===== verification/Arith256.v ===== *)
(** * 256-bit arithmetic ([src/src/arith_uint256.c])

    A number is eight 32-bit words, the lowest first.  Every operation is shown to be
    the operation on the value: addition modulo [2^256], subtraction, shifts,
    comparison and the bitwise long division. *)

From S2P Require Import Prelude Words.

Local Open Scope Z_scope.

Definition WIDTH : nat := 8.

Abbreviation arith_uint256 := (list Z).

(** [pn[i]] *)
Definition pn (a : arith_uint256) (i : nat) : Z := default 0 (a !! i).

Definition init_arith_uint256 : arith_uint256 := replicate WIDTH 0.

Definition arith_negate (input : arith_uint256) : arith_uint256 :=
  (fun w => u32 (Z.lnot w)) <$> input.

(** [a->pn[i] |= w] *)
Definition or_word (i : nat) (w : Z) (a : arith_uint256) : arith_uint256 :=
  <[i := Z.lor (pn a i) w]> a.

Definition shift_left_step (temp : arith_uint256) (k : nat) (shift : Z) (a : arith_uint256)
    (i : nat) : arith_uint256 :=
  let a := if (i + k + 1 <? WIDTH)%nat && negb (shift =? 0)
           then or_word (i + k + 1) (Z.shiftr (pn temp i) (32 - shift)) a else a in
  if (i + k <? WIDTH)%nat then or_word (i + k) (u32 (Z.shiftl (pn temp i) shift)) a else a.

Definition arith_shift_left (input : arith_uint256) (shift : Z) : arith_uint256 :=
  let k := Z.to_nat (shift / 32) in
  let shift := shift mod 32 in
  foldl (shift_left_step input k shift) (replicate WIDTH 0) (seq 0 WIDTH).

Definition shift_right_step (temp : arith_uint256) (k : nat) (shift : Z) (a : arith_uint256)
    (i : nat) : arith_uint256 :=
  let a := if (k + 1 <=? i)%nat && negb (shift =? 0)
           then or_word (i - k - 1) (u32 (Z.shiftl (pn temp i) (32 - shift))) a else a in
  if (k <=? i)%nat then or_word (i - k) (Z.shiftr (pn temp i) shift) a else a.

Definition arith_shift_right (input : arith_uint256) (shift : Z) : arith_uint256 :=
  let k := Z.to_nat (shift / 32) in
  let shift := shift mod 32 in
  foldl (shift_right_step input k shift) (replicate WIDTH 0) (seq 0 WIDTH).

(** The number, and the two flags. *)
Definition set_compact (hash : arith_uint256) (compact : Z) : arith_uint256 * bool * bool :=
  let size := Z.shiftr compact 24 in
  let word := Z.land compact 0x007fffff in
  let word' := if size <=? 3 then Z.shiftr word (8 * (3 - size)) else word in
  let hash := if size <=? 3 then <[0%nat := word']> hash
              else arith_shift_left (<[0%nat := word']> hash) (8 * (size - 3)) in
  (hash,
   negb (word' =? 0) && negb (Z.land compact 0x00800000 =? 0),
   negb (word' =? 0) && ((34 <? size) || ((0xff <? word') && (33 <? size)) ||
                         ((0xffff <? word') && (32 <? size)))).

(** [uint_to_arith] and [arith_to_uint256] on a little-endian machine. *)
Fixpoint words_of (n : nat) (bs : bytes) : list Z :=
  match n with O => [] | S n => le_dec (take 4 bs) :: words_of n (drop 4 bs) end.

Definition uint_to_arith (a : bytes) : arith_uint256 := words_of WIDTH a.
Definition arith_to_uint256 (a : arith_uint256) : bytes := concat (le_enc 4 <$> a).

(** The loops from the lowest word, with the carry and the borrow. *)
Fixpoint add_words (a b : list Z) (carry : Z) : list Z :=
  match a, b with
  | x :: a, y :: b =>
      let sum := u64 (x + y + carry) in u32 sum :: add_words a b (Z.shiftr sum 32)
  | _, _ => []
  end.

Definition add_arith_uint256 (a b : arith_uint256) : arith_uint256 := add_words a b 0.

Fixpoint sub_words (a b : list Z) (borrow : Z) : list Z :=
  match a, b with
  | x :: a, y :: b =>
      let diff := u64 (x - y - borrow) in
      u32 diff :: sub_words a b (if 2 ^ 32 - 1 <? diff then 1 else 0)
  | _, _ => []
  end.

Definition arith_uint256_is_zero (a : arith_uint256) : bool := forallb (fun w => w =? 0) a.

(** The loop from the highest word, on the reversed words. *)
Fixpoint less_than_rev (a b : list Z) : bool :=
  match a, b with
  | x :: a, y :: b => if x <? y then true else if y <? x then false else less_than_rev a b
  | _, _ => false
  end.

Definition arith_uint256_less_than (a b : arith_uint256) : bool := less_than_rev (rev a) (rev b).

Fixpoint arith_uint256_equal (a b : arith_uint256) : bool :=
  match a, b with
  | x :: a, y :: b => if negb (x =? y) then false else arith_uint256_equal a b
  | _, _ => true
  end.

Definition arith_uint256_less_than_or_equal (a b : arith_uint256) : bool :=
  arith_uint256_less_than a b || arith_uint256_equal a b.
Definition arith_uint256_greater_than (a b : arith_uint256) : bool :=
  negb (arith_uint256_less_than_or_equal a b).
Definition arith_uint256_greater_than_or_equal (a b : arith_uint256) : bool :=
  negb (arith_uint256_less_than a b).

(** [None]: the NULL for a negative result. *)
Definition sub_arith_uint256 (a b : arith_uint256) : option arith_uint256 :=
  if arith_uint256_less_than a b then None else Some (sub_words a b 0).

(** One bit of the long division: remainder and quotient.  The subtraction is only
    reached when it is defined. *)
Definition div_step (a b : arith_uint256) (st : arith_uint256 * arith_uint256) (i : nat)
    : arith_uint256 * arith_uint256 :=
  let '(remainder, quotient) := st in
  let remainder := arith_shift_left remainder 1 in
  let word_idx := (i / 32)%nat in
  let bit_idx := Z.of_nat (i mod 32) in
  let remainder :=
    if negb (Z.land (pn a word_idx) (u32 (Z.shiftl 1 bit_idx)) =? 0)
    then or_word 0 1 remainder else remainder in
  if arith_uint256_greater_than_or_equal remainder b then
    (default remainder (sub_arith_uint256 remainder b),
     or_word word_idx (u32 (Z.shiftl 1 bit_idx)) quotient)
  else (remainder, quotient).

(** [None]: the NULL for a zero divisor. *)
Definition div_arith_uint256 (a b : arith_uint256) : option arith_uint256 :=
  if arith_uint256_is_zero b then None
  else Some (foldl (div_step a b) (init_arith_uint256, init_arith_uint256)
               (rev (seq 0 (WIDTH * 32)))).2.

Definition get_low64 (a : arith_uint256) : Z :=
  Z.lor (pn a (WIDTH - 2)) (u64 (Z.shiftl (pn a (WIDTH - 1)) 32)).

(** ** Values *)

Fixpoint val (a : list Z) : Z :=
  match a with [] => 0 | w :: a => w + 2 ^ 32 * val a end.

(** Eight words in range. *)
Definition arith_ok (a : arith_uint256) : Prop := length a = WIDTH /\ Forall (urange 32) a.

#[global] Instance arith_ok_dec a : Decision (arith_ok a).
Proof. unfold arith_ok. apply _. Defined.

Lemma pow32_S n : 2 ^ (32 * Z.of_nat (S n)) = 2 ^ 32 * 2 ^ (32 * Z.of_nat n).
Proof. rewrite <- Z.pow_add_r by lia. f_equal. lia. Qed.

Lemma val_range a : Forall (urange 32) a -> 0 <= val a < 2 ^ (32 * Z.of_nat (length a)).
Proof.
  induction 1 as [|w a Hw Ha IH]; [done|]. cbn [val length].
  rewrite pow32_S. unfold urange in Hw. nia.
Qed.

Lemma val_app a b : val (a ++ b) = val a + 2 ^ (32 * Z.of_nat (length a)) * val b.
Proof.
  induction a as [|w a IH]; [simpl; lia|]. cbn [app val length]. rewrite IH, pow32_S. lia.
Qed.

Lemma val_zeros n : val (replicate n 0) = 0.
Proof. induction n; simpl; [done|]. lia. Qed.

Lemma val_take n a :
  Forall (urange 32) a -> val (take n a) = val a mod 2 ^ (32 * Z.of_nat n).
Proof.
  revert n. induction a as [|w a IH]; intros n H.
  { rewrite take_nil. simpl. by rewrite Z.mod_0_l by (apply Z.pow_nonzero; lia). }
  apply Forall_cons_1 in H as [Hw Ha]. destruct n as [|n]; [simpl; by rewrite Z.mod_1_r|].
  cbn [take val]. rewrite IH by done. rewrite pow32_S.
  unfold urange in Hw. set (m := 2 ^ (32 * Z.of_nat n)).
  assert (0 < m) by (apply Z.pow_pos_nonneg; lia).
  apply (Zmod_unique _ _ (val a / m)).
  - pose proof (Z.mod_pos_bound (val a) m ltac:(lia)). nia.
  - rewrite (Z.div_mod (val a) m) at 1 by lia. lia.
Qed.

Lemma val_drop n a :
  Forall (urange 32) a -> val (drop n a) = val a / 2 ^ (32 * Z.of_nat n).
Proof.
  revert n. induction a as [|w a IH]; intros n H.
  { rewrite drop_nil. simpl. by rewrite Z.div_0_l by (apply Z.pow_nonzero; lia). }
  apply Forall_cons_1 in H as [Hw Ha]. destruct n as [|n].
  { rewrite drop_0. change (2 ^ (32 * Z.of_nat 0)) with 1. by rewrite Z.div_1_r. }
  cbn [drop val]. rewrite IH by done. rewrite pow32_S.
  unfold urange in Hw.
  rewrite <- Z.div_div by (try lia; apply Z.pow_pos_nonneg; lia). f_equal.
  apply Z.div_unique with w; lia.
Qed.

(** ** Addition, subtraction, comparison *)

Lemma add_words_spec a b c :
  Forall (urange 32) a -> Forall (urange 32) b -> length a = length b -> 0 <= c <= 1 ->
  val (add_words a b c) = (val a + val b + c) mod 2 ^ (32 * Z.of_nat (length a)) /\
  length (add_words a b c) = length a /\ Forall (urange 32) (add_words a b c).
Proof.
  intros Ha. revert b c. induction Ha as [|x a Hx Ha IH]; intros [|y b] c Hb Hl Hc; try done.
  { split_and!; [simpl; by rewrite Z.mod_1_r|done|apply List.Forall_nil]. }
  apply Forall_cons_1 in Hb as [Hy Hb]. injection Hl as Hl. cbn [add_words val length].
  unfold urange in Hx, Hy.
  rewrite (wrap_small 64) by (unfold urange; lia). rewrite Z.shiftr_div_pow2 by lia.
  set (s := x + y + c). pose proof (Z.div_mod s (2 ^ 32) ltac:(lia)) as E.
  pose proof (Z.mod_pos_bound s (2 ^ 32) ltac:(lia)) as Hm.
  assert (0 <= s / 2 ^ 32 <= 1) as Hq by (unfold s in *; lia).
  destruct (IH b (s / 2 ^ 32) Hb Hl Hq) as (-> & Hlen & Hr).
  split_and!; [|by rewrite Hlen|by apply List.Forall_cons; [apply wrap_range|]].
  rewrite pow32_S. set (m := 2 ^ (32 * Z.of_nat (length a))).
  assert (0 < m) by (apply Z.pow_pos_nonneg; lia). unfold wrap.
  set (t := val a + val b + s / 2 ^ 32).
  pose proof (Z.div_mod t m ltac:(lia)). pose proof (Z.mod_pos_bound t m ltac:(lia)).
  apply (Zmod_unique _ _ (t / m)); [nia|]. unfold t in *. unfold s in *. nia.
Qed.

Lemma add_spec a b :
  arith_ok a -> arith_ok b ->
  arith_ok (add_arith_uint256 a b) /\ val (add_arith_uint256 a b) = (val a + val b) mod 2 ^ 256.
Proof.
  intros [La Ha] [Lb Hb].
  destruct (add_words_spec a b 0 Ha Hb) as (Hv & Hl & Hr); [congruence|lia|].
  unfold add_arith_uint256. split; [split; [congruence|done]|].
  rewrite Hv, La, Z.add_0_r. done.
Qed.

Lemma sub_words_spec a b c :
  Forall (urange 32) a -> Forall (urange 32) b -> length a = length b -> 0 <= c <= 1 ->
  val (sub_words a b c) = (val a - val b - c) mod 2 ^ (32 * Z.of_nat (length a)) /\
  length (sub_words a b c) = length a /\ Forall (urange 32) (sub_words a b c).
Proof.
  intros Ha. revert b c. induction Ha as [|x a Hx Ha IH]; intros [|y b] c Hb Hl Hc; try done.
  { split_and!; [simpl; by rewrite Z.mod_1_r|done|apply List.Forall_nil]. }
  apply Forall_cons_1 in Hb as [Hy Hb]. injection Hl as Hl. cbn [sub_words val length].
  unfold urange in Hx, Hy. rewrite (wrap_wrap 64 32) by lia.
  set (d := x - y - c).
  assert ((if 2 ^ 32 - 1 <? u64 d then 1 else 0) = - (d / 2 ^ 32)) as ->.
  { unfold d, wrap. destruct (Z.lt_ge_cases (x - y - c) 0).
    - assert ((x - y - c) / 2 ^ 32 = -1) as ->.
      { symmetry. apply Z.div_unique with (x - y - c + 2 ^ 32); lia. }
      assert ((x - y - c) mod 2 ^ 64 = x - y - c + 2 ^ 64) as ->.
      { symmetry. apply Zmod_unique with (-1); lia. }
      by rewrite (proj2 (Z.ltb_lt _ _)) by lia.
    - rewrite Z.mod_small, Z.div_small by lia.
      by rewrite (proj2 (Z.ltb_ge _ _)) by lia. }
  pose proof (Z.div_mod d (2 ^ 32) ltac:(lia)) as E.
  pose proof (Z.mod_pos_bound d (2 ^ 32) ltac:(lia)) as Hm.
  assert (0 <= - (d / 2 ^ 32) <= 1) as Hq by (unfold d in *; lia).
  destruct (IH b (- (d / 2 ^ 32)) Hb Hl Hq) as (-> & Hlen & Hr).
  split_and!; [|by rewrite Hlen|by apply List.Forall_cons; [apply wrap_range|]].
  rewrite pow32_S. set (m := 2 ^ (32 * Z.of_nat (length a))).
  assert (0 < m) by (apply Z.pow_pos_nonneg; lia). unfold wrap.
  set (t := val a - val b - - (d / 2 ^ 32)).
  pose proof (Z.div_mod t m ltac:(lia)). pose proof (Z.mod_pos_bound t m ltac:(lia)).
  apply (Zmod_unique _ _ (t / m)); [nia|]. unfold t in *. unfold d in *. nia.
Qed.

Lemma less_than_rev_spec a b :
  Forall (urange 32) a -> Forall (urange 32) b -> length a = length b ->
  less_than_rev a b = (val (rev a) <? val (rev b)).
Proof.
  intros Ha. revert b. induction Ha as [|x a Hx Ha IH]; intros [|y b] Hb Hl; try done.
  apply Forall_cons_1 in Hb as [Hy Hb]. injection Hl as Hl. cbn [less_than_rev rev].
  rewrite !val_app, !length_rev, <- Hl. cbn [val].
  assert (0 <= val (rev a) < 2 ^ (32 * Z.of_nat (length a))) as Ra.
  { rewrite <- length_rev. by apply val_range, List.Forall_rev. }
  assert (0 <= val (rev b) < 2 ^ (32 * Z.of_nat (length a))) as Rb.
  { rewrite Hl, <- length_rev. by apply val_range, List.Forall_rev. }
  set (m := 2 ^ (32 * Z.of_nat (length a))) in *. unfold urange in Hx, Hy.
  destruct (Z.ltb_spec x y); [symmetry; apply Z.ltb_lt; nia|].
  destruct (Z.ltb_spec y x); [symmetry; apply Z.ltb_ge; nia|].
  assert (x = y) as -> by lia. rewrite IH by done.
  destruct (Z.ltb_spec (val (rev a)) (val (rev b))); symmetry;
    [apply Z.ltb_lt|apply Z.ltb_ge]; nia.
Qed.

Lemma less_than_spec a b :
  arith_ok a -> arith_ok b -> arith_uint256_less_than a b = (val a <? val b).
Proof.
  intros [La Ha] [Lb Hb]. unfold arith_uint256_less_than.
  rewrite less_than_rev_spec by (rewrite ?length_rev; first [by apply List.Forall_rev|congruence]).
  by rewrite !rev_involutive.
Qed.

Lemma val_inj a b :
  Forall (urange 32) a -> Forall (urange 32) b -> length a = length b -> val a = val b -> a = b.
Proof.
  intros Ha. revert b. induction Ha as [|x a Hx Ha IH]; intros [|y b] Hb Hl E; try done.
  apply Forall_cons_1 in Hb as [Hy Hb]. injection Hl as Hl. cbn [val] in E.
  unfold urange in Hx, Hy. assert (x = y /\ val a = val b) as [-> Ev] by nia.
  f_equal. by apply IH.
Qed.

Lemma equal_spec a b :
  length a = length b -> arith_uint256_equal a b = bool_decide (a = b).
Proof.
  revert b. induction a as [|x a IH]; intros [|y b] Hl; try done. injection Hl as Hl.
  cbn [arith_uint256_equal]. rewrite IH by done. destruct (Z.eqb_spec x y) as [->|]; simpl.
  - apply bool_decide_ext. naive_solver.
  - symmetry. apply bool_decide_eq_false. naive_solver.
Qed.

Lemma is_zero_spec a : Forall (urange 32) a -> arith_uint256_is_zero a = (val a =? 0).
Proof.
  induction 1 as [|w a Hw Ha IH]; [done|]. cbn [arith_uint256_is_zero forallb val].
  change (forallb (fun w => w =? 0) a) with (arith_uint256_is_zero a). rewrite IH.
  pose proof (val_range a Ha). unfold urange in Hw.
  destruct (Z.eqb_spec w 0), (Z.eqb_spec (val a) 0), (Z.eqb_spec (w + 2 ^ 32 * val a) 0);
    simpl; lia.
Qed.

Lemma sub_spec a b :
  arith_ok a -> arith_ok b -> val b <= val a ->
  exists d, sub_arith_uint256 a b = Some d /\ arith_ok d /\ val d = val a - val b.
Proof.
  intros Ha Hb Hle. unfold sub_arith_uint256. rewrite less_than_spec by done.
  rewrite (proj2 (Z.ltb_ge _ _)) by done. eexists. split; [done|].
  destruct Ha as [La Ha], Hb as [Lb Hb].
  destruct (sub_words_spec a b 0 Ha Hb) as (Hv & Hl & Hr); [congruence|lia|].
  split; [split; [congruence|done]|]. rewrite Hv, Z.sub_0_r. apply Z.mod_small.
  pose proof (val_range a Ha). pose proof (val_range b Hb). lia.
Qed.

Lemma negate_spec a : arith_ok a -> arith_ok (arith_negate a) /\ val (arith_negate a) = 2 ^ 256 - 1 - val a.
Proof.
  intros [La Ha]. unfold arith_negate.
  assert (forall l, Forall (urange 32) l -> Forall (urange 32) ((fun w => u32 (Z.lnot w)) <$> l) /\
    val ((fun w => u32 (Z.lnot w)) <$> l) = 2 ^ (32 * Z.of_nat (length l)) - 1 - val l) as H.
  { induction 1 as [|w l Hw Hl [IH1 IH2]]; [split; [apply List.Forall_nil|done]|].
    assert (u32 (Z.lnot w) = 2 ^ 32 - 1 - w) as E.
    { unfold urange in Hw. unfold wrap, Z.lnot. symmetry. apply Zmod_unique with (-1); lia. }
    rewrite fmap_cons. split.
    - apply List.Forall_cons; [apply wrap_range; lia|exact IH1].
    - cbn [val length]. rewrite IH2, E, pow32_S. lia. }
  destruct (H a Ha) as [H1 H2]. split; [split; [by rewrite length_fmap|done]|].
  rewrite H2, La. done.
Qed.

(** ** Shifts *)

(** A word split by a shift of [s] bits to the left: what stays and what moves on. *)
Lemma word_shift_left w s :
  urange 32 w -> 0 < s < 32 ->
  w * 2 ^ s = u32 (Z.shiftl w s) + 2 ^ 32 * Z.shiftr w (32 - s) /\
  0 <= Z.shiftr w (32 - s) < 2 ^ s /\ (2 ^ s | u32 (Z.shiftl w s)).
Proof.
  intros Hw Hs. unfold urange in Hw. rewrite Z.shiftl_mul_pow2, Z.shiftr_div_pow2 by lia.
  assert (2 ^ 32 = 2 ^ (32 - s) * 2 ^ s) as E by (rewrite <- Z.pow_add_r by lia; f_equal; lia).
  assert (0 < 2 ^ s /\ 0 < 2 ^ (32 - s)) as [P1 P2]
    by (split; apply Z.pow_pos_nonneg; lia).
  assert (u32 (w * 2 ^ s) = w mod 2 ^ (32 - s) * 2 ^ s) as ->
    by (unfold wrap; rewrite E; apply Z.mul_mod_distr_r; lia).
  pose proof (Z.div_mod w (2 ^ (32 - s)) ltac:(lia)).
  pose proof (Z.mod_pos_bound w (2 ^ (32 - s)) ltac:(lia)).
  split_and!.
  - rewrite E. nia.
  - apply Z.div_pos; lia.
  - apply Z.div_lt_upper_bound; nia.
  - by exists (w mod 2 ^ (32 - s)).
Qed.

(** The words shifted by [s < 32] bits, with the bits that come from below. *)
Fixpoint shl_words (prev s : Z) (a : list Z) : list Z :=
  match a with
  | [] => []
  | w :: a => Z.lor prev (u32 (Z.shiftl w s)) :: shl_words (Z.shiftr w (32 - s)) s a
  end.

Fixpoint shl_out (prev s : Z) (a : list Z) : Z :=
  match a with [] => prev | w :: a => shl_out (Z.shiftr w (32 - s)) s a end.

Lemma shiftr_32 w : urange 32 w -> Z.shiftr w 32 = 0.
Proof. intros Hw. rewrite Z.shiftr_div_pow2 by lia. by apply Z.div_small. Qed.

Lemma shl_words_val prev s a :
  Forall (urange 32) a -> 0 <= s < 32 -> 0 <= prev < 2 ^ s ->
  val (shl_words prev s a) + 2 ^ (32 * Z.of_nat (length a)) * shl_out prev s a =
  val a * 2 ^ s + prev /\ Forall (urange 32) (shl_words prev s a) /\
  length (shl_words prev s a) = length a.
Proof.
  intros Ha Hs. revert prev. induction Ha as [|w a Hw Ha IH]; intros prev Hp.
  { split_and!; [simpl; lia|apply List.Forall_nil|done]. }
  cbn [shl_words shl_out val length].
  assert (w * 2 ^ s = u32 (Z.shiftl w s) + 2 ^ 32 * Z.shiftr w (32 - s) /\
          0 <= Z.shiftr w (32 - s) < 2 ^ s /\ (2 ^ s | u32 (Z.shiftl w s))) as (E & Hh & Hd).
  { destruct (decide (s = 0)) as [->|]; [|apply word_shift_left; lia || done].
    rewrite Z.sub_0_r, shiftr_32, Z.shiftl_0_r, wrap_small by done.
    split_and!; [lia|lia|lia|apply Z.divide_1_l]. }
  destruct (IH _ Hh) as (IHv & IHr & IHl).
  assert (Z.lor prev (u32 (Z.shiftl w s)) = u32 (Z.shiftl w s) + prev) as El.
  { rewrite Z.lor_comm. apply lor_disjoint with s; [lia|done|done]. }
  assert (urange 32 prev).
  { unfold urange. assert (2 ^ s < 2 ^ 32) by (apply Z.pow_lt_mono_r; lia). lia. }
  split_and!.
  - rewrite El, pow32_S. nia.
  - apply List.Forall_cons; [|done]. apply lor_range; [lia|done|apply wrap_range; lia].
  - by rewrite IHl.
Qed.

Lemma insert_or_zero a i : or_word i 0 a = a.
Proof.
  unfold or_word, pn. rewrite Z.lor_0_r. destruct (a !! i) as [w|] eqn:E; simpl.
  - by apply list_insert_id.
  - apply list_insert_ge. by apply lookup_ge_None.
Qed.

Lemma arith_length_8 (a : list Z) :
  length a = 8%nat ->
  exists a0 a1 a2 a3 a4 a5 a6 a7, a = [a0; a1; a2; a3; a4; a5; a6; a7].
Proof.
  destruct a as [|? [|? [|? [|? [|? [|? [|? [|? []]]]]]]]]; try done. eauto 10.
Qed.

(** The loop with the carry always stored: the guard only avoids a shift by 32. *)
Definition shift_left_step' (temp : arith_uint256) (k : nat) (s : Z) (a : arith_uint256)
    (i : nat) : arith_uint256 :=
  let a := if (i + k + 1 <? WIDTH)%nat
           then or_word (i + k + 1) (Z.shiftr (pn temp i) (32 - s)) a else a in
  if (i + k <? WIDTH)%nat then or_word (i + k) (u32 (Z.shiftl (pn temp i) s)) a else a.

Lemma pn_range a i : Forall (urange 32) a -> urange 32 (pn a i).
Proof.
  intros Ha. unfold pn. destruct (a !! i) as [w|] eqn:E; simpl; [|done].
  rewrite list.Forall_forall in Ha. apply Ha. by apply list_elem_of_lookup_2 with i.
Qed.

Lemma shift_left_step_guard temp k s a i :
  Forall (urange 32) temp -> shift_left_step temp k s a i = shift_left_step' temp k s a i.
Proof.
  intros Ht. unfold shift_left_step, shift_left_step'.
  destruct (Z.eqb_spec s 0) as [->|]; [|by rewrite andb_true_r].
  rewrite andb_false_r, Z.sub_0_r, (shiftr_32 (pn temp i)), insert_or_zero by (by apply pn_range).
  by destruct (i + k + 1 <? WIDTH)%nat.
Qed.

Lemma shift_left_loop temp k s :
  length temp = WIDTH ->
  foldl (shift_left_step' temp k s) (replicate WIDTH 0) (seq 0 WIDTH) =
  take WIDTH (replicate k 0 ++ shl_words 0 s temp).
Proof.
  intros Hl. destruct (arith_length_8 temp Hl) as (a0&a1&a2&a3&a4&a5&a6&a7&->).
  do 8 (destruct k as [|k];
        [cbn -[Z.lor Z.shiftr Z.shiftl wrap]; unfold or_word, pn;
         cbn -[Z.lor Z.shiftr Z.shiftl wrap]; by rewrite ?Z.lor_0_l|]).
  by cbn -[Z.lor Z.shiftr Z.shiftl wrap].
Qed.

Lemma replicate_zero_range n : Forall (urange 32) (replicate n 0).
Proof. induction n; simpl; [apply List.Forall_nil|by apply List.Forall_cons]. Qed.

Lemma shift_left_spec a shift :
  arith_ok a -> 0 <= shift ->
  arith_ok (arith_shift_left a shift) /\
  val (arith_shift_left a shift) = (val a * 2 ^ shift) mod 2 ^ 256.
Proof.
  intros [La Ha] Hs. unfold arith_shift_left.
  set (k := Z.to_nat (shift / 32)). set (s := shift mod 32).
  pose proof (Z.mod_pos_bound shift 32 ltac:(lia)) as Hm. fold s in Hm.
  assert (foldl (shift_left_step a k s) (replicate WIDTH 0) (seq 0 WIDTH) =
          take WIDTH (replicate k 0 ++ shl_words 0 s a)) as ->.
  { rewrite <- shift_left_loop by done. generalize (replicate WIDTH 0), (seq 0 WIDTH).
    intros x l. revert x. induction l as [|i l IH]; intros x; [done|]. cbn [foldl].
    by rewrite shift_left_step_guard, IH. }
  destruct (shl_words_val 0 s a Ha Hm) as (Hv & Hr & Hl).
  { split; [lia|]. apply Z.pow_pos_nonneg; lia. }
  assert (Forall (urange 32) (replicate k 0 ++ shl_words 0 s a)) as Hr'.
  { apply list.Forall_app. split; [apply replicate_zero_range|done]. }
  split.
  - split; [|by apply list.Forall_take].
    rewrite length_take, length_app, length_replicate, Hl, La. lia.
  - rewrite val_take by done. change (32 * Z.of_nat WIDTH) with 256.
    rewrite val_app, val_zeros, length_replicate, Z.add_0_l.
    assert (shift = 32 * Z.of_nat k + s) as E.
    { unfold k, s. pose proof (Z.div_mod shift 32 ltac:(lia)).
      rewrite Z2Nat.id by (apply Z.div_pos; lia). lia. }
    rewrite E at 1. rewrite Z.pow_add_r by lia.
    rewrite La in Hv. change (32 * Z.of_nat WIDTH) with 256 in Hv.
    replace (val a * (2 ^ (32 * Z.of_nat k) * 2 ^ s)) with
      (2 ^ (32 * Z.of_nat k) * val (shl_words 0 s a) +
       2 ^ (32 * Z.of_nat k) * shl_out 0 s a * 2 ^ 256) by lia.
    by rewrite Z.mod_add by lia.
Qed.

(** To the right: every word takes the low bits of the one above it. *)
Fixpoint shr_words (s : Z) (a : list Z) : list Z :=
  match a with
  | [] => []
  | w :: a =>
      match a with
      | [] => [Z.shiftr w s]
      | w' :: _ => Z.lor (Z.shiftr w s) (u32 (Z.shiftl w' (32 - s))) :: shr_words s a
      end
  end.

Lemma word_shift_right w s :
  urange 32 w -> 0 <= s < 32 ->
  w = 2 ^ s * Z.shiftr w s + w mod 2 ^ s /\ 0 <= Z.shiftr w s < 2 ^ (32 - s) /\
  2 ^ s * u32 (Z.shiftl w (32 - s)) = 2 ^ 32 * (w mod 2 ^ s) /\
  (2 ^ (32 - s) | u32 (Z.shiftl w (32 - s))).
Proof.
  intros Hw Hs. unfold urange in Hw. rewrite Z.shiftl_mul_pow2, Z.shiftr_div_pow2 by lia.
  assert (2 ^ 32 = 2 ^ s * 2 ^ (32 - s)) as E by (rewrite <- Z.pow_add_r by lia; f_equal; lia).
  assert (0 < 2 ^ s /\ 0 < 2 ^ (32 - s)) as [P1 P2] by (split; apply Z.pow_pos_nonneg; lia).
  assert (u32 (w * 2 ^ (32 - s)) = w mod 2 ^ s * 2 ^ (32 - s)) as ->
    by (unfold wrap; rewrite E; apply Z.mul_mod_distr_r; lia).
  pose proof (Z.div_mod w (2 ^ s) ltac:(lia)).
  split_and!; [lia|apply Z.div_pos; lia|apply Z.div_lt_upper_bound; nia|rewrite E; ring|].
  by exists (w mod 2 ^ s).
Qed.

Lemma shr_words_val s a :
  Forall (urange 32) a -> 0 <= s < 32 ->
  val a = 2 ^ s * val (shr_words s a) + default 0 (head a) mod 2 ^ s /\
  Forall (urange 32) (shr_words s a) /\ length (shr_words s a) = length a.
Proof.
  intros Ha Hs. assert (2 ^ (32 - s) <= 2 ^ 32) by (apply Z.pow_le_mono_r; lia).
  induction Ha as [|w a Hw Ha IH].
  { split_and!; [simpl; rewrite Z.mod_0_l; [lia|apply Z.pow_nonzero; lia]|
                 apply List.Forall_nil|done]. }
  destruct (word_shift_right w s Hw Hs) as (E & Hr & _ & _). destruct a as [|w' a].
  { split_and!; [cbn [shr_words val head default from_option]; unfold id; clear - E; nia| |done].
    apply List.Forall_cons; [unfold urange; lia|apply List.Forall_nil]. }
  destruct IH as (IHv & IHr & IHl). apply Forall_cons_1 in Ha as [Hw' Ha].
  destruct (word_shift_right w' s Hw' Hs) as (_ & _ & E' & Hd).
  change (shr_words s (w :: w' :: a)) with
    (Z.lor (Z.shiftr w s) (u32 (Z.shiftl w' (32 - s))) :: shr_words s (w' :: a)).
  split_and!.
  - change (val (w :: w' :: a)) with (w + 2 ^ 32 * val (w' :: a)). rewrite IHv.
    rewrite Z.lor_comm, (lor_disjoint _ _ (32 - s)) by (done || lia).
    change (val (?x :: shr_words s (w' :: a))) with (x + 2 ^ 32 * val (shr_words s (w' :: a))).
    cbn [head default from_option]. unfold id.
    clear - E E'. nia.
  - apply List.Forall_cons; [|done]. apply lor_range; [lia|unfold urange; lia|].
    apply wrap_range. lia.
  - cbn [length]. by rewrite IHl.
Qed.

Definition shift_right_step' (temp : arith_uint256) (k : nat) (s : Z) (a : arith_uint256)
    (i : nat) : arith_uint256 :=
  let a := if (k + 1 <=? i)%nat
           then or_word (i - k - 1) (u32 (Z.shiftl (pn temp i) (32 - s))) a else a in
  if (k <=? i)%nat then or_word (i - k) (Z.shiftr (pn temp i) s) a else a.

Lemma shift_right_step_guard temp k s a i :
  Forall (urange 32) temp -> shift_right_step temp k s a i = shift_right_step' temp k s a i.
Proof.
  intros Ht. unfold shift_right_step, shift_right_step'.
  destruct (Z.eqb_spec s 0) as [->|]; [|by rewrite andb_true_r].
  rewrite andb_false_r, Z.sub_0_r.
  assert (u32 (Z.shiftl (pn temp i) 32) = 0) as ->.
  { rewrite Z.shiftl_mul_pow2 by lia. unfold wrap. by rewrite Z.mod_mul. }
  rewrite insert_or_zero. by destruct (k + 1 <=? i)%nat.
Qed.

Lemma shift_right_loop temp k s :
  length temp = WIDTH ->
  foldl (shift_right_step' temp k s) (replicate WIDTH 0) (seq 0 WIDTH) =
  take WIDTH (drop k (shr_words s temp) ++ replicate k 0).
Proof.
  intros Hl. destruct (arith_length_8 temp Hl) as (a0&a1&a2&a3&a4&a5&a6&a7&->).
  do 8 (destruct k as [|k];
        [cbn -[Z.lor Z.shiftr Z.shiftl wrap]; unfold or_word, pn;
         cbn -[Z.lor Z.shiftr Z.shiftl wrap]; by rewrite ?Z.lor_0_l|]).
  cbn -[Z.lor Z.shiftr Z.shiftl wrap]. by rewrite drop_nil.
Qed.

Lemma shift_right_spec a shift :
  arith_ok a -> 0 <= shift ->
  arith_ok (arith_shift_right a shift) /\ val (arith_shift_right a shift) = val a / 2 ^ shift.
Proof.
  intros [La Ha] Hs. unfold arith_shift_right.
  set (k := Z.to_nat (shift / 32)). set (s := shift mod 32).
  pose proof (Z.mod_pos_bound shift 32 ltac:(lia)) as Hm. fold s in Hm.
  assert (foldl (shift_right_step a k s) (replicate WIDTH 0) (seq 0 WIDTH) =
          take WIDTH (drop k (shr_words s a) ++ replicate k 0)) as ->.
  { rewrite <- shift_right_loop by done. generalize (replicate WIDTH 0), (seq 0 WIDTH).
    intros x l. revert x. induction l as [|i l IH]; intros x; [done|]. cbn [foldl].
    by rewrite shift_right_step_guard, IH. }
  destruct (shr_words_val s a Ha Hm) as (Hv & Hr & Hl).
  assert (0 < 2 ^ s) by (apply Z.pow_pos_nonneg; lia).
  assert (Forall (urange 32) (drop k (shr_words s a) ++ replicate k 0)) as Hr'.
  { apply list.Forall_app. split; [by apply list.Forall_drop|apply replicate_zero_range]. }
  split.
  - split; [|by apply list.Forall_take].
    rewrite length_take, length_app, length_drop, length_replicate, Hl, La. lia.
  - rewrite val_take by done. change (32 * Z.of_nat WIDTH) with 256.
    rewrite val_app, val_zeros, Z.mul_0_r, Z.add_0_r, val_drop by done.
    assert (shift = 32 * Z.of_nat k + s) as E.
    { unfold k, s. pose proof (Z.div_mod shift 32 ltac:(lia)).
      rewrite Z2Nat.id by (apply Z.div_pos; lia). lia. }
    assert (val (shr_words s a) = val a / 2 ^ s) as Ev.
    { apply Z.div_unique with (default 0 (head a) mod 2 ^ s); [|done].
      left. apply Z.mod_pos_bound. lia. }
    rewrite Ev, Z.div_div, <- Z.pow_add_r, (Z.add_comm s), <- E
      by (try lia; apply Z.pow_pos_nonneg; lia).
    apply Z.mod_small. pose proof (val_range a Ha) as Hva. rewrite La in Hva.
    change (32 * Z.of_nat WIDTH) with 256 in Hva.
    assert (0 < 2 ^ shift) by (apply Z.pow_pos_nonneg; lia).
    split; [apply Z.div_pos; lia|]. apply Z.div_lt_upper_bound; nia.
Qed.

(** ** Single words *)

Lemma pn_val a i : Forall (urange 32) a -> pn a i = (val a / 2 ^ (32 * Z.of_nat i)) mod 2 ^ 32.
Proof.
  intros Ha. rewrite <- val_drop by done. unfold pn.
  destruct (a !! i) as [w|] eqn:E.
  - rewrite (drop_S _ _ _ E). cbn [val default from_option]. unfold id.
    rewrite list.Forall_forall in Ha. pose proof (Ha w (list_elem_of_lookup_2 _ _ _ E)) as Hw.
    rewrite (Z.mul_comm (2 ^ 32)), Z.mod_add by lia. symmetry. by apply Z.mod_small.
  - apply lookup_ge_None in E. by rewrite drop_ge by done.
Qed.

Lemma or_word_spec a i v :
  arith_ok a -> (i < WIDTH)%nat -> urange 32 v -> Z.lor (pn a i) v = pn a i + v ->
  arith_ok (or_word i v a) /\ val (or_word i v a) = val a + 2 ^ (32 * Z.of_nat i) * v.
Proof.
  intros [La Ha] Hi Hv Hor. unfold or_word.
  assert (urange 32 (Z.lor (pn a i) v)) as Hr by (apply lor_range; [lia|by apply pn_range|done]).
  split; [split; [by rewrite length_insert|by apply list.Forall_insert]|].
  destruct (lookup_lt_is_Some_2 a i) as [w Hw]; [lia|].
  assert (pn a i = w) as Ep by (unfold pn; by rewrite Hw). rewrite Hor, Ep.
  rewrite insert_take_drop by lia. rewrite <- (take_drop_middle a i w Hw) at 3.
  rewrite !val_app. cbn [val]. rewrite length_take, Nat.min_l by lia. lia.
Qed.

Lemma pn_testbit a i j :
  Forall (urange 32) a -> 0 <= j < 32 ->
  Z.testbit (pn a i) j = Z.testbit (val a) (32 * Z.of_nat i + j).
Proof.
  intros Ha Hj. rewrite pn_val by done. rewrite Z.mod_pow2_bits_low by lia.
  rewrite Z.div_pow2_bits by lia. f_equal. lia.
Qed.

Lemma lor_pow2_add x j : 0 <= j -> Z.testbit x j = false -> Z.lor x (2 ^ j) = x + 2 ^ j.
Proof.
  intros Hj Hx. assert (Z.land x (2 ^ j) = 0) as E.
  { apply Z.eqb_eq. by rewrite land_pow2_eqb, Hx. }
  by rewrite <- Z.lxor_lor, Z.add_nocarry_lxor.
Qed.

(** Setting a bit that is not set adds its weight. *)
Lemma or_bit_spec a i j :
  arith_ok a -> (i < WIDTH)%nat -> 0 <= j < 32 ->
  Z.testbit (val a) (32 * Z.of_nat i + j) = false ->
  arith_ok (or_word i (2 ^ j) a) /\
  val (or_word i (2 ^ j) a) = val a + 2 ^ (32 * Z.of_nat i + j).
Proof.
  intros Ha Hi Hj Hb. rewrite Z.pow_add_r by lia. apply or_word_spec; [done|done| |].
  - split; [apply Z.pow_nonneg; lia|apply Z.pow_lt_mono_r; lia].
  - apply lor_pow2_add; [lia|]. rewrite pn_testbit; [done|apply Ha|done].
Qed.

Lemma arith_ok_range a : arith_ok a -> 0 <= val a < 2 ^ 256.
Proof. intros [La Ha]. pose proof (val_range a Ha) as H. by rewrite La in H. Qed.

Lemma init_ok : arith_ok init_arith_uint256.
Proof. split; [done|apply replicate_zero_range]. Qed.

Lemma testbit_mul_pow2 x n m : 0 <= n < m -> Z.testbit (x * 2 ^ m) n = false.
Proof. intros. apply Z.mul_pow2_bits_low. lia. Qed.

Lemma div_pow2_S A n :
  0 <= A -> A / 2 ^ Z.of_nat n = 2 * (A / 2 ^ Z.of_nat (S n)) + Z.b2z (Z.testbit A (Z.of_nat n)).
Proof.
  intros HA. rewrite Z.testbit_spec' by lia.
  rewrite Nat2Z.inj_succ, Z.pow_succ_r by lia.
  rewrite (Z.mul_comm 2 (2 ^ _)), <- Z.div_div by (try lia; apply Z.pow_pos_nonneg; lia).
  apply Z.div_mod. lia.
Qed.

(** The long division after the bits from [n] on. *)
Definition div_inv (A B : Z) (n : nat) (st : arith_uint256 * arith_uint256) : Prop :=
  arith_ok st.1 /\ arith_ok st.2 /\
  val st.1 = (A / 2 ^ Z.of_nat n) mod B /\
  val st.2 = (A / 2 ^ Z.of_nat n) / B * 2 ^ Z.of_nat n.

Lemma div_step_spec a b n st :
  arith_ok a -> arith_ok b -> 0 < val b -> (n < 256)%nat ->
  div_inv (val a) (val b) (S n) st -> div_inv (val a) (val b) n (div_step a b st n).
Proof.
  intros Ha Hb HB Hn (Hr & Hq & Er & Eq). destruct st as [r q]. cbn [fst snd] in *.
  set (A := val a) in *. set (B := val b) in *.
  pose proof (arith_ok_range a Ha) as RA. fold A in RA.
  pose proof (div_pow2_S A n ltac:(lia)) as EA. set (T := A / 2 ^ Z.of_nat (S n)) in *.
  assert (Z.of_nat n = 32 * Z.of_nat (n / 32) + Z.of_nat (n mod 32)) as En
    by (pose proof (Nat.div_mod_eq n 32); lia).
  assert (0 <= Z.of_nat (n mod 32) < 32) as Hj
    by (pose proof (Nat.mod_upper_bound n 32 ltac:(lia)); lia).
  assert (n / 32 < WIDTH)%nat as Hi by (apply Nat.Div0.div_lt_upper_bound; unfold WIDTH; lia).
  assert (0 <= T /\ 2 * T + 1 < 2 ^ 256 + 1) as [HT0 HT].
  { assert (0 < 2 ^ Z.of_nat n) by (apply Z.pow_pos_nonneg; lia).
    assert (A / 2 ^ Z.of_nat n <= A) by (apply Z.div_le_upper_bound; nia).
    split; [apply Z.div_pos; [lia|apply Z.pow_pos_nonneg; lia]|].
    destruct (Z.testbit A (Z.of_nat n)); simpl in EA; lia. }
  pose proof (Z.mod_pos_bound T B HB) as Hmod. pose proof (Z.mod_le T B HT0 HB) as Hmle.
  unfold div_step. rewrite Z.shiftl_1_l.
  assert (u32 (2 ^ Z.of_nat (n mod 32)) = 2 ^ Z.of_nat (n mod 32)) as ->.
  { apply wrap_small. split; [apply Z.pow_nonneg; lia|apply Z.pow_lt_mono_r; lia]. }
  rewrite land_pow2_eqb, negb_involutive, pn_testbit, <- En by (apply Ha || lia). fold A.
  destruct (shift_left_spec r 1 Hr ltac:(lia)) as [Hs Es].
  set (r1 := arith_shift_left r 1) in *. rewrite Er, Z.mod_small in Es by lia.
  set (t := Z.testbit A (Z.of_nat n)) in *.
  assert (exists r2, (if t then or_word 0 1 r1 else r1) = r2 /\ arith_ok r2 /\
            val r2 = 2 * (T mod B) + Z.b2z t) as (r2 & -> & H2 & E2).
  { change (2 ^ 1) with 2 in Es. destruct t; eexists; (split; [done|]); [|split; [done|rewrite Es; cbn [Z.b2z]; lia]].
    destruct (or_bit_spec r1 0 0) as [H1 H2]; [done|unfold WIDTH; lia|lia| |].
    { rewrite Es. apply (testbit_mul_pow2 _ 0 1). lia. }
    change (2 ^ 0) with 1 in H1, H2. split; [exact H1|]. rewrite H2, Es. cbn [Z.b2z]. lia. }
  unfold arith_uint256_greater_than_or_equal. rewrite less_than_spec by done. fold B.
  rewrite E2. set (v := 2 * (T mod B) + Z.b2z t) in *.
  assert (0 <= Z.b2z t <= 1) as Ht by (destruct t; simpl; lia).
  assert (2 * T + Z.b2z t = B * (2 * (T / B)) + v) as EV
    by (pose proof (Z.div_mod T B ltac:(lia)); lia).
  assert (2 ^ Z.of_nat (S n) = 2 * 2 ^ Z.of_nat n) as Ep
    by (rewrite Nat2Z.inj_succ, Z.pow_succ_r by lia; lia).
  destruct (Z.ltb_spec v B); cbn [negb]; unfold div_inv; cbn [fst snd].
  - split_and!; [done|done| |].
    + rewrite E2, EA. apply Z.mod_unique with (2 * (T / B)); lia.
    + rewrite Eq, EA, <- (Z.div_unique (2 * T + Z.b2z t) B (2 * (T / B)) v) by lia.
      rewrite Ep. lia.
  - destruct (sub_spec r2 b H2 Hb) as (d & -> & Hd & Ed); [fold B; lia|].
    cbn [default from_option]. unfold id.
    destruct (or_bit_spec q (n / 32) (Z.of_nat (n mod 32))) as [Hq' Eq'];
      [done|done|done| |].
    { rewrite <- En, Eq. apply testbit_mul_pow2. lia. }
    rewrite <- En in Eq'. fold B in Ed.
    split_and!; [done|done| |].
    + rewrite Ed, E2, EA. apply Z.mod_unique with (2 * (T / B) + 1); unfold v in *; lia.
    + rewrite Eq', Eq, EA, <- (Z.div_unique (2 * T + Z.b2z t) B (2 * (T / B) + 1) (v - B)) by (unfold v in *; lia).
      rewrite Ep. lia.
Qed.

Lemma div_loop_spec a b n st :
  arith_ok a -> arith_ok b -> 0 < val b -> (n <= 256)%nat ->
  div_inv (val a) (val b) n st ->
  div_inv (val a) (val b) 0 (foldl (div_step a b) st (rev (seq 0 n))).
Proof.
  intros Ha Hb HB. revert st. induction n as [|n IH]; intros st Hn Hi; [done|].
  rewrite seq_S, rev_app_distr. cbn [rev app foldl].
  apply IH; [lia|]. apply div_step_spec; auto. 
Qed.

Lemma div_spec a b :
  arith_ok a -> arith_ok b -> val b <> 0 ->
  exists q, div_arith_uint256 a b = Some q /\ arith_ok q /\ val q = val a / val b.
Proof.
  intros Ha Hb HB. pose proof (arith_ok_range a Ha) as Ra. pose proof (arith_ok_range b Hb) as Rb.
  unfold div_arith_uint256. rewrite is_zero_spec by apply Hb.
  rewrite (proj2 (Z.eqb_neq _ _) HB).
  destruct (div_loop_spec a b 256 (init_arith_uint256, init_arith_uint256) Ha Hb)
    as (_ & Hq & _ & Eq); [lia|lia| |].
  { unfold div_inv. cbn [fst snd]. rewrite Z.div_small by done.
    rewrite Z.mod_0_l, Z.div_0_l by lia. split_and!; [apply init_ok|apply init_ok|done|done]. }
  eexists. split; [done|]. split; [exact Hq|].
  change (WIDTH * 32)%nat with 256%nat. rewrite Eq. change (2 ^ Z.of_nat 0) with 1.
  by rewrite Z.mul_1_r, Z.div_1_r.
Qed.

(** ** Conversions *)

Lemma words_of_spec n bs :
  length bs = (4 * n)%nat ->
  val (words_of n bs) = le_dec bs /\ Forall (urange 32) (words_of n bs) /\
  length (words_of n bs) = n /\ concat (le_enc 4 <$> words_of n bs) = bs.
Proof.
  revert bs. induction n as [|n IH]; intros bs Hl.
  { destruct bs; [|done]. split_and!; [done|apply List.Forall_nil|done|done]. }
  destruct (IH (drop 4 bs)) as (Ev & Hr & El & Ec); [rewrite length_drop; lia|].
  assert (length (take 4 bs) = 4%nat) as H4 by (rewrite length_take; lia).
  cbn [words_of val length]. rewrite fmap_cons. cbn [concat].
  split_and!.
  - rewrite Ev. rewrite <- (take_drop 4 bs) at 3. rewrite le_dec_app, H4. done.
  - apply List.Forall_cons; [|done]. pose proof (le_dec_range (take 4 bs)) as H.
    by rewrite H4 in H.
  - by rewrite El.
  - rewrite Ec, le_enc_dec by done. apply take_drop.
Qed.

Lemma uint_to_arith_spec a :
  length a = 32%nat ->
  arith_ok (uint_to_arith a) /\ val (uint_to_arith a) = le_dec a /\
  arith_to_uint256 (uint_to_arith a) = a.
Proof. intros Hl. destruct (words_of_spec WIDTH a Hl) as (?&?&?&?). by split_and!. Qed.

Lemma arith_to_uint256_spec a :
  arith_ok a -> length (arith_to_uint256 a) = 32%nat /\ le_dec (arith_to_uint256 a) = val a.
Proof.
  intros [La Ha]. unfold arith_to_uint256.
  assert (length (concat (le_enc 4 <$> a)) = (4 * length a)%nat /\
          le_dec (concat (le_enc 4 <$> a)) = val a) as [H1 H2].
  { clear La. induction Ha as [|w a Hw Ha [IH1 IH2]]; [done|]. rewrite fmap_cons. cbn [concat val length].
    rewrite length_app, le_enc_length, le_dec_app, le_enc_length, IH1, IH2, le_dec_enc_small by done.
    split; [lia|done]. }
  rewrite H1, La. done.
Qed.

(** ** The claims *)

(** C40: On numbers of eight 32-bit words every operation computes what its name says
    of the value: addition modulo 2^256, subtraction with NULL exactly below zero,
    division with NULL exactly for a zero divisor, the five comparisons, the one's
    complement, and the two shifts. *)
Theorem arith_ops_correct a b n :
  arith_ok a -> arith_ok b -> 0 <= n ->
  val (add_arith_uint256 a b) = (val a + val b) mod 2 ^ 256 /\
  val <$> sub_arith_uint256 a b = (if val a <? val b then None else Some (val a - val b)) /\
  val <$> div_arith_uint256 a b = (if val b =? 0 then None else Some (val a / val b)) /\
  arith_uint256_less_than a b = (val a <? val b) /\
  arith_uint256_equal a b = (val a =? val b) /\
  arith_uint256_less_than_or_equal a b = (val a <=? val b) /\
  arith_uint256_greater_than a b = (val b <? val a) /\
  arith_uint256_greater_than_or_equal a b = (val b <=? val a) /\
  arith_uint256_is_zero a = (val a =? 0) /\
  val (arith_negate a) = 2 ^ 256 - 1 - val a /\
  val (arith_shift_left a n) = (val a * 2 ^ n) mod 2 ^ 256 /\
  val (arith_shift_right a n) = val a / 2 ^ n.
Proof.
  intros Ha Hb Hn.
  assert (arith_uint256_equal a b = (val a =? val b)) as Eeq.
  { rewrite equal_spec by (destruct Ha, Hb; congruence).
    destruct (Z.eqb_spec (val a) (val b)) as [E|E].
    - apply bool_decide_eq_true. apply val_inj; [apply Ha|apply Hb|destruct Ha, Hb; congruence|done].
    - apply bool_decide_eq_false. by intros ->. }
  assert (arith_uint256_less_than_or_equal a b = (val a <=? val b)) as Ele.
  { unfold arith_uint256_less_than_or_equal. rewrite less_than_spec, Eeq by done.
    destruct (Z.ltb_spec (val a) (val b)), (Z.eqb_spec (val a) (val b)),
      (Z.leb_spec (val a) (val b)); simpl; lia. }
  split_and!; [by apply add_spec| | |by apply less_than_spec|done|done| | |
    apply is_zero_spec, Ha|by apply negate_spec|by apply shift_left_spec|by apply shift_right_spec].
  - destruct (Z.ltb_spec (val a) (val b)).
    + unfold sub_arith_uint256. rewrite less_than_spec by done.
      by rewrite (proj2 (Z.ltb_lt _ _)).
    + destruct (sub_spec a b Ha Hb) as (d & -> & _ & E); [done|]. simpl. by rewrite E.
  - destruct (Z.eqb_spec (val b) 0) as [E|E].
    + unfold div_arith_uint256. rewrite is_zero_spec by apply Hb. by rewrite E.
    + destruct (div_spec a b Ha Hb E) as (q & -> & _ & Eq). simpl. by rewrite Eq.
  - unfold arith_uint256_greater_than. by rewrite Ele, <- Z.ltb_antisym.
  - unfold arith_uint256_greater_than_or_equal.
    by rewrite less_than_spec, <- Z.leb_antisym by done.
Qed.

Lemma arith_ops_correct_witness :
  val <$> div_arith_uint256 [0; 0; 0; 0; 0; 0; 0; 0x80000000] [7; 1; 0; 0; 0; 0; 0; 0] =
  Some (2 ^ 255 / (2 ^ 32 + 7)).
Proof.
  assert (arith_ok [0; 0; 0; 0; 0; 0; 0; 0x80000000]) as Ha by (by refine (bool_decide_unpack _ _); vm_compute).
  assert (arith_ok [7; 1; 0; 0; 0; 0; 0; 0]) as Hb by (by refine (bool_decide_unpack _ _); vm_compute).
  destruct (arith_ops_correct _ _ 0 Ha Hb) as (_ & _ & H & _); [lia|]. exact H.
Defined.

(** The target a compact number stands for. *)
Definition compact_target (compact : Z) : Z :=
  let e := compact / 2 ^ 24 in
  let m := compact mod 2 ^ 23 in
  if e <=? 3 then m / 256 ^ (3 - e) else m * 256 ^ (e - 3).

Lemma pow256 k : 0 <= k -> 256 ^ k = 2 ^ (8 * k).
Proof. intros. change 256 with (2 ^ 8). by rewrite <- Z.pow_mul_r by lia. Qed.

Lemma set_compact_spec compact :
  urange 32 compact ->
  let '(hash, negative, overflow) := set_compact init_arith_uint256 compact in
  arith_ok hash /\ val hash = compact_target compact mod 2 ^ 256 /\
  negative = negb (compact_target compact =? 0) && Z.testbit compact 23 /\
  overflow = (2 ^ 256 <=? compact_target compact).
Proof.
  intros Hc. unfold urange in Hc. unfold set_compact, compact_target.
  rewrite Z.shiftr_div_pow2 by lia. change 0x007fffff with (Z.ones 23).
  rewrite Z.land_ones by lia. change 0x00800000 with (2 ^ 23).
  rewrite land_pow2_eqb, negb_involutive by lia.
  set (e := compact / 2 ^ 24). set (m := compact mod 2 ^ 23).
  assert (0 <= e < 256) as He
    by (split; [apply Z.div_pos; lia|apply Z.div_lt_upper_bound; lia]).
  pose proof (Z.mod_pos_bound compact (2 ^ 23) ltac:(lia)) as Hm. fold m in Hm.
  assert (forall w, 0 <= w < 2 ^ 32 ->
    arith_ok (<[0%nat := w]> init_arith_uint256) /\ val (<[0%nat := w]> init_arith_uint256) = w)
    as Hset.
  { intros w Hw. split; [|simpl; lia]. split; [done|].
    apply List.Forall_cons; [done|apply (replicate_zero_range 7)]. }
  destruct (Z.leb_spec e 3) as [H3|H3].
  - rewrite Z.shiftr_div_pow2, pow256 by lia.
    set (t := m / 2 ^ (8 * (3 - e))).
    assert (0 <= t < 2 ^ 23) as Ht.
    { assert (0 < 2 ^ (8 * (3 - e))) by (apply Z.pow_pos_nonneg; lia).
      split; [apply Z.div_pos; lia|apply Z.div_lt_upper_bound; nia]. }
    destruct (Hset t ltac:(lia)) as [H1 H2]. split_and!; [done| |done|].
    + rewrite H2. symmetry. apply Z.mod_small. lia.
    + rewrite (proj2 (Z.leb_gt _ _)) by lia.
      rewrite !(proj2 (Z.ltb_ge _ e)) by lia. rewrite !andb_false_r. done.
  - destruct (Hset m ltac:(lia)) as [H1 H2].
    destruct (shift_left_spec _ (8 * (e - 3)) H1 ltac:(lia)) as [H4 H5].
    rewrite H2 in H5. rewrite pow256 by lia.
    assert (0 < 2 ^ (8 * (e - 3))) as Hp by (apply Z.pow_pos_nonneg; lia).
    split_and!; [done|done| |].
    + f_equal. f_equal. destruct (Z.eqb_spec m 0), (Z.eqb_spec (m * 2 ^ (8 * (e - 3))) 0);
        try done; nia.
    + destruct (Z.eqb_spec m 0) as [->|]; [done|]. cbn [negb andb].
      destruct (Z.ltb_spec 34 e).
      { symmetry. apply Z.leb_le. assert (2 ^ 256 <= 2 ^ (8 * (e - 3))) by (apply Z.pow_le_mono_r; lia). nia. }
      destruct (decide (e = 34)) as [->|]; [destruct (Z.ltb_spec 0xff m), (Z.ltb_spec 0xffff m); simpl; lia|].
      destruct (decide (e = 33)) as [->|]; [destruct (Z.ltb_spec 0xff m), (Z.ltb_spec 0xffff m); simpl; lia|].
      rewrite !(proj2 (Z.ltb_ge _ e)) by lia. rewrite !andb_false_r. symmetry. apply Z.leb_gt.
      assert (2 ^ (8 * (e - 3)) <= 2 ^ 232) by (apply Z.pow_le_mono_r; lia). nia.
Qed.

(** A 32-bit compact number is expanded, over a zeroed number, to its mantissa of 23
    bits scaled by 256 to its exponent less three, modulo 2^256; the overflow flag is set
    exactly when the scaled mantissa does not fit in 256 bits, the negative flag exactly
    when the sign bit is set and the scaled mantissa is not zero. *)
Theorem set_compact_correct compact :
  urange 32 compact ->
  let '(hash, negative, overflow) := set_compact init_arith_uint256 compact in
  arith_ok hash /\ val hash = compact_target compact mod 2 ^ 256 /\
  negative = negb (compact_target compact =? 0) && Z.testbit compact 23 /\
  overflow = (2 ^ 256 <=? compact_target compact).
Proof. apply set_compact_spec. Qed.

Lemma set_compact_correct_witness :
  let '(hash, negative, overflow) := set_compact init_arith_uint256 0x1e0fffff in
  arith_ok hash /\ val hash = compact_target 0x1e0fffff mod 2 ^ 256 /\
  negative = negb (compact_target 0x1e0fffff =? 0) && Z.testbit 0x1e0fffff 23 /\
  overflow = (2 ^ 256 <=? compact_target 0x1e0fffff).
Proof. apply (set_compact_correct 0x1e0fffff). split; lia. Defined.
