(* ===== verification/Pow.v ===== *)
(** * Proof of work ([src/src/pow.c])

    A 256-bit hash is compared, as a little-endian number, with the target a compact
    number stands for; the work credited is the expected number of hashes. *)

From S2P Require Import Prelude Words Utils Arith256.

Local Open Scope Z_scope.

(** The loop from the last byte, on the reversed bytes. *)
Fixpoint uint256_cmp_rev (a b : bytes) : bool :=
  match a, b with
  | x :: a, y :: b =>
      if byte.unsigned y <? byte.unsigned x then true
      else if byte.unsigned x <? byte.unsigned y then false
      else uint256_cmp_rev a b
  | _, _ => false
  end.

Definition uint256_cmp (a b : bytes) : bool := uint256_cmp_rev (rev a) (rev b).

(** Result, the hash as the call leaves it (it is reversed in place once the target has
    been accepted) and the chain work, which is written on success only and when it is
    not NULL.  The outer [None] is the use of a NULL number. *)
Definition check_pow (hash : bytes) (nbits : Z) (pow_limit : bytes)
    (chainwork : option arith_uint256) : option (bool * bytes * option arith_uint256) :=
  let '(target, f_negative, f_overflow) := set_compact init_arith_uint256 nbits in
  let target_bytes := arith_to_uint256 target in
  if f_negative || arith_uint256_is_zero target || f_overflow
     || uint256_cmp target_bytes pow_limit
  then Some (false, hash, chainwork)
  else
    let hash := swap_bytes hash 32 in
    if uint256_cmp hash target_bytes then Some (false, hash, chainwork)
    else
      let neg_target := arith_negate target in
      let one := <[0%nat := 1]> init_arith_uint256 in
      let target_plus_one := add_arith_uint256 target one in
      hashes ← div_arith_uint256 neg_target target_plus_one;
      let final_hashes := add_arith_uint256 hashes one in
      Some (true, hash, match chainwork with None => None | Some _ => Some final_hashes end).

(** ** Proofs *)

Lemma uint256_cmp_rev_spec a b :
  length a = length b -> uint256_cmp_rev a b = (le_dec (rev b) <? le_dec (rev a)).
Proof.
  revert b. induction a as [|x a IH]; intros [|y b] Hl; try done. injection Hl as Hl.
  cbn [uint256_cmp_rev rev]. rewrite !le_dec_app, !length_rev, <- Hl, !le_dec_1.
  pose proof (le_dec_range (rev a)) as Ra. pose proof (le_dec_range (rev b)) as Rb.
  rewrite length_rev in Ra, Rb. rewrite <- Hl in Rb. unfold urange in Ra, Rb.
  set (m := 2 ^ (8 * Z.of_nat (length a))) in *.
  destruct (Z.ltb_spec (byte.unsigned y) (byte.unsigned x)); [symmetry; apply Z.ltb_lt; nia|].
  destruct (Z.ltb_spec (byte.unsigned x) (byte.unsigned y)); [symmetry; apply Z.ltb_ge; nia|].
  rewrite IH by done. assert (byte.unsigned x = byte.unsigned y) as -> by lia.
  destruct (Z.ltb_spec (le_dec (rev b)) (le_dec (rev a))); symmetry;
    [apply Z.ltb_lt|apply Z.ltb_ge]; lia.
Qed.

Lemma uint256_cmp_spec a b :
  length a = length b -> uint256_cmp a b = (le_dec b <? le_dec a).
Proof.
  intros Hl. unfold uint256_cmp.
  by rewrite uint256_cmp_rev_spec, !rev_involutive by (by rewrite !length_rev).
Qed.

(** The expected number of hashes, without a number of more than 256 bits. *)
Lemma work_identity T : 0 < T < 2 ^ 256 - 1 ->
  (2 ^ 256 - 1 - T) / (T + 1) + 1 = 2 ^ 256 / (T + 1).
Proof.
  intros HT. replace (2 ^ 256) with (2 ^ 256 - 1 - T + 1 * (T + 1)) at 2 by lia.
  by rewrite Z.div_add by lia.
Qed.

Lemma compact_target_bound c : urange 32 c -> compact_target c < 2 ^ 256 -> compact_target c < 2 ^ 256 - 1.
Proof.
  unfold urange, compact_target. intros Hc.
  set (e := c / 2 ^ 24). set (m := c mod 2 ^ 23).
  pose proof (Z.mod_pos_bound c (2 ^ 23) ltac:(lia)) as Hm. fold m in Hm.
  assert (0 <= e) by (apply Z.div_pos; lia).
  destruct (Z.leb_spec e 3).
  - assert (m / 256 ^ (3 - e) <= m); [|lia].
    assert (0 < 256 ^ (3 - e)) by (apply Z.pow_pos_nonneg; lia).
    apply Z.div_le_upper_bound; nia.
  - replace (256 ^ (e - 3)) with (256 * 256 ^ (e - 4))
      by (rewrite <- Z.pow_succ_r by lia; f_equal; lia). nia.
Qed.

Lemma compact_target_nonneg c : urange 32 c -> 0 <= compact_target c.
Proof.
  intros Hn. unfold compact_target, urange in *.
  case_if; [apply Z.div_pos|apply Z.mul_nonneg_nonneg];
    try (apply Z.mod_pos_bound; lia); try (apply Z.pow_pos_nonneg; lia);
    zbool; try (apply Z.pow_pos_nonneg; lia); apply Z.pow_nonneg; lia.
Qed.

(** No NULL number is used, whatever the hash and the limit. *)
Lemma check_pow_total hash nbits pow_limit chainwork :
  urange 32 nbits -> exists r, check_pow hash nbits pow_limit chainwork = Some r.
Proof.
  intros Hn. unfold check_pow. pose proof (set_compact_spec nbits Hn) as Hs.
  destruct (set_compact init_arith_uint256 nbits) as [[target neg] ovf].
  destruct Hs as (Ht & Hv & _ & ->).
  destruct (_ || _ || _ || _) eqn:E; [by eexists|]. zbool.
  pose proof (compact_target_bound nbits Hn ltac:(lia)) as Hb.
  pose proof (compact_target_nonneg nbits Hn) as HT0.
  rewrite Z.mod_small in Hv by lia.
  assert (arith_ok (<[0%nat := 1]> init_arith_uint256)) as Hone
    by (by refine (bool_decide_unpack _ _); vm_compute).
  destruct (negate_spec target Ht) as [Hn1 _].
  destruct (add_spec target _ Ht Hone) as [Ha1 Ha2].
  change (val (<[0%nat := 1]> init_arith_uint256)) with 1 in Ha2.
  rewrite Hv, Z.mod_small in Ha2 by lia.
  destruct (div_spec _ _ Hn1 Ha1) as (q & -> & _); [lia|].
  destruct (uint256_cmp (swap_bytes hash 32) _); by eexists.
Qed.

(** A hash is accepted for a compact target exactly when the target is positive,
    fits in 256 bits, is not above the limit of the chain and the byte-reversed hash is,
    as a little-endian number, not above it; the hash is left reversed once the target
    was accepted; the chain work is written on success only and is the number of hashes
    2^256 / (target + 1); no NULL number is ever used. *)
Theorem check_pow_correct hash nbits pow_limit chainwork (T := compact_target nbits) :
  urange 32 nbits -> length hash = 32%nat -> length pow_limit = 32%nat ->
  let target_ok := negb (Z.testbit nbits 23) && (0 <? T) && (T <? 2 ^ 256) &&
                   (T <=? le_dec pow_limit) in
  exists work, arith_ok work /\
  check_pow hash nbits pow_limit chainwork =
  Some (target_ok && (le_dec (rev hash) <=? T),
        if target_ok then rev hash else hash,
        if target_ok && (le_dec (rev hash) <=? T) then (fun _ => work) <$> chainwork
        else chainwork) /\
  (target_ok = true -> val work = 2 ^ 256 / (T + 1)).
Proof.
  intros Hn Hh Hp target_ok. unfold check_pow.
  pose proof (set_compact_spec nbits Hn) as Hs.
  destruct (set_compact init_arith_uint256 nbits) as [[target neg] ovf].
  destruct Hs as (Ht & Hv & -> & ->). fold T in Hv |- *.
  destruct (arith_to_uint256_spec target Ht) as [Hl Hd].
  rewrite is_zero_spec, uint256_cmp_spec, Hd by (apply Ht || congruence).
  rewrite swap_bytes_32 by done.
  rewrite uint256_cmp_spec, Hd by (by rewrite length_rev, Hh).
  pose proof (compact_target_bound nbits Hn) as Hb. fold T in Hb.
  pose proof (compact_target_nonneg nbits Hn) as HT0. fold T in HT0.
  assert (negb (T =? 0) && Z.testbit nbits 23 || (val target =? 0) || (2 ^ 256 <=? T) ||
          (le_dec pow_limit <? val target) = negb target_ok) as ->.
  { unfold target_ok. destruct (Z.leb_spec (2 ^ 256) T).
    - rewrite (proj2 (Z.ltb_ge T (2 ^ 256))) by done. by rewrite orb_true_r, andb_false_r.
    - rewrite (proj2 (Z.ltb_lt T (2 ^ 256))) by done. rewrite Z.mod_small in Hv by lia.
      rewrite Hv. destruct (Z.eqb_spec T 0), (Z.ltb_spec 0 T), (Z.testbit nbits 23),
        (Z.ltb_spec (le_dec pow_limit) T), (Z.leb_spec T (le_dec pow_limit)); simpl; lia || done. }
  destruct target_ok eqn:Eok; cbn [negb].
  2:{ exists init_arith_uint256. split; [apply init_ok|]. split; [done|]. done. }
  unfold target_ok in Eok. zbool. rewrite Z.mod_small in Hv by lia. rewrite Hv.
  assert (arith_ok (<[0%nat := 1]> init_arith_uint256)) as Hone
    by (by refine (bool_decide_unpack _ _); vm_compute).
  change (val (<[0%nat := 1]> init_arith_uint256)) with 1.
  destruct (negate_spec target Ht) as [Hn1 Hn2].
  destruct (add_spec target _ Ht Hone) as [Ha1 Ha2]. 
  change (val (<[0%nat := 1]> init_arith_uint256)) with 1 in Ha2.
  rewrite Hv, Z.mod_small in Ha2 by lia.
  destruct (div_spec _ _ Hn1 Ha1) as (q & -> & Hq & Eq); [lia|].
  destruct (add_spec q _ Hq Hone) as [Hw1 Hw2].
  change (val (<[0%nat := 1]> init_arith_uint256)) with 1 in Hw2.
  rewrite Eq, Hn2, Ha2, Hv, work_identity, Z.mod_small in Hw2 by
    first [lia|split; [apply Z.div_pos; lia|apply Z.div_lt_upper_bound; nia]].
  eexists. split; [exact Hw1|]. split; [|done]. rewrite Z.ltb_antisym.
  destruct (le_dec (rev hash) <=? T); simpl; [|done]. by destruct chainwork.
Qed.

(** The limit of the main chain. *)
Definition pow_limit_main : bytes := replicate 29 Byte.xff ++ [Byte.x0f; Byte.x00; Byte.x00].

Lemma check_pow_correct_witness :
  exists work, arith_ok work /\
  check_pow (zeros 31 ++ [Byte.x01]) 0x1e0fffff pow_limit_main (Some init_arith_uint256) =
  Some (true, Byte.x01 :: zeros 31, Some work) /\
  (true = true -> val work = 2 ^ 256 / (compact_target 0x1e0fffff + 1)).
Proof.
  refine (check_pow_correct (zeros 31 ++ [Byte.x01]) 0x1e0fffff pow_limit_main
            (Some init_arith_uint256) _ eq_refl eq_refl).
  split; lia.
Defined.
