(* ===== verification/Block.v ===== *)
(** * Block headers ([src/src/block.c])

    A header, the merge-mining proof it may carry, their wire format, deep copies and
    identifiers.  The hook [auxpow->check] always is [check] and its context is never
    read, so that of [auxpow] only the flag is kept. *)

From S2P Require Import Prelude Words Mem Cstr Serialize Sha256 Tx.

Local Open Scope Z_scope.

Definition DOGECOIN_MAX_P2P_MSG_SIZE : Z := 0x003D0900.

(** NULL pointers are [None]; a merkle branch is an array of 32-byte hashes. *)
Inductive block_header := mk_header {
  hversion : Z;
  prev_block : bytes;
  merkle_root : bytes;
  timestamp : Z;
  bits : Z;
  nonce : Z;
  auxpow_is : bool;
  payload : option auxpow_payload;
}
with auxpow_payload := mk_payload {
  parent_coinbase : option tx;
  parent_hash : bytes;
  parent_merkle_count : Z;
  parent_coinbase_merkle : option (list bytes);
  parent_merkle_index : Z;
  aux_merkle_count : Z;
  aux_merkle_branch : option (list bytes);
  aux_merkle_index : Z;
  parent_header : option block_header;
}.

Definition block_header_new : block_header :=
  mk_header 0 (zeros 32) (zeros 32) 0 0 0 false None.

(** ** Copies *)

(** [count] hashes of an array; nothing is read of an empty one, and [None] stands for a
    read outside the array. *)
Definition branch_prefix (count : Z) (branch : option (list bytes)) : option (list bytes) :=
  if count =? 0 then Some []
  else b ← branch; if Z.of_nat (length b) <? count then None else Some (take (Z.to_nat count) b).

(** The array is copied when there is one and its count is not zero. *)
Definition branch_copy (count : Z) (branch : option (list bytes)) : option (list bytes) :=
  if count =? 0 then None else take (Z.to_nat count) <$> branch.

(** What [dest] held is overwritten, not freed. *)
Fixpoint block_header_copy (src : block_header) : block_header :=
  mk_header (hversion src) (prev_block src) (merkle_root src) (timestamp src) (bits src)
    (nonce src) (auxpow_is src)
    (match payload src with Some p => Some (auxpow_payload_copy p) | None => None end)
with auxpow_payload_copy (src : auxpow_payload) : auxpow_payload :=
  mk_payload
    (match parent_coinbase src with Some t => Some (tx_copy tx_new t) | None => None end)
    (parent_hash src) (parent_merkle_count src)
    (branch_copy (parent_merkle_count src) (parent_coinbase_merkle src))
    (parent_merkle_index src) (aux_merkle_count src)
    (branch_copy (aux_merkle_count src) (aux_merkle_branch src))
    (aux_merkle_index src)
    (match parent_header src with Some h => Some (block_header_copy h) | None => None end).

(** ** Serialisation *)

Section ser.
Context {S : Type} `{!ByteSink S}.

(** The 80 base bytes. *)
Definition block_header_serialize (s : S) (h : block_header) : S :=
  let s := ser_s32 s (hversion h) in
  let s := ser_u256 s (prev_block h) in
  let s := ser_u256 s (merkle_root h) in
  let s := ser_u32 s (timestamp h) in
  let s := ser_u32 s (bits h) in
  ser_u32 s (nonce h).

(** [None]: the use of a NULL pointer or a read outside a branch. *)
Definition auxpow_payload_serialize (s : S) (p : auxpow_payload) : option S :=
  cb ← parent_coinbase p;
  pm ← branch_prefix (parent_merkle_count p) (parent_coinbase_merkle p);
  am ← branch_prefix (aux_merkle_count p) (aux_merkle_branch p);
  ph ← parent_header p;
  let s := tx_serialize s cb in
  let s := ser_u256 s (parent_hash p) in
  let s := ser_varlen s (parent_merkle_count p) in
  let s := foldl ser_u256 s pm in
  let s := ser_u32 s (parent_merkle_index p) in
  let s := ser_varlen s (aux_merkle_count p) in
  let s := foldl ser_u256 s am in
  let s := ser_u32 s (aux_merkle_index p) in
  Some (block_header_serialize s ph).

Definition block_header_serialize_full (s : S) (h : block_header) : option S :=
  let s := block_header_serialize s h in
  match payload h with Some p => auxpow_payload_serialize s p | None => Some s end.

(** The transactions up to the first hole. *)
Fixpoint block_txs (s : S) (txs : list (option tx)) : S :=
  match txs with
  | Some t :: txs => block_txs (tx_serialize s t) txs
  | _ => s
  end.

(** [txs] holds [txs_count] pointers, or is NULL. *)
Definition block_serialize (s : S) (h : block_header) (txs : option (list (option tx)))
    (txs_count : Z) : option S :=
  s ← block_header_serialize_full s h;
  let s := ser_varlen s txs_count in
  Some (match txs with Some txs => block_txs s txs | None => s end).
End ser.

(** ** Parsing *)

(** The six fields of the base header. *)
Definition deser_header_fields : deser block_header :=
  v ← deser_s32;
  p ← deser_u256;
  m ← deser_u256;
  t ← deser_u32;
  b ← deser_u32;
  n ← deser_u32;
  mret (mk_header v p m t b n false None).

(** The buffer is only moved behind the transaction when it was read. *)
Definition deser_coinbase : deser tx := fun buf =>
  let '(ok, t, consumed) := tx_deserialize buf tx_new in
  if negb ok then (None, buf)
  else if consumed =? 0 then (None, buf)
  else (deser_skip consumed;; mret t) buf.

(** A count of at most a byte and as many hashes; no array is made for none. *)
Definition deser_branch : deser (Z * option (list bytes)) :=
  count ← deser_varlen;
  deser_guard (count <=? 0xff);;
  l ← deser_times (Z.to_nat count) deser_u256;
  mret (count, if 0 <? count then Some l else None).

(** The fields go to a block made by [dogecoin_auxpow_block_new]; what a failing read
    leaves in it is not described, the callers free it.  The flag of the header is set
    once the transaction has been read. *)
Definition parse_auxpow_fields : deser auxpow_payload :=
  len ← deser_remaining;
  deser_guard (len <=? DOGECOIN_MAX_P2P_MSG_SIZE);;
  cb ← deser_coinbase;
  ph ← deser_u256;
  pm ← deser_branch;
  pi ← deser_u32;
  am ← deser_branch;
  ai ← deser_u32;
  h ← deser_header_fields;
  mret (mk_payload (Some cb) ph pm.1 pm.2 pi am.1 am.2 ai (Some h)).

Definition set_auxpow (h : block_header) (flag : bool) (p : option auxpow_payload) : block_header :=
  mk_header (hversion h) (prev_block h) (merkle_root h) (timestamp h) (bits h) (nonce h) flag p.

(** Result, header and rest of the buffer. *)
Definition block_header_parse (header : block_header) (buf : bytes)
    : bool * block_header * bytes :=
  match deser_header_fields buf with
  | (None, buf) => (false, header, buf)
  | (Some h, buf) =>
      let header := block_header_copy h in
      if negb (Z.land (hversion h) 0x100 =? 0) && negb (Z.of_nat (length buf) =? 0) then
        match parse_auxpow_fields buf with
        | (None, buf) => (false, header, buf)
        | (Some p, buf) =>
            let h := set_auxpow h (Z.land (hversion h) 0x100 =? 256) None in
            let header := block_header_copy h in
            (true, set_auxpow header (auxpow_is header) (Some p), buf)
        end
      else (true, header, buf)
  end.

(** ** Identifiers *)

Definition block_header_hash (h : block_header) : bytes :=
  dogecoin_hash (block_header_serialize [] h).

(** ** The wire format round trip *)

Definition hash_ok (h : bytes) : Prop := length h = 32%nat.

(** The base fields of a header, which carries no proof. *)
Record base_ok (h : block_header) : Prop := {
  ok_hversion : srange 32 (hversion h);
  ok_prev : hash_ok (prev_block h);
  ok_root : hash_ok (merkle_root h);
  ok_time : urange 32 (timestamp h);
  ok_bits : urange 32 (bits h);
  ok_nonce : urange 32 (nonce h);
}.

(** [l] as a counted array. *)
Definition branch_ok (count : Z) (branch : option (list bytes)) : Prop :=
  exists l, count = Z.of_nat (length l) /\ (length l <= 255)%nat /\ Forall hash_ok l /\
            branch = match l with [] => None | _ => Some l end.

Record payload_ok (p : auxpow_payload) : Prop := {
  ok_coinbase : exists t ins outs, parent_coinbase p = Some t /\ tx_ok t ins outs /\ ins <> [];
  ok_parent_hash : hash_ok (parent_hash p);
  ok_pm : branch_ok (parent_merkle_count p) (parent_coinbase_merkle p);
  ok_pi : urange 32 (parent_merkle_index p);
  ok_am : branch_ok (aux_merkle_count p) (aux_merkle_branch p);
  ok_ai : urange 32 (aux_merkle_index p);
  ok_ph : exists h, parent_header p = Some h /\ base_ok h /\
                    auxpow_is h = false /\ payload h = None;
}.

(** A header carries a proof only when its version says so, and its flag says whether it
    does. *)
Record header_ok (h : block_header) : Prop := {
  ok_base : base_ok h;
  ok_payload : forall p, payload h = Some p -> payload_ok p /\ Z.testbit (hversion h) 8 = true;
  ok_is : auxpow_is h = bool_decide (is_Some (payload h));
}.

#[export] Instance header_fields_appends : Appends (block_header_serialize (S := bytes)).
Proof.
  intros s h. unfold block_header_serialize, ser_s32, ser_u256, ser_u32, ser_bytes, sink_append,
    bytes_sink. by rewrite <- !app_assoc.
Qed.

Lemma header_fields_round_trip h rest :
  base_ok h -> deser_header_fields (block_header_serialize [] h ++ rest) =
  (Some (set_auxpow h false None), rest).
Proof.
  intros [H1 H2 H3 H4 H5 H6]. unfold block_header_serialize, deser_header_fields.
  rewrite ser_u32_appends, (ser_u32_appends (ser_u32 _ _)), (ser_u32_appends (ser_u256 _ _)),
    (ser_u256_appends (ser_u256 _ _)), (ser_u256_appends (ser_s32 _ _)), <- !app_assoc.
  rewrite (deser_bind_some _ _ _ _ _ (s32_round_trip _ _ H1)).
  rewrite (deser_bind_some _ _ _ _ _ (u256_round_trip _ _ H2)).
  rewrite (deser_bind_some _ _ _ _ _ (u256_round_trip _ _ H3)).
  rewrite (deser_bind_some _ _ _ _ _ (u32_round_trip _ _ H4)).
  rewrite (deser_bind_some _ _ _ _ _ (u32_round_trip _ _ H5)).
  by rewrite (deser_bind_some _ _ _ _ _ (u32_round_trip _ _ H6)).
Qed.

Lemma branch_ok_prefix count branch :
  branch_ok count branch ->
  exists l, branch_prefix count branch = Some l /\ branch_copy count branch = branch /\
    count = Z.of_nat (length l) /\ Forall hash_ok l /\ 0 <= count <= 255 /\
    branch = (if 0 <? count then Some l else None).
Proof.
  intros (l & -> & Hlen & Hok & ->). exists l. unfold branch_prefix, branch_copy.
  destruct l as [|x l]; [by split_and!|]. set (n := Z.of_nat (length (x :: l))).
  assert (0 < n <= 255) by (unfold n; simpl in *; lia).
  rewrite (proj2 (Z.eqb_neq n 0)) by lia. simpl mbind.
  rewrite (proj2 (Z.ltb_ge _ _)) by (unfold n; simpl; lia).
  rewrite (proj2 (Z.ltb_lt 0 n)) by lia. unfold n. rewrite Nat2Z.id. simpl.
  rewrite firstn_all. split_and!; try done; simpl in *; lia.
Qed.

(** A counted array on the wire. *)
Lemma branch_round_trip l rest :
  Forall hash_ok l -> (length l <= 255)%nat ->
  deser_branch (ser_varlen [] (Z.of_nat (length l)) ++ foldl ser_u256 [] l ++ rest) =
  (Some (Z.of_nat (length l), if 0 <? Z.of_nat (length l) then Some l else None), rest).
Proof.
  intros Hl Hn. unfold deser_branch.
  rewrite (deser_bind_some _ _ _ _ _ (varlen_round_trip (Z.of_nat (length l)) _ ltac:(unfold urange; lia))).
  rewrite (proj2 (Z.leb_le _ _)) by lia. cbn [deser_guard].
  rewrite (deser_bind_some _ _ _ tt _ eq_refl), Nat2Z.id.
  assert (Forall (fun b => length b = 32%nat) l) as Hl' by exact Hl.
  by rewrite (deser_bind_some _ _ _ _ _ (times_round_trip _ ser_u256 deser_u256 l rest Hl')).
Qed.

Lemma coinbase_round_trip t ins outs rest :
  tx_ok t ins outs -> ins <> [] -> deser_coinbase (tx_serialize [] t ++ rest) = (Some t, rest).
Proof.
  intros Hok Hi. unfold deser_coinbase, tx_deserialize.
  rewrite (tx_deserialize_serialize t tx_new ins outs rest true) by done. cbn [negb].
  pose proof (tx_serialize_length_ge t ins outs Hok).
  rewrite (proj2 (Z.eqb_neq _ _)) by lia. unfold deser_skip.
  rewrite (deser_bind_some _ _ _ tt rest); [done|].
  rewrite length_app, (proj2 (Z.ltb_ge _ _)) by lia. by rewrite Nat2Z.id, drop_app_length.
Qed.

Lemma length_header h : base_ok h -> length (block_header_serialize [] h) = 80%nat.
Proof.
  intros [_ H1 H2 _ _ _]. unfold hash_ok in *. unfold block_header_serialize. flatten_ser.
  rewrite !length_app, !le_enc_length, !length_take, H1, H2. done.
Qed.

#[export] Instance tx_appends : Appends (tx_serialize (S := bytes)).
Proof.
  intros s t. unfold tx_serialize. rewrite !(ser_u32_appends (foldl _ _ _)).
  rewrite !(foldl_appends tx_out_serialize _ (ser_varlen _ _)).
  rewrite !(ser_varlen_appends (foldl _ _ _)).
  rewrite !(foldl_appends tx_in_serialize _ (ser_varlen _ _)).
  rewrite !(ser_varlen_appends (ser_s32 _ _)), (ser_s32_appends s). by rewrite <- !app_assoc.
Qed.

(** The bytes of a proof. *)
Lemma payload_serialize_fields p :
  payload_ok p -> exists t pm am h,
  parent_coinbase p = Some t /\ parent_header p = Some h /\
  branch_prefix (parent_merkle_count p) (parent_coinbase_merkle p) = Some pm /\
  branch_prefix (aux_merkle_count p) (aux_merkle_branch p) = Some am /\
  forall s, auxpow_payload_serialize s p = Some (s ++ tx_serialize [] t ++ ser_u256 [] (parent_hash p) ++
    (ser_varlen [] (parent_merkle_count p) ++ foldl ser_u256 [] pm ++
     (ser_u32 [] (parent_merkle_index p) ++
      (ser_varlen [] (aux_merkle_count p) ++ foldl ser_u256 [] am ++
       (ser_u32 [] (aux_merkle_index p) ++ block_header_serialize [] h))))).
Proof.
  intros H. destruct (ok_coinbase _ H) as (t & ins & outs & Ht & Hok & Hi).
  destruct (ok_ph _ H) as (h & Hh & _).
  destruct (branch_ok_prefix _ _ (ok_pm _ H)) as (pm & Epm & _).
  destruct (branch_ok_prefix _ _ (ok_am _ H)) as (am & Eam & _).
  exists t, pm, am, h. split_and!; try done. intros s. unfold auxpow_payload_serialize.
  rewrite Ht, Hh, Epm, Eam. cbn [mbind option_bind]. f_equal.
  rewrite header_fields_appends, (ser_u32_appends (foldl _ _ _)), (foldl_appends ser_u256 am),
    (ser_varlen_appends (ser_u32 _ _)), (ser_u32_appends (foldl _ _ _)),
    (foldl_appends ser_u256 pm), (ser_varlen_appends (ser_u256 _ _)), (ser_u256_appends (tx_serialize _ _)).
  rewrite (tx_appends s).
  by rewrite <- !app_assoc.
Qed.

Lemma payload_round_trip p b rest :
  payload_ok p -> auxpow_payload_serialize [] p = Some b ->
  Z.of_nat (length (b ++ rest)) <= DOGECOIN_MAX_P2P_MSG_SIZE ->
  parse_auxpow_fields (b ++ rest) = (Some p, rest).
Proof.
  intros H Eb Hlen.
  destruct (payload_serialize_fields p H) as (t & pm & am & h & Et & Eh & Epm & Eam & E).
  rewrite E in Eb. apply (inj Some) in Eb. rewrite <- Eb in Hlen |- *. clear E Eb b.
  destruct (ok_coinbase _ H) as (t' & ins & outs & Et' & Hok & Hi).
  rewrite Et in Et'. injection Et' as <-.
  destruct (ok_ph _ H) as (h' & Eh' & Hbase & His & Hpay).
  rewrite Eh in Eh'. injection Eh' as <-.
  destruct (branch_ok_prefix _ _ (ok_pm _ H)) as (l & E1 & _ & E2 & Hl & Hr & E3).
  rewrite Epm in E1. injection E1 as <-.
  destruct (branch_ok_prefix _ _ (ok_am _ H)) as (l & E4 & _ & E5 & Hl' & Hr' & E6).
  rewrite Eam in E4. injection E4 as <-.
  unfold parse_auxpow_fields. rewrite (deser_bind_some deser_remaining _ _ _ _ eq_refl).
  rewrite (proj2 (Z.leb_le _ _)) by done.
  cbn [deser_guard]. rewrite (deser_bind_some _ _ _ tt _ eq_refl).
  rewrite app_nil_l, <- !app_assoc.
  rewrite (deser_bind_some _ _ _ _ _ (coinbase_round_trip t ins outs _ Hok Hi)).
  rewrite (deser_bind_some _ _ _ _ _ (u256_round_trip _ _ (ok_parent_hash _ H))).
  rewrite E2 at 1. rewrite (deser_bind_some _ _ _ _ _ (branch_round_trip pm _ Hl ltac:(lia))).
  rewrite (deser_bind_some _ _ _ _ _ (u32_round_trip _ _ (ok_pi _ H))).
  rewrite E5 at 1. rewrite (deser_bind_some _ _ _ _ _ (branch_round_trip am _ Hl' ltac:(lia))).
  rewrite (deser_bind_some _ _ _ _ _ (u32_round_trip _ _ (ok_ai _ H))).
  rewrite (deser_bind_some _ _ _ _ _ (header_fields_round_trip h _ Hbase)).
  unfold mret, deser_ret. cbn [fst snd]. rewrite <- E2, <- E5, <- E3, <- E6.
  assert (set_auxpow h false None = h) as -> by (destruct h; simpl in *; by subst).
  rewrite <- Et, <- Eh. by destruct p.
Qed.

Lemma base_copy h : payload h = None -> block_header_copy h = h.
Proof. destruct h; simpl. by intros ->. Qed.

Lemma payload_copy_spec p : payload_ok p -> auxpow_payload_copy p = p.
Proof.
  intros H. destruct (ok_coinbase _ H) as (t & ins & outs & Et & Hok & _).
  destruct (ok_ph _ H) as (h & Eh & _ & _ & Hp).
  destruct (branch_ok_prefix _ _ (ok_pm _ H)) as (? & _ & E1 & _).
  destruct (branch_ok_prefix _ _ (ok_am _ H)) as (? & _ & E2 & _).
  destruct p as [cb ph pmc pm pi amc am ai hd]. cbn [auxpow_payload_copy].
  simpl in Et, Eh, E1, E2. cbn [parent_coinbase parent_hash parent_merkle_count
    parent_coinbase_merkle parent_merkle_index aux_merkle_count aux_merkle_branch
    aux_merkle_index parent_header].
  rewrite E1, E2, Et, Eh, (base_copy h Hp). unfold tx_copy.
  rewrite (ok_vin _ _ _ Hok), (ok_vout _ _ _ Hok). cbn [option_map].
  rewrite copy_ins, copy_outs, <- (ok_vin _ _ _ Hok), <- (ok_vout _ _ _ Hok). by destruct t.
Qed.

Lemma header_copy_spec h : header_ok h -> block_header_copy h = h.
Proof.
  intros H. destruct (payload h) as [p|] eqn:E; [|by apply base_copy].
  destruct (ok_payload _ H p E) as [Hp _]. destruct h as [v pb mr t b n fl pl]. simpl in *. subst pl.
  cbn [block_header_copy hversion prev_block merkle_root timestamp bits nonce auxpow_is payload].
  by rewrite (payload_copy_spec p Hp).
Qed.

Lemma testbit_8 v : (Z.land v 0x100 =? 0) = negb (Z.testbit v 8) /\
                    (Z.land v 0x100 =? 256) = Z.testbit v 8.
Proof.
  change (Z.land v 0x100) with (Z.land v (2 ^ 8)). rewrite land_pow2 by lia.
  by destruct (Z.testbit v 8).
Qed.

Lemma header_serialize_parse h h0 rest :
  header_ok h ->
  (payload h = None -> Z.testbit (hversion h) 8 = true -> rest = []) ->
  exists b, block_header_serialize_full [] h = Some b /\
    (Z.of_nat (length (b ++ rest)) <= DOGECOIN_MAX_P2P_MSG_SIZE ->
     block_header_parse h0 (b ++ rest) = (true, h, rest)).
Proof.
  intros H Hrest. unfold block_header_serialize_full.
  pose proof (ok_base _ H) as Hb. pose proof (ok_is _ H) as Hi.
  assert (forall h', block_header_copy (set_auxpow h' false None) = set_auxpow h' false None)
    as Hcopy by (intros; by apply base_copy).
  destruct (payload h) as [p|] eqn:Ep.
  - destruct (ok_payload _ H p Ep) as [Hp Hv].
    destruct (payload_serialize_fields p Hp) as (t & pm & am & ph & _ & _ & _ & _ & Ef).
    set (pb := tx_serialize [] t ++ _) in Ef. rewrite (Ef (block_header_serialize [] h)).
    eexists. split; [done|]. intros Hlen. unfold block_header_parse. rewrite <- app_assoc.
    rewrite header_fields_round_trip, Hcopy by done. cbn [hversion set_auxpow].
    destruct (testbit_8 (hversion h)) as [-> ->]. rewrite Hv. cbn [negb andb].
    assert (length pb > 0)%nat as Hpb.
    { unfold pb, ser_u32, sink_append, bytes_sink. rewrite !length_app, !le_enc_length. lia. }
    clearbody pb.
    rewrite (proj2 (Z.eqb_neq _ _)) by (rewrite length_app; lia). cbn [negb].
    rewrite (payload_round_trip p pb rest Hp (Ef [])).
    2:{ rewrite <- app_assoc, length_app in Hlen. lia. }
    rewrite bool_decide_true in Hi by eauto.
    do 2 f_equal. destruct h. simpl in *. by subst.
  - eexists. split; [done|]. intros Hlen. unfold block_header_parse.
    rewrite header_fields_round_trip, Hcopy by done. cbn [hversion set_auxpow].
    destruct (testbit_8 (hversion h)) as [-> _].
    assert (negb (negb (Z.testbit (hversion h) 8)) && negb (Z.of_nat (length rest) =? 0) = false) as ->.
    { destruct (Z.testbit (hversion h) 8); [|done]. by rewrite Hrest. }
    rewrite bool_decide_false in Hi by (by intros []).
    do 2 f_equal. destruct h. simpl in *. by subst.
Qed.

(** A header written in wire form, with the proof it carries or without one, is read
    back unchanged in front of any bytes, and so is a deep copy of it. The header must
    announce its proof in bit 8 of its version; one that announces a proof it does not
    carry is read back only at the end of the buffer. *)
Theorem header_round_trip h h0 rest :
  header_ok h ->
  (payload h = None -> Z.testbit (hversion h) 8 = true -> rest = []) ->
  exists b, block_header_serialize_full [] (block_header_copy h) = Some b /\
    (Z.of_nat (length (b ++ rest)) <= DOGECOIN_MAX_P2P_MSG_SIZE ->
     block_header_parse h0 (b ++ rest) = (true, h, rest)).
Proof. intros H Hrest. rewrite header_copy_spec by done. by apply header_serialize_parse. Qed.

Definition demo_base : block_header :=
  mk_header 2 (zeros 32) (zeros 32) 1 2 3 false None.
Definition demo_payload : auxpow_payload :=
  mk_payload (Some demo_tx) (zeros 32) 1 (Some [zeros 32]) 0 0 None 0 (Some demo_base).
Definition demo_header : block_header :=
  mk_header 0x620104 (zeros 32) (zeros 32) 1 2 3 true (Some demo_payload).

Lemma demo_header_ok : header_ok demo_header.
Proof.
  split; [split; done| |done]. intros p Hp. injection Hp as <-. split; [|done]. split; try done.
  - exists demo_tx, [demo_in], [demo_out]. by split_and!; [|apply demo_tx_ok|].
  - exists [zeros 32]. split_and!; [done|simpl; lia| |done]. by apply list.Forall_singleton.
  - exists []. split_and!; [done|simpl; lia|apply List.Forall_nil|done].
  - by exists demo_base.
Qed.

Lemma header_round_trip_witness :
  exists b, block_header_serialize_full [] (block_header_copy demo_header) = Some b /\
    (Z.of_nat (length (b ++ [Byte.x07])) <= DOGECOIN_MAX_P2P_MSG_SIZE ->
     block_header_parse block_header_new (b ++ [Byte.x07]) = (true, demo_header, [Byte.x07])).
Proof. by apply (header_round_trip demo_header block_header_new [Byte.x07] demo_header_ok). Defined.
