(* ===== verification/Merkle.v ===== *)
(** * Merkle roots and branches ([src/src/block.c], [src/src/auxpow.c])

    The root of the transactions of a block is computed in one pass over the leaves with
    one pending subtree per level.  It is shown to be the root of the textbook tree,
    level by level with the last node of an odd level paired with itself, and its flag to
    tell whether two different nodes of a pair are equal somewhere in that tree. *)

From S2P Require Import Prelude Words Serialize Sha256 Tx.

Local Open Scope Z_scope.

Definition node_hash (a b : bytes) : bytes := dogecoin_hash (a ++ b).

(** [!(count & (((uint32_t)1) << level))] *)
Definition bit_clear (count : Z) (level : nat) : bool :=
  Z.land count (u32 (Z.shiftl 1 (Z.of_nat level))) =? 0.

(** Both loops over the levels at which [count] has no bit: the pending node of the level
    is combined with [h].  [None]: a shift by 32 bits. *)
Fixpoint fold_up (fuel : nat) (count : Z) (level : nat) (inner : list bytes) (h : bytes)
    (mutated : bool) : option (nat * bytes * bool) :=
  match fuel with
  | O => None
  | S fuel =>
      if (32 <=? level)%nat then None
      else if bit_clear count level then
        x ← inner !! level;
        let mutated := if bytes_eqb x h then true else mutated in
        fold_up fuel count (S level) inner (node_hash x h) mutated
      else Some (level, h, mutated)
  end.

Fixpoint merkle_leaves (leaves : list bytes) (count : Z) (inner : list bytes) (mutated : bool)
    : option (Z * list bytes * bool) :=
  match leaves with
  | [] => Some (count, inner, mutated)
  | h :: leaves =>
      let count := u32 (count + 1) in
      '(level, h, mutated) ← fold_up 33 count 0 inner h mutated;
      merkle_leaves leaves count (<[level := h]> inner) mutated
  end.

Fixpoint lowest_level (fuel : nat) (count : Z) (level : nat) : option nat :=
  match fuel with
  | O => None
  | S fuel =>
      if (32 <=? level)%nat then None
      else if bit_clear count level then lowest_level fuel count (S level)
      else Some level
  end.

(** The sweep over the rightmost branch. *)
Fixpoint merkle_sweep (fuel : nat) (count : Z) (level : nat) (inner : list bytes) (h : bytes)
    (mutated : bool) : option (bytes * bool) :=
  match fuel with
  | O => None
  | S fuel =>
      if count =? u32 (Z.shiftl 1 (Z.of_nat level)) then Some (h, mutated)
      else
        let h := node_hash h h in
        let count := u32 (count + u32 (Z.shiftl 1 (Z.of_nat level))) in
        '(level, h, mutated) ← fold_up 33 count (S level) inner h mutated;
        merkle_sweep fuel count level inner h mutated
  end.

(** Root and flag; both are written on every path. *)
Definition compute_merkle_root (leaves : option (list bytes)) : option (bytes * bool) :=
  match leaves with
  | None | Some [] => Some (zeros 32, false)
  | Some l =>
      if UINT32_MAX <? Z.of_nat (length l) then Some (zeros 32, false)
      else
        '(count, inner, mutated) ← merkle_leaves l 0 (replicate 32 (zeros 32)) false;
        level ← lowest_level 33 count 0;
        h ← inner !! level;
        merkle_sweep 33 count level inner h mutated
  end.

(** Result, root (as it was after a failure) and flag. *)
Definition block_merkle_root (txs : option (list (option tx))) (root : bytes)
    : option (bool * bytes * bool) :=
  match txs with
  | None | Some [] => Some (false, root, false)
  | Some txs =>
      match mapM id txs with
      | None => Some (false, root, false)
      | Some ts =>
          '(root, mutated) ← compute_merkle_root (Some (tx_hash <$> ts));
          Some (true, root, mutated)
      end
  end.

(** ** The textbook tree *)

Fixpoint pairs (l : list bytes) : list bytes :=
  match l with
  | a :: b :: l => node_hash a b :: pairs l
  | [a] => [node_hash a a]
  | [] => []
  end.

Fixpoint equal_pair (l : list bytes) : bool :=
  match l with
  | a :: b :: l => bytes_eqb a b || equal_pair l
  | _ => false
  end.

(** Root, and whether some level holds a pair of equal nodes. *)
Fixpoint merkle_spec (fuel : nat) (l : list bytes) : bytes * bool :=
  match fuel, l with
  | S fuel, _ :: _ :: _ =>
      let '(root, mutated) := merkle_spec fuel (pairs l) in (root, equal_pair l || mutated)
  | _, h :: _ => (h, false)
  | _, [] => (zeros 32, false)
  end.

(** Induction two by two. *)
Lemma list_ind2 {A} (P : list A -> Prop) :
  P [] -> (forall a, P [a]) -> (forall a b l, P l -> P (a :: b :: l)) -> forall l, P l.
Proof.
  intros H0 H1 H2 l. cut (P l /\ forall a, P (a :: l)); [by intros []|].
  induction l as [|b l [IH1 IH2]]; [by auto|]. split; [apply IH2|]. intros a. by apply H2.
Qed.

Lemma pairs_lookup l i :
  pairs l !! i =
  match l !! (2 * i)%nat, l !! (2 * i + 1)%nat with
  | Some a, Some b => Some (node_hash a b)
  | Some a, None => Some (node_hash a a)
  | None, _ => None
  end.
Proof.
  revert i. induction l as [|a|a b l IH] using list_ind2; intros i.
  - by rewrite !lookup_nil.
  - destruct i as [|i]; [done|]. by replace (2 * S i)%nat with (S (S (2 * i))) by lia.
  - destruct i as [|i]; [done|]. replace (2 * S i)%nat with (S (S (2 * i))) by lia.
    cbn [pairs lookup list_lookup Nat.add]. apply IH.
Qed.

Lemma pairs_length l : (2 * length (pairs l) = length l \/ 2 * length (pairs l) = S (length l))%nat.
Proof.
  induction l as [|a|a b l IH] using list_ind2; cbn [pairs length]; [by left|by right|lia].
Qed.

Lemma equal_pair_spec l :
  equal_pair l = true <-> exists i x, l !! (2 * i)%nat = Some x /\ l !! (2 * i + 1)%nat = Some x.
Proof.
  induction l as [|a|a b l IH] using list_ind2.
  - split; [done|]. intros (i & x & E & _). by rewrite lookup_nil in E.
  - split; [done|]. intros ([|i] & x & E & E'); [done|]. simpl in E. by rewrite lookup_nil in E.
  - cbn [equal_pair]. rewrite orb_true_iff, IH. unfold bytes_eqb. rewrite bool_decide_eq_true.
    split.
    + intros [<-|(i & x & E1 & E2)]; [by exists 0%nat, a|]. exists (S i), x.
      by replace (2 * S i)%nat with (S (S (2 * i))) by lia.
    + intros ([|i] & x & E1 & E2).
      * left. simpl in E1, E2. congruence.
      * right. exists i, x. by replace (2 * S i)%nat with (S (S (2 * i))) in E1, E2 by lia.
Qed.

(** The levels over the leaves. *)
Definition lv (leaves : list bytes) (j : nat) : list bytes := Nat.iter j pairs leaves.

Section tree.
Context (leaves : list bytes).
Abbreviation N := (length leaves).
Abbreviation lv := (lv leaves).

Lemma lv_S j : lv (S j) = pairs (lv j).
Proof. done. Qed.

(** The size of a level, rounded up. *)
Lemma lv_length j :
  (0 < N)%nat -> (N <= length (lv j) * 2 ^ j < N + 2 ^ j)%nat.
Proof.
  intros HN. induction j as [|j IH]; [simpl; lia|]. rewrite lv_S, Nat.pow_succ_r'.
  pose proof (Nat.pow_nonzero 2 j ltac:(lia)).
  destruct (pairs_length (lv j)) as [E|E]; [nia|nia].
Qed.

Lemma lv_length_unique j q :
  (0 < N)%nat -> (N <= q * 2 ^ j < N + 2 ^ j)%nat -> length (lv j) = q.
Proof.
  intros HN Hq. pose proof (lv_length j HN). pose proof (Nat.pow_nonzero 2 j ltac:(lia)). nia.
Qed.

Lemma lv_full j i a b :
  lv j !! (2 * i)%nat = Some a -> lv j !! (2 * i + 1)%nat = Some b ->
  lv (S j) !! i = Some (node_hash a b).
Proof. intros Ha Hb. by rewrite lv_S, pairs_lookup, Ha, Hb. Qed.

Lemma lv_last j i a :
  lv j !! (2 * i)%nat = Some a -> length (lv j) = (2 * i + 1)%nat ->
  lv (S j) !! i = Some (node_hash a a).
Proof.
  intros Ha Hl. rewrite lv_S, pairs_lookup, Ha.
  by rewrite (proj2 (lookup_ge_None (lv j) _)) by lia.
Qed.

(** A pair of equal nodes. *)
Definition eqpair (j i : nat) : Prop :=
  exists x, lv j !! (2 * i)%nat = Some x /\ lv j !! (2 * i + 1)%nat = Some x.

(** The root and the flag of the specification, by levels. *)
Lemma merkle_spec_levels k :
  length (lv k) = 1%nat -> (forall j, (j < k)%nat -> (1 < length (lv j))%nat) ->
  exists r, lv k = [r] /\
  forall j, (j <= k)%nat -> forall fuel, (length (lv j) <= fuel)%nat ->
  exists m, merkle_spec fuel (lv j) = (r, m) /\
    (m = true <-> exists j' i, (j <= j' < k)%nat /\ eqpair j' i).
Proof.
  intros Hk Hlt. destruct (lv k) as [|r [|]] eqn:Er; try done. exists r. split; [done|].
  intros j Hj. remember (k - j)%nat as d eqn:Ed. revert j Hj Ed.
  induction d as [|d IH]; intros j Hj Ed fuel Hf.
  - assert (j = k) as -> by lia. rewrite Er in *. exists false. split; [by destruct fuel|].
    split; [done|]. intros (j' & ? & ? & _). lia.
  - specialize (Hlt j ltac:(lia)). specialize (IH (S j) ltac:(lia) ltac:(lia)).
    rewrite lv_S in IH. pose proof (pairs_length (lv j)) as Hp.
    pose proof (equal_pair_spec (lv j)) as Hq.
    destruct fuel as [|fuel]; [lia|]. destruct (IH fuel ltac:(lia)) as (m & Em & Hm).
    destruct (lv j) as [|a [|b l]] eqn:El; [simpl in Hlt; lia|simpl in Hlt; lia|].
    cbn [merkle_spec]. rewrite Em. eexists. split; [done|].
    rewrite orb_true_iff, Hq, Hm. split.
    + intros [(i & x & E)|(j' & i & Hj' & E)].
      * exists j, i. split; [lia|]. exists x. by rewrite El.
      * exists j', i. split; [lia|done].
    + intros (j' & i & Hj' & E). destruct (decide (j' = j)) as [->|].
      * left. destruct E as [x E]. rewrite El in E. eauto.
      * right. exists j', i. split; [lia|done].
Qed.

(** ** Combining the pending nodes *)

Lemma bit_clear_spec q level :
  (level < 32)%nat -> bit_clear (Z.of_nat (q * 2 ^ level)) level = Nat.even q.
Proof.
  intros Hl. unfold bit_clear. rewrite Z.shiftl_1_l, wrap_small.
  2:{ split; [apply Z.pow_nonneg; lia|apply Z.pow_lt_mono_r; lia]. }
  rewrite land_pow2_eqb by lia.
  rewrite Nat2Z.inj_mul, Nat2Z.inj_pow, Z.mul_pow2_bits, Z.sub_diag by lia.
  rewrite Z.bit0_odd, <- Z.negb_even, negb_involutive.
  destruct (Nat.Even_or_Odd q) as [[k ->]|[k ->]].
  - rewrite Nat.even_even. replace (Z.of_nat (2 * k)) with (2 * Z.of_nat k) by lia.
    by rewrite Z.even_even.
  - rewrite Nat.even_odd. replace (Z.of_nat (2 * k + 1)) with (2 * Z.of_nat k + 1) by lia.
    by rewrite Z.even_odd.
Qed.

(** The levels from [level] on at which [count] has no bit hold the node left of the one
    that is pending. *)
Definition pending (count level : nat) (inner : list bytes) : Prop :=
  forall l q, (level <= l)%nat -> (2 * q * 2 ^ l = count)%nat -> (0 < q)%nat ->
  exists x, inner !! l = Some x /\ lv l !! (2 * (q - 1))%nat = Some x.

Lemma pending_S count level inner : pending count level inner -> pending count (S level) inner.
Proof. intros H l q Hl. apply H. lia. Qed.

Lemma of_nat_le_31 n : (n <= 2 ^ 31)%nat -> Z.of_nat n <= 2 ^ 31.
Proof. intros H. apply inj_le in H. by rewrite Nat2Z.inj_pow in H. Qed.

Lemma pow2_le_32 q l : (0 < q)%nat -> (q * 2 ^ l <= 2 ^ 31)%nat -> (l <= 31)%nat.
Proof.
  intros Hq H. destruct (Nat.leb_spec l 31) as [|Hlt]; [done|].
  assert (2 ^ 31 < 2 ^ l)%nat by (apply Nat.pow_lt_mono_r; lia). nia.
Qed.

Lemma fold_up_spec fuel count level q inner h m :
  (32 < fuel + level)%nat -> (0 < q)%nat -> (q * 2 ^ level = count)%nat -> (count <= 2 ^ 31)%nat ->
  lv level !! (q - 1)%nat = Some h -> pending count level inner ->
  exists l k h' m', fold_up fuel (Z.of_nat count) level inner h m = Some (l, h', m') /\
    (level <= l)%nat /\ ((2 * k + 1) * 2 ^ l = count)%nat /\ lv l !! (2 * k)%nat = Some h' /\
    (m' = true <-> m = true \/ exists j i, (level <= j)%nat /\
                                  ((2 * i + 2) * 2 ^ j = count)%nat /\ eqpair j i).
Proof.
  revert level q h m. induction fuel as [|fuel IH]; intros level q h m Hf Hq Ec Hc Hh Hp.
  { pose proof (pow2_le_32 q level Hq). lia. }
  pose proof (pow2_le_32 q level Hq ltac:(lia)) as Hl31. cbn [fold_up].
  rewrite (proj2 (Nat.leb_gt _ _)) by lia. 
  replace (bit_clear (Z.of_nat count) level) with (Nat.even q)
    by (by rewrite <- Ec, bit_clear_spec by lia).
  destruct (Nat.Even_or_Odd q) as [[k Ek]|[k Ek]].
  - assert (Nat.even q = true) as -> by (rewrite Ek; apply Nat.even_even).
    destruct (Hp level k) as (x & Hx & Hlv); [lia|lia|lia|]. rewrite Hx. cbn [mbind option_bind].
    assert (lv (S level) !! (k - 1)%nat = Some (node_hash x h)) as Hn.
    { apply lv_full; [done|]. by replace (2 * (k - 1) + 1)%nat with (q - 1)%nat by lia. }
    destruct (IH (S level) k (node_hash x h) (if bytes_eqb x h then true else m))
      as (l & k' & h' & m' & E & Hll & Eck & Hlh & Hm);
      [lia|lia|rewrite Nat.pow_succ_r'; lia|done|done|by apply pending_S|].
    exists l, k', h', m'. split_and!; [done|lia|done|done|]. rewrite Hm. clear IH.
    assert (eqpair level (k - 1) <-> x = h) as He.
    { unfold eqpair. rewrite Hlv. replace (2 * (k - 1) + 1)%nat with (q - 1)%nat by lia.
      rewrite Hh. split; [intros (? & ? & ?); congruence|intros ->; eauto]. }
    unfold bytes_eqb. destruct (bool_decide_reflect (x = h)) as [Exh|Exh].
    + split; [intros _|by left]. right. exists level, (k - 1)%nat.
      split_and!; [lia| |by apply He].
      by replace (2 * (k - 1) + 2)%nat with q by lia.
    + split.
      * intros [->|(j & i & Hj & Eji & Hij)]; [by left|right]. exists j, i. split_and!; [lia|done|done].
      * intros [->|(j & i & Hj & Eji & Hij)]; [by left|right]. exists j, i.
        split_and!; [|done|done]. destruct (decide (j = level)) as [->|]; [|lia].
        assert (2 * i + 2 = q)%nat by (pose proof (Nat.pow_nonzero 2 level ltac:(lia)); nia).
        exfalso. apply Exh, He. by replace (k - 1)%nat with i by lia.
  - assert (Nat.even q = false) as -> by (rewrite Ek; apply Nat.even_odd).
    exists level, k, h, m. split_and!; [done|lia|lia| |].
    + by replace (2 * k)%nat with (q - 1)%nat by lia.
    + split; [by left|]. intros [->|(j & i & Hj & Eji & _)]; [done|exfalso].
      replace j with ((j - level) + level)%nat in Eji by lia. rewrite Nat.pow_add_r in Eji.
      pose proof (Nat.pow_nonzero 2 level ltac:(lia)).
      assert ((2 * i + 2) * 2 ^ (j - level) = 2 * k + 1)%nat by nia. lia.
Qed.

(** ** The pass over the leaves *)

Lemma odd_part_unique q j k l :
  ((2 * q + 1) * 2 ^ j = (2 * k + 1) * 2 ^ l)%nat -> j = l.
Proof.
  assert (forall q j k l, (j < l)%nat -> ((2 * q + 1) * 2 ^ j <> (2 * k + 1) * 2 ^ l)%nat) as H.
  { clear. intros q j k l Hl E. replace l with (S (l - j - 1) + j)%nat in E by lia.
    rewrite Nat.pow_add_r, Nat.pow_succ_r' in E. pose proof (Nat.pow_nonzero 2 j ltac:(lia)).
    assert (2 * q + 1 = (2 * k + 1) * (2 * 2 ^ (l - j - 1)))%nat by nia. lia. }
  intros E. destruct (Nat.lt_trichotomy j l) as [Hl|[->|Hl]]; [|done|].
  - by apply H in E.
  - symmetry in E. by apply H in E.
Qed.

(** After [n] leaves the level of each bit of [n] holds its last full node. *)
Definition store (n : nat) (inner : list bytes) : Prop :=
  length inner = 32%nat /\
  forall j q, ((2 * q + 1) * 2 ^ j <= n < (2 * q + 2) * 2 ^ j)%nat ->
  exists x, inner !! j = Some x /\ lv j !! (2 * q)%nat = Some x.

Definition full_pairs (n : nat) : Prop :=
  exists j i, ((2 * i + 2) * 2 ^ j <= n)%nat /\ eqpair j i.

Lemma store_pending n inner : store n inner -> pending (S n) 0 inner.
Proof.
  intros [_ H] l q _ Hq Hq0. apply (H l (q - 1)%nat).
  pose proof (Nat.pow_nonzero 2 l ltac:(lia)).
  replace (2 * (q - 1) + 2)%nat with (2 * q)%nat by lia.
  replace (2 * (q - 1) + 1)%nat with (2 * q - 1)%nat by lia. nia.
Qed.

Lemma store_push n inner l k h :
  store n inner -> (n < 2 ^ 31)%nat -> ((2 * k + 1) * 2 ^ l = S n)%nat ->
  lv l !! (2 * k)%nat = Some h -> store (S n) (<[l := h]> inner).
Proof.
  intros [Hlen H] Hn El Hh. split; [by rewrite length_insert|]. intros j q Hq.
  pose proof (Nat.pow_nonzero 2 j ltac:(lia)). pose proof (Nat.pow_nonzero 2 l ltac:(lia)).
  destruct (decide (j = l)) as [->|Hjl].
  - assert (q = k) as ->.
    { rewrite <- El in Hq. destruct (Nat.lt_trichotomy q k) as [|[|]]; nia. }
    exists h. split; [|done].
    apply list_lookup_insert_eq. pose proof (pow2_le_32 (2 * k + 1) l). lia.
  - rewrite list_lookup_insert_ne by done. apply (H j q).
    destruct (decide ((2 * q + 1) * 2 ^ j = S n)%nat) as [E|]; [|lia].
    rewrite <- El in E. by apply odd_part_unique in E.
Qed.

Lemma merkle_leaves_spec rest n inner m :
  drop n leaves = rest -> (n <= N)%nat -> (N <= 2 ^ 31)%nat -> store n inner ->
  (m = true <-> full_pairs n) ->
  exists inner' m', merkle_leaves rest (Z.of_nat n) inner m = Some (Z.of_nat N, inner', m') /\
    store N inner' /\ (m' = true <-> full_pairs N).
Proof.
  revert n inner m. induction rest as [|h rest IH]; intros n inner m Hd Hn HN Hs Hm.
  { apply (f_equal length) in Hd. rewrite length_drop in Hd. simpl in Hd.
    assert (n = N) as -> by lia. by exists inner, m. }
  assert (leaves !! n = Some h) as Hh.
  { rewrite <- (Nat.add_0_r n), <- lookup_drop, Hd. done. }
  pose proof (lookup_lt_Some _ _ _ Hh) as Hlt. cbn [merkle_leaves].
  apply of_nat_le_31 in HN as HN'. rewrite (wrap_small 32) by (unfold urange; lia).
  replace (Z.of_nat n + 1) with (Z.of_nat (S n)) by lia.
  destruct (fold_up_spec 33 (S n) 0 (S n) inner h m) as (l & k & h' & m' & -> & _ & El & Hlh & Hm');
    [lia|lia|simpl; lia|lia| |by apply store_pending|].
  { by replace (S n - 1)%nat with n by lia. }
  cbn [mbind option_bind]. apply IH; [|lia|lia|by apply store_push with k; [|lia| |]|].
  - rewrite <- Nat.add_1_r, <- drop_drop, Hd. done.
  - rewrite Hm', Hm. unfold full_pairs. split.
    + intros [(j & i & Hji & E)|(j & i & _ & Hji & E)]; exists j, i; (split; [lia|done]).
    + intros (j & i & Hji & E). destruct (decide ((2 * i + 2) * 2 ^ j = S n)%nat);
        [right; exists j, i|left; exists j, i]; split_and?; try done; lia.
Qed.

Lemma lowest_level_spec fuel count level q :
  (32 < fuel + level)%nat -> (0 < q)%nat -> (q * 2 ^ level = count)%nat -> (count <= 2 ^ 31)%nat ->
  exists l k, lowest_level fuel (Z.of_nat count) level = Some l /\ ((2 * k + 1) * 2 ^ l = count)%nat.
Proof.
  revert level q. induction fuel as [|fuel IH]; intros level q Hf Hq Ec Hc;
    pose proof (pow2_le_32 q level Hq ltac:(lia)); [lia|].
  cbn [lowest_level]. rewrite (proj2 (Nat.leb_gt _ _)) by lia.
  replace (bit_clear (Z.of_nat count) level) with (Nat.even q)
    by (by rewrite <- Ec, bit_clear_spec by lia).
  destruct (Nat.Even_or_Odd q) as [[k ->]|[k ->]].
  - rewrite Nat.even_even. apply (IH (S level) k); [lia|lia|rewrite Nat.pow_succ_r'; lia|done].
  - rewrite Nat.even_odd. by exists level, k.
Qed.

(** ** The sweep *)

(** The pairs seen so far: all below [level], and the full ones. *)
Definition seen_pairs (level : nat) : Prop :=
  exists j i, eqpair j i /\ ((j < level)%nat \/ ((2 * i + 2) * 2 ^ j <= N)%nat).

Lemma eqpair_length j i : eqpair j i -> (2 * i + 2 <= length (lv j))%nat.
Proof. intros (x & _ & H%lookup_lt_Some). lia. Qed.

Lemma word_bit level : (level <= 31)%nat -> u32 (Z.shiftl 1 (Z.of_nat level)) = Z.of_nat (2 ^ level).
Proof.
  intros Hl. rewrite Z.shiftl_1_l, wrap_small, Nat2Z.inj_pow; [done|].
  split; [apply Z.pow_nonneg; lia|apply Z.pow_lt_mono_r; lia].
Qed.

(** Rounding up to the next level. *)
Lemma round_up level k :
  (0 < k)%nat -> (N <= 2 ^ 31)%nat -> ((2 * k + 1) * 2 ^ level < N + 2 ^ level)%nat ->
  ((k + 1) * 2 ^ S level <= 2 ^ 31)%nat.
Proof.
  intros Hk HN Hc. rewrite Nat.pow_succ_r'.
  pose proof (Nat.pow_nonzero 2 level ltac:(lia)).
  assert (level <= 31)%nat as Hl.
  { apply (pow2_le_32 1); [lia|]. nia. }
  assert (2 ^ 31 = 2 ^ (31 - level) * 2 ^ level)%nat as E
    by (rewrite <- Nat.pow_add_r; f_equal; lia).
  destruct (decide (level = 31%nat)) as [->|]; [change (2 ^ (31 - 31))%nat with 1%nat in E; nia|].
  replace (31 - level)%nat with (S (30 - level)) in E by lia.
  rewrite (Nat.pow_succ_r' 2 (30 - level)) in E. set (M := (2 ^ 31)%nat) in *. set (X := (2 ^ (30 - level))%nat) in *.
  assert (k < X)%nat by nia. nia.
Qed.

Lemma seen_pairs_step level k l k' :
  (0 < N)%nat -> (N <= (2 * k + 1) * 2 ^ level < N + 2 ^ level)%nat ->
  (S level <= l)%nat -> ((2 * k' + 1) * 2 ^ l = (k + 1) * 2 ^ S level)%nat ->
  (seen_pairs level \/ exists j i, (S level <= j)%nat /\
     ((2 * i + 2) * 2 ^ j = (k + 1) * 2 ^ S level)%nat /\ eqpair j i) <-> seen_pairs l.
Proof.
  intros HN Hc Hl El. set (c' := ((k + 1) * 2 ^ S level)%nat) in *. split.
  - intros [(j & i & E & H)|(j & i & Hj & Eji & E)]; exists j, i; (split; [done|]).
    + destruct H; [left; lia|by right].
    + left. destruct (Nat.lt_ge_cases j l) as [|Hjl]; [done|exfalso].
      replace j with (j - l + l)%nat in Eji by lia. rewrite Nat.pow_add_r in Eji.
      pose proof (Nat.pow_nonzero 2 l ltac:(lia)).
      assert ((2 * i + 2) * 2 ^ (j - l) = 2 * k' + 1)%nat by nia. lia.
  - intros (j & i & E & H). pose proof (eqpair_length j i E) as Hlen.
    pose proof (Nat.pow_nonzero 2 j ltac:(lia)) as Hpj.
    destruct H as [Hj|Hfull]; [|left; exists j, i; by split; [|right]].
    destruct (Nat.lt_trichotomy j level) as [Hlt|[->|Hgt]].
    + left. exists j, i. split; [done|by left].
    + left. exists level, i. split; [done|right].
      rewrite (lv_length_unique level (2 * k + 1) HN) in Hlen by lia. nia.
    + assert (exists Q, c' = 2 * Q * 2 ^ j)%nat as [Q EQ].
      { exists ((2 * k' + 1) * 2 ^ (l - S j))%nat. rewrite <- El.
        replace l with (l - S j + S j)%nat at 1 by lia.
        rewrite Nat.pow_add_r, Nat.pow_succ_r'. lia. }
      assert (2 ^ S level <= 2 ^ j)%nat by (apply Nat.pow_le_mono_r; lia).
      assert (2 ^ S level = 2 * 2 ^ level)%nat as E2 by apply Nat.pow_succ_r'.
      assert (N <= 2 * Q * 2 ^ j < N + 2 ^ j)%nat as HQ.
      { rewrite <- EQ. unfold c'. rewrite E2 in *. nia. }
      rewrite (lv_length_unique j (2 * Q) HN HQ) in Hlen.
      destruct (decide (i + 1 = Q)%nat) as [EiQ|].
      * right. exists j, i. split_and!; [lia| |done]. rewrite EQ. f_equal. lia.
      * left. exists j, i. split; [done|right]. nia.
Qed.

Lemma merkle_sweep_spec fuel level k inner h m (count := ((2 * k + 1) * 2 ^ level)%nat) :
  (32 < fuel + level)%nat -> (0 < N)%nat -> (N <= 2 ^ 31)%nat -> (N <= count < N + 2 ^ level)%nat ->
  (count < 2 * N)%nat -> (count <= 2 ^ 31)%nat -> store N inner ->
  lv level !! (2 * k)%nat = Some h -> (m = true <-> seen_pairs level) ->
  exists K r m', merkle_sweep fuel (Z.of_nat count) level inner h m = Some (r, m') /\
    lv K = [r] /\ (forall j, (j < K)%nat -> (1 < length (lv j))%nat) /\
    (m' = true <-> exists j i, (j < K)%nat /\ eqpair j i).
Proof.
  subst count. revert level k h m.
  induction fuel as [|fuel IH]; intros level k h m Hf HN0 HN Hc H2N Hc31 Hs Hh Hm;
    pose proof (pow2_le_32 (2 * k + 1) level ltac:(lia) ltac:(lia)) as Hl31; [lia|].
  pose proof (Nat.pow_nonzero 2 level ltac:(lia)) as Hp.
  cbn [merkle_sweep]. rewrite word_bit by done.
  destruct (Z.eqb_spec (Z.of_nat ((2 * k + 1) * 2 ^ level)) (Z.of_nat (2 ^ level))) as [E|E].
  - assert (k = 0)%nat as -> by nia. exists level, h, m.
    pose proof (lv_length_unique level 1 HN0 ltac:(lia)) as Hl1. split_and!; [done| | |].
    + destruct (lv level) as [|x [|]]; try done. simpl in Hh. by injection Hh as ->.
    + intros j Hj. pose proof (lv_length j HN0).
      assert (2 ^ S j <= 2 ^ level)%nat as Hjl by (apply Nat.pow_le_mono_r; lia).
      rewrite Nat.pow_succ_r' in Hjl. pose proof (Nat.pow_nonzero 2 j ltac:(lia)). nia.
    + rewrite Hm. split.
      * intros (j & i & Eji & [Hj|Hj]); exists j, i; (split; [|done]); [done|].
        destruct (Nat.lt_ge_cases j level) as [|Hge]; [done|].
        assert (2 ^ level <= 2 ^ j)%nat by (apply Nat.pow_le_mono_r; lia). nia.
      * intros (j & i & Hj & Eji). exists j, i. split; [done|by left].
  - assert (0 < k)%nat as Hk by (destruct k; [simpl in E; lia|lia]).
    pose proof (round_up level k Hk HN ltac:(lia)) as Hc'.
    assert ((2 * k + 1) * 2 ^ level + 2 ^ level = (k + 1) * 2 ^ S level)%nat as Ec
      by (rewrite Nat.pow_succ_r'; lia).
    replace (u32 (Z.of_nat ((2 * k + 1) * 2 ^ level) + Z.of_nat (2 ^ level)))
      with (Z.of_nat ((k + 1) * 2 ^ S level)).
    2:{ rewrite <- Nat2Z.inj_add, Ec. symmetry. apply wrap_small.
        apply of_nat_le_31 in Hc'. unfold urange. lia. }
    assert (2 ^ S level = 2 * 2 ^ level)%nat as E2 by apply Nat.pow_succ_r'.
    destruct (fold_up_spec 33 ((k + 1) * 2 ^ S level) (S level) (k + 1) inner (node_hash h h) m)
      as (l & k' & h' & m' & -> & Hl & El & Hlh & Hm'); [lia|lia|done|done| | |].
    { replace (k + 1 - 1)%nat with k by lia. apply lv_last; [done|].
      apply lv_length_unique; [done|lia]. }
    { intros l q Hl Eq Hq. destruct Hs as [_ Hs]. apply (Hs l (q - 1)%nat).
      assert (2 ^ S level <= 2 ^ l)%nat by (apply Nat.pow_le_mono_r; lia).
      replace (2 * (q - 1) + 2)%nat with (2 * q)%nat by lia.
      replace (2 * (q - 1) + 1)%nat with (2 * q - 1)%nat by lia.
      rewrite Nat.mul_sub_distr_r, Eq. nia. }
    cbn [mbind option_bind]. rewrite <- El.
    assert (2 ^ S level <= 2 ^ l)%nat by (apply Nat.pow_le_mono_r; lia).
    apply IH; [lia|done|done|lia|nia|lia|done|done|].
    rewrite Hm', Hm. by apply (seen_pairs_step level k l k').
Qed.
End tree.

Lemma compute_merkle_root_spec leaves :
  Z.of_nat (length leaves) <= 2 ^ 31 ->
  compute_merkle_root (Some leaves) = Some (merkle_spec (length leaves) leaves).
Proof.
  intros HN. destruct (decide (length leaves = 0%nat)) as [E0|].
  { by destruct leaves. }
  set (N := length leaves) in *. assert (N <= 2 ^ 31)%nat as HN'.
  { apply Nat2Z.inj_le. by rewrite Nat2Z.inj_pow. }
  assert (compute_merkle_root (Some leaves) =
          '(count, inner, mutated) ← merkle_leaves leaves 0 (replicate 32 (zeros 32)) false;
          level ← lowest_level 33 count 0;
          h ← inner !! level;
          merkle_sweep 33 count level inner h mutated) as ->.
  { unfold compute_merkle_root. destruct leaves as [|x l]; [done|]. fold N.
    rewrite (proj2 (Z.ltb_ge _ _)); [done|]. unfold UINT32_MAX. lia. }
  destruct (merkle_leaves_spec leaves leaves 0 (replicate 32 (zeros 32)) false)
    as (inner & m & E & Hs & Hm); [done|lia|done| | |].
  { split; [done|]. intros j q Hq. lia. }
  { split; [done|]. intros (j & i & Hji & _). pose proof (Nat.pow_nonzero 2 j ltac:(lia)). lia. }
  change (Z.of_nat 0) with 0 in E. rewrite E. cbn [mbind option_bind]. fold N.
  destruct (lowest_level_spec 33 N 0 N) as (l & k & -> & El); [lia|lia|simpl; lia|done|].
  pose proof (Nat.pow_nonzero 2 l ltac:(lia)) as Hp.
  destruct Hs as [Hlen Hs]. destruct (Hs l k) as (h & Hh & Hlv).
  { change (length leaves) with N. lia. }
  cbn [mbind option_bind]. rewrite Hh. cbn [mbind option_bind].
  destruct (merkle_sweep_spec leaves 33 l k inner h m)
    as (K & r & m' & E' & HK & Hlt & Hm'); fold N; [lia|lia|done|lia|lia|lia|done|done| |].
  { rewrite Hm. unfold full_pairs, seen_pairs. fold N. split.
    - intros (j & i & Hji & Eji). exists j, i. split; [done|by right].
    - intros (j & i & Eji & [Hj|Hj]); exists j, i; (split; [|done]); [|done].
      pose proof (eqpair_length leaves j i Eji) as Hl2.
      rewrite (lv_length_unique leaves j ((2 * k + 1) * 2 ^ (l - j))) in Hl2.
      + replace N with ((2 * k + 1) * 2 ^ (l - j) * 2 ^ j)%nat; [nia|].
        rewrite <- Nat.mul_assoc, <- Nat.pow_add_r. by replace (l - j + j)%nat with l by lia.
      + fold N. lia.
      + fold N. rewrite <- Nat.mul_assoc, <- Nat.pow_add_r.
        replace (l - j + j)%nat with l by lia.
        pose proof (Nat.pow_nonzero 2 j ltac:(lia)). lia. }
  rewrite El in E'. rewrite E'.
  destruct (merkle_spec_levels leaves K) as (r' & Er & Hspec); [by rewrite HK|done|].
  rewrite HK in Er. injection Er as <-.
  destruct (Hspec 0%nat ltac:(lia) (length leaves) ltac:(simpl; lia)) as (m2 & Em & Hm2).
  change (lv leaves 0) with leaves in Em. fold N in Em. rewrite Em. do 2 f_equal.
  apply Bool.eq_true_iff_eq. rewrite Hm', Hm2. split.
  - intros (j & i & Hj & Eji). exists j, i. split; [lia|done].
  - intros (j & i & Hj & Eji). exists j, i. split; [lia|done].
Qed.

(** C38: For at most 2^31 leaves the one-pass computation ends, never shifts by 32 bits or
    leaves its array of 32 pending nodes, and gives the root of the textbook tree; the
    flag is set exactly when some level of that tree pairs two equal nodes, the mutation
    of CVE-2012-2459. *)
Theorem compute_merkle_root_correct leaves :
  Z.of_nat (length leaves) <= 2 ^ 31 ->
  compute_merkle_root (Some leaves) = Some (merkle_spec (length leaves) leaves).
Proof. apply compute_merkle_root_spec. Qed.

Lemma compute_merkle_root_correct_witness :
  compute_merkle_root (Some [zeros 32; zeros 32; zeros 32]) =
  Some (merkle_spec 3 [zeros 32; zeros 32; zeros 32]).
Proof. apply (compute_merkle_root_correct [zeros 32; zeros 32; zeros 32]). simpl. lia. Defined.

(** ** More leaves *)

Lemma fold_up_zero fuel level inner h m : fold_up fuel 0 level inner h m = None.
Proof.
  revert level h m. induction fuel as [|fuel IH]; intros level h m; [done|]. cbn [fold_up].
  destruct (32 <=? level)%nat; [done|]. unfold bit_clear. rewrite Z.land_0_l. cbn [Z.eqb].
  destruct (inner !! level); [apply IH|done].
Qed.

(** From one leaf more than 2^31 on, the sweep counts up to 2^32, which is zero, and then
    looks for a bit of it: the check of the code against [UINT32_MAX] comes too late. *)
Lemma merkle_sweep_overflow fuel level inner h m :
  (level <= 30)%nat -> merkle_sweep fuel (2 ^ 31 + 2 ^ Z.of_nat level) level inner h m = None.
Proof.
  remember (30 - level)%nat as d eqn:Ed. revert fuel level h m Ed.
  induction d as [|d IH]; intros [|fuel] level h m Ed Hl; try done; cbn [merkle_sweep];
    rewrite Z.shiftl_1_l;
    assert (2 ^ Z.of_nat level <= 2 ^ 30) by (apply Z.pow_le_mono_r; lia);
    assert (0 < 2 ^ Z.of_nat level) by (apply Z.pow_pos_nonneg; lia);
    rewrite !(wrap_small 32 (2 ^ _)) by (unfold urange; lia);
    rewrite (proj2 (Z.eqb_neq _ _)) by lia.
  - assert (level = 30%nat) as -> by lia. by rewrite fold_up_zero.
  - replace (2 ^ 31 + 2 ^ Z.of_nat level + 2 ^ Z.of_nat level) with (2 ^ 31 + 2 ^ Z.of_nat (S level))
      by (rewrite Nat2Z.inj_succ, Z.pow_succ_r by lia; lia).
    assert (2 ^ Z.of_nat (S level) <= 2 ^ 30) by (apply Z.pow_le_mono_r; lia).
    assert (0 < 2 ^ Z.of_nat (S level)) by (apply Z.pow_pos_nonneg; lia).
    rewrite wrap_small by (unfold urange; lia). cbn [fold_up].
    rewrite (proj2 (Nat.leb_gt _ _)) by lia. unfold bit_clear.
    rewrite Z.shiftl_1_l, wrap_small by (unfold urange; lia). rewrite land_pow2_eqb by lia.
    replace (Z.testbit (2 ^ 31 + 2 ^ Z.of_nat (S level)) (Z.of_nat (S level))) with true.
    2:{ symmetry. rewrite Z.testbit_true by lia.
        replace 31 with (31 - Z.of_nat (S level) + Z.of_nat (S level)) at 1 by lia.
        rewrite Z.pow_add_r, Z.div_add_l, Z.div_same by lia.
        replace (31 - Z.of_nat (S level)) with (Z.succ (30 - Z.of_nat (S level))) by lia.
        rewrite Z.pow_succ_r, Z.add_comm, Z.mul_comm, Z.mod_add by lia. done. }
    cbn [negb mbind option_bind]. apply IH; lia.
Qed.
