(* ===== verification/Scrypt.v ===== *)
(** * Scrypt ([src/src/scrypt.c])

    The proof-of-work hash with its fixed parameters and the general function of
    RFC 7914, both in the portable version.  Blocks are lists of 32-bit words; both are
    shown to compute the function of the RFC. *)

From S2P Require Import Prelude Words Utils Arith256 Sha2 Hmac Sha256.

Local Open Scope Z_scope.

Definition ROTL (a b : Z) : Z := Z.lor (u32 (Z.shiftl a b)) (Z.shiftr a (32 - b)).

(** [x[i]] *)
Definition wd (x : list Z) (i : nat) : Z := default 0 (x !! i).

(** [x[d] ^= ROTL(x[a] + x[b], r)] *)
Definition mx (d a b r : Z) : Z := Z.lxor d (ROTL (u32 (a + b)) r).
Definition mix (x : list Z) (s : nat * nat * nat * Z) : list Z :=
  let '(d, a, b, r) := s in <[d := mx (wd x d) (wd x a) (wd x b) r]> x.

(** The statements of [xor_salsa8], in their order. *)
Definition columns : list (nat * nat * nat * Z) := [
  (4, 0, 12, 7%Z); (9, 5, 1, 7%Z); (14, 10, 6, 7%Z); (3, 15, 11, 7%Z);
  (8, 4, 0, 9%Z); (13, 9, 5, 9%Z); (2, 14, 10, 9%Z); (7, 3, 15, 9%Z);
  (12, 8, 4, 13%Z); (1, 13, 9, 13%Z); (6, 2, 14, 13%Z); (11, 7, 3, 13%Z);
  (0, 12, 8, 18%Z); (5, 1, 13, 18%Z); (10, 6, 2, 18%Z); (15, 11, 7, 18%Z)]%nat.
Definition rows : list (nat * nat * nat * Z) := [
  (1, 0, 3, 7%Z); (6, 5, 4, 7%Z); (11, 10, 9, 7%Z); (12, 15, 14, 7%Z);
  (2, 1, 0, 9%Z); (7, 6, 5, 9%Z); (8, 11, 10, 9%Z); (13, 12, 15, 9%Z);
  (3, 2, 1, 13%Z); (4, 7, 6, 13%Z); (9, 8, 11, 13%Z); (14, 13, 12, 13%Z);
  (0, 3, 2, 18%Z); (5, 4, 7, 18%Z); (10, 9, 8, 18%Z); (15, 14, 13, 18%Z)]%nat.

(** Those of [scrypt_rfc7914_salsa20_8]. *)
Definition columns' : list (nat * nat * nat * Z) := [
  (4, 0, 12, 7%Z); (8, 4, 0, 9%Z); (12, 8, 4, 13%Z); (0, 12, 8, 18%Z);
  (9, 5, 1, 7%Z); (13, 9, 5, 9%Z); (1, 13, 9, 13%Z); (5, 1, 13, 18%Z);
  (14, 10, 6, 7%Z); (2, 14, 10, 9%Z); (6, 2, 14, 13%Z); (10, 6, 2, 18%Z);
  (3, 15, 11, 7%Z); (7, 3, 15, 9%Z); (11, 7, 3, 13%Z); (15, 11, 7, 18%Z)]%nat.
Definition rows' : list (nat * nat * nat * Z) := [
  (1, 0, 3, 7%Z); (2, 1, 0, 9%Z); (3, 2, 1, 13%Z); (0, 3, 2, 18%Z);
  (6, 5, 4, 7%Z); (7, 6, 5, 9%Z); (4, 7, 6, 13%Z); (5, 4, 7, 18%Z);
  (11, 10, 9, 7%Z); (8, 11, 10, 9%Z); (9, 8, 11, 13%Z); (10, 9, 8, 18%Z);
  (12, 15, 14, 7%Z); (13, 12, 15, 9%Z); (14, 13, 12, 13%Z); (15, 14, 13, 18%Z)]%nat.

Definition add_blocks (B x : list Z) : list Z := zip_with (fun b x => u32 (b + x)) B x.
Definition blkxor (dest src : list Z) : list Z := zip_with Z.lxor dest src.

Definition salsa_rounds (cols rws : list (nat * nat * nat * Z)) (x : list Z) : list Z :=
  Nat.iter 4 (fun x => foldl mix (foldl mix x cols) rws) x.

Definition xor_salsa8 (B Bx : list Z) : list Z :=
  let B := blkxor B Bx in add_blocks B (salsa_rounds columns rows B).

Definition scrypt_rfc7914_salsa20_8 (B : list Z) : list Z :=
  add_blocks B (salsa_rounds columns' rows' B).

(** ** The hash of the proof of work *)

(** The two calls on the halves of [X]. *)
Definition mix_halves (X : list Z) : list Z :=
  let lo := xor_salsa8 (take 16 X) (drop 16 X) in
  lo ++ xor_salsa8 (drop 16 X) lo.

(** Row [i] of the scratch pad is written in step [i]. *)
Definition fill_step (st : list (list Z) * list Z) : list (list Z) * list Z :=
  (st.1 ++ [st.2], mix_halves st.2).

Definition mix_step (V : list (list Z)) (X : list Z) : list Z :=
  let j := Z.to_nat (Z.land (wd X 16) 1023) in
  mix_halves (blkxor X (default [] (V !! j))).

Definition words_le (n : nat) (b : bytes) : list Z := words_of n b.
Definition bytes_le (x : list Z) : bytes := concat (le_enc 4 <$> x).

Definition scrypt_1024_1_1_256 (input : bytes) : bytes :=
  let B := pbkdf2_hmac_sha256 input input 1 (zeros 128) 128 in
  let X := words_le 32 B in
  let '(V, X) := Nat.iter 1024 fill_step ([], X) in
  let X := Nat.iter 1024 (mix_step V) X in
  let B := bytes_le X in
  swap_bytes (pbkdf2_hmac_sha256 input B 1 (zeros 32) 32) 32.

(** ** The general function *)

(** Two blocks of [Bin]; the outputs go to [Bout[i * 8]] and [Bout[i * 8 + r * 16]]. *)
Definition blockmix_step (Bin : list Z) (st : list Z * list Z * list Z) (i : nat)
    : list Z * list Z * list Z :=
  let '(X, lo, hi) := st in
  let X := scrypt_rfc7914_salsa20_8 (blkxor X (take 16 (drop (2 * i * 16) Bin))) in
  let lo := lo ++ X in
  let X := scrypt_rfc7914_salsa20_8 (blkxor X (take 16 (drop (2 * i * 16 + 16) Bin))) in
  let hi := hi ++ X in
  (X, lo, hi).

Definition scrypt_rfc7914_blockmix_salsa8 (Bin : list Z) (r : nat) : list Z :=
  let X := take 16 (drop ((2 * r - 1) * 16) Bin) in
  let '(_, lo, hi) := foldl (blockmix_step Bin) (X, [], []) (seq 0 r) in
  lo ++ hi.

Definition scrypt_rfc7914_integerify (B : list Z) (r : nat) : Z :=
  u64 (u64 (Z.shiftl (wd B ((2 * r - 1) * 16 + 1)) 32) + wd B ((2 * r - 1) * 16)).

(** Two steps at a time, with [X] and [Y] exchanging their roles. *)
Definition smix_fill (r : nat) (st : list (list Z) * list Z) : list (list Z) * list Z :=
  let '(V, X) := st in
  let V := V ++ [X] in
  let Y := scrypt_rfc7914_blockmix_salsa8 X r in
  let V := V ++ [Y] in
  (V, scrypt_rfc7914_blockmix_salsa8 Y r).

Definition smix_mix (r : nat) (N : Z) (V : list (list Z)) (X : list Z) : list Z :=
  let j := Z.land (scrypt_rfc7914_integerify X r) (N - 1) in
  let X := blkxor X (default [] (V !! Z.to_nat j)) in
  let Y := scrypt_rfc7914_blockmix_salsa8 X r in
  let j := Z.land (scrypt_rfc7914_integerify Y r) (N - 1) in
  let Y := blkxor Y (default [] (V !! Z.to_nat j)) in
  scrypt_rfc7914_blockmix_salsa8 Y r.

Definition scrypt_rfc7914_smix (B : bytes) (r : nat) (N : Z) : bytes :=
  let X := words_le (32 * r) B in
  let '(V, X) := Nat.iter (Z.to_nat (N / 2)) (smix_fill r) ([], X) in
  let X := Nat.iter (Z.to_nat (N / 2)) (smix_mix r N V) X in
  bytes_le X.

(** The checks on the parameters; [r] and [p] are 32-bit, [N] and [buflen] 64-bit. *)
Definition scrypt_params_ok (N r p buflen : Z) : bool :=
  negb ((2 ^ 32 - 1) * 32 <? buflen) && negb (2 ^ 30 <=? r * p) &&
  negb ((r =? 0) || (p =? 0)) && negb (negb (Z.land N (N - 1) =? 0) || (N <? 2)) &&
  negb ((2 ^ 64 - 1) / 128 / p <? r) && negb ((2 ^ 64 - 1) / 128 / r <? N).

(** Result and buffer; [mallocs]: whether the three allocations succeed.  [None]: the
    lengths do not fit the 32-bit arithmetic on [r] and [p] or the [int] parameters of
    PBKDF2, so that the regions are too small for what is done to them. *)
Definition dogecoin_scrypt_rfc7914 (mallocs : bool) (passwd salt : bytes) (N r p : Z)
    (buf : bytes) : option (Z * bytes) :=
  let buflen := Z.of_nat (length buf) in
  if negb (scrypt_params_ok N r p buflen) then Some (0, buf)
  else if negb mallocs then Some (0, buf)
  else if (2 ^ 31 <=? 128 * r * p) || (2 ^ 31 <=? buflen) ||
          (2 ^ 31 <=? Z.of_nat (length passwd)) || (2 ^ 31 <=? Z.of_nat (length salt))
  then None
  else
    let n := Z.to_nat (128 * r) in
    let B := pbkdf2_hmac_sha256 passwd salt 1 (zeros (Z.to_nat (p * 128 * r)))
               (Z.to_nat (p * 128 * r)) in
    let B := foldl (fun B i => list_inserts (i * n)
                      (scrypt_rfc7914_smix (take n (drop (i * n) B)) (Z.to_nat r) N) B)
               B (seq 0 (Z.to_nat p)) in
    Some (1, pbkdf2_hmac_sha256 passwd B 1 buf (length buf)).

(** ** RFC 7914 *)

Definition rotl32 (a b : Z) : Z := (a * 2 ^ b) mod 2 ^ 32 + a / 2 ^ (32 - b).

(** Bernstein's quarter round, on four words. *)
Definition quarterround (a b c d : Z) : Z * Z * Z * Z :=
  let b := Z.lxor b (rotl32 ((a + d) mod 2 ^ 32) 7) in
  let c := Z.lxor c (rotl32 ((b + a) mod 2 ^ 32) 9) in
  let d := Z.lxor d (rotl32 ((c + b) mod 2 ^ 32) 13) in
  let a := Z.lxor a (rotl32 ((d + c) mod 2 ^ 32) 18) in
  (a, b, c, d).

(** A quarter round on four positions of the matrix. *)
Definition on_words (x : list Z) (i : nat * nat * nat * nat) : list Z :=
  let '(i, j, k, l) := i in
  let '(a, b, c, d) := quarterround (wd x i) (wd x j) (wd x k) (wd x l) in
  <[l := d]> (<[k := c]> (<[j := b]> (<[i := a]> x))).

Definition doubleround (x : list Z) : list Z :=
  let x := foldl on_words x [(0, 4, 8, 12); (5, 9, 13, 1); (10, 14, 2, 6); (15, 3, 7, 11)]%nat in
  foldl on_words x [(0, 1, 2, 3); (5, 6, 7, 4); (10, 11, 8, 9); (15, 12, 13, 14)]%nat.

Definition salsa20_8 (x : list Z) : list Z :=
  zip_with (fun b x => (b + x) mod 2 ^ 32) x (Nat.iter 4 doubleround x).

Definition blocks16 (k : nat) (B : list Z) : list (list Z) :=
  (fun i => take 16 (drop (i * 16) B)) <$> seq 0 k.

Fixpoint salsa_chain (X : list Z) (bs : list (list Z)) : list (list Z) :=
  match bs with
  | [] => []
  | b :: bs => let Y := salsa20_8 (zip_with Z.lxor X b) in Y :: salsa_chain Y bs
  end.

Fixpoint evens {A} (l : list A) : list A :=
  match l with a :: _ :: l => a :: evens l | [a] => [a] | [] => [] end.
Fixpoint odds {A} (l : list A) : list A :=
  match l with _ :: b :: l => b :: odds l | _ => [] end.

Definition scryptBlockMix (r : nat) (B : list Z) : list Z :=
  let bs := blocks16 (2 * r) B in
  let Y := salsa_chain (default [] (bs !! (2 * r - 1)%nat)) bs in
  concat (evens Y ++ odds Y).

(** The number the last block stands for. *)
Definition Integerify (r : nat) (B : list Z) : Z := val (take 16 (drop ((2 * r - 1) * 16) B)).

Definition scryptROMix (r : nat) (B : bytes) (N : nat) : bytes :=
  let X := words_le (32 * r) B in
  let V := (fun i => Nat.iter i (scryptBlockMix r) X) <$> seq 0 N in
  let mix X :=
    let j := Z.to_nat (Integerify r X mod Z.of_nat N) in
    scryptBlockMix r (zip_with Z.lxor X (default [] (V !! j))) in
  bytes_le (Nat.iter N mix (Nat.iter N (scryptBlockMix r) X)).

Definition scrypt (P S : bytes) (N r p dkLen : nat) : bytes :=
  let B := rfc8018_pbkdf2 P S 1 (p * 128 * r) in
  let B := concat ((fun i => scryptROMix r (take (128 * r) (drop (i * (128 * r)) B)) N)
                     <$> seq 0 p) in
  rfc8018_pbkdf2 P B 1 dkLen.

(** ** The core *)

Lemma ROTL_rotl32 z r : 0 < r < 32 -> ROTL (u32 z) r = rotl32 (u32 z) r.
Proof.
  intros Hr. pose proof (wrap_range 32 z ltac:(lia)) as Hw.
  destruct (word_shift_left (u32 z) r Hw Hr) as (E & Hh & Hd).
  unfold ROTL, rotl32. rewrite (lor_disjoint _ _ r) by (done || lia).
  rewrite Z.shiftl_mul_pow2, Z.shiftr_div_pow2 by lia. done.
Qed.

Lemma length_16_inv (x : list Z) :
  length x = 16%nat -> exists a b c d e f g h i j k l m n o p,
  x = [a; b; c; d; e; f; g; h; i; j; k; l; m; n; o; p].
Proof.
  do 16 (destruct x as [|? x]; [done|]). destruct x; [|done]. intros _. repeat eexists.
Qed.

(** The same step with the rotation of the specification. *)
Definition mx' (d a b r : Z) : Z := Z.lxor d (rotl32 ((a + b) mod 2 ^ 32) r).
Definition mix' (x : list Z) (s : nat * nat * nat * Z) : list Z :=
  let '(d, a, b, r) := s in <[d := mx' (wd x d) (wd x a) (wd x b) r]> x.

Lemma mix_mix' x (s : list (nat * nat * nat * Z)) :
  Forall (fun t => 0 < t.2 < 32) s -> foldl mix x s = foldl mix' x s.
Proof.
  intros H. revert x. induction H as [|[[[d a] b] r] s Hr Hs IH]; intros x; [done|].
  cbn [foldl]. rewrite IH. f_equal. unfold mix, mix', mx, mx'. simpl in Hr.
  by rewrite ROTL_rotl32.
Qed.

Lemma quarterround_mx a b c d :
  quarterround a b c d =
  let b := mx' b a d 7 in let c := mx' c b a 9 in let d := mx' d c b 13 in
  (mx' a d c 18, b, c, d).
Proof. done. Qed.

Lemma half_round_length x s : length (foldl mix' x s) = length x.
Proof.
  revert x. induction s as [|[[[d a] b] r] s IH]; intros x; [done|]. cbn [foldl mix'].
  by rewrite IH, length_insert.
Qed.

Ltac explicit_words x :=
  destruct (length_16_inv x ltac:(done)) as (a&b&c&d&e&f&g&h&i&j&k&l&m&n&o&p&->).

Lemma columns_spec x :
  length x = 16%nat ->
  foldl mix' x columns = foldl on_words x [(0, 4, 8, 12); (5, 9, 13, 1); (10, 14, 2, 6); (15, 3, 7, 11)]%nat /\
  foldl mix' x columns' = foldl mix' x columns.
Proof.
  intros Hx. explicit_words x.
  unfold columns, columns', mix', on_words, wd. split; cbn -[mx' quarterround];
    [rewrite !quarterround_mx; cbn -[mx']; reflexivity|reflexivity].
Qed.

Lemma rows_spec x :
  length x = 16%nat ->
  foldl mix' x rows = foldl on_words x [(0, 1, 2, 3); (5, 6, 7, 4); (10, 11, 8, 9); (15, 12, 13, 14)]%nat /\
  foldl mix' x rows' = foldl mix' x rows.
Proof.
  intros Hx. explicit_words x.
  unfold rows, rows', mix', on_words, wd. split; cbn -[mx' quarterround];
    [rewrite !quarterround_mx; cbn -[mx']; reflexivity|reflexivity].
Qed.

Lemma rounds_spec cols rws x :
  (cols = columns /\ rws = rows \/ cols = columns' /\ rws = rows') -> length x = 16%nat ->
  salsa_rounds cols rws x = Nat.iter 4 doubleround x /\
  length (salsa_rounds cols rws x) = 16%nat.
Proof.
  intros Hcr Hx. assert (forall y, length y = 16%nat ->
    foldl mix (foldl mix y cols) rws = doubleround y /\ length (doubleround y) = 16%nat) as H.
  { intros y Hy. assert (foldl mix (foldl mix y cols) rws = foldl mix' (foldl mix' y cols) rws) as ->.
    { rewrite !mix_mix'; [done|..]; destruct Hcr as [[-> ->]|[-> ->]];
        repeat (apply List.Forall_cons; [simpl; lia|]); apply List.Forall_nil. }
    destruct (columns_spec y Hy) as [C1 C2].
    assert (length (foldl mix' y columns) = 16%nat) as Hc by (by rewrite half_round_length).
    destruct (rows_spec _ Hc) as [R1 R2]. unfold doubleround. rewrite <- C1, <- R1.
    split; [|by rewrite !half_round_length].
    destruct Hcr as [[-> ->]|[-> ->]]; [done|]. by rewrite C2, R2. }
  unfold salsa_rounds.
  set (f := fun x => foldl mix (foldl mix x cols) rws).
  assert (forall n, Nat.iter n f x = Nat.iter n doubleround x /\ length (Nat.iter n f x) = 16%nat)
    as Hn; [|apply Hn].
  induction n as [|n [IH1 IH2]]; [done|]. rewrite !Nat.iter_succ.
  destruct (H _ IH2) as [H1 H2]. change (foldl mix (foldl mix ?y cols) rws) with (f y) in H1.
  rewrite H1. by rewrite <- IH1.
Qed.

Lemma salsa_length x : length x = 16%nat -> length (salsa20_8 x) = 16%nat.
Proof.
  intros Hx. destruct (rounds_spec columns rows x) as [E Hl]; [by left|done|].
  unfold salsa20_8. rewrite length_zip_with, <- E. lia.
Qed.

Lemma xor_salsa8_spec B Bx :
  length B = 16%nat -> length Bx = 16%nat ->
  xor_salsa8 B Bx = salsa20_8 (zip_with Z.lxor B Bx).
Proof.
  intros HB HBx. unfold xor_salsa8, blkxor. set (x := zip_with Z.lxor B Bx).
  assert (length x = 16%nat) as Hx by (unfold x; rewrite length_zip_with; lia).
  unfold salsa20_8, add_blocks.
  destruct (rounds_spec columns rows x) as [-> _]; [by left|done|]. done.
Qed.

Lemma rfc_salsa_spec x : length x = 16%nat -> scrypt_rfc7914_salsa20_8 x = salsa20_8 x.
Proof.
  intros Hx. unfold scrypt_rfc7914_salsa20_8, salsa20_8, add_blocks.
  destruct (rounds_spec columns' rows' x) as [-> _]; [by right|done|]. done.
Qed.

(** ** Mixing blocks *)

Lemma blocks16_lookup k B i :
  (i < k)%nat -> blocks16 k B !! i = Some (take 16 (drop (i * 16) B)).
Proof. intros Hi. unfold blocks16. by rewrite list_lookup_fmap, lookup_seq_lt. Qed.

Lemma evens_odds_snoc2 {A} (l : list A) a b n :
  length l = (2 * n)%nat -> evens (l ++ [a; b]) = evens l ++ [a] /\ odds (l ++ [a; b]) = odds l ++ [b].
Proof.
  revert l. induction n as [|n IH]; intros l Hl; [by destruct l|].
  destruct l as [|x [|y l]]; [simpl in Hl; lia|simpl in Hl; lia|].
  destruct (IH l) as [E1 E2]; [simpl in Hl; lia|].
  cbn [evens odds app]. cbn [app] in E1, E2. by rewrite E1, E2.
Qed.

Lemma salsa_chain_app X l b :
  salsa_chain X (l ++ [b]) =
  salsa_chain X l ++ [salsa20_8 (zip_with Z.lxor (default X (last (salsa_chain X l))) b)].
Proof.
  revert X. induction l as [|a l IH]; intros X; [done|]. cbn [salsa_chain app].
  rewrite IH. cbn [app]. do 4 f_equal. rewrite last_cons.
  by destruct (last (salsa_chain _ l)).
Qed.

Lemma salsa_chain_length X l : length (salsa_chain X l) = length l.
Proof. revert X. induction l as [|b l IH]; intros X; [done|]. simpl. by rewrite IH. Qed.

Lemma blocks16_S k B : blocks16 (S k) B = blocks16 k B ++ [take 16 (drop (k * 16) B)].
Proof. unfold blocks16. by rewrite seq_S, fmap_app. Qed.

Lemma blocks16_length k B : length (blocks16 k B) = k.
Proof. unfold blocks16. by rewrite length_fmap, length_seq. Qed.

(** The loop after [n] rounds, against the chain of the first [2 * n] blocks. *)
Lemma blockmix_loop_spec B r n X0 :
  length B = (32 * r)%nat -> (n <= r)%nat -> length X0 = 16%nat ->
  let Y := salsa_chain X0 (blocks16 (2 * n) B) in
  foldl (blockmix_step B) (X0, [], []) (seq 0 n) =
    (default X0 (last Y), concat (evens Y), concat (odds Y)) /\
  length (default X0 (last Y)) = 16%nat.
Proof.
  intros HB Hn HX. induction n as [|n IH]; [done|]. destruct IH as [IH IHl]; [lia|].
  rewrite seq_S, foldl_app. cbn [Nat.add]. cbv zeta in *. rewrite IH.
  replace (2 * S n)%nat with (S (S (2 * n))) by lia. rewrite !blocks16_S.
  rewrite !salsa_chain_app. set (Y := salsa_chain X0 (blocks16 (2 * n) B)) in *.
  set (X := default X0 (last Y)) in *. set (b1 := take 16 (drop (2 * n * 16) B)).
  set (b2 := take 16 (drop (S (2 * n) * 16) B)).
  assert (length b1 = 16%nat /\ length b2 = 16%nat) as [H1 H2]
    by (unfold b1, b2; rewrite !length_take, !length_drop; lia).
  cbn [foldl blockmix_step]. fold b1.
  replace (2 * n * 16 + 16)%nat with (S (2 * n) * 16)%nat by lia. fold b2.
  rewrite (rfc_salsa_spec (blkxor X b1)) by (unfold blkxor; rewrite length_zip_with; lia).
  change (blkxor X b1) with (zip_with Z.lxor X b1). set (Y1 := salsa20_8 (zip_with Z.lxor X b1)).
  assert (length Y1 = 16%nat) as HY1 by (apply salsa_length; rewrite length_zip_with; lia).
  rewrite rfc_salsa_spec by (unfold blkxor; rewrite length_zip_with; lia).
  change (blkxor Y1 b2) with (zip_with Z.lxor Y1 b2). rewrite !last_snoc. cbn [default from_option].
  unfold id. set (Y2 := salsa20_8 (zip_with Z.lxor Y1 b2)).
  rewrite <- app_assoc. cbn [app].
  destruct (evens_odds_snoc2 Y Y1 Y2 n) as [-> ->].
  { unfold Y. by rewrite salsa_chain_length, blocks16_length. }
  rewrite !concat_app. cbn [concat]. rewrite !app_nil_r.
  split; [done|]. apply salsa_length. rewrite length_zip_with. lia.
Qed.

Lemma blockmix_spec B r :
  length B = (32 * r)%nat -> (0 < r)%nat ->
  scrypt_rfc7914_blockmix_salsa8 B r = scryptBlockMix r B /\
  length (scryptBlockMix r B) = (32 * r)%nat.
Proof.
  intros HB Hr. unfold scrypt_rfc7914_blockmix_salsa8, scryptBlockMix.
  rewrite blocks16_lookup by lia. cbn [default from_option]. unfold id.
  set (X0 := take 16 (drop ((2 * r - 1) * 16) B)).
  assert (length X0 = 16%nat) as HX by (unfold X0; rewrite length_take, length_drop; lia).
  destruct (blockmix_loop_spec B r r X0 HB ltac:(lia) HX) as [E _]. rewrite E, concat_app.
  split; [done|].
  assert (forall n, (n <= r)%nat -> length (concat (evens (salsa_chain X0 (blocks16 (2 * n) B)))) = (16 * n)%nat /\
    length (concat (odds (salsa_chain X0 (blocks16 (2 * n) B)))) = (16 * n)%nat) as Hl.
  2:{ destruct (Hl r) as [H1 H2]; [done|]. rewrite length_app. lia. }
  intros n. induction n as [|n IH]; intros Hn; [done|]. destruct IH as [IH1 IH2]; [lia|].
  replace (2 * S n)%nat with (S (S (2 * n))) by lia. rewrite !blocks16_S, !salsa_chain_app.
  rewrite <- app_assoc. cbn [app].
  destruct (blockmix_loop_spec B r n X0 HB ltac:(lia) HX) as [_ Hlast].
  match goal with |- context [evens (?Y ++ [?a; ?b])] =>
    destruct (evens_odds_snoc2 Y a b n) as [-> ->] end.
  { by rewrite salsa_chain_length, blocks16_length. }
  rewrite !concat_app, !length_app. cbn [concat]. rewrite !app_nil_r, last_snoc.
  change (default X0 (Some ?y)) with y.
  assert (forall i, (i < 2 * r)%nat -> length (take 16 (drop (i * 16) B)) = 16%nat) as Hb
    by (intros; rewrite length_take, length_drop; lia).
  clear E. set (X := default X0 (last _)) in *.
  assert (forall x b, length x = 16%nat -> length b = 16%nat ->
    length (salsa20_8 (zip_with Z.lxor x b)) = 16%nat) as Hs
    by (intros x b Hx Hy; apply salsa_length; rewrite length_zip_with; lia).
  assert (length (salsa20_8 (zip_with Z.lxor X (take 16 (drop (2 * n * 16) B)))) = 16%nat) as HY1
    by (apply Hs; [exact Hlast|apply Hb; lia]).
  rewrite HY1. rewrite (Hs (salsa20_8 _)); [lia|exact HY1|apply Hb; lia].
Qed.

(** ** Filling and mixing *)

Lemma zip_lxor_comm (a b : list Z) : zip_with Z.lxor a b = zip_with Z.lxor b a.
Proof.
  revert b. induction a as [|x a IH]; intros [|y b]; try done. simpl. by rewrite Z.lxor_comm, IH.
Qed.

Lemma mix_halves_spec X : length X = 32%nat -> mix_halves X = scryptBlockMix 1 X.
Proof.
  intros HX. unfold mix_halves, scryptBlockMix.
  assert (length (take 16 X) = 16%nat /\ length (drop 16 X) = 16%nat) as [H1 H2]
    by (rewrite length_take, length_drop; lia).
  assert (length (salsa20_8 (zip_with Z.lxor (take 16 X) (drop 16 X))) = 16%nat) as H3
    by (apply salsa_length; rewrite length_zip_with; lia).
  rewrite (xor_salsa8_spec (take 16 X)), xor_salsa8_spec by done.
  unfold blocks16. cbn [seq fmap list_fmap Nat.mul Nat.add Nat.sub lookup list_lookup].
  change (0 * 16)%nat with 0%nat. change (1 * 16)%nat with 16%nat. rewrite drop_0.
  rewrite (take_ge (drop 16 X)) by lia. cbn [default from_option salsa_chain evens odds app concat].
  unfold id. rewrite app_nil_r. f_equal.
  - by rewrite zip_lxor_comm.
  - by rewrite zip_lxor_comm, (zip_lxor_comm (take 16 X)).
Qed.

(** The rows of the scratch pad are the iterates of [f]. *)
Definition iterates (f : list Z -> list Z) (n : nat) (X : list Z) : list (list Z) :=
  (fun i => Nat.iter i f X) <$> seq 0 n.

Lemma iterates_S f n X : iterates f (S n) X = iterates f n X ++ [Nat.iter n f X].
Proof. unfold iterates. by rewrite seq_S, fmap_app. Qed.

Section romix.
Context (r : nat) (Hr : (0 < r)%nat).
Abbreviation f := (scryptBlockMix r).
Abbreviation ok X := (length X = (32 * r)%nat).

Lemma iter_ok n X : ok X -> ok (Nat.iter n f X).
Proof.
  intros HX. induction n as [|n IH]; [done|]. rewrite Nat.iter_succ. by apply blockmix_spec.
Qed.

Lemma iterates_lookup n X j :
  (j < n)%nat -> ok X -> exists row, iterates f n X !! j = Some row /\ ok row.
Proof.
  intros Hj HX. exists (Nat.iter j f X). split; [|by apply iter_ok].
  unfold iterates. by rewrite list_lookup_fmap, lookup_seq_lt.
Qed.

Lemma smix_fill_spec n X :
  ok X -> Nat.iter n (smix_fill r) ([], X) = (iterates f (2 * n) X, Nat.iter (2 * n) f X).
Proof.
  intros HX. induction n as [|n IH]; [done|]. rewrite Nat.iter_succ, IH. unfold smix_fill.
  replace (2 * S n)%nat with (S (S (2 * n))) by lia. rewrite !iterates_S, !Nat.iter_succ.
  pose proof (iter_ok (2 * n) X HX) as H0. destruct (blockmix_spec _ r H0 Hr) as [E1 H1].
  rewrite E1. destruct (blockmix_spec _ r H1 Hr) as [-> _]. done.
Qed.

(** One step of the second loop of the specification. *)
Definition rfc_mix (V : list (list Z)) (N : nat) (X : list Z) : list Z :=
  let j := Z.to_nat (Integerify r X mod Z.of_nat N) in
  f (zip_with Z.lxor X (default [] (V !! j))).

Lemma integerify_words X :
  ok X -> exists rest, take 16 (drop ((2 * r - 1) * 16) X) =
    wd X ((2 * r - 1) * 16) :: wd X ((2 * r - 1) * 16 + 1) :: rest.
Proof.
  intros HX. set (k := ((2 * r - 1) * 16)%nat). assert (k + 16 <= length X)%nat by (unfold k; lia).
  destruct (lookup_lt_is_Some_2 X k) as [a Ha]; [lia|].
  destruct (lookup_lt_is_Some_2 X (k + 1)) as [b Hb]; [lia|].
  exists (take 14 (drop (S (S k)) X)). unfold wd. rewrite Ha, Hb.
  rewrite (drop_S _ _ _ Ha), (drop_S X b (S k)) by (by rewrite <- Nat.add_1_r). done.
Qed.

Lemma integerify_mod X k :
  ok X -> 0 <= k <= 64 ->
  Integerify r X mod 2 ^ k = scrypt_rfc7914_integerify X r mod 2 ^ k.
Proof.
  intros HX Hk. destruct (integerify_words X HX) as [rest E]. unfold Integerify, scrypt_rfc7914_integerify.
  rewrite E. cbn [val]. set (a := wd X _). set (b := wd X (_ + 1)).
  change (?z mod 2 ^ k) with (wrap k z). rewrite wrap_wrap by lia.
  rewrite <- (wrap_wrap 64 k (_ + a)), wrap_add_l, wrap_wrap by lia.
  rewrite Z.shiftl_mul_pow2 by lia. unfold wrap.
  replace (a + 2 ^ 32 * (b + 2 ^ 32 * val rest)) with
    (b * 2 ^ 32 + a + (2 ^ (64 - k) * val rest) * 2 ^ k).
  - apply Z.mod_add. apply Z.pow_nonzero; lia.
  - replace (2 ^ (64 - k) * val rest * 2 ^ k) with (2 ^ (64 - k) * 2 ^ k * val rest) by lia.
    rewrite <- Z.pow_add_r by lia. replace (64 - k + k) with 64 by lia. lia.
Qed.

Lemma rfc_mix_ok V N X :
  ok X -> (0 < N)%nat -> (forall j, (j < N)%nat -> exists row, V !! j = Some row /\ ok row) ->
  ok (zip_with Z.lxor X (default [] (V !! Z.to_nat (Integerify r X mod Z.of_nat N)))) /\
  ok (rfc_mix V N X).
Proof.
  intros HX HN HV. set (j := Z.to_nat _).
  assert (j < N)%nat as Hj.
  { unfold j. pose proof (Z.mod_pos_bound (Integerify r X) (Z.of_nat N) ltac:(lia)). lia. }
  destruct (HV j Hj) as (row & E & Hrow).
  assert (ok (zip_with Z.lxor X (default [] (V !! j)))) as Hz.
  { rewrite E. cbn [default from_option]. unfold id. rewrite length_zip_with. lia. }
  split; [done|]. unfold rfc_mix. fold j. by apply blockmix_spec.
Qed.

Lemma smix_mix_spec V k X n :
  ok X -> 1 <= k <= 64 ->
  (forall j, (j < Z.to_nat (2 ^ k))%nat -> exists row, V !! j = Some row /\ ok row) ->
  Nat.iter n (smix_mix r (2 ^ k) V) X = Nat.iter (2 * n) (rfc_mix V (Z.to_nat (2 ^ k))) X /\
  ok (Nat.iter (2 * n) (rfc_mix V (Z.to_nat (2 ^ k))) X).
Proof.
  intros HX Hk HV. set (N := Z.to_nat (2 ^ k)) in *.
  assert (0 < 2 ^ k) by (apply Z.pow_pos_nonneg; lia).
  assert (Z.of_nat N = 2 ^ k) as EN by (unfold N; lia).
  assert (forall X, ok X -> rfc_mix V N X = scrypt_rfc7914_blockmix_salsa8
    (blkxor X (default [] (V !! Z.to_nat (Z.land (scrypt_rfc7914_integerify X r) (2 ^ k - 1))))) r) as Hstep.
  { intros Y HY. destruct (rfc_mix_ok V N Y HY ltac:(lia) HV) as [Hz _]. unfold rfc_mix.
    rewrite <- (proj1 (blockmix_spec _ r Hz Hr)). unfold blkxor.
    replace (2 ^ k - 1) with (Z.ones k) by (rewrite Z.ones_equiv; lia).
    rewrite Z.land_ones, <- integerify_mod, EN by (done || lia). done. }
  induction n as [|n [IH1 IH2]]; [done|]. rewrite Nat.iter_succ, IH1.
  replace (2 * S n)%nat with (S (S (2 * n))) by lia. rewrite !Nat.iter_succ.
  set (Y := Nat.iter (2 * n) _ X) in *.
  destruct (rfc_mix_ok V N Y IH2 ltac:(lia) HV) as [_ H1].
  destruct (rfc_mix_ok V N _ H1 ltac:(lia) HV) as [_ H2]. split; [|done].
  rewrite (Hstep _ H1), (Hstep _ IH2). done.
Qed.
End romix.

Lemma fill_step_spec n X :
  length X = 32%nat ->
  Nat.iter n fill_step ([], X) = (iterates (scryptBlockMix 1) n X, Nat.iter n (scryptBlockMix 1) X).
Proof.
  intros HX. induction n as [|n IH]; [done|]. rewrite Nat.iter_succ, IH. unfold fill_step.
  cbn [fst snd]. rewrite iterates_S, Nat.iter_succ, mix_halves_spec; [done|].
  exact (iter_ok 1 ltac:(lia) n X HX).
Qed.

Lemma mix_step_spec V n X :
  length X = 32%nat ->
  (forall j, (j < 1024)%nat -> exists row, V !! j = Some row /\ length row = 32%nat) ->
  Nat.iter n (mix_step V) X = Nat.iter n (rfc_mix 1 V 1024) X /\
  length (Nat.iter n (rfc_mix 1 V 1024) X) = 32%nat.
Proof.
  intros HX HV. induction n as [|n [IH1 IH2]]; [done|]. rewrite !Nat.iter_succ, IH1.
  set (Y := Nat.iter n (rfc_mix 1 V 1024) X) in *.
  destruct (rfc_mix_ok 1 ltac:(lia) V 1024 Y IH2 ltac:(lia) HV) as [Hz Hm]. split; [|exact Hm].
  unfold mix_step, rfc_mix. unfold blkxor.
  change (Z.of_nat 1024) with (2 ^ 10) in *.
  assert (Z.land (wd Y 16) 1023 = Integerify 1 Y mod 2 ^ 10) as ->.
  { change 1023 with (Z.ones 10). rewrite Z.land_ones by lia.
    rewrite (integerify_mod 1 ltac:(lia)) by (done || lia). unfold scrypt_rfc7914_integerify.
    change (?z mod 2 ^ 10) with (wrap 10 z). change ((2 * 1 - 1) * 16)%nat with 16%nat.
    rewrite wrap_wrap, <- wrap_add_l, wrap_wrap by lia. rewrite Z.shiftl_mul_pow2 by lia.
    assert (wrap 10 (wd Y (16 + 1) * 2 ^ 32) = 0) as ->; [|done].
    unfold wrap. replace (2 ^ 32) with (2 ^ 22 * 2 ^ 10) by lia.
    rewrite Z.mul_assoc. by apply Z.mod_mul. }
  by rewrite mix_halves_spec.
Qed.

Lemma words_le_length n b : length (words_le n b) = n.
Proof. unfold words_le. revert b. induction n as [|n IH]; intros b; [done|]. simpl. by rewrite IH. Qed.

Lemma bytes_le_length x : length (bytes_le x) = (4 * length x)%nat.
Proof.
  unfold bytes_le. induction x as [|w x IH]; [done|]. rewrite fmap_cons. cbn [concat length].
  rewrite length_app, IH, le_enc_length. lia.
Qed.

Lemma romix_unfold r B N :
  scryptROMix r B N =
  let X := words_le (32 * r) B in
  bytes_le (Nat.iter N (rfc_mix r (iterates (scryptBlockMix r) N X) N) (Nat.iter N (scryptBlockMix r) X)).
Proof. done. Qed.

Lemma smix_spec r k B :
  (0 < r)%nat -> 1 <= k <= 63 ->
  scrypt_rfc7914_smix B r (2 ^ k) = scryptROMix r B (Z.to_nat (2 ^ k)) /\
  length (scryptROMix r B (Z.to_nat (2 ^ k))) = (128 * r)%nat.
Proof.
  intros Hr Hk. rewrite romix_unfold. cbv zeta. unfold scrypt_rfc7914_smix.
  set (X := words_le (32 * r) B).
  assert (length X = (32 * r)%nat) as HX by apply words_le_length.
  rewrite smix_fill_spec by done.
  assert (2 ^ k / 2 = 2 ^ (k - 1) /\ 2 ^ k = 2 * 2 ^ (k - 1)) as [Ehalf Edouble].
  { assert (2 ^ k = 2 * 2 ^ (k - 1)) as E by (rewrite <- Z.pow_succ_r by lia; f_equal; lia).
    split; [|done]. rewrite E, Z.mul_comm. by rewrite Z.div_mul. }
  assert (0 < 2 ^ (k - 1)) by (apply Z.pow_pos_nonneg; lia).
  set (n := Z.to_nat (2 ^ k / 2)). assert (2 * n = Z.to_nat (2 ^ k))%nat as En by (unfold n; lia).
  destruct (smix_mix_spec r Hr (iterates (scryptBlockMix r) (Z.to_nat (2 ^ k)) X) k
    (Nat.iter (2 * n) (scryptBlockMix r) X) n) as [E1 E2].
  { by apply iter_ok. }
  { lia. }
  { intros j Hj. by apply iterates_lookup. }
  rewrite En in *. rewrite E1. split; [done|]. rewrite bytes_le_length, E2. lia.
Qed.

(** Replacing the slices of a region one after the other. *)
Lemma slices_spec (g : bytes -> bytes) (n p : nat) B :
  length B = (p * n)%nat -> (forall b, length (g b) = n) -> forall k, (k <= p)%nat ->
  foldl (fun B i => list_inserts (i * n) (g (take n (drop (i * n) B))) B) B (seq 0 k) =
  concat ((fun i => g (take n (drop (i * n) B))) <$> seq 0 k) ++ drop (k * n) B.
Proof.
  intros HB Hg k Hk. induction k as [|k IH]; [by rewrite drop_0|].
  rewrite seq_S, foldl_app, IH by lia. cbn [Nat.add foldl].
  set (front := concat _). assert (length front = k * n)%nat as Hf.
  { unfold front. rewrite (length_concat_const n); [by rewrite length_fmap, length_seq|].
    intros l (i & -> & _)%list_elem_of_fmap. apply Hg. }
  assert (S k * n <= p * n)%nat as Hkn by (apply Nat.mul_le_mono_r; lia).
  rewrite drop_app_exact by done.
  rewrite inserts_split by (rewrite Hg, length_app, length_drop; lia).
  rewrite take_app_exact, Hg by done. rewrite <- drop_drop.
  replace (drop n (drop (k * n) (front ++ drop (k * n) B))) with (drop n (drop (k * n) B))
    by (by rewrite drop_app_exact).
  rewrite fmap_app, concat_app. cbn [fmap list_fmap concat]. fold front.
  rewrite app_nil_r, <- app_assoc. rewrite drop_drop. by replace (k * n + n)%nat with (S k * n)%nat by lia.
Qed.

Lemma power_of_two N : 2 <= N -> Z.land N (N - 1) = 0 -> exists k, 1 <= k /\ N = 2 ^ k.
Proof.
  intros HN H. exists (Z.log2 N). destruct (Z.log2_spec N) as [H1 H2]; [lia|].
  assert (1 <= Z.log2 N) by (apply Z.log2_le_pow2; lia). split; [done|].
  destruct (decide (N = 2 ^ Z.log2 N)) as [|Hne]; [done|exfalso].
  assert (Z.log2 (N - 1) = Z.log2 N) as E by (apply Z.log2_unique; lia).
  pose proof (Z.bit_log2 N ltac:(lia)) as B1. pose proof (Z.bit_log2 (N - 1)) as B2.
  rewrite E in B2. assert (Z.testbit (Z.land N (N - 1)) (Z.log2 N) = true) as B.
  { rewrite Z.land_spec, B1, B2; [done|]. lia. }
  rewrite H, Z.bits_0 in B. done.
Qed.

Lemma scrypt_1024_spec input :
  scrypt_1024_1_1_256 input = rev (scrypt input input 1024 1 1 32).
Proof.
  unfold scrypt_1024_1_1_256, scrypt. change 1 with (Z.of_nat 1).
  destruct (pbkdf2_spec input input 1 (zeros 128) 128) as [-> HB]; [lia|lia|lia|done|].
  change (1 * 128 * 1)%nat with 128%nat. change (128 * 1)%nat with 128%nat.
  set (B := rfc8018_pbkdf2 input input 1 128) in *.
  assert (length (words_le 32 B) = 32%nat) as HX by apply words_le_length.
  rewrite fill_step_spec by done.
  set (X := words_le 32 B) in *.
  destruct (mix_step_spec (iterates (scryptBlockMix 1) 1024 X) 1024
              (Nat.iter 1024 (scryptBlockMix 1) X)) as [E _].
  { exact (iter_ok 1 ltac:(lia) 1024 X HX). }
  { intros j Hj. exact (iterates_lookup 1 ltac:(lia) 1024 X j Hj HX). }
  rewrite E. cbn [seq fmap list_fmap concat]. rewrite app_nil_r, Nat.mul_0_l, drop_0.
  rewrite romix_unfold. cbv zeta. change (32 * 1)%nat with 32%nat.
  rewrite (take_ge B) by lia. fold X.
  match goal with |- context [pbkdf2_hmac_sha256 input ?b] =>
    destruct (pbkdf2_spec input b 1 (zeros 32) 32) as [-> Hl]; [lia|lia|lia|done|] end.
  by apply swap_bytes_32.
Qed.

Lemma scrypt_params_spec N r p buflen :
  0 <= N -> 0 <= r -> 0 <= p -> scrypt_params_ok N r p buflen = true ->
  exists k, N = 2 ^ k /\ 1 <= k <= 63 /\ 0 < r /\ 0 < p.
Proof.
  intros HN Hr Hp H. unfold scrypt_params_ok in H. zbool.
  assert (r <> 0 /\ p <> 0) as [Hr0 Hp0].
  { destruct (Z.eqb_spec r 0), (Z.eqb_spec p 0); done. }
  assert (Z.land N (N - 1) = 0 /\ 2 <= N) as [Hland HN2].
  { destruct (Z.eqb_spec (Z.land N (N - 1)) 0), (Z.ltb_spec N 2); try done. }
  destruct (power_of_two N HN2 Hland) as (k & Hk & ->). exists k.
  split_and!; [done|done| |lia|lia].
  change ((2 ^ 64 - 1) / 128) with 144115188075855871 in *.
  assert (144115188075855871 / r <= 144115188075855871)
    by (apply Z.div_le_upper_bound; nia).
  assert (2 ^ k < 2 ^ 64) as Hlt by lia. apply Z.pow_lt_mono_r_iff in Hlt; lia.
Qed.

(** C39: The hash of the proof of work is, reversed byte by byte, the scrypt function of
    RFC 7914 with N = 1024, r = p = 1 and the input as its own salt. The general function
    fills its buffer with the bytes of RFC 7914 for all parameters its checks accept
    (among them: N is a power of two above one) and lengths below 2^31, and returns 0
    without touching the buffer when a check or an allocation fails. *)
Theorem scrypt_correct input P S N r p buf :
  0 <= N -> 0 <= r -> 0 <= p ->
  scrypt_1024_1_1_256 input = rev (scrypt input input 1024 1 1 32) /\
  (scrypt_params_ok N r p (Z.of_nat (length buf)) = false ->
   forall m, dogecoin_scrypt_rfc7914 m P S N r p buf = Some (0, buf)) /\
  dogecoin_scrypt_rfc7914 false P S N r p buf = Some (0, buf) /\
  (scrypt_params_ok N r p (Z.of_nat (length buf)) = true -> 128 * r * p < 2 ^ 31 ->
   Z.of_nat (length P) < 2 ^ 31 -> Z.of_nat (length S) < 2 ^ 31 ->
   0 < Z.of_nat (length buf) < 2 ^ 31 ->
   dogecoin_scrypt_rfc7914 true P S N r p buf =
   Some (1, scrypt P S (Z.to_nat N) (Z.to_nat r) (Z.to_nat p) (length buf))).
Proof.
  intros HN Hr Hp. split; [apply scrypt_1024_spec|]. unfold dogecoin_scrypt_rfc7914.
  split; [by intros ->|]. split; [by case_if|].
  intros Hok Hrp HP HS [Hb0 Hb]. rewrite Hok. cbn [negb].
  rewrite !(proj2 (Z.leb_gt _ _)) by done. cbn [orb].
  destruct (scrypt_params_spec N r p _ HN Hr Hp Hok) as (k & -> & Hk & Hr0 & Hp0).
  unfold scrypt.
  assert (Z.to_nat (p * 128 * r) = (Z.to_nat p * 128 * Z.to_nat r)%nat) as El
    by (rewrite !Z2Nat.inj_mul by lia; done).
  assert (Z.to_nat (128 * r) = (128 * Z.to_nat r)%nat) as En by (rewrite Z2Nat.inj_mul by lia; done).
  set (keylen := Z.to_nat (p * 128 * r)) in *. set (n := Z.to_nat (128 * r)) in *.
  destruct (pbkdf2_spec P S 1 (zeros keylen) keylen) as [E HB];
    [lia|unfold keylen; nia|unfold keylen; nia|apply length_replicate|].
  change (Z.of_nat 1) with 1 in E. rewrite E. clear E.
  rewrite <- El. set (B := rfc8018_pbkdf2 P S 1 keylen) in *. rewrite <- En.
  assert (forall b, scrypt_rfc7914_smix b (Z.to_nat r) (2 ^ k) =
                    scryptROMix (Z.to_nat r) b (Z.to_nat (2 ^ k)) /\
                    length (scryptROMix (Z.to_nat r) b (Z.to_nat (2 ^ k))) = n) as Hsmix.
  { intros b. rewrite En. apply smix_spec; lia. }
  pose proof (slices_spec (fun b => scrypt_rfc7914_smix b (Z.to_nat r) (2 ^ k)) n (Z.to_nat p) B)
    as Hsl.
  rewrite Hsl; [|rewrite HB, El, En; lia|intros b; by rewrite (proj1 (Hsmix b)), (proj2 (Hsmix b))|done].
  rewrite (drop_ge B), app_nil_r by (rewrite HB, El, En; lia).
  rewrite (list_fmap_ext _ (fun i => scryptROMix (Z.to_nat r) (take n (drop (i * n) B)) (Z.to_nat (2 ^ k))))
    by (intros; apply Hsmix).
  match goal with |- context [pbkdf2_hmac_sha256 P ?b] =>
    destruct (pbkdf2_spec P b 1 buf (length buf)) as [E _]; [lia|lia|lia|done|] end.
  change (Z.of_nat 1) with 1 in E. by rewrite E.
Qed.

Lemma scrypt_correct_witness :
  scrypt_1024_1_1_256 (zeros 80) = rev (scrypt (zeros 80) (zeros 80) 1024 1 1 32) /\
  dogecoin_scrypt_rfc7914 true [] [] 16 1 1 (zeros 64) =
  Some (1, scrypt [] [] (Z.to_nat 16) (Z.to_nat 1) (Z.to_nat 1) (length (zeros 64))).
Proof.
  destruct (scrypt_correct (zeros 80) [] [] 16 1 1 (zeros 64)) as (H1 & _ & _ & H2);
    [lia|lia|lia|]. split; [exact H1|].
  apply H2; [vm_compute; reflexivity|lia|vm_compute; reflexivity|vm_compute; reflexivity|].
  change (Z.of_nat (length (zeros 64))) with 64. lia.
Defined.
