(* ===== verification/Auxpow.v ===== *)
(** * Merge mining ([src/src/auxpow.c], [src/src/validation.c], [src/src/block.c])

    The proof of a merge-mined block: its merkle branches, the slot of the chain, the
    merge-mining header in the coinbase of the parent block, and the checks on a header
    with its proof of work. *)

From S2P Require Import Prelude Words Utils Serialize Sha256 Arith256 Scrypt Pow Tx Block Merkle.

Local Open Scope Z_scope.

(** [rand % (1 << h)], with [h] below 31. *)
Definition get_expected_index (nNonce nChainId h : Z) : Z :=
  let rand := nNonce in
  let rand := u32 (u32 (rand * 1103515245) + 12345) in
  let rand := u32 (rand + u32 nChainId) in
  let rand := u32 (u32 (rand * 1103515245) + 12345) in
  s32 (rand mod Z.shiftl 1 h).

Definition branch_step (st : bytes * Z) (next_branch_hash : bytes) : bytes * Z :=
  let '(current_hash, index) := st in
  (if negb (Z.land index 1 =? 0) then hash_2_inputs next_branch_hash current_hash
   else hash_2_inputs current_hash next_branch_hash, Z.shiftr index 1).

(** [None]: the array that is returned for index -1 has not been written to. *)
Definition check_merkle_branch (hash : bytes) (merkle_branch : list bytes) (index : Z)
    : option bytes :=
  if index =? -1 then None else Some (foldl branch_step (hash, index) merkle_branch).1.

Definition pch_merged_mining_header : bytes := [Byte.xfa; Byte.xbe; Byte.x6d; Byte.x6d].

Record chainparams := mk_params { strict_id : bool; auxpow_id : Z; pow_limit : bytes }.

Definition get_chainid (version : Z) : Z := Z.shiftr (u32 version) 16.
Definition is_auxpow (version : Z) : bool := Z.land (u32 version) (Z.shiftl 1 8) =? 256.
Definition is_legacy (version : Z) : bool :=
  (version =? 1) || ((version =? 2) && (get_chainid version =? 0)).

(** ** The script of the parent coinbase *)

(** [script_sig->str\[k\]]: the terminator can be read, what is behind it not ([None]). *)
Definition sig_char (sig : bytes) (k : nat) : option Byte.byte := (sig ++ [byte_zero]) !! k.

Definition sig_bytes (sig : bytes) (off n : nat) : option bytes :=
  mapM (sig_char sig) (seq off n).

(** Reading stops at the first difference. *)
Fixpoint needle_at (sig : bytes) (idx : nat) (needle : bytes) : option bool :=
  match needle with
  | [] => Some true
  | c :: needle =>
      h ← sig_char sig idx;
      if byte_eqb h c then needle_at sig (S idx) needle else Some false
  end.

(** What follows a merge-mining header: half of the root, printed; the size and the
    nonce. *)
Definition header_matches (sig vch_roothash : bytes) (merkle_height aux_merkle_index chainid : Z)
    (idx : nat) : option bool :=
  root ← sig_bytes sig (idx + 4) 32;
  hex ← utils_uint8_to_hex root;
  if negb (bytes_eqb (take 32 vch_roothash) (take 32 hex)) then Some false
  else
    size ← sig_bytes sig (idx + 4 + 32) 4;
    if negb (le_dec size =? Z.shiftl 1 merkle_height) then Some false
    else
      nonce ← sig_bytes sig (idx + 4 + 32 + 4) 4;
      let expected_index := u32 (get_expected_index (le_dec nonce) (s32 chainid) merkle_height) in
      Some (aux_merkle_index =? expected_index).

(** The loop over the positions; the result is the number of headers, or nothing when
    one of them does not match. *)
Fixpoint scan_sig (sig vch_roothash : bytes) (merkle_height aux_merkle_index chainid : Z)
    (idxs : list nat) (count : Z) : option (option Z) :=
  match idxs with
  | [] => Some (Some count)
  | idx :: idxs =>
      found ← needle_at sig idx pch_merged_mining_header;
      if (found : bool) then
        ok ← header_matches sig vch_roothash merkle_height aux_merkle_index chainid idx;
        if (ok : bool)
        then scan_sig sig vch_roothash merkle_height aux_merkle_index chainid idxs (count + 1)
        else Some None
      else scan_sig sig vch_roothash merkle_height aux_merkle_index chainid idxs count
  end.

(** [check]: the block is its proof; [None]: undefined behaviour. *)
Definition check (p : auxpow_payload) (hash : bytes) (chainid : Z) (params : chainparams)
    : option bool :=
  if negb (parent_merkle_index p =? 0) then Some false
  else
    ph ← parent_header p;
    let parent_chainid := get_chainid (hversion ph) in
    if strict_id params && (parent_chainid =? chainid) then Some false
    else if 30 <? aux_merkle_count p then Some false
    else
      chain_merkle_branch ← branch_prefix (aux_merkle_count p) (aux_merkle_branch p);
      let chain_merkle_root :=
        check_merkle_branch hash chain_merkle_branch (s32 (aux_merkle_index p)) in
      cb ← parent_coinbase p;
      ins ← vin cb;
      match ins with
      | [] => Some false
      | tx_in :: _ =>
          chain_merkle_root ← chain_merkle_root;
          vch_roothash ← hash_to_string chain_merkle_root;
          parent_merkle_branch ← branch_prefix (parent_merkle_count p) (parent_coinbase_merkle p);
          parent_merkle_root ←
            check_merkle_branch (tx_hash cb) parent_merkle_branch (s32 (parent_merkle_index p));
          if negb (bytes_eqb parent_merkle_root (merkle_root ph)) then Some false
          else
            sig ← script_sig tx_in;
            r ← scan_sig sig vch_roothash (aux_merkle_count p) (aux_merkle_index p) chainid
                  (seq 0 (length sig)) 0;
            Some (match r with Some count => negb (1 <? count) | None => false end)
      end.

(** ** Validation *)

Definition block_header_scrypt_hash (s : bytes) : bytes := scrypt_1024_1_1_256 (take 80 s).

(** Result and chain work; [p]: the fields of the block beside its header. *)
Definition check_auxpow (h : block_header) (p : auxpow_payload) (params : chainparams)
    (chainwork : option arith_uint256) : option (bool * option arith_uint256) :=
  if negb (is_legacy (hversion h)) && strict_id params
     && negb (get_chainid (hversion h) =? auxpow_id params)
  then Some (false, chainwork)
  else if negb (auxpow_is h) then
    let hash := block_header_scrypt_hash (block_header_serialize [] h) in
    '(ok, _, chainwork) ← check_pow hash (bits h) (pow_limit params) chainwork;
    Some (ok, chainwork)
  else
    ph ← parent_header p;
    let parent_hash := block_header_scrypt_hash (block_header_serialize [] ph) in
    '(ok, _, chainwork) ← check_pow parent_hash (bits h) (pow_limit params) chainwork;
    if negb ok then Some (false, chainwork)
    else
      ok ← check p (block_header_hash h) (get_chainid (hversion h)) params;
      Some (ok, chainwork).

(** A header without a proof is not checked. *)
Definition block_header_validate (h : option block_header) (params : chainparams)
    (chainwork : option arith_uint256) : option (bool * option arith_uint256) :=
  match h with
  | None => Some (false, chainwork)
  | Some h =>
      match payload h with
      | None => Some (true, chainwork)
      | Some p => check_auxpow h p params chainwork
      end
  end.

(** Result, header, rest of the buffer and chain work. *)
Definition block_header_deserialize (header : block_header) (buf : bytes) (params : chainparams)
    (chainwork : option arith_uint256)
    : option (bool * block_header * bytes * option arith_uint256) :=
  let '(ok, header, buf) := block_header_parse header buf in
  if negb ok then Some (false, header, buf, chainwork)
  else
    '(ok, chainwork) ← block_header_validate (Some header) params chainwork;
    Some (ok, header, buf, chainwork).

(** ** Merkle branches *)

#[local] Opaque dogecoin_hash hash_2_inputs.

Lemma hash_2_inputs_node a b :
  length a = 32%nat -> length b = 32%nat -> hash_2_inputs a b = node_hash a b.
Proof. intros. unfold node_hash. by apply hash_2_inputs_spec. Qed.

(** The path of leaf [i]: at each level the other node of the pair, or the node itself at
    an odd end. *)
Fixpoint merkle_path (fuel : nat) (l : list bytes) (i : nat) : list bytes :=
  match fuel, l with
  | S fuel, _ :: _ :: _ =>
      (if Nat.odd i then default [] (l !! (i - 1)%nat)
       else default (default [] (l !! i)) (l !! (i + 1)%nat))
        :: merkle_path fuel (pairs l) (i / 2)
  | _, _ => []
  end.

Lemma pairs_hashes l : Forall (fun h => length h = 32%nat) (pairs l).
Proof.
  induction l as [|a|a b l IH] using list_ind2; cbn [pairs].
  - apply List.Forall_nil.
  - apply list.Forall_singleton. apply dogecoin_hash_length.
  - apply List.Forall_cons; [apply dogecoin_hash_length|done].
Qed.

Lemma merkle_path_spec fuel l i h :
  Forall (fun h => length h = 32%nat) l -> l !! i = Some h -> (length l <= fuel)%nat ->
  (foldl branch_step (h, Z.of_nat i) (merkle_path fuel l i)).1 = (merkle_spec fuel l).1.
Proof.
  revert l i h. induction fuel as [|fuel IH]; intros l i h Hok Hi Hf.
  { destruct l; [done|simpl in Hf; lia]. }
  destruct (decide (length l <= 1)%nat) as [Hl1|Hl1].
  { destruct l as [|a [|]]; [done| |simpl in Hl1; lia].
    destruct i; [|done]. simpl in Hi |- *. congruence. }
  assert (exists x y l', l = x :: y :: l') as (x & y & l' & El').
  { destruct l as [|a [|b l']]; [simpl in Hl1; lia|simpl in Hl1; lia|by exists a, b, l']. }
  pose proof (lookup_lt_Some _ _ _ Hi) as Hlt.
  rewrite list.Forall_forall in Hok.
  assert (forall k z, l !! k = Some z -> length z = 32%nat) as Hlen
    by (intros k z Hz; apply Hok; by apply list_elem_of_lookup_2 with k).
  replace (merkle_path (S fuel) l i) with
    ((if Nat.odd i then default [] (l !! (i - 1)%nat)
      else default (default [] (l !! i)) (l !! (i + 1)%nat)) :: merkle_path fuel (pairs l) (i / 2))
    by (by rewrite El').
  assert ((merkle_spec (S fuel) l).1 = (merkle_spec fuel (pairs l)).1) as ->.
  { rewrite El'. cbn [merkle_spec]. by destruct (merkle_spec fuel _). }
  assert (length (pairs l) <= fuel)%nat as Hpl.
  { pose proof (pairs_length l). rewrite El' in Hf |- *. rewrite El' in H. simpl in *. lia. }
  cbn [foldl]. unfold branch_step at 2. rewrite Z.shiftr_div_pow2 by lia. change (2 ^ 1) with 2.
  change (Z.land (Z.of_nat i) 1) with (Z.land (Z.of_nat i) (Z.ones 1)).
  rewrite Z.land_ones by lia. change (2 ^ 1) with 2. 
  replace (Z.of_nat i / 2) with (Z.of_nat (i / 2)) by (by rewrite Nat2Z.inj_div).
  pose proof (pairs_lookup l (i / 2)) as Hp. pose proof (Nat.div_mod_eq i 2) as Hd.
  replace (Z.of_nat i mod 2) with (Z.of_nat (i mod 2)) by (by rewrite Nat2Z.inj_mod).
  destruct (Nat.Even_or_Odd i) as [[k Ek]|[k Ek]].
  - assert (i / 2 = k)%nat as E2 by (rewrite Ek, Nat.mul_comm; by apply Nat.div_mul).
    assert (i mod 2 = 0)%nat as -> by lia. rewrite E2 in *. change (negb (Z.of_nat 0 =? 0)) with false. cbv iota.
    assert (Nat.odd i = false) as -> by (rewrite Ek; apply Nat.odd_even).
    rewrite <- Ek, Hi in Hp. rewrite Hi. cbn [default from_option]. unfold id.
    assert (length h = 32%nat) as Hh by eauto.
    destruct (l !! (i + 1)%nat) as [s|] eqn:Es; cbn [default from_option].
    + rewrite hash_2_inputs_node by eauto. apply IH; [apply pairs_hashes|exact Hp|exact Hpl].
    + rewrite hash_2_inputs_node by eauto. apply IH; [apply pairs_hashes|exact Hp|exact Hpl].
  - assert (i / 2 = k)%nat as E2 by (symmetry; apply (Nat.div_unique i 2 k 1); lia).
    assert (i mod 2 = 1)%nat as -> by lia. rewrite E2 in *. change (negb (Z.of_nat 1 =? 0)) with true. cbv iota.
    assert (Nat.odd i = true) as -> by (rewrite Ek; apply Nat.odd_odd).
    destruct (lookup_lt_is_Some_2 l (i - 1)%nat) as [s Es]; [lia|].
    replace (2 * k + 1)%nat with i in Hp by lia. replace (2 * k)%nat with (i - 1)%nat in Hp by lia.
    rewrite Es, Hi in Hp. rewrite Es. cbn [default from_option]. unfold id.
    rewrite hash_2_inputs_node by eauto. apply IH; [apply pairs_hashes|exact Hp|exact Hpl].
Qed.

(** The merkle path of any leaf of a block leads [check_merkle_branch] from the leaf to
    the root [compute_merkle_root] gives for all leaves. *)
Theorem merkle_branch_reaches_root leaves i h :
  Forall (fun h => length h = 32%nat) leaves -> Z.of_nat (length leaves) <= 2 ^ 31 ->
  leaves !! i = Some h ->
  check_merkle_branch h (merkle_path (length leaves) leaves i) (Z.of_nat i) =
  fst <$> compute_merkle_root (Some leaves).
Proof.
  intros Hok HN Hi. rewrite compute_merkle_root_spec by done.
  unfold check_merkle_branch. rewrite (proj2 (Z.eqb_neq _ _)) by lia.
  by rewrite (merkle_path_spec _ _ _ h).
Qed.

Lemma merkle_branch_reaches_root_witness :
  check_merkle_branch (zeros 32) (merkle_path 3 [zeros 32; zeros 32; zeros 32] 2) 2 =
  fst <$> compute_merkle_root (Some [zeros 32; zeros 32; zeros 32]).
Proof.
  apply (merkle_branch_reaches_root [zeros 32; zeros 32; zeros 32] 2 (zeros 32));
    [|simpl; lia|reflexivity].
  repeat (apply List.Forall_cons; [reflexivity|]). apply List.Forall_nil.
Defined.

(** ** The slot of the chain *)

Lemma expected_index_mod nonce chainid h :
  0 <= h <= 30 ->
  get_expected_index nonce chainid h =
    (((nonce * 1103515245 + 12345) + chainid) * 1103515245 + 12345) mod 2 ^ h /\
  0 <= get_expected_index nonce chainid h < 2 ^ h.
Proof.
  intros Hh. assert (0 < 2 ^ h <= 2 ^ 30) as Hp
    by (split; [apply Z.pow_pos_nonneg; lia|apply Z.pow_le_mono_r; lia]).
  assert (get_expected_index nonce chainid h =
    (((nonce * 1103515245 + 12345) + chainid) * 1103515245 + 12345) mod 2 ^ h) as ->.
  { unfold get_expected_index. rewrite Z.shiftl_1_l.
    set (r := u32 (u32 (_ * 1103515245) + 12345)) at 1.
    assert (exists k, r = ((nonce * 1103515245 + 12345) + chainid) * 1103515245 + 12345 + k * 2 ^ 32)
      as [k ->].
    { unfold r. destruct (wrap_diff 32 chainid) as [k0 ->].
      destruct (wrap_diff 32 (nonce * 1103515245)) as [k1 ->].
      destruct (wrap_diff 32 (nonce * 1103515245 + k1 * 2 ^ 32 + 12345)) as [k2 ->].
      match goal with |- context [u32 (?z * 1103515245)] =>
        lazymatch z with u32 ?y => destruct (wrap_diff 32 y) as [k3 ->] end end.
      match goal with |- context [u32 (u32 ?z + 12345)] => destruct (wrap_diff 32 z) as [k4 ->] end.
      match goal with |- context [u32 ?z] => destruct (wrap_diff 32 z) as [k5 ->] end.
      exists ((k1 + k2 + k0 + k3) * 1103515245 + k4 + k5). lia. }
    rewrite <- (Z.mod_add _ (- (k * 2 ^ (32 - h))) (2 ^ h)) by lia.
    replace (_ + - (k * 2 ^ (32 - h)) * 2 ^ h) with
      (((nonce * 1103515245 + 12345) + chainid) * 1103515245 + 12345).
    2:{ replace (- (k * 2 ^ (32 - h)) * 2 ^ h) with (- (k * (2 ^ (32 - h) * 2 ^ h))) by lia.
        rewrite <- Z.pow_add_r by lia. replace (32 - h + h) with 32 by lia. lia. }
    apply swrap_small; [lia|].
    match goal with |- srange 32 (?z mod _) => pose proof (Z.mod_pos_bound z (2 ^ h) ltac:(lia)) end.
    unfold srange. lia. }
  split; [done|]. apply Z.mod_pos_bound. lia.
Qed.

(** For a branch of at most 30 nodes the slot is below the size of the tree, and the
    32-bit computation gives what the same computation gives in unbounded integers. *)
Theorem get_expected_index_spec nonce chainid h :
  0 <= h <= 30 ->
  get_expected_index nonce chainid h =
    (((nonce * 1103515245 + 12345) + chainid) * 1103515245 + 12345) mod 2 ^ h /\
  0 <= get_expected_index nonce chainid h < 2 ^ h.
Proof. apply expected_index_mod. Qed.

Lemma get_expected_index_spec_witness :
  get_expected_index 0xffffffff 0x62 30 =
    (((0xffffffff * 1103515245 + 12345) + 0x62) * 1103515245 + 12345) mod 2 ^ 30 /\
  0 <= get_expected_index 0xffffffff 0x62 30 < 2 ^ 30.
Proof. apply (get_expected_index_spec 0xffffffff 0x62 30). lia. Defined.

(** ** What the check accepts *)

(** The positions of the merge-mining headers in a script. *)
Definition headers_at (sig : bytes) : list nat :=
  List.filter (fun idx => bytes_eqb (take 4 (drop idx sig)) pch_merged_mining_header)
    (seq 0 (length sig)).

(** What follows a header: the first half of the root, in the order it is printed, the
    size of the tree and a nonce that selects the slot. *)
Definition commits_to (root sig : bytes) (height index chainid : Z) (idx : nat) : bool :=
  let field off n := take n (drop (idx + off) (sig ++ [byte_zero])) in
  bytes_eqb (take 16 (rev root)) (field 4%nat 16%nat) &&
  (le_dec (field 36%nat 4%nat) =? 2 ^ height) &&
  (index =? get_expected_index (le_dec (field 40%nat 4%nat)) (s32 chainid) height).

Lemma needle_at_spec sig idx needle :
  ~ In byte_zero needle -> (idx <= length sig)%nat ->
  needle_at sig idx needle = Some (bytes_eqb (take (length needle) (drop idx sig)) needle).
Proof.
  revert idx. induction needle as [|c needle IH]; intros idx Hz Hi; [done|].
  cbn [needle_at length]. unfold sig_char.
  destruct (decide (idx = length sig)) as [->|Hne].
  - rewrite lookup_app_r, Nat.sub_diag by lia. cbn [lookup list_lookup mbind option_bind].
    rewrite drop_all. unfold byte_eqb. destruct (Byte.eqb byte_zero c) eqn:E.
    + apply Byte.byte_dec_bl in E. subst c. exfalso. apply Hz. by left.
    + symmetry. unfold bytes_eqb. by rewrite bool_decide_false.
  - destruct (lookup_lt_is_Some_2 sig idx) as [h Hh]; [lia|].
    rewrite lookup_app_l, Hh by lia. cbn [mbind option_bind]. rewrite (drop_S _ _ _ Hh).
    cbn [take]. unfold byte_eqb. destruct (Byte.eqb h c) eqn:E.
    + apply Byte.byte_dec_bl in E. subst h. rewrite IH by (try lia; intros ?; apply Hz; by right).
      f_equal. unfold bytes_eqb. apply bool_decide_ext. split; [by intros ->|by intros [= ->]].
    + f_equal. symmetry. unfold bytes_eqb. apply bool_decide_false. intros [= -> _].
      by rewrite (Byte.byte_dec_lb (eq_refl c)) in E.
Qed.

Lemma sig_bytes_spec sig off n :
  (off + n <= S (length sig))%nat ->
  sig_bytes sig off n = Some (take n (drop off (sig ++ [byte_zero]))).
Proof.
  unfold sig_bytes, sig_char. set (s := sig ++ [byte_zero]).
  assert (length s = S (length sig)) as Hs by (unfold s; rewrite length_app; simpl; lia).
  rewrite <- Hs. clear Hs. clearbody s. revert off. induction n as [|n IH]; intros off Hn; [done|].
  destruct (lookup_lt_is_Some_2 s off) as [x Hx]; [lia|].
  rewrite (drop_S _ _ _ Hx). cbn [seq mapM take]. rewrite Hx. cbn [mbind option_bind].
  rewrite IH by lia. done.
Qed.

Lemma hex_inj a b : concat (hex_byte <$> a) = concat (hex_byte <$> b) -> a = b.
Proof.
  intros E. pose proof (parse_hex_spec a (S (length a + length b)) ltac:(lia)) as Ha.
  rewrite E, parse_hex_spec in Ha by lia. done.
Qed.

Lemma take_hex n b : take (2 * n) (concat (hex_byte <$> b)) = concat (hex_byte <$> take n b).
Proof.
  revert n. induction b as [|x b IH]; intros [|n]; try done.
  replace (2 * S n)%nat with (S (S (2 * n))) by lia. cbn [take]. rewrite !fmap_cons. cbn [concat].
  unfold hex_byte at 1 3. cbn [app take]. by rewrite IH.
Qed.

Lemma branch_length st bs :
  length st.1 = 32%nat -> Forall (fun h => length h = 32%nat) bs ->
  length (foldl branch_step st bs).1 = 32%nat.
Proof.
  intros Hs Hbs. revert st Hs. induction Hbs as [|b bs Hb Hbs IH]; intros [h i] Hs; [done|].
  cbn [foldl]. apply IH. cbn [branch_step fst] in *.
  case_goal; rewrite hash_2_inputs_node by done; apply dogecoin_hash_length.
Qed.

Lemma header_matches_spec sig root height index chainid idx :
  length root = 32%nat -> 0 <= height <= 30 -> (idx + 44 <= S (length sig))%nat ->
  header_matches sig (concat (hex_byte <$> rev root)) height index chainid idx =
  Some (commits_to root sig height index chainid idx).
Proof.
  intros Hr Hh Hroom. unfold header_matches, commits_to.
  set (s := sig ++ [byte_zero]).
  assert (length s = S (length sig)) as Hs by (unfold s; rewrite length_app; simpl; lia).
  rewrite (sig_bytes_spec sig (idx + 4) 32) by lia. fold s. cbn [mbind option_bind].
  set (r := take 32 (drop (idx + 4) s)).
  assert (length r = 32%nat) as Hrl by (unfold r; rewrite length_take, length_drop; lia).
  unfold utils_uint8_to_hex. rewrite (proj2 (Z.ltb_ge _ _)) by (by rewrite Hrl).
  cbn [mbind option_bind]. rewrite !(take_hex 16).
  assert (bytes_eqb (concat (hex_byte <$> take 16 (rev root))) (concat (hex_byte <$> take 16 r)) =
          bytes_eqb (take 16 (rev root)) (take 16 (drop (idx + 4) s))) as ->.
  { unfold bytes_eqb, r. rewrite take_take. change (16 `min` 32)%nat with 16%nat.
    apply bool_decide_ext. split; [apply hex_inj|by intros ->]. }
  destruct (bytes_eqb (take 16 (rev root)) _); [|done]. cbn [negb andb].
  rewrite (sig_bytes_spec sig (idx + 4 + 32) 4) by lia. fold s. cbn [mbind option_bind]. rewrite Z.shiftl_1_l.
  replace (idx + 4 + 32)%nat with (idx + 36)%nat by lia.
  destruct (le_dec (take 4 (drop (idx + 36) s)) =? 2 ^ height); [|done]. cbn [negb andb].
  rewrite sig_bytes_spec by lia. fold s. cbn [mbind option_bind].
  replace (idx + 36 + 4)%nat with (idx + 40)%nat by lia.
  rewrite wrap_small; [done|].
  destruct (expected_index_mod (le_dec (take 4 (drop (idx + 40) s))) (s32 chainid) height Hh)
    as [_ Hr']. assert (2 ^ height <= 2 ^ 30) by (apply Z.pow_le_mono_r; lia).
  unfold urange. lia.
Qed.

Lemma scan_sig_spec sig root height index chainid idxs count :
  length root = 32%nat -> 0 <= height <= 30 ->
  Forall (fun idx => (idx <= length sig)%nat) idxs ->
  let found := List.filter (fun idx => bytes_eqb (take 4 (drop idx sig)) pch_merged_mining_header) idxs in
  Forall (fun idx => (idx + 44 <= S (length sig))%nat) found ->
  scan_sig sig (concat (hex_byte <$> rev root)) height index chainid idxs count =
  Some (if forallb (commits_to root sig height index chainid) found
        then Some (count + Z.of_nat (length found)) else None).
Proof.
  intros Hr Hh Hi. revert count. induction Hi as [|idx idxs Hidx Hi IH]; intros count found Hf.
  { simpl. by rewrite Z.add_0_r. }
  cbn [scan_sig]. rewrite needle_at_spec.
  2:{ cbn [pch_merged_mining_header In]. intros H. repeat destruct H as [H|H]; try discriminate H; done. }
  2:{ done. }
  change (length pch_merged_mining_header) with 4%nat. cbn [mbind option_bind].
  subst found. cbn [List.filter] in Hf |- *.
  destruct (bytes_eqb (take 4 (drop idx sig)) pch_merged_mining_header).
  - apply Forall_cons_1 in Hf as [Hroom Hf]. rewrite header_matches_spec by done.
    cbn [mbind option_bind forallb].
    destruct (commits_to root sig height index chainid idx); [|done]. cbn [andb length].
    rewrite IH by done. destruct (forallb _ _); [|done]. do 2 f_equal. lia.
  - by apply IH.
Qed.

Lemma check_spec p hash chainid params t i0 ins ph pm am sig
    (root := (foldl branch_step (hash, s32 (aux_merkle_index p)) am).1) :
  payload_ok p -> length hash = 32%nat -> aux_merkle_index p <> 2 ^ 32 - 1 ->
  parent_coinbase p = Some t -> vin t = Some (i0 :: ins) -> script_sig i0 = Some sig ->
  parent_header p = Some ph ->
  branch_prefix (parent_merkle_count p) (parent_coinbase_merkle p) = Some pm ->
  branch_prefix (aux_merkle_count p) (aux_merkle_branch p) = Some am ->
  Forall (fun idx => (idx + 44 <= S (length sig))%nat) (headers_at sig) ->
  check p hash chainid params =
  Some ((parent_merkle_index p =? 0) &&
        negb (strict_id params && (get_chainid (hversion ph) =? chainid)) &&
        (aux_merkle_count p <=? 30) &&
        bytes_eqb (foldl branch_step (tx_hash t, 0) pm).1 (merkle_root ph) &&
        forallb (commits_to root sig (aux_merkle_count p) (aux_merkle_index p) chainid)
          (headers_at sig) &&
        (length (headers_at sig) <=? 1)%nat).
Proof.
  intros Hok Hh Hai Et Ev Es Eph Epm Eam Hroom. unfold check. rewrite Eph, Et, Epm, Eam.
  destruct (Z.eqb_spec (parent_merkle_index p) 0) as [->|]; [|done]. cbn [negb andb mbind option_bind].
  destruct (strict_id params && _); [done|]. cbn [negb andb].
  rewrite Z.ltb_antisym. destruct (Z.leb_spec (aux_merkle_count p) 30) as [Hc|]; [|done].
  cbn [negb andb]. rewrite Ev. cbn [mbind option_bind].
  destruct (branch_ok_prefix _ _ (ok_am _ Hok)) as (l & El & _ & _ & Hl & Hrange & _).
  rewrite Eam in El. injection El as <-.
  assert (check_merkle_branch hash am (s32 (aux_merkle_index p)) = Some root) as ->.
  { unfold check_merkle_branch. rewrite (proj2 (Z.eqb_neq (s32 _) _)); [done|].
    pose proof (ok_ai _ Hok) as Hr. unfold urange in Hr. unfold swrap.
    rewrite wrap_small by done. cbv zeta. case_goal; zbool; lia. }
  cbn [mbind option_bind].
  assert (length root = 32%nat) as Hroot by (by apply branch_length).
  rewrite hash_to_string_spec by done. cbn [mbind option_bind].
  change (s32 0) with 0. unfold check_merkle_branch. change (0 =? -1) with false. cbv iota.
  cbn [mbind option_bind].
  destruct (bytes_eqb _ (merkle_root ph)); [|done]. cbn [negb andb]. rewrite Es. cbn [mbind option_bind].
  rewrite (scan_sig_spec sig root); [|done|lia| |done].
  2:{ apply list.Forall_forall. intros x Hx%elem_of_seq. lia. }
  cbn [mbind option_bind]. fold (headers_at sig). f_equal.
  destruct (forallb _ (headers_at sig)); [|done]. cbn [andb].
  destruct (Z.ltb_spec 1 (0 + Z.of_nat (length (headers_at sig)))),
    (Nat.leb_spec (length (headers_at sig)) 1); simpl; lia || done.
Qed.

(** A merge-mining proof is accepted for a block hash exactly when its coinbase is the
    first transaction of the parent block, the parent is of another chain (under the
    strict rule), the branch of the chains has at most 30 nodes, the coinbase leads to
    the merkle root of the parent, and the script of the coinbase holds at most one
    merge-mining header, which must be followed by the first half of the root of the
    chains, the size of the tree and a nonce that selects the slot used. *)
Theorem auxpow_check_correct p hash chainid params t i0 ins ph pm am sig
    (root := (foldl branch_step (hash, s32 (aux_merkle_index p)) am).1) :
  payload_ok p -> length hash = 32%nat -> aux_merkle_index p <> 2 ^ 32 - 1 ->
  parent_coinbase p = Some t -> vin t = Some (i0 :: ins) -> script_sig i0 = Some sig ->
  parent_header p = Some ph ->
  branch_prefix (parent_merkle_count p) (parent_coinbase_merkle p) = Some pm ->
  branch_prefix (aux_merkle_count p) (aux_merkle_branch p) = Some am ->
  Forall (fun idx => (idx + 44 <= S (length sig))%nat) (headers_at sig) ->
  check p hash chainid params =
  Some ((parent_merkle_index p =? 0) &&
        negb (strict_id params && (get_chainid (hversion ph) =? chainid)) &&
        (aux_merkle_count p <=? 30) &&
        bytes_eqb (foldl branch_step (tx_hash t, 0) pm).1 (merkle_root ph) &&
        forallb (commits_to root sig (aux_merkle_count p) (aux_merkle_index p) chainid)
          (headers_at sig) &&
        (length (headers_at sig) <=? 1)%nat).
Proof. apply check_spec. Qed.

Definition demo_params : chainparams := mk_params true 0x62 pow_limit_main.

Lemma demo_payload_ok : payload_ok demo_payload.
Proof. by apply (ok_payload _ demo_header_ok). Qed.

Lemma auxpow_check_correct_witness :
  check demo_payload (zeros 32) 0x62 demo_params =
  Some (true && negb (true && (0 =? 0x62)) && true &&
        bytes_eqb (foldl branch_step (tx_hash demo_tx, 0) [zeros 32]).1 (zeros 32) &&
        true && true).
Proof.
  apply (auxpow_check_correct demo_payload (zeros 32) 0x62 demo_params demo_tx demo_in []
    demo_base [zeros 32] [] [Byte.x51] demo_payload_ok); try reflexivity.
  - discriminate.
  - apply List.Forall_nil.
Defined.

(** Without a merge-mining header in the coinbase nothing binds the proof to the block:
    two headers of the same version and target that carry the same such proof are
    accepted or refused alike, whatever their previous blocks, merkle roots, times and
    nonces. *)
Theorem auxpow_proof_unbound h h' p params chainwork t i0 ins sig :
  payload_ok p -> aux_merkle_index p <> 2 ^ 32 - 1 ->
  parent_coinbase p = Some t -> vin t = Some (i0 :: ins) -> script_sig i0 = Some sig ->
  headers_at sig = [] ->
  payload h = Some p -> payload h' = Some p -> auxpow_is h = true -> auxpow_is h' = true ->
  hversion h = hversion h' -> bits h = bits h' ->
  block_header_validate (Some h) params chainwork =
  block_header_validate (Some h') params chainwork.
Proof.
  intros Hok Hai Et Ev Es Hh Ep Ep' Ei Ei' Evn Eb.
  destruct (ok_ph _ Hok) as (ph & Eph & _).
  destruct (branch_ok_prefix _ _ (ok_pm _ Hok)) as (pm & Epm & _).
  destruct (branch_ok_prefix _ _ (ok_am _ Hok)) as (am & Eam & _).
  assert (forall hash hash', length hash = 32%nat -> length hash' = 32%nat ->
    check p hash (get_chainid (hversion h)) params = check p hash' (get_chainid (hversion h)) params)
    as Hcheck.
  { intros hash hash' H1 H2.
    rewrite (check_spec p hash _ params t i0 ins ph pm am sig),
      (check_spec p hash' _ params t i0 ins ph pm am sig)
      by (done || (rewrite Hh; apply List.Forall_nil)).
    by rewrite Hh. }
  unfold block_header_validate. rewrite Ep, Ep'. unfold check_auxpow.
  rewrite <- Evn, <- Eb, Ei, Ei', Eph. cbn [negb].
  rewrite (Hcheck (block_header_hash h) (block_header_hash h'))
    by apply dogecoin_hash_length. reflexivity.
Qed.

Lemma auxpow_proof_unbound_witness :
  block_header_validate (Some demo_header) demo_params None =
  block_header_validate (Some (mk_header 0x620104 (replicate 32 Byte.xff) (zeros 32) 7 2 9 true
                                 (Some demo_payload))) demo_params None.
Proof.
  apply (auxpow_proof_unbound demo_header
    (mk_header 0x620104 (replicate 32 Byte.xff) (zeros 32) 7 2 9 true (Some demo_payload))
    demo_payload demo_params None demo_tx demo_in [] [Byte.x51] demo_payload_ok);
    try reflexivity. discriminate.
Defined.
