(* ===== verification/Btree.v ===== *)
(** * Binary search trees ([src/include/dogecoin/utils.h])

    The [tsearch] family the library carries along: searching, inserting and deleting
    by a comparison function, and the post-order destruction.  A tree of nodes that only
    the tree points to is an inductive tree; the functions that move a pointer to a link
    down the tree recurse along the path. *)

From S2P Require Import Prelude Mem.
From stdpp Require Import sorting.

Local Open Scope Z_scope.

(** ** Data and operations *)

Inductive btree_node (K : Type) : Type :=
  | Null
  | Node (left : btree_node K) (key : K) (right : btree_node K).

Arguments Null {K}.
Arguments Node {K}.

Section operations.
Context {K : Type} (compar : K -> K -> Z).
Implicit Types t l r : btree_node K.

(** The keys in the order they are freed. *)
Fixpoint btree_tdestroy t : list K :=
  match t with
  | Null => []
  | Node l k r => btree_tdestroy l ++ btree_tdestroy r ++ [k]
  end.

Fixpoint btree_tfind (vkey : K) t : option K :=
  match t with
  | Null => None
  | Node l k r =>
      let c := compar vkey k in
      if c =? 0 then Some k
      else if c <? 0 then btree_tfind vkey l else btree_tfind vkey r
  end.

(** The key of the node returned (the one found, or the new one; nothing when there is
    no memory for it) and the tree. *)
Fixpoint btree_tsearch `{!Allocator} (vkey : K) t : option K * btree_node K :=
  match t with
  | Null => if alloc_ok 24 then (Some vkey, Node Null vkey Null) else (None, Null)
  | Node l k r =>
      let c := compar vkey k in
      if c =? 0 then (Some k, t)
      else if c <? 0 then let '(k', l') := btree_tsearch vkey l in (k', Node l' k r)
      else let '(k', r') := btree_tsearch vkey r in (k', Node l k r')
  end.

(** D3: the leftmost node below [Node l k r], and the tree without it. *)
Fixpoint take_leftmost l (k : K) r : K * btree_node K :=
  match l with
  | Null => (k, r)
  | Node ll lk lr => let '(m, l') := take_leftmost ll lk lr in (m, Node l' k r)
  end.

(** The subtree that takes the place of a deleted node with the children [l] and [r]. *)
Definition unlink l r : btree_node K :=
  match l, r with
  | Null, _ => r
  | _, Null => l
  | _, Node Null rk rr => Node l rk rr
  | _, Node (Node rll rlk rlr) rk rr =>
      let '(m, rl) := take_leftmost rll rlk rlr in Node l m (Node rl rk rr)
  end.

(** [p] is the node the walk was at before; the result is its key and the tree. *)
Fixpoint tdelete_from (p : K) (vkey : K) t : option (K * btree_node K) :=
  match t with
  | Null => None
  | Node l k r =>
      let c := compar vkey k in
      if c =? 0 then Some (p, unlink l r)
      else if c <? 0 then
        '(p, l') ← tdelete_from k vkey l; Some (p, Node l' k r)
      else '(p, r') ← tdelete_from k vkey r; Some (p, Node l k r')
  end.

Definition btree_tdelete (vkey : K) t : option K * btree_node K :=
  match t with
  | Null => (None, Null)
  | Node _ k _ =>
      match tdelete_from k vkey t with
      | Some (p, t') => (Some p, t')
      | None => (None, t)
      end
  end.

(** ** Contents *)

Fixpoint inorder t : list K :=
  match t with
  | Null => []
  | Node l k r => inorder l ++ k :: inorder r
  end.

Definition key_lt (x y : K) : Prop := compar x y < 0.

(** The invariant: the keys are strictly ordered, so that no two compare equal. *)
Definition bst t : Prop := StronglySorted key_lt (inorder t).
End operations.

(** What the trees need of a comparison function: a total preorder. *)
Class Comparison {K} (compar : K -> K -> Z) := {
  compar_antisym x y : Z.sgn (compar y x) = - Z.sgn (compar x y);
  compar_trans x y z : compar x y < 0 -> compar y z < 0 -> compar x z < 0;
  compar_equal x y z : compar x y = 0 -> Z.sgn (compar x z) = Z.sgn (compar y z);
}.

Section contents.
Context {K : Type} (compar : K -> K -> Z) `{!Comparison compar}.
Implicit Types t l r : btree_node K.
Abbreviation lt := (key_lt compar).

Lemma compar_refl x : compar x x = 0.
Proof. pose proof (compar_antisym x x). lia. Qed.

Lemma compar_gt x y : compar x y < 0 <-> 0 < compar y x.
Proof. pose proof (compar_antisym x y). lia. Qed.

Lemma compar_equal_sym x y : compar x y = 0 -> compar y x = 0.
Proof. pose proof (compar_antisym x y). lia. Qed.

(** A sorted list around one of its keys. *)
Lemma bst_node l k r :
  bst compar (Node l k r) <->
  bst compar l /\ bst compar r /\
  (forall x, x ∈ inorder l -> lt x k) /\ (forall x, x ∈ inorder r -> lt k x).
Proof.
  unfold bst. cbn [inorder]. rewrite StronglySorted_app, StronglySorted_cons, Forall_forall.
  split; [intros (H1 & H2 & H3 & H4)|intros (H1 & H2 & H3 & H4)].
  - split_and!; [done..| |done]. intros x Hx. apply H1; [done|]. by left.
  - split_and!; [|done..]. intros x y Hx [->|Hy]%elem_of_cons; [by apply H3|].
    apply (compar_trans _ k); [by apply H3|by apply H4].
Qed.

(** A key that compares below (above) the root is not in the right (left) subtree. *)
Lemma not_in_above v k r x :
  compar v k <= 0 -> (forall x, x ∈ inorder r -> lt k x) -> x ∈ inorder r -> compar v x < 0.
Proof.
  intros Hv Hr Hx. apply Hr in Hx. unfold lt in Hx.
  destruct (decide (compar v k = 0)) as [E|].
  - pose proof (compar_equal v k x E). lia.
  - by apply (compar_trans v k x); [lia|].
Qed.

Lemma not_in_below v k l x :
  0 <= compar v k -> (forall x, x ∈ inorder l -> lt x k) -> x ∈ inorder l -> 0 < compar v x.
Proof.
  intros Hv Hl Hx. apply Hl in Hx. unfold lt in Hx. apply compar_gt.
  destruct (decide (compar v k = 0)) as [E|].
  - pose proof (compar_equal v k x E). apply compar_gt in Hx. apply compar_gt. lia.
  - apply (compar_trans x k v); [done|]. apply compar_gt. lia.
Qed.

Lemma btree_tfind_spec v t k :
  bst compar t -> btree_tfind compar v t = Some k <-> k ∈ inorder t /\ compar v k = 0.
Proof.
  induction t as [|l IHl k' r IHr]; intros Ht; cbn [btree_tfind inorder].
  { split; [done|]. by intros [?%elem_of_nil _]. }
  apply bst_node in Ht as (Hl & Hr & Hlk & Hkr). rewrite elem_of_app, elem_of_cons.
  destruct (Z.eqb_spec (compar v k') 0) as [E|E].
  - split; [intros [= <-]; auto|]. intros [[Hk|[->|Hk]] Ek]; [|done|].
    + pose proof (not_in_below v k' l k ltac:(lia) Hlk Hk). lia.
    + pose proof (not_in_above v k' r k ltac:(lia) Hkr Hk). lia.
  - destruct (Z.ltb_spec (compar v k') 0).
    + rewrite (IHl Hl). split; [intros [? ?]; auto|]. intros [[Hk|[->|Hk]] Ek]; [done|lia|].
      pose proof (not_in_above v k' r k ltac:(lia) Hkr Hk). lia.
    + rewrite (IHr Hr). split; [intros [? ?]; auto|]. intros [[Hk|[->|Hk]] Ek]; [|lia|done].
      pose proof (not_in_below v k' l k ltac:(lia) Hlk Hk). lia.
Qed.

(** ** Insertion *)

(** Where a new key goes. *)
Definition inserted (v : K) (before after : list K) : Prop :=
  exists a b : list K, before = a ++ b /\ after = a ++ v :: b.

Lemma btree_tsearch_found `{!Allocator} v t k :
  btree_tfind compar v t = Some k -> btree_tsearch compar v t = (Some k, t).
Proof.
  induction t as [|l IHl k' r IHr]; cbn [btree_tfind btree_tsearch]; [done|].
  destruct (compar v k' =? 0); [by intros [= <-]|].
  destruct (compar v k' <? 0); [intros ->%IHl|intros ->%IHr]; done.
Qed.

Lemma btree_tsearch_some v t : (btree_tsearch (H := default_mapper) compar v t).1 <> None.
Proof.
  induction t as [|l IHl k r IHr]; cbn [btree_tsearch]; [done|].
  destruct (compar v k =? 0); [done|].
  destruct (compar v k <? 0); [by destruct (btree_tsearch compar v l)|].
  by destruct (btree_tsearch compar v r).
Qed.

Lemma btree_tsearch_new `{!Allocator} v t :
  bst compar t -> btree_tfind compar v t = None -> alloc_ok 24 = true ->
  exists t', btree_tsearch compar v t = (Some v, t') /\ bst compar t' /\
    inserted v (inorder t) (inorder t').
Proof.
  intros Ht Hv Ha. revert Ht Hv.
  induction t as [|l IHl k r IHr]; intros Ht Hv; cbn [btree_tfind btree_tsearch inorder] in *.
  { rewrite Ha. eexists. split; [done|]. split; [|by exists [], []].
    apply bst_node. split_and!; try (by constructor); by intros ? ?%elem_of_nil. }
  apply bst_node in Ht as (Hl & Hr & Hlk & Hkr).
  destruct (Z.eqb_spec (compar v k) 0); [done|].
  destruct (Z.ltb_spec (compar v k) 0).
  - destruct (IHl Hl Hv) as (t' & -> & Ht' & l1 & l2 & E1 & E2). eexists. split; [done|].
    split.
    + apply bst_node. split_and!; try done. intros x Hx. rewrite E2, elem_of_app, elem_of_cons in Hx.
      destruct Hx as [Hx|[->|Hx]]; [apply Hlk|done|apply Hlk]; rewrite E1, elem_of_app; auto.
    + exists l1, (l2 ++ k :: inorder r). cbn [inorder].
      by rewrite E1, E2, <- !app_assoc.
  - destruct (IHr Hr Hv) as (t' & -> & Ht' & l1 & l2 & E1 & E2). eexists. split; [done|].
    split.
    + apply bst_node. split_and!; try done. intros x Hx. rewrite E2, elem_of_app, elem_of_cons in Hx.
      destruct Hx as [Hx|[->|Hx]]; [apply Hkr| |apply Hkr]; rewrite ?E1, ?elem_of_app; auto.
      apply compar_gt. lia.
    + exists (inorder l ++ k :: l1), l2. cbn [inorder]. by rewrite E1, E2, <- !app_assoc.
Qed.

(** ** Deletion *)

Lemma take_leftmost_inorder l k r :
  let '(m, t) := take_leftmost l k r in m :: inorder t = inorder (Node l k r).
Proof.
  revert k r. induction l as [|ll IH lk lr _]; intros k r; cbn [take_leftmost inorder]; [done|].
  specialize (IH lk lr). destruct (take_leftmost ll lk lr) as [m l']. cbn [inorder] in *.
  by rewrite <- IH.
Qed.

Lemma unlink_inorder l r : inorder (unlink l r) = inorder l ++ inorder r.
Proof.
  destruct l as [|ll lk lr]; [done|]. destruct r as [|[|rll rlk rlr] rk rr]; cbn [unlink].
  - by rewrite app_nil_r.
  - done.
  - pose proof (take_leftmost_inorder rll rlk rlr) as H.
    destruct (take_leftmost rll rlk rlr) as [m rl]. cbn [inorder] in *. by rewrite <- H.
Qed.

Lemma tdelete_from_found p v t k :
  btree_tfind compar v t = Some k ->
  exists p' t' (l1 l2 : list K), tdelete_from compar p v t = Some (p', t') /\
    inorder t = l1 ++ k :: l2 /\ inorder t' = l1 ++ l2.
Proof.
  revert p. induction t as [|l IHl k' r IHr]; intros p; cbn [btree_tfind tdelete_from]; [done|].
  destruct (compar v k' =? 0).
  { intros [= <-]. exists p, (unlink l r), (inorder l), (inorder r).
    by rewrite unlink_inorder. }
  destruct (compar v k' <? 0); intros E.
  - destruct (IHl k' E) as (p' & t' & l1 & l2 & -> & E1 & E2).
    exists p', (Node t' k' r), l1, (l2 ++ k' :: inorder r). cbn [inorder].
    by rewrite E1, E2, <- !app_assoc.
  - destruct (IHr k' E) as (p' & t' & l1 & l2 & -> & E1 & E2).
    exists p', (Node l k' t'), (inorder l ++ k' :: l1), l2. cbn [inorder].
    by rewrite E1, E2, <- !app_assoc.
Qed.

Lemma tdelete_from_missing p v t :
  btree_tfind compar v t = None -> tdelete_from compar p v t = None.
Proof.
  revert p. induction t as [|l IHl k' r IHr]; intros p; cbn [btree_tfind tdelete_from]; [done|].
  destruct (compar v k' =? 0); [done|].
  destruct (compar v k' <? 0); intros E; [by rewrite (IHl k' E)|by rewrite (IHr k' E)].
Qed.

Lemma btree_tdelete_missing v t :
  btree_tfind compar v t = None -> btree_tdelete compar v t = (None, t).
Proof. intros E. destruct t; [done|]. unfold btree_tdelete. by rewrite tdelete_from_missing. Qed.

Lemma btree_tdelete_found v t k :
  btree_tfind compar v t = Some k ->
  exists p t', btree_tdelete compar v t = (Some p, t') /\ inserted k (inorder t') (inorder t).
Proof.
  intros E. destruct t as [|l k' r]; [done|]. unfold btree_tdelete.
  destruct (tdelete_from_found k' v _ k E) as (p & t' & l1 & l2 & -> & E1 & E2).
  exists p, t'. split; [done|]. by exists l1, l2.
Qed.

(** Taking a key out of a sorted list leaves it sorted. *)
Lemma inserted_sorted v (l1 l2 : list K) :
  inserted v l1 l2 -> StronglySorted lt l2 -> StronglySorted lt l1.
Proof.
  intros (a & b & -> & ->). rewrite !StronglySorted_app, StronglySorted_cons.
  intros (H1 & H2 & _ & H3). split_and!; [|done..]. intros x y Hx Hy. apply H1; [done|by right].
Qed.

Lemma inserted_perm v (l1 l2 : list K) : inserted v l1 l2 -> l2 ≡ₚ v :: l1.
Proof. intros (a & b & -> & ->). by rewrite Permutation_middle. Qed.

Lemma bst_inserted_unique v t' t :
  bst compar t -> inserted v (inorder t') (inorder t) ->
  forall x, x ∈ inorder t' -> compar v x <> 0.
Proof.
  intros Ht (a & b & E' & E) x Hx. unfold bst in Ht. rewrite E in Ht.
  apply StronglySorted_app in Ht as (H1 & _ & H2). apply StronglySorted_cons in H2 as [H2 _].
  rewrite E', elem_of_app in Hx. destruct Hx as [Hx|Hx].
  - specialize (H1 x v Hx ltac:(by left)). unfold lt in H1. apply compar_gt in H1. lia.
  - rewrite Forall_forall in H2. specialize (H2 x Hx). unfold lt in H2. lia.
Qed.

Lemma btree_tdestroy_inorder t : btree_tdestroy t ≡ₚ inorder t.
Proof.
  induction t as [|l IHl k r IHr]; cbn [btree_tdestroy inorder]; [done|].
  rewrite IHl, IHr. f_equiv. by rewrite Permutation_app_comm.
Qed.

(** C33: Trees keep their keys strictly ordered.  Searching finds the key that compares
    equal and no other; inserting changes nothing but to add a missing key; deleting
    takes out exactly the key that compares equal; destroying a tree frees every key it
    holds once. *)
Theorem btree_invariant `{!Allocator} v t :
  bst compar t ->
  (forall k, btree_tfind compar v t = Some k <-> k ∈ inorder t /\ compar v k = 0) /\
  (alloc_ok 24 = true ->
   let '(found, t') := btree_tsearch compar v t in
   bst compar t' /\
   match btree_tfind compar v t with
   | Some k => found = Some k /\ t' = t
   | None => found = Some v /\ inserted v (inorder t) (inorder t')
   end) /\
  (let '(parent, t') := btree_tdelete compar v t in
   bst compar t' /\ btree_tfind compar v t' = None /\
   match btree_tfind compar v t with
   | Some k => parent <> None /\ inserted k (inorder t') (inorder t)
   | None => parent = None /\ t' = t
   end) /\
  btree_tdestroy t ≡ₚ inorder t.
Proof.
  intros Ht. split_and!.
  - intros k. by apply btree_tfind_spec.
  - intros Ha. destruct (btree_tfind compar v t) as [k|] eqn:E.
    + by rewrite (btree_tsearch_found _ _ _ E).
    + destruct (btree_tsearch_new v t Ht E Ha) as (t' & -> & ? & ?). done.
  - destruct (btree_tfind compar v t) as [k|] eqn:E.
    + destruct (btree_tdelete_found v t k E) as (p & t' & -> & Hi).
      assert (bst compar t') as Ht' by (by eapply inserted_sorted).
      split_and!; try done. destruct (btree_tfind compar v t') as [k'|] eqn:E'; [|done].
      apply btree_tfind_spec in E as [_ E]; [|done].
      apply btree_tfind_spec in E' as [Hk' E']; [|done].
      destruct (bst_inserted_unique k t' t Ht Hi k' Hk').
      pose proof (compar_equal v k k' E). lia.
    + by rewrite btree_tdelete_missing.
  - apply btree_tdestroy_inorder.
Qed.
End contents.

(** ** Byte strings *)

(** [memcmp(a, b, n)]; of its result only the sign is specified, here it is the
    difference of the first bytes that differ. *)
Fixpoint memcmp (n : nat) (a b : bytes) : Z :=
  match n with
  | O => 0
  | S n =>
      let d := byte.unsigned (hd byte_zero a) - byte.unsigned (hd byte_zero b) in
      if d =? 0 then memcmp n (tl a) (tl b) else d
  end.

Lemma memcmp_antisym n a b : memcmp n b a = - memcmp n a b.
Proof.
  revert a b. induction n as [|n IH]; intros a b; cbn [memcmp]; [done|].
  destruct (Z.eqb_spec (byte.unsigned (hd byte_zero a) - byte.unsigned (hd byte_zero b)) 0),
    (Z.eqb_spec (byte.unsigned (hd byte_zero b) - byte.unsigned (hd byte_zero a)) 0);
    try lia. apply IH.
Qed.

Lemma memcmp_trans n a b c : memcmp n a b < 0 -> memcmp n b c < 0 -> memcmp n a c < 0.
Proof.
  revert a b c. induction n as [|n IH]; intros a b c; cbn [memcmp]; [lia|].
  repeat match goal with |- context [?x =? 0] => destruct (Z.eqb_spec x 0) end; try lia.
  apply IH.
Qed.

Lemma memcmp_equal n a b c : memcmp n a b = 0 -> memcmp n a c = memcmp n b c.
Proof.
  revert a b c. induction n as [|n IH]; intros a b c; cbn [memcmp]; [lia|].
  repeat match goal with |- context [?x =? 0] => destruct (Z.eqb_spec x 0) end; try lia.
  apply IH.
Qed.

Lemma memcmp_0 n a b : length a = n -> length b = n -> memcmp n a b = 0 <-> a = b.
Proof.
  revert a b. induction n as [|n IH]; intros [|x a] [|y b] Ha Hb; try done.
  cbn [memcmp hd tl]. injection Ha as Ha. injection Hb as Hb.
  destruct (Z.eqb_spec (byte.unsigned x - byte.unsigned y) 0) as [E|E].
  - rewrite IH by done. assert (x = y) as -> by (apply byte.unsigned_inj; lia).
    split; [by intros ->|by intros [= ->]].
  - split; [done|]. intros [= -> _]. lia.
Qed.

(** Ordering objects by a field of [n] bytes, upwards or downwards. *)
#[export] Instance memcmp_comparison {K} (n : nat) (f : K -> bytes) :
  Comparison (fun x y => memcmp n (f x) (f y)).
Proof.
  split.
  - intros x y. rewrite memcmp_antisym. apply Z.sgn_opp.
  - intros x y z. apply memcmp_trans.
  - intros x y z E. by rewrite (memcmp_equal _ _ _ _ E).
Qed.

Lemma comparison_flip {K} (compar : K -> K -> Z) :
  Comparison compar -> Comparison (fun x y => compar y x).
Proof.
  intros H. split.
  - intros x y. apply compar_antisym.
  - intros x y z Hx Hy. by apply (compar_trans z y x).
  - intros x y z E. pose proof (compar_equal y x z E). pose proof (compar_antisym z x).
    pose proof (compar_antisym z y). lia.
Qed.

Definition example_tree : btree_node bytes :=
  Node (Node Null [Byte.x01] Null) [Byte.x05]
    (Node (Node Null [Byte.x06] (Node Null [Byte.x07] Null)) [Byte.x09] Null).

Lemma btree_invariant_witness :
  let c := fun x y => memcmp 1 x y in
  bst c example_tree /\
  (let '(parent, t') := btree_tdelete c [Byte.x05] example_tree in
   bst c t' /\ btree_tfind c [Byte.x05] t' = None /\ parent <> None).
Proof.
  intros c.
  assert (bst c example_tree) as H.
  { unfold bst, c, key_lt. cbn [inorder example_tree app].
    repeat constructor; vm_compute; reflexivity. }
  split; [exact H|].
  destruct (@btree_invariant bytes c (memcmp_comparison 1 (fun x => x)) default_mapper [Byte.x05]
    example_tree H) as (_ & _ & Hd & _).
  destruct (btree_tdelete c [Byte.x05] example_tree) as [p t'].
  destruct Hd as (H1 & H2 & H3 & _). split; [exact H1|]. split; [exact H2|exact H3].
Defined.
