(* ===== verification/Bip37.v ===== *)
(** * The walk over a merkle block ([src/src/bip37.c])

    The walk over the partial merkle tree of a [merkleblock] message is the code's loop
    over an explicit stack of 64 frames; it is shown to be the recursive reading of such a
    tree, to end, and to stay in the stack. *)

From S2P Require Import Prelude Words Sha256 Merkle.

Local Open Scope Z_scope.

(** ** The walk *)

Record traverse_state := mk_state {
  height : Z; pos : Z; stage : Z; parentMatch : bool; left_hash : bytes }.

(** [st] holds the frames from [st[sp]] down to [st[0]]; [ret] is empty while [have_ret]
    is false; [match_ctx] is what the callback keeps. *)
Record walk (C : Type) := mk_walk {
  st : list traverse_state; bitsUsed : Z; hashesUsed : Z; ret : option bytes; match_ctx : C }.

Arguments mk_walk {C}.
Arguments st {C}.
Arguments bitsUsed {C}.
Arguments hashesUsed {C}.
Arguments ret {C}.
Arguments match_ctx {C}.

(** [ARRAYLEN(st)] *)
Definition STACK_LEN : Z := 64.

Definition level_width (nTx height : Z) : Z :=
  Z.shiftr (u64 (nTx + u64 (u64 (Z.shiftl 1 height) - 1))) height.

(** The height of the tree; [None]: above 32. *)
Fixpoint tree_height (fuel : nat) (nTx height : Z) : option Z :=
  match fuel with
  | O => None
  | S fuel =>
      if level_width nTx height <=? 1 then Some height
      else
        let height := height + 1 in
        if 32 <? height then None else tree_height fuel nTx height
  end.

Definition flag_bit (flags : bytes) (n : Z) : bool :=
  Z.testbit (byte.unsigned (nth (Z.to_nat (Z.shiftr n 3)) flags byte_zero)) (Z.land n 7).

Definition hash_at (hashes : bytes) (n : Z) : bytes :=
  take 32 (drop (Z.to_nat (u32 (n * 32))) hashes).

Section traverse.
Context {C : Type} (on_match : option (bytes -> Z -> C -> bool * C)).
Context (nTx : Z) (hashes : bytes) (hashCount : Z) (flags : bytes) (flags_len : Z).

(** A new frame, unless the stack is full. *)
Definition push (frame cur : traverse_state) (below : list traverse_state) (w : walk C)
    : bool * walk C :=
  if STACK_LEN <=? Z.of_nat (length below) + 1
  then (false, mk_walk (cur :: below) (bitsUsed w) (hashesUsed w) (ret w) (match_ctx w))
  else (true, mk_walk (frame :: cur :: below) (bitsUsed w) (hashesUsed w) (ret w) (match_ctx w)).

(** A leaf, or an inner node without a match: one hash. *)
Definition take_hash (cur : traverse_state) (below : list traverse_state) (m : bool) (w : walk C)
    : bool * walk C :=
  if hashCount <=? hashesUsed w then (false, w)
  else
    let r := hash_at hashes (hashesUsed w) in
    let used := u32 (hashesUsed w + 1) in
    let '(ok, c) :=
      if (height cur =? 0) && m
      then match on_match with Some f => f r (pos cur) (match_ctx w) | None => (true, match_ctx w) end
      else (true, match_ctx w) in
    if ok then (true, mk_walk below (bitsUsed w) used (Some r) c)
    else (false, mk_walk (st w) (bitsUsed w) used (Some r) c).

(** One turn of the loop; [false]: it is left with [ok_extract] false. *)
Definition traverse_step (w : walk C) : bool * walk C :=
  match st w with
  | [] => (true, w)
  | cur :: below =>
      if stage cur =? 0 then
        if u32 (flags_len * 8) <=? bitsUsed w then (false, w)
        else
          let m := flag_bit flags (bitsUsed w) in
          let w := mk_walk (st w) (u32 (bitsUsed w + 1)) (hashesUsed w) (ret w) (match_ctx w) in
          if (height cur =? 0) || negb m then take_hash cur below m w
          else
            let cur := mk_state (height cur) (pos cur) 1 m (left_hash cur) in
            push (mk_state (u32 (height cur - 1)) (u32 (pos cur * 2)) 0 false (zeros 32))
              cur below w
      else if stage cur =? 1 then
        match ret w with
        | None => (false, w)
        | Some r =>
            let rightPos := u32 (u32 (pos cur * 2) + 1) in
            if rightPos <? level_width nTx (u32 (height cur - 1)) then
              push (mk_state (u32 (height cur - 1)) rightPos 0 false (zeros 32))
                (mk_state (height cur) (pos cur) 2 (parentMatch cur) r) below
                (mk_walk (st w) (bitsUsed w) (hashesUsed w) None (match_ctx w))
            else
              (true, mk_walk below (bitsUsed w) (hashesUsed w) (Some (node_hash r r)) (match_ctx w))
        end
      else if stage cur =? 2 then
        match ret w with
        | None => (false, w)
        | Some r =>
            (true, mk_walk below (bitsUsed w) (hashesUsed w)
                     (Some (node_hash (left_hash cur) r)) (match_ctx w))
        end
      else (false, w)
  end.

(** [while (sp >= 0)]; [None]: more turns than [fuel]. *)
Fixpoint traverse_loop (fuel : nat) (w : walk C) : option (bool * walk C) :=
  match st w with
  | [] => Some (true, w)
  | _ =>
      match fuel with
      | O => None
      | S fuel =>
          let '(ok, w) := traverse_step w in
          if ok then traverse_loop fuel w else Some (false, w)
      end
  end.

(** At most three turns for every bit. *)
Definition traverse_fuel : nat := S (24 * length flags).

Definition traverse_merkle_matches (header_merkle : bytes) (c : C) : option (bool * C) :=
  if (hashCount =? 0) || (flags_len =? 0) then Some (false, c)
  else match tree_height 34 nTx 0 with
  | None => Some (false, c)
  | Some h =>
      '(ok_extract, w) ← traverse_loop traverse_fuel
        (mk_walk [mk_state h 0 0 false (zeros 32)] 0 0 None c);
      let roots_equal := match ret w with Some r => bytes_eqb r header_merkle | None => false end in
      Some (ok_extract && roots_equal, match_ctx w)
  end.
End traverse.

(** ** Partial merkle trees *)

Inductive pmt : Type :=
  | PSkip (hash : bytes)
  | PLeaf (matched : bool) (hash : bytes)
  | POne (l : pmt)
  | PTwo (l r : pmt).

Fixpoint pmt_root (t : pmt) : bytes :=
  match t with
  | PSkip h | PLeaf _ h => h
  | POne l => node_hash (pmt_root l) (pmt_root l)
  | PTwo l r => node_hash (pmt_root l) (pmt_root r)
  end.

(** Matched leaves with their positions. *)
Fixpoint pmt_matches (p : nat) (t : pmt) : list (bytes * Z) :=
  match t with
  | PSkip _ => []
  | PLeaf m h => if m then [(h, Z.of_nat p)] else []
  | POne l => pmt_matches (2 * p) l
  | PTwo l r => pmt_matches (2 * p) l ++ pmt_matches (2 * p + 1) r
  end.

Fixpoint pmt_bits (t : pmt) : list bool :=
  match t with
  | PSkip _ => [false]
  | PLeaf m _ => [m]
  | POne l => true :: pmt_bits l
  | PTwo l r => true :: pmt_bits l ++ pmt_bits r
  end.

Fixpoint pmt_hashes (t : pmt) : list bytes :=
  match t with
  | PSkip h | PLeaf _ h => [h]
  | POne l => pmt_hashes l
  | PTwo l r => pmt_hashes l ++ pmt_hashes r
  end.

(** What is hashed to find the root. *)
Fixpoint pmt_inputs (t : pmt) : list bytes :=
  match t with
  | PSkip _ | PLeaf _ _ => []
  | POne l => (pmt_root l ++ pmt_root l) :: pmt_inputs l
  | PTwo l r => (pmt_root l ++ pmt_root r) :: pmt_inputs l ++ pmt_inputs r
  end.

(** The nodes of level [h] over [n] leaves. *)
Definition width (n h : nat) : nat := ((n + (2 ^ h - 1)) / 2 ^ h)%nat.

(** The recursive reader: bits and hashes that are left, and the state of the callback. *)
Section extract.
Context {C : Type} (on_match : bytes -> Z -> C -> bool * C) (n : nat).

Definition source : Type := list bool * list bytes * C.

Fixpoint extract (h p : nat) (s : source) : option pmt * source :=
  let '(bits, hs, c) := s in
  match bits with
  | [] => (None, s)
  | m :: bits =>
      match h with
      | S h =>
          if m then
            let '(l, s) := extract h (2 * p) (bits, hs, c) in
            match l with
            | None => (None, s)
            | Some l =>
                if (2 * p + 1 <? width n h)%nat then
                  let '(r, s) := extract h (2 * p + 1) s in
                  (PTwo l <$> r, s)
                else (Some (POne l), s)
            end
          else
            match hs with
            | [] => (None, (bits, hs, c))
            | x :: hs => (Some (PSkip x), (bits, hs, c))
            end
      | O =>
          match hs with
          | [] => (None, (bits, hs, c))
          | x :: hs =>
              let '(ok, c) := if m then on_match x (Z.of_nat p) c else (true, c) in
              (if ok then Some (PLeaf m x) else None, (bits, hs, c))
          end
      end
  end.
End extract.

#[local] Opaque dogecoin_hash node_hash.

(** ** The loop reads the tree *)

Lemma level_width_spec n h :
  Z.of_nat n < 2 ^ 32 -> (h <= 32)%nat ->
  level_width (Z.of_nat n) (Z.of_nat h) = Z.of_nat (width n h).
Proof.
  intros Hn Hh. unfold level_width, width.
  assert (0 < 2 ^ Z.of_nat h <= 2 ^ 32) as Hp.
  { split; [apply Z.pow_pos_nonneg; lia|apply Z.pow_le_mono_r; lia]. }
  pose proof (Nat.pow_nonzero 2 h ltac:(lia)) as Hp'.
  rewrite Z.shiftl_1_l, (wrap_small 64 (2 ^ _)) by (unfold urange; lia).
  rewrite (wrap_small 64 (2 ^ _ - 1)), wrap_small by (unfold urange; lia).
  rewrite Z.shiftr_div_pow2, Nat2Z.inj_div, Nat2Z.inj_add, Nat2Z.inj_sub, Nat2Z.inj_pow by lia.
  done.
Qed.

Lemma width_bound n h p : (p < width n h)%nat <-> (p * 2 ^ h < n)%nat.
Proof.
  unfold width. pose proof (Nat.pow_nonzero 2 h ltac:(lia)) as H2.
  pose proof (Nat.Div0.div_mod (n + (2 ^ h - 1)) (2 ^ h)). 
  pose proof (Nat.mod_upper_bound (n + (2 ^ h - 1)) (2 ^ h) H2). nia.
Qed.

Lemma width_left n h p :
  (p < width n (S h))%nat -> (2 * p < width n h)%nat /\ (2 * p + 1 <= n)%nat.
Proof.
  rewrite !width_bound, Nat.pow_succ_r'. pose proof (Nat.pow_nonzero 2 h ltac:(lia)). nia.
Qed.

Lemma width_of n h q : (q * 2 ^ h < n + 2 ^ h)%nat -> (n <= q * 2 ^ h)%nat -> width n h = q.
Proof.
  unfold width. intros H1 H2. pose proof (Nat.pow_nonzero 2 h ltac:(lia)) as H0.
  symmetry. apply (Nat.div_unique _ _ _ (n + (2 ^ h - 1) - 2 ^ h * q)); nia.
Qed.

Lemma width_le_1 n h : (width n h <= 1)%nat -> (n <= 2 ^ h)%nat.
Proof.
  intros H. destruct (decide (n <= 2 ^ h)%nat); [done|].
  pose proof (Nat.pow_nonzero 2 h ltac:(lia)).
  assert (2 <= width n h)%nat; [|lia]. unfold width. apply Nat.div_le_lower_bound; lia.
Qed.

Lemma tree_height_from n d h fuel :
  Z.of_nat n < 2 ^ 32 -> (h + d = 32)%nat -> (d < fuel)%nat ->
  (forall j, (j < h)%nat -> (1 < width n j)%nat) ->
  exists k, tree_height fuel (Z.of_nat n) (Z.of_nat h) = Some (Z.of_nat k) /\
    (k <= 32)%nat /\ (width n k <= 1)%nat /\ (forall j, (j < k)%nat -> (1 < width n j)%nat).
Proof.
  intros Hn. revert h fuel. induction d as [|d IH]; intros h [|fuel] Hd Hf Hj; try lia;
    cbn [tree_height]; rewrite level_width_spec by lia.
  - assert (h = 32%nat) as -> by lia. exists 32%nat.
    assert (width n 32 <= 1)%nat as Hw.
    { assert (n <= 2 ^ 32)%nat by (apply Nat2Z.inj_le; rewrite Nat2Z.inj_pow; lia).
      unfold width. pose proof (Nat.pow_nonzero 2 32 ltac:(lia)).
      apply Nat.lt_succ_r, Nat.Div0.div_lt_upper_bound; lia. }
    rewrite (proj2 (Z.leb_le _ _)) by lia. split_and!; auto.
  - destruct (Z.leb_spec (Z.of_nat (width n h)) 1).
    + exists h. split_and!; auto; lia.
    + rewrite (proj2 (Z.ltb_ge _ _)) by lia.
      replace (Z.of_nat h + 1) with (Z.of_nat (S h)) by lia. apply IH; [lia|lia|].
      intros j Hj'. destruct (decide (j = h)) as [->|]; [lia|]. apply Hj. lia.
Qed.

Lemma tree_height_spec n :
  Z.of_nat n < 2 ^ 32 ->
  exists h, tree_height 34 (Z.of_nat n) 0 = Some (Z.of_nat h) /\
    (h <= 32)%nat /\ (width n h <= 1)%nat /\ (forall j, (j < h)%nat -> (1 < width n j)%nat).
Proof. intros Hn. apply (tree_height_from n 32 0); [done|lia|lia|]. intros j ?. lia. Qed.

(** Bits and hashes as lists. *)
Definition byte_bits (b : Byte.byte) : list bool :=
  (fun i => Z.testbit (byte.unsigned b) (Z.of_nat i)) <$> seq 0 8.
Definition flag_bits (flags : bytes) : list bool := concat (byte_bits <$> flags).
Definition hash_list (count : nat) (hashes : bytes) : list bytes := chunks 32 count hashes.

Lemma flag_bits_length flags : length (flag_bits flags) = (8 * length flags)%nat.
Proof.
  unfold flag_bits. rewrite (length_concat_const 8), length_fmap; [lia|].
  intros l (b & -> & _)%list_elem_of_fmap. done.
Qed.

Lemma flag_bits_lookup flags n :
  (n < 8 * length flags)%nat -> flag_bits flags !! n = Some (flag_bit flags (Z.of_nat n)).
Proof.
  unfold flag_bit. rewrite Z.shiftr_div_pow2 by lia. change 7 with (Z.ones 3).
  rewrite Z.land_ones by lia. change (2 ^ 3) with (Z.of_nat 8).
  rewrite <- (Nat2Z.inj_div n 8), <- (Nat2Z.inj_mod n 8), Nat2Z.id. revert n.
  induction flags as [|b flags IH]; intros n Hn; [simpl in Hn; lia|].
  change (flag_bits (b :: flags)) with (byte_bits b ++ flag_bits flags).
  destruct (decide (n < 8)%nat) as [H8|H8].
  - rewrite lookup_app_l by done. rewrite Nat.div_small, Nat.mod_small by lia.
    unfold byte_bits. rewrite list_lookup_fmap, lookup_seq_lt by done. done.
  - rewrite lookup_app_r by (change (length (byte_bits b)) with 8%nat; lia).
    change (length (byte_bits b)) with 8%nat. cbn [length] in Hn. rewrite IH by lia.
    replace n with (n - 8 + 1 * 8)%nat at 3 4 by lia.
    rewrite Nat.div_add, Nat.Div0.mod_add, Nat.add_comm by lia. done.
Qed.

Lemma hash_list_lookup count hashes n :
  (n < count)%nat -> Z.of_nat count * 32 < 2 ^ 32 ->
  hash_list count hashes !! n = Some (hash_at hashes (Z.of_nat n)).
Proof.
  intros Hn Hc. unfold hash_list, chunks, hash_at. rewrite list_lookup_fmap, lookup_seq_lt by done.
  cbn. rewrite wrap_small by (unfold urange; lia). do 3 f_equal. lia.
Qed.

Lemma drop_cons_lookup {A} (l : list A) i :
  drop i l = match l !! i with Some x => x :: drop (S i) l | None => [] end.
Proof.
  destruct (l !! i) as [x|] eqn:E; [by apply drop_S|]. apply drop_ge. by apply lookup_ge_None.
Qed.

Definition callback {C} (on_match : option (bytes -> Z -> C -> bool * C)) :
    bytes -> Z -> C -> bool * C :=
  match on_match with Some f => f | None => fun _ _ c => (true, c) end.

Section machine.
Context {C : Type} (on_match : option (bytes -> Z -> C -> bool * C)).
Context (n hc : nat) (hashes flags : bytes).
Context (Hn : Z.of_nat n < 2 ^ 32) (Hhc : Z.of_nat hc * 32 < 2 ^ 32).
Context (Hfl : Z.of_nat (length flags) * 8 < 2 ^ 32).

Abbreviation bits := (flag_bits flags).
Abbreviation hs := (hash_list hc hashes).
Abbreviation step := (traverse_step on_match (Z.of_nat n) hashes (Z.of_nat hc) flags
                        (Z.of_nat (length flags))).
Abbreviation loop := (traverse_loop on_match (Z.of_nat n) hashes (Z.of_nat hc) flags
                        (Z.of_nat (length flags))).
Abbreviation W st bu hu r c := (mk_walk (C:=C) st (Z.of_nat bu) (Z.of_nat hu) r c).
Abbreviation frame h p := (mk_state (Z.of_nat h) (Z.of_nat p) 0 false (zeros 32)).
Implicit Types (h p bu hu fuel : nat) (c : C) (below : list traverse_state).

Lemma loop_turn fuel fr below b u r c :
  loop (S fuel) (mk_walk (fr :: below) b u r c) =
  let '(ok, w) := step (mk_walk (fr :: below) b u r c) in
  if ok then loop fuel w else Some (false, w).
Proof. done. Qed.

Lemma step_no_bits fr below bu hu r c :
  stage fr = 0 -> (8 * length flags <= bu)%nat ->
  step (W (fr :: below) bu hu r c) = (false, W (fr :: below) bu hu r c).
Proof.
  intros Hs Hbu. unfold traverse_step. cbn [st bitsUsed]. rewrite Hs. cbn [Z.eqb].
  rewrite wrap_small by (unfold urange; lia). by rewrite (proj2 (Z.leb_le _ _)) by lia.
Qed.

(** A turn that reads a bit. *)
Lemma step_bit h p below bu hu r c m :
  (h <= 32)%nat -> Z.of_nat p * 2 < 2 ^ 32 \/ h = 0%nat ->
  bits !! bu = Some m ->
  step (W (frame h p :: below) bu hu r c) =
  if (h =? 0)%nat || negb m
  then take_hash on_match hashes (Z.of_nat hc) (frame h p) below m
         (W (frame h p :: below) (S bu) hu r c)
  else push (frame (h - 1) (2 * p)) (mk_state (Z.of_nat h) (Z.of_nat p) 1 m (zeros 32)) below
         (W (frame h p :: below) (S bu) hu r c).
Proof.
  intros Hh Hp Hm. assert (bu < 8 * length flags)%nat as Hbu.
  { apply lookup_lt_Some in Hm. by rewrite flag_bits_length in Hm. }
  rewrite flag_bits_lookup in Hm by done. injection Hm as <-.
  unfold traverse_step. cbn [st bitsUsed hashesUsed ret match_ctx stage height pos left_hash].
  cbn [Z.eqb]. rewrite wrap_small by (unfold urange; lia).
  rewrite (proj2 (Z.leb_gt _ _)) by lia.
  rewrite wrap_small by (unfold urange; lia). replace (Z.of_nat bu + 1) with (Z.of_nat (S bu)) by lia.
  replace (Z.of_nat h =? 0) with (h =? 0)%nat.
  2:{ destruct (Nat.eqb_spec h 0), (Z.eqb_spec (Z.of_nat h) 0); lia || done. }
  destruct (Nat.eqb_spec h 0) as [->|]; cbn [orb]; [done|].
  case_goal; [done|]. f_equal. f_equal; rewrite wrap_small by (unfold urange; lia); lia.
Qed.

Lemma take_hash_spec h p below m bu hu r c :
  take_hash on_match hashes (Z.of_nat hc) (frame h p) below m (W (frame h p :: below) bu hu r c) =
  match hs !! hu with
  | None => (false, W (frame h p :: below) bu hu r c)
  | Some x =>
      let '(ok, c) :=
        if (h =? 0)%nat && m then callback on_match x (Z.of_nat p) c else (true, c) in
      if ok then (true, W below bu (S hu) (Some x) c)
      else (false, W (frame h p :: below) bu (S hu) (Some x) c)
  end.
Proof.
  unfold take_hash, callback. cbn [st bitsUsed hashesUsed ret match_ctx height pos].
  destruct (decide (hu < hc)%nat).
  - rewrite (proj2 (Z.leb_gt _ _)), hash_list_lookup by lia.
    rewrite wrap_small by (unfold urange; lia). replace (Z.of_nat hu + 1) with (Z.of_nat (S hu)) by lia.
    replace (Z.of_nat h =? 0) with (h =? 0)%nat; [by destruct on_match|].
    destruct (Nat.eqb_spec h 0), (Z.eqb_spec (Z.of_nat h) 0); lia || done.
  - rewrite (proj2 (Z.leb_le _ _)) by lia. rewrite (proj2 (lookup_ge_None _ _)); [done|].
    unfold hash_list. rewrite chunks_length. lia.
Qed.

(** The turn behind the left subtree. *)
Lemma step_left h p below bu hu x c m y :
  (S h <= 32)%nat -> Z.of_nat p * 2 + 1 < 2 ^ 32 ->
  step (W (mk_state (Z.of_nat (S h)) (Z.of_nat p) 1 m y :: below) bu hu (Some x) c) =
  if (2 * p + 1 <? width n h)%nat
  then push (frame h (2 * p + 1)) (mk_state (Z.of_nat (S h)) (Z.of_nat p) 2 m x) below
         (W (mk_state (Z.of_nat (S h)) (Z.of_nat p) 1 m y :: below) bu hu None c)
  else (true, W below bu hu (Some (node_hash x x)) c).
Proof.
  intros Hh Hp. unfold traverse_step.
  cbn [st bitsUsed hashesUsed ret match_ctx stage height pos left_hash parentMatch].
  cbn [Z.eqb Pos.eqb]. rewrite (wrap_small 32 (Z.of_nat p * 2)) by (unfold urange; lia).
  rewrite !(wrap_small 32 (_ + 1)) by (unfold urange; lia).
  rewrite !(wrap_small 32 (_ - 1)) by (unfold urange; lia).
  replace (Z.of_nat (S h) - 1) with (Z.of_nat h) by lia. rewrite level_width_spec by lia.
  replace (Z.of_nat p * 2 + 1) with (Z.of_nat (2 * p + 1)) by lia.
  destruct (Nat.ltb_spec (2 * p + 1) (width n h)).
  - rewrite (proj2 (Z.ltb_lt _ _)) by lia. done.
  - rewrite (proj2 (Z.ltb_ge _ _)) by lia. done.
Qed.

Lemma push_room fr cur below (w : walk C) :
  (length below + 1 < 64)%nat ->
  push fr cur below w =
  (true, mk_walk (fr :: cur :: below) (bitsUsed w) (hashesUsed w) (ret w) (match_ctx w)).
Proof.
  intros H. unfold push, STACK_LEN. by rewrite (proj2 (Z.leb_gt _ _)) by lia.
Qed.
(** What [k] turns from the frame of a node to its end have done. *)
Definition reads h p below bu hu r c (k bu' hu' : nat) (t : option pmt) (c' : C) : Prop :=
  (bu <= bu')%nat /\ (k + 3 * bu <= 3 * bu')%nat /\ (bu' <= 8 * length flags)%nat /\
  forall fuel,
  match t with
  | Some t =>
      loop (k + fuel) (W (frame h p :: below) bu hu r c) =
      loop fuel (W below bu' hu' (Some (pmt_root t)) c')
  | None => exists w, match_ctx w = c' /\
      loop (k + S fuel) (W (frame h p :: below) bu hu r c) = Some (false, w)
  end.

(** The frame of a matching inner node gives way to that of its left child. *)
Lemma push_left fuel h p below bu hu r c :
  (S h <= 32)%nat -> Z.of_nat p * 2 < 2 ^ 32 -> (length below + 1 < 64)%nat ->
  bits !! bu = Some true ->
  loop (S fuel) (W (frame (S h) p :: below) bu hu r c) =
  loop fuel (W (frame h (2 * p) ::
                mk_state (Z.of_nat (S h)) (Z.of_nat p) 1 true (zeros 32) :: below) (S bu) hu r c).
Proof.
  intros Hh Hp Hst Em. rewrite loop_turn, (step_bit (S h) p below bu hu r c true) by auto.
  cbn [Nat.eqb orb negb]. rewrite push_room by lia. cbn [bitsUsed hashesUsed ret match_ctx].
  by rewrite Nat.sub_succ, Nat.sub_0_r.
Qed.

Lemma push_right fuel h p below bu hu x c :
  (S h <= 32)%nat -> Z.of_nat p * 2 + 1 < 2 ^ 32 -> (length below + 1 < 64)%nat ->
  (2 * p + 1 < width n h)%nat ->
  loop (S fuel) (W (mk_state (Z.of_nat (S h)) (Z.of_nat p) 1 true (zeros 32) :: below)
                   bu hu (Some x) c) =
  loop fuel (W (frame h (2 * p + 1) ::
                mk_state (Z.of_nat (S h)) (Z.of_nat p) 2 true x :: below) bu hu None c).
Proof.
  intros Hh Hp Hst Hr. rewrite loop_turn, step_left by lia.
  rewrite (proj2 (Nat.ltb_lt _ _)), push_room by lia. done.
Qed.

(** The turn behind both subtrees. *)
Lemma step_right h p below bu hu x c m y :
  step (W (mk_state (Z.of_nat h) (Z.of_nat p) 2 m y :: below) bu hu (Some x) c) =
  (true, W below bu hu (Some (node_hash y x)) c).
Proof.
  unfold traverse_step.
  cbn [st bitsUsed hashesUsed ret match_ctx stage height pos left_hash parentMatch].
  cbn [Z.eqb Pos.eqb]. reflexivity.
Qed.

Ltac stuck := eexists; split; [|reflexivity]; reflexivity.

Lemma skip_node h p below bu hu r c :
  (0 < h <= 32)%nat -> Z.of_nat p * 2 < 2 ^ 32 -> bits !! bu = Some false ->
  let '(t, (bits', hs', c')) :=
    match drop hu hs with
    | [] => (None, (drop (S bu) bits, drop hu hs, c))
    | x :: hs => (Some (PSkip x), (drop (S bu) bits, hs, c))
    end in
  exists k bu' hu', bits' = drop bu' bits /\ hs' = drop hu' hs /\
    reads h p below bu hu r c k bu' hu' t c'.
Proof.
  intros Hh Hp Em. pose proof (lookup_lt_Some _ _ _ Em) as Hlt. rewrite flag_bits_length in Hlt.
  assert (forall fuel, loop (S fuel) (W (frame h p :: below) bu hu r c) =
    match hs !! hu with
    | None => Some (false, W (frame h p :: below) (S bu) hu r c)
    | Some x => loop fuel (W below (S bu) (S hu) (Some x) c)
    end) as Hturn.
  { intros fuel. rewrite loop_turn, (step_bit h p below bu hu r c false) by auto with lia.
    rewrite orb_true_r, take_hash_spec, andb_false_r. by destruct (hs !! hu). }
  rewrite (drop_cons_lookup hs hu). destruct (hs !! hu) as [x|] eqn:Ex.
  - exists 1%nat, (S bu), (S hu). split_and!; [done..|]. split_and!; try lia. intros fuel.
    change (1 + fuel)%nat with (S fuel). by rewrite Hturn.
  - exists 0%nat, (S bu), hu. rewrite (drop_cons_lookup hs hu), Ex.
    split_and!; [done..|]. split_and!; try lia. intros fuel.
    change (0 + S fuel)%nat with (S fuel). rewrite Hturn. stuck.
Qed.

Lemma loop_extract h p below bu hu r c :
  Z.of_nat p < 2 ^ 32 -> h = 0%nat \/ (p < width n h)%nat -> (h <= 32)%nat ->
  (length below + h < 64)%nat -> (bu <= 8 * length flags)%nat ->
  let '(t, (bits', hs', c')) := extract (callback on_match) n h p (drop bu bits, drop hu hs, c) in
  exists k bu' hu', bits' = drop bu' bits /\ hs' = drop hu' hs /\
    reads h p below bu hu r c k bu' hu' t c'.
Proof.
  revert p below bu hu r c. induction h as [|h IH]; intros p below bu hu r c Hp Hw Hh Hst Hbu;
    cbn [extract]; rewrite (drop_cons_lookup bits bu);
    destruct (bits !! bu) as [m|] eqn:Em.
  2,4: apply lookup_ge_None in Em; rewrite flag_bits_length in Em;
       exists 0%nat, bu, hu; rewrite drop_ge by (rewrite flag_bits_length; lia);
       split_and!; [done..|]; split_and!; try lia; intros fuel; cbn [Nat.add];
       rewrite loop_turn, step_no_bits by (done || lia); stuck.
  - pose proof (lookup_lt_Some _ _ _ Em) as Hlt. rewrite flag_bits_length in Hlt.
    assert (forall fuel, loop (S fuel) (W (frame 0 p :: below) bu hu r c) = 
      match hs !! hu with
      | None => Some (false, W (frame 0 p :: below) (S bu) hu r c)
      | Some x =>
          let '(ok, c) := if m then callback on_match x (Z.of_nat p) c else (true, c) in
          if ok then loop fuel (W below (S bu) (S hu) (Some x) c)
          else Some (false, W (frame 0 p :: below) (S bu) (S hu) (Some x) c)
      end) as Hturn.
    { intros fuel. rewrite loop_turn, (step_bit 0 p below bu hu r c m); [|lia|by right|done].
      cbn [Nat.eqb orb]. rewrite take_hash_spec. cbn [Nat.eqb andb].
      destruct (hs !! hu); [|done]. destruct m; [|done]. by destruct (callback _ _ _ _) as [[] ?]. }
    rewrite (drop_cons_lookup hs hu). destruct (hs !! hu) as [x|] eqn:Ex.
    + destruct (if m then _ else _) as [ok c'] eqn:Ec. destruct ok.
      * exists 1%nat, (S bu), (S hu). split_and!; [done..|]. split_and!; try lia. intros fuel.
        change (1 + fuel)%nat with (S fuel). by rewrite Hturn.
      * exists 0%nat, (S bu), (S hu). split_and!; [done..|]. split_and!; try lia. intros fuel.
        change (0 + S fuel)%nat with (S fuel). rewrite Hturn. stuck.
    + exists 0%nat, (S bu), hu. rewrite (drop_cons_lookup hs hu), Ex.
      split_and!; [done..|]. split_and!; try lia. intros fuel.
      change (0 + S fuel)%nat with (S fuel). rewrite Hturn. stuck.
  - pose proof (lookup_lt_Some _ _ _ Em) as Hlt. rewrite flag_bits_length in Hlt.
    destruct Hw as [|Hw]; [done|]. apply width_left in Hw as [Hw Hpn].
    destruct m.
    2:{ apply (skip_node (S h) p below bu hu r c); [lia|lia|done]. }
    specialize (IH (2 * p)%nat (mk_state (Z.of_nat (S h)) (Z.of_nat p) 1 true (zeros 32) :: below)
      (S bu) hu r c ltac:(lia) ltac:(lia) ltac:(lia) ltac:(cbn [length]; lia) ltac:(lia)) as IHl.
    destruct (extract _ _ h (2 * p) _) as [[t|] [[bits1 hs1] c1]];
      destruct IHl as (k1 & bu1 & hu1 & -> & -> & Hb1 & Hk1 & Hl1 & Hrun1).
    2:{ exists (S k1), bu1, hu1. split_and!; [done..|]. split_and!; try lia. intros fuel.
        destruct (Hrun1 fuel) as (w & Ew & E). exists w. split; [done|].
        cbn [Nat.add]. rewrite push_left by (done || lia). done. }
    destruct (Nat.ltb_spec (2 * p + 1) (width n h)) as [Hr|Hr].
    2:{ exists (S k1 + 1)%nat, bu1, hu1. split_and!; [done..|]. split_and!; try lia. intros fuel.
        replace (S k1 + 1 + fuel)%nat with (S (k1 + S fuel)) by lia.
        rewrite push_left, Hrun1, loop_turn, step_left by (done || lia).
        by rewrite (proj2 (Nat.ltb_ge _ _)) by done. }
    specialize (IH (2 * p + 1)%nat
      (mk_state (Z.of_nat (S h)) (Z.of_nat p) 2 true (pmt_root t) :: below) bu1 hu1 None c1
      ltac:(lia) ltac:(lia) ltac:(lia) ltac:(cbn [length]; lia) ltac:(lia)).
    destruct (extract _ _ h (2 * p + 1) _) as [[t2|] [[bits2 hs2] c2]];
      destruct IH as (k2 & bu2 & hu2 & -> & -> & Hb2 & Hk2 & Hl2 & Hrun2).
    + exists (S k1 + S k2 + 1)%nat, bu2, hu2. split_and!; [done..|]. split_and!; try lia.
      intros fuel. replace (S k1 + S k2 + 1 + fuel)%nat with (S (k1 + S (k2 + S fuel))) by lia.
      rewrite push_left, Hrun1, push_right, Hrun2 by (done || lia).
      by rewrite loop_turn, step_right.
    + exists (S k1 + S k2)%nat, bu2, hu2. split_and!; [done..|]. split_and!; try lia.
      intros fuel. destruct (Hrun2 fuel) as (w & Ew & E). exists w. split; [done|].
      replace (S k1 + S k2 + S fuel)%nat with (S (k1 + S (k2 + S fuel))) by lia.
      by rewrite push_left, Hrun1, push_right by (done || lia).
Qed.
End machine.

Lemma tree_height_log n :
  Z.of_nat n < 2 ^ 32 -> (Nat.log2_up n <= 32)%nat /\ (width n (Nat.log2_up n) <= 1)%nat /\
  (forall j, (j < Nat.log2_up n)%nat -> (1 < width n j)%nat) /\
  tree_height 34 (Z.of_nat n) 0 = Some (Z.of_nat (Nat.log2_up n)).
Proof.
  intros Hn. destruct (tree_height_spec n Hn) as (h & E & H32 & Hw & Hj).
  replace (Nat.log2_up n) with h; [done|]. pose proof (width_le_1 n h Hw) as Hle.
  destruct h as [|h]; [symmetry; apply Nat.log2_up_eqn0; simpl in Hle; lia|].
  symmetry. apply Nat.log2_up_unique; [lia|]. split; [|done]. cbn [Nat.pred].
  specialize (Hj h ltac:(lia)). apply width_bound in Hj. lia.
Qed.

(** The whole function, recursively. *)
Definition pmt_extract {C} (on_match : bytes -> Z -> C -> bool * C) (n : nat)
    (bits : list bool) (hs : list bytes) (c : C) : option pmt * C :=
  let '(t, (_, _, c)) := extract on_match n (Nat.log2_up n) 0 (bits, hs, c) in (t, c).

(** What a [merkleblock] message holds; the lengths fit a message. *)
Definition merkleblock_ok (nTx hashCount : Z) (hashes flags : bytes) : Prop :=
  urange 32 nTx /\ length hashes = (32 * Z.to_nat hashCount)%nat /\
  0 < hashCount /\ hashCount * 32 < 2 ^ 32 /\
  0 < Z.of_nat (length flags) /\ Z.of_nat (length flags) * 8 < 2 ^ 32.

Lemma traverse_spec {C} (on_match : option (bytes -> Z -> C -> bool * C)) nTx hashes hashCount
    flags header c :
  merkleblock_ok nTx hashCount hashes flags ->
  traverse_merkle_matches on_match nTx hashes hashCount flags (Z.of_nat (length flags)) header c =
  Some (let '(t, c) := pmt_extract (callback on_match) (Z.to_nat nTx) (flag_bits flags)
                         (hash_list (Z.to_nat hashCount) hashes) c in
        (match t with Some t => bytes_eqb (pmt_root t) header | None => false end, c)).
Proof.
  intros ([Hn0 Hn] & Hlen & Hc0 & Hc & Hf0 & Hf). unfold traverse_merkle_matches.
  rewrite !(proj2 (Z.eqb_neq _ _)) by lia. cbn [orb].
  set (n := Z.to_nat nTx). replace nTx with (Z.of_nat n) by lia.
  set (hc := Z.to_nat hashCount) in *. replace hashCount with (Z.of_nat hc) by lia.
  destruct (tree_height_log n ltac:(lia)) as (H32 & Hw & _ & ->). unfold pmt_extract.
  pose proof (loop_extract on_match n hc hashes flags ltac:(lia) ltac:(lia) ltac:(lia)
    (Nat.log2_up n) 0 [] 0 0 None c ltac:(lia)) as H.
  rewrite !drop_0 in H. cbn [length] in H.
  destruct (extract _ _ _ _ _) as [[t|] [[bits' hs'] c']].
  - destruct H as (k & bu' & hu' & _ & _ & _ & Hk & Hb & Hrun); [|lia..|].
    { destruct (decide (Nat.log2_up n = 0%nat)) as [|H0]; [by left|right]. apply width_bound.
      destruct (decide (n = 0%nat)) as [->|]; [done|lia]. }
    replace (traverse_fuel flags) with (k + S (24 * length flags - k))%nat
      by (unfold traverse_fuel; lia).
    change (Z.of_nat 0) with 0 in Hrun. rewrite Hrun. cbn [traverse_loop st mbind option_bind ret match_ctx].
    done.
  - destruct H as (k & bu' & hu' & _ & _ & _ & Hk & Hb & Hrun); [|lia..|].
    { destruct (decide (Nat.log2_up n = 0%nat)) as [|H0]; [by left|right]. apply width_bound.
      destruct (decide (n = 0%nat)) as [->|]; [done|lia]. }
    change (Z.of_nat 0) with 0 in Hrun. destruct (Hrun (24 * length flags - k)%nat) as (w & <- & E).
    replace (traverse_fuel flags) with (k + S (24 * length flags - k))%nat
      by (unfold traverse_fuel; lia).
    rewrite E. cbn [mbind option_bind]. done.
Qed.


