(* ===== verification/MerkleBlock.v ===== *)
(** * Merkle blocks ([src/src/bip37.c])

    What the walk accepts: against the transactions of a block it is sound, up to a
    collision of the hash, and complete for the partial trees BIP 37 prescribes; and the tree
    the matches are collected in, from which each is consumed once. *)

From S2P Require Import Prelude Mem Words Sha256 Merkle Btree Bip37.
From stdpp Require Import sorting.

Local Open Scope Z_scope.

#[local] Opaque dogecoin_hash node_hash.

(** ** What the reader accepts *)

(** A tree with the shape of node [p] of level [h] over [n] leaves. *)
Fixpoint pmt_shape (n h p : nat) (t : pmt) : Prop :=
  match t, h with
  | PLeaf _ _, O | PSkip _, S _ => True
  | POne l, S h => (width n h <= 2 * p + 1)%nat /\ pmt_shape n h (2 * p) l
  | PTwo l r, S h =>
      (2 * p + 1 < width n h)%nat /\ pmt_shape n h (2 * p) l /\ pmt_shape n h (2 * p + 1) r
  | _, _ => False
  end.

(** What a callback that has accepted everything has been given. *)
Definition feed {C} (f : bytes -> Z -> C -> bool * C) (c : C) (ms : list (bytes * Z)) : C :=
  foldl (fun c m => (f m.1 m.2 c).2) c ms.

Lemma extract_inv {C} (f : bytes -> Z -> C -> bool * C) n h p bits hs c t bits' hs' c' :
  extract f n h p (bits, hs, c) = (Some t, (bits', hs', c')) ->
  pmt_shape n h p t /\ bits = pmt_bits t ++ bits' /\ hs = pmt_hashes t ++ hs' /\
  c' = feed f c (pmt_matches p t).
Proof.
  revert p bits hs c t bits' hs' c'.
  induction h as [|h IH]; intros p bits hs c t bits' hs' c'; cbn [extract];
    (destruct bits as [|m bits]; [done|]).
  { destruct hs as [|x hs]; [done|]. destruct m.
    - destruct (f x (Z.of_nat p) c) as [[] c1] eqn:E; [|done]. intros [= <- <- <- <-].
      split_and!; try done. unfold feed. cbn. by rewrite E.
    - by intros [= <- <- <- <-]. }
  destruct m.
  2:{ destruct hs as [|x hs]; [done|]. by intros [= <- <- <- <-]. }
  destruct (extract f n h (2 * p) (bits, hs, c)) as [[l|] [[bits1 hs1] c1]] eqn:El; [|done].
  apply IH in El as (Hl & -> & -> & ->).
  destruct (Nat.ltb_spec (2 * p + 1) (width n h)).
  - destruct (extract f n h (2 * p + 1) _) as [[r|] [[bits2 hs2] c2]] eqn:Er; [|done].
    apply IH in Er as (Hr & -> & -> & ->). intros [= <- <- <- <-].
    cbn [pmt_shape pmt_bits pmt_hashes pmt_matches app]. rewrite <- !app_assoc.
    unfold feed. by rewrite foldl_app.
  - by intros [= <- <- <- <-].
Qed.

(** A well-shaped tree is read back by a callback that accepts everything. *)
Lemma extract_encoded {C} (f : bytes -> Z -> C -> bool * C) n h p t bits hs c :
  (forall x q c, (f x q c).1 = true) -> pmt_shape n h p t ->
  extract f n h p (pmt_bits t ++ bits, pmt_hashes t ++ hs, c) =
  (Some t, (bits, hs, feed f c (pmt_matches p t))).
Proof.
  intros Hf. revert p t bits hs c.
  induction h as [|h IH]; intros p t bits hs c; destruct t as [x|m x|l|l r];
    cbn [pmt_shape]; intros Hs; try done;
    cbn [pmt_bits pmt_hashes pmt_matches app extract].
  - destruct m; [|done]. specialize (Hf x (Z.of_nat p) c). unfold feed. cbn.
    by destruct (f x (Z.of_nat p) c) as [[] c'].
  - destruct Hs as [Hw Hs]. rewrite IH by done. by rewrite (proj2 (Nat.ltb_ge _ _)) by lia.
  - destruct Hs as (Hw & Hl & Hr). rewrite <- !app_assoc, IH by done.
    rewrite (proj2 (Nat.ltb_lt _ _)), IH by (done || lia). cbn.
    unfold feed. by rewrite foldl_app.
Qed.

(** The callback that records what it is given. *)
Definition record_match (x : bytes) (p : Z) (l : list (bytes * Z)) : bool * list (bytes * Z) :=
  (true, l ++ [(x, p)]).

Lemma feed_record l ms : feed record_match l ms = l ++ ms.
Proof.
  revert l. induction ms as [|[x q] ms IH]; intros l; cbn; [by rewrite app_nil_r|].
  unfold feed in IH. by rewrite IH, <- app_assoc.
Qed.

(** ** Soundness *)

(** A string hashed in the merkle tree over [leaves]. *)
Definition tree_input (leaves : list bytes) (x : bytes) : Prop :=
  exists j i a, (j < Nat.log2_up (length leaves))%nat /\ lv leaves j !! (2 * i)%nat = Some a /\
    x = a ++ default a (lv leaves j !! (2 * i + 1)%nat).

(** Two different strings with the same hash, one hashed for [t], one in the tree. *)
Definition collision (t : pmt) (leaves : list bytes) : Prop :=
  exists x y, x ∈ pmt_inputs t /\ tree_input leaves y /\ x <> y /\
    dogecoin_hash x = dogecoin_hash y.

Section sound.
Context (leaves : list bytes).
Abbreviation n := (length leaves).
Context (Hpos : (0 < n)%nat) (H32 : Forall (fun x => length x = 32%nat) leaves).

Lemma width_lv h : width n h = length (lv leaves h).
Proof. pose proof (lv_length leaves h Hpos). apply width_of; lia. Qed.

Lemma node_hash_eq a b : node_hash a b = dogecoin_hash (a ++ b).
Proof. with_strategy transparent [node_hash] reflexivity. Qed.

Lemma lv_32 j : Forall (fun x => length x = 32%nat) (lv leaves j).
Proof.
  induction j as [|j _]; [done|]. rewrite lv_S. generalize (lv leaves j) as l. intros l.
  induction l as [|a|a b l IH] using list_ind2; cbn [pairs].
  - apply List.Forall_nil.
  - apply Forall_singleton. rewrite node_hash_eq. apply dogecoin_hash_length.
  - apply List.Forall_cons; [|done]. rewrite node_hash_eq. apply dogecoin_hash_length.
Qed.

Lemma root_32 t : Forall (fun x => length x = 32%nat) (pmt_hashes t) ->
  length (pmt_root t) = 32%nat.
Proof.
  destruct t as [x|m x|l|l r]; cbn [pmt_hashes pmt_root]; intros H.
  1,2: exact (proj1 (Forall_singleton _ _) H).
  all: rewrite node_hash_eq; apply dogecoin_hash_length.
Qed.

(** The node above a pair: the children are those of the tree, or there is a collision. *)
Lemma parent_children h p a b t :
  (h < Nat.log2_up n)%nat -> length a = 32%nat ->
  (a ++ b) ∈ pmt_inputs t ->
  lv leaves (S h) !! p = Some (node_hash a b) ->
  (exists x, lv leaves h !! (2 * p)%nat = Some x /\ a = x /\
     b = default x (lv leaves h !! (2 * p + 1)%nat)) \/ collision t leaves.
Proof.
  intros Hh Ha Hin. rewrite lv_S, pairs_lookup.
  destruct (lv leaves h !! (2 * p)%nat) as [x|] eqn:Ex; [|done].
  set (y := default x (lv leaves h !! (2 * p + 1)%nat)). intros E.
  assert (dogecoin_hash (x ++ y) = dogecoin_hash (a ++ b)) as E'.
  { subst y. destruct (lv leaves h !! (2 * p + 1)%nat); rewrite !node_hash_eq in E;
      cbn; injection E as E; done. }
  assert (length x = 32%nat) as Hx.
  { by apply (proj1 (Forall_lookup _ _) (lv_32 h) _ _ Ex). }
  destruct (decide (a ++ b = x ++ y)) as [Eq|Ne].
  - left. apply app_inj_1 in Eq as [-> ->]; [|lia]. eauto.
  - right. exists (a ++ b), (x ++ y). split_and!; [done| |done|done].
    exists h, p, x. done.
Qed.

Lemma collision_mono t t' :
  (forall x, x ∈ pmt_inputs t -> x ∈ pmt_inputs t') -> collision t leaves -> collision t' leaves.
Proof. intros H (x & y & ? & ?). exists x, y. auto. Qed.

Lemma shape_sound h p t :
  (h <= Nat.log2_up n)%nat -> pmt_shape n h p t ->
  Forall (fun x => length x = 32%nat) (pmt_hashes t) ->
  lv leaves h !! p = Some (pmt_root t) ->
  (forall x q, (x, q) ∈ pmt_matches p t -> leaves !! Z.to_nat q = Some x) \/ collision t leaves.
Proof.
  revert p t. induction h as [|h IH]; intros p [y|m y|l|l r] Hh Hs H Hroot;
    cbn [pmt_shape pmt_matches pmt_hashes pmt_root] in *; try done.
  - left. intros x q Hq. destruct m; [|by apply elem_of_nil in Hq].
    apply list_elem_of_singleton in Hq as [= -> ->]. by rewrite Nat2Z.id.
  - left. by intros x q ?%elem_of_nil.
  - destruct Hs as [Hw Hs].
    destruct (parent_children h p _ _ (POne l) ltac:(lia) (root_32 l H)
      ltac:(cbn [pmt_inputs]; by left) Hroot) as [(x & Ex & Er & _)|]; [|by right].
    rewrite <- Er in Ex. destruct (IH (2 * p)%nat l ltac:(lia) Hs H Ex) as [|Hc]; [by left|right].
    apply (collision_mono l); [|done]. intros z Hz. by right.
  - destruct Hs as (Hw & Hl & Hr). apply Forall_app in H as [H1 H2].
    destruct (parent_children h p _ _ (PTwo l r) ltac:(lia) (root_32 l H1)
      ltac:(cbn [pmt_inputs]; by left) Hroot) as [(x & Ex & El & Er)|]; [|by right].
    rewrite <- El in Ex. rewrite width_lv in Hw.
    destruct (lookup_lt_is_Some_2 (lv leaves h) (2 * p + 1) Hw) as [y Ey].
    rewrite Ey in Er. cbn in Er. rewrite <- Er in Ey.
    destruct (IH (2 * p)%nat l ltac:(lia) Hl H1 Ex) as [IHl|Hc].
    2:{ right. apply (collision_mono l); [|done]. intros z Hz. cbn. set_solver. }
    destruct (IH (2 * p + 1)%nat r ltac:(lia) Hr H2 Ey) as [IHr|Hc].
    2:{ right. apply (collision_mono r); [|done]. intros z Hz. cbn. set_solver. }
    left. intros z q [Hz|Hz]%elem_of_app; [by apply IHl|by apply IHr].
Qed.
End sound.

Lemma root_level leaves root mutated :
  (0 < length leaves)%nat -> Z.of_nat (length leaves) <= 2 ^ 31 ->
  compute_merkle_root (Some leaves) = Some (root, mutated) ->
  lv leaves (Nat.log2_up (length leaves)) !! 0%nat = Some root.
Proof.
  intros H0 Hn. rewrite compute_merkle_root_spec by done. intros [= E].
  destruct (tree_height_log (length leaves) ltac:(lia)) as (_ & Hw & Hj & _).
  pose proof (lv_length leaves (Nat.log2_up (length leaves)) H0) as Hl.
  pose proof (width_lv leaves H0) as Hwl. rewrite Hwl in Hw.
  destruct (merkle_spec_levels leaves (Nat.log2_up (length leaves))) as (r & Er & Hspec).
  { destruct (lv leaves (Nat.log2_up (length leaves))) as [|? []]; simpl in *; lia. }
  { intros j Hjj. rewrite <- Hwl. by apply Hj. }
  destruct (Hspec 0%nat ltac:(lia) (length leaves) ltac:(simpl; lia)) as (m & Em & _).
  change (lv leaves 0) with leaves in Em. rewrite Em in E. injection E as <- _. by rewrite Er.
Qed.

Lemma hash_list_32 count hashes :
  length hashes = (32 * count)%nat ->
  Forall (fun x => length x = 32%nat) (hash_list count hashes).
Proof. intros H. apply chunks_all. lia. Qed.

(** The partial tree a message holds. *)
Definition merkleblock_tree (nTx : Z) (hashes : bytes) (hashCount : Z) (flags : bytes) : option pmt :=
  (pmt_extract record_match (Z.to_nat nTx) (flag_bits flags)
     (hash_list (Z.to_nat hashCount) hashes) []).1.


(** ** Completeness *)

(** The partial tree BIP 37 builds for the wanted transactions. *)
Section build.
Context (leaves : list bytes) (want : nat -> bool).
Abbreviation n := (length leaves).

(** Positions of the leaves below a node. *)
Definition below_node (h p : nat) : list nat := seq (p * 2 ^ h) (Nat.min (2 ^ h) (n - p * 2 ^ h)).

Fixpoint pmt_build (h p : nat) : pmt :=
  match h with
  | O => PLeaf (want p) (default [] (leaves !! p))
  | S h' =>
      if existsb want (below_node h p) then
        if (2 * p + 1 <? width n h')%nat
        then PTwo (pmt_build h' (2 * p)) (pmt_build h' (2 * p + 1))
        else POne (pmt_build h' (2 * p))
      else PSkip (default [] (lv leaves h !! p))
  end.

(** The wanted transactions among the given positions. *)
Definition wanted (l : list nat) : list (bytes * Z) :=
  (fun q => (default [] (leaves !! q), Z.of_nat q)) <$> List.filter want l.

Context (Hpos : (0 < n)%nat).

Lemma build_shape h p : pmt_shape n h p (pmt_build h p).
Proof.
  revert p. induction h as [|h IH]; intros p; cbn [pmt_build]; [done|].
  destruct (existsb _ _); [|done].
  destruct (Nat.ltb_spec (2 * p + 1) (width n h)); cbn [pmt_shape]; auto.
Qed.

Lemma build_root h p : (p < width n h)%nat -> lv leaves h !! p = Some (pmt_root (pmt_build h p)).
Proof.
  revert p. induction h as [|h IH]; intros p Hp.
  - cbn [pmt_build pmt_root]. rewrite (width_lv leaves Hpos) in Hp.
    by destruct (lookup_lt_is_Some_2 (lv leaves 0) p Hp) as [x Hx]; change (lv leaves 0) with leaves in *;
      rewrite Hx.
  - pose proof (width_left n h p Hp) as [Hl _]. cbn [pmt_build]. destruct (existsb _ _).
    2:{ cbn [pmt_root]. rewrite (width_lv leaves Hpos) in Hp.
        by destruct (lookup_lt_is_Some_2 _ _ Hp) as [x ->]. }
    destruct (Nat.ltb_spec (2 * p + 1) (width n h)); cbn [pmt_root];
      rewrite lv_S, pairs_lookup, (IH (2 * p)%nat) by done.
    + by rewrite (IH (2 * p + 1)%nat).
    + rewrite (proj2 (lookup_ge_None (lv leaves h) _)); [done|].
      by rewrite <- (width_lv leaves Hpos).
Qed.

Lemma below_split h p :
  (p < width n (S h))%nat ->
  below_node (S h) p = below_node h (2 * p) ++ below_node h (2 * p + 1).
Proof.
  intros Hp%width_bound. unfold below_node. rewrite Nat.pow_succ_r' in *.
  replace (p * (2 * 2 ^ h))%nat with (2 * p * 2 ^ h)%nat in * by lia.
  replace ((2 * p + 1) * 2 ^ h)%nat with (2 * p * 2 ^ h + 2 ^ h)%nat by lia.
  set (a := (2 * p * 2 ^ h)%nat) in *. set (b := (2 ^ h)%nat) in *.
  destruct (decide (n <= a + b)%nat) as [Hab|Hab].
  - replace (n - (a + b))%nat with 0%nat by lia. rewrite (Nat.min_r b 0) by lia. cbn [seq].
    rewrite app_nil_r. f_equal. lia.
  - rewrite (Nat.min_l b (n - a)) by lia. rewrite <- seq_app. f_equal. lia.
Qed.

Lemma wanted_none l : existsb want l = false -> wanted l = [].
Proof.
  unfold wanted. induction l as [|q l IH]; [done|]. cbn. destruct (want q); [done|]. apply IH.
Qed.

Lemma wanted_app l k : wanted (l ++ k) = wanted l ++ wanted k.
Proof. unfold wanted. by rewrite List.filter_app, fmap_app. Qed.

Lemma build_matches h p :
  (p < width n h)%nat -> pmt_matches p (pmt_build h p) = wanted (below_node h p).
Proof.
  revert p. induction h as [|h IH]; intros p Hp.
  - apply width_bound in Hp. unfold below_node. rewrite Nat.pow_0_r, Nat.mul_1_r in *.
    rewrite Nat.min_l by lia. cbn. by destruct (want p).
  - pose proof (width_left n h p Hp) as [Hl _]. cbn [pmt_build].
    destruct (existsb want (below_node (S h) p)) eqn:E.
    2:{ by rewrite (wanted_none _ E). }
    rewrite below_split, wanted_app, <- (IH (2 * p)%nat) by done.
    destruct (Nat.ltb_spec (2 * p + 1) (width n h)) as [Hr|Hr]; cbn [pmt_matches].
    + by rewrite (IH (2 * p + 1)%nat).
    + replace (below_node h (2 * p + 1)) with (@nil nat); [by rewrite app_nil_r|].
      unfold below_node. replace (n - (2 * p + 1) * 2 ^ h)%nat with 0%nat; [by rewrite Nat.min_0_r|].
      pose proof (width_bound n h (2 * p + 1)). lia.
Qed.
End build.

(** Flags as a message carries them: the first bit is the lowest one of the first byte. *)
Definition byte_of_bits (l : list bool) : Byte.byte :=
  byte.of_Z (foldr (fun b acc => 2 * acc + Z.b2z b) 0 l).
Definition pack_bits (bits : list bool) : bytes :=
  (fun i => byte_of_bits (take 8 (drop (8 * i) bits))) <$> seq 0 (width (length bits) 3).

Lemma byte_bits_of l :
  (length l <= 8)%nat -> byte_bits (byte_of_bits l) = l ++ replicate (8 - length l) false.
Proof.
  intros Hl. do 9 (destruct l as [|[] l]; [vm_compute; reflexivity| |]).
  all: try (cbn in Hl; lia).
Qed.

Lemma flag_bits_groups k l :
  (length l <= 8 * k)%nat ->
  concat ((fun i => byte_bits (byte_of_bits (take 8 (drop (8 * i) l)))) <$> seq 0 k) =
  l ++ replicate (8 * k - length l) false.
Proof.
  revert l. induction k as [|k IH]; intros l Hl.
  { destruct l; [done|simpl in Hl; lia]. }
  cbn [seq]. rewrite <- fmap_S_seq. cbn [fmap list_fmap concat]. rewrite <- list_fmap_compose.
  unfold compose. rewrite Nat.mul_0_r, drop_0, byte_bits_of by (rewrite length_take; lia).
  pose proof (IH (drop 8 l) ltac:(rewrite length_drop; lia)) as IHd.
  erewrite list_fmap_ext; [rewrite IHd|intros i ? _; cbn beta; rewrite drop_drop; do 4 f_equal; lia].
  rewrite length_take, length_drop. destruct (Nat.le_gt_cases 8 (length l)).
  - rewrite Nat.min_l, Nat.sub_diag by lia. cbn [replicate]. rewrite app_nil_r, app_assoc, take_drop.
    do 2 f_equal. lia.
  - rewrite Nat.min_r, take_ge, drop_ge by lia. rewrite app_nil_l, <- app_assoc, <- replicate_add.
    do 2 f_equal. lia.
Qed.

Lemma pack_bits_length l : length (pack_bits l) = width (length l) 3.
Proof. unfold pack_bits. by rewrite length_fmap, length_seq. Qed.

Lemma flag_bits_pack l : exists k, flag_bits (pack_bits l) = l ++ replicate k false.
Proof.
  unfold flag_bits, pack_bits. rewrite <- list_fmap_compose. unfold compose.
  rewrite flag_bits_groups; [by eexists|].
  destruct (width_bound (length l) 3 (width (length l) 3)) as [_ H]. change (2 ^ 3)%nat with 8%nat in H.
  destruct (Nat.le_gt_cases (length l) (8 * width (length l) 3)); [done|]. lia.
Qed.

Lemma hash_list_concat hs :
  Forall (fun x => length x = 32%nat) hs -> hash_list (length hs) (concat hs) = hs.
Proof. apply chunks_concat. Qed.

Lemma build_hashes_32 leaves want h p :
  (0 < length leaves)%nat -> Forall (fun x => length x = 32%nat) leaves ->
  (p < width (length leaves) h)%nat ->
  Forall (fun x => length x = 32%nat) (pmt_hashes (pmt_build leaves want h p)).
Proof.
  intros H0 H32. revert p. induction h as [|h IH]; intros p Hp; pose proof Hp as Hp';
    rewrite (width_lv leaves H0) in Hp'; apply lookup_lt_is_Some_2 in Hp' as [x Hx];
    pose proof (proj1 (Forall_lookup _ _) (lv_32 leaves H32 _) _ _ Hx) as Hx32; cbn [pmt_build].
  - change (lv leaves 0) with leaves in Hx. cbn [pmt_hashes]. rewrite Hx.
    by apply Forall_singleton.
  - pose proof (width_left _ _ _ Hp) as [Hl _]. destruct (existsb _ _).
    2:{ cbn [pmt_hashes]. rewrite Hx. by apply Forall_singleton. }
    destruct (Nat.ltb_spec (2 * p + 1) (width (length leaves) h)); cbn [pmt_hashes];
      [apply Forall_app; split|]; apply IH; lia.
Qed.

(** The partial tree that BIP 37 prescribes for a block and a set of wanted
    transactions is accepted for the merkle root of the block, and the matches reported are
    the wanted transactions, in order, at their positions. *)
Theorem merkleblock_complete leaves want root mutated
    (t := pmt_build leaves want (Nat.log2_up (length leaves)) 0) :
  (0 < length leaves)%nat -> Z.of_nat (length leaves) <= 2 ^ 31 ->
  Forall (fun x => length x = 32%nat) leaves ->
  compute_merkle_root (Some leaves) = Some (root, mutated) ->
  Z.of_nat (length (pmt_hashes t)) * 32 < 2 ^ 32 ->
  Z.of_nat (length (pmt_bits t)) <= 2 ^ 28 ->
  traverse_merkle_matches (Some record_match) (Z.of_nat (length leaves))
    (concat (pmt_hashes t)) (Z.of_nat (length (pmt_hashes t)))
    (pack_bits (pmt_bits t)) (Z.of_nat (length (pack_bits (pmt_bits t)))) root [] =
  Some (true, wanted leaves want (seq 0 (length leaves))).
Proof.
  intros H0 Hn H32 Hroot Hh Hb.
  destruct (tree_height_log (length leaves) ltac:(lia)) as (_ & Hw1 & _).
  pose proof (width_lv leaves H0 (Nat.log2_up (length leaves))) as Hw2.
  pose proof (lv_length leaves (Nat.log2_up (length leaves)) H0) as Hlv.
  assert (0 < width (length leaves) (Nat.log2_up (length leaves)))%nat as Hw by (apply width_bound; lia).
  assert (Forall (fun x => length x = 32%nat) (pmt_hashes t)) as Ht by by apply build_hashes_32.
  assert (0 < length (pmt_hashes t) /\ 0 < length (pmt_bits t))%nat as [Hh0 Hb0].
  { clear. clearbody t. induction t; cbn; rewrite ?length_app; lia. }
  assert (Z.of_nat (width (length (pmt_bits t)) 3) * 8 < 2 ^ 32 /\
          0 < Z.of_nat (width (length (pmt_bits t)) 3)) as [Hf Hf0].
  { assert (0 < width (length (pmt_bits t)) 3)%nat by (apply width_bound; lia). split; [|lia].
    pose proof (width_bound (length (pmt_bits t)) 3 (width (length (pmt_bits t)) 3 - 1)) as [Hw3 _].
    change (2 ^ 3)%nat with 8%nat in Hw3. lia. }
  rewrite traverse_spec.
  2:{ unfold merkleblock_ok. rewrite pack_bits_length, Nat2Z.id. split_and!; try lia.
      { unfold urange. lia. }
      rewrite (length_concat_const 32); [lia|]. by apply Forall_forall. }
  rewrite !Nat2Z.id, hash_list_concat by done. destruct (flag_bits_pack (pmt_bits t)) as [k ->].
  unfold pmt_extract. cbn [callback]. rewrite <- (app_nil_r (pmt_hashes t)).
  rewrite extract_encoded by (done || apply build_shape). rewrite feed_record, app_nil_l.
  subst t. rewrite build_matches by done. unfold below_node. rewrite Nat.mul_0_l, Nat.sub_0_r.
  apply width_le_1 in Hw1. rewrite Nat.min_r by done.
  pose proof (build_root leaves want H0 _ 0%nat Hw) as Hr.
  rewrite (root_level leaves root mutated) in Hr by done. injection Hr as <-.
  unfold bytes_eqb. by rewrite bool_decide_eq_true_2.
Qed.

Example zero_transactions :
  traverse_merkle_matches (Some record_match) 0 (zeros 32) 1 [Byte.x01] 1 (zeros 32) [] =
  Some (true, [(zeros 32, 0)]).
Proof. vm_compute. reflexivity. Qed.

(** ** Collecting the matches *)

Record merkle_match := mk_match { txid : bytes; match_pos : Z; consumed : bool }.

Definition merkle_match_cmp (a b : merkle_match) : Z := memcmp 32 (txid a) (txid b).

#[export] Instance merkle_match_comparison : Comparison merkle_match_cmp :=
  memcmp_comparison 32 txid.

(** The tree the matches are kept in and the number of those not consumed yet. *)
Abbreviation match_tree := (btree_node merkle_match * Z)%type.

Section matches.
Context `{!Allocator}.

(** A new node is told from a known one by its address. *)
Definition merkle_collect_match (id : bytes) (pos : Z) (c : match_tree) : bool * match_tree :=
  let '(tree, pending) := c in
  if negb (alloc_ok 40) then (false, c)
  else
    let m := mk_match (take 32 id) pos false in
    match btree_tsearch merkle_match_cmp m tree with
    | (None, tree) => (false, (tree, pending))
    | (Some _, tree') =>
        match btree_tfind merkle_match_cmp m tree with
        | Some _ => (true, (tree', pending))
        | None => (true, (tree', u32 (pending + 1)))
        end
    end.

Definition merkle_extract_match_tree (nTx : Z) (hashes : bytes) (hashCount : Z) (flags : bytes)
    (flags_len : Z) (header_merkle : bytes) (tree : btree_node merkle_match)
    : option (bool * match_tree) :=
  traverse_merkle_matches (Some merkle_collect_match) nTx hashes hashCount flags flags_len
    header_merkle (tree, 0).
End matches.

(** A change of the found key through its pointer. *)
Fixpoint btree_update {K} (compar : K -> K -> Z) (v : K) (f : K -> K) (t : btree_node K)
    : btree_node K :=
  match t with
  | Null => Null
  | Node l k r =>
      let c := compar v k in
      if c =? 0 then Node l (f k) r
      else if c <? 0 then Node (btree_update compar v f l) k r
      else Node l k (btree_update compar v f r)
  end.

Definition set_consumed (m : merkle_match) : merkle_match :=
  mk_match (txid m) (match_pos m) true.

(** The position stored through [out_pos], if the match is there to be consumed. *)
Definition merkle_match_consume (c : match_tree) (id : bytes) : option Z * match_tree :=
  let '(tree, pending) := c in
  let key := mk_match (take 32 id) 0 false in
  match btree_tfind merkle_match_cmp key tree with
  | None => (None, c)
  | Some m =>
      if consumed m then (None, c)
      else
        (Some (match_pos m),
         (btree_update merkle_match_cmp key set_consumed tree,
          if 0 <? pending then pending - 1 else pending))
  end.

(** In order, until the callback refuses. *)
Fixpoint merkle_for_each_match {C} (cb : bytes -> Z -> bool -> C -> bool * C)
    (t : btree_node merkle_match) (c : C) : bool * C :=
  match t with
  | Null => (true, c)
  | Node l m r =>
      let '(ok, c) := merkle_for_each_match cb l c in
      if negb ok then (false, c)
      else
        let '(ok, c) := cb (txid m) (match_pos m) (consumed m) c in
        if negb ok then (false, c) else merkle_for_each_match cb r c
  end.

Definition unconsumed (l : list merkle_match) : list merkle_match :=
  List.filter (fun m => negb (consumed m)) l.

Definition match_inv (c : match_tree) : Prop :=
  bst merkle_match_cmp c.1 /\ c.2 = Z.of_nat (length (unconsumed (inorder c.1))).

Lemma btree_update_inorder {K} (compar : K -> K -> Z) v f t k :
  btree_tfind compar v t = Some k ->
  exists l1 l2, inorder t = l1 ++ k :: l2 /\ inorder (btree_update compar v f t) = l1 ++ f k :: l2.
Proof.
  induction t as [|l IHl k' r IHr]; cbn [btree_tfind btree_update]; [done|].
  destruct (compar v k' =? 0); [intros [= <-]; by eexists _, _|].
  destruct (compar v k' <? 0); intros E; [destruct (IHl E) as (a & b & E1 & E2)|
    destruct (IHr E) as (a & b & E1 & E2)]; cbn [inorder].
  - exists a, (b ++ k' :: inorder r). by rewrite E1, E2, <- !app_assoc.
  - exists (inorder l ++ k' :: a), b. by rewrite E1, E2, <- !app_assoc.
Qed.

Lemma unconsumed_app l k : unconsumed (l ++ k) = unconsumed l ++ unconsumed k.
Proof. apply List.filter_app. Qed.

Lemma unconsumed_cons m l :
  unconsumed (m :: l) = if consumed m then unconsumed l else m :: unconsumed l.
Proof. unfold unconsumed. cbn [List.filter]. by destruct (consumed m). Qed.

(** Only the identifiers matter for the order. *)
Lemma bst_same_ids t t' :
  txid <$> inorder t = txid <$> inorder t' -> bst merkle_match_cmp t -> bst merkle_match_cmp t'.
Proof.
  unfold bst. generalize (inorder t) (inorder t'). intros l. 
  induction l as [|a l IH]; intros [|b k] E H; try done.
  injection E as E1 E2. change (txid <$> l = txid <$> k) in E2. apply StronglySorted_cons in H as [Ha Hl].
  apply StronglySorted_cons. split; [|by apply IH].
  apply Forall_forall. intros x Hx. rewrite Forall_forall in Ha.
  apply (list_elem_of_fmap_2 txid) in Hx. rewrite <- E2 in Hx.
  apply list_elem_of_fmap in Hx as (y & Ey & Hy). specialize (Ha y Hy).
  unfold key_lt, merkle_match_cmp in *. by rewrite <- E1, Ey.
Qed.

Lemma collect_inv `{!Allocator} id p c :
  alloc_ok 40 = true -> alloc_ok 24 = true -> match_inv c -> c.2 + 1 < 2 ^ 32 ->
  let '(ok, c') := merkle_collect_match id p c in
  ok = true /\ match_inv c' /\
  match btree_tfind merkle_match_cmp (mk_match (take 32 id) p false) c.1 with
  | Some _ => c' = c
  | None => inserted (mk_match (take 32 id) p false) (inorder c.1) (inorder c'.1)
  end.
Proof.
  destruct c as [t pending]. intros Ha Ha' [Ht Hp] Hb. cbn [fst snd] in *.
  unfold merkle_collect_match. rewrite Ha. cbn [negb].
  set (m := mk_match (take 32 id) p false).
  destruct (btree_tfind merkle_match_cmp m t) as [k|] eqn:E.
  - rewrite (btree_tsearch_found _ _ _ _ E). done.
  - destruct (btree_tsearch_new _ m t Ht E Ha') as (t' & -> & Ht' & a & b & E1 & E2).
    split_and!; [done| |by exists a, b]. split; [done|]. cbn [fst snd].
    rewrite wrap_small by (unfold urange; lia).
    rewrite Hp, E1, E2, !unconsumed_app, !length_app, unconsumed_cons. cbn [consumed length m].
    lia.
Qed.

Lemma consume_inv id c :
  match_inv c ->
  let '(out, c') := merkle_match_consume c id in
  match_inv c' /\
  match btree_tfind merkle_match_cmp (mk_match (take 32 id) 0 false) c.1 with
  | Some m =>
      if consumed m then out = None /\ c' = c
      else out = Some (match_pos m) /\ c'.2 = c.2 - 1 /\
           exists l1 l2, inorder c.1 = l1 ++ m :: l2 /\
             inorder c'.1 = l1 ++ set_consumed m :: l2
  | None => out = None /\ c' = c
  end.
Proof.
  destruct c as [t pending]. intros [Ht Hp]. cbn [fst snd] in *. unfold merkle_match_consume.
  set (key := mk_match (take 32 id) 0 false).
  destruct (btree_tfind merkle_match_cmp key t) as [m|] eqn:E; [|done].
  destruct (consumed m) eqn:Em; [done|].
  destruct (btree_update_inorder merkle_match_cmp key set_consumed t m E) as (a & b & E1 & E2).
  rewrite E1, unconsumed_app, length_app, unconsumed_cons, Em in Hp. cbn [length] in Hp.
  rewrite (proj2 (Z.ltb_lt _ _)) by lia.
  split_and!; [|done..|by exists a, b]. split; cbn [fst snd].
  - apply (bst_same_ids t); [|done]. by rewrite E1, E2, !fmap_app.
  - rewrite E2, unconsumed_app, length_app, unconsumed_cons. cbn [set_consumed consumed]. lia.
Qed.

(** The identifiers in a tree. *)
Definition holds (c : match_tree) (id : bytes) : Prop := exists m, m ∈ inorder c.1 /\ txid m = id.

Definition ids_32 (c : match_tree) : Prop :=
  forall m, m ∈ inorder c.1 -> length (txid m) = 32%nat.

Lemma find_holds c id p b :
  match_inv c -> ids_32 c -> length id = 32%nat ->
  holds c id <-> btree_tfind merkle_match_cmp (mk_match (take 32 id) p b) c.1 <> None.
Proof.
  intros [Ht _] H32 Hid. rewrite take_ge by lia. split.
  - intros (m & Hm & <-). rewrite (proj2 (btree_tfind_spec _ _ _ m Ht)); [done|].
    split; [done|]. unfold merkle_match_cmp. cbn [txid]. by apply memcmp_0.
  - destruct (btree_tfind _ _ _) as [m|] eqn:E; [|done]. intros _.
    apply (btree_tfind_spec _ _ _ _ Ht) in E as [Hm E]. exists m. split; [done|].
    unfold merkle_match_cmp in E. cbn [txid] in E. symmetry.
    apply memcmp_0 in E; [done|done|by apply H32].
Qed.

Lemma feed_collect `{!Allocator} ms c :
  alloc_ok 40 = true -> alloc_ok 24 = true -> match_inv c -> ids_32 c ->
  c.2 + Z.of_nat (length ms) < 2 ^ 32 ->
  Forall (fun m => length m.1 = 32%nat) ms -> unconsumed (inorder c.1) = inorder c.1 ->
  let c' := feed merkle_collect_match c ms in
  match_inv c' /\ ids_32 c' /\ unconsumed (inorder c'.1) = inorder c'.1 /\
  (forall id, holds c' id <-> holds c id \/ exists p, (id, p) ∈ ms).
Proof.
  intros Ha Ha'. revert c. induction ms as [|[id p] ms IH]; intros c Hc H32 Hb Hms Hu.
  { cbn. split_and!; try done. intros id. split; [by left|].
    intros [?|(? & ?%elem_of_nil)]; done. }
  apply Forall_cons in Hms as [Hid Hms]. cbn [fst length] in *.
  pose proof (collect_inv id p c Ha Ha' Hc ltac:(lia)) as Hstep.
  pose proof (find_holds c id p false Hc H32 Hid) as Hfind.
  unfold feed. cbn [foldl fst snd].
  destruct (merkle_collect_match id p c) as [ok c1]. destruct Hstep as (_ & Hc1 & Hins).
  cbn [snd].
  assert (ids_32 c1 /\ unconsumed (inorder c1.1) = inorder c1.1 /\ c1.2 <= c.2 + 1 /\
          forall x, holds c1 x <-> holds c x \/ x = id) as (H321 & Hu1 & Hb1 & Hh1).
  { destruct (btree_tfind _ _ c.1) as [k|].
    - rewrite Hins. split_and!; try done; [lia|]. intros x. split; [by left|].
      intros [?| ->]; [done|]. by apply Hfind.
    - destruct Hins as (a & b & E1 & E2). rewrite take_ge in E2 by lia.
      destruct Hc as [_ Hp], Hc1 as [_ Hp1].
      rewrite E1, unconsumed_app in Hu. 
      assert (unconsumed (inorder c1.1) = inorder c1.1) as Hu1.
      { rewrite E2, unconsumed_app, unconsumed_cons. cbn [consumed].
        pose proof (List.filter_length_le (fun m => negb (consumed m)) a) as La.
        pose proof (List.filter_length_le (fun m => negb (consumed m)) b) as Lb.
        fold (unconsumed a) in La. fold (unconsumed b) in Lb.
        pose proof (f_equal length Hu) as L. rewrite !length_app in L.
        apply app_inj_1 in Hu as [-> ->]; [done|lia]. }
      split_and!; [|done| |].
      + intros m. rewrite E2, elem_of_app, elem_of_cons. intros [Hm|[->|Hm]]; [|done|];
          apply H32; rewrite E1, elem_of_app; auto.
      + rewrite Hp, Hp1, Hu1, E1, E2, unconsumed_app, Hu, !length_app. cbn [length]. lia.
      + intros x. unfold holds. rewrite E1, E2. setoid_rewrite elem_of_app.
        setoid_rewrite elem_of_cons. split.
        * intros (m & [Hm|[->|Hm]] & <-); eauto.
        * intros [(m & [Hm|Hm] & <-)| ->]; [by eauto..|]. by eexists (mk_match id p false); auto. }
  destruct (IH c1 Hc1 H321 ltac:(lia) Hms Hu1) as (I1 & I2 & I3 & I4).
  split_and!; [done..|]. intros x. change (foldl _ c1 ms) with (feed merkle_collect_match c1 ms).
  rewrite I4, Hh1. setoid_rewrite elem_of_cons. split.
  - intros [[?| ->]|[q ?]]; eauto.
  - intros [?|[q [[= -> ->]|?]]]; eauto.
Qed.

Lemma pmt_matches_hashes p t :
  (length (pmt_matches p t) <= length (pmt_hashes t))%nat /\
  (forall m, m ∈ pmt_matches p t -> m.1 ∈ pmt_hashes t).
Proof.
  revert p. induction t as [x|m x|l IH|l IHl r IHr]; intros p; cbn [pmt_matches pmt_hashes].
  - cbn. split; [lia|]. by intros m ?%elem_of_nil.
  - destruct m; cbn; (split; [lia|]); [|by intros m ?%elem_of_nil].
    intros y ->%list_elem_of_singleton. by left.
  - apply IH.
  - rewrite !length_app. destruct (IHl (2 * p)%nat) as [L1 L2], (IHr (2 * p + 1)%nat) as [R1 R2].
    split; [lia|]. intros m [Hm|Hm]%elem_of_app; apply elem_of_app; auto.
Qed.

(** Consuming from a tree in which nothing has been consumed yet. *)
Lemma consume_twice c id :
  match_inv c -> ids_32 c -> length id = 32%nat -> unconsumed (inorder c.1) = inorder c.1 ->
  forall P : bytes -> Prop, (forall id, holds c id <-> P id) ->
  let '(out, c') := merkle_match_consume c id in
  (out <> None <-> P id) /\ match_inv c' /\ (out <> None -> c'.2 = c.2 - 1) /\
  (merkle_match_consume c' id).1 = None.
Proof.
  intros Hinv H32 Hid Hu P HP. pose proof (consume_inv id c Hinv) as H.
  pose proof (find_holds c id 0 false Hinv H32 Hid) as Hfind. rewrite HP in Hfind.
  destruct (merkle_match_consume c id) as [out c'] eqn:Ec. destruct H as [Hinv' H].
  pose proof (consume_inv id c' Hinv') as H'.
  destruct (btree_tfind merkle_match_cmp (mk_match (take 32 id) 0 false) c.1) as [m|] eqn:E.
  2:{ destruct H as [-> ->]. split_and!; try done; [|by rewrite Ec]. by rewrite Hfind. }
  pose proof (proj1 (btree_tfind_spec _ _ _ _ (proj1 Hinv)) E) as [Hm Em].
  assert (consumed m = false) as Hcm.
  { rewrite <- Hu in Hm. unfold unconsumed in Hm. apply list_elem_of_In, filter_In in Hm as [_ Hm].
    by apply negb_true_iff in Hm. }
  rewrite Hcm in H. destruct H as (-> & Hc' & a & b & E1 & E2).
  split_and!; [by rewrite Hfind|done..|].
  assert (btree_tfind merkle_match_cmp (mk_match (take 32 id) 0 false) c'.1 = Some (set_consumed m))
    as E'.
  { apply (btree_tfind_spec _ _ _ _ (proj1 Hinv')). split; [|done]. rewrite E2, elem_of_app. right. by left. }
  rewrite E' in H'. cbn [set_consumed consumed] in H'.
  destruct (merkle_match_consume c' id). by destruct H' as (_ & -> & _).
Qed.

(** When a merkle block has been accepted, its tree of matches holds exactly the
    identifiers of the matches and counts those not consumed.  Consuming an identifier
    succeeds exactly when it is among them, lowers the count by one, and cannot succeed a
    second time; the tree and its count stay consistent. *)
Theorem match_consumed_once `{!Allocator} nTx hashes hashCount flags header c :
  merkleblock_ok nTx hashCount hashes flags -> alloc_ok 40 = true -> alloc_ok 24 = true ->
  merkle_extract_match_tree nTx hashes hashCount flags (Z.of_nat (length flags)) header Null =
    Some (true, c) ->
  match_inv c /\
  exists t, pmt_root t = header /\ pmt_shape (Z.to_nat nTx) (Nat.log2_up (Z.to_nat nTx)) 0 t /\
  forall id, length id = 32%nat ->
    let '(out, c') := merkle_match_consume c id in
    (out <> None <-> exists p, (id, p) ∈ pmt_matches 0 t) /\
    match_inv c' /\ (out <> None -> c'.2 = c.2 - 1) /\ (merkle_match_consume c' id).1 = None.
Proof.
  intros Hok Ha Ha'. unfold merkle_extract_match_tree. rewrite traverse_spec by done.
  unfold pmt_extract. cbn [callback].
  destruct (extract _ _ _ _ _) as [[t|] [[bits' hs'] c1]] eqn:E; [|done]. intros [= Er <-].
  unfold bytes_eqb in Er. apply bool_decide_eq_true in Er.
  apply extract_inv in E as (Hs & _ & Ehs & ->).
  destruct Hok as (_ & Hl & H0 & Hc & _). pose proof (hash_list_32 _ _ Hl) as HF.
  pose proof (pmt_matches_hashes 0 t) as [HL HM].
  assert (length (hash_list (Z.to_nat hashCount) hashes) = Z.to_nat hashCount) as HLl.
  { unfold hash_list. by rewrite chunks_length. }
  rewrite Ehs in HF, HLl. apply Forall_app in HF as [HF _]. rewrite length_app in HLl.
  destruct (feed_collect (pmt_matches 0 t) (Null, 0)) as (Hinv & H32 & Hu & Hh); try done.
  { split; [constructor|done]. }
  { by intros m ?%elem_of_nil. }
  { cbn [snd]. lia. }
  { apply Forall_forall. intros m Hm. by apply (proj1 (Forall_forall _ _) HF), HM. }
  set (c := feed _ _ _) in *. split; [done|]. exists t. split_and!; [done..|]. intros id Hid.
  apply (consume_twice c id Hinv H32 Hid Hu (fun id => exists p, (id, p) ∈ pmt_matches 0 t)).
  intros x. rewrite Hh. split; [|by right].
  intros [(m & ?%elem_of_nil & _)|?]; done.
Qed.

(** ** A block of two transactions *)

Definition demo_leaves : list bytes := [zeros 32; replicate 32 Byte.x01].
Definition demo_root : bytes := node_hash (zeros 32) (replicate 32 Byte.x01).

Lemma demo_merkle_root : compute_merkle_root (Some demo_leaves) = Some (demo_root, false).
Proof. rewrite compute_merkle_root_spec by (cbn; lia). reflexivity. Qed.

Lemma demo_ok : merkleblock_ok 2 2 (concat demo_leaves) [Byte.x07].
Proof.
  unfold merkleblock_ok, urange.
  split_and!; try (vm_compute; reflexivity); try (cbn; lia); vm_compute; discriminate.
Qed.

Lemma demo_extract {C} (f : bytes -> Z -> C -> bool * C) c :
  (forall x q c, (f x q c).1 = true) ->
  extract f 2 1 0 (flag_bits [Byte.x07], demo_leaves, c) =
  (Some (PTwo (PLeaf true (zeros 32)) (PLeaf true (replicate 32 Byte.x01))),
   (replicate 5 false, [], feed f c [(zeros 32, 0); (replicate 32 Byte.x01, 1)])).
Proof.
  intros Hf. change (flag_bits [Byte.x07]) with ([true; true; true] ++ replicate 5 false).
  apply (extract_encoded f 2 1 0
    (PTwo (PLeaf true (zeros 32)) (PLeaf true (replicate 32 Byte.x01))) (replicate 5 false) []).
  - done.
  - cbn [pmt_shape]. split_and!; [vm_compute; lia|done..].
Qed.

Lemma demo_traverse {C} (f : bytes -> Z -> C -> bool * C) c :
  (forall x q c, (f x q c).1 = true) ->
  traverse_merkle_matches (Some f) 2 (concat demo_leaves) 2 [Byte.x07] 1 demo_root c =
  Some (true, feed f c [(zeros 32, 0); (replicate 32 Byte.x01, 1)]).
Proof.
  intros Hf. change 1 with (Z.of_nat (length [Byte.x07])). rewrite traverse_spec by apply demo_ok.
  unfold pmt_extract. change (Nat.log2_up (Z.to_nat 2)) with 1%nat. change (Z.to_nat 2) with 2%nat.
  change (hash_list 2 (concat demo_leaves)) with demo_leaves. cbn [callback].
  rewrite demo_extract by done. unfold bytes_eqb. by rewrite bool_decide_eq_true_2.
Qed.


Lemma merkleblock_complete_witness :
  traverse_merkle_matches (Some record_match) 2 (concat demo_leaves) 2 [Byte.x07] 1 demo_root [] =
  Some (true, wanted demo_leaves (fun _ => true) [0; 1]%nat).
Proof.
  apply (merkleblock_complete demo_leaves (fun _ => true) demo_root false).
  - cbn. lia.
  - cbn. lia.
  - repeat constructor.
  - apply demo_merkle_root.
  - cbn. lia.
  - cbn. lia.
Defined.

Lemma demo_collect x q c : (merkle_collect_match (H := default_mapper) x q c).1 = true.
Proof.
  destruct c as [t p]. unfold merkle_collect_match. cbn [alloc_ok default_mapper negb].
  pose proof (btree_tsearch_some merkle_match_cmp (mk_match (take 32 x) q false) t) as Hs.
  destruct (btree_tsearch _ _ _) as [[k|] t']; [by destruct (btree_tfind _ _ _)|].
  by destruct Hs.
Qed.

Lemma match_consumed_once_witness :
  exists c,
  merkle_extract_match_tree (H := default_mapper) 2 (concat demo_leaves) 2 [Byte.x07] 1 demo_root Null =
    Some (true, c) /\ match_inv c.
Proof.
  eexists. split.
  - apply demo_traverse, demo_collect.
  - apply (match_consumed_once (H := default_mapper) 2 (concat demo_leaves) 2 [Byte.x07] demo_root _
      demo_ok eq_refl eq_refl). apply demo_traverse, demo_collect.
Defined.
