(* ===== verification/Bloom.v ===== *)
(** * Bloom filters ([src/src/bip37.c])

    The hash of BIP 37, the filter a client loads into its peers, and the rewriting of the
    request for blocks that goes with it.  Whether an element matches is decided by the peer;
    its rule is the reference definition [bloom_matches]. *)

From S2P Require Import Prelude Mem Words Serialize.

Local Open Scope Z_scope.

(** ** MurmurHash3 *)

Definition rotl32 (k n : Z) : Z := Z.lor (u32 (Z.shiftl k n)) (Z.shiftr k (32 - n)).

Definition murmur_mix (k : Z) : Z :=
  let k := u32 (k * 0xcc9e2d51) in
  let k := rotl32 k 15 in
  u32 (k * 0x1b873593).

(** The loop over whole words; the bytes that are left. *)
Fixpoint murmur_body (key : bytes) (h : Z) : Z * bytes :=
  match key with
  | b0 :: b1 :: b2 :: b3 :: key =>
      let k := Z.lor (Z.lor (Z.lor (byte.unsigned b0) (Z.shiftl (byte.unsigned b1) 8))
                 (Z.shiftl (byte.unsigned b2) 16)) (Z.shiftl (byte.unsigned b3) 24) in
      let h := Z.lxor h (murmur_mix k) in
      let h := rotl32 h 13 in
      murmur_body key (u32 (u32 (h * 5) + 0xe6546b64))
  | _ => (h, key)
  end.

(** The fall-through cases on the bytes that are left. *)
Definition murmur_tail (tail : bytes) : Z :=
  match tail with
  | [b0; b1; b2] =>
      Z.lxor (Z.lxor (Z.shiftl (byte.unsigned b2) 16) (Z.shiftl (byte.unsigned b1) 8))
        (byte.unsigned b0)
  | [b0; b1] => Z.lxor (Z.shiftl (byte.unsigned b1) 8) (byte.unsigned b0)
  | [b0] => byte.unsigned b0
  | _ => 0
  end.

Definition bip37_murmur3 (key : bytes) (seed : Z) : Z :=
  let '(h, tail) := murmur_body key seed in
  let h := if Z.of_nat (length tail) =? 0 then h else Z.lxor h (murmur_mix (murmur_tail tail)) in
  let h := Z.lxor h (u32 (Z.of_nat (length key))) in
  let h := Z.lxor h (Z.shiftr h 16) in
  let h := u32 (h * 0x85ebca6b) in
  let h := Z.lxor h (Z.shiftr h 13) in
  let h := u32 (h * 0xc2b2ae35) in
  Z.lxor h (Z.shiftr h 16).

(** Known values of the hash. *)
Example murmur_empty : bip37_murmur3 [] 1 = 0x514e28b7.
Proof. reflexivity. Qed.
Example murmur_hello :
  bip37_murmur3 [Byte.x68; Byte.x65; Byte.x6c; Byte.x6c; Byte.x6f] 0 = 0x248bfa47.
Proof. reflexivity. Qed.

(** ** The filter *)

Record bip37_filter := mk_filter {
  data : bytes; data_len : Z; n_hash_funcs : Z; n_tweak : Z; n_flags : Z }.

(** [random_bytes]: what the generator gives, if it works. *)
Definition bip37_filter_new `{!Allocator} (random_bytes : option bytes) (tweak flags : Z)
    : option bip37_filter :=
  if alloc_ok 32 && alloc_ok 36000 then
    tweak ← (if tweak =? 0 then
               b ← random_bytes; Some (le_dec (take 4 b))
             else Some tweak);
    Some (mk_filter (zeros (Z.to_nat 36000)) 36000 50 tweak flags)
  else None.

(** The bit of hash function [i]. *)
Definition bloom_index (f : bip37_filter) (key : bytes) (i : nat) : Z :=
  let seed := u32 (u32 (Z.of_nat i * 0xfba4c795) + n_tweak f) in
  bip37_murmur3 key seed mod u32 (data_len f * 8).

(** [data[idx / 8] |= (1u << (idx % 8))] *)
Definition set_bit (d : bytes) (idx : Z) : bytes :=
  alter (fun b => byte.of_Z (Z.lor (byte.unsigned b) (Z.shiftl 1 (idx mod 8))))
    (Z.to_nat (idx / 8)) d.

Definition bip37_filter_add (f : bip37_filter) (key : bytes) : bool * bip37_filter :=
  if (Z.of_nat (length key) =? 0) || (data_len f =? 0) then (false, f)
  else
    (true,
     mk_filter (foldl (fun d i => set_bit d (bloom_index f key i)) (data f)
                  (seq 0 (Z.to_nat (n_hash_funcs f))))
       (data_len f) (n_hash_funcs f) (n_tweak f) (n_flags f)).

(** BIP 37: a peer takes an element for a match when all its bits are set. *)
Definition bit_set (d : bytes) (idx : Z) : bool :=
  Z.testbit (byte.unsigned (nth (Z.to_nat (idx / 8)) d byte_zero)) (idx mod 8).

Definition bloom_matches (f : bip37_filter) (key : bytes) : bool :=
  forallb (fun i => bit_set (data f) (bloom_index f key i)) (seq 0 (Z.to_nat (n_hash_funcs f))).

Lemma length_set_bit d idx : length (set_bit d idx) = length d.
Proof. apply length_alter. Qed.

Lemma set_bit_get d idx x :
  0 <= idx -> 0 <= x -> idx / 8 < Z.of_nat (length d) ->
  bit_set (set_bit d idx) x = bit_set d x || (x =? idx).
Proof.
  intros Hi Hx Hl. unfold bit_set, set_bit.
  pose proof (Z.mod_pos_bound x 8 ltac:(lia)). pose proof (Z.mod_pos_bound idx 8 ltac:(lia)).
  pose proof (Z.div_mod x 8 ltac:(lia)). pose proof (Z.div_mod idx 8 ltac:(lia)).
  pose proof (Z.div_pos x 8 ltac:(lia) ltac:(lia)). pose proof (Z.div_pos idx 8 ltac:(lia) ltac:(lia)).
  rewrite !nth_lookup. destruct (decide (x / 8 = idx / 8)) as [E|E].
  - rewrite E, list_lookup_alter.
    destruct (lookup_lt_is_Some_2 d (Z.to_nat (idx / 8)) ltac:(lia)) as [b ->].
    rewrite decide_True by done. cbn [fmap option_fmap option_map default from_option id].
    rewrite byte_unsigned_of_Z, wrap_land, Z.land_spec, Z.lor_spec by lia.
    rewrite (Z.ones_spec_low 8) by lia. rewrite andb_true_r, Z.shiftl_1_l. f_equal.
    destruct (Z.eqb_spec x idx) as [->|].
    + apply Z.pow2_bits_true. lia.
    + apply Z.pow2_bits_false. lia.
  - rewrite list_lookup_alter_ne by lia. destruct (Z.eqb_spec x idx) as [->|]; [done|].
    by rewrite orb_false_r.
Qed.

Lemma set_bits_get (idx : nat -> Z) l d x :
  (forall i, 0 <= idx i /\ idx i / 8 < Z.of_nat (length d)) -> 0 <= x ->
  bit_set (foldl (fun d i => set_bit d (idx i)) d l) x =
  bit_set d x || existsb (fun i => x =? idx i) l.
Proof.
  revert d. induction l as [|i l IH]; intros d Hi Hx; cbn; [by rewrite orb_false_r|].
  rewrite IH by (try rewrite length_set_bit; auto).
  by rewrite set_bit_get, orb_assoc by (apply Hi || done).
Qed.

Definition filter_ok (f : bip37_filter) : Prop :=
  Z.of_nat (length (data f)) = data_len f /\ 0 < data_len f /\ data_len f * 8 < 2 ^ 32.

Lemma bloom_index_range f key i :
  filter_ok f -> 0 <= bloom_index f key i /\ bloom_index f key i / 8 < Z.of_nat (length (data f)).
Proof.
  intros (Hl & H0 & H32). unfold bloom_index. rewrite (wrap_small 32 (_ * 8)) by (unfold urange; lia).
  pose proof (Z.mod_pos_bound (bip37_murmur3 key (u32 (u32 (Z.of_nat i * 4221880213) + n_tweak f)))
    (data_len f * 8) ltac:(lia)). split; [lia|]. apply Z.div_lt_upper_bound; lia.
Qed.

Lemma filter_add_ok f key : filter_ok f -> filter_ok (bip37_filter_add f key).2.
Proof.
  intros (Hl & H). unfold bip37_filter_add. case_if; [done|]. split; [|done]. cbn.
  rewrite <- Hl. f_equal. generalize (data f) as d. induction (seq _ _) as [|i l IH]; intros d; [done|].
  cbn. by rewrite IH, length_set_bit.
Qed.

Lemma bloom_index_add f key key' : bloom_index (bip37_filter_add f key).2 key' = bloom_index f key'.
Proof. unfold bip37_filter_add. by case_if. Qed.

Lemma filter_add_matches f key :
  filter_ok f -> key <> [] -> bloom_matches (bip37_filter_add f key).2 key = true.
Proof.
  intros Hf Hk. pose proof Hf as (Hl & H0 & _). unfold bloom_matches. rewrite bloom_index_add.
  unfold bip37_filter_add. rewrite (proj2 (Z.eqb_neq _ _)) by (destruct key; [done|cbn; lia]).
  rewrite (proj2 (Z.eqb_neq _ _)) by lia. cbn [orb snd data n_hash_funcs].
  apply forallb_forall. intros i Hi.
  rewrite set_bits_get by (intros; by apply bloom_index_range).
  apply orb_true_iff. right. apply existsb_exists. exists i. split; [done|apply Z.eqb_refl].
Qed.

Lemma filter_add_keeps f key key' :
  filter_ok f -> bloom_matches f key' = true -> bloom_matches (bip37_filter_add f key).2 key' = true.
Proof.
  intros Hf H. unfold bloom_matches in *. rewrite bloom_index_add.
  unfold bip37_filter_add. case_if; [done|]. cbn [snd data n_hash_funcs].
  apply forallb_forall. intros i Hi. rewrite forallb_forall in H. specialize (H i Hi).
  rewrite set_bits_get by (intros; by apply bloom_index_range). by rewrite H.
Qed.



(** ** Asking for filtered blocks *)

Definition INV_TYPE_BLOCK : Z := 2.
Definition INV_TYPE_FILTERED_BLOCK : Z := 3.

Definition ser_inv (s : bytes) (i : Z * bytes) : bytes := ser_u256 (ser_u32 s i.1) i.2.
Definition deser_inv : deser (Z * bytes) := t ← deser_u32; h ← deser_u256; mret (t, h).

Definition filtered (i : Z * bytes) : Z * bytes :=
  (if i.1 =? INV_TYPE_BLOCK then INV_TYPE_FILTERED_BLOCK else i.1, i.2).

(** The payload, its length and the number of its items. *)
Definition build_filtered_getdata_payload `{!Allocator} (inv_payload : bytes)
    : option (bytes * Z * Z) :=
  match (n ← deser_varlen; l ← deser_times (Z.to_nat n) deser_inv; mret (n, l)) inv_payload with
  | (Some (n, l), _) =>
      let out := foldl (fun s i => ser_inv s (filtered i)) (ser_varlen [] n) l in
      if alloc_ok (Z.of_nat (length out)) then Some (out, u32 (Z.of_nat (length out)), n) else None
  | (None, _) => None
  end.

Definition inv_ok (i : Z * bytes) : Prop := urange 32 i.1 /\ length i.2 = 32%nat.

#[export] Instance inv_appends : Appends ser_inv.
Proof.
  intros s [t h]. unfold ser_inv. cbn [fst snd].
  by rewrite (appends (f := ser_u256)), (appends (f := ser_u32)), <- app_assoc,
    <- (appends (f := ser_u256)).
Qed.

#[export] Instance inv_round_trip : RoundTrip inv_ok ser_inv deser_inv.
Proof.
  intros [t h] rest [Ht Hh]. unfold ser_inv, deser_inv. cbn [fst snd] in *.
  rewrite (appends (f := ser_u256)), <- app_assoc.
  rewrite (deser_bind_some _ _ _ t _ (round_trip t _ Ht)).
  by rewrite (deser_bind_some _ _ _ h _ (round_trip h _ Hh)).
Qed.

(** A request is passed on with every block asked for as a filtered block, and nothing
    else changed. *)
Lemma filtered_getdata_spec `{!Allocator} items rest
    (request := fun l => foldl ser_inv (ser_varlen [] (Z.of_nat (length items))) l) :
  Forall inv_ok items -> Z.of_nat (length items) <= UINT32_MAX ->
  alloc_ok (Z.of_nat (length (request (filtered <$> items)))) = true ->
  build_filtered_getdata_payload (request items ++ rest) =
  Some (request (filtered <$> items), u32 (Z.of_nat (length (request (filtered <$> items)))),
        Z.of_nat (length items)).
Proof.
  intros Hok Hn Ha. unfold build_filtered_getdata_payload. subst request. cbn beta in *.
  rewrite (foldl_appends ser_inv items), <- app_assoc.
  rewrite (deser_bind_some _ _ _ (Z.of_nat (length items)) (foldl ser_inv [] items ++ rest))
    by (apply (round_trip (f := ser_varlen)); unfold urange, UINT32_MAX in *; lia).
  rewrite Nat2Z.id. cbn beta.
  rewrite (deser_bind_some _ _ _ _ _ (times_round_trip inv_ok ser_inv deser_inv items rest Hok)).
  cbn [mret deser_ret]. rewrite foldl_fmap in Ha |- *. by rewrite Ha.
Qed.
