(* ===== verification/Headersdb.v ===== *)
(** * The headers database ([src/src/headersdb_file.c])

    The tree of known headers with the chain a client follows.  Block indexes are shared:
    the tree, the tip and the [prev] links of other indexes point to them, and they are
    freed while such links may remain.  They are therefore kept in a store by address, and
    following a link to a freed index is a fault.

    The flag [use_binary_tree] is set by the only constructor and never cleared, and
    [batch_write] only delays the flushing of the file; both are left out.  Of the file only
    the bytes written are kept. *)

From S2P Require Import Prelude Mem Serialize Sha256 Arith256 Pow Block Auxpow Btree.
From stdpp Require Import gmap sorting.

Local Open Scope Z_scope.

#[local] Existing Instance default_mapper.

(** ** Faults *)

Inductive fault := UseAfterFree | NullPointer | Endless.

Inductive res (A : Type) := Ok (a : A) | Fault (f : fault).
Arguments Ok {A}.
Arguments Fault {A}.

#[export] Instance res_ret : MRet res := @Ok.
#[export] Instance res_bind : MBind res := fun A B f r =>
  match r with Ok a => f a | Fault e => Fault e end.

Definition not_null {A} (o : option A) : res A :=
  match o with Some a => Ok a | None => Fault NullPointer end.

(** ** State *)

Abbreviation loc := positive.

Record blockindex := mk_index {
  height : Z;
  hash : bytes;
  chainwork : arith_uint256;
  header : block_header;
  prev : option loc;
}.

(** The index of the genesis block is a field of the database. *)
Definition genesis : loc := 1%positive.

(** A node of the tree holds an address; the hash stored there, which never changes, is kept
    beside it. *)
Abbreviation node_key := (bytes * loc)%type.

Record headers_db := mk_db {
  read_write_file : bool;
  headers_tree_file : bytes;
  tree_root : btree_node node_key;
  max_hdr_in_mem : Z;
  params : chainparams;
  store : gmap loc blockindex;
  next_loc : loc;
  chaintip : loc;
  chainbottom : loc;
  skip_pow : bool;
}.

Definition set_file (f : bytes) (db : headers_db) : headers_db :=
  mk_db (read_write_file db) f (tree_root db) (max_hdr_in_mem db) (params db) (store db)
    (next_loc db) (chaintip db) (chainbottom db) (skip_pow db).
Definition set_tree (t : btree_node node_key) (db : headers_db) : headers_db :=
  mk_db (read_write_file db) (headers_tree_file db) t (max_hdr_in_mem db) (params db) (store db)
    (next_loc db) (chaintip db) (chainbottom db) (skip_pow db).
Definition set_store (s : gmap loc blockindex) (db : headers_db) : headers_db :=
  mk_db (read_write_file db) (headers_tree_file db) (tree_root db) (max_hdr_in_mem db) (params db) s
    (next_loc db) (chaintip db) (chainbottom db) (skip_pow db).
Definition set_tip (p : loc) (db : headers_db) : headers_db :=
  mk_db (read_write_file db) (headers_tree_file db) (tree_root db) (max_hdr_in_mem db) (params db)
    (store db) (next_loc db) p (chainbottom db) (skip_pow db).
Definition set_bottom (p : loc) (db : headers_db) : headers_db :=
  mk_db (read_write_file db) (headers_tree_file db) (tree_root db) (max_hdr_in_mem db) (params db)
    (store db) (next_loc db) (chaintip db) p (skip_pow db).

(** A new index, at an address not used before. *)
Definition allocate (b : blockindex) (db : headers_db) : headers_db :=
  mk_db (read_write_file db) (headers_tree_file db) (tree_root db) (max_hdr_in_mem db) (params db)
    (<[next_loc db := b]> (store db)) (Pos.succ (next_loc db)) (chaintip db) (chainbottom db)
    (skip_pow db).

Definition deref (db : headers_db) (p : loc) : res blockindex :=
  match store db !! p with Some b => Ok b | None => Fault UseAfterFree end.

(** ** The tree *)

(** The larger hash comes first. *)
Definition header_compare (l r : node_key) : Z :=
  let c := memcmp 32 l.1 r.1 in if 0 <? c then -1 else if c <? 0 then 1 else 0.

Definition headersdb_find (db : headers_db) (h : bytes) : option loc :=
  snd <$> btree_tfind header_compare (take 32 h, 1%positive) (tree_root db).

Definition tree_insert (h : bytes) (p : loc) (db : headers_db) : headers_db :=
  set_tree (btree_tsearch header_compare (h, p) (tree_root db)).2 db.

(** Taking an index out of the tree and freeing it. *)
Definition tree_free (h : bytes) (p : loc) (db : headers_db) : headers_db :=
  set_store (delete p (store db))
    (set_tree (btree_tdelete header_compare (h, p) (tree_root db)).2 db).

(** ** Life cycle *)

Definition headers_db_new (chainparams : chainparams) (genesisblockhash genesisblockchainwork : bytes)
    (inmem_only : bool) : headers_db :=
  mk_db (negb inmem_only) [] Null 1440 chainparams
    {[ genesis := mk_index 0 genesisblockhash (uint_to_arith genesisblockchainwork)
                    block_header_new None ]}
    2%positive genesis genesis false.

Definition headersdb_getchaintip (db : headers_db) : loc := chaintip db.

Definition headersdb_has_checkpoint_start (db : headers_db) : res bool :=
  b ← deref db (chainbottom db); Ok (negb (height b =? 0)).

Definition headersdb_set_checkpoint_start (h : bytes) (ht : Z) (work : arith_uint256)
    (db : headers_db) : headers_db :=
  let p := next_loc db in
  let db := allocate (mk_index ht (take 32 h) work block_header_new None) db in
  tree_insert (take 32 h) p (set_tip p (set_bottom p db)).

Definition headersdb_disconnect_tip (db : headers_db) : res (bool * headers_db) :=
  tip ← deref db (chaintip db);
  match prev tip with
  | None => Ok (false, db)
  | Some p => Ok (true, tree_free (hash tip) (chaintip db) (set_tip p db))
  end.

(** The hashes of the tip and of the indexes below it. *)
Fixpoint locator_hashes (n : nat) (db : headers_db) (scan_tip : loc) : res (list bytes) :=
  match n with
  | O => Ok []
  | S n =>
      b ← deref db scan_tip;
      match prev b with
      | None => Ok [hash b]
      | Some p => l ← locator_hashes n db p; Ok (hash b :: l)
      end
  end.

Definition headers_db_fill_block_locator (db : headers_db) (blocklocators : list bytes)
    : res (list bytes) :=
  tip ← deref db (chaintip db);
  if 0 <? height tip
  then l ← locator_hashes 10 db (chaintip db); Ok (blocklocators ++ l)
  else Ok blocklocators.

(** ** The file *)

Definition file_hdr_magic : bytes := [Byte.xa8; Byte.xf0; Byte.x11; Byte.xc5].
Definition current_version : Z := 3.
(** [SPV_HEADERS_FILE_REC_LEN] *)
Definition REC_LEN : nat := 148.

Definition file_record (b : blockindex) : bytes :=
  let rec := ser_u256 [] (hash b) in
  let rec := ser_u32 rec (height b) in
  let rec := ser_u256 rec (arith_to_uint256 (chainwork b)) in
  block_header_serialize rec (header b).

Definition headers_db_write (db : headers_db) (b : blockindex) : headers_db :=
  set_file (headers_tree_file db ++ file_record b) db.

(** ** Connecting a header *)

(** The walk from the tip and from the new index; [None]: one of them came to the start of
    its chain. *)
Fixpoint common_ancestor (fuel : nat) (db : headers_db) (ancestor fork_chain : loc)
    : res (option loc) :=
  a ← deref db ancestor;
  f ← deref db fork_chain;
  if bytes_eqb (hash a) (hash f) then Ok (Some ancestor)
  else
    match fuel with
    | O => Fault Endless
    | S fuel =>
        if height f <? height a then
          match prev a with None => Ok None | Some p => common_ancestor fuel db p fork_chain end
        else
          match prev f with None => Ok None | Some p => common_ancestor fuel db ancestor p end
    end.

Fixpoint disconnect_until (fuel : nat) (ancestor : loc) (db : headers_db) : res headers_db :=
  tip ← deref db (chaintip db);
  a ← deref db ancestor;
  if bytes_eqb (hash tip) (hash a) then Ok db
  else
    match fuel with
    | O => Fault Endless
    | S fuel => '(_, db) ← headersdb_disconnect_tip db; disconnect_until fuel ancestor db
    end.

(** [false]: the chain of the new index [self] ends before the ancestor. *)
Fixpoint reconnect (fuel : nat) (self ancestor current : loc) (db : headers_db)
    : res (bool * headers_db) :=
  c ← deref db current;
  a ← deref db ancestor;
  if bytes_eqb (hash c) (hash a) then Ok (true, db)
  else
    match prev c with
    | None =>
        Ok (false, if decide (current = self) then db else tree_insert (hash c) current db)
    | Some p =>
        match fuel with
        | O => Fault Endless
        | S fuel => reconnect fuel self ancestor p (set_tip p db)
        end
    end.

(** Dropping the one index that the limit on headers in memory allows to drop; [i] counts up
    to [max_hdr_in_mem]. *)
Fixpoint trim (n : nat) (i : Z) (scan_tip : loc) (db : headers_db) : res headers_db :=
  match n with
  | O => Ok db
  | S n =>
      s ← deref db scan_tip;
      match prev s with
      | None => Ok db
      | Some q =>
          if (i =? max_hdr_in_mem db) && negb (bool_decide (q = genesis)) then
            b ← deref db q;
            match prev b with
            | Some r =>
                if decide (r = genesis) then trim n (i + 1) q db
                else
                  old ← deref db r;
                  let db := tree_free (hash old) r db in
                  let db := set_store
                    (<[q := mk_index (height b) (hash b) (chainwork b) (header b) None]> (store db)) db in
                  trim n (i + 1) q (set_bottom q db)
            | None => trim n (i + 1) q db
            end
          else trim n (i + 1) q db
      end
  end.

(** An index that was not connected belongs to the caller. *)
Definition release (p : loc) (db : headers_db) : headers_db := set_store (delete p (store db)) db.

(** Enough for walks along chains without a cycle. *)
Definition walk_fuel (db : headers_db) : nat := S (2 * size (store db)).

(** Does the header pass the check of its work, and the work the index has then?  The
    check is made for headers without the flag of merge mining only. *)
Definition check_work (db : headers_db) (h : block_header) (work : arith_uint256)
    : res (bool * arith_uint256) :=
  if is_auxpow (hversion h) || skip_pow db then Ok (true, work)
  else
    let scrypt_hash := block_header_scrypt_hash (block_header_serialize [] h) in
    '(ok, _, w) ← not_null (check_pow scrypt_hash (bits h) (pow_limit (params db)) (Some work));
    Ok (ok, default work w).

(** [if (fork_from_block && ...)] *)
Definition overtakes (b tip : blockindex) : bool :=
  (height tip <? height b) &&
  (arith_uint256_greater_than (chainwork b) (chainwork tip) ||
   (arith_uint256_equal (chainwork b) (chainwork tip) &&
    (timestamp (header tip) <? timestamp (header b)))).

(** The new tip; [false]: the function returns without connecting. *)
Definition choose_tip (fork : bool) (self : loc) (b : blockindex) (db : headers_db)
    : res (bool * headers_db) :=
  tip ← deref db (chaintip db);
  if fork && overtakes b tip then
    ancestor ← common_ancestor (walk_fuel db) db (chaintip db) self;
    match ancestor with
    | None => Ok (false, db)
    | Some ancestor =>
        db ← disconnect_until (walk_fuel db) ancestor db;
        '(ok, db) ← reconnect (walk_fuel db) self ancestor self db;
        if (ok : bool) then
          _ ← deref db ancestor; _ ← deref db (chaintip db);
          Ok (true, set_tip self db)
        else Ok (false, db)
    end
  else if height tip <? height b then Ok (true, set_tip self db)
  else Ok (true, db).

(** What follows the reading of the header: [h] with its hash and the work its own proof has
    given.  The result tells whether it was connected, as the index at [next_loc db]. *)
Definition connect_index (db : headers_db) (h : block_header) (hsh : bytes) (work : arith_uint256)
    (load_process : bool) : res (bool * headers_db) :=
  match headersdb_find db hsh with
  | Some _ => Ok (false, db)
  | None =>
      tip ← deref db (chaintip db);
      let direct := bytes_eqb (prev_block h) (hash tip) in
      let fork_from_block := if direct then None else headersdb_find db (prev_block h) in
      match (if direct then Some (chaintip db) else fork_from_block) with
      | None => Ok (false, db)
      | Some connect_at =>
          '(ok, work) ← check_work db h work;
          if negb (ok : bool) then Ok (false, db)
          else
            parent ← deref db connect_at;
            let self := next_loc db in
            let b := mk_index (u32 (height parent + 1)) hsh
                       (add_arith_uint256 (chainwork parent) work) h (Some connect_at) in
            let db := allocate b db in
            '(ok, db) ← choose_tip (negb direct) self b db;
            if negb ok then Ok (false, release self db)
            else
              let db := if negb load_process && read_write_file db then headers_db_write db b else db in
              let db := tree_insert hsh self db in
              db ← (if negb load_process && (0 <? max_hdr_in_mem db)
                    then trim (Z.to_nat (u32 (max_hdr_in_mem db + 1))) 0 (chaintip db) db
                    else Ok db);
              Ok (true, db)
      end
  end.

(** The rest of the buffer, whether the header was connected, and the database. *)
Definition headers_db_connect_hdr (db : headers_db) (buf : bytes) (load_process : bool)
    : res (bytes * bool * headers_db) :=
  '(ok, h, rest, work) ← not_null
    (block_header_deserialize block_header_new buf (params db) (Some init_arith_uint256));
  if negb ok then Ok (rest, false, db)
  else
    '(connected, db) ← connect_index db h (block_header_hash h)
                         (default init_arith_uint256 work) load_process;
    Ok (rest, connected, db).

(** ** Loading the file *)

(** The next record; the flag tells whether it is the first.  [None]: the function returns
    because the header of the first record is invalid. *)
Definition load_record (st : bool * headers_db) (rec : bytes) : res (option (bool * headers_db)) :=
  let '(firstblock, db) := st in
  let ht := Prelude.le_dec (take 4 (drop 32 rec)) in
  let work := words_of WIDTH (take 32 (drop 36 rec)) in
  let buf := drop 68 rec in
  db ← (if (firstblock : bool) then
          '(ok, h, _, own) ← not_null
            (block_header_deserialize block_header_new buf (params db) (Some init_arith_uint256));
          if negb (ok : bool) then Ok None
          else
            let p := next_loc db in
            let hsh := block_header_hash h in
            let db := allocate (mk_index ht hsh (default init_arith_uint256 own) h None) db in
            Ok (Some (tree_insert hsh p (set_tip p db)))
        else
          '(_, _, db) ← headers_db_connect_hdr db buf true; Ok (Some db));
  match db with
  | None => Ok None
  | Some db =>
      tip ← deref db (chaintip db);
      Ok (Some (false, set_store
        (<[chaintip db := mk_index (height tip) (hash tip) work (header tip) (prev tip)]> (store db)) db))
  end.

Fixpoint load_records (recs : list bytes) (st : bool * headers_db) : res (option headers_db) :=
  match recs with
  | [] => Ok (Some st.2)
  | rec :: recs =>
      r ← load_record st rec;
      match r with None => Ok None | Some st => load_records recs st end
  end.

(** The result, converted to [dogecoin_bool], and the database; [file]: the file that is there
    already, if any.  Of the version only the first byte is read; a record that is not
    complete is ignored. *)
Definition headers_db_load (file : option bytes) (db : headers_db) : res (Z * headers_db) :=
  if negb (read_write_file db) then Ok (1, db)
  else
    match file with
    | None => Ok (1, set_file (file_hdr_magic ++ le_enc 4 current_version) db)
    | Some f =>
        if (u32 (Z.of_nat (length f)) <? 8) || negb (bytes_eqb (take 4 f) file_hdr_magic)
        then Ok (0, db)
        else if current_version <? byte.unsigned (nth 4 f byte_zero) then Ok (0, db)
        else
          let data := drop 8 f in
          r ← load_records (chunks REC_LEN (length data / REC_LEN) data) (true, set_file f db);
          match r with
          | None => Ok (u8 (-1), set_file f db)
          | Some db => Ok (1, db)
          end
    end.
