(* ===== verification/Chain.v ===== *)
(** * The chain a headers database follows ([src/src/headersdb_file.c])

    The invariant of the store, the tree and the links; that headers which extend the tip,
    headers that are refused and disconnections keep it and never fault; and what happens on
    forks, where the code does not keep it. *)

From S2P Require Import Prelude Mem Serialize Sha256 Arith256 Pow Block Auxpow Btree Headersdb.
From stdpp Require Import gmap sorting.

Local Open Scope Z_scope.

#[local] Existing Instance default_mapper.
#[local] Opaque dogecoin_hash block_header_scrypt_hash.

(** ** The tree *)

Lemma header_compare_sgn l r : header_compare l r = - Z.sgn (memcmp 32 l.1 r.1).
Proof.
  unfold header_compare. destruct (Z.ltb_spec 0 (memcmp 32 l.1 r.1)); [lia|].
  destruct (Z.ltb_spec (memcmp 32 l.1 r.1) 0); lia.
Qed.

#[export] Instance header_comparison : Comparison header_compare.
Proof.
  split; intros; rewrite !header_compare_sgn in *.
  - rewrite (memcmp_antisym 32 x.1 y.1). lia.
  - pose proof (memcmp_trans 32 z.1 y.1 x.1) as H1.
    pose proof (memcmp_antisym 32 x.1 y.1). pose proof (memcmp_antisym 32 y.1 z.1).
    pose proof (memcmp_antisym 32 x.1 z.1). lia.
  - rewrite (memcmp_equal 32 x.1 y.1 z.1); lia.
Qed.

Lemma header_compare_0 l r :
  length l.1 = 32%nat -> length r.1 = 32%nat -> header_compare l r = 0 <-> l.1 = r.1.
Proof. intros Hl Hr. rewrite header_compare_sgn, <- (memcmp_0 32) by done. lia. Qed.

Definition keys_32 (t : btree_node node_key) : Prop :=
  forall h p, (h, p) ∈ inorder t -> length h = 32%nat.

Lemma find_key t h p q :
  bst header_compare t -> length h = 32%nat -> (h, p) ∈ inorder t ->
  btree_tfind header_compare (h, q) t = Some (h, p).
Proof.
  intros Hb Hh Hin. apply (proj2 (btree_tfind_spec _ _ _ _ Hb)). split; [done|].
  by apply (header_compare_0 (h, q) (h, p)).
Qed.

Lemma find_spec db h :
  bst header_compare (tree_root db) -> keys_32 (tree_root db) -> length h = 32%nat ->
  forall p, headersdb_find db h = Some p <-> (h, p) ∈ inorder (tree_root db).
Proof.
  intros Hb Hk Hh p. unfold headersdb_find. rewrite take_ge by lia. split.
  - destruct (btree_tfind _ _ _) as [[h' p']|] eqn:E; [|done]. intros [= <-].
    pose proof (proj1 (btree_tfind_spec _ _ _ _ Hb) E) as [Hin Eh].
    apply (header_compare_0 (h, _) (h', _) Hh (Hk _ _ Hin)) in Eh. cbn in Eh. by subst h'.
  - intros Hin. by rewrite (find_key _ _ p).
Qed.

(** Two nodes of a tree hold different hashes. *)
Lemma tree_unique t h p p' :
  bst header_compare t -> keys_32 t -> (h, p) ∈ inorder t -> (h, p') ∈ inorder t -> p = p'.
Proof.
  intros Hb Hk H1 H2. pose proof (Hk _ _ H1) as Hh.
  pose proof (find_key t h p 1%positive Hb Hh H1). pose proof (find_key t h p' 1%positive Hb Hh H2).
  congruence.
Qed.

Lemma tree_insert_keys t h p :
  bst header_compare t -> keys_32 t -> length h = 32%nat -> (forall q, (h, q) ∉ inorder t) ->
  let t' := (btree_tsearch header_compare (h, p) t).2 in
  bst header_compare t' /\ keys_32 t' /\
  forall k, k ∈ inorder t' <-> k = (h, p) \/ k ∈ inorder t.
Proof.
  intros Hb Hk Hh Hnew. destruct (btree_tfind header_compare (h, p) t) as [[h' q]|] eqn:E.
  { apply (btree_tfind_spec _ _ _ _ Hb) in E as [Hin E].
    apply (header_compare_0 (h, _) (h', _) Hh (Hk _ _ Hin)) in E. cbn in E. subst h'. by destruct (Hnew q). }
  destruct (@btree_tsearch_new _ header_compare _ default_mapper (h, p) t Hb E eq_refl) as (t' & -> & Hb' & a & b & E1 & E2).
  cbn [snd]. assert (forall k, k ∈ inorder t' <-> k = (h, p) \/ k ∈ inorder t) as Hmem.
  { intros k. rewrite E1, E2, !elem_of_app, elem_of_cons. tauto. }
  split_and!; [done| |done]. intros h' q Hin. apply Hmem in Hin as [[= -> ->]|Hin]; [done|].
  by apply (Hk _ _ Hin).
Qed.

Lemma tree_delete_keys t h p :
  bst header_compare t -> keys_32 t -> (h, p) ∈ inorder t ->
  let t' := (btree_tdelete header_compare (h, p) t).2 in
  bst header_compare t' /\ keys_32 t' /\
  forall k, k ∈ inorder t' <-> k <> (h, p) /\ k ∈ inorder t.
Proof.
  intros Hb Hk Hin. pose proof (Hk _ _ Hin) as Hh.
  assert (btree_tfind header_compare (h, p) t = Some (h, p)) as E.
  { by apply find_key. }
  destruct (btree_tdelete_found header_compare (h, p) t (h, p) E) as (q & t' & -> & Hins).
  cbn [snd]. pose proof (inserted_sorted _ _ _ _ Hins Hb) as Hb'.
  pose proof (bst_inserted_unique header_compare _ _ _ Hb Hins) as Hne.
  destruct Hins as (a & b & E1 & E2).
  assert (forall k, k ∈ inorder t' <-> k <> (h, p) /\ k ∈ inorder t) as Hmem.
  { intros k. rewrite E2, elem_of_app, elem_of_cons. split.
    - intros Hk'. split.
      + intros ->. apply (Hne _ Hk'). by apply header_compare_0.
      + rewrite E1, elem_of_app in Hk'. tauto.
    - intros [Hkne H]. rewrite E1, elem_of_app. tauto. }
  split_and!; [done| |done]. intros h' q' H. apply Hmem in H as [_ H]. by apply (Hk _ _ H).
Qed.

(** ** The invariant *)

(** A link: the index below is the previous block. *)
Definition linked (b c : blockindex) : Prop :=
  height b = height c + 1 /\ prev_block (header b) = hash c /\
  exists work, chainwork b = add_arith_uint256 (chainwork c) work.

(** Tree, store and links, whatever the tip is. *)
Record db_core (db : headers_db) : Prop := {
  inv_bst : bst header_compare (tree_root db);
  inv_tree h p : (h, p) ∈ inorder (tree_root db) <->
    p <> genesis /\ exists b, store db !! p = Some b /\ hash b = h;
  inv_genesis : exists g, store db !! genesis = Some g /\ prev g = None;
  inv_next p : is_Some (store db !! p) -> (p < next_loc db)%positive;
  inv_index p b : store db !! p = Some b -> length (hash b) = 32%nat /\ urange 32 (height b);
  inv_prev p b q : store db !! p = Some b -> prev b = Some q ->
    exists c, store db !! q = Some c /\ linked b c;
  inv_only_child p p' b b' q : store db !! p = Some b -> store db !! p' = Some b' ->
    prev b = Some q -> prev b' = Some q -> p = p';
  inv_bottom : exists b, store db !! chainbottom db = Some b /\ prev b = None;
}.

(** No index hangs on [p]. *)
Definition leaf (db : headers_db) (p : loc) : Prop :=
  forall q c, store db !! q = Some c -> prev c <> Some p.

Record db_inv (db : headers_db) : Prop := {
  inv_core : db_core db;
  inv_tip : is_Some (store db !! chaintip db);
  inv_leaf : leaf db (chaintip db);
}.

#[local] Hint Resolve inv_core : core.

Lemma inv_keys_32 db : db_core db -> keys_32 (tree_root db).
Proof.
  intros H h p Hin. apply (inv_tree db H) in Hin as (_ & b & Hb & <-). by apply (inv_index db H p).
Qed.

Lemma inv_find db h p :
  db_core db -> length h = 32%nat -> headersdb_find db h = Some p ->
  p <> genesis /\ exists b, store db !! p = Some b /\ hash b = h.
Proof.
  intros H Hh E. apply (find_spec db h) in E; [|apply H|by apply inv_keys_32|done].
  by apply (inv_tree db H) in E.
Qed.

(** An index that only the tree points to is freed. *)
Lemma free_core db p b :
  db_core db -> store db !! p = Some b -> p <> genesis -> p <> chainbottom db -> leaf db p ->
  db_core (tree_free (hash b) p db).
Proof.
  intros H Hp Hg Hbo Hno.
  assert ((hash b, p) ∈ inorder (tree_root db)) as Hin by (apply (inv_tree db H); eauto).
  destruct (tree_delete_keys _ _ _ (inv_bst db H) (inv_keys_32 db H) Hin) as (Hb' & _ & Hmem).
  split; cbn [tree_free set_store set_tree tree_root store chaintip chainbottom next_loc].
  - done.
  - intros h q. rewrite Hmem, (inv_tree db H). setoid_rewrite lookup_delete_Some. split.
    + intros (Hne & Hqg & c & Hc & Ec). split; [done|]. exists c. split; [|done]. split; [|done].
      intros ->. apply Hne. f_equal. congruence.
    + intros (Hqg & c & [Hne Hc] & Ec). split; [|eauto]. by intros [= _ ->].
  - destruct (inv_genesis db H) as (g & Eg & Hgp). exists g. by rewrite lookup_delete_ne.
  - intros q [c Hc]. apply lookup_delete_Some in Hc as [_ Hc]. apply (inv_next db H). eauto.
  - intros q c Hc. apply lookup_delete_Some in Hc as [_ Hc]. by apply (inv_index db H q).
  - intros q c r Hc Hr. apply lookup_delete_Some in Hc as [_ Hc].
    destruct (inv_prev db H q c r Hc Hr) as (d & Hd & Hl). exists d. split; [|done].
    apply lookup_delete_Some. split; [|done]. intros ->. by apply (Hno q c).
  - intros q q' c c' r Hc Hc'. apply lookup_delete_Some in Hc as [_ Hc], Hc' as [_ Hc'].
    by apply (inv_only_child db H).
  - destruct (inv_bottom db H) as (c & Ec & Hc). exists c. by rewrite lookup_delete_ne.
Qed.

Lemma tip_core p db : db_core db -> db_core (set_tip p db).
Proof. intros []. by split. Qed.

Lemma linked_height b c : linked b c -> height b = height c + 1.
Proof. by intros [? _]. Qed.

(** ** Disconnecting *)

Lemma disconnect_inv db :
  db_inv db ->
  exists ok db', headersdb_disconnect_tip db = Ok (ok, db') /\ db_inv db' /\
    forall tip q, store db !! chaintip db = Some tip -> prev tip = Some q ->
      ok = true /\ chaintip db' = q /\ store db' = delete (chaintip db) (store db).
Proof.
  intros [H [tip Htip] Hleaf]. unfold headersdb_disconnect_tip, deref. rewrite Htip.
  cbn [mbind res_bind]. destruct (prev tip) as [q|] eqn:Eq.
  2:{ exists false, db. split; [done|]. split; [by split; eauto|]. intros t q [= <-]. congruence. }
  destruct (inv_prev db H _ _ _ Htip Eq) as (c & Hc & Hl).
  assert (q <> chaintip db) as Hq.
  { intros ->. rewrite Htip in Hc. injection Hc as <-. apply linked_height in Hl. lia. }
  eexists true, _. split; [done|]. split.
  - split.
    + apply (free_core (set_tip q db) (chaintip db) tip); [by apply tip_core|done| | |done].
      * intros E. destruct (inv_genesis db H) as (g & Eg & Hg). rewrite <- E, Htip in Eg. congruence.
      * cbn. intros E. destruct (inv_bottom db H) as (b & Eb & Hb). rewrite <- E, Htip in Eb. congruence.
    + cbn. exists c. by rewrite lookup_delete_ne.
    + intros r d Hd Er. cbn in Hd, Er. apply lookup_delete_Some in Hd as [Hne Hd].
      apply Hne. by apply (inv_only_child db H _ _ _ _ q Htip Hd).
  - intros t q' [= <-] E. rewrite Eq in E. injection E as <-. done.
Qed.

(** ** Extending the tip *)

Definition extension (db : headers_db) (tip : blockindex) (h : block_header) (hsh : bytes)
    (work : arith_uint256) : blockindex :=
  mk_index (height tip + 1) hsh (add_arith_uint256 (chainwork tip) work) h (Some (chaintip db)).

Lemma fresh_loc db : db_core db -> store db !! next_loc db = None.
Proof.
  intros H. destruct (store db !! next_loc db) eqn:E; [|done].
  pose proof (inv_next db H (next_loc db) ltac:(by eexists)). lia.
Qed.

Lemma fresh_genesis db : db_core db -> next_loc db <> genesis.
Proof.
  intros H. destruct (inv_genesis db H) as (g & Eg & _).
  pose proof (inv_next db H genesis ltac:(by eexists)) as Hl. intros E. rewrite E in Hl. lia.
Qed.

Lemma extend_inv db tip h hsh work f :
  db_inv db -> store db !! chaintip db = Some tip -> length hsh = 32%nat ->
  height tip + 1 < 2 ^ 32 -> headersdb_find db hsh = None -> prev_block h = hash tip ->
  db_inv (tree_insert hsh (next_loc db)
    (set_file f (set_tip (next_loc db) (allocate (extension db tip h hsh work) db)))).
Proof.
  intros [H _ Hleaf] Htip Hh Hht Hnew Hprev.
  pose proof (fresh_loc db H) as Hf. pose proof (fresh_genesis db H) as Hfg.
  assert (forall q, (hsh, q) ∉ inorder (tree_root db)) as Hnot.
  { intros q Hq. apply (find_spec db hsh) in Hq; [congruence|apply H|by apply inv_keys_32|done]. }
  destruct (tree_insert_keys _ _ (next_loc db) (inv_bst db H) (inv_keys_32 db H) Hh Hnot)
    as (Hbst & _ & Hmem).
  destruct (inv_index db H _ _ Htip) as [_ [Hh0 _]].
  assert (forall p, p = chaintip db -> p <> next_loc db) as Hpt by (intros p -> E; congruence).
  split; [split|..]; unfold leaf; cbn [tree_insert set_file set_tip set_tree set_store allocate tree_root store chaintip
    chainbottom next_loc].
  - done.
  - intros h' q. rewrite Hmem, (inv_tree db H). setoid_rewrite lookup_insert_Some. split.
    + intros [[= -> ->]|(Hq & b & Hb & <-)]; [split; [done|]; by eexists; split; [by left|]|].
      split; [done|]. exists b. split; [|done]. right. split; [|done]. intros <-. congruence.
    + intros (Hq & b & [[<- <-]|[Hne Hb]] & <-); [by left|]. right. eauto.
  - destruct (inv_genesis db H) as (g & Eg & Hg). exists g. by rewrite lookup_insert_ne.
  - intros p [b Hb]. apply lookup_insert_Some in Hb as [[<- _]|[_ Hb]]; [lia|].
    pose proof (inv_next db H p ltac:(eauto)). lia.
  - intros p b Hb. apply lookup_insert_Some in Hb as [[_ <-]|[_ Hb]]; [|by apply (inv_index db H p)].
    cbn. split; [done|]. unfold urange. lia.
  - intros p b q Hb Hq. apply lookup_insert_Some in Hb as [[_ <-]|[_ Hb]].
    + cbn in Hq. injection Hq as <-. exists tip. rewrite lookup_insert_ne by (by intros E; apply (Hpt (chaintip db))).
      split; [done|]. split_and!; [done|done|by exists work].
    + destruct (inv_prev db H p b q Hb Hq) as (c & Hc & Hl). exists c. split; [|done].
      apply lookup_insert_Some. right. split; [|done]. intros <-. congruence.
  - intros p p' b b' q Hb Hb' Hq Hq'.
    apply lookup_insert_Some in Hb as [[<- <-]|[_ Hb]], Hb' as [[<- <-]|[_ Hb']]; cbn in Hq, Hq'.
    + done.
    + injection Hq as <-. by destruct (Hleaf p' b').
    + injection Hq' as <-. by destruct (Hleaf p b).
    + by apply (inv_only_child db H p p' b b' q).
  - destruct (inv_bottom db H) as (b & Hb & Hp). exists b.
    rewrite lookup_insert_ne; [done|]. intros E. congruence.
  - rewrite lookup_insert_eq. by eexists.
  - intros p b Hb. apply lookup_insert_Some in Hb as [[_ <-]|[_ Hb]]; cbn.
    + intros [= E]. by apply (Hpt (chaintip db)).
    + intros E. destruct (inv_prev db H p b _ Hb E) as (c & Hc & _). congruence.
Qed.

(** ** The limit on headers in memory *)

Definition cut (b : blockindex) : blockindex :=
  mk_index (height b) (hash b) (chainwork b) (header b) None.

(** An index is overwritten; its work may change only when nothing is linked to it. *)
Lemma replace_core db q b b' :
  db_core db -> store db !! q = Some b ->
  hash b' = hash b -> height b' = height b -> header b' = header b ->
  prev b' = prev b \/ prev b' = None ->
  (chainwork b' = chainwork b \/ leaf db q /\ forall r c, prev b' = Some r -> store db !! r = Some c ->
     exists w, chainwork b' = add_arith_uint256 (chainwork c) w) ->
  db_core (set_store (<[q := b']> (store db)) db).
Proof.
  intros H Hq Eh Eht Ehd Ep Ew.
  assert (forall p c, <[q := b']> (store db) !! p = Some c ->
    exists c', store db !! p = Some c' /\ hash c = hash c' /\ height c = height c' /\
      header c = header c' /\ (prev c = prev c' \/ prev c = None)) as Hold.
  { intros p c Hc. apply lookup_insert_Some in Hc as [[<- <-]|[_ Hc]]; [by exists b|].
    exists c. auto 10. }
  assert (forall p c', store db !! p = Some c' ->
    exists c, <[q := b']> (store db) !! p = Some c /\ hash c = hash c' /\ height c = height c') as Hnew.
  { intros p c' Hc. destruct (decide (p = q)) as [->|].
    - rewrite Hq in Hc. injection Hc as <-. exists b'. by rewrite lookup_insert_eq.
    - exists c'. by rewrite lookup_insert_ne. }
  split; cbn [set_store tree_root store chaintip chainbottom next_loc].
  - apply H.
  - intros h p. rewrite (inv_tree db H). split.
    + intros (Hp & c & Hc & <-). split; [done|]. destruct (Hnew p c Hc) as (c' & ? & ? & _). eauto.
    + intros (Hp & c & Hc & <-). split; [done|]. destruct (Hold p c Hc) as (c' & ? & ? & _). eauto.
  - destruct (inv_genesis db H) as (g & Eg & Hg). destruct (Hnew _ _ Eg) as (g' & Eg' & _).
    exists g'. split; [done|]. destruct (Hold _ _ Eg') as (g2 & Eg2 & _ & _ & _ & Hp). rewrite Eg in Eg2.
    injection Eg2 as <-. destruct Hp; congruence.
  - intros p [c Hc]. destruct (Hold p c Hc) as (c' & ? & _). apply (inv_next db H). eauto.
  - intros p c Hc. destruct (Hold p c Hc) as (c' & Hc' & -> & -> & _). by apply (inv_index db H p).
  - intros p c r Hc Hr. destruct (Hold p c Hc) as (c' & Hc' & E1 & E2 & E3 & [Ecp|Ecp]); [|congruence].
    rewrite Ecp in Hr. destruct (inv_prev db H p c' r Hc' Hr) as (d & Hd & Hl1 & Hl2 & w & Hl3).
    destruct (Hnew r d Hd) as (d' & Hd' & F1 & F2). exists d'. split; [done|].
    split_and!; [congruence|congruence|].
    apply lookup_insert_Some in Hd' as [[<- <-]|[_ Hd']].
    + destruct Ew as [Ew|[Hleaf _]]; [|by destruct (Hleaf p c')].
      apply lookup_insert_Some in Hc as [[<- <-]|[_ Hc]].
      * rewrite Hc' in Hd. injection Hd as <-. exfalso. rewrite Hq in Hc'. injection Hc' as <-. lia.
      * exists w. congruence.
    + rewrite Hd in Hd'. injection Hd' as <-.
      apply lookup_insert_Some in Hc as [[<- <-]|[_ Hc]]; [|exists w; congruence].
      destruct Ew as [Ew|[_ Hw]]; [exists w; congruence|]. apply (Hw r); congruence.
  - intros p p' c c' r Hc Hc' Hr Hr'.
    destruct (Hold p c Hc) as (d & Hd & _ & _ & _ & [Ecp|Ecp]); [|congruence].
    destruct (Hold p' c' Hc') as (d' & Hd' & _ & _ & _ & [Ecp'|Ecp']); [|congruence].
    apply (inv_only_child db H p p' d d' r Hd Hd'); congruence.
  - destruct (inv_bottom db H) as (c & Hc & Hcp). destruct (Hnew _ _ Hc) as (c' & Hc' & _).
    exists c'. split; [done|]. destruct (Hold _ _ Hc') as (c2 & Hc2 & _ & _ & _ & Hp). rewrite Hc in Hc2.
    injection Hc2 as <-. destruct Hp; congruence.
Qed.

Lemma bottom_core db q b :
  db_core db -> store db !! q = Some b -> prev b = None -> db_core (set_bottom q db).
Proof. intros [] Hq Hp. split; try done. by exists b. Qed.

Lemma cut_core db q b :
  db_core db -> store db !! q = Some b ->
  db_core (set_bottom q (set_store (<[q := cut b]> (store db)) db)).
Proof.
  intros H Hq. apply (bottom_core _ q (cut b)); [|cbn; by rewrite lookup_insert_eq|done].
  apply (replace_core db q b); auto.
Qed.

Lemma trim_inv n i scan db :
  db_inv db -> is_Some (store db !! scan) ->
  exists db', trim n i scan db = Ok db' /\ db_inv db' /\ chaintip db' = chaintip db /\
    store db' !! chaintip db = store db !! chaintip db.
Proof.
  revert i scan db. induction n as [|n IH]; intros i scan db Hi [s Hs]; cbn [trim]; [by eauto|].
  unfold deref. rewrite Hs. cbn [mbind res_bind].
  pose proof Hi as [H Ht Hleaf]. destruct (prev s) as [q|] eqn:Eq; [|by exists db].
  destruct (inv_prev db H scan s q Hs Eq) as (b & Hb & _).
  assert (q <> chaintip db) as Hqt by (intros ->; by destruct (Hleaf scan s Hs)).
  destruct (_ && _) eqn:Ei; [|apply IH; [by split|by eexists]].
  apply andb_true_iff in Ei as [_ Hqg]. apply negb_true_iff, bool_decide_eq_false in Hqg.
  rewrite Hb. cbn [mbind res_bind].
  destruct (prev b) as [r|] eqn:Er; [|apply IH; [by split|by eexists]].
  destruct (decide (r = genesis)) as [|Hrg]; [apply IH; [by split|by eexists]|].
  destruct (inv_prev db H q b r Hb Er) as (old & Hold & Hl). rewrite Hold. cbn [mbind res_bind].
  assert (q <> r) as Hqr.
  { intros ->. rewrite Hb in Hold. injection Hold as <-. apply linked_height in Hl. lia. }
  assert (r <> chaintip db) as Hrt by (intros ->; by destruct (Hleaf q b Hb)).
  set (db1 := set_bottom q (set_store (<[q := cut b]> (store db)) db)).
  match goal with |- context [trim n (i + 1) q ?d] =>
    assert (d = tree_free (hash old) r db1) as -> end.
  { unfold db1, tree_free, set_bottom, set_store, set_tree. cbn. f_equal.
    by rewrite insert_delete_ne. }
  assert (db_core db1) as H1 by by apply cut_core.
  assert (store (tree_free (hash old) r db1) !! chaintip db = store db !! chaintip db) as Etip.
  { cbn. by rewrite lookup_delete_ne, lookup_insert_ne. }
  destruct (IH (i + 1) q (tree_free (hash old) r db1)) as (db' & -> & Hi' & Et & Es).
  - split.
    + apply free_core; [done| |done| |].
      * cbn. by rewrite lookup_insert_ne.
      * done.
      * intros p c Hc Ep. cbn in Hc. apply lookup_insert_Some in Hc as [[_ <-]|[Hpq Hc]]; [done|].
        apply Hpq. by apply (inv_only_child db H q p b c r).
    + change (chaintip (tree_free (hash old) r db1)) with (chaintip db). by rewrite Etip.
    + intros p c Hc. cbn in Hc |- *. apply lookup_delete_Some in Hc as [_ Hc].
      apply lookup_insert_Some in Hc as [[_ <-]|[_ Hc]]; [done|by apply (Hleaf p)].
  - cbn. rewrite lookup_delete_ne, lookup_insert_eq by done. by eexists.
  - exists db'. split_and!; [done..|]. by rewrite <- Etip.
Qed.

(** ** Connecting *)

Lemma deref_live db p b : store db !! p = Some b -> deref db p = Ok b.
Proof. unfold deref. by intros ->. Qed.

Lemma check_work_total db h work :
  urange 32 (bits h) -> exists ok w, check_work db h work = Ok (ok, w).
Proof.
  intros Hb. unfold check_work. destruct (_ || _); [by eexists _, _|].
  destruct (check_pow_total (block_header_scrypt_hash (block_header_serialize [] h)) (bits h)
    (pow_limit (params db)) (Some work) Hb) as [[[ok hs] w] ->]. by eexists _, _.
Qed.

(** The database after a header has been put on the tip, before old indexes are dropped. *)
Definition extended (db : headers_db) (b : blockindex) (load : bool) : headers_db :=
  tree_insert (hash b) (next_loc db)
    (set_file (if negb load && read_write_file db then headers_tree_file db ++ file_record b
               else headers_tree_file db)
      (set_tip (next_loc db) (allocate b db))).

Lemma connect_index_tip db h hsh work load tip w :
  db_inv db -> store db !! chaintip db = Some tip -> height tip + 1 < 2 ^ 32 ->
  prev_block h = hash tip -> headersdb_find db hsh = None -> check_work db h work = Ok (true, w) ->
  connect_index db h hsh work load =
    let db2 := extended db (extension db tip h hsh w) load in
    if negb load && (0 <? max_hdr_in_mem db)
    then db' ← trim (Z.to_nat (u32 (max_hdr_in_mem db + 1))) 0 (next_loc db) db2; Ok (true, db')
    else Ok (true, db2).
Proof.
  intros Hi Htip Hht Hprev Ef Ew. unfold connect_index.
  rewrite Ef, (deref_live _ _ _ Htip). cbn [mbind res_bind].
  unfold bytes_eqb. rewrite Hprev, bool_decide_eq_true_2, Ew by done. cbn [mbind res_bind negb].
  rewrite (deref_live _ _ _ Htip). cbn [mbind res_bind].
  destruct (inv_index db (inv_core _ Hi) _ _ Htip) as [_ [H0 _]].
  rewrite (wrap_small 32) by (unfold urange; lia).
  change (mk_index _ _ _ _ _) with (extension db tip h hsh w).
  set (b := extension db tip h hsh w). unfold choose_tip.
  assert (next_loc db <> chaintip db) as Hne.
  { intros E. pose proof (fresh_loc db (inv_core _ Hi)). congruence. }
  rewrite (deref_live _ (chaintip (allocate b db)) tip) by (cbn; by rewrite lookup_insert_ne).
  cbn [mbind res_bind andb]. rewrite (proj2 (Z.ltb_lt _ _)) by (cbn; lia).
  cbn [mbind res_bind negb].
  set (db1 := set_tip (next_loc db) (allocate b db)).
  assert (tree_insert hsh (next_loc db)
    (if negb load && read_write_file db1 then headers_db_write db1 b else db1) =
    extended db b load) as ->.
  { unfold extended. cbn [b extension hash]. change (read_write_file db) with (read_write_file db1).
    by destruct (negb load && _). }
  cbn zeta. change (max_hdr_in_mem (extended db b load)) with (max_hdr_in_mem db).
  change (chaintip (extended db b load)) with (next_loc db).
  by destruct (negb load && _).
Qed.

Lemma connect_tip db h hsh work load tip :
  db_inv db -> store db !! chaintip db = Some tip -> length hsh = 32%nat -> urange 32 (bits h) ->
  height tip + 1 < 2 ^ 32 -> prev_block h = hash tip ->
  exists ok db', connect_index db h hsh work load = Ok (ok, db') /\ db_inv db' /\
    if ok then
      headersdb_find db hsh = None /\ chaintip db' = next_loc db /\
      exists w, check_work db h work = Ok (true, w) /\
        store db' !! chaintip db' = Some (extension db tip h hsh w)
    else
      db' = db /\ (headersdb_find db hsh <> None \/ exists w, check_work db h work = Ok (false, w)).
Proof.
  intros Hi Htip Hh Hb Hht Hprev.
  destruct (headersdb_find db hsh) eqn:Ef.
  { exists false, db. unfold connect_index. rewrite Ef. auto. }
  destruct (check_work_total db h work Hb) as ([] & w & Ew).
  2:{ exists false, db. split; [|by eauto 10]. unfold connect_index.
      rewrite Ef, (deref_live _ _ _ Htip). cbn [mbind res_bind].
      unfold bytes_eqb. by rewrite Hprev, bool_decide_eq_true_2, Ew. }
  rewrite (connect_index_tip db h hsh work load tip w) by done. cbn zeta.
  set (db2 := extended db (extension db tip h hsh w) load).
  assert (db_inv db2) as Hi2 by by apply extend_inv.
  assert (store db2 !! chaintip db2 = Some (extension db tip h hsh w)) as Eb
    by (cbn; by rewrite lookup_insert_eq).
  destruct (negb load && _).
  - destruct (trim_inv (Z.to_nat (u32 (max_hdr_in_mem db + 1))) 0 (next_loc db) db2 Hi2)
      as (db' & -> & Hi' & Et & Es); [by eexists|]. cbn [mbind res_bind].
    exists true, db'. split_and!; [done|done|done|by rewrite Et|]. exists w.
    split; [done|]. by rewrite Et, Es.
  - exists true, db2. split_and!; [done..|]. by exists w.
Qed.

Lemma connect_refused db h hsh work load tip :
  db_inv db -> store db !! chaintip db = Some tip -> prev_block h <> hash tip ->
  headersdb_find db (prev_block h) = None ->
  connect_index db h hsh work load = Ok (false, db).
Proof.
  intros Hi Htip Hprev Hf. unfold connect_index. destruct (headersdb_find db hsh); [done|].
  unfold deref. rewrite Htip. cbn [mbind res_bind]. unfold bytes_eqb.
  by rewrite bool_decide_eq_false_2, Hf.
Qed.

(** ** Without forks *)

(** A header that extends the tip, or whose previous block is not known. *)
Definition no_fork (db : headers_db) (h : block_header) : Prop :=
  exists tip, store db !! chaintip db = Some tip /\
  (prev_block h = hash tip \/ headersdb_find db (prev_block h) = None).

Inductive reachable : headers_db -> Prop :=
  | reach_new chain h w inmem : length h = 32%nat -> reachable (headers_db_new chain h w inmem)
  | reach_checkpoint db h ht w :
      reachable db -> length h = 32%nat -> urange 32 ht -> headersdb_find db h = None ->
      reachable (headersdb_set_checkpoint_start h ht w db)
  | reach_connect db h hsh work load ok db' :
      reachable db -> length hsh = 32%nat -> urange 32 (bits h) -> no_fork db h ->
      (forall tip, store db !! chaintip db = Some tip -> height tip + 1 < 2 ^ 32) ->
      connect_index db h hsh work load = Ok (ok, db') -> reachable db'
  | reach_disconnect db ok db' :
      reachable db -> headersdb_disconnect_tip db = Ok (ok, db') -> reachable db'.

Lemma new_inv chain h w inmem : length h = 32%nat -> db_inv (headers_db_new chain h w inmem).
Proof.
  intros Hh. split; [split|..]; unfold leaf;
    cbn [headers_db_new tree_root store next_loc chaintip chainbottom].
  - constructor.
  - intros h' p. split; [by intros ?%elem_of_nil|]. intros (Hp & b & Hb & _).
    apply lookup_singleton_Some in Hb as [<- _]. done.
  - eexists. by rewrite lookup_singleton_eq.
  - intros p [b Hb]. apply lookup_singleton_Some in Hb as [<- _]. done.
  - intros p b Hb. apply lookup_singleton_Some in Hb as [_ <-]. cbn. split; [done|]. split; lia.
  - intros p b q Hb. by apply lookup_singleton_Some in Hb as [_ <-].
  - intros p p' b b' q Hb. by apply lookup_singleton_Some in Hb as [_ <-].
  - eexists. by rewrite lookup_singleton_eq.
  - rewrite lookup_singleton_eq. by eexists.
  - intros p b Hb. by apply lookup_singleton_Some in Hb as [_ <-].
Qed.

(** A new tip without an index below. *)
Lemma root_inv b db :
  db_inv db -> length (hash b) = 32%nat -> urange 32 (height b) -> prev b = None ->
  headersdb_find db (hash b) = None ->
  db_inv (tree_insert (hash b) (next_loc db) (set_tip (next_loc db) (allocate b db))).
Proof.
  intros [H _ _] Hh Hht Hbp Hnew. pose proof (fresh_loc db H) as Hf. pose proof (fresh_genesis db H) as Hfg.
  assert (forall q, (hash b, q) ∉ inorder (tree_root db)) as Hnot.
  { intros q Hq. apply (find_spec db (hash b)) in Hq; [congruence|apply H|by apply inv_keys_32|done]. }
  destruct (tree_insert_keys _ _ (next_loc db) (inv_bst db H) (inv_keys_32 db H) Hh Hnot)
    as (Hbst & _ & Hmem).
  split; [split|..]; unfold leaf; cbn [tree_insert set_tip set_tree set_store allocate
    tree_root store chaintip chainbottom next_loc].
  - done.
  - intros h' q. rewrite Hmem, (inv_tree db H). setoid_rewrite lookup_insert_Some. split.
    + intros [[= -> ->]|(Hq & c & Hc & <-)]; [split; [done|]; by eexists; split; [by left|]|].
      split; [done|]. exists c. split; [|done]. right. split; [|done]. intros <-. congruence.
    + intros (Hq & c & [[<- <-]|[Hne Hc]] & <-); [by left|]. right. eauto.
  - destruct (inv_genesis db H) as (g & Eg & Hg). exists g. by rewrite lookup_insert_ne.
  - intros p [c Hc]. apply lookup_insert_Some in Hc as [[<- _]|[_ Hc]]; [lia|].
    pose proof (inv_next db H p ltac:(eauto)). lia.
  - intros p c Hc. by apply lookup_insert_Some in Hc as [[_ <-]|[_ Hc]]; [|apply (inv_index db H p)].
  - intros p c q Hc Hq. apply lookup_insert_Some in Hc as [[_ <-]|[_ Hc]]; [congruence|].
    destruct (inv_prev db H p c q Hc Hq) as (d & Hd & Hl). exists d. split; [|done].
    apply lookup_insert_Some. right. split; [|done]. intros <-. congruence.
  - intros p p' c c' q Hc Hc' Hq Hq'.
    apply lookup_insert_Some in Hc as [[<- <-]|[_ Hc]]; [congruence|].
    apply lookup_insert_Some in Hc' as [[<- <-]|[_ Hc']]; [congruence|].
    by apply (inv_only_child db H p p' c c' q).
  - destruct (inv_bottom db H) as (c & Hc & Hp). exists c.
    rewrite lookup_insert_ne; [done|]. intros E. congruence.
  - rewrite lookup_insert_eq. by eexists.
  - intros p c Hc. apply lookup_insert_Some in Hc as [[_ <-]|[_ Hc]]; [congruence|].
    intros E. destruct (inv_prev db H p c _ Hc E) as (d & Hd & _). congruence.
Qed.

Lemma checkpoint_inv h ht w db :
  db_inv db -> length h = 32%nat -> urange 32 ht -> headersdb_find db h = None ->
  db_inv (headersdb_set_checkpoint_start h ht w db).
Proof.
  intros Hi Hh Hht Hnew. unfold headersdb_set_checkpoint_start. rewrite take_ge by lia.
  destruct (root_inv (mk_index ht h w block_header_new None) db Hi Hh Hht eq_refl Hnew) as [H Ht Hl].
  split; [|exact Ht|exact Hl].
  refine (bottom_core _ (next_loc db) (mk_index ht h w block_header_new None) H _ eq_refl).
  cbn. by rewrite lookup_insert_eq.
Qed.

Lemma reachable_inv db : reachable db -> db_inv db.
Proof.
  induction 1 as [chain h w inmem Hh|db h ht w _ IH Hh Hht Hf
                 |db h hsh work load ok db' _ IH Hh Hb (tip & Htip & Hfork) Hht E|db ok db' _ IH E].
  - by apply new_inv.
  - by apply checkpoint_inv.
  - destruct (decide (prev_block h = hash tip)) as [Ep|Ep].
    + destruct (connect_tip db h hsh work load tip IH Htip Hh Hb (Hht _ Htip) Ep) as (o & d & E' & Hd & _).
      rewrite E in E'. by injection E' as <- <-.
    + destruct Hfork as [|Hfork]; [done|].
      rewrite (connect_refused db h hsh work load tip IH Htip Ep Hfork) in E. by injection E as <- <-.
  - destruct (disconnect_inv db IH) as (o & d & E' & Hd & _). rewrite E in E'. by injection E' as <- <-.
Qed.


(** ** Forks *)

(** Headers with their hashes and the work of their own. *)
Fixpoint connect_all (l : list (block_header * bytes * arith_uint256)) (db : headers_db)
    : res headers_db :=
  match l with
  | [] => Ok db
  | (h, hsh, work) :: l =>
      '(_, db) ← connect_index db h hsh work false; connect_all l db
  end.

Definition demo_hash (n : Z) : bytes := replicate 32 (byte.of_Z n).
Definition demo_link (n below time work : Z) : block_header * bytes * arith_uint256 :=
  (mk_header 1 (demo_hash below) (zeros 32) time 0 0 false None, demo_hash n,
   work :: replicate 7 0).

(** The database as it is used for bulk loads. *)
Definition demo_db : headers_db :=
  mk_db false [] Null 1440 (mk_params true 0x62 (zeros 32))
    {[ genesis := mk_index 0 (demo_hash 0) (replicate 8 0) block_header_new None ]}
    2%positive genesis genesis true.

(** A reorganisation frees the indexes of the old branch although indexes of other
    branches still point to them.  Here 1-2-3 is the chain, 13 another child of 2, and
    1-22-23-24 takes over; when the branch of 13 grows past it, the search for the common
    ancestor reads the index of 2 after it has been freed. *)
Theorem reorganisation_leaves_links :
  connect_all [demo_link 1 0 1 1; demo_link 2 1 2 1; demo_link 3 2 3 1; demo_link 13 2 3 1;
               demo_link 22 1 2 1; demo_link 23 22 3 1; demo_link 24 23 4 1;
               demo_link 14 13 4 1; demo_link 15 14 5 9] demo_db = Fault UseAfterFree.
Proof. vm_compute. reflexivity. Qed.

Lemma trim_tip n i scan db db' : trim n i scan db = Ok db' -> chaintip db' = chaintip db.
Proof.
  revert i scan db. induction n as [|n IH]; intros i scan db; cbn [trim]; [by intros [= <-]|].
  destruct (deref db scan) as [s|]; [|done]. cbn [mbind res_bind].
  destruct (prev s) as [q|]; [|by intros [= <-]].
  destruct (_ && _); [|apply IH]. destruct (deref db q) as [b|]; [|done]. cbn [mbind res_bind].
  destruct (prev b) as [r|]; [|apply IH]. destruct (decide _); [apply IH|].
  destruct (deref db r) as [old|]; [|done]. cbn [mbind res_bind]. intros E. by rewrite (IH _ _ _ E).
Qed.

Lemma choose_tip_height fork self b db tip db' :
  store db !! chaintip db = Some tip -> choose_tip fork self b db = Ok (true, db') ->
  chaintip db' = if height tip <? height b then self else chaintip db.
Proof.
  intros Htip. unfold choose_tip. rewrite (deref_live _ _ _ Htip). cbn [mbind res_bind].
  destruct (fork && overtakes b tip) eqn:Eo.
  - apply andb_true_iff in Eo as [_ Eo]. unfold overtakes in Eo. apply andb_true_iff in Eo as [-> _].
    destruct (common_ancestor _ _ _ _) as [[a|]|]; [|done..]. cbn [mbind res_bind].
    destruct (disconnect_until _ _ _) as [db1|]; [|done]. cbn [mbind res_bind].
    destruct (reconnect _ _ _ _ _) as [[[] db2]|]; [|done..]. cbn [mbind res_bind].
    destruct (deref db2 a); [|done]. cbn [mbind res_bind]. destruct (deref _ _); [|done].
    by intros [= <-].
  - by destruct (height tip <? height b); intros [= <-].
Qed.

(** Where a header is put: on the tip, or on the index its previous block is known by. *)
Definition connect_point (db : headers_db) (h : block_header) (tip : blockindex) : option loc :=
  if bytes_eqb (prev_block h) (hash tip) then Some (chaintip db)
  else headersdb_find db (prev_block h).

(** Which index is the tip after a header has been connected depends on heights alone:
    the new one when it is higher than the tip, the old one otherwise.  The comparison of the
    work of the two chains, and of their times when the work is equal, only decides whether
    the indexes of the old chain are disconnected; a higher fork with less work still
    becomes the tip. *)
Theorem tip_by_height db h hsh work load db' tip :
  store db !! chaintip db = Some tip -> store db !! next_loc db = None ->
  connect_index db h hsh work load = Ok (true, db') ->
  exists p parent, connect_point db h tip = Some p /\ store db !! p = Some parent /\
  chaintip db' = if height tip <? u32 (height parent + 1) then next_loc db else chaintip db.
Proof.
  intros Htip Hf. unfold connect_index, connect_point. destruct (headersdb_find db hsh); [done|].
  rewrite (deref_live _ _ _ Htip). cbn [mbind res_bind].
  set (direct := bytes_eqb _ _).
  replace (if direct then Some (chaintip db) else if direct then None else headersdb_find db (prev_block h))
    with (if direct then Some (chaintip db) else headersdb_find db (prev_block h)) by by destruct direct.
  destruct (if direct then _ else _) as [p|]; [|done].
  destruct (check_work db h work) as [[[] w]|]; [|done..]. cbn [mbind res_bind negb].
  destruct (deref db p) as [parent|] eqn:Ep; [|done]. cbn [mbind res_bind].
  unfold deref in Ep. destruct (store db !! p) as [par|] eqn:Esp; [|done]. injection Ep as ->.
  set (b := mk_index _ _ _ _ _).
  destruct (choose_tip _ _ _ _) as [[[] db1]|] eqn:Ec; [|done..]. cbn [mbind res_bind negb].
  intros E. exists p, parent. split_and!; [done..|].
  assert (chaintip db' = chaintip db1) as ->.
  { revert E. set (db2 := tree_insert _ _ _).
    assert (chaintip db2 = chaintip db1) as <- by (unfold db2; by destruct (_ && _)).
    clearbody db2. destruct (negb load && _); [|by intros [= <-]].
    destruct (trim _ _ _ db2) as [db3|] eqn:Et; [|done]. cbn [mbind res_bind]. intros [= <-].
    by apply trim_tip in Et. }
  change (u32 (height parent + 1)) with (height b).
  apply (choose_tip_height (negb direct) (next_loc db) b (allocate b db) tip); [|done].
  cbn. rewrite lookup_insert_ne; [done|]. intros E'. congruence.
Qed.

(** A chain of two headers and a fork from the first with less work. *)
Definition result (r : res (bool * headers_db)) : headers_db :=
  match r with Ok (_, db) => db | Fault _ => demo_db end.
Definition demo_connect (l : block_header * bytes * arith_uint256) (db : headers_db) : headers_db :=
  result (connect_index db l.1.1 l.1.2 l.2 true).
Definition demo_before : headers_db :=
  demo_connect (demo_link 12 1 2 1)
    (demo_connect (demo_link 2 1 2 9) (demo_connect (demo_link 1 0 1 1) demo_db)).
Definition demo_after : headers_db := demo_connect (demo_link 13 12 3 1) demo_before.

Lemma tip_by_height_witness :
  chaintip demo_after = 5%positive /\
  (chainwork <$> store demo_after !! 5%positive) = Some (3 :: replicate 7 0) /\
  (chainwork <$> store demo_after !! 3%positive) = Some (10 :: replicate 7 0).
Proof.
  split; [|split; vm_compute; reflexivity].
  destruct (tip_by_height demo_before (demo_link 13 12 3 1).1.1 (demo_link 13 12 3 1).1.2
    (demo_link 13 12 3 1).2 true demo_after
    (mk_index 2 (demo_hash 2) (10 :: replicate 7 0) (demo_link 2 1 2 9).1.1 (Some 2%positive)))
    as (p & parent & Hp & Hpar & ->).
  - vm_compute. reflexivity.
  - vm_compute. reflexivity.
  - vm_compute. reflexivity.
  - vm_compute in Hp. injection Hp as <-. vm_compute in Hpar. injection Hpar as <-.
    vm_compute. reflexivity.
Defined.

(** ** Headers that claim a proof and have none *)

Lemma parse_bare h :
  base_ok h ->
  block_header_parse block_header_new (block_header_serialize [] h) =
  (true, set_auxpow h false None, []).
Proof.
  intros Hh. unfold block_header_parse. rewrite <- (app_nil_r (block_header_serialize [] h)).
  rewrite header_fields_round_trip by done. cbn [length Z.of_nat Z.eqb negb]. by rewrite andb_false_r.
Qed.

(** The part of a header that is hashed. *)
Definition bare (h : block_header) : block_header := set_auxpow h false None.

Lemma bare_serialize h : block_header_serialize (S := bytes) [] (bare h) = block_header_serialize [] h.
Proof. done. Qed.

Lemma bare_hash h : block_header_hash (bare h) = block_header_hash h.
Proof. unfold block_header_hash. by rewrite bare_serialize. Qed.

(** A header with the flag of merge mining that comes without a proof - the message ends
    behind its 80 bytes - is connected on top of the tip without any check of work, whatever
    its hash and its target; its height counts, its work is zero. *)
Theorem flagged_header_needs_no_work db h load tip :
  reachable db -> store db !! chaintip db = Some tip -> base_ok h ->
  is_auxpow (hversion h) = true -> prev_block h = hash tip -> height tip + 1 < 2 ^ 32 ->
  headersdb_find db (block_header_hash h) = None ->
  exists db', headers_db_connect_hdr db (block_header_serialize [] h) load = Ok ([], true, db') /\
    chaintip db' = next_loc db /\
    store db' !! chaintip db' =
      Some (extension db tip (bare h) (block_header_hash h) init_arith_uint256).
Proof.
  intros Hr Htip Hh Hv Hp Hht Hnew. unfold headers_db_connect_hdr, block_header_deserialize.
  rewrite parse_bare by done. cbn [negb mbind option_bind block_header_validate payload set_auxpow
    not_null res_bind]. fold (bare h).
  assert (length (block_header_hash h) = 32%nat) as H32 by apply dogecoin_hash_length.
  destruct (connect_tip db (bare h) (block_header_hash h) init_arith_uint256 load tip
    (reachable_inv db Hr) Htip H32 ltac:(apply Hh) Hht Hp) as (ok & db' & E & _ & Hok).
  assert (check_work db (bare h) init_arith_uint256 = Ok (true, init_arith_uint256)) as Hw.
  { unfold check_work. cbn [bare set_auxpow hversion]. by rewrite Hv. }
  rewrite bare_hash. cbn [default from_option id]. rewrite E. cbn [mbind res_bind]. exists db'. destruct ok.
  - destruct Hok as (_ & Et & w & Ew & Es). rewrite Hw in Ew. injection Ew as <-. done.
  - destruct Hok as [_ [?|[w Ew]]]; congruence.
Qed.

(** A header of 80 bytes with an impossible target, on top of the genesis block. *)
Definition demo_flagged : block_header :=
  mk_header 0x620104 (zeros 32) (zeros 32) 1 0 0 false None.

Lemma flagged_header_needs_no_work_witness :
  exists db',
  headers_db_connect_hdr (headers_db_new (mk_params true 0x62 (zeros 32)) (zeros 32) (zeros 32) true)
    (block_header_serialize [] demo_flagged) false = Ok ([], true, db') /\
  chaintip db' = 2%positive.
Proof.
  destruct (flagged_header_needs_no_work
    (headers_db_new (mk_params true 0x62 (zeros 32)) (zeros 32) (zeros 32) true) demo_flagged false
    (mk_index 0 (zeros 32) (uint_to_arith (zeros 32)) block_header_new None)) as (db' & E & Et & _).
  - apply reach_new. reflexivity.
  - reflexivity.
  - split; try reflexivity; vm_compute; split; congruence.
  - reflexivity.
  - reflexivity.
  - cbn. lia.
  - reflexivity.
  - exists db'. split; [exact E|exact Et].
Defined.

