(* ===== verification/HeadersFile.v ===== *)
(** * The headers file ([src/src/headersdb_file.c])

    Records written while a chain was followed are read back into the same chain. *)

From S2P Require Import Prelude Words Mem Serialize Sha256 Arith256 Pow Block Auxpow Btree Headersdb Chain.
From stdpp Require Import gmap sorting.

Local Open Scope Z_scope.

#[local] Existing Instance default_mapper.
#[local] Opaque dogecoin_hash block_header_scrypt_hash.

(** ** Records *)

(** An index as [connect_index] makes it from a header. *)
Record index_ok (b : blockindex) : Prop := {
  ok_header : base_ok (header b);
  ok_hash : hash b = block_header_hash (header b);
  ok_height : urange 32 (height b);
  ok_work : arith_ok (chainwork b);
}.

Lemma uint_arith_round_trip a : arith_ok a -> words_of WIDTH (arith_to_uint256 a) = a.
Proof.
  intros Ha. destruct (arith_to_uint256_spec a Ha) as [Hl Hv].
  destruct (uint_to_arith_spec (arith_to_uint256 a) Hl) as ([Hl' Hr] & Hv' & _).
  apply val_inj; [apply Hr|apply Ha| |]; unfold uint_to_arith in *; [|congruence].
  rewrite Hl'. symmetry. apply Ha.
Qed.

Lemma hash_32 b : index_ok b -> length (hash b) = 32%nat.
Proof. intros H. rewrite (ok_hash b H). apply dogecoin_hash_length. Qed.

Lemma file_record_app b :
  index_ok b ->
  file_record b = hash b ++ le_enc 4 (height b) ++ arith_to_uint256 (chainwork b) ++
                  block_header_serialize [] (header b).
Proof.
  intros H. pose proof (hash_32 b H) as Hh. destruct (arith_to_uint256_spec (chainwork b) (ok_work b H)) as [Hl _].
  unfold file_record, block_header_serialize, ser_s32, ser_u256, ser_bytes, ser_u32, sink_append, bytes_sink.
  rewrite !app_nil_l, (take_ge (hash b)) by lia. rewrite (take_ge (arith_to_uint256 _)) by lia.
  by rewrite <- !app_assoc.
Qed.

Lemma file_record_length b : index_ok b -> length (file_record b) = REC_LEN.
Proof.
  intros H. rewrite file_record_app by done. rewrite !length_app, (hash_32 b H), le_enc_length.
  rewrite length_header by apply H. destruct (arith_to_uint256_spec (chainwork b) (ok_work b H)) as [-> _].
  done.
Qed.

Lemma file_record_fields b :
  index_ok b ->
  Prelude.le_dec (take 4 (drop 32 (file_record b))) = height b /\
  words_of WIDTH (take 32 (drop 36 (file_record b))) = chainwork b /\
  drop 68 (file_record b) = block_header_serialize [] (header b).
Proof.
  intros H. rewrite file_record_app by done. pose proof (hash_32 b H) as Hh.
  destruct (arith_to_uint256_spec (chainwork b) (ok_work b H)) as [Hl _]. split_and!.
  - rewrite drop_app_exact, take_app_exact by (done || apply le_enc_length).
    apply le_dec_enc_small. change (8 * Z.of_nat 4) with 32. apply H.
  - rewrite app_assoc, drop_app_exact by (by rewrite length_app, Hh, le_enc_length).
    rewrite take_app_exact by done. apply uint_arith_round_trip, H.
  - rewrite !app_assoc, drop_app_exact; [done|]. by rewrite !length_app, Hh, le_enc_length, Hl.
Qed.

(** ** Reading them back *)

(** The index in memory for a record: the proof of a merge-mined header is not kept. *)
Definition same_index (c b : blockindex) : Prop :=
  height c = height b /\ hash c = hash b /\ chainwork c = chainwork b /\ header c = bare (header b).

(** The indexes from [o] along the links, the highest first. *)
Fixpoint chain_at (s : gmap loc blockindex) (o : option loc) (l : list blockindex) : Prop :=
  match l with
  | [] => o = None
  | b :: l => exists p c, o = Some p /\ s !! p = Some c /\ same_index c b /\ chain_at s (prev c) l
  end.

Lemma chain_at_insert s o l p c :
  s !! p = None -> chain_at s o l -> chain_at (<[p := c]> s) o l.
Proof.
  intros Hp. revert o. induction l as [|b l IH]; intros o; [done|]. cbn [chain_at].
  intros (q & d & -> & Hq & Hs & Hl). exists q, d. split_and!; [done| |done|by apply IH].
  rewrite lookup_insert_ne; [done|]. intros ->. congruence.
Qed.

Lemma parse_record db b :
  index_ok b ->
  block_header_deserialize block_header_new (drop 68 (file_record b)) (params db) (Some init_arith_uint256)
  = Some (true, bare (header b), [], Some init_arith_uint256).
Proof.
  intros H. destruct (file_record_fields b H) as (_ & _ & ->).
  unfold block_header_deserialize. by rewrite parse_bare by apply H.
Qed.

(** The work of the tip is replaced by the one in the record. *)
Definition with_work (w : arith_uint256) (c : blockindex) : blockindex :=
  mk_index (height c) (hash c) w (header c) (prev c).

Lemma tip_work_inv db c w :
  db_inv db -> store db !! chaintip db = Some c ->
  (forall r d, prev c = Some r -> store db !! r = Some d ->
     exists w', w = add_arith_uint256 (chainwork d) w') ->
  db_inv (set_store (<[chaintip db := with_work w c]> (store db)) db).
Proof.
  intros [H _ Hleaf] Hc Hw. split.
  - apply (replace_core db (chaintip db) c); auto.
  - cbn. rewrite lookup_insert_eq. by eexists.
  - intros q d Hd. cbn in Hd |- *. apply lookup_insert_Some in Hd as [[<- <-]|[_ Hd]].
    + by apply (Hleaf (chaintip db) c).
    + by apply (Hleaf q).
Qed.

(** The first record starts a chain of its own. *)
Lemma load_first db b :
  db_inv db -> headersdb_find db (hash b) = None -> index_ok b ->
  exists db', load_record (true, db) (file_record b) = Ok (Some (false, db')) /\ db_inv db' /\
    params db' = params db /\ skip_pow db' = skip_pow db /\ chaintip db' = next_loc db /\
    store db' = <[next_loc db := mk_index (height b) (hash b) (chainwork b) (bare (header b)) None]> (store db).
Proof.
  intros Hi Hf H. unfold load_record. destruct (file_record_fields b H) as (-> & -> & _).
  rewrite parse_record by done. cbn [not_null mbind res_bind negb default from_option id].
  rewrite bare_hash, <- (ok_hash b H).
  set (b0 := mk_index (height b) (hash b) init_arith_uint256 (bare (header b)) None).
  pose proof (root_inv b0 db Hi (hash_32 b H) (ok_height b H) eq_refl Hf) as Hi1.
  change (hash b0) with (hash b) in Hi1.
  set (db1 := tree_insert _ _ _) in *.
  assert (store db1 !! chaintip db1 = Some b0) as E1 by (cbn; by rewrite lookup_insert_eq).
  rewrite (deref_live _ _ _ E1). cbn [mbind res_bind]. eexists. split; [done|].
  split; [by apply (tip_work_inv db1 b0)|]. split_and!; [done..|]. cbn. by rewrite insert_insert_eq.
Qed.

(** A record that continues the chain. *)
Lemma load_next db c b w :
  db_inv db -> store db !! chaintip db = Some c -> index_ok b -> linked b c ->
  headersdb_find db (hash b) = None ->
  check_work db (bare (header b)) init_arith_uint256 = Ok (true, w) ->
  exists db', load_record (false, db) (file_record b) = Ok (Some (false, db')) /\ db_inv db' /\
    params db' = params db /\ skip_pow db' = skip_pow db /\ chaintip db' = next_loc db /\
    store db' = <[next_loc db := mk_index (height b) (hash b) (chainwork b) (bare (header b))
                                   (Some (chaintip db))]> (store db).
Proof.
  intros Hi Hc H (Hht & Hprev & w' & Hw') Hf Hw. unfold load_record, headers_db_connect_hdr.
  destruct (file_record_fields b H) as (_ & -> & _).
  rewrite parse_record by done. cbn [not_null mbind res_bind negb default from_option id].
  rewrite bare_hash, <- (ok_hash b H).
  assert (height c + 1 < 2 ^ 32) as Hlt by (destruct (ok_height b H); lia).
  rewrite (connect_index_tip db (bare (header b)) (hash b) init_arith_uint256 true c w) by done.
  cbn [negb andb mbind res_bind].
  set (b0 := extension db c (bare (header b)) (hash b) w).
  assert (db_inv (extended db b0 true)) as Hi1 by (apply extend_inv; try done; by apply hash_32).
  set (db1 := extended db b0 true) in *.
  assert (store db1 !! chaintip db1 = Some b0) as E1 by (cbn; by rewrite lookup_insert_eq).
  rewrite (deref_live _ _ _ E1). cbn [mbind res_bind]. eexists. split; [done|]. split.
  - apply (tip_work_inv db1 b0); [done..|]. intros r d [= <-] Hd. cbn in Hd.
    rewrite lookup_insert_ne in Hd.
    + rewrite Hc in Hd. injection Hd as <-. eauto.
    + intros E. pose proof (fresh_loc db (inv_core _ Hi)). congruence.
  - split_and!; [done..|]. cbn. rewrite insert_insert_eq. unfold with_work. cbn. by rewrite Hht.
Qed.

(** Each index on top of the one before. *)
Fixpoint links (c : blockindex) (bs : list blockindex) : Prop :=
  match bs with [] => True | b :: bs => linked b c /\ links b bs end.

Lemma linked_same b c d : same_index d c -> linked b c -> linked b d.
Proof. intros (E1 & E2 & E3 & _) (H1 & H2 & w & H3). split_and!; [congruence..|]. exists w. congruence. Qed.

Lemma find_insert db db' p c h :
  db_inv db -> db_inv db' -> store db' = <[p := c]> (store db) -> length h = 32%nat ->
  headersdb_find db h = None -> hash c <> h -> headersdb_find db' h = None.
Proof.
  intros [H _ _] [H' _ _] Es Hh Hf Hne. destruct (headersdb_find db' h) as [q|] eqn:E; [|done].
  apply inv_find in E as (Hq & d & Hd & Ed); [|done..]. rewrite Es in Hd.
  apply lookup_insert_Some in Hd as [[_ <-]|[_ Hd]]; [done|].
  assert (headersdb_find db h = Some q); [|congruence].
  apply find_spec; [apply H|by apply inv_keys_32|done|]. apply (inv_tree db H). eauto.
Qed.

Lemma check_work_same db db' h work :
  params db' = params db -> skip_pow db' = skip_pow db -> check_work db' h work = check_work db h work.
Proof. unfold check_work. by intros -> ->. Qed.

(** What the records that continue a chain need to be accepted. *)
Record acceptable (db : headers_db) (bs : list blockindex) : Prop := {
  acc_ok : Forall index_ok bs;
  acc_distinct : NoDup (hash <$> bs);
  acc_new : Forall (fun b => headersdb_find db (hash b) = None) bs;
  acc_work : Forall (fun b => exists w, check_work db (bare (header b)) init_arith_uint256 = Ok (true, w)) bs;
}.

Lemma acceptable_next db db' p c b bs :
  db_inv db -> db_inv db' -> params db' = params db -> skip_pow db' = skip_pow db ->
  store db' = <[p := c]> (store db) -> hash c = hash b ->
  acceptable db (b :: bs) -> acceptable db' bs.
Proof.
  intros Hi Hi' Ep Esk Es Eh [H1 H2 H3 H4].
  apply Forall_cons_1 in H1 as [_ H1], H3 as [_ H3], H4 as [_ H4].
  rewrite fmap_cons in H2. apply NoDup_cons in H2 as [Hb H2]. split; [done..| |].
  - apply Forall_forall. intros d Hd. rewrite Forall_forall in H3, H1.
    apply (find_insert db db' p c); [done..|by apply hash_32, H1|by apply H3|].
    rewrite Eh. intros E. apply Hb. rewrite E. by apply list_elem_of_fmap_2.
  - apply (Forall_impl _ _ _ H4). intros d [w Hw]. exists w. by rewrite (check_work_same db db').
Qed.

Lemma load_rest bs : forall db c acc,
  db_inv db -> links c bs -> acceptable db bs ->
  chain_at (store db) (Some (chaintip db)) (c :: acc) ->
  exists db', load_records (file_record <$> bs) (false, db) = Ok (Some db') /\ db_inv db' /\
    chain_at (store db') (Some (chaintip db')) (rev bs ++ c :: acc).
Proof.
  induction bs as [|b bs IH]; intros db c acc Hi Hl Ha Hc; [by exists db|].
  pose proof Hc as (p & d & [= <-] & Hd & Hs & _). destruct Hl as [Hbc Hl].
  pose proof (acc_ok _ _ Ha) as Hok. apply Forall_cons_1 in Hok as [Hok _].
  pose proof (acc_new _ _ Ha) as Hf. apply Forall_cons_1 in Hf as [Hf _].
  pose proof (acc_work _ _ Ha) as Hw. apply Forall_cons_1 in Hw as [[w Hw] _].
  destruct (load_next db d b w Hi Hd Hok (linked_same _ _ _ Hs Hbc) Hf Hw)
    as (db1 & E & Hi1 & Ep & Esk & Et & Es).
  rewrite fmap_cons. cbn [load_records]. rewrite E. cbn [mbind res_bind].
  destruct (IH db1 b (c :: acc)) as (db' & -> & Hi' & Hch).
  - done.
  - done.
  - exact (acceptable_next db db1 _ _ b bs Hi Hi1 Ep Esk Es (eq_refl (hash b)) Ha).
  - cbn [chain_at]. exists (next_loc db). rewrite Et, Es, lookup_insert_eq. eexists.
    split_and!; [done|done|done|]. cbn [prev].
    exact (chain_at_insert _ _ _ _ _ (fresh_loc db (inv_core _ Hi)) Hc).
  - exists db'. split_and!; [done..|]. cbn [rev]. by rewrite <- app_assoc.
Qed.

(** ** Writing them *)

(** The database follows the chain of [bs]: each header is put on the tip. *)
Inductive extends_by : headers_db -> list blockindex -> headers_db -> Prop :=
  | ext_nil db : extends_by db [] db
  | ext_cons db h work tip db1 b bs db2 :
      base_ok h -> store db !! chaintip db = Some tip -> prev_block h = hash tip ->
      height tip + 1 < 2 ^ 32 ->
      connect_index db h (block_header_hash h) work false = Ok (true, db1) ->
      store db1 !! chaintip db1 = Some b -> extends_by db1 bs db2 -> extends_by db (b :: bs) db2.

Lemma trim_rest n i scan db db' :
  trim n i scan db = Ok db' ->
  headers_tree_file db' = headers_tree_file db /\ read_write_file db' = read_write_file db /\
  params db' = params db /\ skip_pow db' = skip_pow db.
Proof.
  revert i scan db. induction n as [|n IH]; intros i scan db; cbn [trim]; [by intros [= <-]|].
  destruct (deref db scan) as [s|]; [|done]. cbn [mbind res_bind].
  destruct (prev s) as [q|]; [|by intros [= <-]].
  destruct (_ && _); [|apply IH]. destruct (deref db q) as [b|]; [|done]. cbn [mbind res_bind].
  destruct (prev b) as [r|]; [|apply IH]. destruct (decide _); [apply IH|].
  destruct (deref db r) as [old|]; [|done]. cbn [mbind res_bind]. intros E. by apply IH in E.
Qed.

Lemma connect_writes db h work tip db1 b :
  db_inv db -> store db !! chaintip db = Some tip -> base_ok h -> prev_block h = hash tip ->
  height tip + 1 < 2 ^ 32 -> read_write_file db = true ->
  connect_index db h (block_header_hash h) work false = Ok (true, db1) ->
  store db1 !! chaintip db1 = Some b ->
  db_inv db1 /\ linked b tip /\ header b = h /\ (exists w, check_work db h work = Ok (true, w)) /\
  headers_tree_file db1 = headers_tree_file db ++ file_record b /\
  read_write_file db1 = true /\ params db1 = params db /\ skip_pow db1 = skip_pow db.
Proof.
  intros Hi Htip Hh Hp Hht Hrw E Hb. pose proof (dogecoin_hash_length (block_header_serialize [] h)) as H32.
  destruct (connect_tip db h (block_header_hash h) work false tip Hi Htip H32 (ok_bits _ Hh) Hht Hp)
    as (ok & d & E' & Hi' & Hok). rewrite E in E'. injection E' as <- <-.
  destruct Hok as (Hf & Et & w & Hw & Es). rewrite Hb in Es. injection Es as ->.
  split; [done|]. split; [by split_and!; [..|exists w]|]. split; [done|]. split; [by exists w|].
  rewrite (connect_index_tip db h _ work false tip w) in E by done. cbn [negb andb] in E. cbv zeta in E.
  set (b := extension db tip h _ w) in *.
  assert (headers_tree_file (extended db b false) = headers_tree_file db ++ file_record b) as Ef.
  { unfold extended. cbn. by rewrite Hrw. }
  rewrite <- Ef, <- Hrw. destruct (0 <? max_hdr_in_mem db).
  - destruct (trim _ _ _ _) as [d'|] eqn:Etr; [|done]. injection E as <-.
    by apply trim_rest in Etr as (-> & -> & -> & ->).
  - by injection E as <-.
Qed.

(** The work a header has before its check does not count. *)
Lemma check_pow_any_work hsh nbits limit w1 w2 hs w :
  check_pow hsh nbits limit (Some w1) = Some (true, hs, w) ->
  check_pow hsh nbits limit (Some w2) = Some (true, hs, w).
Proof.
  unfold check_pow. destruct (set_compact _ _) as [[target neg] ovf].
  destruct (_ || _ || _ || _); [done|]. by destruct (uint256_cmp _ _).
Qed.

Lemma check_work_any db h w1 w2 w :
  check_work db h w1 = Ok (true, w) -> exists w', check_work db (bare h) w2 = Ok (true, w').
Proof.
  unfold check_work. rewrite bare_serialize. cbn [bare set_auxpow hversion bits].
  destruct (_ || _); [by eauto|]. set (hs := block_header_scrypt_hash _). clearbody hs.
  destruct (check_pow hs _ _ (Some w1)) as [[[ok s] o]|] eqn:E; [|done].
  cbn [not_null mbind res_bind]. intros [= -> _].
  rewrite (check_pow_any_work _ _ _ _ w2 _ _ E). cbn [not_null mbind res_bind]. by eexists.
Qed.

Lemma extends_file db bs db2 :
  extends_by db bs db2 -> forall tip, store db !! chaintip db = Some tip ->
  db_inv db -> read_write_file db = true ->
  headers_tree_file db2 = headers_tree_file db ++ concat (file_record <$> bs) /\ links tip bs /\
  Forall (fun b => exists w, check_work db (bare (header b)) init_arith_uint256 = Ok (true, w)) bs.
Proof.
  induction 1 as [db|db h work tip db1 b bs db2 Hh Htip Hp Hht E Hb Hext IH]; intros t Ht Hi Hrw.
  { cbn. by rewrite app_nil_r. }
  rewrite Htip in Ht. injection Ht as <-.
  destruct (connect_writes db h work tip db1 b) as (Hi1 & Hl & <- & (w & Hw) & Hf & Hrw1 & Ep & Es); [done..|].
  destruct (IH b Hb Hi1 Hrw1) as (Ef & Hls & Hws). split_and!.
  - rewrite Ef, Hf, <- app_assoc. done.
  - by split.
  - apply Forall_cons. split; [by apply (check_work_any db (header b) work _ w)|].
    apply (Forall_impl _ _ _ Hws). intros c [w' Hw']. exists w'.
    by rewrite <- (check_work_same db db1).
Qed.

(** ** The round trip *)

Definition file_start : bytes := file_hdr_magic ++ le_enc 4 current_version.

Lemma load_records_file b bs db :
  db_inv db -> tree_root db = Null -> read_write_file db = true ->
  Forall index_ok (b :: bs) -> NoDup (hash <$> b :: bs) -> links b bs ->
  Forall (fun b => exists w, check_work db (bare (header b)) init_arith_uint256 = Ok (true, w)) bs ->
  let f := file_start ++ concat (file_record <$> b :: bs) in
  Z.of_nat (length f) < 2 ^ 32 ->
  exists db', headers_db_load (Some f) db = Ok (1, db') /\ db_inv db' /\
    chain_at (store db') (Some (chaintip db')) (rev (b :: bs)).
Proof.
  intros Hi Ht Hrw Hok Hnd Hl Hw f Hf. unfold headers_db_load. rewrite Hrw. cbn [negb].
  assert (length f = 8 + length (concat (file_record <$> b :: bs)))%nat as Hlen by apply length_app.
  rewrite (wrap_small 32) by (unfold urange; lia). rewrite (proj2 (Z.ltb_ge _ _)) by lia.
  assert (take 4 f = file_hdr_magic) as -> by done.
  assert (nth 4 f byte_zero = Byte.x03) as -> by done. cbn [orb].
  assert (drop 8 f = concat (file_record <$> b :: bs)) as -> by done.
  change (bytes_eqb file_hdr_magic file_hdr_magic) with true. cbn [negb].
  change (current_version <? byte.unsigned Byte.x03) with false. cbn iota zeta.
  assert (Forall (fun x => length x = REC_LEN) (file_record <$> b :: bs)) as Hall.
  { apply Forall_fmap, (Forall_impl _ _ _ Hok). intros x. apply file_record_length. }
  assert (length (concat (file_record <$> b :: bs)) / REC_LEN = length (file_record <$> b :: bs))%nat as ->.
  { rewrite (length_concat_const REC_LEN) by by apply Forall_forall. by rewrite Nat.div_mul. }
  rewrite chunks_concat, fmap_cons by done. cbn [load_records]. clearbody f.
  apply Forall_cons_1 in Hok as [Hb Hbs].
  assert (forall h p, (h, p) ∉ inorder (tree_root (set_file f db))) as Hempty.
  { intros h p. cbn. rewrite Ht. apply not_elem_of_nil. }
  assert (db_inv (set_file f db)) as Hi0 by (destruct Hi as [[]]; by split).
  assert (forall h, length h = 32%nat -> headersdb_find (set_file f db) h = None) as Hnone.
  { intros h Hh. unfold headersdb_find. cbn [set_file tree_root]. by rewrite Ht. }
  destruct (load_first (set_file f db) b Hi0 (Hnone _ (hash_32 b Hb)) Hb)
    as (db1 & -> & Hi1 & Ep & Es & Et & Est). cbn [mbind res_bind].
  destruct (load_rest bs db1 b []) as (db' & -> & Hi' & Hch); [done|done|split|..].
  - done.
  - rewrite fmap_cons in Hnd. by apply NoDup_cons in Hnd as [_ Hnd].
  - apply Forall_forall. intros c Hc. rewrite fmap_cons in Hnd. apply NoDup_cons in Hnd as [Hnb _].
    rewrite Forall_forall in Hbs. pose proof (hash_32 c (Hbs c Hc)) as Hc32.
    refine (find_insert _ db1 _ _ (hash c) Hi0 Hi1 Est Hc32 (Hnone _ Hc32) _).
    cbn. intros E. apply Hnb. rewrite E. by apply list_elem_of_fmap_2.
  - apply (Forall_impl _ _ _ Hw). intros c [w Hcw]. exists w.
    by rewrite (check_work_same (set_file f db) db1).
  - cbn [chain_at]. exists (next_loc (set_file f db)). rewrite Et, Est, lookup_insert_eq. by eexists.
  - exists db'. done.
Qed.

(** C30: What a client writes while it follows a chain is read back as the same chain.  The
    file of a new database, to which the records of the headers put on the tip have been
    appended, is loaded by another new database: every record is accepted, the invariant
    holds, and along the links from the tip lie the indexes that were connected, with their
    heights, hashes and total work, including those the writer no longer keeps in memory.
    Lost are the proofs of merge-mined headers. *)
Theorem load_restores_chain chain g w0 db0 b bs db1 :
  length g = 32%nat ->
  headers_db_load None (headers_db_new chain g w0 false) = Ok (1, db0) ->
  extends_by db0 (b :: bs) db1 ->
  Forall index_ok (b :: bs) -> NoDup (hash <$> b :: bs) ->
  Z.of_nat (length (headers_tree_file db1)) < 2 ^ 32 ->
  exists db2, headers_db_load (Some (headers_tree_file db1)) (headers_db_new chain g w0 false) = Ok (1, db2) /\
    db_inv db2 /\ chain_at (store db2) (Some (chaintip db2)) (rev (b :: bs)).
Proof.
  intros Hg [= <-] Hext Hok Hnd Hlen.
  pose proof (new_inv chain g w0 false Hg) as Hi.
  set (db := headers_db_new chain g w0 false) in *.
  destruct (inv_tip _ Hi) as [tip Htip].
  destruct (extends_file _ _ _ Hext tip Htip) as (Ef & Hl & Hw); [by destruct Hi as [[]]|done|].
  rewrite Ef in *. apply load_records_file; try done; [apply Hl|].
  apply Forall_cons_1 in Hw as [_ Hw]. exact Hw.
Qed.

Lemma load_restores_chain_witness :
  let db := headers_db_new (mk_params true 0x62 (zeros 32)) (zeros 32) (zeros 32) false in
  let db0 := set_file file_start db in
  let b := extension db0 (mk_index 0 (zeros 32) (uint_to_arith (zeros 32)) block_header_new None)
             demo_flagged (block_header_hash demo_flagged) init_arith_uint256 in
  exists db1 db2, extends_by db0 [b] db1 /\
  headers_db_load (Some (headers_tree_file db1)) db = Ok (1, db2) /\
  db_inv db2 /\ chain_at (store db2) (Some (chaintip db2)) [b].
Proof.
  intros db db0 b. set (g := mk_index 0 (zeros 32) (uint_to_arith (zeros 32)) block_header_new None) in *.
  assert (db_inv db0) as Hi by 
    (destruct (new_inv (mk_params true 0x62 (zeros 32)) (zeros 32) (zeros 32) false eq_refl) as [[]]; by split).
  assert (base_ok demo_flagged) as Hh by (split; try reflexivity; vm_compute; split; congruence).
  assert (headersdb_find db0 (block_header_hash demo_flagged) = None) as Hf by reflexivity.
  assert (check_work db0 demo_flagged init_arith_uint256 = Ok (true, init_arith_uint256)) as Hw by reflexivity.
  pose proof (dogecoin_hash_length (block_header_serialize [] demo_flagged)) as H32.
  destruct (connect_tip db0 demo_flagged (block_header_hash demo_flagged) init_arith_uint256 false g Hi)
    as (ok & db1 & E & Hi1 & Hok); [reflexivity|exact H32|vm_compute; split; congruence|cbn; lia|reflexivity|].
  destruct ok; [|destruct Hok as [_ [Hok|[w Hok]]]; congruence].
  destruct Hok as (_ & Et & w & Hw' & Hb). rewrite Hw in Hw'. injection Hw' as <-. fold b in Hb.
  destruct (connect_writes db0 demo_flagged init_arith_uint256 g db1 b) as (_ & _ & _ & _ & Hfile & _);
    [exact Hi|reflexivity|exact Hh|reflexivity|cbn; lia|reflexivity|exact E|exact Hb|].
  assert (index_ok b) as Hok.
  { split; [exact Hh|reflexivity|change (urange 32 1); split; [discriminate|reflexivity]|]. unfold b. cbn [extension chainwork].
    split; [reflexivity|]. refine (bool_decide_unpack _ _). vm_compute. exact I. }
  assert (extends_by db0 [b] db1) as Hext.
  { apply (ext_cons db0 demo_flagged init_arith_uint256 g db1 b [] db1 Hh eq_refl eq_refl ltac:(cbn; lia) E Hb).
    constructor. }
  destruct (load_restores_chain (mk_params true 0x62 (zeros 32)) (zeros 32) (zeros 32) db0 b [] db1)
    as (db2 & El & Hi2 & Hch).
  - reflexivity.
  - reflexivity.
  - exact Hext.
  - by constructor.
  - apply NoDup_singleton.
  - rewrite Hfile, length_app, (file_record_length b Hok). reflexivity.
  - exists db1, db2. split; [exact Hext|]. split; [exact El|]. split; [exact Hi2|exact Hch].
Defined.
