(* ===== verification/Base58.v ===== *)
(** * Base 58 ([src/src/base58.c])

    Encoding, decoding and the variants with a checksum.  The numbers both directions work on
    are arrays of digits; they are shown to be the digits of one number in base 58 and in
    base 2^32. *)

From S2P Require Import Prelude Words Mem Sha256 Arith256.

Local Open Scope Z_scope.

#[local] Opaque dogecoin_hash.

(** ** Digits *)

(** [VALID_BASE58_CHARS] *)
Definition b58digits_ordered : bytes :=
  [Byte.x31; Byte.x32; Byte.x33; Byte.x34; Byte.x35; Byte.x36; Byte.x37; Byte.x38;
   Byte.x39; Byte.x41; Byte.x42; Byte.x43; Byte.x44; Byte.x45; Byte.x46; Byte.x47;
   Byte.x48; Byte.x4a; Byte.x4b; Byte.x4c; Byte.x4d; Byte.x4e; Byte.x50; Byte.x51;
   Byte.x52; Byte.x53; Byte.x54; Byte.x55; Byte.x56; Byte.x57; Byte.x58; Byte.x59;
   Byte.x5a; Byte.x61; Byte.x62; Byte.x63; Byte.x64; Byte.x65; Byte.x66; Byte.x67;
   Byte.x68; Byte.x69; Byte.x6a; Byte.x6b; Byte.x6d; Byte.x6e; Byte.x6f; Byte.x70;
   Byte.x71; Byte.x72; Byte.x73; Byte.x74; Byte.x75; Byte.x76; Byte.x77; Byte.x78;
   Byte.x79; Byte.x7a].

Definition b58digits_map : list Z :=
  [-1; -1; -1; -1; -1; -1; -1; -1; -1; -1; -1; -1; -1; -1; -1; -1;
   -1; -1; -1; -1; -1; -1; -1; -1; -1; -1; -1; -1; -1; -1; -1; -1;
   -1; -1; -1; -1; -1; -1; -1; -1; -1; -1; -1; -1; -1; -1; -1; -1;
   -1; 0; 1; 2; 3; 4; 5; 6; 7; 8; -1; -1; -1; -1; -1; -1;
   -1; 9; 10; 11; 12; 13; 14; 15; 16; -1; 17; 18; 19; 20; 21; -1;
   22; 23; 24; 25; 26; 27; 28; 29; 30; 31; 32; -1; -1; -1; -1; -1;
   -1; 33; 34; 35; 36; 37; 38; 39; 40; 41; 42; 43; -1; 44; 45; 46;
   47; 48; 49; 50; 51; 52; 53; 54; 55; 56; 57; -1; -1; -1; -1; -1].

Definition one_char : Byte.byte := Byte.x31.

(** ** Decoding *)

(** [for (j = outisz; --j;)] with the carry [c].  The words are listed from the last one to
    [outi\[0\]], which the loop does not come to. *)
Fixpoint mul_add_words (outi : list Z) (c : Z) : list Z * Z :=
  match outi with
  | w :: ((_ :: _) as outi) =>
      let t := u64 (w * 58 + c) in
      let '(outi, c) := mul_add_words outi (u32 (Z.shiftr t 32)) in
      (u32 t :: outi, c)
  | _ => (outi, c)
  end.

(** The loop over the characters behind the leading ones. *)
Fixpoint decode_digits (zeromask : Z) (b58 : bytes) (outi : list Z) : option (list Z) :=
  match b58 with
  | [] => Some outi
  | ch :: b58 =>
      if negb (Z.land (byte.unsigned ch) 0x80 =? 0) then None
      else
        let d := nth (Z.to_nat (byte.unsigned ch)) b58digits_map 0 in
        if d =? -1 then None
        else
          let '(outi, c) := mul_add_words outi d in
          if negb (c =? 0) then None
          else if negb (Z.land (List.last outi 0) zeromask =? 0) then None
          else decode_digits zeromask b58 outi
  end.

(** How many elements in front satisfy [f]. *)
Fixpoint count_leading {A} (f : A -> bool) (l : list A) : nat :=
  match l with x :: l => if f x then S (count_leading f l) else O | [] => O end.

Definition is_one (c : Byte.byte) : bool := byte_eqb c one_char.
Definition is_nul (b : Byte.byte) : bool := byte_eqb b byte_zero.

(** The bytes of the words, the highest first; of the first word only [bytesleft] when that
    is not zero. *)
Definition out_bytes (bytesleft : nat) (outi : list Z) : bytes :=
  match rev outi with
  | [] => []
  | w :: ws => be_enc (if (bytesleft =? 0)%nat then 4%nat else bytesleft) w ++ concat (be_enc 4 <$> ws)
  end.

(** The bytes in [bin], and [*binszp]; [None]: the function returns false. *)
Definition base58_decode (binsz : nat) (b58 : bytes) : option (bytes * nat) :=
  if (binsz =? 0)%nat then None
  else
    let outisz := ((binsz + 3) / 4)%nat in
    let bytesleft := (binsz mod 4)%nat in
    let zeromask := if (bytesleft =? 0)%nat then 0
                    else u32 (Z.shiftl 0xffffffff (8 * Z.of_nat bytesleft)) in
    let zerocount := count_leading is_one b58 in
    outi ← decode_digits zeromask (drop zerocount b58) (replicate outisz 0);
    let bin := out_bytes bytesleft outi in
    let i := count_leading is_nul bin in
    if (i <? zerocount)%nat then None else Some (bin, binsz - i + zerocount)%nat.

(** [for (i = 0; binc\[i\] == '\0' && base58str\[i\] == '1'; ++i)]; [None]: one of the two is
    read behind its end. *)
Fixpoint after_zeros (binc base58str : bytes) : option (Byte.byte * Byte.byte) :=
  match binc, base58str with
  | b :: binc, s :: base58str =>
      if is_nul b && is_one s then after_zeros binc base58str else Some (b, s)
  | _, _ => None
  end.

(** [bin] may be longer than [binsz]; the string is given without its terminator. *)
Definition b58check (bin : bytes) (binsz : nat) (base58str : bytes) : option Z :=
  if (binsz <? 4)%nat then Some (-4)
  else
    let '(ok, buf) := dogecoin_dblhash (take (binsz - 4) bin) in
    if negb ok then Some (-2)
    else if negb (bytes_eqb (take 4 (drop (binsz - 4) bin)) (take 4 buf)) then Some (-1)
    else
      '(b, s) ← after_zeros bin (base58str ++ [byte_zero]);
      if is_nul b || is_one s then Some (-3)
      else Some (byte.unsigned (nth 0 bin byte_zero)).

(** ** Encoding *)

(** The loop over [j], downwards, for one byte; the digits and the last [j]. *)
Fixpoint encode_carry (j : nat) (buf : list Z) (carry : Z) (high : nat) : list Z * nat :=
  if (high <? j)%nat || negb (carry =? 0) then
    let carry := carry + 256 * nth j buf 0 in
    let buf := <[j := carry mod 58]> buf in
    match j with
    | O => (buf, O)
    | S j => encode_carry j buf (carry / 58) high
    end
  else (buf, j).

Definition encode_byte (size : nat) (st : list Z * nat) (b : Byte.byte) : list Z * nat :=
  encode_carry (size - 1) st.1 (byte.unsigned b) st.2.

(** The result, [*b58sz], and what is written to [b58], with its terminator. *)
Definition base58_encode (b58sz : Z) (data : bytes) : bool * Z * bytes :=
  let zcount := count_leading is_nul data in
  let size := Z.to_nat (u64 (u64 (Z.of_nat (length data - zcount) * 138) / 100 + 1)) in
  let '(buf, _) := foldl (encode_byte size) (replicate size 0, (size - 1)%nat) (drop zcount data) in
  let j := count_leading (Z.eqb 0) buf in
  let n := Z.of_nat (zcount + size - j) in
  if b58sz <=? n then (false, n + 1, [])
  else
    (true, n + 1,
     replicate zcount one_char ++
     ((fun d => nth (Z.to_nat d) b58digits_ordered byte_zero) <$> drop j buf) ++ [byte_zero]).

(** ** With a checksum *)

Definition base58_encode_check (data : bytes) (strsize : Z) : Z * bytes :=
  if (128 <? length data)%nat then (0, [])
  else
    let '(ok, hash) := dogecoin_dblhash data in
    if negb ok then (0, [])
    else
      let '(ok, res, str) := base58_encode strsize (data ++ take 4 hash) in
      (if ok then res else 0, str).

(** The result and the [datalen] bytes of [data]; [None]: a read behind the end of a buffer.
    [data] is only meaningful when the result is not zero. *)
Definition base58_decode_check (str : bytes) (datalen : nat) : option (nat * bytes) :=
  let strl := Nat.min (length str) 1024 in
  if (128 <? strl)%nat || (datalen <? strl)%nat then Some (0%nat, [])
  else
    let binhint := Nat.min (strl + 4) datalen in
    match base58_decode binhint (take strl str) with
    | None => Some (0%nat, [])
    | Some (bin, binsize) =>
        let data := drop (binhint - binsize) bin ++ zeros (datalen - binsize) in
        r ← b58check data binsize str;
        Some (if r <? 0 then 0%nat else binsize, data)
    end.

(** ** Leading elements *)

(** [l] does not start with an element of [f]. *)
Definition no_leading {A} (f : A -> bool) (l : list A) : Prop :=
  match l with x :: _ => f x = false | [] => True end.

Lemma count_leading_app {A} (f : A -> bool) a b :
  Forall (fun x => f x = true) a -> no_leading f b -> count_leading f (a ++ b) = length a.
Proof.
  intros Ha Hb. induction Ha as [|x a Hx Ha IH]; cbn [app count_leading length].
  - destruct b as [|y b]; [done|]. cbn in *. by rewrite Hb.
  - by rewrite Hx, IH.
Qed.

Lemma count_leading_split {A} (f : A -> bool) l :
  exists b, l = take (count_leading f l) l ++ b /\ b = drop (count_leading f l) l /\
  Forall (fun x => f x = true) (take (count_leading f l) l) /\ no_leading f b /\
  (count_leading f l <= length l)%nat.
Proof.
  eexists. split; [symmetry; apply take_drop|]. split; [done|].
  induction l as [|x l (IH1 & IH2 & IH3)]; [split; [constructor|by split]|].
  cbn [count_leading]. destruct (f x) eqn:E; cbn [take drop length].
  - split_and!; [by constructor|done|lia].
  - split_and!; [constructor|done|lia].
Qed.

Lemma leading_zeros data :
  exists t, data = zeros (count_leading is_nul data) ++ t /\
    t = drop (count_leading is_nul data) data /\ no_leading is_nul t.
Proof.
  destruct (count_leading_split is_nul data) as (t & E & Et & Hall & Hn & Hle).
  exists t. split_and!; [|done|done]. rewrite E at 1. f_equal. unfold zeros.
  rewrite <- (length_take_le data (count_leading is_nul data)) at 2 by done.
  symmetry. apply replicate_as_elem_of. split; [done|]. intros x Hx. rewrite Forall_forall in Hall.
  by apply Byte.byte_dec_bl, Hall.
Qed.

(** ** Numbers and their digits *)

(** The number with the digits [l] behind the number [v]; the first digit is the highest. *)
Definition digits_val (B v : Z) (l : list Z) : Z := foldl (fun v d => v * B + d) v l.

Lemma digits_val_app B v a b : digits_val B v (a ++ b) = digits_val B (digits_val B v a) b.
Proof. apply foldl_app. Qed.

Lemma digits_val_shift B v l :
  digits_val B v l = v * B ^ Z.of_nat (length l) + digits_val B 0 l.
Proof.
  revert v. induction l as [|d l IH]; intros v; [cbn; lia|]. cbn [digits_val foldl length] in *.
  unfold digits_val in IH. rewrite IH, (IH (0 * B + d)). rewrite Nat2Z.inj_succ, Z.pow_succ_r by lia. ring.
Qed.

Lemma digits_val_range B l :
  0 < B -> Forall (fun d => 0 <= d < B) l -> 0 <= digits_val B 0 l < B ^ Z.of_nat (length l).
Proof.
  intros HB H. induction H as [|d l Hd H IH]; [done|].
  cbn [digits_val foldl length]. fold (digits_val B (0 * B + d) l). rewrite digits_val_shift.
  rewrite Nat2Z.inj_succ, Z.pow_succ_r by lia. nia.
Qed.

Lemma digits_val_unique B a b :
  0 < B -> Forall (fun d => 0 <= d < B) a -> Forall (fun d => 0 <= d < B) b ->
  length a = length b -> digits_val B 0 a = digits_val B 0 b -> a = b.
Proof.
  intros HB Ha. revert b. induction Ha as [|x a Hx Ha IH]; intros [|y b] Hb Hl E; try done.
  apply Forall_cons_1 in Hb as [Hy Hb]. injection Hl as Hl. revert E.
  cbn [digits_val foldl]. fold (digits_val B (0 * B + x) a) (digits_val B (0 * B + y) b).
  rewrite digits_val_shift, (digits_val_shift B (0 * B + y)), Hl. intros E.
  pose proof (digits_val_range B a HB Ha) as H1. pose proof (digits_val_range B b HB Hb) as H2.
  rewrite Hl in H1. set (P := B ^ Z.of_nat (length b)) in *.
  assert (x = y) as -> by nia. f_equal. apply IH; [done..|lia].
Qed.

(** Without leading zeros the number of digits is determined as well. *)
Lemma digits_val_lower B d l :
  0 < B -> Forall (fun d => 0 <= d < B) (d :: l) -> d <> 0 ->
  B ^ Z.of_nat (length l) <= digits_val B 0 (d :: l).
Proof.
  intros HB H Hd. apply Forall_cons_1 in H as [Hr H]. pose proof (digits_val_range B l HB H).
  cbn [digits_val foldl]. fold (digits_val B (0 * B + d) l). rewrite digits_val_shift.
  assert (0 < B ^ Z.of_nat (length l)) by (apply Z.pow_pos_nonneg; lia). nia.
Qed.

Lemma digits_length_le B a b :
  1 < B -> Forall (fun d => 0 <= d < B) a -> Forall (fun d => 0 <= d < B) b ->
  no_leading (Z.eqb 0) a -> digits_val B 0 a <= digits_val B 0 b -> (length a <= length b)%nat.
Proof.
  intros HB Ha Hb Hn E. destruct a as [|d a]; [cbn; lia|].
  cbn [no_leading] in Hn. apply Z.eqb_neq in Hn. pose proof (digits_val_lower B d a ltac:(lia) Ha ltac:(lia)) as Hl.
  pose proof (digits_val_range B b ltac:(lia) Hb) as Hr.
  assert (B ^ Z.of_nat (length a) < B ^ Z.of_nat (length b)) as Hp by lia.
  apply Z.pow_lt_mono_r_iff in Hp; cbn [length]; lia.
Qed.

Lemma digits_canonical B a b :
  1 < B -> Forall (fun d => 0 <= d < B) a -> Forall (fun d => 0 <= d < B) b ->
  no_leading (Z.eqb 0) a -> no_leading (Z.eqb 0) b -> digits_val B 0 a = digits_val B 0 b -> a = b.
Proof.
  intros HB Ha Hb Hna Hnb E.
  pose proof (digits_length_le B a b HB Ha Hb Hna ltac:(lia)).
  pose proof (digits_length_le B b a HB Hb Ha Hnb ltac:(lia)).
  apply (digits_val_unique B); [lia|done|done|lia|done].
Qed.

(** Bytes are the digits in base 256. *)
Lemma be_dec_digits l : be_dec l = digits_val 256 0 (byte.unsigned <$> l).
Proof.
  induction l as [|b l IH] using rev_ind; [done|].
  rewrite fmap_app, digits_val_app, <- IH. unfold be_dec. rewrite rev_app_distr. cbn [rev app fmap list_fmap].
  change (b :: rev l) with ([b] ++ rev l). rewrite le_dec_app. cbn [length].
  change (8 * Z.of_nat 1) with 8. rewrite le_dec_1. cbn. lia.
Qed.

Lemma bytes_digits l : Forall (fun d => 0 <= d < 256) (byte.unsigned <$> l).
Proof. apply Forall_fmap, Forall_true. intros b. apply byte_range. Qed.

Lemma be_enc_dec bs n : length bs = n -> be_enc n (be_dec bs) = bs.
Proof.
  intros <-. unfold be_enc, be_dec. rewrite <- (length_rev bs), le_enc_dec by done. apply rev_involutive.
Qed.

(** ** The decoder computes the number *)

(** [outi\[0\]] stays zero, so that the words behind it have to hold the number. *)
Lemma mul_add_spec ws w0 c :
  Forall (urange 32) ws -> 0 <= c < 58 ->
  exists ws' c', mul_add_words (ws ++ [w0]) c = (ws' ++ [w0], c') /\
    length ws' = length ws /\ Forall (urange 32) ws' /\ 0 <= c' < 58 /\
    val ws' + 2 ^ (32 * Z.of_nat (length ws)) * c' = 58 * val ws + c.
Proof.
  intros Hws. revert c. induction Hws as [|w ws Hw Hws IH]; intros c Hc.
  { exists [], c. cbn. split_and!; [done..|constructor|lia|lia|lia]. }
  assert (mul_add_words ((w :: ws) ++ [w0]) c =
    let t := u64 (w * 58 + c) in
    let '(outi, c) := mul_add_words (ws ++ [w0]) (u32 (Z.shiftr t 32)) in (u32 t :: outi, c)) as ->
    by (destruct ws; done).
  unfold urange in Hw. rewrite (wrap_small 64) by (unfold urange; lia). cbn zeta.
  set (t := w * 58 + c) in *. assert (0 <= t < 58 * 2 ^ 32) as Ht by lia.
  rewrite Z.shiftr_div_pow2 by lia. pose proof (Z.div_mod t (2 ^ 32) ltac:(lia)) as Hdm.
  assert (0 <= t / 2 ^ 32 < 58) as Hq by (split; [apply Z.div_pos; lia|apply Z.div_lt_upper_bound; lia]).
  rewrite (wrap_small 32) by (unfold urange; lia).
  destruct (IH (t / 2 ^ 32) Hq) as (ws' & c' & -> & Hl & Hr & Hc' & Hv).
  exists (u32 t :: ws'), c'. split_and!; [done|cbn; congruence| |lia|lia|].
  - constructor; [by apply wrap_range|done].
  - cbn [val length]. rewrite pow32_S. change (u32 t) with (t mod 2 ^ 32). nia.
Qed.

Definition b58digit (ch : Byte.byte) : option Z :=
  if negb (Z.land (byte.unsigned ch) 0x80 =? 0) then None
  else
    let d := nth (Z.to_nat (byte.unsigned ch)) b58digits_map 0 in
    if d =? -1 then None else Some d.

Definition b58char (d : Z) : Byte.byte := nth (Z.to_nat d) b58digits_ordered byte_zero.

Lemma b58digit_spec ch d : b58digit ch = Some d -> 0 <= d < 58 /\ b58char d = ch.
Proof.
  destruct ch; intros H; vm_compute in H; try discriminate; injection H as <-; (split; [lia|reflexivity]).
Qed.

Lemma b58char_spec d : 0 <= d < 58 -> b58digit (b58char d) = Some d /\ is_one (b58char d) = (0 =? d).
Proof.
  intros Hd. assert (d ∈ Z.of_nat <$> seq 0 58) as H.
  { apply list_elem_of_fmap. exists (Z.to_nat d). rewrite elem_of_seq. lia. }
  revert d Hd H. cut (Forall (fun d => b58digit (b58char d) = Some d /\ is_one (b58char d) = (0 =? d))
    (Z.of_nat <$> seq 0 58)); [intros H d _; by rewrite Forall_forall in H; apply H|]. refine (bool_decide_unpack _ _). vm_compute. exact I.
Qed.

Lemma digits_val_mono B v l : 1 <= B -> 0 <= v -> Forall (fun d => 0 <= d) l -> v <= digits_val B v l.
Proof.
  intros HB Hv Hl. revert v Hv. induction Hl as [|d l Hd Hl IH]; intros v Hv; [cbn; lia|].
  cbn [digits_val foldl]. fold (digits_val B (v * B + d) l). etransitivity; [|apply IH]; nia.
Qed.

Lemma mapM_digits b58 ds : mapM b58digit b58 = Some ds -> Forall (fun d => 0 <= d < 58) ds.
Proof.
  intros H. apply mapM_Some_1 in H. induction H as [|c d cs ds Hc H IH]; [constructor|].
  constructor; [apply (b58digit_spec _ _ Hc)|done].
Qed.

Lemma decode_digits_spec m b58 ws :
  Forall (urange 32) ws ->
  let cap := 2 ^ (32 * Z.of_nat (length ws)) in
  match decode_digits m b58 (ws ++ [0]) with
  | Some outi => exists ds ws', mapM b58digit b58 = Some ds /\ outi = ws' ++ [0] /\
      length ws' = length ws /\ Forall (urange 32) ws' /\ val ws' = digits_val 58 (val ws) ds
  | None => forall ds, mapM b58digit b58 = Some ds -> cap <= digits_val 58 (val ws) ds
  end.
Proof.
  revert ws. induction b58 as [|ch b58 IH]; intros ws Hws; cbn [decode_digits].
  { exists [], ws. done. }
  cbv zeta. cbn [mapM]. assert (b58digit ch = b58digit ch) as Ed by done. revert Ed.
  unfold b58digit at 1. destruct (negb _); [intros <-; done|]. cbv zeta.
  destruct (_ =? -1); [intros <-; done|]. intros Ed. symmetry in Ed.
  set (d := nth _ _ _) in *. pose proof (proj1 (b58digit_spec _ _ Ed)) as Hd.
  destruct (mul_add_spec ws 0 d Hws Hd) as (ws' & c' & -> & Hl & Hr & Hc & Hv). rewrite Ed. cbn [mbind option_bind].
  pose proof (val_range ws Hws) as Hv0. pose proof (val_range ws' Hr) as Hv1. rewrite Hl in Hv1.
  destruct (Z.eqb_spec c' 0) as [->|Hc0]; cbn [negb].
  - rewrite List.last_last, Z.land_0_l. cbn [Z.eqb negb].
    specialize (IH ws' Hr). cbv zeta in IH. rewrite Hl in IH.
    replace (val ws') with (val ws * 58 + d) in IH by lia.
    destruct (decode_digits m b58 (ws' ++ [0])) as [outi|].
    + destruct IH as (ds & ws2 & -> & -> & Hl2 & Hr2 & E). exists (d :: ds), ws2. by split_and!.
    + intros ds. destruct (mapM b58digit b58) as [ds'|]; [|done]. intros [= <-]. by apply IH.
  - intros ds. destruct (mapM b58digit b58) as [ds'|] eqn:Em; [|done]. intros [= <-].
    apply mapM_digits in Em. cbn [digits_val foldl]. fold (digits_val 58 (val ws * 58 + d) ds').
    etransitivity; [|apply digits_val_mono; [lia|lia|]]; [nia|].
    apply (Forall_impl _ _ _ Em). lia.
Qed.

Lemma be_dec_app a b : be_dec (a ++ b) = be_dec a * 256 ^ Z.of_nat (length b) + be_dec b.
Proof.
  rewrite !be_dec_digits, fmap_app, digits_val_app, digits_val_shift. by rewrite length_fmap.
Qed.

Lemma be_dec_enc n v : urange (8 * Z.of_nat n) v -> be_dec (be_enc n v) = v.
Proof. intros Hv. unfold be_dec, be_enc. rewrite rev_involutive. by apply le_dec_enc_small. Qed.

Lemma words_be_spec ws :
  Forall (urange 32) ws ->
  be_dec (concat (be_enc 4 <$> rev ws)) = val ws /\
  length (concat (be_enc 4 <$> rev ws)) = (4 * length ws)%nat.
Proof.
  intros H. induction H as [|w ws Hw H [IH1 IH2]]; [done|].
  cbn [rev]. rewrite fmap_app, concat_app. cbn [fmap list_fmap concat]. rewrite app_nil_r.
  rewrite be_dec_app, length_app, IH1, IH2, be_enc_length, be_dec_enc by done. cbn [val length].
  change (256 ^ Z.of_nat 4) with (2 ^ 32). lia.
Qed.

Lemma out_bytes_spec n ws :
  Forall (urange 32) ws ->
  let bin := out_bytes n (ws ++ [0]) in
  length bin = ((if (n =? 0) then 4 else n) + 4 * length ws)%nat /\ be_dec bin = val ws.
Proof.
  intros H bin. unfold bin, out_bytes. rewrite rev_app_distr. cbn [rev app].
  destruct (words_be_spec ws H) as [H1 H2].
  rewrite be_dec_app, length_app, be_enc_length, be_dec_enc, H1, H2; [lia|].
  split; [done|]. apply Z.pow_pos_nonneg; lia.
Qed.

(** The bytes a number may have: those of all words but one. *)
Definition capacity (binsz : nat) : nat := (4 * ((binsz + 3) / 4 - 1))%nat.

(** The digits behind the leading ones. *)
Definition b58digits (b58 : bytes) : option (list Z) :=
  mapM b58digit (drop (count_leading is_one b58) b58).

Lemma base58_decode_spec binsz b58 :
  (binsz <> 0)%nat ->
  let zc := count_leading is_one b58 in
  match base58_decode binsz b58 with
  | Some (bin, n) => exists ds, b58digits b58 = Some ds /\
      digits_val 58 0 ds < 256 ^ Z.of_nat (capacity binsz) /\
      length bin = binsz /\ be_dec bin = digits_val 58 0 ds /\
      (zc <= count_leading is_nul bin)%nat /\ n = (binsz - count_leading is_nul bin + zc)%nat
  | None => forall ds, b58digits b58 = Some ds ->
      256 ^ Z.of_nat (capacity binsz) <= digits_val 58 0 ds \/
      exists bin, length bin = binsz /\ be_dec bin = digits_val 58 0 ds /\
        (count_leading is_nul bin < zc)%nat
  end.
Proof.
  intros Hb zc. unfold base58_decode. rewrite (proj2 (Nat.eqb_neq _ _)) by done. cbn zeta. fold zc.
  set (m := if (binsz mod 4 =? 0)%nat then 0 else u32 _). clearbody m.
  pose proof (Nat.div_mod binsz 4 ltac:(lia)) as Hd. pose proof (Nat.mod_upper_bound binsz 4 ltac:(lia)) as Hm.
  set (k := ((binsz + 3) / 4 - 1)%nat).
  assert ((binsz + 3) / 4 = S k)%nat as Hk.
  { unfold k. assert (1 <= (binsz + 3) / 4)%nat; [|lia]. apply Nat.div_le_lower_bound; lia. }
  assert (binsz = (if (binsz mod 4 =? 0) then 4 else binsz mod 4) + 4 * k)%nat as Hsz.
  { assert (binsz + 3 = 4 * S k + (binsz + 3) mod 4)%nat by (rewrite <- Hk; apply Nat.div_mod; lia).
    pose proof (Nat.mod_upper_bound (binsz + 3) 4 ltac:(lia)).
    destruct (Nat.eqb_spec (binsz mod 4) 0); lia. }
  rewrite Hk. cbn [replicate]. rewrite replicate_cons_app.
  assert (Forall (urange 32) (replicate k 0)) as H0 by (apply replicate_zero_range).
  pose proof (decode_digits_spec m (drop zc b58) (replicate k 0) H0) as Hs. cbn zeta in Hs.
  rewrite length_replicate, val_zeros in Hs.
  assert (2 ^ (32 * Z.of_nat k) = 256 ^ Z.of_nat (capacity binsz)) as Ecap.
  { unfold capacity. fold k. change 256 with (2 ^ 8). rewrite <- Z.pow_mul_r by lia. f_equal. lia. }
  rewrite Ecap in Hs. unfold b58digits. fold zc.
  destruct (decode_digits m (drop zc b58) _) as [outi|]; cbn [mbind option_bind].
  2:{ intros ds Hds. left. by apply Hs. }
  destruct Hs as (ds & ws & Hds & -> & Hl & Hr & Hv).
  destruct (out_bytes_spec (binsz mod 4) ws Hr) as [Hlen Hval]. rewrite Hl, <- Hsz in Hlen.
  set (bin := out_bytes _ _) in *.
  destruct (Nat.ltb_spec (count_leading is_nul bin) zc) as [Hlt|Hge].
  - intros ds' Hds'. rewrite Hds in Hds'. injection Hds' as <-. right. exists bin.
    split_and!; [done|congruence|done].
  - exists ds. split_and!; [done| |done|congruence|done|done].
    rewrite <- Hv, <- Ecap, <- Hl. by apply val_range.
Qed.

(** ** The encoder computes the digits *)

Abbreviation is_digit := (fun d => 0 <= d < 58).

Lemma digits_val_zero B l : Forall (fun d => d = 0) l -> digits_val B 0 l = 0.
Proof. induction 1 as [|d l -> _ IH]; [done|exact IH]. Qed.

Lemma take_zero (buf : list Z) n :
  (forall i, (i < n)%nat -> nth i buf 0 = 0) -> Forall (fun d => d = 0) (take n buf).
Proof.
  intros H. apply Forall_lookup. intros i d Hi. apply lookup_take_Some in Hi as [Hi Hn].
  specialize (H i Hn). by rewrite nth_lookup, Hi in H.
Qed.

Lemma encode_carry_spec j buf carry high :
  (j < length buf)%nat -> 0 <= carry -> Forall is_digit buf ->
  (forall i, (i <= j)%nat -> (i <= high)%nat -> nth i buf 0 = 0) ->
  256 * digits_val 58 0 (take (S j) buf) + carry < 58 ^ Z.of_nat (S j) ->
  let '(buf', j') := encode_carry j buf carry high in
  length buf' = length buf /\ Forall is_digit buf' /\ drop (S j) buf' = drop (S j) buf /\
  digits_val 58 0 (take (S j) buf') = 256 * digits_val 58 0 (take (S j) buf) + carry /\
  (j' <= j)%nat /\ (j' = 0%nat \/ forall i, (i <= j')%nat -> nth i buf' 0 = 0).
Proof.
  revert buf carry. induction j as [|j IH]; intros buf carry Hj Hc Hd Hz Hcap;
    destruct (lookup_lt_is_Some_2 buf _ Hj) as [x Hx];
    pose proof (proj1 (Forall_lookup _ _) Hd _ _ Hx) as Hxr; cbn in Hxr;
    rewrite (take_S_r _ _ _ Hx), digits_val_app in *; cbn [encode_carry];
    set (P := digits_val 58 0 (take _ buf)) in *; cbn [digits_val foldl] in Hcap |- *;
    (destruct (_ || _) eqn:Eg;
     [|apply orb_false_iff in Eg as [Eh Ec]; apply Nat.ltb_ge in Eh; apply negb_false_iff, Z.eqb_eq in Ec;
       subst carry; split_and!; [done..| | |by right; intros i Hi; apply Hz; lia];
       [rewrite (take_S_r _ _ _ Hx), digits_val_app; fold P; cbn [digits_val foldl]|done];
       assert (x = 0) as -> by (specialize (Hz _ (le_n _) Eh); by rewrite nth_lookup, Hx in Hz);
       assert (P = 0) as -> by (apply digits_val_zero, take_zero; intros i Hi; apply Hz; lia); lia]).
  - rewrite nth_lookup, Hx. cbn [default from_option id]. subst P.
    change (58 ^ Z.of_nat 1) with 58 in Hcap. change (digits_val 58 0 (take 0 buf)) with 0 in *.
    rewrite Z.mod_small by lia.
    destruct buf as [|y buf]; [done|]. injection Hx as ->. cbn [insert list_insert length take drop].
    apply Forall_cons_1 in Hd as [_ Hd]. change (take 0 buf) with (@nil Z).
    split_and!; [done| |done|cbn [digits_val foldl]; lia|done|by left].
    by constructor; [lia|].
  - rewrite nth_lookup, Hx. cbn [default from_option id]. set (c1 := carry + 256 * x).
    set (buf1 := <[S j:=c1 mod 58]> buf).
    pose proof (Z.div_mod c1 58 ltac:(lia)) as Hdm. pose proof (Z.mod_pos_bound c1 58 ltac:(lia)) as Hmod.
    assert (0 <= c1 / 58) as Hc1 by (apply Z.div_pos; lia).
    assert (take (S j) buf1 = take (S j) buf) as Et by (unfold buf1; by rewrite take_insert_ge by lia).
    specialize (IH buf1 (c1 / 58)). rewrite Et in IH. fold P in IH.
    assert (length buf1 = length buf) as Hl1 by apply length_insert. rewrite Hl1 in IH.
    rewrite (Nat2Z.inj_succ (S j)), Z.pow_succ_r in Hcap by lia.
    specialize (IH ltac:(lia) Hc1 ltac:(by apply Forall_insert)).
    destruct (encode_carry j buf1 (c1 / 58) high) as [buf' j'].
    destruct IH as (IH1 & IH2 & IH3 & IH4 & IH5 & IH6).
    { intros i Hi Hh. unfold buf1. rewrite nth_lookup, list_lookup_insert_ne, <- nth_lookup by lia.
      apply Hz; lia. }
    { lia. }
    assert (buf' !! S j = Some (c1 mod 58)) as Hx'.
    { rewrite <- (Nat.add_0_r (S j)), <- lookup_drop, IH3, lookup_drop, Nat.add_0_r.
      unfold buf1. by apply list_lookup_insert_eq. }
    split_and!; [done|done| | |lia|done].
    + replace (S (S j)) with (S j + 1)%nat by lia. rewrite <- (drop_drop buf'), IH3, drop_drop.
      unfold buf1. by rewrite drop_insert_lt by lia.
    + rewrite (take_S_r _ _ _ Hx'), digits_val_app, IH4. cbn [digits_val foldl]. lia.
Qed.

Lemma encode_loop_spec size bs buf high :
  length buf = size -> (high < size)%nat -> Forall is_digit buf ->
  (forall i, (i <= high)%nat -> nth i buf 0 = 0) ->
  let V := digits_val 58 0 buf in
  (V + 1) * 256 ^ Z.of_nat (length bs) <= 58 ^ Z.of_nat size ->
  (bs <> [] -> (V + 1) * 256 ^ Z.of_nat (length bs - 1) <= 58 ^ Z.of_nat (size - 1)) ->
  let '(buf', _) := foldl (encode_byte size) (buf, high) bs in
  length buf' = size /\ Forall is_digit buf' /\
  digits_val 58 0 buf' = digits_val 256 V (byte.unsigned <$> bs).
Proof.
  revert buf high. induction bs as [|b bs IH]; intros buf high Hl Hh Hd Hz V Hc1 Hc2; [done|].
  cbn [foldl]. unfold encode_byte at 2. cbn [fst snd].
  pose proof (digits_val_range 58 buf ltac:(lia) Hd) as HV. fold V in HV.
  pose proof (byte_range b) as Hb. unfold urange in Hb.
  assert (take (S (size - 1)) buf = buf) as Et by (apply take_ge; lia).
  pose proof (encode_carry_spec (size - 1) buf (byte.unsigned b) high ltac:(lia) ltac:(lia) Hd
    (fun i _ => Hz i)) as Hs.
  rewrite Et in Hs. fold V in Hs. replace (S (size - 1)) with size in Hs by lia.
  cbn [length] in Hc1. rewrite Nat2Z.inj_succ, Z.pow_succ_r in Hc1 by lia.
  assert (1 <= 256 ^ Z.of_nat (length bs)) as Hp by (apply Z.pow_le_mono_r with (b := 0); lia).
  destruct (encode_carry _ _ _ _) as [buf' j']. destruct Hs as (L & D & _ & E & J & Z0); [nia|].
  rewrite take_ge in E by lia.
  specialize (IH buf' j' ltac:(lia) ltac:(lia) D). rewrite E in IH.
  replace (digits_val 256 V (byte.unsigned <$> b :: bs))
    with (digits_val 256 (256 * V + byte.unsigned b) (byte.unsigned <$> bs))
    by (cbn [fmap list_fmap digits_val foldl]; f_equal; lia).
  destruct bs as [|b2 bs]; [cbn [foldl fmap list_fmap]; split_and!; [congruence|done|exact E]|].
  specialize (Hc2 ltac:(done)). cbn [length] in *. replace (S (S (length bs)) - 1)%nat with (S (length bs)) in Hc2 by lia.
  replace (S (length bs) - 1)%nat with (length bs) in * by lia.
  rewrite (Nat2Z.inj_succ (length bs)), Z.pow_succ_r in * by lia.
  assert (1 <= 256 ^ Z.of_nat (length bs)) as Hp2 by (apply Z.pow_le_mono_r with (b := 0); lia).
  apply IH.
  - destruct Z0 as [->|Z0]; [|done]. intros i Hi. replace i with 0%nat by lia.
    destruct buf' as [|x buf']; [done|]. cbn [nth]. destruct (decide (x = 0)) as [|Hx]; [done|].
    pose proof (digits_val_lower 58 x buf' ltac:(lia) D Hx) as Hlow. cbn [length] in L.
    replace (size - 1)%nat with (length buf') in Hc2 by lia. nia.
  - nia.
  - intros _. nia.
Qed.

(** The estimate log 256 / log 58 < 138 / 100. *)
Lemma size_enough n (size := (n * 138 / 100 + 1)%nat) :
  256 ^ Z.of_nat n <= 58 ^ Z.of_nat size /\
  ((n <> 0)%nat -> 256 ^ Z.of_nat (n - 1) <= 58 ^ Z.of_nat (size - 1)).
Proof.
  assert (forall a b, (138 * a <= 100 * b)%nat -> 256 ^ Z.of_nat a <= 58 ^ Z.of_nat b) as H.
  { intros a b Hab. apply Z.nlt_ge. intros Hlt.
    assert ((58 ^ Z.of_nat b) ^ 100 < (256 ^ Z.of_nat a) ^ 100) as Hp.
    { apply Z.pow_lt_mono_l; [lia|split; [apply Z.pow_nonneg; lia|done]]. }
    rewrite <- !Z.pow_mul_r in Hp by lia.
    assert ((256 ^ 100) ^ Z.of_nat a <= (58 ^ 138) ^ Z.of_nat a) as H1.
    { apply Z.pow_le_mono_l. split; [apply Z.pow_nonneg; lia|]. by apply Z.leb_le; vm_compute. }
    rewrite <- !Z.pow_mul_r in H1 by lia.
    assert (58 ^ (138 * Z.of_nat a) <= 58 ^ (Z.of_nat b * 100)) by (apply Z.pow_le_mono_r; lia).
    rewrite (Z.mul_comm (Z.of_nat a)) in Hp. lia. }
  pose proof (Nat.div_mod (n * 138) 100 ltac:(lia)) as Hdm.
  pose proof (Nat.mod_upper_bound (n * 138) 100 ltac:(lia)) as Hm.
  split; [|intros Hn]; apply H; unfold size; lia.
Qed.

(** The string for [z] zero bytes and a number with the digits [ds]. *)
Definition b58string (z : nat) (ds : list Z) : bytes := replicate z one_char ++ (b58char <$> ds).

Lemma base58_encode_spec b58sz data :
  Z.of_nat (length data) < 2 ^ 56 ->
  let z := count_leading is_nul data in
  exists ds, Forall is_digit ds /\ no_leading (Z.eqb 0) ds /\
    digits_val 58 0 ds = be_dec (drop z data) /\
    (length ds <= length (drop z data) * 138 / 100 + 1)%nat /\
    let s := b58string z ds in
    let n := Z.of_nat (length s) in
    base58_encode b58sz data =
      if b58sz <=? n then (false, n + 1, []) else (true, n + 1, s ++ [byte_zero]).
Proof.
  intros Hlen z. unfold base58_encode. fold z.
  destruct (count_leading_split is_nul data) as (_ & _ & _ & _ & _ & Hz). fold z in Hz.
  set (n := length (drop z data)). assert (length data - z = n)%nat as -> by (unfold n; by rewrite length_drop).
  assert (Z.of_nat n < 2 ^ 56) as Hn by (unfold n; rewrite length_drop; lia).
  rewrite (wrap_small 64 (Z.of_nat n * 138)) by (unfold urange; lia).
  assert (Z.of_nat n * 138 / 100 + 1 = Z.of_nat (n * 138 / 100 + 1)) as ->
    by (rewrite Nat2Z.inj_add, Nat2Z.inj_div, Nat2Z.inj_mul; done).
  rewrite (wrap_small 64).
  2:{ split; [lia|]. rewrite Nat2Z.inj_add, Nat2Z.inj_div, Nat2Z.inj_mul.
      pose proof (Z.div_le_upper_bound (Z.of_nat n * 138) 100 (2 ^ 58) ltac:(lia) ltac:(lia)). lia. }
  rewrite Nat2Z.id. set (size := (n * 138 / 100 + 1)%nat).
  destruct (size_enough n) as [Hs1 Hs2]. fold size in Hs1, Hs2.
  pose proof (encode_loop_spec size (drop z data) (replicate size 0) (size - 1)) as Hl. cbv zeta in Hl.
  assert (digits_val 58 0 (replicate size 0) = 0) as E0
    by (apply digits_val_zero, Forall_replicate; done).
  rewrite E0 in Hl. fold n in Hl.
  destruct (foldl _ _ _) as [buf hi]. destruct Hl as (L & D & V).
  - apply length_replicate.
  - unfold size. lia.
  - by apply Forall_replicate.
  - intros i _. rewrite nth_lookup. destruct (replicate size 0 !! i) as [x|] eqn:E; [|done].
    apply lookup_replicate in E as [-> _]. done.
  - lia.
  - intros Hne. assert (n <> 0)%nat as Hn0 by (unfold n; by destruct (drop z data)). specialize (Hs2 Hn0). lia.
  - rewrite <- be_dec_digits in V.
    destruct (count_leading_split (Z.eqb 0) buf) as (ds & Eb & Ed & Hall & Hno & Hle).
    set (j := count_leading (Z.eqb 0) buf) in *. exists ds.
    assert (length ds = size - j)%nat as Lds by (rewrite Ed, length_drop; lia).
    split_and!; [| |rewrite <- V, Eb, digits_val_app, (digits_val_zero 58 (take j buf)); [done|]|lia|].
    + rewrite Ed. by apply Forall_drop.
    + done.
    + apply (Forall_impl _ _ _ Hall). intros x Hx. apply Z.eqb_eq in Hx. lia.
    + cbv zeta. unfold b58string. rewrite length_app, length_replicate, length_fmap, Lds, <- Ed, app_assoc.
      rewrite Nat.add_sub_assoc by lia. done.
Qed.

(** ** Strings and numbers *)

#[local] Instance unsigned_inj : Inj (=) (=) byte.unsigned := byte.unsigned_inj.

Lemma be_dec_zeros k t : be_dec (zeros k ++ t) = be_dec t.
Proof.
  rewrite !be_dec_digits, fmap_app, digits_val_app, (digits_val_zero _ (byte.unsigned <$> zeros k)); [done|].
  by apply Forall_fmap, Forall_replicate.
Qed.

Lemma be_dec_canonical bin t :
  no_leading is_nul t -> be_dec bin = be_dec t ->
  count_leading is_nul bin = (length bin - length t)%nat /\ (length t <= length bin)%nat /\
  bin = zeros (length bin - length t) ++ t.
Proof.
  intros Ht E. destruct (leading_zeros bin) as (t' & Eb & _ & Ht').
  assert (forall l, no_leading is_nul l -> no_leading (Z.eqb 0) (byte.unsigned <$> l)) as Hnl.
  { intros [|b l]; [done|]. cbn [no_leading fmap list_fmap]. intros Hb. apply Z.eqb_neq. intros E0.
    assert (b = byte_zero) as -> by (by apply byte.unsigned_inj). done. }
  assert (be_dec bin = be_dec t') as E'.
  { rewrite Eb at 1. apply be_dec_zeros. }
  assert (t' = t) as ->.
  { apply (inj (fmap (M := list) byte.unsigned)). apply (digits_canonical 256);
      [lia|apply bytes_digits|apply bytes_digits|by apply Hnl|by apply Hnl|].
    rewrite <- !be_dec_digits. congruence. }
  set (k := count_leading is_nul bin) in *.
  assert (length bin = k + length t)%nat as Hl by (rewrite Eb at 1; unfold zeros; by rewrite length_app, length_replicate).
  split_and!; [lia|lia|]. rewrite Eb at 1. do 2 f_equal. lia.
Qed.

(** A number needs no more bytes than digits. *)
Lemma bytes_le_digits t ds :
  no_leading is_nul t -> Forall is_digit ds -> be_dec t = digits_val 58 0 ds -> (length t <= length ds)%nat.
Proof.
  intros Ht Hd E. destruct t as [|b t]; [cbn; lia|].
  pose proof (digits_val_range 58 ds ltac:(lia) Hd) as Hr. rewrite <- E, be_dec_digits in Hr.
  assert (byte.unsigned b <> 0) as Hb.
  { intros E0. assert (b = byte_zero) as -> by (by apply byte.unsigned_inj). done. }
  pose proof (digits_val_lower 256 (byte.unsigned b) (byte.unsigned <$> t) ltac:(lia)
    (bytes_digits (b :: t)) Hb) as Hl. rewrite length_fmap in Hl. rewrite fmap_cons in Hr.
  assert (58 ^ Z.of_nat (length ds) <= 256 ^ Z.of_nat (length ds)) by (apply Z.pow_le_mono_l; lia).
  assert (256 ^ Z.of_nat (length t) < 256 ^ Z.of_nat (length ds)) as Hlt by lia.
  apply Z.pow_lt_mono_r_iff in Hlt; cbn [length]; lia.
Qed.

Lemma b58string_zeros z ds :
  Forall is_digit ds -> no_leading (Z.eqb 0) ds ->
  count_leading is_one (b58string z ds) = z /\ b58digits (b58string z ds) = Some ds /\
  nul_free (b58string z ds) /\ length (b58string z ds) = (z + length ds)%nat.
Proof.
  intros Hd Hn. assert (count_leading is_one (b58string z ds) = z) as Hz.
  { unfold b58string. rewrite count_leading_app; [apply length_replicate|by apply Forall_replicate|].
    destruct ds as [|d ds]; [done|]. apply Forall_cons_1 in Hd as [Hd _]. cbn [fmap list_fmap no_leading] in *.
    destruct (b58char_spec d Hd) as [_ ->]. done. }
  split_and!; [done| | |unfold b58string; by rewrite length_app, length_replicate, length_fmap].
  - unfold b58digits. rewrite Hz. unfold b58string. rewrite drop_app_exact by apply length_replicate.
    apply mapM_Some_2, Forall2_fmap_l. clear Hn Hz. induction Hd; constructor; [by apply b58char_spec|done].
  - unfold nul_free, b58string. apply Forall_app. split; [by apply Forall_replicate|].
    apply Forall_fmap, (Forall_impl _ _ _ Hd). intros d Hdd. apply b58char_spec in Hdd as [H _].
    cbn. destruct (byte_eqb (b58char d) byte_zero) eqn:E; [|done].
    apply Byte.byte_dec_bl in E. by rewrite E in H.
Qed.

Lemma b58digits_string b58 ds :
  b58digits b58 = Some ds ->
  b58 = b58string (count_leading is_one b58) ds /\ Forall is_digit ds /\ no_leading (Z.eqb 0) ds.
Proof.
  unfold b58digits. destruct (count_leading_split is_one b58) as (r & E & Er & Hall & Hn & Hle).
  rewrite <- Er. intros Hm. pose proof (mapM_digits _ _ Hm) as Hd. apply mapM_Some_1 in Hm.
  assert (r = b58char <$> ds) as Erd.
  { clear -Hm. induction Hm as [|c d cs ds Hc _ IH]; [done|]. rewrite fmap_cons.
    apply b58digit_spec in Hc as [_ ->]. by f_equal. }
  split_and!; [|done|].
  - rewrite E at 1. unfold b58string. f_equal; [|done].
    rewrite <- (length_take_le b58 (count_leading is_one b58)) at 2 by done. symmetry.
    apply replicate_as_elem_of. split; [done|]. intros c Hc. rewrite Forall_forall in Hall.
    by apply Byte.byte_dec_bl, Hall.
  - destruct ds as [|d ds]; [done|]. rewrite Erd, fmap_cons in Hn. cbn [no_leading] in *.
    apply Forall_cons_1 in Hd as [Hd _]. by rewrite (proj2 (b58char_spec d Hd)) in Hn.
Qed.

Lemma decode_string binsz z ds t :
  (binsz <> 0)%nat -> Forall is_digit ds -> no_leading (Z.eqb 0) ds -> no_leading is_nul t ->
  be_dec t = digits_val 58 0 ds -> (length t <= capacity binsz)%nat -> (z + length t <= binsz)%nat ->
  exists bin, base58_decode binsz (b58string z ds) = Some (bin, z + length t)%nat /\ length bin = binsz /\
    drop (binsz - (z + length t)) bin = zeros z ++ t.
Proof.
  intros Hb Hd Hn Ht E Hcap Hlen. destruct (b58string_zeros z ds Hd Hn) as (Ez & Eds & _ & _).
  pose proof (base58_decode_spec binsz (b58string z ds) Hb) as Hs. cbv zeta in Hs. rewrite Ez, Eds in Hs.
  assert (digits_val 58 0 ds < 256 ^ Z.of_nat (capacity binsz)) as Hv.
  { rewrite <- E, be_dec_digits.
    pose proof (digits_val_range 256 (byte.unsigned <$> t) ltac:(lia) (bytes_digits t)) as Hr.
    rewrite length_fmap in Hr.
    assert (256 ^ Z.of_nat (length t) <= 256 ^ Z.of_nat (capacity binsz)) by (apply Z.pow_le_mono_r; lia). lia. }
  destruct (base58_decode binsz _) as [[bin n]|].
  - destruct Hs as (ds' & [= <-] & _ & Hl & Ev & Hz & ->). rewrite <- E in Ev.
    destruct (be_dec_canonical bin t Ht Ev) as (Ec & Hle & Ebin). rewrite Ec, Hl in *.
    exists bin. split_and!; [do 2 f_equal; lia|done|]. rewrite Ebin.
    replace (binsz - length t)%nat with ((binsz - (z + length t)) + z)%nat by lia.
    unfold zeros. rewrite replicate_add, <- app_assoc. by rewrite drop_app_exact by apply length_replicate.
  - destruct (Hs ds eq_refl) as [|(bin & Hl & Ev & Hlt)]; [lia|].
    rewrite <- E in Ev. destruct (be_dec_canonical bin t Ht Ev) as (Ec & Hle & _). lia.
Qed.

(** ** Checksums *)

(** The four bytes behind a payload. *)
Definition checksum (data : bytes) : bytes := take 4 (dogecoin_hash data).

Lemma checksum_length data : length (checksum data) = 4%nat.
Proof. unfold checksum. rewrite length_take. pose proof (dogecoin_hash_length data). lia. Qed.

(** The string of a payload. *)
Definition check_string (data s : bytes) : Prop :=
  exists ds, s = b58string (count_leading is_nul (data ++ checksum data)) ds /\
    Forall is_digit ds /\ no_leading (Z.eqb 0) ds /\
    digits_val 58 0 ds = be_dec (drop (count_leading is_nul (data ++ checksum data)) (data ++ checksum data)).

Lemma check_string_unique data s s' : check_string data s -> check_string data s' -> s = s'.
Proof.
  intros (ds & -> & Hd & Hn & E) (ds' & -> & Hd' & Hn' & E'). f_equal.
  apply (digits_canonical 58); [lia|done..|congruence].
Qed.

Lemma check_string_length data s :
  check_string data s -> (length data + 4 <= length s)%nat /\ nul_free s.
Proof.
  intros (ds & -> & Hd & Hn & E). destruct (b58string_zeros (count_leading is_nul (data ++ checksum data)) ds Hd Hn)
    as (_ & _ & Hnf & Hl). split; [|done].
  set (full := data ++ checksum data) in *. destruct (leading_zeros full) as (t & Ef & Et & Hnt).
  rewrite <- Et in E. pose proof (bytes_le_digits t ds Hnt Hd ltac:(congruence)).
  assert (length full = length data + 4)%nat as Hlf by (unfold full; by rewrite length_app, checksum_length).
  rewrite Ef, length_app in Hlf. unfold zeros in Hlf. rewrite length_replicate in Hlf. lia.
Qed.

Lemma encode_check_spec data :
  (length data <= 128)%nat ->
  exists s, check_string data s /\
    (length s <= (length data + 4) * 138 / 100 + 1)%nat /\
    forall strsize, base58_encode_check data strsize =
      if strsize <=? Z.of_nat (length s) then (0, [])
      else (Z.of_nat (length s) + 1, s ++ [byte_zero]).
Proof.
  intros Hl. assert (length (data ++ checksum data) = length data + 4)%nat as Hlf
    by by rewrite length_app, checksum_length.
  destruct (base58_encode_spec 0 (data ++ checksum data) ltac:(lia)) as (ds & Hd & Hn & E & Hsz & _).
  exists (b58string (count_leading is_nul (data ++ checksum data)) ds).
  split; [by exists ds|]. split.
  - destruct (b58string_zeros (count_leading is_nul (data ++ checksum data)) ds Hd Hn) as (_ & _ & _ & ->).
    destruct (count_leading_split is_nul (data ++ checksum data)) as (_ & _ & _ & _ & _ & Hz).
    set (z := count_leading is_nul (data ++ checksum data)) in *. clearbody z. rewrite length_drop, Hlf in *.
    set (n := (length data + 4)%nat) in *. clearbody n.
    pose proof (Nat.div_mod ((n - z) * 138) 100 ltac:(lia)). pose proof (Nat.div_mod (n * 138) 100 ltac:(lia)).
    pose proof (Nat.mod_upper_bound ((n - z) * 138) 100 ltac:(lia)).
    pose proof (Nat.mod_upper_bound (n * 138) 100 ltac:(lia)). lia.
  - intros strsize. unfold base58_encode_check. rewrite (proj2 (Nat.ltb_ge _ _)) by done.
    cbn [dogecoin_dblhash negb]. fold (checksum data).
    destruct (base58_encode_spec strsize (data ++ checksum data) ltac:(lia)) as (ds' & Hd' & Hn' & E' & _ & ->).
    assert (ds' = ds) as -> by (apply (digits_canonical 58); [lia|done..|congruence]).
    by destruct (_ <=? _).
Qed.

Lemma after_zeros_app z b t s r :
  is_nul b && is_one s = false ->
  after_zeros (zeros z ++ b :: t) (replicate z one_char ++ s :: r) = Some (b, s).
Proof. intros H. induction z as [|z IH]; [cbn; by rewrite H|exact IH]. Qed.

(** Room for the string and one more word is enough. *)
Lemma capacity_enough n : (n <= capacity (n + 4))%nat.
Proof.
  unfold capacity. pose proof (Nat.div_mod (n + 4 + 3) 4 ltac:(lia)).
  pose proof (Nat.mod_upper_bound (n + 4 + 3) 4 ltac:(lia)). lia.
Qed.

Lemma decode_check_spec data s datalen :
  check_string data s -> (length s <= 128)%nat -> (length s <= datalen)%nat ->
  Exists (fun b => b <> byte_zero) (data ++ checksum data) ->
  (length data + 4 <= capacity (Nat.min (length s + 4) datalen))%nat ->
  base58_decode_check s datalen =
    Some (length data + 4, data ++ checksum data ++ zeros (datalen - (length data + 4)))%nat.
Proof.
  intros Hs H128 Hdl Hnz Hcap. destruct (check_string_length data s Hs) as [Hls _].
  destruct Hs as (ds & -> & Hd & Hn & E). set (full := data ++ checksum data) in *.
  assert (length full = length data + 4)%nat as Hlf by (unfold full; by rewrite length_app, checksum_length).
  destruct (leading_zeros full) as (t & Ef & Et & Ht). set (z := count_leading is_nul full) in *.
  rewrite <- Et in E.
  assert (z + length t = length data + 4)%nat as Hzt.
  { rewrite <- Hlf. rewrite Ef at 1. unfold zeros. by rewrite length_app, length_replicate. }
  set (s := b58string z ds) in *. unfold base58_decode_check. rewrite (Nat.min_l (length s) 1024) by lia.
  rewrite (proj2 (Nat.ltb_ge _ _)), (proj2 (Nat.ltb_ge datalen _)) by lia. cbn [orb].
  set (binhint := Nat.min (length s + 4) datalen) in *. rewrite (take_ge s) by lia.
  assert (capacity binhint <= binhint)%nat as Hcb.
  { unfold capacity. pose proof (Nat.div_mod (binhint + 3) 4 ltac:(lia)). lia. }
  destruct (decode_string binhint z ds t) as (bin & Edec & Hlb & Ebin); [lia|done..|lia|lia|].
  fold s in Edec. rewrite Edec. cbv zeta. rewrite Hzt, <- Ef in Ebin. rewrite Hzt, Ebin. set (pad := zeros _).
  destruct t as [|b t].
  { exfalso. rewrite app_nil_r in Ef. rewrite Ef in Hnz. apply Exists_exists in Hnz as (x & Hx & Hne).
    by apply elem_of_replicate in Hx as [-> _]. }
  assert (exists c r, (b58char <$> ds) ++ [byte_zero] = c :: r /\ is_one c = false) as (c & r & Ec & Hc).
  { destruct ds as [|d ds]; [by exists byte_zero, []|]. eexists _, _. split; [done|].
    apply Forall_cons_1 in Hd as [Hd _]. rewrite (proj2 (b58char_spec d Hd)). exact Hn. }
  assert (is_nul b = false) as Hb by exact Ht.
  assert (after_zeros (full ++ pad) (s ++ [byte_zero]) = Some (b, c)) as Eaz.
  { rewrite Ef. unfold s, b58string. rewrite <- !app_assoc, Ec. cbn [app]. apply after_zeros_app. by rewrite Hb. }
  assert (b58check (full ++ pad) (length data + 4) s = Some (byte.unsigned (nth 0 (full ++ pad) byte_zero))) as ->.
  { unfold b58check. rewrite (proj2 (Nat.ltb_ge _ _)) by lia.
    replace (length data + 4 - 4)%nat with (length data) by lia. rewrite Eaz. cbn [mbind option_bind].
    rewrite Hb, Hc. unfold full. rewrite <- app_assoc, take_app_exact, drop_app_exact by done.
    cbn [dogecoin_dblhash negb]. fold (checksum data). rewrite take_app_exact by apply checksum_length.
    unfold bytes_eqb. rewrite bool_decide_eq_true_2 by done. done. }
  cbn [mbind option_bind]. pose proof (byte_range (nth 0 (full ++ pad) byte_zero)) as Hr. unfold urange in Hr.
  rewrite (proj2 (Z.ltb_ge _ _)) by lia. unfold full. by rewrite <- app_assoc.
Qed.

(** Every payload of up to 88 bytes has one string, which is printable and ends with its
    only NUL, is written whenever there is room for it, and is decoded to the payload, its
    checksum and zeros into every buffer that has room for the string and one more word.
    (The comparison of the leading zeros needs one byte that is not zero.) *)
Theorem base58check_round_trip data :
  (length data <= 88)%nat -> Exists (fun b => b <> byte_zero) (data ++ checksum data) ->
  exists s, nul_free s /\ (length s <= 128)%nat /\
    (forall strsize, base58_encode_check data strsize =
       if strsize <=? Z.of_nat (length s) then (0, [])
       else (Z.of_nat (length s) + 1, s ++ [byte_zero])) /\
    forall datalen, (length s + 4 <= datalen)%nat ->
      base58_decode_check s datalen =
        Some (length data + 4, data ++ checksum data ++ zeros (datalen - (length data + 4)))%nat.
Proof.
  intros Hl Hnz. destruct (encode_check_spec data ltac:(lia)) as (s & Hs & Hlen & Henc).
  assert (length s <= 128)%nat as H128.
  { etransitivity; [exact Hlen|]. pose proof (Nat.div_mod ((length data + 4) * 138) 100 ltac:(lia)). lia. }
  exists s. split_and!; [apply (check_string_length data s Hs)|done|done|].
  intros datalen Hd. apply decode_check_spec; [done|done|lia|done|].
  rewrite Nat.min_l by done. pose proof (capacity_enough (length s)).
  destruct (check_string_length data s Hs) as [Hls _]. lia.
Qed.

(** Only such strings are accepted: when a string decodes into a buffer, at least four
    bytes come out, the last four are the checksum of those before, the rest of the buffer
    is zero, and the string is the one the encoder writes for the payload. *)
Theorem base58check_sound s datalen n out :
  base58_decode_check s datalen = Some (n, out) -> n <> 0%nat ->
  exists data, n = (length data + 4)%nat /\ out = data ++ checksum data ++ zeros (datalen - n) /\
    (n <= datalen)%nat /\
    forall strsize, Z.of_nat (length s) < strsize ->
      base58_encode_check data strsize = (Z.of_nat (length s) + 1, s ++ [byte_zero]).
Proof.
  unfold base58_decode_check. set (strl := Nat.min (length s) 1024).
  destruct (Nat.ltb_spec 128 strl) as [|H128]; [by intros [= <- _]|].
  destruct (Nat.ltb_spec datalen strl) as [|Hdl]; [by intros [= <- _]|]. cbn [orb].
  assert (strl = length s) as E by lia. clearbody strl. subst strl. rewrite take_ge by lia.
  set (binhint := Nat.min (length s + 4) datalen).
  destruct (base58_decode binhint s) as [[bin k]|] eqn:Edec; [|by intros [= <- _]].
  assert (binhint <> 0%nat) as Hb0.
  { intros E0. unfold base58_decode in Edec. by rewrite E0 in Edec. }
  pose proof (base58_decode_spec binhint s Hb0) as Hs. rewrite Edec in Hs.
  destruct Hs as (ds & Hds & _ & Hlb & Ev & Hz & Ek).
  destruct (b58digits_string s ds Hds) as (Es & Hd & Hn).
  set (z := count_leading is_one s) in *. set (lz := count_leading is_nul bin) in *.
  destruct (leading_zeros bin) as (t & Ebin & Et & Hnt). fold lz in Ebin, Et.
  assert (lz + length t = binhint)%nat as Hlt.
  { rewrite <- Hlb, Ebin at 1. unfold zeros. rewrite length_app, length_replicate. done. }
  assert (drop (binhint - k) bin = zeros z ++ t) as Edrop.
  { rewrite Ebin. replace lz with ((binhint - k) + z)%nat by lia. unfold zeros.
    rewrite replicate_add, <- app_assoc. by rewrite drop_app_exact by apply length_replicate. }
  rewrite Edrop. set (full := zeros z ++ t).
  assert (length full = k) as Hlf by (unfold full, zeros; rewrite length_app, length_replicate; lia).
  destruct (b58check (full ++ zeros (datalen - k)) k s) as [r|] eqn:Ec; [|done]. cbn [mbind option_bind].
  intros [= Er <-] Hn0. destruct (Z.ltb_spec r 0) as [|Hr]; [done|]. subst n.
  revert Ec. unfold b58check. destruct (Nat.ltb_spec k 4) as [|Hk]; [intros [= <-]; lia|].
  rewrite take_app_le, (drop_app_le _ _ (k - 4)) by lia. cbn [dogecoin_dblhash negb].
  set (data := take (k - 4) full). fold (checksum data).
  rewrite (take_app_exact (drop (k - 4) full)) by (rewrite length_drop; lia).
  unfold bytes_eqb. destruct (bool_decide_reflect (drop (k - 4) full = checksum data)) as [Ecs|];
    [|intros [= <-]; lia].
  cbn [negb]. intros _. assert (data ++ checksum data = full) as Efull by (rewrite <- Ecs; apply take_drop).
  assert (length data = k - 4)%nat as Hld by (unfold data; rewrite length_take; lia).
  assert (check_string data s) as Hcs.
  { exists ds. rewrite Efull. assert (count_leading is_nul full = z) as ->.
    { unfold full, zeros. rewrite count_leading_app; [apply length_replicate|by apply Forall_replicate|done]. }
    split_and!; [done..|]. unfold full. rewrite drop_app_exact by apply length_replicate.
    rewrite <- Ev, Ebin. apply be_dec_zeros. }
  exists data. split; [lia|]. split; [by rewrite app_assoc, Efull|]. split; [lia|].
  intros strsize Hsz. destruct (check_string_length data s Hcs) as [Hls _].
  destruct (encode_check_spec data ltac:(lia)) as (s' & Hs' & _ & ->).
  rewrite (check_string_unique data s' s) by done. by rewrite (proj2 (Z.leb_gt _ _)).
Qed.

Lemma base58check_round_trip_witness :
  exists s, nul_free s /\ (length s <= 128)%nat /\
  base58_encode_check [Byte.x1e] 1000 = (Z.of_nat (length s) + 1, s ++ [byte_zero]) /\
  base58_decode_check s 200 = Some (5, [Byte.x1e] ++ checksum [Byte.x1e] ++ zeros 195)%nat.
Proof.
  destruct (base58check_round_trip [Byte.x1e]) as (s & Hn & Hl & He & Hd).
  - apply Nat.leb_le. reflexivity.
  - apply Exists_cons_hd. discriminate.
  - exists s. split; [exact Hn|]. split; [exact Hl|]. split.
    + rewrite He. destruct (Z.leb_spec 1000 (Z.of_nat (length s))) as [H|H]; [lia|reflexivity].
    + apply (Hd 200%nat). lia.
Defined.

Lemma base58check_sound_witness :
  exists s out data, base58_decode_check s 200 = Some (5%nat, out) /\
    out = data ++ checksum data ++ zeros 195 /\
    base58_encode_check data 1000 = (Z.of_nat (length s) + 1, s ++ [byte_zero]).
Proof.
  destruct (encode_check_spec [Byte.x1e] ltac:(cbn; lia)) as (s & Hs & Hl & _). cbn in Hl.
  assert (base58_decode_check s 200 = Some (5%nat, [Byte.x1e] ++ checksum [Byte.x1e] ++ zeros 195)) as E.
  { apply (decode_check_spec [Byte.x1e] s 200); [exact Hs|lia|lia|apply Exists_cons_hd; discriminate|].
    rewrite Nat.min_l by lia. pose proof (capacity_enough (length s)).
    destruct (check_string_length _ _ Hs) as [Hls _]. lia. }
  destruct (base58check_sound s 200 5 _ E ltac:(lia)) as (data & Hn & Eo & _ & Henc).
  exists s. eexists. exists data. split; [exact E|]. split; [exact Eo|]. apply Henc. lia.
Defined.

(** One word of the buffer is never used: a number that would fit is refused. *)
Example decode_needs_a_spare_word : base58_decode 4 [Byte.x32] = None.
Proof. reflexivity. Qed.
