(* ===== verification/Rmd160.v ===== *)
(** * RIPEMD-160 ([src/src/rmd160.c])

    The compression function, written in the source as 160 macro calls, against the tables of
    the published description, and the padding of the message. *)

From S2P Require Import Prelude Words Arith256.

Local Open Scope Z_scope.

(** ** The macros *)

Definition ROL (x n : Z) : Z := Z.lor (u32 (Z.shiftl x n)) (Z.shiftr x (32 - n)).
Definition not32 (x : Z) : Z := Z.lxor x 0xffffffff.

Definition F (x y z : Z) : Z := Z.lxor (Z.lxor x y) z.
Definition G (x y z : Z) : Z := Z.lor (Z.land x y) (Z.land (not32 x) z).
Definition H (x y z : Z) : Z := Z.lxor (Z.lor x (not32 y)) z.
Definition IQ (x y z : Z) : Z := Z.lor (Z.land x z) (Z.land y (not32 z)).
Definition J (x y z : Z) : Z := Z.lxor x (Z.lor y (not32 z)).

(** The arguments of a call: which of the five variables comes first - the others follow in
    their cyclic order -, the index of the word, the rotation. *)
Abbreviation row := (nat * nat * nat)%type.

(** The five variables after a call. *)
Definition step (f : Z -> Z -> Z -> Z) (k : Z) (X v : list Z) (r : row) : list Z :=
  let '(i, x, s) := r in
  let var n := nth ((i + n) mod 5) v 0 in
  let a := u32 (var 0%nat + u32 (u32 (f (var 1%nat) (var 2%nat) (var 3%nat) + nth x X 0) + k)) in
  let a := u32 (ROL a (Z.of_nat s) + var 4%nat) in
  <[((i + 2) mod 5)%nat := ROL (var 2%nat) 10]> (<[i := a]> v).

Definition FF := step F 0.
Definition GG := step G 0x5a827999.
Definition HH := step H 0x6ed9eba1.
Definition II := step IQ 0x8f1bbcdc.
Definition JJ := step J 0xa953fd4e.
Definition FFF := step F 0.
Definition GGG := step G 0x7a6d76e9.
Definition HHH := step H 0x6d703ef3.
Definition III := step IQ 0x5c4dd124.
Definition JJJ := step J 0x50a28be6.

(** round 1 *)
Definition round1 : list row :=
  [(0, 0, 11); (4, 1, 14); (3, 2, 15); (2, 3, 12); (1, 4, 5); (0, 5, 8); (4, 6, 7);
   (3, 7, 9); (2, 8, 11); (1, 9, 13); (0, 10, 14); (4, 11, 15); (3, 12, 6); (2, 13, 7);
   (1, 14, 9); (0, 15, 8)]%nat.

(** round 2 *)
Definition round2 : list row :=
  [(4, 7, 7); (3, 4, 6); (2, 13, 8); (1, 1, 13); (0, 10, 11); (4, 6, 9); (3, 15, 7);
   (2, 3, 15); (1, 12, 7); (0, 0, 12); (4, 9, 15); (3, 5, 9); (2, 2, 11); (1, 14, 7);
   (0, 11, 13); (4, 8, 12)]%nat.

(** round 3 *)
Definition round3 : list row :=
  [(3, 3, 11); (2, 10, 13); (1, 14, 6); (0, 4, 7); (4, 9, 14); (3, 15, 9); (2, 8, 13);
   (1, 1, 15); (0, 2, 14); (4, 7, 8); (3, 0, 13); (2, 6, 6); (1, 13, 5); (0, 11, 12);
   (4, 5, 7); (3, 12, 5)]%nat.

(** round 4 *)
Definition round4 : list row :=
  [(2, 1, 11); (1, 9, 12); (0, 11, 14); (4, 10, 15); (3, 0, 14); (2, 8, 15); (1, 12, 9);
   (0, 4, 8); (4, 13, 9); (3, 3, 14); (2, 7, 5); (1, 15, 6); (0, 14, 8); (4, 5, 6);
   (3, 6, 5); (2, 2, 12)]%nat.

(** round 5 *)
Definition round5 : list row :=
  [(1, 4, 9); (0, 0, 15); (4, 5, 5); (3, 9, 11); (2, 7, 6); (1, 12, 8); (0, 2, 13);
   (4, 10, 12); (3, 14, 5); (2, 1, 12); (1, 3, 13); (0, 8, 14); (4, 11, 11); (3, 6, 8);
   (2, 15, 5); (1, 13, 6)]%nat.

(** parallel round 1 *)
Definition parallel1 : list row :=
  [(0, 5, 8); (4, 14, 9); (3, 7, 9); (2, 0, 11); (1, 9, 13); (0, 2, 15); (4, 11, 15);
   (3, 4, 5); (2, 13, 7); (1, 6, 7); (0, 15, 8); (4, 8, 11); (3, 1, 14); (2, 10, 14);
   (1, 3, 12); (0, 12, 6)]%nat.

(** parallel round 2 *)
Definition parallel2 : list row :=
  [(4, 6, 9); (3, 11, 13); (2, 3, 15); (1, 7, 7); (0, 0, 12); (4, 13, 8); (3, 5, 9);
   (2, 10, 11); (1, 14, 7); (0, 15, 7); (4, 8, 12); (3, 12, 7); (2, 4, 6); (1, 9, 15);
   (0, 1, 13); (4, 2, 11)]%nat.

(** parallel round 3 *)
Definition parallel3 : list row :=
  [(3, 15, 9); (2, 5, 7); (1, 1, 15); (0, 3, 11); (4, 7, 8); (3, 14, 6); (2, 6, 6);
   (1, 9, 14); (0, 11, 12); (4, 8, 13); (3, 12, 5); (2, 2, 14); (1, 10, 13); (0, 0, 13);
   (4, 4, 7); (3, 13, 5)]%nat.

(** parallel round 4 *)
Definition parallel4 : list row :=
  [(2, 8, 15); (1, 6, 5); (0, 4, 8); (4, 1, 11); (3, 3, 14); (2, 11, 14); (1, 15, 6);
   (0, 0, 14); (4, 5, 6); (3, 12, 9); (2, 2, 12); (1, 13, 9); (0, 9, 12); (4, 7, 5);
   (3, 10, 15); (2, 14, 8)]%nat.

(** parallel round 5 *)
Definition parallel5 : list row :=
  [(1, 12, 8); (0, 15, 5); (4, 10, 12); (3, 4, 9); (2, 1, 12); (1, 5, 5); (0, 8, 14);
   (4, 7, 6); (3, 6, 8); (2, 2, 13); (1, 13, 6); (0, 14, 5); (4, 0, 15); (3, 3, 13);
   (2, 9, 11); (1, 11, 11)]%nat.

Definition compress (MDbuf X : list Z) : list Z :=
  let v := foldl (FF X) MDbuf round1 in
  let v := foldl (GG X) v round2 in
  let v := foldl (HH X) v round3 in
  let v := foldl (II X) v round4 in
  let v := foldl (JJ X) v round5 in
  let w := foldl (JJJ X) MDbuf parallel1 in
  let w := foldl (III X) w parallel2 in
  let w := foldl (HHH X) w parallel3 in
  let w := foldl (GGG X) w parallel4 in
  let w := foldl (FFF X) w parallel5 in
  let m n := nth n MDbuf 0 in
  let l n := nth n v 0 in
  let r n := nth n w 0 in
  [u32 (r 3%nat + u32 (l 2%nat + m 1%nat));
   u32 (u32 (m 2%nat + l 3%nat) + r 4%nat);
   u32 (u32 (m 3%nat + l 4%nat) + r 0%nat);
   u32 (u32 (m 4%nat + l 0%nat) + r 1%nat);
   u32 (u32 (m 0%nat + l 1%nat) + r 2%nat)].

(** ** The hash *)

Definition rmd_init : list Z := [0x67452301; 0xefcdab89; 0x98badcfe; 0x10325476; 0xc3d2e1f0].

(** [chunk\[i\] ^= w] *)
Definition xor_word (chunk : list Z) (i : nat) (w : Z) : list Z :=
  <[i := Z.lxor (nth i chunk 0) w]> chunk.

(** The words of the last chunk that come from the message and the bit behind it. *)
Definition last_chunk (msg : bytes) (msg_len : nat) : list Z :=
  let n := (msg_len mod 64)%nat in
  let tail := drop (msg_len - n) msg in
  let chunk := foldl (fun chunk i =>
      xor_word chunk (i / 4) (u32 (Z.shiftl (byte.unsigned (nth i tail byte_zero)) (8 * Z.of_nat (i mod 4)))))
    (replicate 16 0) (seq 0 n) in
  xor_word chunk ((msg_len / 4) mod 16) (u32 (Z.shiftl 1 (8 * Z.of_nat (msg_len mod 4) + 7))).

(** [msg] has at least [msg_len] bytes. *)
Definition rmd160 (msg : bytes) (msg_len : nat) : bytes :=
  let digest := foldl (fun digest i => compress digest (words_of 16 (drop (64 * i) msg)))
                  rmd_init (seq 0 (msg_len / 64)) in
  let chunk := last_chunk msg msg_len in
  let '(digest, chunk) := if (55 <? msg_len mod 64)%nat
                          then (compress digest chunk, replicate 16 0) else (digest, chunk) in
  let chunk := <[14%nat := u32 (Z.shiftl (Z.of_nat msg_len) 3)]> chunk in
  let chunk := <[15%nat := Z.shiftr (Z.of_nat msg_len) 29]> chunk in
  concat (le_enc 4 <$> compress digest chunk).

(** ** The published description *)

(** Words are selected by powers of a permutation, on the right behind another one; a word
    is rotated by the same number in both lines. *)
Definition rho : list nat := [7; 4; 13; 1; 10; 6; 15; 3; 12; 0; 9; 5; 2; 14; 11; 8]%nat.
Definition rmd_word (line : bool) (j : nat) : nat :=
  Nat.iter (j / 16) (fun i => nth i rho 0%nat)
    (let i := (j mod 16)%nat in if line then ((9 * i + 5) mod 16)%nat else i).

Definition rmd_shifts : list (list nat) :=
  [[11; 14; 15; 12; 5; 8; 7; 9; 11; 13; 14; 15; 6; 7; 9; 8];
   [12; 13; 11; 15; 6; 9; 9; 7; 12; 15; 11; 13; 7; 8; 7; 7];
   [13; 15; 14; 11; 7; 7; 6; 8; 13; 14; 13; 12; 5; 5; 6; 9];
   [14; 11; 12; 14; 8; 6; 5; 5; 15; 12; 15; 14; 9; 9; 8; 6];
   [15; 12; 13; 13; 9; 5; 8; 6; 14; 11; 12; 11; 8; 6; 5; 5]]%nat.
Definition rmd_shift (line : bool) (j : nat) : nat :=
  nth (rmd_word line j) (nth (j / 16) rmd_shifts []) 0%nat.

Definition rmd_function (line : bool) (j : nat) : Z -> Z -> Z -> Z :=
  nth (if line then 4 - j / 16 else j / 16)%nat [F; G; H; IQ; J] F.

(** The square roots of 2, 3, 5 and 7 on the left, their cube roots on the right, times 2^30. *)
Definition rmd_constant (line : bool) (j : nat) : Z :=
  if line then nth (j / 16) [0x50a28be6; 0x5c4dd124; 0x6d703ef3; 0x7a6d76e9; 0] 0
  else nth (j / 16) (0 :: ((fun p => Z.sqrt (p * 2 ^ 60)) <$> [2; 3; 5; 7])) 0.

Abbreviation vars := (Z * Z * Z * Z * Z)%type.

Definition rmd_step (line : bool) (X : list Z) (v : vars) (j : nat) : vars :=
  let '(A, B, C, D, E) := v in
  let T := u32 (ROL (u32 (A + rmd_function line j B C D + nth (rmd_word line j) X 0 +
                            rmd_constant line j)) (Z.of_nat (rmd_shift line j)) + E) in
  (E, T, B, ROL C 10, D).

Definition rmd_line (line : bool) (X : list Z) (v : vars) : vars :=
  foldl (rmd_step line X) v (seq 0 80).

Definition rmd_compress (h : vars) (X : list Z) : vars :=
  let '(h0, h1, h2, h3, h4) := h in
  let '(A, B, C, D, E) := rmd_line false X h in
  let '(A', B', C', D', E') := rmd_line true X h in
  (u32 (h1 + C + D'), u32 (h2 + D + E'), u32 (h3 + E + A'), u32 (h4 + A + B'), u32 (h0 + B + C')).

(** A one bit, zeros up to eight bytes less than a whole block, the length in bits. *)
Definition rmd_pad (msg : bytes) : bytes :=
  let z := ((119 - length msg mod 64) mod 64)%nat in
  msg ++ [Byte.x80] ++ zeros z ++ le_enc 8 (8 * Z.of_nat (length msg)).

Definition to_vars (l : list Z) : vars := (nth 0 l 0, nth 1 l 0, nth 2 l 0, nth 3 l 0, nth 4 l 0).
Definition of_vars (v : vars) : list Z := let '(a, b, c, d, e) := v in [a; b; c; d; e].

Definition RIPEMD160 (msg : bytes) : bytes :=
  let p := rmd_pad msg in
  concat (le_enc 4 <$> of_vars (foldl (fun h b => rmd_compress h (words_of 16 b)) (to_vars rmd_init)
                                  (chunks 64 (length p / 64) p))).

Example rmd160_empty : rmd160 [] 0 =
  [Byte.x9c; Byte.x11; Byte.x85; Byte.xa5; Byte.xc5; Byte.xe9; Byte.xfc; Byte.x54; Byte.x61; Byte.x28;
   Byte.x08; Byte.x97; Byte.x7e; Byte.xe8; Byte.xf5; Byte.x48; Byte.xb2; Byte.x25; Byte.x8d; Byte.x31].
Proof. vm_compute. reflexivity. Qed.

(** ** The compression function *)

Section run.
Context (X : list Z).

Abbreviation call := ((Z -> Z -> Z -> Z) * Z * row)%type.

Definition tagged (f : Z -> Z -> Z -> Z) (k : Z) (rows : list row) : list call :=
  (fun r => (f, k, r)) <$> rows.

Definition run (v : list Z) (calls : list call) : list Z :=
  foldl (fun v '(f, k, r) => step f k X v r) v calls.

Lemma run_tagged f k v rows : foldl (step f k X) v rows = run v (tagged f k rows).
Proof. revert v. induction rows as [|r rows IH]; intros v; [done|apply IH]. Qed.

Lemma run_app v a b : run (run v a) b = run v (a ++ b).
Proof. symmetry. apply foldl_app. Qed.

(** The call of turn [j]. *)
Definition rmd_call (line : bool) (j : nat) : call :=
  (rmd_function line j, rmd_constant line j, (((5 - j mod 5) mod 5)%nat, rmd_word line j, rmd_shift line j)).

Lemma left_calls :
  tagged F 0 round1 ++ tagged G 0x5a827999 round2 ++ tagged H 0x6ed9eba1 round3 ++
  tagged IQ 0x8f1bbcdc round4 ++ tagged J 0xa953fd4e round5 = rmd_call false <$> seq 0 80.
Proof. vm_compute. reflexivity. Qed.

Lemma right_calls :
  tagged J 0x50a28be6 parallel1 ++ tagged IQ 0x5c4dd124 parallel2 ++ tagged H 0x6d703ef3 parallel3 ++
  tagged G 0x7a6d76e9 parallel4 ++ tagged F 0 parallel5 = rmd_call true <$> seq 0 80.
Proof. vm_compute. reflexivity. Qed.

(** The variables in the order a call names them. *)
Definition vars_from (i : nat) (v : list Z) : vars :=
  let var n := nth ((i + n) mod 5) v 0 in (var 0%nat, var 1%nat, var 2%nat, var 3%nat, var 4%nat).

Lemma u32_sum a b c d : u32 (a + u32 (u32 (b + c) + d)) = u32 (a + b + c + d).
Proof. rewrite wrap_add_r, Z.add_assoc, (Z.add_comm a), <- Z.add_assoc, wrap_add_l. f_equal. lia. Qed.

Lemma step_vars line j v :
  length v = 5%nat ->
  let '(f, k, r) := rmd_call line j in
  length (step f k X v r) = 5%nat /\
  vars_from ((5 - S j mod 5) mod 5) (step f k X v r) =
  rmd_step line X (vars_from ((5 - j mod 5) mod 5) v) j.
Proof.
  intros Hv. destruct v as [|a [|b [|c [|d [|e []]]]]]; try done. unfold rmd_call, step. split.
  { by rewrite !length_insert. }
  pose proof (Nat.mod_upper_bound j 5 ltac:(lia)) as Hm.
  assert (S j mod 5 = (j mod 5 + 1) mod 5)%nat as -> by (rewrite <- Nat.add_1_r; by rewrite Nat.Div0.add_mod_idemp_l).
  unfold rmd_step, vars_from. rewrite !u32_sum.
  generalize (rmd_function line j) (rmd_constant line j) (nth (rmd_word line j) X 0) (rmd_shift line j).
  destruct (j mod 5)%nat as [|[|[|[|[|]]]]]; [..|lia]; intros; reflexivity.
Qed.

Lemma run_vars line n j v :
  length v = 5%nat ->
  length (run v (rmd_call line <$> seq j n)) = 5%nat /\
  vars_from ((5 - (j + n) mod 5) mod 5) (run v (rmd_call line <$> seq j n)) =
  foldl (rmd_step line X) (vars_from ((5 - j mod 5) mod 5) v) (seq j n).
Proof.
  revert j v. induction n as [|n IH]; intros j v Hv; cbn [seq fmap list_fmap run foldl].
  { by rewrite Nat.add_0_r. }
  pose proof (step_vars line j v Hv) as Hs. destruct (rmd_call line j) as [[f k] r]. destruct Hs as [Hl Hs].
  rewrite <- Hs. specialize (IH (S j) _ Hl). rewrite <- Nat.add_succ_comm. exact IH.
Qed.

Lemma line_vars line v :
  length v = 5%nat -> to_vars (run v (rmd_call line <$> seq 0 80)) = rmd_line line X (to_vars v).
Proof. intros Hv. exact (proj2 (run_vars line 80 0 v Hv)). Qed.
End run.

Lemma of_to_vars v : length v = 5%nat -> of_vars (to_vars v) = v.
Proof. intros Hv. by destruct v as [|a [|b [|c [|d [|e []]]]]]. Qed.

Lemma compress_spec h X :
  length h = 5%nat -> compress h X = of_vars (rmd_compress (to_vars h) X).
Proof.
  intros Hh. unfold compress, FF, GG, HH, II, JJ, FFF, GGG, HHH, III, JJJ.
  rewrite !run_tagged, !run_app, left_calls, right_calls.
  pose proof (line_vars X false h Hh) as Hl. pose proof (line_vars X true h Hh) as Hr.
  unfold rmd_compress. rewrite <- Hl, <- Hr. clear Hl Hr.
  generalize (run X h (rmd_call false <$> seq 0 80)) (run X h (rmd_call true <$> seq 0 80)).
  intros l r. unfold to_vars. cbn [of_vars]. rewrite !wrap_add_l, wrap_add_r.
  do 2 f_equal. lia.
Qed.

(** ** Padding *)

(** A zero byte of the message is filled by an exclusive or with its word. *)
Lemma le_dec_fill l i b :
  length l = 4%nat -> (i < 4)%nat -> nth i l byte_zero = byte_zero ->
  Z.lxor (le_dec l) (u32 (Z.shiftl (byte.unsigned b) (8 * Z.of_nat i))) = le_dec (<[i := b]> l).
Proof.
  intros Hl Hi Hz. assert (u32 (Z.shiftl (byte.unsigned b) (8 * Z.of_nat i)) =
    le_dec (zeros i ++ [b] ++ zeros (3 - i))) as ->.
  { rewrite app_assoc, le_dec_pad, <- le_dec_shiftl, le_dec_1. apply wrap_small.
    rewrite Z.shiftl_mul_pow2 by lia. pose proof (byte_range b) as Hb. unfold urange in *.
    split; [apply Z.mul_nonneg_nonneg; lia|].
    assert (2 ^ (8 * Z.of_nat i) <= 2 ^ 24) by (apply Z.pow_le_mono_r; lia). nia. }
  rewrite (le_dec_bitwise _ xorb); [|apply Z.lxor_spec|done|].
  2:{ unfold zeros. rewrite !length_app, !length_replicate. cbn. lia. }
  f_equal. destruct (length_4_inv l Hl) as (p & q & r & s & ->).
  destruct i as [|[|[|[|]]]]; [..|lia]; cbn in Hz; subst; cbn [zeros replicate app Nat.sub zip_with insert list_insert];
    rewrite ?Z.lxor_0_l, ?Z.lxor_0_r; change (byte.unsigned byte_zero) with 0;
    rewrite ?Z.lxor_0_l, ?Z.lxor_0_r, ?byte.of_Z_unsigned; done.
Qed.

Lemma xor_word_bytes n l i b :
  length l = (4 * n)%nat -> (i < length l)%nat -> nth i l byte_zero = byte_zero ->
  xor_word (words_of n l) (i / 4) (u32 (Z.shiftl (byte.unsigned b) (8 * Z.of_nat (i mod 4)))) =
  words_of n (<[i := b]> l).
Proof.
  revert l i. induction n as [|n IH]; intros l i Hl Hi Hz; [lia|]. cbn [words_of].
  destruct (Nat.lt_ge_cases i 4) as [H4|H4].
  - rewrite Nat.div_small, Nat.mod_small by done. unfold xor_word. cbn [nth insert list_insert].
    rewrite take_insert_lt, drop_insert_lt by lia. f_equal. apply le_dec_fill; [rewrite length_take; lia|done|].
    by rewrite nth_lookup, lookup_take_lt, <- nth_lookup by lia.
  - replace i with (4 + (i - 4))%nat in * by lia. set (k := (i - 4)%nat) in *.
    replace (4 + k)%nat with (k + 1 * 4)%nat by lia. rewrite Nat.div_add, Nat.Div0.mod_add by lia.
    rewrite Nat.add_1_r. rewrite take_insert_ge, drop_insert_ge by lia.
    replace (k + 1 * 4 - 4)%nat with k by lia. rewrite <- IH.
    + done.
    + rewrite length_drop. lia.
    + rewrite length_drop. lia.
    + by rewrite nth_lookup, lookup_drop, <- nth_lookup.
Qed.

Lemma last_chunk_spec msg tail n :
  length msg = (64 * n + length tail)%nat -> drop (64 * n) msg = tail -> (length tail < 64)%nat ->
  last_chunk msg (length msg) = words_of 16 (tail ++ [Byte.x80] ++ zeros (63 - length tail)).
Proof.
  intros Hl Ht Hlt. set (m := length tail) in *.
  assert (length msg mod 64 = m)%nat as Hm.
  { rewrite Hl, Nat.add_comm, (Nat.mul_comm 64), Nat.Div0.mod_add. by apply Nat.mod_small. }
  unfold last_chunk. rewrite Hm. replace (length msg - m)%nat with (64 * n)%nat by lia. rewrite Ht.
  assert (forall k, (k <= m)%nat ->
    foldl (fun chunk i => xor_word chunk (i / 4)
        (u32 (Z.shiftl (byte.unsigned (nth i tail byte_zero)) (8 * Z.of_nat (i mod 4)))))
      (replicate 16 0) (seq 0 k) = words_of 16 (take k tail ++ zeros (64 - k))) as Hloop.
  { induction k as [|k IH]; intros Hk; [by vm_compute|].
    rewrite seq_S, foldl_app, IH by lia. cbn [foldl]. rewrite Nat.add_0_l.
    destruct (lookup_lt_is_Some_2 tail k ltac:(fold m; lia)) as [b Hb].
    assert (length (take k tail) = k) as Hlk by (rewrite length_take; fold m; lia).
    rewrite xor_word_bytes.
    - f_equal. rewrite (take_S_r _ _ _ Hb), insert_app_r_alt by lia. rewrite Hlk, Nat.sub_diag.
      replace (64 - k)%nat with (S (64 - S k))%nat by lia. cbn [zeros replicate insert list_insert].
      rewrite <- app_assoc. by rewrite nth_lookup, Hb.
    - unfold zeros. rewrite length_app, length_replicate. lia.
    - unfold zeros. rewrite length_app, length_replicate. lia.
    - rewrite nth_lookup, lookup_app_r by lia. rewrite Hlk, Nat.sub_diag.
      by replace (64 - k)%nat with (S (63 - k))%nat by lia. }
  rewrite Hloop, take_ge by (fold m; lia).
  replace (u32 (Z.shiftl 1 (8 * Z.of_nat (length msg mod 4) + 7)))
    with (u32 (Z.shiftl (byte.unsigned Byte.x80) (8 * Z.of_nat (m mod 4)))).
  2:{ change (byte.unsigned Byte.x80) with (Z.shiftl 1 7). rewrite Z.shiftl_shiftl by lia.
      do 2 f_equal. rewrite Hl. replace (64 * n + m)%nat with (m + (16 * n) * 4)%nat by lia.
      rewrite Nat.Div0.mod_add. lia. }
  replace ((length msg / 4) mod 16)%nat with (m / 4)%nat.
  2:{ rewrite Hl. replace (64 * n + m)%nat with (m + (16 * n) * 4)%nat by lia. rewrite Nat.div_add by lia.
      rewrite (Nat.mul_comm 16), Nat.Div0.mod_add, Nat.mod_small; [done|]. apply Nat.Div0.div_lt_upper_bound. lia. }
  rewrite xor_word_bytes.
  - f_equal. rewrite insert_app_r_alt by (fold m; lia). fold m. rewrite Nat.sub_diag.
    by replace (64 - m)%nat with (S (63 - m))%nat by lia.
  - unfold zeros. rewrite length_app, length_replicate. fold m. lia.
  - unfold zeros. rewrite length_app, length_replicate. fold m. lia.
  - rewrite nth_lookup, lookup_app_r by (fold m; lia). fold m. rewrite Nat.sub_diag.
    by replace (64 - m)%nat with (S (63 - m))%nat by lia.
Qed.

(** ** The hash *)

Lemma compress_length h X : length (compress h X) = 5%nat.
Proof. done. Qed.

#[local] Opaque compress rmd_compress.

Lemma words_of_app a b p q :
  length p = (4 * a)%nat -> words_of (a + b) (p ++ q) = words_of a p ++ words_of b q.
Proof.
  revert p. induction a as [|a IH]; intros p Hp; [by destruct p|]. cbn [Nat.add words_of app].
  rewrite take_app_le, drop_app_le, IH by (rewrite ?length_drop; lia). done.
Qed.

Lemma words_of_take n l : words_of n (take (4 * n) l) = words_of n l.
Proof.
  revert l. induction n as [|n IH]; intros l; [done|]. cbn [words_of].
  rewrite take_take, Nat.min_l by lia. f_equal. rewrite <- IH, <- (IH (drop 4 l)). f_equal.
  rewrite skipn_firstn_comm, take_take. f_equal. lia.
Qed.

Lemma words_of_length n l : length (words_of n l) = n.
Proof. revert l. induction n as [|n IH]; intros l; [done|]. cbn. by rewrite IH. Qed.

(** The length behind the padding. *)
Lemma put_length p len :
  length p = 56%nat -> 0 <= len < 2 ^ 32 -> forall q,
  <[15%nat := Z.shiftr len 29]> (<[14%nat := u32 (Z.shiftl len 3)]> (words_of 14 p ++ words_of 2 q)) =
  words_of 16 (p ++ le_enc 8 (8 * len)).
Proof.
  intros Hp Hlen q. rewrite (words_of_app 14 2) by done.
  rewrite (insert_app_r_alt _ _ 14) by (rewrite words_of_length; lia).
  rewrite (insert_app_r_alt _ _ 15) by (rewrite words_of_length; lia).
  rewrite !words_of_length. f_equal. cbn [words_of insert list_insert Nat.sub].
  change 8%nat with (4 + 4)%nat. rewrite le_enc_add, take_app_exact, drop_app_exact by apply le_enc_length.
  rewrite (take_ge (le_enc 4 _)) by (rewrite le_enc_length; lia). rewrite !le_dec_enc. f_equal; [|f_equal].
  - rewrite Z.shiftl_mul_pow2 by lia. change (8 * Z.of_nat 4) with 32. f_equal. lia.
  - change (8 * Z.of_nat 4) with 32. change 8 with (2 ^ 3) at 1. rewrite Z.mul_comm, <- Z.shiftl_mul_pow2 by lia.
    rewrite Z.shiftr_shiftl_r by lia. rewrite wrap_small; [done|]. rewrite Z.shiftr_div_pow2 by lia.
    split; [apply Z.div_pos; lia|apply Z.div_lt_upper_bound; lia].
Qed.

Lemma to_of_vars v : to_vars (of_vars v) = v.
Proof. by destruct v as [[[[a b] c] d] e]. Qed.

Lemma of_vars_length v : length (of_vars v) = 5%nat.
Proof. by destruct v as [[[[a b] c] d] e]. Qed.

Lemma compress_blocks blocks h :
  foldl (fun digest b => compress digest (words_of 16 b)) (of_vars h) blocks =
  of_vars (foldl (fun h b => rmd_compress h (words_of 16 b)) h blocks).
Proof.
  revert h. induction blocks as [|b blocks IH]; intros h; [done|]. cbn [foldl].
  rewrite compress_spec, to_of_vars by apply of_vars_length. apply IH.
Qed.

Lemma message_blocks msg n h :
  foldl (fun digest i => compress digest (words_of 16 (drop (64 * i) msg))) h (seq 0 n) =
  foldl (fun digest b => compress digest (words_of 16 b)) h (chunks 64 n msg).
Proof.
  unfold chunks. revert h. induction (seq 0 n) as [|i l IH]; intros h; [done|].
  rewrite fmap_cons. cbn [foldl]. pose proof (words_of_take 16 (drop (64 * i) msg)) as E.
  change (4 * 16)%nat with 64%nat in E. by rewrite E, IH.
Qed.

(** The padded message in blocks. *)
Lemma padded_blocks msg n tail last :
  length msg = (64 * n + length tail)%nat -> drop (64 * n) msg = tail ->
  Forall (fun b => length b = 64%nat) last -> tail ++ drop (length msg) (rmd_pad msg) = concat last ->
  chunks 64 (length (rmd_pad msg) / 64) (rmd_pad msg) = chunks 64 n msg ++ last.
Proof.
  intros Hl Ht Hlast E.
  assert (rmd_pad msg = concat (chunks 64 n msg ++ last)) as Ep.
  { rewrite concat_app, concat_chunks, <- E, <- Ht, app_assoc, take_drop. unfold rmd_pad.
    by rewrite drop_app_exact. }
  assert (Forall (fun b => length b = 64%nat) (chunks 64 n msg ++ last)) as Hall.
  { apply Forall_app. split; [apply chunks_all; lia|done]. }
  rewrite Ep. rewrite (length_concat_const 64) by by apply Forall_forall.
  rewrite Nat.div_mul by lia. by apply chunks_concat.
Qed.

(** C28: For every message of less than 2^32 bytes the function computes RIPEMD-160: the 160
    calls on rotating variables are the two lines of 80 steps of the description, and the
    last one or two blocks are the rest of the message, a one bit, zeros and the length. *)
Theorem rmd160_correct msg :
  Z.of_nat (length msg) < 2 ^ 32 -> rmd160 msg (length msg) = RIPEMD160 msg.
Proof.
  intros Hlen. set (n := (length msg / 64)%nat). set (m := (length msg mod 64)%nat).
  pose proof (Nat.div_mod (length msg) 64 ltac:(lia)) as Hdm. pose proof (Nat.mod_upper_bound (length msg) 64 ltac:(lia)) as Hm.
  fold n m in Hdm, Hm. set (tail := drop (64 * n) msg).
  assert (length tail = m) as Htl by (unfold tail; rewrite length_drop; lia).
  unfold rmd160, RIPEMD160. fold n m. cbv zeta.
  rewrite (last_chunk_spec msg tail n) by (done || lia). rewrite Htl, message_blocks, <- compress_blocks.
  change (of_vars (to_vars rmd_init)) with rmd_init.
  set (h := foldl _ rmd_init (chunks 64 n msg)). set (len := Z.of_nat (length msg)).
  assert (0 <= len < 2 ^ 32) as Hr by lia. set (len8 := le_enc 8 (8 * len)).
  assert (length len8 = 8%nat) as Hl8 by apply le_enc_length.
  assert (drop (length msg) (rmd_pad msg) = [Byte.x80] ++ zeros ((119 - m) mod 64) ++ len8) as Epad
    by (unfold rmd_pad; by rewrite drop_app_exact).
  destruct (Nat.ltb_spec 55 m) as [H55|H55].
  - rewrite (padded_blocks msg n tail [tail ++ [Byte.x80] ++ zeros (63 - m); zeros 56 ++ len8]); [|lia|done| |].
    + rewrite foldl_app. fold h. cbn [foldl].
      assert (replicate 16 0 = words_of 14 (zeros 56) ++ words_of 2 (zeros 8)) as -> by reflexivity.
      by rewrite put_length.
    + rewrite !Forall_cons. unfold zeros. rewrite !length_app, !length_replicate, Hl8, Htl. cbn [length]. split_and!; [lia|lia|constructor].
    + rewrite Epad, Nat.mod_small by lia. cbn [concat]. rewrite app_nil_r, <- !app_assoc.
      do 2 f_equal. unfold zeros. rewrite app_assoc, <- replicate_add. do 2 f_equal. lia.
  - rewrite (padded_blocks msg n tail [tail ++ [Byte.x80] ++ zeros (55 - m) ++ len8]); [|lia|done| |].
    + rewrite foldl_app. fold h. cbn [foldl].
      replace (zeros (63 - m)) with (zeros (55 - m) ++ zeros 8)
        by (unfold zeros; rewrite <- replicate_add; f_equal; lia).
      assert (length (tail ++ [Byte.x80] ++ zeros (55 - m)) = 56%nat) as H56
        by (unfold zeros; rewrite !length_app, length_replicate, Htl; cbn [length]; lia).
      replace (tail ++ [Byte.x80] ++ zeros (55 - m) ++ zeros 8)
        with ((tail ++ [Byte.x80] ++ zeros (55 - m)) ++ zeros 8) by by rewrite <- !app_assoc.
      replace (tail ++ [Byte.x80] ++ zeros (55 - m) ++ len8)
        with ((tail ++ [Byte.x80] ++ zeros (55 - m)) ++ len8) by by rewrite <- !app_assoc.
      rewrite (words_of_app 14 2) by done. by rewrite put_length.
    + rewrite Forall_cons. unfold zeros. rewrite !length_app, length_replicate, Hl8, Htl. cbn [length]. split; [lia|constructor].
    + rewrite Epad. replace (119 - m)%nat with (55 - m + 1 * 64)%nat by lia.
      rewrite Nat.Div0.mod_add, Nat.mod_small by lia. cbn [concat]. by rewrite app_nil_r.
Qed.

Lemma rmd160_correct_witness : rmd160 [Byte.x61; Byte.x62; Byte.x63] 3 = RIPEMD160 [Byte.x61; Byte.x62; Byte.x63].
Proof. apply (rmd160_correct [Byte.x61; Byte.x62; Byte.x63]). reflexivity. Defined.

Lemma rmd160_length msg n : length (rmd160 msg n) = 20%nat.
Proof.
  assert (forall h X, length (concat (le_enc 4 <$> compress h X)) = 20%nat) as H20.
  { intros h X. rewrite (length_concat_const 4).
    - by rewrite length_fmap, compress_length.
    - intros l (w & -> & _)%list_elem_of_fmap. apply le_enc_length. }
  unfold rmd160. cbv zeta. destruct (55 <? _)%nat; apply H20.
Qed.
