(* ===== verification/Address.v ===== *)
(** * Addresses and exported keys ([src/src/base58.c], [src/src/key.c], [src/src/address.c],
    [src/src/tx.c], [src/src/script.c])

    What is built on base 58 with a checksum: addresses of public keys and scripts, the
    wallet import format, and the outputs that pay to an address. *)

From S2P Require Import Prelude Words Mem Sha256 Arith256 Base58 Rmd160 Utils Script Tx.

Local Open Scope Z_scope.

#[local] Opaque dogecoin_hash sha256_raw rmd160 base58_encode_check base58_decode_check.

(** The prefixes among the parameters of a chain. *)
Record b58prefixes := mk_prefixes {
  pubkey_address : Z;
  script_address : Z;
  secret_address : Z;
}.

(** ** Addresses *)

(** The result and what is written to [addrout]. *)
Definition p2pkh_addr_from_hash160 (hashin : bytes) (chain : b58prefixes) (len : Z) : bool * bytes :=
  let '(r, s) := base58_encode_check (byte.of_Z (pubkey_address chain) :: take 20 hashin) len in
  (0 <? r, s).

Definition p2sh_addr_from_hash160 (hashin : bytes) (chain : b58prefixes) (len : Z) : bool * bytes :=
  let '(r, s) := base58_encode_check (byte.of_Z (script_address chain) :: take 20 hashin) len in
  (0 <? r, s).

Definition pubkey_get_hash160 (pk : pubkey) : bytes :=
  rmd160 (hash_sngl_sha256 (take (pubkey_len pk) (pk_bytes pk))) 32.

Definition pubkey_getaddr_p2pkh (pk : pubkey) (chain : b58prefixes) : bool * bytes :=
  let '(_, s) := base58_encode_check
                   (byte.of_Z (pubkey_address chain) :: take 20 (pubkey_get_hash160 pk)) 100 in
  (true, s).

(** [None]: NULL. *)
Definition script_get_scripthash (script_in : option bytes) : bool * bytes :=
  match script_in with
  | None => (false, [])
  | Some s => (true, rmd160 (hash_sngl_sha256 s) 32)
  end.

(** [len]: the length of the address; [None]: the bytes of a buffer that is too short are
    read. *)
Definition verifyP2pkhAddress (p2pkh_pubkey : bytes) (len : nat) : option bool :=
  if (len =? 0)%nat then Some false
  else
    '(r, dec) ← base58_decode_check p2pkh_pubkey len;
    if (r =? 0)%nat then Some false
    else if (len <? 25)%nat then None
    else
      let d2 := sha256_raw (sha256_raw (take 21 dec)) in
      Some (bytes_eqb (take 4 (drop 21 dec)) (take 4 d2)).

Definition P2PKHLEN : nat := 35.

(** The hexadecimal script of an address; [%.40s] stops after forty characters. *)
Definition p2pkh_address_to_pubkey_hash (p2pkh : bytes) : option (bool * bytes) :=
  '(decoded_length, dec) ← base58_decode_check p2pkh P2PKHLEN;
  if (decoded_length =? 0)%nat then Some (false, [])
  else
    hex ← utils_uint8_to_hex (take (decoded_length - 4) dec);
    Some (true, concat (hex_byte <$> [Byte.x76; Byte.xa9; Byte.x14]) ++ take 40 (drop 2 hex) ++
                concat (hex_byte <$> [Byte.x88; Byte.xac])).

(** ** Keys *)

(** The string and [*strsize_inout]. *)
Definition privkey_encode_wif (privkey : bytes) (chain : b58prefixes) (strsize : Z) : bytes * Z :=
  let '(r, s) := base58_encode_check
                   (byte.of_Z (secret_address chain) :: take 32 privkey ++ [Byte.x01]) strsize in
  (s, if r =? 0 then 0 else strsize).

(** The key when the result is true. *)
Definition privkey_decode_wif (privkey_wif : bytes) (chain : b58prefixes) : option (bool * bytes) :=
  if (length privkey_wif <? 50)%nat then Some (false, [])
  else
    '(outlen, data) ← base58_decode_check privkey_wif (length privkey_wif);
    if (outlen =? 0)%nat then Some (false, [])
    else if negb (byte.unsigned (nth 0 data byte_zero) =? secret_address chain) then Some (false, [])
    else Some (true, take 32 (drop 1 data)).

(** ** Outputs *)

(** The 256 bytes of [buf] are zero at first. *)
Definition tx_add_address_out (t : tx) (chain : b58prefixes) (amount : Z) (address : bytes)
    : option (bool * tx) :=
  '(r, buf) ← base58_decode_check address 256;
  if (0 <? r)%nat && (byte.unsigned (nth 0 buf byte_zero) =? pubkey_address chain) then
    '(_, t) ← tx_add_p2pkh_hash160_out t amount (drop 1 buf); Some (true, t)
  else if (0 <? r)%nat && (byte.unsigned (nth 0 buf byte_zero) =? script_address chain) then
    '(_, t) ← tx_add_p2sh_hash160_out t amount (drop 1 buf); Some (true, t)
  else Some (false, t).

Definition tx_add_p2pkh_out (t : tx) (amount : Z) (pk : pubkey) : option (bool * tx) :=
  tx_add_p2pkh_hash160_out t amount (pubkey_get_hash160 pk).

(** ** Payloads behind a prefix *)

Definition prefix_ok (p : Z) : Prop := 0 < p < 256.

Section payload.
Context (p : Z) (data : bytes) (Hp : prefix_ok p).

Lemma prefix_byte : byte.unsigned (byte.of_Z p) = p.
Proof using Hp. rewrite byte_unsigned_of_Z. apply wrap_small. unfold urange, prefix_ok in *. lia. Qed.

Lemma prefix_nul : is_nul (byte.of_Z p) = false.
Proof using Hp.
  destruct (is_nul _) eqn:E; [|done]. apply Byte.byte_dec_bl in E. pose proof prefix_byte as H.
  rewrite E in H. unfold prefix_ok in Hp. cbn in H. lia.
Qed.

Lemma prefix_nonzero l : Exists (fun b => b <> byte_zero) ((byte.of_Z p :: data) ++ l).
Proof using Hp.
  apply Exists_cons_hd. intros E. pose proof prefix_nul as H. by rewrite E in H.
Qed.

(** The prefix forces a number of digits. *)
Lemma prefix_length s k :
  check_string (byte.of_Z p :: data) s -> 58 ^ Z.of_nat k <= 256 ^ Z.of_nat (length data + 4) ->
  (k < length s)%nat.
Proof using Hp.
  intros (ds & -> & Hd & Hn & E) Hk. set (full := (byte.of_Z p :: data) ++ checksum _) in *.
  assert (count_leading is_nul full = 0%nat) as Hz by (unfold full; cbn [app count_leading]; by rewrite prefix_nul).
  rewrite Hz in *. destruct (b58string_zeros 0 ds Hd Hn) as (_ & _ & _ & ->).
  rewrite drop_0 in E. pose proof (digits_val_range 58 ds ltac:(lia) Hd) as Hr. rewrite E, be_dec_digits in Hr.
  pose proof (digits_val_lower 256 (byte.unsigned (byte.of_Z p)) (byte.unsigned <$> data ++ checksum (byte.of_Z p :: data))
    ltac:(lia) (bytes_digits full)) as Hl.
  rewrite length_fmap, length_app, checksum_length in Hl. rewrite prefix_byte in Hl at 1. unfold prefix_ok in Hp.
  specialize (Hl ltac:(lia)). unfold full in Hr. cbn [app] in Hr. rewrite fmap_cons in Hr.
  assert (58 ^ Z.of_nat k < 58 ^ Z.of_nat (length ds)) as Hlt by lia.
  apply Z.pow_lt_mono_r_iff in Hlt; lia.
Qed.
End payload.

(** A string and what comes out of it. *)
Lemma payload_spec p data :
  prefix_ok p -> (length data <= 87)%nat ->
  exists s, check_string (byte.of_Z p :: data) s /\ nul_free s /\
    (length data + 5 <= length s)%nat /\ (length s <= (length data + 5) * 138 / 100 + 1)%nat /\
    (forall strsize, Z.of_nat (length s) < strsize ->
       base58_encode_check (byte.of_Z p :: data) strsize = (Z.of_nat (length s) + 1, s ++ [byte_zero])) /\
    forall datalen, (length s <= datalen)%nat ->
      (length data + 5 <= capacity (Nat.min (length s + 4) datalen))%nat ->
      base58_decode_check s datalen =
        Some (length data + 5, byte.of_Z p :: data ++ checksum (byte.of_Z p :: data) ++
                               zeros (datalen - (length data + 5)))%nat.
Proof.
  intros Hp Hl. destruct (encode_check_spec (byte.of_Z p :: data)) as (s & Hs & Hlen & Henc); [cbn; lia|].
  cbn [length] in Hlen. replace (S (length data) + 4)%nat with (length data + 5)%nat in Hlen by lia.
  destruct (check_string_length _ _ Hs) as [Hlow Hnul]. cbn [length] in Hlow.
  exists s. split_and!; [done|done|lia|done| |].
  - intros strsize Hsz. rewrite Henc. by rewrite (proj2 (Z.leb_gt _ _)).
  - intros datalen Hd Hcap. rewrite (decode_check_spec (byte.of_Z p :: data) s datalen); cbn [length].
    + by replace (S (length data) + 4)%nat with (length data + 5)%nat by lia.
    + done.
    + pose proof (Nat.div_mod ((length data + 5) * 138) 100 ltac:(lia)). lia.
    + done.
    + by apply prefix_nonzero.
    + lia.
Qed.

(** ** Addresses *)

Lemma script_build_p2pkh_take h : script_build_p2pkh (take 20 h) = script_build_p2pkh h.
Proof. unfold script_build_p2pkh. by rewrite take_take. Qed.

Lemma script_build_p2pkh_bytes h :
  length h = 20%nat ->
  script_build_p2pkh h = [Byte.x76; Byte.xa9; Byte.x14] ++ h ++ [Byte.x88; Byte.xac].
Proof. intros Hh. do 21 (destruct h as [|? h]; try done). Qed.

Lemma tx_add_true t amount h :
  ('(_, t) ← tx_add_p2pkh_hash160_out t amount h; Some (true, t)) = tx_add_p2pkh_hash160_out t amount h.
Proof. unfold tx_add_p2pkh_hash160_out. by destruct (add_out t _). Qed.

Lemma hex_take bs rest n :
  length bs = n -> take (2 * n) (concat (hex_byte <$> bs ++ rest)) = concat (hex_byte <$> bs).
Proof.
  intros Hn. rewrite fmap_app, concat_app. rewrite take_app_exact; [done|]. rewrite hex_length. lia.
Qed.

(** An address pays whatever stands behind its prefix. *)
Lemma add_address_spec chain data :
  prefix_ok (pubkey_address chain) -> (length data <= 87)%nat ->
  forall s, check_string (byte.of_Z (pubkey_address chain) :: data) s ->
  forall t amount, tx_add_address_out t chain amount s =
    tx_add_p2pkh_hash160_out t amount
      (take 20 (data ++ checksum (byte.of_Z (pubkey_address chain) :: data) ++ zeros 20)).
Proof.
  intros Hp Hl s Hs t amount. destruct (payload_spec (pubkey_address chain) data Hp Hl)
    as (s' & Hs' & _ & Hlow & Hhigh & _ & Hdec).
  rewrite (check_string_unique _ s' s Hs' Hs) in *. clear s' Hs'.
  assert (length s <= 128)%nat as H128.
  { pose proof (Nat.div_mod ((length data + 5) * 138) 100 ltac:(lia)). lia. }
  unfold tx_add_address_out. rewrite Hdec; [|lia|].
  2:{ rewrite Nat.min_l by lia. pose proof (capacity_enough (length s)). lia. }
  cbn [mbind option_bind nth drop]. rewrite (proj2 (Nat.ltb_lt _ _)), prefix_byte, Z.eqb_refl by (done || lia).
  cbn [andb]. rewrite tx_add_true. unfold tx_add_p2pkh_hash160_out. rewrite drop_0, script_build_p2pkh_take.
  set (c := checksum _). assert (length c = 4%nat) as Hc by apply checksum_length.
  assert (take 20 (data ++ c ++ zeros (256 - (length data + 5))) = take 20 (data ++ c ++ zeros 20)) as E.
  { rewrite !(app_assoc data), !take_app, length_app, Hc. f_equal. unfold zeros. rewrite !take_replicate.
    f_equal. lia. }
  by rewrite <- script_build_p2pkh_take, E, script_build_p2pkh_take.
Qed.

(** The address of a public key hash is written into every buffer with room for it, is
    accepted by the check of addresses, and leads back to the hash: an output added for it is
    the output for the hash, and its hexadecimal script is the script of that output. *)
Theorem address_round_trip chain h :
  prefix_ok (pubkey_address chain) -> length h = 20%nat ->
  exists addr, nul_free addr /\ (33 <= length addr <= 35)%nat /\
    (forall len, Z.of_nat (length addr) < len ->
       p2pkh_addr_from_hash160 h chain len = (true, addr ++ [byte_zero])) /\
    verifyP2pkhAddress addr (length addr) = Some true /\
    p2pkh_address_to_pubkey_hash addr = Some (true, concat (hex_byte <$> script_build_p2pkh h)) /\
    forall t amount, tx_add_address_out t chain amount addr = tx_add_p2pkh_hash160_out t amount h.
Proof.
  intros Hp Hh. destruct (payload_spec (pubkey_address chain) h Hp ltac:(lia))
    as (s & Hs & Hnul & _ & Hhigh & Henc & Hdec).
  rewrite Hh in Hhigh. change ((20 + 5) * 138 / 100 + 1)%nat with 35%nat in Hhigh.
  assert (32 < length s)%nat as Hlow.
  { apply (prefix_length _ h Hp s 32 Hs). rewrite Hh. by apply Z.leb_le. }
  assert (25 <= capacity (Nat.min (length s + 4) (length s)) /\
          25 <= capacity (Nat.min (length s + 4) P2PKHLEN))%nat as [Hc1 Hc2].
  { assert (length s = 33 \/ length s = 34 \/ length s = 35)%nat as [-> | [-> | ->]] by lia; cbn; lia. }
  exists s. split_and!; [done|lia|done| | | |].
  - intros len Hlen. unfold p2pkh_addr_from_hash160. rewrite take_ge, Henc by (done || lia).
    by rewrite (proj2 (Z.ltb_lt _ _)) by lia.
  - unfold verifyP2pkhAddress. rewrite (proj2 (Nat.eqb_neq _ _)) by lia.
    rewrite Hdec by lia. cbn [mbind option_bind]. rewrite (proj2 (Nat.eqb_neq (length h + 5) 0)) by lia.
    rewrite (proj2 (Nat.ltb_ge _ _)) by lia. rewrite app_comm_cons.
    rewrite (take_app_exact _ _ 21), (drop_app_exact _ _ 21) by (cbn [length]; lia).
    rewrite take_app_exact by apply checksum_length. unfold bytes_eqb. by rewrite bool_decide_eq_true_2.
  - unfold p2pkh_address_to_pubkey_hash. rewrite Hdec; [|unfold P2PKHLEN; lia|lia]. cbn [mbind option_bind].
    rewrite Hh. change (20 + 5 =? 0)%nat with false. cbn iota. rewrite app_comm_cons.
    rewrite (take_app_exact _ _ (20 + 5 - 4)) by (cbn [length]; lia). unfold utils_uint8_to_hex.
    cbn [length]. rewrite Hh. change (TO_UINT8_HEX_BUF_LEN / 2 - 1 <? Z.of_nat 21) with false. cbn [mbind option_bind].
    rewrite script_build_p2pkh_bytes by done. rewrite !fmap_app, !concat_app. do 4 f_equal.
    rewrite fmap_cons. cbn [concat hex_byte app drop]. apply take_ge. rewrite hex_length. lia.
  - intros t amount. rewrite (add_address_spec chain h Hp ltac:(lia) s Hs).
    rewrite take_app_exact by done. done.
Qed.

(** The length of the payload is not looked at when an output is added for an address:
    for every payload behind the prefix, of any length, there is a string with a correct
    checksum that is accepted, and the output pays to the twenty bytes behind the prefix, be
    they payload, checksum or the zeros of the buffer. *)
Theorem address_length_unchecked chain data :
  prefix_ok (pubkey_address chain) -> (length data <= 87)%nat ->
  exists s, base58_encode_check (byte.of_Z (pubkey_address chain) :: data) 200 =
      (Z.of_nat (length s) + 1, s ++ [byte_zero]) /\
  forall t amount, tx_add_address_out t chain amount s =
    tx_add_p2pkh_hash160_out t amount
      (take 20 (data ++ checksum (byte.of_Z (pubkey_address chain) :: data) ++ zeros 20)).
Proof.
  intros Hp Hl. destruct (payload_spec (pubkey_address chain) data Hp Hl) as (s & Hs & _ & _ & Hhigh & Henc & _).
  exists s. split; [|by apply add_address_spec]. apply Henc.
  pose proof (Nat.div_mod ((length data + 5) * 138) 100 ltac:(lia)). lia.
Qed.

(** A private key exported in the wallet format is imported as the same key. *)
Theorem wif_round_trip chain key :
  prefix_ok (secret_address chain) -> length key = 32%nat ->
  exists wif, nul_free wif /\ (51 <= length wif <= 53)%nat /\
    (forall strsize, Z.of_nat (length wif) < strsize ->
       privkey_encode_wif key chain strsize = (wif ++ [byte_zero], strsize)) /\
    privkey_decode_wif wif chain = Some (true, key).
Proof.
  intros Hp Hk. set (data := take 32 key ++ [Byte.x01]).
  assert (length data = 33)%nat as Hld by (unfold data; rewrite length_app, length_take; cbn [length]; lia).
  destruct (payload_spec (secret_address chain) data Hp ltac:(lia)) as (s & Hs & Hnul & _ & Hhigh & Henc & Hdec).
  rewrite Hld in *. change ((33 + 5) * 138 / 100 + 1)%nat with 53%nat in Hhigh.
  assert (50 < length s)%nat as Hlow.
  { apply (prefix_length _ data Hp s 50 Hs). rewrite Hld. by apply Z.leb_le. }
  assert (38 <= capacity (Nat.min (length s + 4) (length s)))%nat as Hc.
  { assert (length s = 51 \/ length s = 52 \/ length s = 53)%nat as [-> | [-> | ->]] by lia; cbn; lia. }
  exists s. split_and!; [done|lia|done| |].
  - intros strsize Hsz. unfold privkey_encode_wif. fold data. rewrite Henc by done.
    by rewrite (proj2 (Z.eqb_neq _ _)) by lia.
  - unfold privkey_decode_wif. rewrite (proj2 (Nat.ltb_ge _ _)), Hdec by lia. cbn [mbind option_bind].
    change (33 + 5 =? 0)%nat with false. cbn iota. cbn [nth drop]. rewrite prefix_byte, Z.eqb_refl by done.
    cbn [negb]. rewrite drop_0. unfold data. rewrite <- app_assoc, take_app_exact by (rewrite length_take; lia).
    by rewrite take_ge by lia.
Qed.

(** ** The main chain *)

Definition main_prefixes : b58prefixes := mk_prefixes 0x1e 0x16 0x9e.

Lemma address_round_trip_witness :
  exists addr, verifyP2pkhAddress addr (length addr) = Some true /\
  forall t amount, tx_add_address_out t main_prefixes amount addr =
                   tx_add_p2pkh_hash160_out t amount (zeros 20).
Proof.
  destruct (address_round_trip main_prefixes (zeros 20)) as (addr & _ & _ & _ & Hv & _ & Ht).
  - split; reflexivity.
  - reflexivity.
  - exists addr. split; [exact Hv|exact Ht].
Defined.

Lemma address_length_unchecked_witness :
  exists s, forall t amount, tx_add_address_out t main_prefixes amount s =
    tx_add_p2pkh_hash160_out t amount (checksum [Byte.x1e] ++ zeros 16).
Proof.
  destruct (address_length_unchecked main_prefixes []) as (s & _ & Hs).
  - split; reflexivity.
  - cbn. lia.
  - exists s. intros t amount. rewrite Hs.
    change (byte.of_Z (pubkey_address main_prefixes)) with Byte.x1e. reflexivity.
Defined.

Lemma wif_round_trip_witness :
  exists wif, privkey_decode_wif wif main_prefixes = Some (true, replicate 32 Byte.x01).
Proof.
  destruct (wif_round_trip main_prefixes (replicate 32 Byte.x01)) as (wif & _ & _ & _ & Hd).
  - split; reflexivity.
  - reflexivity.
  - exists wif. exact Hd.
Defined.
