(* ===== verification/Keys.v ===== *)
(** * Keys and signatures ([src/src/ecc.c], [src/src/key.c])

    The calls of the curve library and what is built on them: keys, public keys, the formats of
    signatures.  The curve library is vendored; its operations are the fields of a class, with
    the laws its documentation gives, and an instance over the integers modulo 2^256 shows that
    the laws can hold. *)

From S2P Require Import Prelude Words Mem Sha256 Base58 Rmd160 Utils Script Tx Address Chainparams.

Local Open Scope Z_scope.

#[local] Opaque dogecoin_hash sha256_raw rmd160 base58_encode_check base58_decode_check.

(** ** The curve library *)

(** Private keys, hashes and tweaks are 32 bytes; a result [None] is the result 0.  The context,
    which the program creates once, is not an argument. *)
Class Secp256k1 := {
  point : Type;
  signature : Type;
  recoverable : Type;
  ec_seckey_verify : bytes -> bool;
  ec_pubkey_create : bytes -> option point;
  ec_pubkey_parse : bytes -> option point;
  (** with the flag for the compressed form *)
  ec_pubkey_serialize : bool -> point -> bytes;
  (** the result and the key, which is written in either case *)
  ec_privkey_tweak_add : bytes -> bytes -> bool * bytes;
  ec_privkey_tweak_mul : bytes -> bytes -> bool * bytes;
  ec_pubkey_tweak_add : point -> bytes -> option point;
  ec_pubkey_tweak_mul : point -> bytes -> option point;
  (** of a hash, with a key *)
  ecdsa_sign : bytes -> bytes -> option signature;
  ecdsa_verify : signature -> bytes -> point -> bool;
  ecdsa_signature_normalize : signature -> signature;
  ecdsa_signature_der : signature -> bytes;
  ecdsa_signature_parse_der : bytes -> option signature;
  ecdsa_signature_compact : signature -> bytes;
  ecdsa_signature_parse_compact : bytes -> option signature;
  ecdsa_sign_recoverable : bytes -> bytes -> option recoverable;
  (** with the number of the public key among those that can be recovered *)
  ecdsa_recoverable_compact : recoverable -> bytes * Z;
  ecdsa_recoverable_parse_compact : bytes -> Z -> option recoverable;
  ecdsa_recover : recoverable -> bytes -> option point;
}.

(** The laws of points: the two encodings, and that adding to a private key adds to its point. *)
Class Secp256k1Group (L : Secp256k1) := {
  create_some : forall k, length k = 32%nat -> ec_seckey_verify k = true -> is_Some (ec_pubkey_create k);
  serialize_length : forall c p, length (ec_pubkey_serialize c p) = if c then 33%nat else 65%nat;
  parse_serialize : forall c p, ec_pubkey_parse (ec_pubkey_serialize c p) = Some p;
  tweak_length : forall k t, length k = 32%nat -> length (ec_privkey_tweak_add k t).2 = 32%nat;
  tweak_verify : forall k t, (ec_privkey_tweak_add k t).1 = true -> ec_seckey_verify (ec_privkey_tweak_add k t).2 = true;
  tweak_create : forall k t p, length k = 32%nat -> ec_pubkey_create k = Some p -> (ec_privkey_tweak_add k t).1 = true ->
    ec_pubkey_create (ec_privkey_tweak_add k t).2 = ec_pubkey_tweak_add p t }.

(** The laws of signatures: those of a key are verified by its point, in each encoding, and have
    been normalized; the recoverable ones are the same and give the point back. *)
Class Secp256k1Signatures (L : Secp256k1) := {
  sign_some : forall k h, ec_seckey_verify k = true -> is_Some (ecdsa_sign h k) /\ is_Some (ecdsa_sign_recoverable h k);
  sign_verify : forall k h p s, ec_pubkey_create k = Some p -> ecdsa_sign h k = Some s -> ecdsa_verify s h p = true /\ ecdsa_signature_normalize s = s;
  der_parse : forall s, ecdsa_signature_parse_der (ecdsa_signature_der s) = Some s /\ (0 < length (ecdsa_signature_der s) <= 72)%nat;
  compact_parse : forall s, ecdsa_signature_parse_compact (ecdsa_signature_compact s) = Some s /\ length (ecdsa_signature_compact s) = 64%nat;
  recoverable_parse : forall r, ecdsa_recoverable_parse_compact (ecdsa_recoverable_compact r).1 (ecdsa_recoverable_compact r).2 = Some r /\
    0 <= (ecdsa_recoverable_compact r).2 < 4;
  recoverable_sign : forall k h p r, ec_pubkey_create k = Some p -> ecdsa_sign_recoverable h k = Some r ->
    ecdsa_recover r h = Some p /\
    exists s, ecdsa_sign h k = Some s /\ ecdsa_signature_compact s = (ecdsa_recoverable_compact r).1 }.

Section with_library.
Context `{L : Secp256k1}.

(** ** [ecc.c] *)

Definition key_size (compressed : bool) : nat := if compressed then 33 else 65.

(** The [in_outlen] bytes of [public_key]; [None]: the assertion on the size fails. *)
Definition ecc_get_pubkey (private_key : bytes) (in_outlen : nat) (compressed : bool) : option bytes :=
  if negb (in_outlen =? key_size compressed)%nat then None
  else Some (match ec_pubkey_create private_key with
             | None => zeros in_outlen
             | Some pubkey => ec_pubkey_serialize compressed pubkey
             end).

Definition ecc_private_key_tweak_add (private_key tweak : bytes) : bool * bytes := ec_privkey_tweak_add private_key (take 32 tweak).
Definition ecc_private_key_tweak_mul (private_key tweak : bytes) : bool * bytes := ec_privkey_tweak_mul private_key (take 32 tweak).

(** The result and [public_key_inout], of 33 bytes. *)
Definition ecc_public_key_tweak_add (public_key_inout tweak : bytes) : bool * bytes :=
  match (pubkey ← ec_pubkey_parse (take 33 public_key_inout); ec_pubkey_tweak_add pubkey (take 32 tweak)) with
  | None => (false, public_key_inout)
  | Some pubkey => (true, ec_pubkey_serialize true pubkey ++ drop 33 public_key_inout)
  end.
Definition ecc_public_key_tweak_mul (public_key_inout tweak : bytes) : bool * bytes :=
  match (pubkey ← ec_pubkey_parse (take 33 public_key_inout); ec_pubkey_tweak_mul pubkey (take 32 tweak)) with
  | None => (false, public_key_inout)
  | Some pubkey => (true, ec_pubkey_serialize true pubkey ++ drop 33 public_key_inout)
  end.

(** The serialisation of a point into [len] bytes, and its length; [None]: the library calls
    its callback for illegal arguments, which aborts. *)
Definition serialize_into (len : nat) (compressed : bool) (pubkey : point) : option (bytes * nat) :=
  if (len <? key_size compressed)%nat then None
  else Some (ec_pubkey_serialize compressed pubkey, length (ec_pubkey_serialize compressed pubkey)).

Definition ecc_point_serialize (pt : bytes) (pubkey_len : nat) (compressed : bool) : option (bool * bytes * nat) :=
  match ec_pubkey_parse pt with
  | None => Some (false, [], pubkey_len)
  | Some pubkey => '(out, n) ← serialize_into pubkey_len compressed pubkey; Some (true, out, n)
  end.

Definition ecc_verify_privatekey (private_key : bytes) : bool := ec_seckey_verify (take 32 private_key).
Definition ecc_verify_pubkey (public_key : bytes) (compressed : bool) : bool :=
  bool_decide (is_Some (ec_pubkey_parse (take (key_size compressed) public_key))).

(** The result, what is written, and [*outlen]; the library writes nothing when the signature is
    longer than the buffer. *)
Definition der_into (sig : signature) (outlen : nat) : bool * bytes * nat :=
  let der := ecdsa_signature_der sig in
  if (outlen <? length der)%nat then (false, [], length der) else (true, der, length der).

Definition ecc_sign (private_key hash : bytes) (outlen : nat) : bool * bytes * nat :=
  match ecdsa_sign hash private_key with
  | None => (false, [], outlen)
  | Some sig => der_into sig outlen
  end.

Definition ecc_sign_compact (private_key hash : bytes) (outlen : nat) : bool * bytes * nat :=
  match ecdsa_sign hash private_key with
  | None => (false, [], outlen)
  | Some sig => (true, ecdsa_signature_compact sig, 64%nat)
  end.

(** The result, what is written, [*outlen] and [*recid]. *)
Definition ecc_sign_compact_recoverable (private_key hash : bytes) (outlen : nat) (recid : Z) : bool * bytes * nat * Z :=
  match ecdsa_sign_recoverable hash private_key with
  | None => (false, [], outlen, recid)
  | Some sig => let '(sigrec, recid) := ecdsa_recoverable_compact sig in (true, sigrec, 64%nat, recid)
  end.

(** With a byte in front: 27, the number, and 4 for a compressed key. *)
Definition ecc_sign_compact_recoverable_fcomp (private_key hash : bytes) (outlen : nat) (recid : Z) (fCompressed : bool) : bool * bytes * nat * Z :=
  match ecdsa_sign_recoverable hash private_key with
  | None => (false, [], outlen, recid)
  | Some sig =>
      let '(sigrec, recid) := ecdsa_recoverable_compact sig in
      (true, byte.of_Z (27 + recid + (if fCompressed then 4 else 0)) :: sigrec, 65%nat, recid)
  end.

(** From a signature without the byte in front; the key and [*outlen].  A number that is not in
    [0, 3] is an illegal argument, for which the library aborts. *)
Definition recover_from (sigcomp hash : bytes) (recid : Z) (outlen : nat) : option (bool * bytes * nat) :=
  if (recid <? 0) || (3 <? recid) then None else
  match (sig ← ecdsa_recoverable_parse_compact sigcomp recid; ecdsa_recover sig hash) with
  | None => Some (false, [], outlen)
  | Some pubkey => '(out, n) ← serialize_into outlen true pubkey; Some (true, out, n)
  end.

Definition recover_pubkey (sigrec hash : bytes) (recid : Z) (outlen : nat) : option (bool * bytes * nat) :=
  recover_from (take 64 (drop 1 sigrec)) hash recid outlen.
Definition ecc_recover_pubkey (sigrec hash : bytes) (recid : Z) (outlen : nat) : option (bool * bytes * nat) :=
  recover_from (take 64 sigrec) hash recid outlen.

Definition ecc_verify_sig (public_key : bytes) (compressed : bool) (hash sigder : bytes) : bool :=
  match ec_pubkey_parse (take (key_size compressed) public_key), ecdsa_signature_parse_der sigder with
  | Some pubkey, Some sig => ecdsa_verify sig hash pubkey
  | _, _ => false
  end.

(** The byte in front of the signature is not looked at. *)
Definition ecc_verify_sigcmp (public_key : bytes) (compressed : bool) (hash sigcmp : bytes) : bool :=
  match ec_pubkey_parse (take (key_size compressed) public_key), ecdsa_signature_parse_compact (take 64 (drop 1 sigcmp)) with
  | Some pubkey, Some sig => ecdsa_verify sig hash pubkey
  | _, _ => false
  end.

Definition ecc_compact_to_der_normalized (sigcomp_in : bytes) (sigder_len_out : nat) : bool * bytes * nat :=
  match ecdsa_signature_parse_compact (take 64 sigcomp_in) with
  | None => (false, [], sigder_len_out)
  | Some sig => der_into (ecdsa_signature_normalize sig) sigder_len_out
  end.

Definition ecc_der_to_compact (sigder_in : bytes) : bool * bytes :=
  match ecdsa_signature_parse_der sigder_in with
  | None => (false, [])
  | Some sig => (true, ecdsa_signature_compact sig)
  end.

(** ** [key.c] *)

(** A key is its 32 bytes. *)
Definition privkey_init : bytes := zeros 32.
Definition privkey_is_valid (privkey : bytes) : bool := ecc_verify_privatekey privkey.
Definition privkey_cleanse : bytes := zeros 32.

(** [draws]: what the source of random bytes gives, [None] for a failure.  The result is [None]
    while valid bytes have not come yet. *)
Fixpoint privkey_gen (draws : list (option bytes)) : option (bool * bytes) :=
  match draws with
  | [] => None
  | None :: _ => Some (false, [])
  | Some r :: draws => if ecc_verify_privatekey r then Some (true, r) else privkey_gen draws
  end.

Definition key_sign_hash := ecc_sign.
Definition key_sign_hash_compact := ecc_sign_compact.
Definition key_sign_hash_compact_recoverable := ecc_sign_compact_recoverable.
Definition key_sign_hash_compact_recoverable_fcomp (privkey hash : bytes) (outlen : nat) (recid : Z) : bool * bytes * nat * Z :=
  ecc_sign_compact_recoverable_fcomp privkey hash outlen recid true.

Definition pubkey_init : pubkey := mk_pubkey false (zeros 65).
Definition pubkey_is_valid (pk : pubkey) : bool := ecc_verify_pubkey (pk_bytes pk) (pk_compressed pk).
Definition pubkey_cleanse (pk : pubkey) : pubkey := mk_pubkey (pk_compressed pk) (zeros 65).

(** The text and [*strsize], when the result is true. *)
Definition pubkey_get_hex (pk : pubkey) (strsize : Z) : option (bytes * Z) :=
  if strsize <? 33 * 2 + 1 then None else Some (utils_bin_to_hex (take 33 (pk_bytes pk)), 33 * 2).

(** [memcpy] to the beginning of an array. *)
Definition copy_to (dst src : bytes) : bytes := src ++ drop (length src) dst.

Definition pubkey_from_key (privkey : bytes) (pk : pubkey) : option pubkey :=
  out ← ecc_get_pubkey privkey 33 true; Some (mk_pubkey true (copy_to (pk_bytes pk) out)).

(** [pubkeybuf] of 128 bytes; a key that is not compressed leaves the flag as it is. *)
Definition take_recovered (r : option (bool * bytes * nat)) (pk : pubkey) : option (bool * pubkey) :=
  '(ok, buf, outlen) ← r;
  Some (if negb ok || (65 <? outlen)%nat then (false, pk)
        else (true, mk_pubkey (if (outlen =? 33)%nat then true else pk_compressed pk) (copy_to (zeros 65) (take outlen buf)))).

Definition key_recover_pubkey (sig hash : bytes) (recid : Z) (pk : pubkey) : option (bool * pubkey) :=
  take_recovered (recover_pubkey sig hash recid 128) pk.
Definition key_sign_recover_pubkey (sig hash : bytes) (recid : Z) (pk : pubkey) : option (bool * pubkey) :=
  take_recovered (ecc_recover_pubkey sig hash recid 128) pk.

Definition pubkey_verify_sig (pk : pubkey) (hash sigder : bytes) : bool := ecc_verify_sig (pk_bytes pk) (pk_compressed pk) hash sigder.
Definition pubkey_verify_sigcmp (pk : pubkey) (hash sigcmp : bytes) : bool := ecc_verify_sigcmp (pk_bytes pk) (pk_compressed pk) hash sigcmp.

(** [rnddata]: the random bytes, or a failure. *)
Definition privkey_verify_pubkey (privkey : bytes) (pk : pubkey) (rnddata : option bytes) : bool :=
  match rnddata with
  | None => false
  | Some rnddata =>
      let hash := dogecoin_hash rnddata in
      let '(ok, sig, siglen) := key_sign_hash privkey hash 74 in
      if negb ok then false else pubkey_verify_sig pk hash (take siglen sig)
  end.

(** The result, the key and the public key; [None]: an assertion fails, or the text is read
    behind its end. *)
Definition init_keypair (privkeywif : bytes) (rnddata : option bytes) : option (bool * bytes * pubkey) :=
  let key := privkey_init in
  if privkey_is_valid key then None
  else
    let chain := chain_params (chain_from_b58_prefix privkeywif) in
    '(ok, decoded) ← privkey_decode_wif privkeywif (prefixes_of chain);
    if negb ok then Some (false, key, pubkey_init)
    else
      let key := decoded in
      if negb (privkey_is_valid key) then None
      else
        let pk := pubkey_init in
        if pubkey_is_valid pk then None
        else
          pk ← pubkey_from_key key pk;
          if negb (pubkey_is_valid pk) then Some (false, key, pk)
          else if negb (privkey_verify_pubkey key pk rnddata) then Some (false, key, pk)
          else Some (true, key, pk).

Definition chain_of_flag (is_testnet : bool) : dogecoin_chainparams := if is_testnet then dogecoin_chainparams_test else dogecoin_chainparams_main.

Definition getWifEncodedPrivKey (privkey : bytes) (is_testnet : bool) (strsize : Z) : bytes * Z :=
  privkey_encode_wif privkey (prefixes_of (chain_of_flag is_testnet)) strsize.

(** The result, and the key when it is 1. *)
Definition getDecodedPrivKeyWif (privkey_wif : bytes) (is_testnet : bool) : option (Z * bytes) :=
  '(ok, key) ← privkey_decode_wif privkey_wif (prefixes_of (chain_of_flag is_testnet));
  Some (if negb ok then (0, []) else (1, key)).

(** ** Signatures are verified *)

Section laws.
Context {G : Secp256k1Group L} {S : Secp256k1Signatures L}.

(** The public key of a key. *)
Definition public_of (k : bytes) (p : point) : pubkey := mk_pubkey true (ec_pubkey_serialize true p ++ zeros 32).

Lemma take_serialize c p r : take (key_size c) (ec_pubkey_serialize c p ++ r) = ec_pubkey_serialize c p.
Proof. apply take_app_exact. rewrite serialize_length. by destruct c. Qed.

Lemma valid_key_point k : length k = 32%nat -> privkey_is_valid k = true -> exists p, ec_pubkey_create k = Some p.
Proof. intros Hl Hv. unfold privkey_is_valid, ecc_verify_privatekey in Hv. rewrite take_ge in Hv by lia. by apply create_some. Qed.

Lemma pubkey_from_key_spec k p : ec_pubkey_create k = Some p ->
  pubkey_from_key k pubkey_init = Some (public_of k p) /\ pubkey_is_valid (public_of k p) = true.
Proof.
  intros E. split.
  - unfold pubkey_from_key, ecc_get_pubkey. cbn [key_size Nat.eqb negb mbind option_bind]. rewrite E. unfold copy_to.
    rewrite (serialize_length true). reflexivity.
  - unfold pubkey_is_valid, ecc_verify_pubkey. cbn [public_of pk_bytes pk_compressed]. rewrite take_serialize, parse_serialize. by apply bool_decide_eq_true.
Qed.

(** The three formats of a signature. *)
Record signed_by (k h : bytes) (pk : pubkey) : Prop := {
  by_der : exists der, key_sign_hash k h 74 = (true, der, length der) /\ pubkey_verify_sig pk h der = true;
  by_compact : exists sig der, key_sign_hash_compact k h 64 = (true, sig, 64%nat) /\ length sig = 64%nat /\
    ecc_compact_to_der_normalized sig 74 = (true, der, length der) /\ (length der <= 72)%nat /\ pubkey_verify_sig pk h der = true /\
    ecc_der_to_compact der = (true, sig);
  by_recoverable : exists sig recid, key_sign_hash_compact_recoverable_fcomp k h 65 (-1) = (true, sig, 65%nat, recid) /\ length sig = 65%nat /\
    0 <= recid < 4 /\ byte.unsigned (hd byte_zero sig) = 31 + recid /\
    (forall pk', key_recover_pubkey sig h recid pk' = Some (true, pk)) /\ pubkey_verify_sigcmp pk h sig = true }.

Lemma verify_der p h s k : ecdsa_verify s h p = true -> pubkey_verify_sig (public_of k p) h (ecdsa_signature_der s) = true.
Proof.
  intros Hv. unfold pubkey_verify_sig, ecc_verify_sig. cbn [public_of pk_bytes pk_compressed]. rewrite take_serialize, parse_serialize.
  destruct (der_parse s) as [-> _]. done.
Qed.

Lemma der_fits s : der_into s 74 = (true, ecdsa_signature_der s, length (ecdsa_signature_der s)).
Proof. unfold der_into. destruct (der_parse s) as [_ H]. by rewrite (proj2 (Nat.ltb_ge _ _)) by lia. Qed.

Lemma sign_formats k h p : length k = 32%nat -> privkey_is_valid k = true -> ec_pubkey_create k = Some p -> signed_by k h (public_of k p).
Proof.
  intros Hl Hv E. assert (ec_seckey_verify k = true) as Hk by (unfold privkey_is_valid, ecc_verify_privatekey in Hv; by rewrite take_ge in Hv by lia).
  destruct (sign_some k h Hk) as [[s Es] [r Er]]. destruct (sign_verify k h p s E Es) as [Hs Hn].
  destruct (compact_parse s) as [Hp Hlc]. split.
  - exists (ecdsa_signature_der s). unfold key_sign_hash, ecc_sign. rewrite Es, der_fits. split; [done|]. by apply verify_der.
  - exists (ecdsa_signature_compact s), (ecdsa_signature_der s). unfold key_sign_hash_compact, ecc_sign_compact, ecc_compact_to_der_normalized, ecc_der_to_compact.
    rewrite Es, take_ge, Hp, Hn, der_fits by lia. destruct (der_parse s) as [-> Hd]. split_and!; try done; [lia|]. by apply verify_der.
  - destruct (recoverable_sign k h p r E Er) as (Hr & s' & Es' & Ec). rewrite Es in Es'. injection Es' as <-.
    destruct (recoverable_parse r) as [Hpr Hid]. destruct (ecdsa_recoverable_compact r) as [sig recid] eqn:Ecr. cbn [fst snd] in *. subst sig.
    assert (take 64 (ecdsa_signature_compact s) = ecdsa_signature_compact s) as Ht by (apply take_ge; lia).
    exists (byte.of_Z (27 + recid + 4) :: ecdsa_signature_compact s), recid.
    unfold key_sign_hash_compact_recoverable_fcomp, ecc_sign_compact_recoverable_fcomp. rewrite Er, Ecr. split_and!; try done; try lia.
    + cbn [length]. by rewrite Hlc.
    + cbn [hd]. rewrite byte_unsigned_of_Z, wrap_small by (unfold urange; lia). lia.
    + intros pk'. unfold key_recover_pubkey, recover_pubkey, recover_from. cbn [drop]. rewrite (proj2 (Z.ltb_ge recid 0)), (proj2 (Z.ltb_ge 3 recid)) by lia. cbn [orb]. rewrite drop_0, Ht, Hpr. cbn [mbind option_bind]. rewrite Hr. cbn [mbind option_bind].
      unfold serialize_into. cbn [key_size]. rewrite (serialize_length true). cbn. unfold public_of, copy_to. rewrite take_ge by (by rewrite (serialize_length true)).
      by rewrite (serialize_length true).
    + unfold pubkey_verify_sigcmp, ecc_verify_sigcmp. cbn [public_of pk_bytes pk_compressed drop]. by rewrite take_serialize, parse_serialize, drop_0, Ht, Hp.
Qed.

(** The key that stands for no point is refused, and so is an empty public key. *)
Definition zero_refused : Prop := privkey_is_valid privkey_init = false /\ pubkey_is_valid pubkey_init = false.

Lemma verify_pubkey_spec k h p : length k = 32%nat -> privkey_is_valid k = true -> ec_pubkey_create k = Some p ->
  privkey_verify_pubkey k (public_of k p) (Some h) = true.
Proof.
  intros Hl Hv E. destruct (sign_formats k (dogecoin_hash h) p Hl Hv E) as [(der & Hs & Hd) _ _].
  unfold privkey_verify_pubkey. rewrite Hs. cbn [negb]. by rewrite take_ge by lia.
Qed.

Lemma chain_from_app s t : s <> [] -> chain_from_b58_prefix (s ++ t) = chain_from_b58_prefix s.
Proof. by destruct s. Qed.

Lemma chain_prefix_ok c : prefix_ok (secret_address (prefixes_of (chain_params c))).
Proof. by destruct c. Qed.

Lemma init_keypair_spec c k rnd : zero_refused -> c <> CHAIN_REGTEST -> length k = 32%nat -> privkey_is_valid k = true ->
  exists wif p, nul_free wif /\ privkey_encode_wif k (prefixes_of (chain_params c)) 100 = (wif ++ [byte_zero], 100) /\ ec_pubkey_create k = Some p /\
    chain_from_b58_prefix wif = c /\ init_keypair wif (Some rnd) = Some (true, k, public_of k p).
Proof.
  intros [Hz Hz'] Hc Hl Hv. destruct (wif_round_trip (prefixes_of (chain_params c)) k (chain_prefix_ok c) Hl) as (wif & Hn & Hlw & Henc & Hdec).
  destruct (valid_key_point k Hl Hv) as [p Hp]. exists wif, p. specialize (Henc 100 ltac:(lia)).
  assert (chain_from_b58_prefix wif = c) as Ec.
  { rewrite <- (chain_from_app wif [byte_zero]) by (by intros ->; cbn in Hlw; lia).
    change (wif ++ [byte_zero]) with ((wif ++ [byte_zero], 100).1). rewrite <- Henc. apply chain_detected; [done|]. apply text_wif; [done|]. by rewrite Henc. }
  split_and!; try done. unfold init_keypair. rewrite Hz. cbv zeta. rewrite Ec, Hdec. cbn [mbind option_bind negb]. rewrite Hv. cbn [negb]. rewrite Hz'.
  destruct (pubkey_from_key_spec k p Hp) as [-> Hvp]. cbn [mbind option_bind]. rewrite Hvp. cbn [negb]. by rewrite verify_pubkey_spec.
Qed.

End laws.
End with_library.

(** ** The integers modulo 2^256 *)

Definition sized (n : nat) : Type := dsig (fun b : bytes => length b = n).
Definition resize (n : nat) (b : bytes) : bytes := take n (b ++ zeros n).

Lemma resize_length n b : length (resize n b) = n.
Proof. unfold resize, zeros. rewrite length_take, length_app, length_replicate. lia. Qed.

Lemma resize_id n b : length b = n -> resize n b = b.
Proof. intros <-. unfold resize. by apply take_app_exact. Qed.

Definition of_bytes (n : nat) (b : bytes) : sized n := dexist (resize n b) (resize_length n b).

Lemma of_bytes_sized n (x : sized n) : of_bytes n (`x) = x.
Proof. apply dsig_eq. cbn. apply resize_id, (proj2_dsig x). Qed.

Lemma of_bytes_val n b : length b = n -> proj1_sig (of_bytes n b) = b.
Proof. apply resize_id. Qed.

Lemma sized_length n (x : sized n) : length (`x) = n.
Proof. exact (proj2_dsig x). Qed.

Definition add_bytes (a b : bytes) : bytes := be_enc 32 (be_dec a + be_dec b).
Definition mul_bytes (a b : bytes) : bytes := be_enc 32 (be_dec a * be_dec b).

Section integers.
(** The numbers that are keys. *)
Context (is_key : Z -> bool).

Definition int_key (k : bytes) : bool := is_key (be_dec k).
Definition int_point (k : bytes) : option (sized 32) := if int_key k then Some (of_bytes 32 k) else None.

Definition integers : Secp256k1 := {|
  point := sized 32;
  signature := sized 64;
  recoverable := sized 64;
  ec_seckey_verify := int_key;
  ec_pubkey_create := int_point;
  ec_pubkey_parse := fun b => match b with Byte.x02 :: r | Byte.x04 :: r => Some (of_bytes 32 r) | _ => None end;
  ec_pubkey_serialize := fun (c : bool) p => if c then Byte.x02 :: `p else Byte.x04 :: `p ++ zeros 32;
  ec_privkey_tweak_add := fun k t => (int_key (add_bytes k t), add_bytes k t);
  ec_privkey_tweak_mul := fun k t => (int_key (mul_bytes k t), mul_bytes k t);
  ec_pubkey_tweak_add := fun p t => int_point (add_bytes (`p) t);
  ec_pubkey_tweak_mul := fun p t => int_point (mul_bytes (`p) t);
  ecdsa_sign := fun h k => if int_key k then Some (of_bytes 64 (resize 32 k ++ resize 32 h)) else None;
  ecdsa_verify := fun s h p => bytes_eqb (`s) (`p ++ resize 32 h);
  ecdsa_signature_normalize := fun s => s;
  ecdsa_signature_der := fun s => `s;
  ecdsa_signature_parse_der := fun b => Some (of_bytes 64 b);
  ecdsa_signature_compact := fun s => `s;
  ecdsa_signature_parse_compact := fun b => Some (of_bytes 64 b);
  ecdsa_sign_recoverable := fun h k => if int_key k then Some (of_bytes 64 (resize 32 k ++ resize 32 h)) else None;
  ecdsa_recoverable_compact := fun r => (`r, 0);
  ecdsa_recoverable_parse_compact := fun b _ => Some (of_bytes 64 b);
  ecdsa_recover := fun r _ => Some (of_bytes 32 (take 32 (`r))) |}.

Lemma of_bytes_app n b r : length b = n -> of_bytes n (b ++ r) = of_bytes n b.
Proof. intros H. apply dsig_eq. cbn. unfold resize. rewrite <- app_assoc, !take_app_exact; done. Qed.

#[local] Ltac open_fields :=
  cbv beta iota delta [integers point signature recoverable ec_seckey_verify ec_pubkey_create ec_pubkey_parse ec_pubkey_serialize ec_privkey_tweak_add
    ec_pubkey_tweak_add ecdsa_sign ecdsa_verify ecdsa_signature_normalize ecdsa_signature_der ecdsa_signature_parse_der ecdsa_signature_compact
    ecdsa_signature_parse_compact ecdsa_sign_recoverable ecdsa_recoverable_compact ecdsa_recoverable_parse_compact ecdsa_recover fst snd].

#[export] Instance integers_group : Secp256k1Group integers.
Proof.
  split; open_fields.
  - intros k _ H. unfold int_point. rewrite H. by eexists.
  - intros [] p; cbn [length]; rewrite ?length_app, sized_length; done.
  - intros [] p; f_equal; [apply of_bytes_sized|]. rewrite of_bytes_app by apply sized_length. apply of_bytes_sized.
  - intros k t _. apply be_enc_length.
  - done.
  - intros k t p Hl E H. unfold int_point in E. destruct (int_key k); [|done]. injection E as <-. by rewrite of_bytes_val.
Qed.

#[export] Instance integers_signatures : Secp256k1Signatures integers.
Proof.
  split; open_fields.
  - intros k h ->. split; by eexists.
  - intros k h p s E E'. unfold int_point in E. destruct (int_key k); [|done]. injection E as <-. injection E' as <-. split; [|done].
    apply bool_decide_eq_true. rewrite (of_bytes_val 64) by (by rewrite length_app, !resize_length). done.
  - intros s. split; [f_equal; apply of_bytes_sized|]. rewrite sized_length. lia.
  - intros s. split; [f_equal; apply of_bytes_sized|]. apply sized_length.
  - intros r. split; [f_equal; apply of_bytes_sized|lia].
  - intros k h p r E E'. unfold int_point in E. destruct (int_key k); [|done]. injection E as <-. injection E' as <-. split; [|by eexists].
    f_equal. apply dsig_eq. rewrite (of_bytes_val 64) by (by rewrite length_app, !resize_length).
    rewrite take_app_exact by apply resize_length. rewrite (of_bytes_val 32) by apply resize_length. done.
Qed.
End integers.

Definition not_zero (k : Z) : bool := negb (k =? 0).

