(* ===== verification/TxSign.v ===== *)
(** * Signing of inputs ([src/src/tx.c])

    [tx_sign_input] on every branch: the checks, the script in front of the signature, the two
    formats of the signature, and what is put into the input's script for a public key hash and
    for several signatures.  The validity of a signed input is stated by a checker that parses
    the script the way the program does. *)

From Stdlib Require Import String.
From S2P Require Import Prelude Words Serialize Script Sha256 Rmd160 Tx Address Keys.

Local Open Scope Z_scope.

#[local] Opaque dogecoin_hash sha256_raw rmd160.

Inductive tx_sign_result :=
  | SIGN_UNKNOWN | SIGN_INVALID_KEY | SIGN_NO_KEY_MATCH | SIGN_SIGHASH_FAILED | SIGN_UNKNOWN_SCRIPT_TYPE
  | SIGN_INVALID_TX_OR_SCRIPT | SIGN_INPUTINDEX_OUT_OF_RANGE | SIGN_OK | SIGN_INVALID_DER.

#[export] Instance tx_sign_result_eq_dec : EqDecision tx_sign_result.
Proof. solve_decision. Defined.

(** The numbers of the results, and their texts. *)
Definition result_code (r : tx_sign_result) : Z :=
  match r with
  | SIGN_UNKNOWN => 0 | SIGN_INVALID_KEY => -2 | SIGN_NO_KEY_MATCH => -3 | SIGN_SIGHASH_FAILED => -4
  | SIGN_UNKNOWN_SCRIPT_TYPE => -5 | SIGN_INVALID_TX_OR_SCRIPT => -6 | SIGN_INPUTINDEX_OUT_OF_RANGE => -7
  | SIGN_INVALID_DER => -8 | SIGN_OK => 1
  end.

Definition tx_sign_result_to_str (r : tx_sign_result) : bytes :=
  list_byte_of_string match r with
  | SIGN_OK => "OK" | SIGN_INVALID_TX_OR_SCRIPT => "INVALID_TX_OR_SCRIPT"
  | SIGN_INPUTINDEX_OUT_OF_RANGE => "INPUTINDEX_OUT_OF_RANGE" | SIGN_INVALID_KEY => "INVALID_KEY"
  | SIGN_NO_KEY_MATCH => "NO_KEY_MATCH" | SIGN_UNKNOWN_SCRIPT_TYPE => "SIGN_UNKNOWN_SCRIPT_TYPE"
  | SIGN_SIGHASH_FAILED => "SIGHASH_FAILED" | SIGN_INVALID_DER => "INVALID_DER" | SIGN_UNKNOWN => "UNKOWN"
  end.

(** What is written to the buffers of the caller that are not NULL. *)
Record sign_out := mk_sign_out { so_compact : option bytes; so_der : option bytes }.

Definition no_output : sign_out := mk_sign_out None None.

(** ** The scripts *)

(** [tx->vin\[n\]->script_sig = s] *)
Definition put_script (t : tx) (ins : list tx_in) (n : nat) (i : tx_in) (s : bytes) : tx :=
  set_vin t (<[n := mk_tx_in (prevout i) (Some s) (sequence i)]> ins).

(** For a public key hash: behind what the script holds already. *)
Definition apply_pubkeyhash (script_sig sigder_plus_hashtype : bytes) (pk : pubkey) : bytes :=
  let s := ser_varlen script_sig (Z.of_nat (length sigder_plus_hashtype)) in
  let s := ser_bytes s sigder_plus_hashtype in
  let s := ser_varlen s (Z.of_nat (pubkey_len pk)) in
  ser_bytes s (take (pubkey_len pk) (pk_bytes pk)).

(** The operations between the leading OP_0 and the trailing script. *)
Definition existing_sigs (script script_sig : bytes) : list script_op :=
  let '(_, existing_ops) := script_get_ops script_sig [] in
  let len := length existing_ops in
  if (len =? 0)%nat then []
  else
    let first := op_at existing_ops 0 in
    let start := if (op first =? OP_0) && (datalen first =? 0) then 1%nat else 0%nat in
    let last := op_at existing_ops (len - 1) in
    let stop := if (start <? len)%nat && bool_decide (is_Some (data last)) &&
                   (datalen last =? Z.of_nat (length script)) && bytes_eqb (op_bytes last) script
                then (len - 1)%nat else len in
    take (stop - start) (drop start existing_ops).

Definition emit_sig (new_sig : bytes) (o : script_op) : bytes :=
  match data o with
  | Some d => if 0 <? datalen o then ser_bytes (ser_varlen new_sig (datalen o)) d else new_sig
  | None => new_sig
  end.

(** For several signatures: the script is built anew. *)
Definition apply_multisig (script script_sig sigder_plus_hashtype : bytes) : bytes :=
  let new_sig := ser_bytes [] (le_enc 1 OP_0) in
  let new_sig := foldl emit_sig new_sig (existing_sigs script script_sig) in
  let new_sig := ser_varlen new_sig (Z.of_nat (length sigder_plus_hashtype)) in
  let new_sig := ser_bytes new_sig sigder_plus_hashtype in
  let new_sig := ser_varlen new_sig (Z.of_nat (length script)) in
  ser_bytes new_sig script.

(** ** Signature hashes do not depend on the scripts of the inputs *)

(** The same transaction up to those scripts. *)
Definition same_but_scripts (t t' : tx) (ins ins' : list tx_in) : Prop :=
  version t = version t' /\ locktime t = locktime t' /\ (prevout <$> ins) = (prevout <$> ins') /\ (sequence <$> ins) = (sequence <$> ins').

Lemma sighash_scripts t t' ins ins' outs sc n h : tx_ok t ins outs -> tx_ok t' ins' outs -> same_but_scripts t t' ins ins' ->
  sighash_preimage t' sc n h = sighash_preimage t sc n h.
Proof.
  intros Hok Hok' (Ev & El & Ep & Es).
  rewrite (sighash_preimage_spec t ins outs), (sighash_preimage_spec t' ins' outs) by done.
  assert (length ins = length ins') as En by (rewrite <- (length_fmap prevout ins), Ep; apply length_fmap).
  assert (((fun i => (prevout i, sequence i)) <$> ins) = ((fun i => (prevout i, sequence i)) <$> ins')) as Ei.
  { apply list_eq. intros j. apply (f_equal (.!! j)) in Ep, Es. rewrite !list_lookup_fmap in *.
    destruct (ins !! j), (ins' !! j); cbn in *; congruence. }
  rewrite <- En, <- Ev, <- El. cbv zeta.
  set (none := Z.land h 0x1f =? SIGHASH_NONE). set (single := Z.land h 0x1f =? SIGHASH_SINGLE). set (sc' := (script_copy_without_op_codeseperator sc []).2).
  set (input := fun k i => mk_tx_in (prevout i) (Some (if (k =? n)%nat then sc' else [])) (if (k =? n)%nat || negb (none || single) then sequence i else 0)).
  assert (forall l, imap input l = imap (fun k '(a, b) => input k (mk_tx_in a None b)) ((fun i => (prevout i, sequence i)) <$> l)) as Hvia
    by (intros l; by rewrite imap_fmap).
  by rewrite !Hvia, Ei.
Qed.

Lemma put_script_ok t ins outs n i s : tx_ok t ins outs -> ins !! n = Some i -> varstr_ok s ->
  let ins' := <[n := mk_tx_in (prevout i) (Some s) (sequence i)]> ins in
  tx_ok (put_script t ins n i s) ins' outs /\ same_but_scripts t (put_script t ins n i s) ins ins'.
Proof.
  intros [H1 H2 H3 H4 H5 H6 H7 H8] Hn Hs ins'. split.
  - split; try done; [by unfold ins'; rewrite length_insert|].
    apply list.Forall_insert; [done|]. rewrite list.Forall_forall in H4. destruct (H4 i (list_elem_of_lookup_2 _ _ _ Hn)) as (A1 & A2 & _ & A4).
    split_and!; try done. by eexists.
  - split_and!; try done; unfold ins'; rewrite list_fmap_insert; cbn [prevout sequence]; symmetry; apply list_insert_id; by rewrite list_lookup_fmap, Hn.
Qed.

Section with_library.
Context `{L : Secp256k1}.

(** ** Signing an input *)

(** What the classification of the script says before anything is signed. *)
Definition first_result (type : tx_out_type) (script_pushes : list bytes) (pk : pubkey) : tx_sign_result :=
  match type, script_pushes with
  | TX_PUBKEYHASH, [hash160_in_script] =>
      if bytes_eqb hash160_in_script (pubkey_get_hash160 pk) then SIGN_OK else SIGN_NO_KEY_MATCH
  | TX_MULTISIG, _ => SIGN_OK
  | _, _ => SIGN_UNKNOWN_SCRIPT_TYPE
  end.

(** The compact signature, and the result of the conversion with what it writes; [None]: the
    assertion on the size fails. *)
Definition sign_both (privkey sighash : bytes) : option (bytes * bool * bytes) :=
  let '(_, sig, siglen) := key_sign_hash_compact privkey sighash 0 in
  if negb (siglen =? 64)%nat then None
  else
    let '(ok, der, sigderlen) := ecc_compact_to_der_normalized sig 74 in
    Some (sig, ok && negb ((sigderlen =? 0)%nat || (72 <? sigderlen)%nat), take sigderlen der).

(** The result, the transaction, and what the caller gets; NULL pointers are [None] arguments,
    and the result [None] is a failed assertion or the use of a NULL vector or string. *)
Definition tx_sign_input (tx_in_out : option tx) (script : option bytes) (privkey : bytes) (inputindex : nat) (sighashtype : Z)
    : option (tx_sign_result * option tx * sign_out) :=
  match tx_in_out, script with
  | Some t, Some script =>
      ins ← vin t;
      match ins !! inputindex with
      | None => Some (SIGN_INPUTINDEX_OUT_OF_RANGE, Some t, no_output)
      | Some txin =>
          if negb (privkey_is_valid privkey) then Some (SIGN_INVALID_KEY, Some t, no_output)
          else
            pk ← pubkey_from_key privkey pubkey_init;
            if negb (pubkey_is_valid pk) then Some (SIGN_INVALID_KEY, Some t, no_output)
            else
              let '(type, script_pushes) := script_classify script [] in
              let res := first_result type script_pushes pk in
              '(ok, sighash) ← tx_sighash t script inputindex sighashtype;
              if negb ok then Some (SIGN_SIGHASH_FAILED, Some t, no_output)
              else
                '(sig, ok, der) ← sign_both privkey (default (zeros 32) sighash);
                if negb ok then Some (SIGN_INVALID_DER, Some t, mk_sign_out (Some sig) None)
                else
                  let sigder_plus_hashtype := der ++ [byte.of_Z sighashtype] in
                  let out := mk_sign_out (Some sig) (Some sigder_plus_hashtype) in
                  match type with
                  | TX_PUBKEYHASH =>
                      script_sig ← script_sig txin;
                      Some (res, Some (put_script t ins inputindex txin (apply_pubkeyhash script_sig sigder_plus_hashtype pk)), out)
                  | TX_MULTISIG =>
                      script_sig ← script_sig txin;
                      Some (SIGN_OK, Some (put_script t ins inputindex txin (apply_multisig script script_sig sigder_plus_hashtype)), out)
                  | _ => Some (SIGN_UNKNOWN_SCRIPT_TYPE, Some t, out)
                  end
      end
  | _, _ => Some (SIGN_INVALID_TX_OR_SCRIPT, tx_in_out, no_output)
  end.

(** ** A key and its signatures *)

Section laws.
Context {G : Secp256k1Group L} {Sg : Secp256k1Signatures L}.

(** A valid key and its point. *)
Definition good_key (k : bytes) (p : point) : Prop :=
  length k = 32%nat /\ privkey_is_valid k = true /\ ec_pubkey_create k = Some p.

Lemma sign_both_spec k p h : good_key k p ->
  exists sig der, sign_both k h = Some (sig, true, der) /\ (0 < length der <= 72)%nat /\ pubkey_verify_sig (public_of k p) h der = true.
Proof.
  intros (Hl & Hv & Hp). destruct (sign_formats k h p Hl Hv Hp) as [_ (sig & der & Hs & _ & Hd & Hld & Hver & _) _].
  assert (key_sign_hash_compact k h 0 = (true, sig, 64%nat)) as Hs0.
  { revert Hs. unfold key_sign_hash_compact, ecc_sign_compact. by destruct (ecdsa_sign h k). }
  exists sig, der. unfold sign_both. rewrite Hs0. cbn [Nat.eqb negb]. rewrite Hd.
  assert (0 < length der)%nat as H0.
  { revert Hd. unfold ecc_compact_to_der_normalized. destruct (ecdsa_signature_parse_compact _) as [s|]; [|done].
    destruct (der_parse (ecdsa_signature_normalize s)) as [_ Hlen]. unfold der_into. case_if; [done|]. intros [= <-]. lia. }
  rewrite (proj2 (Nat.eqb_neq _ _)), (proj2 (Nat.ltb_ge _ _)), take_ge by lia. done.
Qed.

(** What a call does once the key is good and the hash exists. *)
Lemma tx_sign_input_spec t ins txin script k p n h pre s0 : good_key k p -> vin t = Some ins -> ins !! n = Some txin ->
  script_sig txin = Some s0 -> sighash_preimage t script n h = Some (Some pre) ->
  exists sig der, (0 < length der <= 72)%nat /\ pubkey_verify_sig (public_of k p) (dogecoin_hash pre) der = true /\
    let out := mk_sign_out (Some sig) (Some (der ++ [byte.of_Z h])) in
    tx_sign_input (Some t) (Some script) k n h =
    Some (match script_classify script [] with
          | (TX_PUBKEYHASH, pushes) =>
              (first_result TX_PUBKEYHASH pushes (public_of k p),
               Some (put_script t ins n txin (apply_pubkeyhash s0 (der ++ [byte.of_Z h]) (public_of k p))), out)
          | (TX_MULTISIG, _) => (SIGN_OK, Some (put_script t ins n txin (apply_multisig script s0 (der ++ [byte.of_Z h]))), out)
          | _ => (SIGN_UNKNOWN_SCRIPT_TYPE, Some t, out)
          end).
Proof.
  intros Hk Hi Hn Hs0 Hpre. destruct (sign_both_spec k p (dogecoin_hash pre) Hk) as (sig & der & Hb & Hl & Hv).
  exists sig, der. split_and!; [lia..|done|]. destruct Hk as (_ & Hvk & Hp). destruct (pubkey_from_key_spec k p Hp) as [Hpk Hvp].
  unfold tx_sign_input, tx_sighash. rewrite Hi. cbn [mbind option_bind]. rewrite Hn, Hvk. cbn [negb]. rewrite Hpk. cbn [mbind option_bind].
  rewrite Hvp, Hpre. cbn [negb mbind option_bind]. destruct (script_classify script []) as [ty pushes]. unfold default, id.
  rewrite Hb. cbn [mbind option_bind negb]. rewrite Hs0. by destruct ty.
Qed.

(** ** Inputs that spend a public key hash *)

(** The script of the outputs that the key spends. *)
Definition script_of_key (k : bytes) : bytes :=
  match pubkey_from_key k pubkey_init with Some pk => script_build_p2pkh (pubkey_get_hash160 pk) | None => [] end.

Definition pubkey_of_bytes (b : bytes) : pubkey := mk_pubkey (length b =? 33)%nat b.

(** The input pushes a signature and a key: the key has the hash of [script], and the signature
    is one of the hash for its type. *)
Definition p2pkh_input_valid (t : tx) (script : bytes) (n : nat) : bool :=
  match (ins ← vin t; i ← ins !! n; script_sig i) with
  | None => false
  | Some s =>
      match script_get_ops s [], script_classify script [] with
      | (true, [mk_op _ (Some sig) _; mk_op _ (Some key) _]), (TX_PUBKEYHASH, [hash]) =>
          match last sig with
          | None => false
          | Some ht =>
              match tx_sighash t script n (byte.unsigned ht) with
              | Some (true, Some sighash) =>
                  bytes_eqb hash (pubkey_get_hash160 (pubkey_of_bytes key)) &&
                  pubkey_verify_sig (pubkey_of_bytes key) sighash (take (length sig - 1) sig)
              | _ => false
              end
          end
      | _, _ => false
      end
  end.

(** What the program writes is what the builder of scripts would. *)
Lemma ser_push (s d : bytes) : (length d < 76)%nat -> ser_bytes (ser_varlen s (Z.of_nat (length d))) d = emit s (IPush d).
Proof.
  intros Hd. cbn [emit]. rewrite append_pushdata_bytes by lia. unfold ser_bytes, ser_varlen, push_header, sink_append, bytes_sink.
  rewrite !(proj2 (Z.ltb_lt _ _)) by (unfold OP_PUSHDATA1; lia). rewrite ?app_assoc. done.
Qed.

Lemma push_length (s d : bytes) : (length d < 76)%nat -> length (emit s (IPush d)) = (length s + 1 + length d)%nat.
Proof.
  intros Hd. rewrite <- ser_push by done. unfold ser_bytes, ser_varlen, sink_append, bytes_sink. rewrite (proj2 (Z.ltb_lt _ _)) by lia.
  unfold ser_bytes, sink_append, bytes_sink. rewrite !length_app. cbn [length]. lia.
Qed.

Lemma public_len p : length (ec_pubkey_serialize true p) = 33%nat.
Proof. apply (serialize_length true). Qed.

Lemma public_taken k p : take (pubkey_len (public_of k p)) (pk_bytes (public_of k p)) = ec_pubkey_serialize true p.
Proof. exact (take_serialize true p (zeros 32)). Qed.

Lemma apply_pubkeyhash_build k p sig : (length sig < 76)%nat ->
  apply_pubkeyhash [] sig (public_of k p) = build [IPush sig; IPush (ec_pubkey_serialize true p)].
Proof.
  intros Hs. unfold apply_pubkeyhash. cbv zeta. rewrite ser_push, public_taken by done.
  replace (pubkey_len (public_of k p)) with (length (ec_pubkey_serialize true p)) by apply public_len.
  rewrite ser_push by (rewrite public_len; lia). done.
Qed.

Lemma parsed_hash k p : pubkey_get_hash160 (pubkey_of_bytes (ec_pubkey_serialize true p)) = pubkey_get_hash160 (public_of k p).
Proof.
  unfold pubkey_get_hash160, pubkey_of_bytes. rewrite public_len, public_taken. cbn [Nat.eqb pubkey_len pk_compressed pk_bytes].
  by rewrite take_ge by (rewrite public_len; lia).
Qed.

Lemma parsed_verify k p h sig : pubkey_verify_sig (pubkey_of_bytes (ec_pubkey_serialize true p)) h sig = pubkey_verify_sig (public_of k p) h sig.
Proof.
  unfold pubkey_verify_sig, ecc_verify_sig, pubkey_of_bytes. rewrite public_len. cbn [Nat.eqb pk_compressed pk_bytes public_of].
  by rewrite take_serialize, (take_ge (ec_pubkey_serialize true p)) by (rewrite public_len; cbn; lia).
Qed.

Lemma script_of_key_class k p : good_key k p -> script_classify (script_of_key k) [] = (TX_PUBKEYHASH, [pubkey_get_hash160 (public_of k p)]).
Proof.
  intros (_ & _ & Hp). unfold script_of_key. destruct (pubkey_from_key_spec k p Hp) as [-> _].
  destruct (script_classify_built (pubkey_get_hash160 (public_of k p)) 1 [mk_pubkey true (Byte.x02 :: zeros 64)]
    (script_build_multisig 1 (Some [mk_pubkey true (Byte.x02 :: zeros 64)])).2) as (E & _); [apply rmd160_length| |lia|reflexivity|done].
  apply List.Forall_cons; [split; reflexivity|apply List.Forall_nil].
Qed.

Lemma last_snoc_taken (d : bytes) b : last (d ++ [b]) = Some b /\ take (length (d ++ [b]) - 1) (d ++ [b]) = d.
Proof. split; [apply last_snoc|]. rewrite length_app. cbn [length]. apply take_app_exact. lia. Qed.

(** One input. *)
Lemma sign_pubkeyhash t ins outs txin k p n h pre : tx_ok t ins outs -> good_key k p -> ins !! n = Some txin -> script_sig txin = Some [] ->
  0 <= h < 256 -> sighash_preimage t (script_of_key k) n h = Some (Some pre) ->
  exists s out, tx_sign_input (Some t) (Some (script_of_key k)) k n h = Some (SIGN_OK, Some (put_script t ins n txin s), out) /\ (length s <= 110)%nat /\
    p2pkh_input_valid (put_script t ins n txin s) (script_of_key k) n = true.
Proof.
  intros Hok Hk Hn Hs0 Hh Hpre. pose proof (script_of_key_class k p Hk) as Hc.
  destruct (tx_sign_input_spec t ins txin _ k p n h pre [] Hk (ok_vin _ _ _ Hok) Hn Hs0 Hpre) as (sig & der & Hl & Hv & E). cbv zeta in E.
  rewrite Hc in E. set (s := apply_pubkeyhash [] (der ++ [byte.of_Z h]) (public_of k p)) in *.
  assert (length (der ++ [byte.of_Z h]) < 76)%nat as Hld by (rewrite length_app; cbn [length]; lia).
  assert (s = build [IPush (der ++ [byte.of_Z h]); IPush (ec_pubkey_serialize true p)]) as Hs by by apply apply_pubkeyhash_build.
  assert (Forall item_ok [IPush (der ++ [byte.of_Z h]); IPush (ec_pubkey_serialize true p)]) as Hit.
  { apply List.Forall_cons; [cbn [item_ok]; lia|]. apply List.Forall_cons; [|apply List.Forall_nil]. cbn [item_ok]. rewrite public_len. lia. }
  assert (length s <= 110)%nat as Hls.
  { rewrite Hs. unfold build. cbn [foldl]. rewrite !push_length, public_len by (rewrite ?public_len; lia). rewrite length_app in *. cbn [length] in *. lia. }
  assert (varstr_ok s) as Hvs by (unfold varstr_ok, UINT32_MAX; lia).
  exists s, (mk_sign_out (Some sig) (Some (der ++ [byte.of_Z h]))). split_and!; [|done|].
  - rewrite E. unfold first_result, bytes_eqb. by rewrite bool_decide_true.
  - destruct (put_script_ok t ins outs n txin s Hok Hn Hvs) as [Hok' Hsame]. unfold p2pkh_input_valid.
    assert (vin (put_script t ins n txin s) = Some (<[n := mk_tx_in (prevout txin) (Some s) (sequence txin)]> ins)) as -> by done.
    cbn [mbind option_bind]. rewrite list_lookup_insert_eq by (by eapply lookup_lt_Some). cbn [mbind option_bind script_sig]. rewrite Hc.
    rewrite Hs, get_ops_build; [|done|done|by destruct (ec_pubkey_serialize true p) eqn:Ep; pose proof (public_len p) as Hpl; rewrite Ep in Hpl].
    cbn [app fmap list_fmap item_op]. destruct (last_snoc_taken der (byte.of_Z h)) as [-> ->].
    rewrite byte_unsigned_of_Z, wrap_small by (unfold urange; lia). unfold tx_sighash.
    rewrite <- Hs, (sighash_scripts t _ ins _ outs _ n h Hok Hok' Hsame), Hpre. cbn [mbind option_bind].
    rewrite (parsed_hash k), (parsed_verify k), Hv. unfold bytes_eqb. by rewrite bool_decide_true.
Qed.

(** ** All inputs, in any order *)

Record sign_job := mk_job { job_input : nat; job_key : bytes; job_type : Z }.

Fixpoint sign_inputs (jobs : list sign_job) (t : tx) : option tx :=
  match jobs with
  | [] => Some t
  | j :: jobs =>
      match tx_sign_input (Some t) (Some (script_of_key (job_key j))) (job_key j) (job_input j) (job_type j) with
      | Some (SIGN_OK, Some t, _) => sign_inputs jobs t
      | _ => None
      end
  end.

(** The key is good, the script of the input empty, and there is a hash to be signed. *)
Definition job_ok (t : tx) (ins : list tx_in) (j : sign_job) : Prop :=
  (exists p, good_key (job_key j) p) /\ 0 <= job_type j < 256 /\
  (exists pre, sighash_preimage t (script_of_key (job_key j)) (job_input j) (job_type j) = Some (Some pre)) /\
  exists i, ins !! job_input j = Some i /\ script_sig i = Some [].

Lemma valid_transfer t t' ins ins' outs s n : tx_ok t ins outs -> tx_ok t' ins' outs -> same_but_scripts t t' ins ins' -> ins' !! n = ins !! n ->
  p2pkh_input_valid t' s n = p2pkh_input_valid t s n.
Proof.
  intros Hok Hok' Hs Hn. unfold p2pkh_input_valid, tx_sighash. rewrite (ok_vin _ _ _ Hok), (ok_vin _ _ _ Hok'). cbn [mbind option_bind]. rewrite Hn.
  assert (forall h, sighash_preimage t' s n h = sighash_preimage t s n h) as E by (intros h; by apply (sighash_scripts t t' ins ins' outs)).
  destruct (ins !! n) as [i|]; [|done]. cbn [mbind option_bind]. destruct (script_sig i) as [s0|]; [|done].
  destruct (script_get_ops s0 []) as [[] ops]; [|done]. destruct ops as [|[? [sig|] ?] [|[? [key|] ?] [|]]]; try done.
  destruct (script_classify s []) as [[] [|? [|]]]; try done. destruct (last sig) as [ht|]; [|done]. by rewrite E.
Qed.

Lemma same_trans t t' t'' i i' i'' : same_but_scripts t t' i i' -> same_but_scripts t' t'' i' i'' -> same_but_scripts t t'' i i''.
Proof. intros (A1 & A2 & A3 & A4) (B1 & B2 & B3 & B4). split_and!; congruence. Qed.

Lemma sign_inputs_spec jobs t ins outs : tx_ok t ins outs -> NoDup (job_input <$> jobs) -> Forall (job_ok t ins) jobs ->
  exists t' ins', sign_inputs jobs t = Some t' /\ tx_ok t' ins' outs /\ same_but_scripts t t' ins ins' /\
    (forall j, j ∈ jobs -> p2pkh_input_valid t' (script_of_key (job_key j)) (job_input j) = true) /\
    (forall n, n ∉ job_input <$> jobs -> ins' !! n = ins !! n).
Proof.
  intros Hok Hd Hj. revert t ins Hok Hj. induction jobs as [|j jobs IH]; intros t ins Hok Hj.
  { exists t, ins. split_and!; try done. intros j Hin. by apply not_elem_of_nil in Hin. }
  cbn [fmap list_fmap] in Hd. apply NoDup_cons in Hd as [Hnew Hd]. apply Forall_cons in Hj as [((p & Hk) & Hty & (pre & Hpre) & i & Hi & Hsi) Hj].
  destruct (sign_pubkeyhash t ins outs i _ p _ _ pre Hok Hk Hi Hsi Hty Hpre) as (s & out & E & Hls & Hval).
  assert (varstr_ok s) as Hvs by (unfold varstr_ok, UINT32_MAX; lia).
  destruct (put_script_ok t ins outs _ i s Hok Hi Hvs) as [Hok1 Hs1]. set (t1 := put_script t ins (job_input j) i s) in *.
  set (ins1 := <[job_input j := mk_tx_in (prevout i) (Some s) (sequence i)]> ins) in *.
  destruct (IH Hd t1 ins1 Hok1) as (t' & ins' & E' & Hok' & Hs' & Hv' & Hrest).
  - apply list.Forall_forall. intros j' Hin. rewrite list.Forall_forall in Hj. destruct (Hj j' Hin) as (A1 & A2 & (pre' & A3) & i' & A4 & A5).
    assert (job_input j <> job_input j') as Hne by (intros Heq; apply Hnew; rewrite Heq; by apply list_elem_of_fmap_2).
    split_and!; [done|lia|lia| |].
    + exists pre'. by rewrite (sighash_scripts t t1 ins ins1 outs).
    + exists i'. unfold ins1. by rewrite list_lookup_insert_ne.
  - exists t', ins'. cbn [sign_inputs]. rewrite E. split_and!; [done|done|by eapply same_trans| |].
    + intros j' [->|Hin]%elem_of_cons; [|by apply Hv']. rewrite <- Hval. apply (valid_transfer t1 t' ins1 ins' outs); try done. by apply Hrest.
    + intros n Hn. apply not_elem_of_cons in Hn as [Hne Hn]. rewrite Hrest by done. unfold ins1. by apply list_lookup_insert_ne.
Qed.


(** ** Inputs that several keys sign *)

Definition short_push (d : bytes) : Prop := (0 < length d < 76)%nat.

(** The script of such an input: OP_0, the signatures, and the script they are for. *)
Definition sigs_script (script : bytes) (sigs : list bytes) : bytes := build (IPush [] :: (IPush <$> sigs) ++ [IPush script]).

Lemma short_items script sigs : short_push script -> Forall short_push sigs -> Forall item_ok (IPush [] :: (IPush <$> sigs) ++ [IPush script]).
Proof.
  intros Hs Hsigs. assert (forall d, short_push d -> item_ok (IPush d)) as H by (unfold short_push; cbn; lia).
  apply List.Forall_cons; [done|]. apply Forall_app. split; [|by apply List.Forall_cons; [apply H|apply List.Forall_nil]].
  apply Forall_fmap. by apply (list.Forall_impl short_push).
Qed.

Lemma final_push its d : d <> [] -> no_final_empty_push (its ++ [IPush d]).
Proof. intros Hd. induction its as [|it its IH]; [intros [= E]; done|]. cbn. by destruct (its ++ [IPush d]) eqn:E; [by destruct its|]. Qed.

Lemma short_ne d : short_push d -> d <> [].
Proof. by unfold short_push; destruct d; cbn; [lia|]. Qed.

Lemma parse_sigs script sigs : short_push script -> Forall short_push sigs ->
  script_get_ops (sigs_script script sigs) [] = (true, mk_op 0 (Some []) 0 :: (item_op ∘ IPush <$> sigs) ++ [item_op (IPush script)]).
Proof.
  intros Hs Hsigs. unfold sigs_script. rewrite get_ops_build; [|done|by apply short_items|].
  - cbn [app]. rewrite fmap_cons, fmap_app, <- list_fmap_compose. done.
  - change (IPush [] :: (IPush <$> sigs) ++ [IPush script]) with ((IPush [] :: (IPush <$> sigs)) ++ [IPush script]). by apply final_push, short_ne.
Qed.

Lemma existing_sigs_parsed script sigs : short_push script -> Forall short_push sigs ->
  existing_sigs script (sigs_script script sigs) = (item_op ∘ IPush <$> sigs).
Proof.
  intros Hs Hsigs. unfold existing_sigs. rewrite parse_sigs by done. set (l := item_op ∘ IPush <$> sigs).
  cbn [length]. rewrite length_app. cbn [length]. cbv zeta. rewrite (proj2 (Nat.eqb_neq _ 0)) by lia.
  change (op_at _ 0) with (mk_op 0 (Some []) 0). cbn [op datalen]. change ((0 =? OP_0) && (0 =? 0)) with true. cbv iota.
  assert (op_at (mk_op 0 (Some []) 0 :: l ++ [item_op (IPush script)]) (S (length l + 1) - 1)%nat = item_op (IPush script)) as ->.
  { unfold op_at. replace (S (length l + 1) - 1)%nat with (length (mk_op 0 (Some []) 0 :: l)) by (cbn [length]; lia). by rewrite app_comm_cons, list_lookup_middle. }
  cbn [item_op data datalen op_bytes from_option id]. rewrite (proj2 (Nat.ltb_lt _ _)), (bool_decide_true (is_Some _)), Z.eqb_refl by (eauto || lia).
  unfold bytes_eqb. rewrite bool_decide_true by done. cbn [andb]. cbn [drop].
  replace (S (length l + 1) - 1 - 1)%nat with (length l) by lia. by rewrite drop_0, take_app_exact.
Qed.

Lemma emit_sigs s sigs : Forall short_push sigs -> foldl emit_sig s (item_op ∘ IPush <$> sigs) = foldl emit s (IPush <$> sigs).
Proof.
  intros Hs. revert s. induction Hs as [|d sigs Hd Hs IH]; intros s; [done|]. rewrite !fmap_cons. cbn [foldl]. rewrite <- IH. f_equal.
  unfold emit_sig, compose. cbn [item_op data datalen]. unfold short_push in Hd. rewrite (proj2 (Z.ltb_lt 0 _)) by lia. apply ser_push. lia.
Qed.

(** A further signature is put behind the others. *)
Lemma apply_multisig_next script sigs sig : short_push script -> Forall short_push sigs -> short_push sig ->
  apply_multisig script (sigs_script script sigs) sig = sigs_script script (sigs ++ [sig]).
Proof.
  intros Hs Hsigs Hsig. unfold apply_multisig. cbv zeta. rewrite existing_sigs_parsed, emit_sigs by done. unfold short_push in *.
  rewrite !ser_push by lia. unfold sigs_script, build. rewrite fmap_app. cbn [foldl fmap list_fmap]. rewrite !foldl_app. done.
Qed.

Lemma apply_multisig_first script sig : short_push script -> short_push sig -> apply_multisig script [] sig = sigs_script script [sig].
Proof. intros Hs Hsig. unfold apply_multisig. cbv zeta. unfold short_push in *. rewrite !ser_push by lia. done. Qed.

(** One input, signed with each of the keys. *)
Fixpoint sign_rounds (script : bytes) (n : nat) (h : Z) (keys : list bytes) (t : tx) : option tx :=
  match keys with
  | [] => Some t
  | k :: keys =>
      match tx_sign_input (Some t) (Some script) k n h with
      | Some (SIGN_OK, Some t, _) => sign_rounds script n h keys t
      | _ => None
      end
  end.

(** A signature of the hash by the key, with the type behind it. *)
Definition sig_of (hash : bytes) (h : Z) (k : bytes) (p : point) (sig : bytes) : Prop :=
  exists der, sig = der ++ [byte.of_Z h] /\ pubkey_verify_sig (public_of k p) hash der = true.

Lemma put_twice t ins n i s s' :
  put_script (put_script t ins n i s) (<[n := mk_tx_in (prevout i) (Some s) (sequence i)]> ins) n (mk_tx_in (prevout i) (Some s) (sequence i)) s' =
  put_script t ins n i s'.
Proof. unfold put_script, set_vin. cbn [version vout locktime prevout sequence]. by rewrite list_insert_insert_eq. Qed.

Lemma sigs_script_ok script sigs : short_push script -> Forall short_push sigs -> (length sigs <= 1000)%nat -> varstr_ok (sigs_script script sigs).
Proof.
  intros Hs Hsigs Hl. unfold varstr_ok, UINT32_MAX, sigs_script.
  assert (forall l s, Forall short_push l -> (length (foldl emit s (IPush <$> l)) <= length s + 76 * length l)%nat) as H.
  { clear. intros l s Hl. revert s. induction Hl as [|d l Hd Hl IH]; intros s; [cbn; lia|]. rewrite fmap_cons. cbn [foldl].
    etrans; [apply IH|]. unfold short_push in Hd. rewrite push_length by lia. cbn [length]. lia. }
  unfold build. cbn [foldl]. rewrite foldl_app. cbn [foldl]. unfold short_push in Hs. rewrite push_length by lia.
  pose proof (H sigs (emit [] (IPush [])) Hsigs) as Hb. rewrite push_length in Hb by (cbn; lia). cbn [length] in Hb. lia.
Qed.

Section rounds.
Context (script : bytes) (n : nat) (h : Z) (pre : bytes) (outs : list tx_out).
Context (Hc : (script_classify script []).1 = TX_MULTISIG) (Hs : short_push script) (Hh : 0 <= h < 256).

(** One round: the new script, made from the old one by [next]. *)
Lemma sign_round t ins i s0 k p : vin t = Some ins -> ins !! n = Some i -> script_sig i = Some s0 -> good_key k p ->
  sighash_preimage t script n h = Some (Some pre) ->
  exists sig out, tx_sign_input (Some t) (Some script) k n h = Some (SIGN_OK, Some (put_script t ins n i (apply_multisig script s0 sig)), out) /\
    short_push sig /\ sig_of (dogecoin_hash pre) h k p sig.
Proof using Hc G Sg.
  intros Hok Hi Hsi Hk Hpre. destruct (tx_sign_input_spec t ins i script k p n h pre s0 Hk Hok Hi Hsi Hpre) as (sig & der & Hl & Hv & E).
  cbv zeta in E. destruct (script_classify script []) as [ty pushes]. cbn [fst] in Hc. subst ty.
  exists (der ++ [byte.of_Z h]), (mk_sign_out (Some sig) (Some (der ++ [byte.of_Z h]))). split; [done|].
  split; [unfold short_push; rewrite length_app; cbn [length]; lia|]. by exists der.
Qed.

Lemma rounds_from keys ps : Forall2 good_key keys ps -> forall t ins i sigs,
  tx_ok t ins outs -> ins !! n = Some i -> script_sig i = Some (sigs_script script sigs) -> Forall short_push sigs ->
  (length sigs + length keys <= 1000)%nat -> sighash_preimage t script n h = Some (Some pre) ->
  exists t' sigs', sign_rounds script n h keys t = Some t' /\ Forall short_push (sigs ++ sigs') /\
    Forall2 (fun kp sig => sig_of (dogecoin_hash pre) h kp.1 kp.2 sig) (zip keys ps) sigs' /\
    t' = put_script t ins n i (sigs_script script (sigs ++ sigs')).
Proof using Hc Hs Hh G Sg.
  induction 1 as [|k p keys ps Hk Hks IH]; intros t ins i sigs Hok Hi Hsi Hsigs Hlen Hpre.
  { exists t, []. rewrite app_nil_r. split_and!; [done|done|constructor|]. unfold put_script, set_vin. rewrite <- Hsi.
    replace (mk_tx_in (prevout i) (script_sig i) (sequence i)) with i by by destruct i.
    rewrite list_insert_id, <- (ok_vin _ _ _ Hok) by done. by destruct t. }
  destruct (sign_round t ins i _ k p (ok_vin _ _ _ Hok) Hi Hsi Hk Hpre) as (sig & out & E & Hsig & Hof).
  rewrite apply_multisig_next in E by done. cbn [length] in Hlen.
  assert (Forall short_push (sigs ++ [sig])) as Hsigs' by (apply Forall_app; split; [done|by apply List.Forall_cons; [|apply List.Forall_nil]]).
  assert (varstr_ok (sigs_script script (sigs ++ [sig]))) as Hvs by (apply sigs_script_ok; [done|done|rewrite length_app; cbn [length]; lia]).
  destruct (put_script_ok t ins outs n i _ Hok Hi Hvs) as [Hok1 Hs1].
  destruct (IH _ _ (mk_tx_in (prevout i) (Some (sigs_script script (sigs ++ [sig]))) (sequence i)) (sigs ++ [sig]) Hok1)
    as (t' & sigs' & E' & Hshort & Hall & Et'); [by apply list_lookup_insert_eq; eapply lookup_lt_Some|done|done|rewrite length_app; cbn [length]; lia| |].
  - by rewrite (sighash_scripts t _ ins _ outs _ n h Hok Hok1 Hs1).
  - exists t', (sig :: sigs'). cbn [sign_rounds]. rewrite E. rewrite <- app_assoc in Hshort, Et'. split_and!; [done|done|by constructor|].
    rewrite Et'. apply put_twice.
Qed.
End rounds.

(** C6: an input that several keys have to sign, when its script takes at most 75 bytes: starting from an
    empty script, each call keeps the signatures that are there and adds that of its key; in the end
    the script is OP_0, the signatures in the order of the calls, each of them verified by its key for
    the hash of the transaction as it was, and the pushed script. *)
Theorem multisig_rounds (script : bytes) (n : nat) (h : Z) (keys : list bytes) (ps : list point) (t : tx) (ins : list tx_in) (outs : list tx_out)
  (i : tx_in) (pre : bytes) (Hok : tx_ok t ins outs) (Hc : (script_classify script []).1 = TX_MULTISIG) (Hl : (length script <= 75)%nat)
  (Hh : 0 <= h < 256) (Hks : Forall2 good_key keys ps) (Hne : (0 < length keys <= 16)%nat) (Hi : ins !! n = Some i) (Hsi : script_sig i = Some [])
  (Hpre : sighash_preimage t script n h = Some (Some pre)) :
  exists t' s sigs, sign_rounds script n h keys t = Some t' /\ t' = put_script t ins n i s /\
    Forall2 (fun kp sig => sig_of (dogecoin_hash pre) h kp.1 kp.2 sig) (zip keys ps) sigs /\
    script_get_ops s [] = (true, mk_op 0 (Some []) 0 :: (item_op ∘ IPush <$> sigs) ++ [item_op (IPush script)]).
Proof.
  assert (short_push script) as Hs by (unfold short_push; destruct script; [done|cbn [length] in *; lia]).
  destruct Hks as [|k p keys ps Hk Hks]; [cbn in Hne; lia|]. cbn [length] in Hne.
  destruct (sign_round script n h pre Hc t ins i [] k p (ok_vin _ _ _ Hok) Hi Hsi Hk Hpre) as (sig & out & E & Hsig & Hof).
  rewrite apply_multisig_first in E by done.
  assert (Forall short_push [sig]) as Hsigs by (by apply List.Forall_cons; [|apply List.Forall_nil]).
  assert (varstr_ok (sigs_script script [sig])) as Hvs by (apply sigs_script_ok; [done|done|cbn [length]; lia]).
  destruct (put_script_ok t ins outs n i _ Hok Hi Hvs) as [Hok1 Hs1].
  destruct (rounds_from script n h pre outs Hc Hs Hh keys ps Hks _ _ (mk_tx_in (prevout i) (Some (sigs_script script [sig])) (sequence i)) [sig] Hok1)
    as (t' & sigs' & E' & Hshort & Hall & Et'); [by apply list_lookup_insert_eq; eapply lookup_lt_Some|done|done|cbn [length]; lia| |].
  - by rewrite (sighash_scripts t _ ins _ outs _ n h Hok Hok1 Hs1).
  - exists t', (sigs_script script (sig :: sigs')), (sig :: sigs'). cbn [sign_rounds]. rewrite E. split_and!; [done| |by constructor|by apply parse_sigs].
    rewrite Et'. apply put_twice.
Qed.

(** ** Longer scripts *)

Lemma get_ops_loop_acc fuel buf out : get_ops_loop fuel buf out = let '(r, ops) := get_ops_loop fuel buf [] in (r, out ++ ops).
Proof.
  revert buf out. induction fuel as [|fuel IH]; intros buf out; destruct buf as [|b buf]; cbn [get_ops_loop app]; try by rewrite app_nil_r.
  destruct (get_op (b :: buf)) as [[o|] rest]; [|by rewrite app_nil_r]. rewrite IH, (IH rest [o]).
  destruct (get_ops_loop fuel rest []) as [r ops]. by rewrite <- app_assoc.
Qed.

Lemma get_ops_items its rest : Forall item_ok its -> rest <> [] ->
  script_get_ops (build its ++ rest) [] = let '(r, ops) := script_get_ops rest [] in (r, (item_op <$> its) ++ ops).
Proof.
  intros Hok Hne. unfold script_get_ops. assert (0 < length rest)%nat as Hlr by (destruct rest; [done|cbn; lia]).
  rewrite !(proj2 (Z.eqb_neq _ _)) by (rewrite ?length_app; lia).
  induction its as [|it its IH]; [cbn [build foldl app fmap list_fmap]; by destruct (get_ops_loop _ rest [])|].
  rewrite build_cons by done. pose proof (Forall_cons_1 _ _ _ Hok) as [Hit Hits]. pose proof (emit_length _ Hit) as Hle. rewrite <- app_assoc.
  destruct (emit [] it ++ build its ++ rest) as [|b buf] eqn:E; [by apply app_eq_nil in E as [_ [_ ?]%app_eq_nil]|].
  cbn [length get_ops_loop]. rewrite <- E, get_op_emit; [|done|by intros _; destruct (build its), rest].
  assert (length (build its ++ rest) <= length buf)%nat as Hf.
  { apply (f_equal length) in E. rewrite length_app in E. cbn [length] in E. lia. }
  rewrite get_ops_loop_acc, get_ops_loop_fuel, IH by done.
  by destruct (get_ops_loop (length rest) rest []).
Qed.

(** C7: a script of 79 to 252 bytes, as those for three and up to seven compressed keys are, is not
    pushed: its length is written where an operation is expected.  The call reports success; what
    it wrote is parsed as the signature, an operation whose number is that length, and then the
    operations of the script themselves. *)
Theorem long_script_not_pushed (script : bytes) (n : nat) (h : Z) (k : bytes) (p : point) (t : tx) (ins : list tx_in) (i : tx_in) (pre : bytes)
  (Hv : vin t = Some ins) (Hc : (script_classify script []).1 = TX_MULTISIG) (Hl : (79 <= length script <= 252)%nat) (Hk : good_key k p)
  (Hi : ins !! n = Some i) (Hsi : script_sig i = Some []) (Hpre : sighash_preimage t script n h = Some (Some pre)) :
  exists s sig out, tx_sign_input (Some t) (Some script) k n h = Some (SIGN_OK, Some (put_script t ins n i s), out) /\
    sig_of (dogecoin_hash pre) h k p sig /\
    script_get_ops s [] = let '(r, ops) := script_get_ops script [] in
      (r, [mk_op 0 (Some []) 0; item_op (IPush sig); mk_op (Z.of_nat (length script)) None 0] ++ ops).
Proof.
  destruct (sign_round script n h pre Hc t ins i [] k p Hv Hi Hsi Hk Hpre) as (sig & out & E & Hsig & Hof).
  exists (apply_multisig script [] sig), sig, out. split_and!; [done|done|]. unfold short_push in Hsig.
  assert (apply_multisig script [] sig = build [IPush []; IPush sig; IOp (Z.of_nat (length script))] ++ script) as ->.
  { unfold apply_multisig. cbv zeta. change (existing_sigs script []) with (@nil script_op). cbn [foldl]. rewrite (ser_push _ sig) by lia.
    unfold build. cbn [foldl]. change (emit [] (IPush [])) with (ser_bytes [] (le_enc 1 OP_0)). unfold ser_varlen at 1. rewrite (proj2 (Z.ltb_lt _ _)) by lia. done. }
  rewrite get_ops_items; [done| |by destruct script; [cbn in Hl; lia|]].
  apply List.Forall_cons; [done|]. apply List.Forall_cons; [cbn [item_ok]; lia|]. apply List.Forall_cons; [|apply List.Forall_nil].
  cbn [item_ok]. unfold OP_PUSHDATA4. lia.
Qed.

(** ** What a call changes *)

Lemma pubkeyhash_push script pushes : script_classify script [] = (TX_PUBKEYHASH, pushes) -> exists hash, pushes = [hash].
Proof.
  unfold script_classify. destruct (script_get_ops script []) as [b ops]. destruct (script_is_pubkeyhash ops []) as [b1 d1] eqn:E1.
  destruct (script_is_scripthash ops d1) as [b2 d2] eqn:E2. destruct (script_is_pubkey ops d2) as [b3 d3] eqn:E3.
  destruct (script_is_multisig ops), b3, b2, b1; intros [= <-].
  destruct (pubkeyhash_shape ops [] ltac:(by rewrite E1)) as (o0 & o1 & o2 & o3 & o4 & -> & _). cbn in E2, E3. injection E2 as <-. injection E3 as <-.
  unfold script_is_pubkeyhash in E1. destruct (_ && _) in E1; [|done]. injection E1 as <-. by eexists.
Qed.

(** Every call leaves the transaction as it is, up to the script of the input; and it leaves that
    one, too, unless the result is success or a key that does not match.  In the latter case
    the input is signed all the same. *)
Theorem sign_input_changes (t : tx) (ins : list tx_in) (script : bytes) (k : bytes) (n : nat) (h : Z) (r : tx_sign_result) (t' : option tx) (out : sign_out)
  (Hv : vin t = Some ins) (E : tx_sign_input (Some t) (Some script) k n h = Some (r, t', out)) :
  (t' = Some t \/ exists i s, ins !! n = Some i /\ t' = Some (put_script t ins n i s)) /\
  (r <> SIGN_OK -> r <> SIGN_NO_KEY_MATCH -> t' = Some t) /\
  (r = SIGN_NO_KEY_MATCH -> exists i s0 sig pk, ins !! n = Some i /\ script_sig i = Some s0 /\ t' = Some (put_script t ins n i (apply_pubkeyhash s0 sig pk))).
Proof.
  unfold tx_sign_input in E. rewrite Hv in E. cbn [mbind option_bind] in E.
  destruct (ins !! n) as [i|] eqn:Hi; [|by injection E as <- <- <-; split_and!; [left| |]].
  destruct (privkey_is_valid k); cbn [negb] in E; [|by injection E as <- <- <-; split_and!; [left| |]].
  destruct (pubkey_from_key k pubkey_init) as [pk|]; cbn [mbind option_bind] in E; [|done].
  destruct (pubkey_is_valid pk); cbn [negb] in E; [|by injection E as <- <- <-; split_and!; [left| |]].
  destruct (script_classify script []) as [ty pushes] eqn:Hc.
  destruct (tx_sighash t script n h) as [[[] sh]|]; cbn [mbind option_bind negb] in E; [|by injection E as <- <- <-; split_and!; [left| |]|done].
  destruct (sign_both k (default (zeros 32) sh)) as [[[sig []] der]|]; cbn [mbind option_bind negb] in E; [|by injection E as <- <- <-; split_and!; [left| |]|done].
  destruct ty; try (by injection E as <- <- <-; split_and!; [left| |]);
    destruct (script_sig i) as [s0|] eqn:Hs0; cbn [mbind option_bind] in E; try done; injection E as <- <- <-; split_and!;
    try (by right; eauto); try done; [|by intros _; eauto 10].
  destruct (pubkeyhash_push _ _ Hc) as [hash ->]. unfold first_result. by destruct (bytes_eqb _ _).
Qed.
End laws.
End with_library.

(** ** Examples *)

Lemma all_preimage t ins outs sc n h : tx_ok t ins outs -> (n < length ins)%nat -> hashtype_all h -> exists pre, sighash_preimage t sc n h = Some (Some pre).
Proof. intros Hok Hn Hh. eexists. by apply (preimage_all t ins outs). Qed.

Lemma hashtype_1 : hashtype_all 1.
Proof. repeat split; discriminate. Qed.

(** Two inputs without scripts. *)
Definition open_ins : list tx_in := [mk_tx_in (mk_outpoint (zeros 32) 7) (Some []) 9; mk_tx_in (mk_outpoint (zeros 32) 8) (Some []) 9].
Definition open_tx : tx := mk_tx 1 (Some open_ins) (Some [demo_out]) 5.

Lemma open_tx_ok : tx_ok open_tx open_ins [demo_out].
Proof.
  destruct demo_tx_ok as [A1 A2 A3 A4 A5 A6 A7 A8]. split; try done.
  apply List.Forall_cons; [|apply List.Forall_cons; [|apply List.Forall_nil]]; split_and!; try done; by exists [].
Qed.

Definition demo_key (b : Byte.byte) : bytes := replicate 32 b.
Definition demo_point (b : Byte.byte) : sized 32 := of_bytes 32 (demo_key b).

Lemma demo_good b : not_zero (be_dec (demo_key b)) = true -> good_key (L := integers not_zero) (demo_key b) (demo_point b).
Proof. intros H. split; [done|]. split; [exact H|]. change (int_point not_zero (demo_key b) = Some (demo_point b)). unfold int_point, int_key. by rewrite H. Qed.

Lemma demo_job (n : nat) b : not_zero (be_dec (demo_key b)) = true -> (n < 2)%nat -> job_ok (L := integers not_zero) open_tx open_ins (mk_job n (demo_key b) 1).
Proof.
  intros Hb Hn. split; [by exists (demo_point b); apply demo_good|]. split; [cbn; lia|].
  split; [by apply (all_preimage open_tx open_ins [demo_out]); [apply open_tx_ok| |apply hashtype_1]|].
  destruct n as [|[|]]; [by eexists..|lia].
Qed.


(** Two keys of which both have to sign: 71 bytes; three, of which two: 105 bytes. *)
Definition some_keys (n : nat) : list pubkey := (fun i => mk_pubkey true (Byte.x02 :: byte.of_Z (Z.of_nat i) :: zeros 63)) <$> seq 1 n.
Definition redeem_script (n : nat) : bytes := (script_build_multisig 2 (Some (some_keys n))).2.

Lemma multisig_rounds_witness :
  exists t' s sigs, sign_rounds (L := integers not_zero) (redeem_script 2) 0 1 [demo_key Byte.x01; demo_key Byte.x02] open_tx = Some t' /\
    t' = put_script open_tx open_ins 0 (mk_tx_in (mk_outpoint (zeros 32) 7) (Some []) 9) s /\
    Forall2 (fun kp sig => sig_of (L := integers not_zero)
        (dogecoin_hash (default [] (default None (sighash_preimage open_tx (redeem_script 2) 0 1)))) 1 kp.1 kp.2 sig)
      (zip [demo_key Byte.x01; demo_key Byte.x02] [demo_point Byte.x01; demo_point Byte.x02]) sigs /\
    script_get_ops s [] = (true, mk_op 0 (Some []) 0 :: (item_op ∘ IPush <$> sigs) ++ [item_op (IPush (redeem_script 2))]).
Proof.
  apply (multisig_rounds (L := integers not_zero) (redeem_script 2) 0 1 [demo_key Byte.x01; demo_key Byte.x02] [demo_point Byte.x01; demo_point Byte.x02]
    open_tx open_ins [demo_out] _ _ open_tx_ok); try (vm_compute; reflexivity); try lia.
  - apply Nat.leb_le. vm_compute. reflexivity.
  - repeat constructor; apply demo_good; reflexivity.
  - cbn [length]. lia.
Defined.

Lemma long_script_not_pushed_witness :
  exists s sig out, tx_sign_input (L := integers not_zero) (Some open_tx) (Some (redeem_script 3)) (demo_key Byte.x01) 0 1 =
      Some (SIGN_OK, Some (put_script open_tx open_ins 0 (mk_tx_in (mk_outpoint (zeros 32) 7) (Some []) 9) s), out) /\
    sig_of (L := integers not_zero) (dogecoin_hash (default [] (default None (sighash_preimage open_tx (redeem_script 3) 0 1)))) 1
      (demo_key Byte.x01) (demo_point Byte.x01) sig /\
    script_get_ops s [] = let '(r, ops) := script_get_ops (redeem_script 3) [] in
      (r, [mk_op 0 (Some []) 0; item_op (IPush sig); mk_op (Z.of_nat (length (redeem_script 3))) None 0] ++ ops).
Proof.
  apply (long_script_not_pushed (L := integers not_zero) (redeem_script 3) 0 1 (demo_key Byte.x01) (demo_point Byte.x01) open_tx open_ins);
    try (vm_compute; reflexivity).
  - split; apply Nat.leb_le; vm_compute; reflexivity.
  - apply demo_good. reflexivity.
Defined.
