(* ===== verification/Registry.v ===== *)
(** * The registry of transactions ([src/src/transaction.c])

    A context keeps working transactions in a table, finds them by their number, and counts the
    references it hands out: an entry that is removed while somebody holds a reference is freed
    with the last release.  Objects live in a store, a pointer is its key, and the use of one that
    has been freed has no result.  The sections under the lock are the steps; what the client
    does between them comes from a list of steps. *)

From stdpp Require Import gmap.
From S2P Require Import Prelude Words Tx.

Local Open Scope Z_scope.

(** ** The state *)

Record working_transaction := mk_working { wt_idx : Z; wt_tx : tx; wt_refcount : Z; wt_pending : bool }.

(** The context, with the pointers of its table in the order of insertion, and the store. *)
Record registry := mk_registry {
  transactions : list nat;
  next_idx : Z;
  objects : gmap nat working_transaction;
  unused : nat
}.

(** [dogecoin_transaction_context_new] *)
Definition context_new : registry := mk_registry [] 0 ∅ 0.

Definition M (A : Type) : Type := registry -> option (A * registry).

#[export] Instance M_ret : MRet M := fun A a st => Some (a, st).
#[export] Instance M_bind : MBind M := fun A B f m st => '(a, st) ← m st; f a st.

(** Undefined when the option is [None]. *)
Definition lift {A} (o : option A) : M A := fun st => a ← o; Some (a, st).

Definition get_table : M (list nat) := fun st => Some (transactions st, st).
Definition set_table (ps : list nat) : M unit := fun st => Some (tt, mk_registry ps (next_idx st) (objects st) (unused st)).

Definition get_obj (p : nat) : M working_transaction := fun st => w ← objects st !! p; Some (w, st).
Definition with_objects (st : registry) (m : gmap nat working_transaction) : registry := mk_registry (transactions st) (next_idx st) m (unused st).
Definition put_obj (p : nat) (w : working_transaction) : M unit := fun st =>
  _ ← objects st !! p; Some (tt, with_objects st (<[p := w]> (objects st))).
Definition free_obj (p : nat) : M unit := fun st =>
  _ ← objects st !! p; Some (tt, with_objects st (delete p (objects st))).
Definition alloc_obj (w : working_transaction) : M nat := fun st =>
  Some (unused st, mk_registry (transactions st) (next_idx st) (<[unused st := w]> (objects st)) (S (unused st))).

(** [(int)++ctx->next_idx] *)
Definition mint : M Z := fun st =>
  let n := u32 (next_idx st + 1) in Some (s32 n, mk_registry (transactions st) n (objects st) (unused st)).

(** ** Under the lock *)

Definition set_idx (w : working_transaction) (idx : Z) : working_transaction := mk_working idx (wt_tx w) (wt_refcount w) (wt_pending w).
Definition set_refcount (w : working_transaction) (n : Z) : working_transaction := mk_working (wt_idx w) (wt_tx w) n (wt_pending w).
Definition set_pending (w : working_transaction) : working_transaction := mk_working (wt_idx w) (wt_tx w) (wt_refcount w) true.
Definition set_tx (w : working_transaction) (t : tx) : working_transaction := mk_working (wt_idx w) t (wt_refcount w) (wt_pending w).

Definition new_transaction_locked : M nat :=
  p ← alloc_obj (mk_working 0 tx_new 0 false);
  idx ← mint;
  w ← get_obj p;
  _ ← put_obj p (set_idx w idx);
  mret p.

Definition dispose_unlinked_transaction_locked (p : nat) : M unit :=
  w ← get_obj p;
  if 0 <? wt_refcount w then put_obj p (set_pending w) else free_obj p.

(** [HASH_FIND_INT]: the numbers are those in the objects. *)
Fixpoint hash_find (idx : Z) (ps : list nat) : M (option nat) :=
  match ps with
  | [] => mret None
  | p :: ps => w ← get_obj p; if wt_idx w =? idx then mret (Some p) else hash_find idx ps
  end.

Definition find_transaction_locked (idx : Z) : M (option nat) := ps ← get_table; hash_find idx ps.

Definition add_transaction_locked (p : nat) : M unit :=
  w ← get_obj p;
  r ← find_transaction_locked (wt_idx w);
  match r with
  | None => ps ← get_table; set_table (ps ++ [p])
  | Some _ => mret tt
  end.

(** [HASH_DEL]; undefined on an object that is not in the table. *)
Definition hash_del (p : nat) : M unit :=
  ps ← get_table;
  _ ← get_obj p;
  if decide (p ∈ ps) then set_table (filter (fun q => q <> p) ps) else lift None.

Definition remove_transaction_locked (p : nat) : M unit :=
  _ ← hash_del p;
  dispose_unlinked_transaction_locked p.

Definition release_transaction_locked (working_tx : option nat) : M unit :=
  match working_tx with
  | None => mret tt
  | Some p =>
      w ← get_obj p;
      let w := if 0 <? wt_refcount w then set_refcount w (wt_refcount w - 1) else w in
      _ ← put_obj p w;
      if (wt_refcount w =? 0) && wt_pending w then free_obj p else mret tt
  end.

(** ** The operations *)

Definition INT_MAX : Z := 2 ^ 31 - 1.

Definition new_transaction_ts : M nat := new_transaction_locked.
Definition add_transaction_ts (working_tx : option nat) : M unit :=
  match working_tx with Some p => add_transaction_locked p | None => mret tt end.

(** Without a reference: [find_transaction] *)
Definition find_transaction (idx : Z) : M (option nat) := find_transaction_locked idx.

Definition find_transaction_ts (idx : Z) : M (option nat) :=
  r ← find_transaction_locked idx;
  match r with
  | None => mret None
  | Some p =>
      w ← get_obj p;
      _ ← (if wt_refcount w =? INT_MAX then lift None else put_obj p (set_refcount w (wt_refcount w + 1)));
      mret (Some p)
  end.
Definition acquire_transaction_ts : Z -> M (option nat) := find_transaction_ts.

Definition release_transaction_ts (working_tx : option nat) : M unit :=
  match working_tx with Some p => release_transaction_locked (Some p) | None => mret tt end.

(** [fn]: what the callback does to the transaction; it must not use the registry. *)
Definition with_transaction_ts (idx : Z) (fn : tx -> tx) : M bool :=
  r ← find_transaction_locked idx;
  match r with
  | None => mret false
  | Some p => w ← get_obj p; _ ← put_obj p (set_tx w (fn (wt_tx w))); mret true
  end.

Definition remove_transaction_ts (working_tx : option nat) : M unit :=
  match working_tx with Some p => remove_transaction_locked p | None => mret tt end.

Fixpoint remove_each (ps : list nat) : M unit :=
  match ps with [] => mret tt | p :: ps => _ ← remove_transaction_locked p; remove_each ps end.
Definition remove_all_ts : M unit := ps ← get_table; remove_each ps.

Definition get_transaction_count_ts : M Z := ps ← get_table; mret (Z.of_nat (length ps)).

Definition start_transaction_ts : M Z :=
  p ← new_transaction_locked;
  w ← get_obj p;
  _ ← add_transaction_locked p;
  mret (wt_idx w).

Definition clear_transaction_ts (idx : Z) : M unit :=
  r ← find_transaction_locked idx;
  match r with Some p => remove_transaction_locked p | None => mret tt end.

(** The assertion that no entry is held fails without a result. *)
Fixpoint none_held (ps : list nat) : M unit :=
  match ps with [] => mret tt | p :: ps => w ← get_obj p; if wt_refcount w =? 0 then none_held ps else lift None end.
Definition transaction_context_free : M unit := ps ← get_table; _ ← none_held ps; remove_all_ts.

(** [working_tx->transaction], read and written *)
Definition get_tx (p : nat) : M tx := w ← get_obj p; mret (wt_tx w).
Definition put_tx (p : nat) (t : tx) : M unit := w ← get_obj p; put_obj p (set_tx w t).

(** ** Runs that have a result *)

Definition runs {A} (m : M A) (st : registry) (Q : A -> registry -> Prop) : Prop := exists a st', m st = Some (a, st') /\ Q a st'.

Lemma runs_bind {A B} (m : M A) (f : A -> M B) st Q : runs m st (fun a st' => runs (f a) st' Q) -> runs (m ≫= f) st Q.
Proof. intros (a & st1 & E & b & st2 & E' & H). exists b, st2. split; [|done]. unfold mbind, M_bind. rewrite E. done. Qed.

Lemma runs_ret {A} (a : A) st (Q : A -> registry -> Prop) : Q a st -> runs (mret a) st Q.
Proof. intros H. by exists a, st. Qed.

Lemma runs_weaken {A} (m : M A) st (P Q : A -> registry -> Prop) : runs m st P -> (forall a st', P a st' -> Q a st') -> runs m st Q.
Proof. intros (a & st' & E & H) HQ. exists a, st'. auto. Qed.

Lemma runs_get_table st (Q : list nat -> registry -> Prop) : Q (transactions st) st -> runs get_table st Q.
Proof. intros H. by eexists _, _. Qed.

Lemma runs_get_obj p w st (Q : working_transaction -> registry -> Prop) : objects st !! p = Some w -> Q w st -> runs (get_obj p) st Q.
Proof. intros E H. exists w, st. unfold get_obj. by rewrite E. Qed.

Lemma runs_put_obj p w w' st (Q : unit -> registry -> Prop) :
  objects st !! p = Some w -> Q tt (with_objects st (<[p := w']> (objects st))) -> runs (put_obj p w') st Q.
Proof. intros E H. eexists _, _. unfold put_obj. by rewrite E. Qed.

Lemma runs_free_obj p w st (Q : unit -> registry -> Prop) :
  objects st !! p = Some w -> Q tt (with_objects st (delete p (objects st))) -> runs (free_obj p) st Q.
Proof. intros E H. eexists _, _. unfold free_obj. by rewrite E. Qed.

Ltac steps :=
  repeat first [ apply runs_bind | apply runs_get_table | eapply runs_get_obj; [eassumption|] | eapply runs_put_obj; [eassumption|]
               | eapply runs_free_obj; [eassumption|] | apply runs_ret ].

(** ** The invariant *)

(** How many of the references are to [p]. *)
Definition holds (held : list nat) (p : nat) : Z := Z.of_nat (count_occ Nat.eq_dec held p).

(** [held]: the references that clients have not released yet.  An entry of the table is live and
    its number is its own; an object that is not in the table is one that somebody holds. *)
Record registry_ok (held : list nat) (st : registry) : Prop := {
  ok_table : NoDup (transactions st);
  ok_linked : forall p, p ∈ transactions st -> exists w, objects st !! p = Some w /\ wt_pending w = false;
  ok_object : forall p w, objects st !! p = Some w -> wt_refcount w = holds held p /\ 1 <= wt_idx w <= next_idx st /\ (p < unused st)%nat;
  ok_unlinked : forall p w, objects st !! p = Some w -> p ∉ transactions st -> wt_pending w = true /\ 0 < wt_refcount w;
  ok_held : forall p, p ∈ held -> is_Some (objects st !! p);
  ok_numbers : forall p q w v, p ∈ transactions st -> q ∈ transactions st -> objects st !! p = Some w -> objects st !! q = Some v -> wt_idx w = wt_idx v -> p = q;
  ok_next_idx : 0 <= next_idx st
}.

(** What the table says: the transaction of each number. *)
Fixpoint table_map (objs : gmap nat working_transaction) (ps : list nat) : gmap Z tx :=
  match ps with
  | [] => ∅
  | p :: ps => match objs !! p with Some w => <[wt_idx w := wt_tx w]> (table_map objs ps) | None => table_map objs ps end
  end.
Definition registry_map (st : registry) : gmap Z tx := table_map (objects st) (transactions st).

Lemma holds_zero held p : p ∉ held <-> holds held p = 0.
Proof. unfold holds. rewrite list_elem_of_In, (count_occ_not_In Nat.eq_dec). lia. Qed.

Lemma holds_nonneg held p : 0 <= holds held p.
Proof. unfold holds. lia. Qed.

Lemma holds_cons held p q : holds (q :: held) p = (if decide (p = q) then 1 else 0) + holds held p.
Proof. unfold holds. cbn [count_occ]. destruct (Nat.eq_dec q p), (decide (p = q)); subst; try done; lia. Qed.

Lemma holds_perm h h' p : h ≡ₚ h' -> holds h p = holds h' p.
Proof. intros H. unfold holds. f_equal. by apply Permutation_count_occ. Qed.

Lemma context_ok : registry_ok [] context_new.
Proof. split; cbn; try done; try constructor; intros; try by (exfalso; eapply not_elem_of_nil). Qed.

Lemma hash_find_spec idx st ps : (forall p, p ∈ ps -> exists w, objects st !! p = Some w) ->
  (hash_find idx ps st = Some (None, st) /\ table_map (objects st) ps !! idx = None) \/
  (exists p w, p ∈ ps /\ objects st !! p = Some w /\ wt_idx w = idx /\ hash_find idx ps st = Some (Some p, st) /\ table_map (objects st) ps !! idx = Some (wt_tx w)).
Proof.
  induction ps as [|p ps IH]; intros Hl; [by left|]. cbn [hash_find table_map].
  destruct (Hl p ltac:(left)) as [w Hw]. unfold mbind, M_bind, get_obj. rewrite Hw. cbn [mbind option_bind].
  destruct (Z.eqb_spec (wt_idx w) idx) as [<-|Hne].
  - right. exists p, w. rewrite lookup_insert_eq. split_and!; try done. left.
  - rewrite lookup_insert_ne by done. destruct IH as [[E1 E2]|(q & v & Hq & Hv & Hi & E1 & E2)]; [intros q Hq; apply Hl; by right| |].
    + left. done.
    + right. exists q, v. split_and!; try done. by right.
Qed.

Section ok.
Context {held : list nat} {st : registry} (Hok : registry_ok held st).

Lemma linked_live p : p ∈ transactions st -> exists w, objects st !! p = Some w.
Proof using Hok. intros Hp. destruct (ok_linked _ _ Hok p Hp) as (w & Hw & _). by exists w. Qed.

Lemma map_entry p w : p ∈ transactions st -> objects st !! p = Some w -> registry_map st !! wt_idx w = Some (wt_tx w).
Proof using Hok.
  intros Hp Hw. destruct (hash_find_spec (wt_idx w) st (transactions st) linked_live) as [[E1 E2]|(q & v & Hq & Hv & Hi & _ & E)].
  - exfalso. clear E1. revert Hp E2. generalize (transactions st). intros ps. induction ps as [|q ps IH]; [by intros ?%not_elem_of_nil|].
    intros [->|Hp]%elem_of_cons; cbn [table_map]; [by rewrite Hw, lookup_insert_eq|].
    destruct (objects st !! q) as [v|]; [|by auto]. intros [H _]%lookup_insert_None. by apply IH.
  - unfold registry_map. rewrite E. rewrite (ok_numbers _ _ Hok q p v w Hq Hp Hv Hw Hi) in Hv. congruence.
Qed.

Lemma map_lookup idx t : registry_map st !! idx = Some t <->
  exists p w, p ∈ transactions st /\ objects st !! p = Some w /\ wt_idx w = idx /\ wt_tx w = t.
Proof using Hok.
  split.
  - intros H. destruct (hash_find_spec idx st (transactions st) linked_live) as [[_ E]|(q & v & Hq & Hv & Hi & _ & E)]; unfold registry_map in H; [congruence|].
    exists q, v. split_and!; try done. congruence.
  - intros (p & w & Hp & Hw & <- & <-). by eapply map_entry.
Qed.

Lemma find_locked_spec idx : 
  (find_transaction_locked idx st = Some (None, st) /\ registry_map st !! idx = None) \/
  (exists p w, p ∈ transactions st /\ objects st !! p = Some w /\ wt_idx w = idx /\ find_transaction_locked idx st = Some (Some p, st) /\
    registry_map st !! idx = Some (wt_tx w)).
Proof using Hok. exact (hash_find_spec idx st (transactions st) linked_live). Qed.
End ok.

(** ** What the steps do *)

(** An object changes, not its number. *)
Lemma update_ok held held' st p w w' : registry_ok held st -> objects st !! p = Some w -> wt_idx w' = wt_idx w -> wt_pending w' = wt_pending w ->
  wt_refcount w' = holds held' p -> (forall q, q <> p -> holds held' q = holds held q) -> (p ∉ transactions st -> 0 < wt_refcount w') ->
  registry_ok held' (with_objects st (<[p := w']> (objects st))).
Proof.
  intros Hok Hw Hi Hp Hr Hq Hpos. split; cbn [transactions next_idx objects unused with_objects].
  - apply (ok_table _ _ Hok).
  - intros q Hin. destruct (ok_linked _ _ Hok q Hin) as (v & Hv & Hpv). destruct (decide (q = p)) as [->|].
    + exists w'. rewrite lookup_insert_eq. split; [done|]. congruence.
    + exists v. by rewrite lookup_insert_ne.
  - intros q v Hv. destruct (decide (q = p)) as [->|Hne].
    + rewrite lookup_insert_eq in Hv. simplify_eq. destruct (ok_object _ _ Hok p w Hw) as (_ & ? & ?). rewrite Hi. done.
    + rewrite lookup_insert_ne in Hv by done. rewrite Hq by done. by apply (ok_object _ _ Hok).
  - intros q v Hv Hin. destruct (decide (q = p)) as [->|Hne].
    + rewrite lookup_insert_eq in Hv. simplify_eq. destruct (ok_unlinked _ _ Hok p w Hw Hin). split; [congruence|auto].
    + rewrite lookup_insert_ne in Hv by done. by apply (ok_unlinked _ _ Hok q).
  - intros q Hin. destruct (decide (q = p)) as [->|Hne]; [by rewrite lookup_insert_eq|]. rewrite lookup_insert_ne by done.
    apply (ok_held _ _ Hok). destruct (decide (q ∈ held)) as [|Hn]; [done|]. apply holds_zero in Hn. rewrite <- Hq in Hn by done. by apply holds_zero in Hn.
  - assert (forall q v, (<[p := w']> (objects st)) !! q = Some v -> exists u, objects st !! q = Some u /\ wt_idx u = wt_idx v) as Hback.
    { intros q v Hv. destruct (decide (q = p)) as [->|Hne]; [rewrite lookup_insert_eq in Hv; simplify_eq; eauto|].
      rewrite lookup_insert_ne in Hv by done. eauto. }
    intros q r v u Hq1 Hr1 (v' & Hv' & Ev)%Hback (u' & Hu' & Eu)%Hback E. eapply (ok_numbers _ _ Hok q r); eauto. congruence.
  - apply (ok_next_idx _ _ Hok).
Qed.

(** What the table says after a change of an object. *)
Lemma update_map held held' st p w w' : registry_ok held st -> objects st !! p = Some w -> wt_idx w' = wt_idx w ->
  let st' := with_objects st (<[p := w']> (objects st)) in registry_ok held' st' ->
  registry_map st' = if decide (p ∈ transactions st) then <[wt_idx w := wt_tx w']> (registry_map st) else registry_map st.
Proof.
  intros Hok Hw Hi st' Hok'. apply map_eq. intros idx. apply option_eq. intros t. rewrite (map_lookup Hok').
  unfold st'. cbn [transactions objects with_objects].
  assert (registry_map st !! idx = Some t <-> exists q v, q ∈ transactions st /\ objects st !! q = Some v /\ wt_idx v = idx /\ wt_tx v = t) as Hl
    by apply (map_lookup Hok).
  case_decide as Hp; [destruct (decide (wt_idx w = idx)) as [<-|Hne]|].
  - rewrite lookup_insert_eq. split.
    + intros (q & v & Hq & Hv & E & <-). destruct (decide (q = p)) as [->|Hne]; [by rewrite lookup_insert_eq in Hv; simplify_eq|].
      rewrite lookup_insert_ne in Hv by done. by destruct (Hne (ok_numbers _ _ Hok q p v w Hq Hp Hv Hw E)).
    + intros [= <-]. exists p, w'. by rewrite lookup_insert_eq.
  - rewrite lookup_insert_ne, Hl by done. split; intros (q & v & Hq & Hv & E & <-); exists q, v; (destruct (decide (q = p)) as [->|]);
      rewrite ?lookup_insert_eq, ?lookup_insert_ne in * by done; simplify_eq; try congruence; done.
  - rewrite Hl. split; intros (q & v & Hq & Hv & E & <-); exists q, v; assert (p <> q) by congruence; by rewrite ?lookup_insert_ne in * by done.
Qed.

(** The same table with the same numbers. *)
Definition same_table (st st' : registry) : Prop :=
  transactions st' = transactions st /\ next_idx st' = next_idx st /\
  forall p, p ∈ transactions st -> wt_idx <$> objects st' !! p = wt_idx <$> objects st !! p.

Lemma same_table_refl st : same_table st st.
Proof. done. Qed.

Lemma same_table_trans st1 st2 st3 : same_table st1 st2 -> same_table st2 st3 -> same_table st1 st3.
Proof.
  intros (A1 & A2 & A3) (B1 & B2 & B3). split_and!; [congruence..|]. intros p Hp. rewrite B3 by (by rewrite A1). by apply A3.
Qed.

Lemma same_table_put st p w w' : objects st !! p = Some w -> wt_idx w' = wt_idx w -> same_table st (with_objects st (<[p := w']> (objects st))).
Proof.
  intros Hw Hi. split_and!; [done..|]. intros q Hq. cbn. destruct (decide (q = p)) as [->|].
  - rewrite lookup_insert_eq, Hw. cbn. by rewrite Hi.
  - by rewrite lookup_insert_ne.
Qed.

Lemma release_spec held st p : registry_ok (p :: held) st ->
  runs (release_transaction_ts (Some p)) st (fun _ st' => registry_ok held st' /\ registry_map st' = registry_map st /\ same_table st st').
Proof.
  intros Hok. destruct (ok_held _ _ Hok p ltac:(left)) as [w Hw]. destruct (ok_object _ _ Hok p w Hw) as (Hr & Hi & Hu).
  pose proof (holds_nonneg held p) as Hn. rewrite holds_cons, decide_True in Hr by done.
  unfold release_transaction_ts, release_transaction_locked. steps. rewrite (proj2 (Z.ltb_lt 0 _)) by lia.
  set (w' := set_refcount w (wt_refcount w - 1)). steps.
  destruct ((wt_refcount w' =? 0) && wt_pending w') eqn:E.
  - apply andb_prop in E as [E1%Z.eqb_eq E2]. cbn in E1, E2.
    assert (p ∉ transactions st) as Hnp by (intros Hp; destruct (ok_linked _ _ Hok p Hp) as (v & Hv & Hpv); congruence).
    eapply runs_free_obj; [cbn; by rewrite lookup_insert_eq|]. set (st1 := with_objects _ _).
    assert (objects st1 = delete p (objects st)) as Hobj by (unfold st1; cbn; by rewrite delete_insert_eq).
    assert (transactions st1 = transactions st) as Ht by done.
    assert (holds held p = 0) as H0 by lia.
    assert (registry_ok held st1) as Hok1.
    { split; rewrite ?Ht, ?Hobj.
      - apply (ok_table _ _ Hok).
      - intros q Hq. destruct (ok_linked _ _ Hok q Hq) as (v & Hv & Hpv). exists v. rewrite lookup_delete_ne by congruence. done.
      - intros q v [Hne Hv]%lookup_delete_Some. destruct (ok_object _ _ Hok q v Hv) as (A & B & C). rewrite A, holds_cons, decide_False by congruence. done.
      - intros q v [Hne Hv]%lookup_delete_Some. by apply (ok_unlinked _ _ Hok).
      - intros q Hq. rewrite lookup_delete_ne; [apply (ok_held _ _ Hok); by right|]. intros ->. by apply holds_zero in Hq.
      - intros q r v u Hq Hr' [_ Hv]%lookup_delete_Some [_ Hu']%lookup_delete_Some. by apply (ok_numbers _ _ Hok).
      - apply (ok_next_idx _ _ Hok). }
    split; [done|]. split; [|split_and!; [done..|]; intros q Hq; rewrite Hobj, lookup_delete_ne by congruence; done].
    apply map_eq. intros idx. apply option_eq. intros t. rewrite (map_lookup Hok1), (map_lookup Hok), Ht, Hobj.
    split; intros (q & v & Hq & Hv & E & Et); exists q, v; (split_and!; [done| |done..]).
    + by apply lookup_delete_Some in Hv as [_ Hv].
    + apply lookup_delete_Some. split; [congruence|done].
  - apply runs_ret.
    assert (registry_ok held (with_objects st (<[p := w']> (objects st)))) as Hok1.
    { eapply (update_ok (p :: held)); try done; cbn.
      - lia.
      - intros q Hq. by rewrite holds_cons, decide_False.
      - intros Hnp. destruct (ok_unlinked _ _ Hok p w Hw Hnp) as [Hpd Hpos]. apply andb_false_iff in E as [E|E]; cbn in E; [|congruence].
        apply Z.eqb_neq in E. lia. }
    split_and!; [done| |by eapply same_table_put]. rewrite (update_map _ _ st p w w' Hok Hw eq_refl Hok1). case_decide as Hp; [|done].
    apply insert_id. exact (map_entry Hok p w Hp Hw).
Qed.

Lemma find_ts_spec held st idx : registry_ok held st -> (forall p, holds held p < INT_MAX) ->
  runs (find_transaction_ts idx) st (fun r st' => registry_map st' = registry_map st /\ same_table st st' /\
    match r with
    | None => st' = st /\ registry_map st !! idx = None
    | Some p => registry_ok (p :: held) st' /\ p ∈ transactions st /\
        exists w, objects st !! p = Some w /\ objects st' !! p = Some (set_refcount w (wt_refcount w + 1)) /\ wt_idx w = idx /\
          registry_map st !! idx = Some (wt_tx w)
    end).
Proof.
  intros Hok Hmax. unfold find_transaction_ts. apply runs_bind.
  destruct (find_locked_spec Hok idx) as [[E Em]|(p & w & Hp & Hw & Hi & E & Em)].
  { eexists _, _. split; [exact E|]. by apply runs_ret. }
  eexists _, _. split; [exact E|]. steps. destruct (ok_object _ _ Hok p w Hw) as (Hr & Hrange & Hu).
  specialize (Hmax p). rewrite <- Hr in Hmax. rewrite (proj2 (Z.eqb_neq _ _)) by lia.
  set (w' := set_refcount w (wt_refcount w + 1)). steps.
  assert (registry_ok (p :: held) (with_objects st (<[p := w']> (objects st)))) as Hok1.
  { eapply (update_ok held); try done; cbn; [rewrite holds_cons, decide_True by done; lia|]. intros q Hq. by rewrite holds_cons, decide_False. }
  split_and!; [|by eapply same_table_put|done|done|].
  - rewrite (update_map _ _ st p w w' Hok Hw eq_refl Hok1). rewrite decide_True by done. apply insert_id. exact (map_entry Hok p w Hp Hw).
  - exists w. cbn. rewrite lookup_insert_eq. done.
Qed.

(** Writing to the transaction of an entry. *)
Lemma put_tx_spec held st p w t : registry_ok held st -> objects st !! p = Some w -> p ∈ transactions st ->
  runs (put_tx p t) st (fun _ st' => registry_ok held st' /\ registry_map st' = <[wt_idx w := t]> (registry_map st) /\ same_table st st' /\
    objects st' !! p = Some (set_tx w t)).
Proof.
  intros Hok Hw Hp. unfold put_tx. steps. destruct (ok_object _ _ Hok p w Hw) as (Hr & _).
  assert (registry_ok held (with_objects st (<[p := set_tx w t]> (objects st)))) as Hok1 by by eapply (update_ok held).
  split_and!; [done| |by eapply same_table_put|cbn; by rewrite lookup_insert_eq]. by rewrite (update_map _ _ st p w (set_tx w t) Hok Hw eq_refl Hok1), decide_True.
Qed.

(** Writing to a transaction somebody holds, which may have left the table. *)
Lemma put_tx_held held st p t : registry_ok held st -> p ∈ held -> runs (put_tx p t) st (fun _ st' => registry_ok held st' /\ same_table st st').
Proof.
  intros Hok Hp. destruct (ok_held _ _ Hok p Hp) as [w Hw]. unfold put_tx. steps. destruct (ok_object _ _ Hok p w Hw) as (Hr & _).
  split; [|by eapply same_table_put]. eapply (update_ok held); try done. intros Hn. by destruct (ok_unlinked _ _ Hok p w Hw Hn).
Qed.

Lemma remove_spec held st p w : registry_ok held st -> objects st !! p = Some w -> p ∈ transactions st ->
  runs (remove_transaction_locked p) st (fun _ st' => registry_ok held st' /\ registry_map st' = delete (wt_idx w) (registry_map st) /\
    transactions st' = filter (fun q => q <> p) (transactions st) /\ next_idx st' = next_idx st).
Proof.
  intros Hok Hw Hp. destruct (ok_object _ _ Hok p w Hw) as (Hr & Hi & Hu). unfold remove_transaction_locked, hash_del, dispose_unlinked_transaction_locked.
  steps. rewrite decide_True by done. eexists _, _. split; [reflexivity|]. set (ps := filter (fun q => q <> p) (transactions st)).
  assert (forall q, q ∈ ps <-> q ∈ transactions st /\ q <> p) as Hps by (intros q; unfold ps; rewrite list_elem_of_filter; tauto).
  steps. destruct (ok_linked _ _ Hok p Hp) as (w0 & Hw0 & Hpd). rewrite Hw in Hw0. injection Hw0 as <-.
  assert (forall st', transactions st' = ps -> next_idx st' = next_idx st -> unused st' = unused st -> (forall q, q <> p -> objects st' !! q = objects st !! q) ->
    (objects st' !! p = None /\ holds held p = 0 \/ objects st' !! p = Some (set_pending w) /\ 0 < holds held p) ->
    registry_ok held st' /\ registry_map st' = delete (wt_idx w) (registry_map st) /\ transactions st' = ps /\ next_idx st' = next_idx st) as Hgen.
  { intros st' Ht Hn Hun Hothers Hself.
    assert (registry_ok held st') as Hok'.
    { split; rewrite ?Ht, ?Hn, ?Hun.
      - by apply NoDup_filter, (ok_table _ _ Hok).
      - intros q [Hq Hne]%Hps. rewrite Hothers by done. by apply (ok_linked _ _ Hok).
      - intros q v Hv. destruct (decide (q = p)) as [->|Hne]; [|rewrite Hothers in Hv by done; by apply (ok_object _ _ Hok)].
        destruct Hself as [[E _]|[E _]]; rewrite E in Hv; [done|]. injection Hv as <-. done.
      - intros q v Hv Hq. destruct (decide (q = p)) as [->|Hne].
        + destruct Hself as [[E _]|[E Hpos]]; rewrite E in Hv; [done|]. injection Hv as <-. cbn. lia.
        + rewrite Hothers in Hv by done. apply (ok_unlinked _ _ Hok q v Hv). intros Hq'. apply Hq, Hps. done.
      - intros q Hq. destruct (decide (q = p)) as [->|Hne]; [|rewrite Hothers by done; by apply (ok_held _ _ Hok)].
        destruct Hself as [[_ H0]|[E _]]; [by apply holds_zero in H0|by rewrite E].
      - intros q r v u [Hq Hq']%Hps [Hr1 Hr2]%Hps Hv Hu'. rewrite Hothers in Hv, Hu' by done. by apply (ok_numbers _ _ Hok).
      - apply (ok_next_idx _ _ Hok). }
    split_and!; [done| |done|done]. apply map_eq. intros idx. apply option_eq. intros t. rewrite (map_lookup Hok'), lookup_delete_Some, (map_lookup Hok), Ht.
    split.
    - intros (q & v & [Hq Hne]%Hps & Hv & E & Et). rewrite Hothers in Hv by done. split; [|by exists q, v].
      intros Eq. apply Hne. eapply (ok_numbers _ _ Hok q p v w); eauto. congruence.
    - intros (Hne & q & v & Hq & Hv & E & Et). assert (q <> p) by congruence. exists q, v. rewrite Hps, Hothers by done. done. }
  destruct (Z.ltb_spec 0 (wt_refcount w)) as [Hpos|Hz].
  - eapply runs_put_obj; [exact Hw|]. apply Hgen; try done; cbn.
    + intros q Hq. by rewrite lookup_insert_ne.
    + right. rewrite lookup_insert_eq. split; [done|lia].
  - eapply runs_free_obj; [exact Hw|]. apply Hgen; try done; cbn.
    + intros q Hq. by rewrite lookup_delete_ne.
    + left. rewrite lookup_delete_eq. split; [done|]. pose proof (holds_nonneg held p). lia.
Qed.

(** A new entry has a number no entry has had before. *)
Lemma start_spec held st : registry_ok held st -> next_idx st < INT_MAX ->
  runs start_transaction_ts st (fun idx st' => idx = next_idx st + 1 /\ next_idx st' = idx /\ registry_ok held st' /\ registry_map st !! idx = None /\
    registry_map st' = <[idx := tx_new]> (registry_map st)).
Proof.
  intros Hok Hlt. pose proof (ok_next_idx _ _ Hok) as H0. set (idx := next_idx st + 1). set (p := unused st).
  assert (objects st !! p = None) as Hnew.
  { destruct (objects st !! p) as [w|] eqn:E; [|done]. destruct (ok_object _ _ Hok p w E) as (_ & _ & Hu). unfold p in Hu. lia. }
  assert (p ∉ transactions st) as Hnp by (intros Hp; destruct (ok_linked _ _ Hok p Hp) as (w & Hw & _); congruence).
  assert (p ∉ held) as Hnh by (intros Hp; destruct (ok_held _ _ Hok p Hp); congruence).
  assert (registry_map st !! idx = None) as Hfree.
  { destruct (registry_map st !! idx) as [t|] eqn:E; [|done]. apply (map_lookup Hok) in E as (q & v & Hq & Hv & E & _).
    destruct (ok_object _ _ Hok q v Hv) as (_ & Hi & _). unfold idx in E. lia. }
  unfold start_transaction_ts, new_transaction_locked, add_transaction_locked, find_transaction_locked.
  do 2 apply runs_bind. eexists _, _. split; [reflexivity|]. fold p. apply runs_bind. eexists _, _. split; [reflexivity|].
  cbn [next_idx transactions objects unused]. rewrite (wrap_small 32), (swrap_small 32) by (unfold urange, srange, INT_MAX in *; lia). fold idx.
  steps. eapply runs_get_obj; [cbn; by rewrite lookup_insert_eq|]. steps. eapply runs_put_obj; [cbn; by rewrite lookup_insert_eq|]. steps.
  set (w := set_idx (mk_working 0 tx_new 0 false) idx). set (st1 := with_objects _ _).
  assert (objects st1 !! p = Some w) as Hw1 by (cbn; by rewrite lookup_insert_eq).
  assert (forall q, q <> p -> objects st1 !! q = objects st !! q) as Hothers by (intros q Hq; cbn; by rewrite !lookup_insert_ne).
  assert (transactions st1 = transactions st) as Ht1 by done.
  assert (forall st', transactions st' = transactions st ++ [p] -> objects st' = objects st1 -> next_idx st' = idx -> unused st' = S p ->
    registry_ok held st' /\ registry_map st' = <[idx := tx_new]> (registry_map st)) as Hgen.
  { intros st' Ht Ho Hn Hu.
    assert (forall q, q ∈ transactions st' <-> q ∈ transactions st \/ q = p) as Hin by (intros q; rewrite Ht, elem_of_app, list_elem_of_singleton; done).
    assert (registry_ok held st') as Hok'.
    { split; rewrite ?Ho, ?Hn, ?Hu.
      - rewrite Ht. apply NoDup_app. split_and!; [apply (ok_table _ _ Hok)| |apply NoDup_singleton]. intros q Hq ->%list_elem_of_singleton. done.
      - intros q [Hq| ->]%Hin; [|by exists w]. rewrite Hothers by congruence. by apply (ok_linked _ _ Hok).
      - intros q v Hv. destruct (decide (q = p)) as [->|Hne].
        + rewrite Hw1 in Hv. injection Hv as <-. apply holds_zero in Hnh. cbn. unfold idx. lia.
        + rewrite Hothers in Hv by done. destruct (ok_object _ _ Hok q v Hv) as (A & B & C). unfold idx, p in *. lia.
      - intros q v Hv Hq. rewrite Hin in Hq. assert (q <> p) by tauto. rewrite Hothers in Hv by done. apply (ok_unlinked _ _ Hok q v Hv). tauto.
      - intros q Hq. rewrite Hothers by congruence. by apply (ok_held _ _ Hok).
      - assert (forall q v, q ∈ transactions st' -> objects st1 !! q = Some v ->
          q = p /\ wt_idx v = idx \/ q <> p /\ q ∈ transactions st /\ objects st !! q = Some v /\ wt_idx v < idx) as Hcase.
        { intros q v Hq Hv. destruct (decide (q = p)) as [->|Hne]; [left; rewrite Hw1 in Hv; by injection Hv as <-|right].
          rewrite Hothers in Hv by done. destruct (ok_object _ _ Hok q v Hv) as (_ & Hi & _). apply Hin in Hq as [Hq|]; [|done].
          split_and!; try done. unfold idx. lia. }
        intros q r v u Hq Hr Hv Hu' E. destruct (Hcase q v Hq Hv) as [[-> E1]|(N1 & A1 & B1 & C1)], (Hcase r u Hr Hu') as [[-> E2]|(N2 & A2 & B2 & C2)];
          try done; try lia. by apply (ok_numbers _ _ Hok q r v u).
      - lia. }
    split; [done|]. apply map_eq. intros i. apply option_eq. intros t. rewrite (map_lookup Hok'), Ho. destruct (decide (i = idx)) as [->|Hne].
    - rewrite lookup_insert_eq. split.
      + intros (q & v & Hq & Hv & E & <-). destruct (decide (q = p)) as [->|Hq']; [rewrite Hw1 in Hv; by injection Hv as <-|].
        rewrite Hothers in Hv by done. destruct (ok_object _ _ Hok q v Hv) as (_ & Hi & _). unfold idx in E. lia.
      + intros [= <-]. exists p, w. rewrite Hin. auto.
    - rewrite lookup_insert_ne, (map_lookup Hok) by done. split; intros (q & v & Hq & Hv & E & Et); exists q, v.
      + assert (q <> p) by (intros ->; rewrite Hw1 in Hv; injection Hv as <-; done). rewrite Hothers in Hv by done. apply Hin in Hq as [Hq|]; done.
      + rewrite Hin, Hothers by congruence. auto. }
  steps. rewrite Ht1.
  destruct (hash_find_spec (wt_idx w) st1 (transactions st)) as [[E _]|(q & v & Hq & Hv & Hi & _)].
  - intros q Hq. rewrite Hothers by congruence. by apply (linked_live Hok).
  - eexists _, _. split; [exact E|]. steps.
    destruct (Hgen (mk_registry (transactions st ++ [p]) idx (objects st1) (S p))) as [A B]; done.
  - exfalso. rewrite Hothers in Hv by congruence. destruct (ok_object _ _ Hok q v Hv) as (_ & Hr & _). cbn in Hi. unfold idx in Hi. lia.
Qed.

Lemma clear_spec held st idx : registry_ok held st ->
  runs (clear_transaction_ts idx) st (fun _ st' => registry_ok held st' /\ registry_map st' = delete idx (registry_map st) /\ next_idx st' = next_idx st).
Proof.
  intros Hok. unfold clear_transaction_ts. apply runs_bind. destruct (find_locked_spec Hok idx) as [[E Em]|(p & w & Hp & Hw & Hi & E & Em)];
    eexists _, _; (split; [exact E|]).
  - apply runs_ret. split_and!; [done| |done]. by rewrite delete_id.
  - eapply runs_weaken; [by apply (remove_spec held st p w)|]. cbn. intros _ st' (A & B & _ & C). rewrite <- Hi. done.
Qed.

Lemma filter_head (p : nat) ps : NoDup (p :: ps) -> filter (fun q => q <> p) (p :: ps) = ps.
Proof.
  intros [Hn _]%NoDup_cons. rewrite filter_cons_False by (intros H; by apply H). induction ps as [|q ps IH]; [done|].
  apply not_elem_of_cons in Hn as [Hne Hn]. by rewrite filter_cons_True, IH.
Qed.

Lemma remove_each_spec held ps : forall st, registry_ok held st -> transactions st = ps ->
  runs (remove_each ps) st (fun _ st' => registry_ok held st' /\ registry_map st' = ∅ /\ transactions st' = [] /\ next_idx st' = next_idx st).
Proof.
  induction ps as [|p ps IH]; intros st Hok Ht; cbn [remove_each].
  { apply runs_ret. split_and!; try done. unfold registry_map. by rewrite Ht. }
  pose proof (ok_table _ _ Hok) as Hnd. assert (p ∈ transactions st) as Hp by (rewrite Ht; left). destruct (linked_live Hok p Hp) as [w Hw].
  apply runs_bind. eapply runs_weaken; [by apply (remove_spec held st p w)|]. cbn. intros _ st1 (Hok1 & _ & Ht1 & Hn1).
  rewrite Ht in Hnd, Ht1. rewrite filter_head in Ht1 by done. eapply runs_weaken; [by apply IH|]. cbn. intros _ st2 (A & B & C & D). split_and!; try done. congruence.
Qed.

Lemma remove_all_spec held st : registry_ok held st ->
  runs remove_all_ts st (fun _ st' => registry_ok held st' /\ registry_map st' = ∅ /\ transactions st' = [] /\ next_idx st' = next_idx st).
Proof. intros Hok. unfold remove_all_ts. steps. by apply remove_each_spec. Qed.

Lemma with_spec held st idx fn : registry_ok held st ->
  runs (with_transaction_ts idx fn) st (fun b st' => registry_ok held st' /\ b = bool_decide (is_Some (registry_map st !! idx)) /\
    registry_map st' = alter fn idx (registry_map st) /\ same_table st st').
Proof.
  intros Hok. unfold with_transaction_ts. apply runs_bind. destruct (find_locked_spec Hok idx) as [[E Em]|(p & w & Hp & Hw & Hi & E & Em)];
    eexists _, _; (split; [exact E|]).
  - apply runs_ret. rewrite Em, bool_decide_false by (intros [? ?]; done). split_and!; try done. apply map_eq. intros i.
    destruct (decide (i = idx)) as [->|Hne]; [by rewrite lookup_alter_eq, Em|by rewrite lookup_alter_ne].
  - apply runs_bind. eapply runs_get_obj; [exact Hw|]. apply runs_bind. eapply runs_put_obj; [exact Hw|]. apply runs_ret.
    destruct (ok_object _ _ Hok p w Hw) as (Hr & _). set (w' := set_tx w (fn (wt_tx w))).
    assert (registry_ok held (with_objects st (<[p := w']> (objects st)))) as Hok1 by by eapply (update_ok held).
    rewrite Em, bool_decide_true by done. split_and!; try done; [|by eapply same_table_put].
    rewrite (update_map _ _ st p w w' Hok Hw eq_refl Hok1), decide_True, Hi by done. apply map_eq. intros i. destruct (decide (i = idx)) as [->|Hne].
    + by rewrite lookup_insert_eq, lookup_alter_eq, Em.
    + by rewrite lookup_insert_ne, lookup_alter_ne.
Qed.

Lemma count_spec held st : registry_ok held st -> get_transaction_count_ts st = Some (Z.of_nat (size (registry_map st)), st).
Proof.
  intros Hok. unfold get_transaction_count_ts. change (Some (Z.of_nat (length (transactions st)), st) = Some (Z.of_nat (size (registry_map st)), st)).
  do 3 f_equal. unfold registry_map. pose proof (ok_table _ _ Hok) as Hnd. assert (forall p, p ∈ transactions st -> p ∈ transactions st) as Hsub by done.
  revert Hnd Hsub. generalize (transactions st) at 1 2 4 5. intros ps. induction ps as [|p ps IH]; intros Hnd Hsub; [done|].
  apply NoDup_cons in Hnd as [Hnp Hnd]. cbn [table_map length]. destruct (linked_live Hok p (Hsub p ltac:(left))) as [w Hw]. rewrite Hw.
  rewrite map_size_insert_None; [rewrite <- IH; [done..|intros q Hq; apply Hsub; by right]|].
  destruct (hash_find_spec (wt_idx w) st ps) as [[_ E]|(q & v & Hq & Hv & Hi & _)]; [intros q Hq; apply (linked_live Hok), Hsub; by right|done|].
  exfalso. rewrite (ok_numbers _ _ Hok q p v w) in Hq; try done; apply Hsub; [by right|by left].
Qed.

(** ** Clients *)

(** What clients do, one locked section or one access to an entry they hold after the other.  The
    ones that release or write do so only with a reference that they hold. *)
Inductive client_step :=
  | CStart | CFind (idx : Z) | CRelease (p : nat) | CWrite (p : nat) (t : tx) | CWith (idx : Z) (fn : tx -> tx) | CClear (idx : Z) | CRemoveAll | CCount.

Inductive answer := ANothing | ANumber (n : Z) | APointer (p : option nat) | ABool (b : bool).

Fixpoint drop_one (p : nat) (held : list nat) : list nat :=
  match held with [] => [] | q :: held => if decide (q = p) then held else q :: drop_one p held end.

Definition do_step (s : client_step) (held : list nat) : M (answer * list nat) :=
  match s with
  | CStart => idx ← start_transaction_ts; mret (ANumber idx, held)
  | CFind idx => r ← find_transaction_ts idx; mret (APointer r, match r with Some p => p :: held | None => held end)
  | CRelease p => if decide (p ∈ held) then _ ← release_transaction_ts (Some p); mret (ANothing, drop_one p held) else mret (ANothing, held)
  | CWrite p t => if decide (p ∈ held) then _ ← put_tx p t; mret (ANothing, held) else mret (ANothing, held)
  | CWith idx fn => b ← with_transaction_ts idx fn; mret (ABool b, held)
  | CClear idx => _ ← clear_transaction_ts idx; mret (ANothing, held)
  | CRemoveAll => _ ← remove_all_ts; mret (ANothing, held)
  | CCount => n ← get_transaction_count_ts; mret (ANumber n, held)
  end.

Fixpoint do_steps (ss : list client_step) (held : list nat) : M (list nat) :=
  match ss with [] => mret held | s :: ss => '(_, held) ← do_step s held; do_steps ss held end.

(** The registry as a map from numbers to transactions: the answer and the map after a step.  [p]
    is an entry of the table when it has a number in it. *)
Definition number_of (st : registry) (p : nat) : option Z := if decide (p ∈ transactions st) then wt_idx <$> objects st !! p else None.

Definition map_step (s : client_step) (st : registry) (held : list nat) (m : gmap Z tx) (a : answer) (m' : gmap Z tx) : Prop :=
  match s with
  | CStart => exists idx, a = ANumber idx /\ m !! idx = None /\ m' = <[idx := tx_new]> m
  | CFind idx => exists r, a = APointer r /\ m' = m /\ match r with Some p => number_of st p = Some idx /\ is_Some (m !! idx) | None => m !! idx = None end
  | CRelease _ => m' = m
  | CWrite p t => m' = if decide (p ∈ held) then match number_of st p with Some idx => <[idx := t]> m | None => m end else m
  | CWith idx fn => a = ABool (bool_decide (is_Some (m !! idx))) /\ m' = alter fn idx m
  | CClear idx => m' = delete idx m
  | CRemoveAll => m' = ∅
  | CCount => a = ANumber (Z.of_nat (size m)) /\ m' = m
  end.

Lemma drop_one_perm p held : p ∈ held -> held ≡ₚ p :: drop_one p held.
Proof.
  induction held as [|q held IH]; [by intros ?%not_elem_of_nil|]. intros [->|Hp]%elem_of_cons; cbn [drop_one]; [by rewrite decide_True|].
  case_decide as E; [by subst|]. rewrite (IH Hp) at 1. constructor.
Qed.

Lemma ok_perm h h' st : h ≡ₚ h' -> registry_ok h st -> registry_ok h' st.
Proof.
  intros Hh [A B C D E F G]. split; try done.
  - intros p w Hw. rewrite <- (holds_perm h h' p Hh). by apply C.
  - intros p Hp. apply E. by rewrite Hh.
Qed.

Lemma holds_length held p : holds held p <= Z.of_nat (length held).
Proof. unfold holds. pose proof (count_occ_bound Nat.eq_dec p held). lia. Qed.

Lemma do_step_spec s held st : registry_ok held st -> next_idx st < INT_MAX -> Z.of_nat (length held) < INT_MAX ->
  runs (do_step s held) st (fun r st' => registry_ok r.2 st' /\ map_step s st held (registry_map st) r.1 (registry_map st') /\
    next_idx st' <= next_idx st + 1 /\ (length r.2 <= S (length held))%nat).
Proof.
  intros Hok Hn Hl. destruct s as [|idx|p|p t|idx fn|idx| |]; cbn [do_step map_step]; try (case_decide as Hp); try apply runs_bind;
    try (apply runs_ret; cbn [fst snd]; split_and!; try done; lia).
  - eapply runs_weaken; [by apply start_spec|]. cbn. intros idx st' (E1 & E2 & A & B & C). apply runs_ret. cbn. split_and!; try done; try lia. by exists idx.
  - eapply runs_weaken; [apply (find_ts_spec held); [done|]; intros p; pose proof (holds_length held p); lia|]. cbn.
    intros r st' (A & (T & N & _) & B). apply runs_ret. cbn. rewrite N. destruct r as [p|].
    + destruct B as (B & Hp & w & Hw & _ & Hi & Em). split_and!; try done; try lia. exists (Some p). split_and!; try done.
      unfold number_of. rewrite decide_True, Hw by done. cbn. by rewrite Hi.
    + destruct B as (-> & Em). split_and!; try done; try lia. by exists None.
  - apply (ok_perm _ (p :: drop_one p held)) in Hok; [|by apply drop_one_perm]. eapply runs_weaken; [by apply release_spec|].
    cbn. intros _ st' (A & B & (_ & N & _)). apply runs_ret. cbn. rewrite N. split_and!; try done; try lia.
    pose proof (Permutation_length (drop_one_perm p held Hp)) as Hpl. cbn [length] in Hpl. lia.
  - unfold number_of. destruct (ok_held _ _ Hok p Hp) as [w Hw]. case_decide as Hin.
    + eapply runs_weaken; [by apply (put_tx_spec held st p w t)|]. cbn. intros _ st' (A & B & (_ & N & _) & _). apply runs_ret. cbn. rewrite N, Hw.
      split_and!; try done; lia.
    + unfold put_tx. steps. destruct (ok_object _ _ Hok p w Hw) as (Hr & _).
      assert (registry_ok held (with_objects st (<[p := set_tx w t]> (objects st)))) as Hok1.
      { eapply (update_ok held); try done. intros _. by destruct (ok_unlinked _ _ Hok p w Hw Hin). }
      cbn [fst snd]. split_and!; try done; try (cbn; lia). by rewrite (update_map _ _ st p w (set_tx w t) Hok Hw eq_refl Hok1), decide_False.
  - eapply runs_weaken; [by apply (with_spec held)|]. cbn. intros b st' (A & -> & B & (_ & N & _)). apply runs_ret. cbn. rewrite N. split_and!; try done; lia.
  - eapply runs_weaken; [by apply (clear_spec held)|]. cbn. intros _ st' (A & B & N). apply runs_ret. cbn. rewrite N. split_and!; try done; lia.
  - eapply runs_weaken; [by apply (remove_all_spec held)|]. cbn. intros _ st' (A & B & _ & N). apply runs_ret. cbn. rewrite N. split_and!; try done; lia.
  - eexists _, _. split; [by apply (count_spec held)|]. apply runs_ret. cbn. split_and!; try done; lia.
Qed.

Lemma do_steps_spec ss : forall held st, registry_ok held st ->
  next_idx st + Z.of_nat (length ss) < INT_MAX -> Z.of_nat (length held) + Z.of_nat (length ss) < INT_MAX ->
  runs (do_steps ss held) st (fun held' st' => registry_ok held' st' /\ next_idx st' <= next_idx st + Z.of_nat (length ss) /\
    (length held' <= length held + length ss)%nat).
Proof.
  induction ss as [|s ss IH]; intros held st Hok Hn Hl; cbn [do_steps length] in *; [apply runs_ret; split_and!; try done; lia|].
  apply runs_bind. eapply runs_weaken; [apply (do_step_spec s held st Hok); lia|]. cbn. intros [a held'] st' (Hok' & _ & Hn' & Hl'). cbn [fst snd] in *.
  eapply runs_weaken; [apply (IH held' st' Hok'); lia|]. cbn. intros h2 st2 (A & B & C). split_and!; try done; lia.
Qed.

Lemma live_spec held st p : registry_ok held st -> is_Some (objects st !! p) <-> p ∈ transactions st \/ p ∈ held.
Proof.
  intros Hok. split.
  - intros [w Hw]. destruct (decide (p ∈ transactions st)) as [|Hp]; [by left|right]. destruct (ok_unlinked _ _ Hok p w Hw Hp) as [_ Hpos].
    destruct (ok_object _ _ Hok p w Hw) as [Hr _]. destruct (decide (p ∈ held)) as [|Hh]; [done|]. apply holds_zero in Hh. lia.
  - intros [Hp|Hp]; [|by apply (ok_held _ _ Hok)]. destruct (linked_live Hok p Hp) as [w Hw]. by rewrite Hw.
Qed.


(** C5: after any steps the registry is a map from numbers to transactions: the next step answers and
    changes it as it would a map; a new entry takes a number that is not in it; what is written through a
    reference arrives at its number while the entry is in the table and nowhere afterwards. *)
Theorem registry_refines_map (ss : list client_step) (s : client_step) (H : Z.of_nat (length ss) + 1 < INT_MAX) :
  exists held st a held' st', do_steps ss [] context_new = Some (held, st) /\ do_step s held st = Some ((a, held'), st') /\
    map_step s st held (registry_map st) a (registry_map st').
Proof.
  destruct (do_steps_spec ss [] context_new context_ok ltac:(cbn; lia) ltac:(cbn; lia)) as (held & st & E & Hok & Hn & Hl).
  destruct (do_step_spec s held st Hok ltac:(cbn in *; lia) ltac:(cbn in *; lia)) as ([a held'] & st' & E' & _ & Hm & _).
  exists held, st, a, held', st'. done.
Qed.


Lemma registry_refines_map_witness :
  exists held st a held' st', do_steps [CStart; CFind 1; CClear 1] [] context_new = Some (held, st) /\ do_step CStart held st = Some ((a, held'), st') /\
    map_step CStart st held (registry_map st) a (registry_map st').
Proof. apply (registry_refines_map [CStart; CFind 1; CClear 1] CStart). reflexivity. Defined.

(** The entry of the first number, removed while it is held and written to: it is freed with the
    release, and its number is not used again. *)
Example deferred_removal :
  let run := do_steps [CStart; CFind 1; CClear 1; CWrite 0 tx_new; CStart] [] context_new in
  (dom ∘ objects ∘ snd <$> run) = Some {[0%nat; 1%nat]} /\ (transactions ∘ snd <$> run) = Some [1%nat] /\
  (dom ∘ objects ∘ snd <$> (run ≫= fun '(held, st) => do_steps [CRelease 0] held st)) = Some {[1%nat]}.
Proof. split_and!; reflexivity. Qed.

(** An entry is removed by its pointer at most once: [remove_transaction_ts] of one that another
    client has cleared unlinks it a second time. *)
Example double_removal :
  (_ ← start_transaction_ts; p ← find_transaction_ts 1; _ ← clear_transaction_ts 1; remove_transaction_ts p) context_new = None.
Proof. reflexivity. Qed.

(** ** Work on an entry between [find_transaction_ts] and [release_transaction_ts] *)

(** [d]: the result when there is no such entry. *)
Definition with_ref {A} (idx : Z) (d : A) (body : nat -> M A) : M A :=
  r ← find_transaction_ts idx;
  match r with
  | None => mret d
  | Some p => a ← body p; _ ← release_transaction_ts (Some p); mret a
  end.

Lemma number_same st st' p : same_table st st' -> number_of st' p = number_of st p.
Proof.
  intros (T & _ & H). unfold number_of. rewrite T. case_decide as Hp; [|done]. by apply H.
Qed.

Lemma get_tx_ref h st p idx t : registry_ok h st -> number_of st p = Some idx -> registry_map st !! idx = Some t -> get_tx p st = Some (t, st).
Proof.
  intros Hok Hn Hm. unfold number_of in Hn. case_decide as Hp; [|done]. apply fmap_Some in Hn as (w & Hw & ->).
  rewrite (map_entry Hok p w Hp Hw) in Hm. injection Hm as <-. unfold get_tx, mbind, M_bind, get_obj. by rewrite Hw.
Qed.

Lemma put_tx_ref h st p idx t : registry_ok h st -> number_of st p = Some idx ->
  runs (put_tx p t) st (fun _ st' => registry_ok h st' /\ registry_map st' = <[idx := t]> (registry_map st) /\ same_table st st').
Proof.
  intros Hok Hn. unfold number_of in Hn. case_decide as Hp; [|done]. apply fmap_Some in Hn as (w & Hw & ->).
  eapply runs_weaken; [by apply (put_tx_spec h st p w t)|]. cbn. by intros _ st' (A & B & C & _).
Qed.

Lemma with_ref_spec {A} h st idx (d : A) body (Q : A -> registry -> Prop) : registry_ok h st -> Z.of_nat (length h) < INT_MAX ->
  (registry_map st !! idx = None -> Q d st) ->
  (forall t p st1, registry_map st !! idx = Some t -> registry_ok (p :: h) st1 -> number_of st1 p = Some idx ->
    registry_map st1 = registry_map st -> same_table st st1 ->
    runs (body p) st1 (fun a st2 => registry_ok (p :: h) st2 /\ same_table st1 st2 /\
      forall st3, registry_ok h st3 -> registry_map st3 = registry_map st2 -> same_table st st3 -> Q a st3)) ->
  runs (with_ref idx d body) st Q.
Proof.
  intros Hok Hl Hnone Hsome. unfold with_ref. apply runs_bind.
  eapply runs_weaken; [apply (find_ts_spec h st idx Hok); intros p; pose proof (holds_length h p); lia|]. cbn.
  intros [p|] st1 (Hm & Hst & H).
  - destruct H as (Hok1 & Hp & w & Hw & _ & Hi & Em). apply runs_bind. eapply runs_weaken; [eapply (Hsome _ p st1 Em Hok1)|]; try done.
    + rewrite (number_same st st1 p Hst). unfold number_of. rewrite decide_True, Hw by done. cbn. by rewrite Hi.
    + cbn. intros a st2 (Hok2 & Hst2 & HQ). apply runs_bind. eapply runs_weaken; [by apply release_spec|]. cbn. intros _ st3 (Hok3 & Hm3 & Hst3).
      apply runs_ret. apply HQ; [done..|]. eapply same_table_trans; [done|]. by eapply same_table_trans.
  - destruct H as [-> Hn]. apply runs_ret. by apply Hnone.
Qed.
