(* ===== verification/Siphash.v ===== *)
(** * SipHash-2-4 ([src/include/dogecoin/hash.h])

    The hash of the compact filters and of compact blocks: the state that takes its input in
    pieces, and the variant for 32 bytes, against the definition on a padded message. *)

From S2P Require Import Prelude Words.

Local Open Scope Z_scope.

(** ** Rounds *)

Abbreviation sip_vars := (Z * Z * Z * Z)%type.

Definition ROTL64 (x b : Z) : Z := Z.lor (u64 (Z.shiftl x b)) (Z.shiftr x (64 - b)).

Definition SIPROUND (v : sip_vars) : sip_vars :=
  let '(v0, v1, v2, v3) := v in
  let v0 := u64 (v0 + v1) in let v1 := ROTL64 v1 13 in let v1 := Z.lxor v1 v0 in
  let v0 := ROTL64 v0 32 in
  let v2 := u64 (v2 + v3) in let v3 := ROTL64 v3 16 in let v3 := Z.lxor v3 v2 in
  let v0 := u64 (v0 + v3) in let v3 := ROTL64 v3 21 in let v3 := Z.lxor v3 v0 in
  let v2 := u64 (v2 + v1) in let v1 := ROTL64 v1 17 in let v1 := Z.lxor v1 v2 in
  let v2 := ROTL64 v2 32 in
  (v0, v1, v2, v3).

(** [v3 ^= d; SIPROUND; SIPROUND; v0 ^= d;] *)
Definition sip_absorb (v : sip_vars) (d : Z) : sip_vars :=
  let '(v0, v1, v2, v3) := v in
  let '(v0, v1, v2, v3) := SIPROUND (SIPROUND (v0, v1, v2, Z.lxor v3 d)) in
  (Z.lxor v0 d, v1, v2, v3).

(** [v2 ^= 0xFF;], four rounds and the sum. *)
Definition sip_end (v : sip_vars) : Z :=
  let '(v0, v1, v2, v3) := v in
  let '(v0, v1, v2, v3) := SIPROUND (SIPROUND (SIPROUND (SIPROUND (v0, v1, Z.lxor v2 0xFF, v3)))) in
  Z.lxor (Z.lxor (Z.lxor v0 v1) v2) v3.

Definition sip_init (k0 k1 : Z) : sip_vars :=
  (Z.lxor 0x736f6d6570736575 k0, Z.lxor 0x646f72616e646f6d k1,
   Z.lxor 0x6c7967656e657261 k0, Z.lxor 0x7465646279746573 k1).

(** ** The state *)

Record siphasher := mk_sip { sip_v : sip_vars; sip_tmp : Z; sip_count : Z }.

Definition siphasher_set (k0 k1 : Z) : siphasher := mk_sip (sip_init k0 k1) 0 0.

(** [None]: the assertion fails. *)
Definition siphasher_write (sh : siphasher) (data : Z) : option siphasher :=
  if Z.rem (sip_count sh) 8 =? 0 then
    Some (mk_sip (sip_absorb (sip_v sh) data) (sip_tmp sh) (s32 (sip_count sh + 8)))
  else None.

Definition siphasher_byte (sh : siphasher) (b : Byte.byte) : siphasher :=
  let t := Z.lor (sip_tmp sh) (u64 (Z.shiftl (byte.unsigned b) (8 * Z.rem (sip_count sh) 8))) in
  let c := s32 (sip_count sh + 1) in
  if Z.land c 7 =? 0 then mk_sip (sip_absorb (sip_v sh) t) 0 c else mk_sip (sip_v sh) t c.

Definition siphasher_hash (sh : siphasher) (data : bytes) : siphasher :=
  foldl siphasher_byte sh data.

Definition siphasher_finalize (sh : siphasher) : Z :=
  sip_end (sip_absorb (sip_v sh) (Z.lor (sip_tmp sh) (u64 (Z.shiftl (u64 (sip_count sh)) 56)))).

Definition get_uint64 (data : bytes) (pos : nat) : Z := Prelude.le_dec (take 8 (drop (8 * pos) data)).

Definition siphash_u256 (k0 k1 : Z) (val : bytes) : Z :=
  let v := foldl (fun v pos => sip_absorb v (get_uint64 val pos)) (sip_init k0 k1) (seq 0 4) in
  sip_end (sip_absorb v (Z.shiftl 4 59)).

(** ** The definition *)

(** Zeros up to a multiple of eight bytes, the last of which is the length. *)
Definition sip_pad (msg : bytes) : bytes :=
  msg ++ zeros (7 - length msg mod 8) ++ [byte.of_Z (Z.of_nat (length msg))].

Definition SipHash (k0 k1 : Z) (msg : bytes) : Z :=
  sip_end (foldl sip_absorb (sip_init k0 k1)
    (Prelude.le_dec <$> chunks 8 (length msg / 8 + 1) (sip_pad msg))).

(** The published test vector for the empty message. *)
Example siphash_empty :
  SipHash 0x0706050403020100 0x0f0e0d0c0b0a0908 [] = 0x726fdb47dd0e0e31.
Proof. vm_compute. reflexivity. Qed.

(** ** Proofs *)

(** What the state holds after [msg]. *)
Record sip_holds (k0 k1 : Z) (msg : bytes) (sh : siphasher) : Prop := {
  sip_full : sip_v sh =
    foldl sip_absorb (sip_init k0 k1) (Prelude.le_dec <$> chunks 8 (length msg / 8) msg);
  sip_rest : sip_tmp sh = Prelude.le_dec (drop (8 * (length msg / 8)) msg);
  sip_length : sip_count sh = Z.of_nat (length msg);
}.

(** *** Ranges *)

Definition sip_ok (v : sip_vars) : Prop :=
  let '(v0, v1, v2, v3) := v in urange 64 v0 /\ urange 64 v1 /\ urange 64 v2 /\ urange 64 v3.

Lemma ROTL64_range x b : urange 64 x -> 0 <= b <= 64 -> urange 64 (ROTL64 x b).
Proof.
  intros Hx Hb. apply lor_range; [lia|by apply wrap_range|]. unfold urange in *.
  rewrite Z.shiftr_div_pow2 by lia. split; [apply Z.div_pos; lia|].
  apply Z.div_lt_upper_bound; [lia|]. assert (1 <= 2 ^ (64 - b)) by (apply Z.pow_le_mono_r with (b := 0); lia). nia.
Qed.

Lemma SIPROUND_ok v : sip_ok v -> sip_ok (SIPROUND v).
Proof.
  destruct v as [[[v0 v1] v2] v3]. intros (H0 & H1 & H2 & H3). unfold SIPROUND, sip_ok.
  repeat first [assumption | apply lxor_range; [lia|..] | apply ROTL64_range; [|lia] | apply wrap_range; lia | refine (conj _ _)].
Qed.

Lemma sip_absorb_ok v d : sip_ok v -> urange 64 d -> sip_ok (sip_absorb v d).
Proof.
  destruct v as [[[v0 v1] v2] v3]. intros (H0 & H1 & H2 & H3) Hd. unfold sip_absorb.
  assert (sip_ok (SIPROUND (SIPROUND (v0, v1, v2, Z.lxor v3 d)))) as H.
  { do 2 apply SIPROUND_ok. split_and!; [done..|]. apply lxor_range; [lia|done..]. }
  destruct (SIPROUND _) as [[[w0 w1] w2] w3]. destruct H as (? & ? & ? & ?). split_and!; try done.
  apply lxor_range; [lia|done..].
Qed.

Lemma sip_end_range v : sip_ok v -> urange 64 (sip_end v).
Proof.
  destruct v as [[[v0 v1] v2] v3]. intros (H0 & H1 & H2 & H3). unfold sip_end.
  assert (sip_ok (SIPROUND (SIPROUND (SIPROUND (SIPROUND (v0, v1, Z.lxor v2 0xFF, v3)))))) as H.
  { do 4 apply SIPROUND_ok. split_and!; try done. apply lxor_range; [lia|done|done]. }
  destruct (SIPROUND _) as [[[w0 w1] w2] w3]. destruct H as (? & ? & ? & ?).
  repeat (apply lxor_range; [lia| |done]). done.
Qed.

Lemma siphash_range k0 k1 data :
  urange 64 k0 -> urange 64 k1 ->
  urange 64 (siphasher_finalize (siphasher_hash (siphasher_set k0 k1) data)).
Proof.
  intros Hk0 Hk1. assert (forall sh, sip_ok (sip_v sh) -> urange 64 (sip_tmp sh) ->
    let sh' := siphasher_hash sh data in sip_ok (sip_v sh') /\ urange 64 (sip_tmp sh')) as H.
  { induction data as [|b data IH]; intros sh Hv Ht; [done|]. cbn [siphasher_hash foldl]. unfold siphasher_byte at 2 4.
    set (t := Z.lor (sip_tmp sh) _). assert (urange 64 t) as Htt by (apply lor_range; [lia|done|by apply wrap_range]).
    destruct (_ =? 0); apply IH; cbn [sip_v sip_tmp]; try done. by apply sip_absorb_ok. }
  destruct (H (siphasher_set k0 k1)) as [Hv Ht].
  - unfold siphasher_set, sip_init. cbn [sip_v]. split_and!; apply lxor_range; done || lia.
  - done.
  - apply sip_end_range, sip_absorb_ok; [done|]. apply lor_range; [lia|done|by apply wrap_range].
Qed.

#[local] Opaque sip_absorb sip_end.

Lemma le_dec_snoc r b :
  (length r < 8)%nat ->
  Z.lor (Prelude.le_dec r) (u64 (Z.shiftl (byte.unsigned b) (8 * Z.of_nat (length r)))) =
  Prelude.le_dec (r ++ [b]).
Proof.
  intros Hr. rewrite le_dec_app, le_dec_1, Z.shiftl_mul_pow2 by lia.
  pose proof (byte_range b) as Hb. unfold urange in Hb. pose proof (le_dec_range r) as Hv. unfold urange in Hv.
  set (P := 2 ^ (8 * Z.of_nat (length r))) in *.
  assert (P * 2 ^ 8 <= 2 ^ 64) as HP.
  { unfold P. rewrite <- Z.pow_add_r by lia. apply Z.pow_le_mono_r; lia. }
  rewrite (wrap_small 64) by (unfold urange; nia).
  rewrite Z.lor_comm, (lor_disjoint _ _ (8 * Z.of_nat (length r))); [lia|lia|by exists (byte.unsigned b)|exact Hv].
Qed.

Lemma chunks_app_l {A} n k (a b : list A) :
  (n * k <= length a)%nat -> chunks n k (a ++ b) = chunks n k a.
Proof.
  intros Hl. unfold chunks. apply list_fmap_ext. intros i j Hj. apply lookup_seq in Hj as [-> Hj].
  rewrite drop_app_le, take_app_le; [done|rewrite length_drop; nia|nia].
Qed.

Lemma chunks_snoc {A} n k (a b : list A) :
  length a = (n * k)%nat -> length b = n -> chunks n (k + 1) (a ++ b) = chunks n k a ++ [b].
Proof.
  intros Ha Hb. assert (chunks n (k + 1) (a ++ b) = chunks n k (a ++ b) ++ [take n (drop (n * k) (a ++ b))]) as ->.
  { unfold chunks. by rewrite seq_app, fmap_app. }
  rewrite chunks_app_l, drop_app_exact, take_ge by lia. done.
Qed.

(** A message in whole words and the rest. *)
Lemma split_words (msg : bytes) :
  exists w r, msg = w ++ r /\ length w = (8 * (length msg / 8))%nat /\ length r = (length msg mod 8)%nat /\
    r = drop (8 * (length msg / 8)) msg /\ (length r < 8)%nat.
Proof.
  pose proof (Nat.div_mod (length msg) 8 ltac:(lia)). pose proof (Nat.mod_upper_bound (length msg) 8 ltac:(lia)).
  exists (take (8 * (length msg / 8)) msg), (drop (8 * (length msg / 8)) msg).
  rewrite length_take, length_drop. split_and!; [by rewrite take_drop|lia|lia|done|lia].
Qed.

Lemma siphasher_byte_holds k0 k1 msg sh b :
  Z.of_nat (length msg) + 1 < 2 ^ 31 ->
  sip_holds k0 k1 msg sh -> sip_holds k0 k1 (msg ++ [b]) (siphasher_byte sh b).
Proof.
  intros Hlen [Hv Ht Hc]. destruct (split_words msg) as (w & r & E & Hw & Hr & Er & Hr8).
  rewrite <- Er in Ht. unfold siphasher_byte. rewrite Hc, Ht.
  assert (Z.rem (Z.of_nat (length msg)) 8 = Z.of_nat (length r)) as ->
    by (rewrite Hr, Z.rem_mod_nonneg, Nat2Z.inj_mod by lia; done).
  rewrite le_dec_snoc by done. rewrite (swrap_small 32) by (unfold srange; lia).
  change 7 with (Z.ones 3). rewrite Z.land_ones by lia. change (2 ^ 3) with 8.
  pose proof (Nat.div_mod (length msg) 8 ltac:(lia)) as Hdm.
  assert (chunks 8 (length msg / 8) msg = chunks 8 (length msg / 8) w) as Ec.
  { rewrite E at 2. apply chunks_app_l. lia. }
  destruct (decide (length r = 7%nat)) as [H7|H7].
  - assert (length (msg ++ [b]) / 8 = length msg / 8 + 1)%nat as Hd.
    { rewrite length_app. cbn [length]. symmetry. apply (Nat.div_unique _ 8 _ 0); lia. }
    rewrite (proj2 (Z.eqb_eq _ 0)).
    2:{ apply Z.mod_divide; [lia|]. exists (Z.of_nat (length msg / 8) + 1). lia. }
    split; cbn [sip_v sip_tmp sip_count]; rewrite ?Hd.
    + assert (msg ++ [b] = w ++ (r ++ [b])) as -> by (by rewrite app_assoc, <- E).
      rewrite Hv, Ec, chunks_snoc by (lia || rewrite length_app; cbn [length]; lia).
      rewrite fmap_app, foldl_app. done.
    + rewrite drop_ge; [done|]. rewrite length_app. cbn [length]. lia.
    + rewrite length_app. cbn [length]. lia.
  - assert (length (msg ++ [b]) / 8 = length msg / 8)%nat as Hd.
    { rewrite length_app. cbn [length]. symmetry. apply (Nat.div_unique _ 8 _ (length r + 1)); lia. }
    rewrite (proj2 (Z.eqb_neq _ 0)).
    2:{ replace (Z.of_nat (length msg) + 1) with (Z.of_nat (length r) + 1 + Z.of_nat (length msg / 8) * 8) by lia.
        rewrite Z.mod_add, Z.mod_small by lia. lia. }
    split; cbn [sip_v sip_tmp sip_count]; rewrite ?Hd.
    + by rewrite chunks_app_l by lia.
    + rewrite drop_app_le, <- Er by lia. done.
    + rewrite length_app. cbn [length]. lia.
Qed.

Lemma siphasher_hash_holds k0 k1 data msg sh :
  Z.of_nat (length msg + length data) < 2 ^ 31 ->
  sip_holds k0 k1 msg sh -> sip_holds k0 k1 (msg ++ data) (siphasher_hash sh data).
Proof.
  revert msg sh. induction data as [|b data IH]; intros msg sh Hlen H; cbn [siphasher_hash foldl length] in *.
  { by rewrite app_nil_r. }
  change (b :: data) with ([b] ++ data). rewrite app_assoc. apply IH.
  - rewrite length_app. cbn [length]. lia.
  - apply siphasher_byte_holds; [lia|done].
Qed.

Lemma siphasher_finalize_holds k0 k1 msg sh :
  Z.of_nat (length msg) < 2 ^ 31 -> sip_holds k0 k1 msg sh -> siphasher_finalize sh = SipHash k0 k1 msg.
Proof.
  intros Hlen [Hv Ht Hc]. destruct (split_words msg) as (w & r & E & Hw & Hr & Er & Hr8).
  rewrite <- Er in Ht. unfold siphasher_finalize, SipHash, sip_pad. rewrite Hc, Ht, Hv.
  assert (chunks 8 (length msg / 8) msg = chunks 8 (length msg / 8) w) as ->.
  { rewrite E at 2. apply chunks_app_l. lia. }
  rewrite <- Hr. set (pad := zeros (7 - length r) ++ [_]).
  assert (msg ++ pad = w ++ (r ++ pad)) as -> by (by rewrite app_assoc, <- E).
  rewrite chunks_snoc; [|done|].
  2:{ unfold pad, zeros. rewrite !length_app, length_replicate. cbn [length]. lia. }
  rewrite fmap_app, foldl_app. cbn [fmap list_fmap foldl]. do 2 f_equal.
  rewrite (wrap_small 64 (Z.of_nat (length msg))) by (unfold urange; lia).
  assert (u64 (Z.shiftl (Z.of_nat (length msg)) 56) = Z.shiftl (wrap 8 (Z.of_nat (length msg))) 56) as ->.
  { rewrite !Z.shiftl_mul_pow2 by lia. unfold wrap. change (2 ^ 64) with (2 ^ 8 * 2 ^ 56).
    apply Z.mul_mod_distr_r; lia. }
  rewrite <- byte_unsigned_of_Z. unfold pad. set (l := byte.of_Z _).
  pose proof (le_dec_snoc (r ++ zeros (7 - length r)) l) as Hs.
  assert (length (r ++ zeros (7 - length r)) = 7%nat) as H7
    by (unfold zeros; rewrite length_app, length_replicate; lia).
  rewrite H7, le_dec_pad, <- app_assoc in Hs. rewrite <- Hs by lia. f_equal.
  change (8 * Z.of_nat 7) with 56. symmetry. apply wrap_small. rewrite Z.shiftl_mul_pow2 by lia.
  pose proof (byte_range l). unfold urange in *. lia.
Qed.

Lemma siphasher_set_holds k0 k1 : sip_holds k0 k1 [] (siphasher_set k0 k1).
Proof. by split. Qed.

Lemma siphash_pieces k0 k1 pieces :
  Z.of_nat (length (concat pieces)) < 2 ^ 31 ->
  sip_holds k0 k1 (concat pieces) (foldl siphasher_hash (siphasher_set k0 k1) pieces).
Proof.
  intros Hlen.
  assert (forall msg sh, Z.of_nat (length (msg ++ concat pieces)) < 2 ^ 31 -> sip_holds k0 k1 msg sh ->
    sip_holds k0 k1 (msg ++ concat pieces) (foldl siphasher_hash sh pieces)) as H.
  { clear Hlen. induction pieces as [|p pieces IH]; intros msg sh Hlen H; cbn [concat foldl] in *.
    - by rewrite app_nil_r.
    - rewrite app_assoc in *. apply IH; [done|]. apply siphasher_hash_holds; [|done].
      rewrite !length_app in Hlen. lia. }
  apply (H []); [done|apply siphasher_set_holds].
Qed.

Lemma siphash_u256_spec k0 k1 val : length val = 32%nat -> siphash_u256 k0 k1 val = SipHash k0 k1 val.
Proof.
  intros Hl. unfold SipHash, sip_pad. rewrite Hl. change (32 mod 8)%nat with 0%nat. change (32 / 8)%nat with 4%nat.
  rewrite chunks_snoc by (done || lia). rewrite fmap_app, foldl_app. cbn [fmap list_fmap foldl].
  unfold siphash_u256, chunks. rewrite <- list_fmap_compose. reflexivity.
Qed.

Lemma siphasher_write_holds k0 k1 msg w sh :
  (length msg mod 8 = 0)%nat -> length w = 8%nat -> Z.of_nat (length msg) + 8 < 2 ^ 31 ->
  sip_holds k0 k1 msg sh ->
  exists sh', siphasher_write sh (Prelude.le_dec w) = Some sh' /\ sip_holds k0 k1 (msg ++ w) sh'.
Proof.
  intros Hm Hw Hlen [Hv Ht Hc]. pose proof (Nat.div_mod (length msg) 8 ltac:(lia)) as Hdm.
  unfold siphasher_write. rewrite Hc, Z.rem_mod_nonneg by lia.
  rewrite (proj2 (Z.eqb_eq _ 0)) by (apply Z.mod_divide; [lia|]; exists (Z.of_nat (length msg / 8)); lia).
  eexists. split; [done|].
  assert (length (msg ++ w) / 8 = length msg / 8 + 1)%nat as Hd.
  { rewrite length_app. symmetry. apply (Nat.div_unique _ 8 _ 0); lia. }
  split; cbn [sip_v sip_tmp sip_count]; rewrite ?Hd.
  - rewrite Hv, chunks_snoc, fmap_app, foldl_app by lia. done.
  - rewrite Ht, !drop_ge; [done| |lia]. rewrite length_app. lia.
  - rewrite length_app, swrap_small by (unfold srange; lia). lia.
Qed.

(** However a message is cut into pieces, hashing the pieces gives SipHash-2-4 of the
    message; behind a multiple of eight bytes a word may be written at once and the assertion
    on the position holds; the variant for 32 bytes gives the same value. *)
Theorem siphash_correct k0 k1 pieces w val :
  Z.of_nat (length (concat pieces)) + 8 < 2 ^ 31 -> length w = 8%nat -> length val = 32%nat ->
  let sh := foldl siphasher_hash (siphasher_set k0 k1) pieces in
  siphasher_finalize sh = SipHash k0 k1 (concat pieces) /\
  ((length (concat pieces) mod 8 = 0)%nat -> exists sh',
     siphasher_write sh (Prelude.le_dec w) = Some sh' /\
     siphasher_finalize sh' = SipHash k0 k1 (concat pieces ++ w)) /\
  siphash_u256 k0 k1 val = SipHash k0 k1 val.
Proof.
  intros Hlen Hw Hv sh. assert (sip_holds k0 k1 (concat pieces) sh) as Hsh by (apply siphash_pieces; lia).
  split_and!.
  - apply siphasher_finalize_holds; [lia|done].
  - intros Hm. destruct (siphasher_write_holds k0 k1 (concat pieces) w sh Hm Hw Hlen Hsh) as (sh' & E & H').
    exists sh'. split; [done|]. apply siphasher_finalize_holds; [|done]. rewrite length_app. lia.
  - by apply siphash_u256_spec.
Qed.

Lemma siphash_correct_witness :
  siphasher_finalize (siphasher_hash (siphasher_hash (siphasher_set 1 2) [Byte.x61]) [Byte.x62]) =
  SipHash 1 2 [Byte.x61; Byte.x62].
Proof. apply (siphash_correct 1 2 [[Byte.x61]; [Byte.x62]] (zeros 8) (zeros 32)); reflexivity. Defined.
