(* ===== verification/Bitstream.v ===== *)
(** * Bit streams and Golomb-Rice coding ([src/src/golomb.c])

    The writer and the reader that move single bits, most significant first, and the code for
    numbers on top of them.  Both are related to a plain list of bits. *)

From S2P Require Import Prelude Words.

Local Open Scope Z_scope.

(** ** Bits *)

(** The low [n] bits of [z], the highest first. *)
Fixpoint bits_be (n : nat) (z : Z) : list bool :=
  match n with O => [] | S n => Z.testbit z (Z.of_nat n) :: bits_be n z end.

Definition bits_val (l : list bool) : Z := foldl (fun v b => 2 * v + Z.b2z b) 0 l.

Definition bytes_bits (data : bytes) : list bool :=
  concat ((fun b => bits_be 8 (byte.unsigned b)) <$> data).

(** ** The writer *)

Record gcs_bitwriter := mk_writer { w_data : bytes; w_accumulator : Z; w_n_bits : Z }.

Definition gcs_bitwriter_init : gcs_bitwriter := mk_writer [] 0 0.

Definition gcs_bitwriter_write_bit (w : gcs_bitwriter) (bit : Z) : gcs_bitwriter :=
  let acc := u8 (Z.lor (w_accumulator w) (Z.shiftl (Z.land bit 1) (7 - w_n_bits w))) in
  let n := w_n_bits w + 1 in
  if n =? 8 then mk_writer (w_data w ++ [byte.of_Z acc]) 0 0 else mk_writer (w_data w) acc n.

(** [for (i = n_bits - 1; i >= 0; i--)] *)
Fixpoint gcs_bitwriter_write_bits_be (w : gcs_bitwriter) (value : Z) (n_bits : nat) : gcs_bitwriter :=
  match n_bits with
  | O => w
  | S i => gcs_bitwriter_write_bits_be
             (gcs_bitwriter_write_bit w (u8 (Z.land (Z.shiftr value (Z.of_nat i)) 1))) value i
  end.

Definition gcs_bitwriter_flush (w : gcs_bitwriter) : gcs_bitwriter :=
  if 0 <? w_n_bits w then mk_writer (w_data w ++ [byte.of_Z (w_accumulator w)]) 0 0 else w.

(** ** The reader *)

Record gcs_bitreader := mk_reader { r_data : bytes; r_accumulator : Z; r_n_bits : Z }.

Definition gcs_bitreader_init (data : bytes) : gcs_bitreader := mk_reader data 0 0.

Definition gcs_bitreader_read_bit (r : gcs_bitreader) : Z * gcs_bitreader :=
  let next d acc n := (Z.land (Z.shiftr acc (n - 1)) 1, mk_reader d acc (n - 1)) in
  if r_n_bits r =? 0 then
    match r_data r with
    | [] => (-1, r)
    | b :: d => next d (byte.unsigned b) 8
    end
  else next (r_data r) (r_accumulator r) (r_n_bits r).

Fixpoint read_bits_loop (r : gcs_bitreader) (n_bits : nat) (result : Z) : option Z * gcs_bitreader :=
  match n_bits with
  | O => (Some result, r)
  | S n =>
      let '(bit, r) := gcs_bitreader_read_bit r in
      if bit <? 0 then (None, r) else read_bits_loop r n (Z.lor (u64 (Z.shiftl result 1)) bit)
  end.

Definition gcs_bitreader_read_bits_be (r : gcs_bitreader) (n_bits : nat) : option Z * gcs_bitreader :=
  read_bits_loop r n_bits 0.

(** ** Golomb-Rice coding *)

Definition golomb_rice_encode (w : gcs_bitwriter) (value : Z) (P : nat) : gcs_bitwriter :=
  let quotient := Z.shiftr value (Z.of_nat P) in
  let remainder := Z.land value (u64 (Z.shiftl 1 (Z.of_nat P)) - 1) in
  let w := Nat.iter (Z.to_nat quotient) (fun w => gcs_bitwriter_write_bit w 1) w in
  gcs_bitwriter_write_bits_be (gcs_bitwriter_write_bit w 0) remainder P.

(** The loop over the unary part; [None]: no fuel left. *)
Fixpoint read_unary (fuel : nat) (r : gcs_bitreader) (quotient : Z) :
    option (option Z * gcs_bitreader) :=
  match fuel with
  | O => None
  | S fuel =>
      let '(bit, r) := gcs_bitreader_read_bit r in
      if bit <? 0 then Some (None, r)
      else if bit =? 0 then Some (Some quotient, r)
      else read_unary fuel r (u64 (quotient + 1))
  end.

(** One more than the bits that are left. *)
Definition unary_fuel (r : gcs_bitreader) : nat := S (Z.to_nat (r_n_bits r) + 8 * length (r_data r)).

Definition golomb_rice_decode (r : gcs_bitreader) (P : nat) : option Z * gcs_bitreader :=
  match read_unary (unary_fuel r) r 0 with
  | Some (Some quotient, r) =>
      let '(remainder, r) := gcs_bitreader_read_bits_be r P in
      ((fun remainder => Z.lor (u64 (Z.shiftl quotient (Z.of_nat P))) remainder) <$> remainder, r)
  | Some (None, r) => (None, r)
  | None => (None, r)
  end.

(** ** Numbers and their bits *)

Lemma length_bits_be n z : length (bits_be n z) = n.
Proof. induction n as [|n IH]; cbn [bits_be length]; [done|]. by rewrite IH. Qed.

Lemma bits_val_snoc l b : bits_val (l ++ [b]) = 2 * bits_val l + Z.b2z b.
Proof. unfold bits_val. by rewrite foldl_app. Qed.

Lemma bits_val_app l k : bits_val (l ++ k) = bits_val l * 2 ^ Z.of_nat (length k) + bits_val k.
Proof.
  induction k as [|b k IH] using rev_ind; [rewrite app_nil_r; cbn; lia|].
  rewrite app_assoc, !bits_val_snoc, IH, length_app. cbn [length].
  replace (Z.of_nat (length k + 1)) with (Z.succ (Z.of_nat (length k))) by lia.
  rewrite Z.pow_succ_r by lia. lia.
Qed.

Lemma bits_val_cons b l : bits_val (b :: l) = Z.b2z b * 2 ^ Z.of_nat (length l) + bits_val l.
Proof. change (b :: l) with ([b] ++ l). rewrite bits_val_app. by destruct b. Qed.

Lemma bits_val_range l : 0 <= bits_val l < 2 ^ Z.of_nat (length l).
Proof.
  induction l as [|b l IH] using rev_ind; [cbn; lia|].
  rewrite bits_val_snoc, length_app. cbn [length].
  replace (Z.of_nat (length l + 1)) with (Z.succ (Z.of_nat (length l))) by lia.
  rewrite Z.pow_succ_r by lia. destruct b; cbn [Z.b2z]; lia.
Qed.

Lemma bits_val_zeros k : bits_val (replicate k false) = 0.
Proof. induction k as [|k IH]; [done|]. cbn [replicate]. rewrite bits_val_cons, IH. done. Qed.

Lemma wrap_succ_bit n z : 0 <= n -> wrap (n + 1) z = Z.b2z (Z.testbit z n) * 2 ^ n + wrap n z.
Proof.
  intros Hn. unfold wrap. rewrite Z.testbit_spec', Z.pow_add_r by lia. change (2 ^ 1) with 2.
  rewrite Z.rem_mul_r by (assert (0 < 2 ^ n) by (apply Z.pow_pos_nonneg; lia); lia). lia.
Qed.

Lemma bits_val_be n z : bits_val (bits_be n z) = wrap (Z.of_nat n) z.
Proof.
  induction n as [|n IH]; cbn [bits_be]; [unfold wrap; symmetry; apply Z.mod_1_r|].
  rewrite bits_val_cons, IH, length_bits_be, <- wrap_succ_bit by lia. f_equal. lia.
Qed.

Lemma bits_val_inj l k : length l = length k -> bits_val l = bits_val k -> l = k.
Proof.
  revert k. induction l as [|b l IH]; intros [|c k] Hl; cbn [length] in Hl; try done.
  injection Hl as Hl. rewrite !bits_val_cons, Hl. intros E.
  pose proof (bits_val_range l). pose proof (bits_val_range k). rewrite Hl in *.
  assert (b = c) as -> by (destruct b, c; cbn [Z.b2z] in E; done || lia).
  f_equal. apply IH; [done|lia].
Qed.

Lemma bits_be_val l : bits_be (length l) (bits_val l) = l.
Proof.
  apply bits_val_inj; [apply length_bits_be|]. rewrite bits_val_be, wrap_small; [done|].
  apply bits_val_range.
Qed.

Lemma bits_be_ext n z : bits_be n (wrap (Z.of_nat n) z) = bits_be n z.
Proof.
  apply bits_val_inj; [by rewrite !length_bits_be|]. rewrite !bits_val_be, wrap_wrap by lia. done.
Qed.

Lemma bytes_bits_app a b : bytes_bits (a ++ b) = bytes_bits a ++ bytes_bits b.
Proof. unfold bytes_bits. by rewrite fmap_app, concat_app. Qed.

Lemma bytes_bits_cons b a : bytes_bits (b :: a) = bits_be 8 (byte.unsigned b) ++ bytes_bits a.
Proof. done. Qed.

Lemma length_bytes_bits a : length (bytes_bits a) = (8 * length a)%nat.
Proof.
  induction a as [|b a IH]; [done|]. rewrite bytes_bits_cons, length_app, length_bits_be, IH.
  cbn [length]. lia.
Qed.

Lemma land_1_bit z n : 0 <= n -> Z.land (Z.shiftr z n) 1 = Z.b2z (Z.testbit z n).
Proof.
  intros Hn. change 1 with (Z.ones 1). rewrite Z.land_ones, Z.shiftr_div_pow2 by lia.
  by rewrite Z.testbit_spec'.
Qed.

(** ** Writing *)

(** [w] has been given the bits [l]; the last ones wait in the accumulator. *)
Definition writer_holds (w : gcs_bitwriter) (l : list bool) : Prop :=
  exists p, l = bytes_bits (w_data w) ++ p /\ w_n_bits w = Z.of_nat (length p) /\ w_n_bits w < 8 /\
    w_accumulator w = bits_val p * 2 ^ (8 - w_n_bits w).

Lemma writer_init_holds : writer_holds gcs_bitwriter_init [].
Proof. exists []. split_and!; done. Qed.

Lemma pending_byte p k :
  (length p + k = 8)%nat ->
  bytes_bits [byte.of_Z (bits_val p * 2 ^ Z.of_nat k)] = p ++ replicate k false.
Proof.
  intros Hk. rewrite bytes_bits_cons, app_nil_r, byte_unsigned_of_Z, (bits_be_ext 8).
  pose proof (bits_be_val (p ++ replicate k false)) as E.
  rewrite bits_val_app, bits_val_zeros, length_app, length_replicate, Hk, Z.add_0_r in E. done.
Qed.

Lemma write_bit_holds w l bit :
  0 <= bit < 2 -> writer_holds w l -> writer_holds (gcs_bitwriter_write_bit w bit) (l ++ [Z.testbit bit 0]).
Proof.
  intros Hbit (p & -> & Hn & Hlt & Hacc). unfold gcs_bitwriter_write_bit.
  pose proof (bits_val_range p) as Hp. pose proof (bits_val_range (p ++ [Z.testbit bit 0])) as Hp'.
  assert (Z.land bit 1 = Z.b2z (Z.testbit bit 0)) as ->.
  { rewrite <- (land_1_bit bit 0) by lia. by rewrite Z.shiftr_0_r. }
  set (b := Z.testbit bit 0) in *.
  assert (u8 (Z.lor (w_accumulator w) (Z.shiftl (Z.b2z b) (7 - w_n_bits w))) =
    bits_val (p ++ [b]) * 2 ^ (7 - w_n_bits w)) as ->.
  { rewrite Hacc, Z.shiftl_mul_pow2, bits_val_snoc by lia.
    replace (8 - w_n_bits w) with (Z.succ (7 - w_n_bits w)) by lia. rewrite Z.pow_succ_r by lia.
    rewrite (lor_disjoint _ _ (Z.succ (7 - w_n_bits w))).
    - rewrite wrap_small; [lia|]. rewrite length_app in Hp'. cbn [length] in Hp'.
      rewrite bits_val_snoc in Hp'. unfold urange.
      assert (2 ^ 8 = 2 ^ Z.of_nat (length p + 1) * 2 ^ (7 - w_n_bits w)) as ->
        by (rewrite <- Z.pow_add_r by lia; f_equal; lia).
      assert (0 < 2 ^ (7 - w_n_bits w)) by (apply Z.pow_pos_nonneg; lia). nia.
    - lia.
    - exists (bits_val p). rewrite Z.pow_succ_r by lia. lia.
    - rewrite Z.pow_succ_r by lia. assert (0 < 2 ^ (7 - w_n_bits w)) by (apply Z.pow_pos_nonneg; lia).
      destruct b; cbn [Z.b2z]; lia. }
  destruct (Z.eqb_spec (w_n_bits w + 1) 8) as [E|E].
  - exists []. cbn [w_data w_n_bits w_accumulator]. split_and!; [|done..].
    replace (7 - w_n_bits w) with (Z.of_nat 0) by lia.
    rewrite bytes_bits_app, pending_byte by (rewrite length_app; cbn [length]; lia).
    cbn [replicate]. by rewrite !app_nil_r, app_assoc.
  - exists (p ++ [b]). cbn [w_data w_n_bits w_accumulator]. rewrite length_app. cbn [length].
    split_and!; [by rewrite app_assoc|lia|lia|]. do 2 f_equal. lia.
Qed.

Lemma write_bits_holds n value w l :
  writer_holds w l -> writer_holds (gcs_bitwriter_write_bits_be w value n) (l ++ bits_be n value).
Proof.
  revert w l. induction n as [|n IH]; intros w l Hw; cbn [gcs_bitwriter_write_bits_be bits_be].
  - by rewrite app_nil_r.
  - rewrite land_1_bit by lia. change (Z.testbit value (Z.of_nat n) :: bits_be n value)
      with ([Z.testbit value (Z.of_nat n)] ++ bits_be n value).
    rewrite app_assoc. apply IH. set (b := Z.testbit value _).
    rewrite (wrap_small 8) by (destruct b; done).
    pose proof (write_bit_holds w l (Z.b2z b) ltac:(destruct b; cbn; lia) Hw) as H.
    by rewrite Z.b2z_bit0 in H.
Qed.

Lemma flush_holds w l :
  writer_holds w l -> exists k, (k < 8)%nat /\
    bytes_bits (w_data (gcs_bitwriter_flush w)) = l ++ replicate k false.
Proof.
  intros (p & -> & Hn & Hlt & Hacc). unfold gcs_bitwriter_flush.
  destruct (Z.ltb_spec 0 (w_n_bits w)).
  - exists (8 - length p)%nat. split; [lia|]. cbn [w_data]. rewrite bytes_bits_app, Hacc.
    replace (8 - w_n_bits w) with (Z.of_nat (8 - length p)) by lia.
    rewrite pending_byte by lia. by rewrite app_assoc.
  - exists 0%nat. split; [lia|]. destruct p; [|cbn in Hn; lia]. cbn. by rewrite !app_nil_r.
Qed.

(** ** Reading *)

Definition reader_holds (r : gcs_bitreader) (l : list bool) : Prop :=
  0 <= r_n_bits r /\ l = bits_be (Z.to_nat (r_n_bits r)) (r_accumulator r) ++ bytes_bits (r_data r).

Lemma reader_init_holds data : reader_holds (gcs_bitreader_init data) (bytes_bits data).
Proof. done. Qed.

Lemma read_bit_holds r l :
  reader_holds r l ->
  exists r', gcs_bitreader_read_bit r = (match l with [] => -1 | b :: _ => Z.b2z b end, r') /\
    reader_holds r' (tl l).
Proof.
  destruct r as [d acc n]. intros (Hn & ->). cbn [r_data r_accumulator r_n_bits] in *.
  unfold gcs_bitreader_read_bit. cbn [r_data r_accumulator r_n_bits].
  assert (forall d acc n, 0 < n ->
    Z.land (Z.shiftr acc (n - 1)) 1 =
      match bits_be (Z.to_nat n) acc ++ bytes_bits d with [] => -1 | b :: _ => Z.b2z b end /\
    reader_holds (mk_reader d acc (n - 1)) (tl (bits_be (Z.to_nat n) acc ++ bytes_bits d))) as H.
  { clear. intros d acc n Hn. replace (Z.to_nat n) with (S (Z.to_nat (n - 1))) by lia.
    cbn [bits_be app tl]. rewrite land_1_bit, Z2Nat.id by lia. split; [done|].
    split; [cbn [r_n_bits]; lia|done]. }
  destruct (Z.eqb_spec n 0) as [->|].
  - destruct d as [|b d].
    + eexists. split; [done|]. by split.
    + eexists. rewrite (proj1 (H d (byte.unsigned b) 8 ltac:(lia))).
      split; [done|]. apply (H d (byte.unsigned b) 8). lia.
  - eexists. rewrite (proj1 (H d acc n ltac:(lia))). split; [done|]. apply H. lia.
Qed.

Lemma read_bits_loop_holds n r l v :
  reader_holds r l -> (length v + n <= 64)%nat ->
  if decide (n <= length l)%nat then
    exists r', read_bits_loop r n (bits_val v) = (Some (bits_val (v ++ take n l)), r') /\
      reader_holds r' (drop n l)
  else exists r', read_bits_loop r n (bits_val v) = (None, r').
Proof.
  revert r l v. induction n as [|n IH]; intros r l v Hr Hlen; cbn [read_bits_loop].
  { rewrite decide_True by lia. rewrite take_0, drop_0, app_nil_r. by eexists. }
  destruct (read_bit_holds r l Hr) as (r' & -> & Hr'). destruct l as [|b l]; cbn [tl length] in *.
  { rewrite decide_False by lia. cbn. by eexists. }
  rewrite (proj2 (Z.ltb_ge _ 0)) by (destruct b; done).
  assert (Z.lor (u64 (Z.shiftl (bits_val v) 1)) (Z.b2z b) = bits_val (v ++ [b])) as ->.
  { pose proof (bits_val_range v) as Hv. rewrite bits_val_snoc, Z.shiftl_mul_pow2 by lia.
    assert (2 ^ Z.of_nat (length v) <= 2 ^ 63) by (apply Z.pow_le_mono_r; lia).
    rewrite (wrap_small 64) by (unfold urange; lia).
    rewrite (lor_disjoint _ _ 1); [lia|lia|by exists (bits_val v)|destruct b; cbn; lia]. }
  specialize (IH r' l (v ++ [b]) Hr'). rewrite length_app in IH. cbn [length] in IH.
  specialize (IH ltac:(lia)).
  destruct (decide (n <= length l)%nat).
  - rewrite decide_True by lia. destruct IH as (r'' & E & H'). exists r''. cbn [take drop].
    rewrite <- app_assoc in E. done.
  - rewrite decide_False by lia. done.
Qed.

Lemma read_bits_holds n r l :
  reader_holds r l -> (n <= 64)%nat ->
  if decide (n <= length l)%nat then
    exists r', gcs_bitreader_read_bits_be r n = (Some (bits_val (take n l)), r') /\ reader_holds r' (drop n l)
  else exists r', gcs_bitreader_read_bits_be r n = (None, r').
Proof. intros Hr Hn. apply (read_bits_loop_holds n r l []); [done|]. cbn [length]. lia. Qed.

(** ** The code on bits *)

Definition rice_bits (P : nat) (v : Z) : list bool :=
  replicate (Z.to_nat (Z.shiftr v (Z.of_nat P))) true ++ false :: bits_be P v.

Fixpoint rice_unary (l : list bool) : option (nat * list bool) :=
  match l with
  | [] => None
  | false :: l => Some (O, l)
  | true :: l => '(q, l) ← rice_unary l; Some (S q, l)
  end.

Definition rice_read (P : nat) (l : list bool) : option (Z * list bool) :=
  '(q, l) ← rice_unary l;
  if decide (P <= length l)%nat
  then Some (Z.of_nat q * 2 ^ Z.of_nat P + bits_val (take P l), drop P l) else None.

Lemma rice_unary_ones q l : rice_unary (replicate q true ++ false :: l) = Some (q, l).
Proof. induction q as [|q IH]; cbn; [done|]. by rewrite IH. Qed.

Lemma rice_read_bits P v l : 0 <= v -> rice_read P (rice_bits P v ++ l) = Some (v, l).
Proof.
  intros Hv. unfold rice_read, rice_bits. rewrite <- app_assoc. cbn [app]. rewrite rice_unary_ones.
  cbn [mbind option_bind]. rewrite decide_True by (rewrite length_app, length_bits_be; lia).
  rewrite take_app_exact, drop_app_exact by apply length_bits_be.
  rewrite bits_val_be, Z2Nat.id by (apply Z.shiftr_nonneg; lia).
  unfold wrap. rewrite Z.shiftr_div_pow2 by lia. do 2 f_equal.
  rewrite (Z.div_mod v (2 ^ Z.of_nat P)) at 3; [lia|]. apply Z.pow_nonzero; lia.
Qed.

Lemma rice_unary_le l q k : rice_unary l = Some (q, k) -> length l = (q + 1 + length k)%nat.
Proof.
  revert q k. induction l as [|[] l IH]; intros q k; cbn; [done| |].
  - destruct (rice_unary l) as [[q' k']|] eqn:E; cbn; [|done]. intros [= <- <-].
    rewrite (IH _ _ eq_refl). lia.
  - intros [= <- <-]. lia.
Qed.

(** A number is never longer than the bits it took. *)
Lemma rice_read_bound P l v k :
  rice_read P l = Some (v, k) ->
  0 <= v /\ v + Z.of_nat (length k) * 2 ^ Z.of_nat P <= Z.of_nat (length l) * 2 ^ Z.of_nat P.
Proof.
  unfold rice_read. destruct (rice_unary l) as [[q l']|] eqn:E; cbn [mbind option_bind]; [|done].
  destruct (decide (P <= length l')%nat); [|done]. intros [= <- <-].
  apply rice_unary_le in E. pose proof (bits_val_range (take P l')) as H.
  rewrite length_take, Nat.min_l in H by done. rewrite E, length_drop.
  assert (0 < 2 ^ Z.of_nat P) by (apply Z.pow_pos_nonneg; lia). split; nia.
Qed.

Lemma length_rice_bits P v : (P + 1 <= length (rice_bits P v))%nat.
Proof. unfold rice_bits. rewrite length_app. cbn [length]. rewrite length_bits_be. lia. Qed.

(** ** Coding *)

Lemma rice_encode_holds w l P v :
  0 <= v -> (P < 64)%nat -> writer_holds w l ->
  writer_holds (golomb_rice_encode w v P) (l ++ rice_bits P v).
Proof.
  intros Hv HP Hw. unfold golomb_rice_encode, rice_bits.
  assert (2 ^ Z.of_nat P < 2 ^ 64) by (apply Z.pow_lt_mono_r; lia).
  assert (0 < 2 ^ Z.of_nat P) by (apply Z.pow_pos_nonneg; lia).
  rewrite Z.shiftl_1_l, (wrap_small 64) by (unfold urange; lia). rewrite Z.sub_1_r, <- Z.ones_equiv, Z.land_ones by lia.
  fold (wrap (Z.of_nat P) v). rewrite <- (bits_be_ext P v).
  change (false :: bits_be P ?x) with ([false] ++ bits_be P x). rewrite !app_assoc.
  apply write_bits_holds. apply (write_bit_holds _ _ 0); [lia|].
  induction (Z.to_nat (Z.shiftr v (Z.of_nat P))) as [|q IH].
  - cbn. by rewrite app_nil_r.
  - replace (S q) with (q + 1)%nat at 2 by lia. rewrite replicate_add. cbn [replicate Nat.iter].
    rewrite app_assoc. by apply (write_bit_holds _ _ 1).
Qed.

Lemma read_unary_holds l r fuel q0 :
  reader_holds r l -> (length l < fuel)%nat -> 0 <= q0 -> q0 + Z.of_nat (length l) < 2 ^ 64 ->
  match rice_unary l with
  | Some (q, k) => exists r', read_unary fuel r q0 = Some (Some (q0 + Z.of_nat q), r') /\ reader_holds r' k
  | None => exists r', read_unary fuel r q0 = Some (None, r')
  end.
Proof.
  revert r fuel q0. induction l as [|b l IH]; intros r fuel q0 Hr Hf H0 Hlt;
    (destruct fuel as [|fuel]; [cbn [length] in Hf; lia|]); cbn [read_unary rice_unary];
    destruct (read_bit_holds r _ Hr) as (r' & -> & Hr'); cbn [tl length] in *.
  - by eexists.
  - destruct b; cbn.
    + rewrite wrap_small by (unfold urange; lia). specialize (IH r' fuel (q0 + 1) Hr').
      destruct (rice_unary l) as [[q k]|]; cbn.
      * destruct IH as (r'' & E & H'); [lia..|]. exists r''. split; [|done].
        rewrite E. do 3 f_equal. lia.
      * destruct IH as (r'' & E); [lia..|]. by exists r''.
    + exists r'. split; [|done]. do 3 f_equal. lia.
Qed.

Lemma reader_fuel r l : reader_holds r l -> (length l < unary_fuel r)%nat.
Proof.
  intros (_ & ->). unfold unary_fuel. rewrite length_app, length_bits_be, length_bytes_bits. lia.
Qed.

(** What the reader decodes is what the code on bits says, as long as quotients fit. *)
Lemma rice_decode_holds P l r :
  reader_holds r l -> (P < 64)%nat -> Z.of_nat (length l) < 2 ^ (64 - Z.of_nat P) ->
  match rice_read P l with
  | Some (v, k) => exists r', golomb_rice_decode r P = (Some v, r') /\ reader_holds r' k
  | None => exists r', golomb_rice_decode r P = (None, r')
  end.
Proof.
  intros Hr HP Hlen. unfold golomb_rice_decode, rice_read.
  assert (2 ^ (64 - Z.of_nat P) <= 2 ^ 64) by (apply Z.pow_le_mono_r; lia).
  pose proof (read_unary_holds l r _ 0 Hr (reader_fuel r l Hr) ltac:(lia) ltac:(lia)) as Hu.
  destruct (rice_unary l) as [[q k]|] eqn:Eu; cbn [mbind option_bind].
  2:{ destruct Hu as (r' & ->). by eexists. }
  destruct Hu as (r' & -> & Hr'). apply rice_unary_le in Eu.
  pose proof (read_bits_holds P r' k Hr' ltac:(lia)) as Hb.
  destruct (decide (P <= length k)%nat).
  - destruct Hb as (r'' & -> & Hr''). exists r''. split; [|done]. cbn [fmap option_fmap option_map].
    do 2 f_equal. rewrite Z.add_0_l, Z.shiftl_mul_pow2 by lia.
    pose proof (bits_val_range (take P k)) as Hv. rewrite length_take, Nat.min_l in Hv by done.
    assert (2 ^ (64 - Z.of_nat P) * 2 ^ Z.of_nat P = 2 ^ 64) by (rewrite <- Z.pow_add_r by lia; f_equal; lia).
    assert (0 < 2 ^ Z.of_nat P) by (apply Z.pow_pos_nonneg; lia).
    rewrite (wrap_small 64) by (unfold urange; nia).
    apply (lor_disjoint _ _ (Z.of_nat P)); [lia|by exists (Z.of_nat q)|done].
  - destruct Hb as (r'' & ->). by eexists.
Qed.

Definition rice_encode_all (w : gcs_bitwriter) (P : nat) (vs : list Z) : gcs_bitwriter :=
  foldl (fun w v => golomb_rice_encode w v P) w vs.

Lemma rice_encode_all_holds P vs w l :
  Forall (fun v => 0 <= v) vs -> (P < 64)%nat -> writer_holds w l ->
  writer_holds (rice_encode_all w P vs) (l ++ concat (rice_bits P <$> vs)).
Proof.
  intros Hvs HP. revert w l. induction Hvs as [|v vs Hv Hvs IH]; intros w l Hw; cbn.
  - by rewrite app_nil_r.
  - rewrite app_assoc. by apply IH, rice_encode_holds.
Qed.
