(* ===== verification/Golomb.v ===== *)
(** * Compact block filters ([src/src/golomb.c])

    BIP 158 Golomb-coded sets: hashing elements into the range of a filter, building the
    filter of a list of elements, testing one or many elements, the filter headers and the
    encoding peers exchange.  The bit streams and the code for numbers are in [Bitstream]. *)

From stdpp Require Import sorting.
From S2P Require Import Prelude Mem Words Serialize Sha256 Tx Btree Siphash Bitstream.

Local Open Scope Z_scope.

#[local] Opaque dogecoin_hash.

(** ** Sorting *)

Definition compar_le {A} (compar : A -> A -> Z) (a b : A) : Prop := compar a b <= 0.

#[export] Instance compar_le_dec {A} (compar : A -> A -> Z) a b : Decision (compar_le compar a b).
Proof. unfold compar_le. apply _. Defined.

(** [qsort]: how elements that compare equal are ordered is not specified; the comparisons
    of this file only hold for equal contents. *)
Definition qsort {A} (compar : A -> A -> Z) (l : list A) : list A :=
  merge_sort (compar_le compar) l.

Definition compare_uint64 (a b : Z) : Z := if a <? b then -1 else if b <? a then 1 else 0.

Definition compare_element (x y : bytes) : Z :=
  if negb (length x =? length y)%nat then (if (length x <? length y)%nat then -1 else 1)
  else memcmp (length x) x y.

(** ** Hashing elements *)

Definition map_to_range (x F : Z) : Z :=
  let x_hi := Z.shiftr x 32 in let x_lo := Z.land x 0xFFFFFFFF in
  let F_hi := Z.shiftr F 32 in let F_lo := Z.land F 0xFFFFFFFF in
  let lo_lo := u64 (x_lo * F_lo) in let lo_hi := u64 (x_lo * F_hi) in
  let hi_lo := u64 (x_hi * F_lo) in let hi_hi := u64 (x_hi * F_hi) in
  let carry := Z.shiftr (u64 (u64 (Z.shiftr lo_lo 32 + Z.land lo_hi 0xFFFFFFFF) +
                              Z.land hi_lo 0xFFFFFFFF)) 32 in
  u64 (u64 (u64 (hi_hi + Z.shiftr lo_hi 32) + Z.shiftr hi_lo 32) + carry).

Definition gcs_derive_key (blockhash : bytes) : bytes := take 16 blockhash.

Definition gcs_hash_element (key : bytes) (F : Z) (data : bytes) : Z :=
  let k0 := Prelude.le_dec (take 8 key) in
  let k1 := Prelude.le_dec (take 8 (drop 8 key)) in
  map_to_range (siphasher_finalize (siphasher_hash (siphasher_set k0 k1) data)) F.

(** ** Filters *)

Definition GCS_BASIC_FILTER_TYPE : Z := 0x00.
Definition GCS_BASIC_FILTER_P : Z := 19.
Definition GCS_BASIC_FILTER_M : Z := 784931.

Record gcs_filter := mk_gcs {
  filter_type : Z; N : Z; F : Z; P : Z; M : Z; key : bytes; encoded : option bytes }.

Definition gcs_filter_new `{!Allocator} : option gcs_filter :=
  if alloc_ok 56 then
    Some (mk_gcs GCS_BASIC_FILTER_TYPE 0 0 GCS_BASIC_FILTER_P GCS_BASIC_FILTER_M (zeros 16) None)
  else None.

(** One step of the loop over the sorted array [distinct], whose first [n] entries it
    rewrites in place. *)
Definition collapse_step (st : list bytes * nat) (i : nat) : list bytes * nat :=
  let '(distinct, n) := st in
  let e := nth i distinct [] in
  if (n =? 0)%nat || negb (compare_element (nth (n - 1) distinct []) e =? 0)
  then (<[n := e]> distinct, S n) else (distinct, n).

Definition collapse (distinct : list bytes) : list bytes * nat :=
  foldl collapse_step (distinct, O) (seq 0 (length distinct)).

Definition encode_step (P : nat) (st : gcs_bitwriter * Z) (h : Z) : gcs_bitwriter * Z :=
  let '(w, prev) := st in (golomb_rice_encode w (u64 (h - prev)) P, h).

(** [None]: with 2^32 elements or more the loop that fills [distinct] stops early and the
    comparison reads through NULL. *)
Definition gcs_filter_build `{!Allocator} (filter : gcs_filter) (ftype : Z) (blockhash : bytes)
    (elements : list bytes) : option (bool * gcs_filter) :=
  let len := Z.of_nat (length elements) in
  let k := gcs_derive_key blockhash in
  let set n f enc := mk_gcs ftype n f GCS_BASIC_FILTER_P GCS_BASIC_FILTER_M k enc in
  if len =? 0 then Some (true, set 0 0 (Some []))
  else if negb (alloc_ok (u64 (len * 8))) then
    Some (false, set (N filter) (F filter) (encoded filter))
  else if 2 ^ 32 <=? len then None
  else
    let '(distinct, n_distinct) := collapse (qsort compare_element elements) in
    let n := u32 (Z.of_nat n_distinct) in
    let f := u64 (n * GCS_BASIC_FILTER_M) in
    if negb (alloc_ok (n * 8)) then Some (false, set n f (encoded filter))
    else
      let hashes := gcs_hash_element k f <$> take n_distinct distinct in
      let hashes := qsort compare_uint64 hashes in
      let '(w, _) := foldl (encode_step (Z.to_nat GCS_BASIC_FILTER_P)) (gcs_bitwriter_init, 0) hashes in
      Some (true, set n f (Some (w_data (gcs_bitwriter_flush w)))).

(** ** Matching *)

(** [for (i = 0; i < filter->N; i++)], with [n] iterations left. *)
Fixpoint match_loop (n : nat) (r : gcs_bitreader) (P : nat) (value target : Z) : bool :=
  match n with
  | O => false
  | S n =>
      match golomb_rice_decode r P with
      | (None, _) => false
      | (Some delta, r) =>
          let value := u64 (value + delta) in
          if value =? target then true
          else if target <? value then false
          else match_loop n r P value target
      end
  end.

Definition gcs_filter_match (filter : gcs_filter) (data : bytes) : bool :=
  match encoded filter with
  | None => false
  | Some enc =>
      if N filter =? 0 then false
      else match_loop (Z.to_nat (N filter)) (gcs_bitreader_init enc) (Z.to_nat (P filter)) 0
             (gcs_hash_element (key filter) (F filter) data)
  end.

(** The walk over the filter and the queries that are left; [None]: no fuel left. *)
Fixpoint match_any_loop (fuel : nat) (N : Z) (P : nat) (r : gcs_bitreader)
    (filter_value filter_idx : Z) (queries : list Z) : option bool :=
  match fuel with
  | O => None
  | S fuel =>
      match queries with
      | [] => Some false
      | q :: queries' =>
          if N <? filter_idx then Some false
          else if filter_value =? q then Some true
          else if filter_value <? q then
            if N <=? filter_idx then Some false
            else match golomb_rice_decode r P with
                 | (None, _) => Some false
                 | (Some delta, r) =>
                     match_any_loop fuel N P r (u64 (filter_value + delta)) (filter_idx + 1) queries
                 end
          else match_any_loop fuel N P r filter_value filter_idx queries'
      end
  end.

Definition match_any_fuel (N : Z) (queries : list Z) : nat := S (Z.to_nat N + length queries).

Definition gcs_filter_match_any `{!Allocator} (filter : gcs_filter) (elements : list bytes) : bool :=
  match encoded filter with
  | None => false
  | Some enc =>
      if (N filter =? 0) || (Z.of_nat (length elements) =? 0) then false
      else if negb (alloc_ok (u64 (Z.of_nat (length elements) * 8))) then false
      else
        let queries := gcs_hash_element (key filter) (F filter) <$> elements in
        let queries := qsort compare_uint64 queries in
        let P := Z.to_nat (P filter) in
        match golomb_rice_decode (gcs_bitreader_init enc) P with
        | (None, _) => false
        | (Some delta, r) =>
            default false (match_any_loop (match_any_fuel (N filter) queries) (N filter) P r
                             (u64 (0 + delta)) 1 queries)
        end
  end.

(** ** Basic filters *)

(** The elements a transaction's outputs add: scripts that are not empty and do not start
    with OP_RETURN. *)
Definition output_element (txout : tx_out) : option bytes :=
  match script_pubkey txout with
  | Some (b :: script) => if byte.unsigned b =? 0x6a then None else Some (b :: script)
  | _ => None
  end.

Definition prev_element (script : option bytes) : option bytes :=
  match script with Some (b :: script) => Some (b :: script) | _ => None end.

(** [txouts]: the outputs of each transaction; [None]: no list of previous scripts. *)
Definition gcs_build_basic_filter `{!Allocator} (filter : gcs_filter) (blockhash : bytes)
    (txouts : list (list tx_out)) (prev_output_scripts : option (list (option bytes))) :
    option (bool * gcs_filter) :=
  let elements := omap output_element (concat txouts) ++
                  omap prev_element (default [] prev_output_scripts) in
  gcs_filter_build filter GCS_BASIC_FILTER_TYPE blockhash elements.

(** ** Headers and wire encoding *)

Definition gcs_filter_serialize {S} `{!ByteSink S} (filter : gcs_filter) (out : S) : S :=
  let out := ser_varlen out (N filter) in
  match encoded filter with
  | Some (b :: enc) => sink_append out (b :: enc)
  | _ => out
  end.

Definition gcs_filter_compute_header (filter : gcs_filter) (prev_header : bytes) : bytes :=
  let filter_hash := dogecoin_hash (gcs_filter_serialize filter []) in
  dogecoin_hash (take 32 filter_hash ++ take 32 prev_header).

Definition gcs_filter_deserialize (filter : gcs_filter) (ftype : Z) (blockhash : bytes)
    (buf : bytes) : bool * gcs_filter * bytes :=
  let set n f enc := mk_gcs ftype n f GCS_BASIC_FILTER_P GCS_BASIC_FILTER_M
                       (gcs_derive_key blockhash) enc in
  let fail buf := (false, set (N filter) (F filter) (encoded filter), buf) in
  match deser_varlen buf with
  | (None, buf) => fail buf
  | (Some n, buf) =>
      let max_n := u64 (Z.of_nat (length buf) * 8) / (GCS_BASIC_FILTER_P + 1) in
      if max_n <? n then fail buf
      else (true, set n (u64 (n * GCS_BASIC_FILTER_M)) (Some buf), [])
  end.

(** ** The ranges *)

Lemma map_to_range_spec x f :
  urange 64 x -> urange 64 f -> map_to_range x f = x * f / 2 ^ 64.
Proof.
  unfold urange. intros Hx Hf. unfold map_to_range.
  change 0xFFFFFFFF with (Z.ones 32). rewrite !Z.land_ones, !Z.shiftr_div_pow2 by lia.
  assert (forall z, 0 <= z < 2 ^ 64 -> 0 <= z / 2 ^ 32 < 2 ^ 32 /\ 0 <= z mod 2 ^ 32 < 2 ^ 32 /\
    z = 2 ^ 32 * (z / 2 ^ 32) + z mod 2 ^ 32) as D.
  { intros z Hz. split_and!; try (apply Z.mod_pos_bound; lia); [| |apply Z.div_mod; lia].
    - apply Z.div_pos; lia.
    - apply Z.div_lt_upper_bound; lia. }
  destruct (D x Hx) as (Hxh & Hxl & Ex). destruct (D f Hf) as (Hfh & Hfl & Ef).
  set (xh := x / 2 ^ 32) in *. set (xl := x mod 2 ^ 32) in *.
  set (fh := f / 2 ^ 32) in *. set (fl := f mod 2 ^ 32) in *.
  assert (forall a b, 0 <= a < 2 ^ 32 -> 0 <= b < 2 ^ 32 -> 0 <= a * b <= (2 ^ 32 - 1) * (2 ^ 32 - 1)) as M.
  { intros a b Ha Hb. nia. }
  assert (x * f = 2 ^ 64 * (xh * fh) + 2 ^ 32 * (xl * fh + xh * fl) + xl * fl) as E by (rewrite Ex, Ef; ring).
  pose proof (M xl fl Hxl Hfl) as H1. pose proof (M xl fh Hxl Hfh) as H2.
  pose proof (M xh fl Hxh Hfl) as H3. pose proof (M xh fh Hxh Hfh) as H4.
  pose proof (Z.mul_nonneg_nonneg x f ltac:(lia) ltac:(lia)) as H5.
  assert (x * f < 2 ^ 64 * 2 ^ 64) as H6 by nia.
  rewrite E in *. clear E Ex Ef Hx Hf Hxh Hxl Hfh Hfl M.
  generalize dependent (xl * fl). generalize dependent (xl * fh). generalize dependent (xh * fl).
  generalize dependent (xh * fh). clear xh xl fh fl. intros hh H4 hl H3 lh H2 ll H1 H5 H6.
  rewrite (wrap_small 64 hh), (wrap_small 64 lh), (wrap_small 64 hl), (wrap_small 64 ll) by (unfold urange; lia).
  destruct (D lh ltac:(lia)) as (? & ? & Elh). destruct (D hl ltac:(lia)) as (? & ? & Ehl).
  destruct (D ll ltac:(lia)) as (? & ? & Ell).
  set (lhh := lh / 2 ^ 32) in *. set (lhl := lh mod 2 ^ 32) in *. set (hlh := hl / 2 ^ 32) in *.
  set (hll := hl mod 2 ^ 32) in *. set (llh := ll / 2 ^ 32) in *. set (lll := ll mod 2 ^ 32) in *.
  rewrite (wrap_small 64 (llh + lhl)), (wrap_small 64 (llh + lhl + hll)) by (unfold urange; lia).
  destruct (D (llh + lhl + hll) ltac:(lia)) as (? & ? & Ec).
  set (c := (llh + lhl + hll) / 2 ^ 32) in *. set (cl := (llh + lhl + hll) mod 2 ^ 32) in *.
  clearbody lhh lhl hlh hll llh lll c cl.
  rewrite (wrap_small 64 (hh + lhh)), (wrap_small 64 (hh + lhh + hlh)), (wrap_small 64)
    by (unfold urange; lia).
  apply (Z.div_unique _ _ _ (2 ^ 32 * cl + lll)); lia.
Qed.

Lemma map_to_range_range x f : urange 64 x -> urange 64 f -> 0 < f -> 0 <= map_to_range x f < f.
Proof.
  intros Hx Hf Hp. rewrite map_to_range_spec by done. unfold urange in *. split.
  - apply Z.div_pos; nia.
  - apply Z.div_lt_upper_bound; nia.
Qed.

Lemma gcs_hash_range k f data : urange 64 f -> 0 < f -> 0 <= gcs_hash_element k f data < f.
Proof.
  intros Hf Hp. assert (forall b, urange 64 (Prelude.le_dec (take 8 b))) as Hk.
  { intros b. pose proof (le_dec_range (take 8 b)) as Hr. rewrite length_take in Hr. unfold urange in *.
    assert (2 ^ (8 * Z.of_nat (8 `min` length b)) <= 2 ^ 64) by (apply Z.pow_le_mono_r; lia). lia. }
  apply map_to_range_range; [|done..]. apply siphash_range; apply Hk.
Qed.

(** ** The comparisons *)

#[export] Instance compare_element_comparison : Comparison compare_element.
Proof.
  split; unfold compare_element.
  - intros x y. rewrite (Nat.eqb_sym (length y)). destruct (Nat.eqb_spec (length x) (length y)) as [->|]; cbn [negb].
    + rewrite memcmp_antisym. apply Z.sgn_opp.
    + destruct (Nat.ltb_spec (length x) (length y)), (Nat.ltb_spec (length y) (length x)); done || lia.
  - intros x y z.
    destruct (Nat.eqb_spec (length x) (length y)) as [Hxy|], (Nat.eqb_spec (length y) (length z)) as [Hyz|],
      (Nat.eqb_spec (length x) (length z)) as [Hxz|]; cbn [negb]; try lia;
      [rewrite Hxy; apply memcmp_trans|..];
      destruct (Nat.ltb_spec (length x) (length y)), (Nat.ltb_spec (length y) (length z)),
        (Nat.ltb_spec (length x) (length z)); lia.
  - intros x y z.
    destruct (Nat.eqb_spec (length x) (length y)) as [->|]; cbn [negb].
    2:{ destruct (length x <? length y)%nat; done. }
    intros E. destruct (negb _); [done|]. by rewrite (memcmp_equal _ _ _ _ E).
Qed.

Lemma compare_element_0 x y : compare_element x y = 0 <-> x = y.
Proof.
  unfold compare_element. destruct (Nat.eqb_spec (length x) (length y)) as [E|E]; cbn [negb].
  - by apply memcmp_0.
  - split; [destruct (length x <? length y)%nat; done|by intros ->].
Qed.

#[export] Instance compare_uint64_comparison : Comparison compare_uint64.
Proof.
  split; unfold compare_uint64; intros;
    repeat match goal with
    | |- context [?a <? ?b] => destruct (Z.ltb_spec a b)
    | H : context [?a <? ?b] |- _ => destruct (Z.ltb_spec a b)
    end; done || lia.
Qed.

Lemma compare_uint64_0 a b : compare_uint64 a b = 0 <-> a = b.
Proof. unfold compare_uint64. destruct (Z.ltb_spec a b), (Z.ltb_spec b a); lia. Qed.

Lemma compare_uint64_le a b : compar_le compare_uint64 a b <-> a <= b.
Proof. unfold compar_le, compare_uint64. destruct (Z.ltb_spec a b), (Z.ltb_spec b a); lia. Qed.

(** ** Sorting *)

Section qsort.
Context {A : Type} (compar : A -> A -> Z) `{!Comparison compar}.
Context (compar_0 : forall a b, compar a b = 0 <-> a = b).
Abbreviation le := (compar_le compar).
Definition compar_lt (a b : A) : Prop := compar a b < 0.

#[export] Instance compar_le_total : Total le.
Proof. intros a b. unfold compar_le. pose proof (compar_antisym a b). lia. Qed.

#[export] Instance compar_le_trans : Transitive le.
Proof.
  intros a b c. unfold compar_le. intros Hab Hbc.
  destruct (decide (compar a b = 0)) as [->%compar_0|]; [done|].
  destruct (decide (compar b c = 0)) as [<-%compar_0|]; [done|].
  pose proof (compar_trans a b c). lia.
Qed.

#[export] Instance compar_le_antisym : AntiSymm eq le.
Proof.
  intros a b. unfold compar_le. intros. apply compar_0. pose proof (compar_antisym a b). lia.
Qed.

Lemma qsort_sorted l : StronglySorted le (qsort compar l).
Proof. apply StronglySorted_merge_sort; apply _. Qed.

Lemma qsort_perm l : qsort compar l ≡ₚ l.
Proof. apply merge_sort_Permutation. Qed.

Lemma qsort_unique l k : StronglySorted le k -> k ≡ₚ l -> qsort compar l = k.
Proof.
  intros Hk Hp. apply (StronglySorted_unique le); [apply qsort_sorted|done|]. by rewrite qsort_perm.
Qed.

Lemma compar_lt_nodup l : StronglySorted compar_lt l -> NoDup l.
Proof.
  induction 1 as [|a l _ IH Ha]; [by apply NoDup_nil|]. apply NoDup_cons. split; [|done]. intros Hin.
  rewrite Forall_forall in Ha. specialize (Ha a Hin). unfold compar_lt in Ha.
  rewrite (proj2 (compar_0 a a)) in Ha by done. lia.
Qed.

Lemma compar_lt_sorted l : StronglySorted compar_lt l -> StronglySorted le l.
Proof.
  induction 1 as [|a l _ IH Ha]; constructor; [done|]. eapply Forall_impl; [done|].
  unfold compar_lt, compar_le. lia.
Qed.

(** A strictly ordered list is determined by its elements. *)
Lemma compar_lt_unique l k :
  StronglySorted compar_lt l -> StronglySorted compar_lt k -> (forall x, x ∈ l <-> x ∈ k) -> l = k.
Proof.
  intros Hl Hk E. apply (StronglySorted_unique le); [by apply compar_lt_sorted..|].
  apply NoDup_Permutation; [by apply compar_lt_nodup..|done].
Qed.
End qsort.

(** ** Collapsing duplicates *)

(** After [i] steps over the sorted [l]. *)
Record collapsed (l : list bytes) (i : nat) (st : list bytes * nat) : Prop := {
  col_length : length st.1 = length l;
  col_n : (st.2 <= i)%nat;
  col_rest : drop i st.1 = drop i l;
  col_sorted : StronglySorted (compar_lt compare_element) (take st.2 st.1);
  col_last : i <> O -> (st.2 <> 0)%nat /\ nth (st.2 - 1) st.1 [] = nth (i - 1) l [];
  col_elems x : x ∈ take st.2 st.1 <-> x ∈ take i l;
}.

Lemma sorted_take_le {A} (R : A -> A -> Prop) l i x e :
  StronglySorted R l -> x ∈ take i l -> l !! i = Some e -> R x e.
Proof.
  intros Hs Hx He. rewrite <- (take_drop_middle l i e He) in Hs.
  apply StronglySorted_app in Hs as (H & _). apply H; [done|apply list_elem_of_here].
Qed.

(** What the next element is, and how it relates to the last one kept. *)
Lemma collapsed_next l i st :
  StronglySorted (compar_le compare_element) l -> (i < length l)%nat -> collapsed l i st ->
  exists e, l !! i = Some e /\ nth i st.1 [] = e /\ (st.2 < length st.1)%nat /\
    (st.2 = 0%nat \/ compare_element (nth (st.2 - 1) st.1 []) e <> 0 ->
     forall x, x ∈ take st.2 st.1 -> compar_lt compare_element x e) /\
    (st.2 <> 0%nat -> compare_element (nth (st.2 - 1) st.1 []) e = 0 -> e ∈ take st.2 st.1).
Proof.
  intros Hl Hi [Hlen Hn Hrest Hs Hlast Hel].
  destruct (lookup_lt_is_Some_2 l i Hi) as [e He]. exists e. split; [done|].
  assert (st.1 !! i = Some e) as He'.
  { rewrite <- (Nat.add_0_r i), <- lookup_drop, Hrest, lookup_drop, Nat.add_0_r. done. }
  split; [by apply nth_lookup_Some|]. split; [lia|]. split.
  - intros Hnew x Hx. assert (compar_le compare_element x e) as Hle
      by (apply (sorted_take_le _ l i); [done|by apply Hel|done]).
    unfold compar_lt. unfold compar_le in Hle. enough (compare_element x e <> 0) by lia.
    intros ->%compare_element_0. destruct Hnew as [H0|Hne]; [rewrite H0, take_0 in Hx; by apply not_elem_of_nil in Hx|].
    apply Hel in Hx. assert (i <> 0%nat) as Hi0 by (intros ->; rewrite take_0 in Hx; by apply not_elem_of_nil in Hx).
    destruct (Hlast Hi0) as [_ El]. rewrite El in Hne. apply Hne, compare_element_0.
    destruct (lookup_lt_is_Some_2 l (i - 1) ltac:(lia)) as [y Hy].
    rewrite (nth_lookup_Some _ _ _ _ Hy). apply (compar_le_antisym compare_element compare_element_0).
    + apply (sorted_take_le _ l i); [done| |done]. apply list_elem_of_lookup. exists (i - 1)%nat.
      by rewrite lookup_take_lt by lia.
    + replace i with (S (i - 1)) in Hx by lia. rewrite (take_S_r _ _ y) in Hx by done.
      apply elem_of_app in Hx as [Hx|Hx%list_elem_of_singleton]; [|subst; by apply Z.eq_le_incl, compare_element_0].
      by apply (sorted_take_le _ l (i - 1)).
  - intros H0 <-%compare_element_0. apply list_elem_of_lookup. exists (st.2 - 1)%nat.
    rewrite lookup_take_lt by lia. destruct (lookup_lt_is_Some_2 st.1 (st.2 - 1) ltac:(lia)) as [y Hy].
    by rewrite (nth_lookup_Some _ _ _ _ Hy).
Qed.

Lemma collapse_step_spec l i st :
  StronglySorted (compar_le compare_element) l -> (i < length l)%nat ->
  collapsed l i st -> collapsed l (S i) (collapse_step st i).
Proof.
  intros Hl Hi Hc. destruct (collapsed_next l i st Hl Hi Hc) as (e & He & En & Hn' & Hnew & Hold).
  destruct Hc as [Hlen Hn Hrest Hs Hlast Hel]. destruct st as [d n]. cbn [fst snd] in *.
  unfold collapse_step. rewrite En.
  assert (drop (S i) d = drop (S i) l) as Hrest'.
  { replace (S i) with (i + 1)%nat by lia. by rewrite <- !drop_drop, Hrest. }
  assert (nth i l [] = e) as Enl by by apply nth_lookup_Some.
  destruct ((n =? 0)%nat || _) eqn:E.
  - assert (n = 0%nat \/ compare_element (nth (n - 1) d []) e <> 0) as Hne.
    { apply orb_true_iff in E as [E|E]; [left; by apply Nat.eqb_eq|right].
      apply negb_true_iff in E. by apply Z.eqb_neq. }
    assert (take (S n) (<[n:=e]> d) = take n d ++ [e]) as Et.
    { rewrite (take_S_r _ _ e) by (rewrite list_lookup_insert_eq; done). by rewrite take_insert_ge. }
    split; cbn [fst snd].
    + by rewrite length_insert.
    + lia.
    + by rewrite drop_insert_lt by lia.
    + rewrite Et. apply StronglySorted_app. split_and!; [|done|by repeat constructor].
      intros x y Hx ->%list_elem_of_singleton. by apply Hnew.
    + intros _. split; [lia|]. rewrite !Nat.sub_succ, !Nat.sub_0_r, Enl.
      apply nth_lookup_Some. by rewrite list_lookup_insert_eq.
    + intros x. rewrite Et, (take_S_r l i e) by done. rewrite !elem_of_app, Hel. done.
  - apply orb_false_iff in E as [E0%Nat.eqb_neq E%negb_false_iff%Z.eqb_eq].
    split; cbn [fst snd]; [done|lia|done|done| |].
    + intros _. split; [done|]. rewrite Nat.sub_succ, Nat.sub_0_r, Enl. by apply compare_element_0.
    + intros x. rewrite (take_S_r l i e), elem_of_app, list_elem_of_singleton, <- Hel by done.
      split; [by left|]. intros [H| ->]; [done|]. by apply Hold.
Qed.

Lemma collapse_spec l :
  StronglySorted (compar_le compare_element) l ->
  let '(d, n) := collapse l in
  (n <= length d)%nat /\ (n <= length l)%nat /\ StronglySorted (compar_lt compare_element) (take n d) /\
  forall x, x ∈ take n d <-> x ∈ l.
Proof.
  intros Hl. assert (forall i, (i <= length l)%nat ->
    collapsed l i (foldl collapse_step (l, O) (seq 0 i))) as H.
  { induction i as [|i IH]; intros Hi.
    - split; cbn [fst snd foldl seq]; try done. rewrite take_0. constructor.
    - rewrite seq_S, foldl_app. cbn [foldl]. apply collapse_step_spec; [done|lia|]. apply IH. lia. }
  specialize (H (length l) ltac:(lia)). unfold collapse. destruct (foldl _ _ _) as [d n].
  destruct H as [Hlen Hn _ Hs _ Hel]. cbn [fst snd] in *. split_and!; [lia|lia|done|].
  intros x. by rewrite Hel, take_ge.
Qed.

(** The distinct elements, in the order the filter hashes them. *)
Definition distinct_elements (elements : list bytes) : list bytes :=
  let '(d, n) := collapse (qsort compare_element elements) in take n d.

Lemma distinct_elements_spec els :
  StronglySorted (compar_lt compare_element) (distinct_elements els) /\
  (length (distinct_elements els) = (collapse (qsort compare_element els)).2)%nat /\
  (length (distinct_elements els) <= length els)%nat /\
  forall x, x ∈ distinct_elements els <-> x ∈ els.
Proof.
  unfold distinct_elements. pose proof (collapse_spec _ (qsort_sorted _ compare_element_0 els)) as H.
  pose proof (qsort_perm compare_element els) as Hp.
  destruct (collapse _) as [d n]. destruct H as (Hn & Hn' & Hs & Hel). cbn [snd].
  rewrite length_take, Nat.min_l by done. rewrite (Permutation_length Hp) in Hn'.
  split_and!; [done|done|done|]. intros x. by rewrite Hel, Hp.
Qed.

(** They depend on the set of elements only. *)
Lemma distinct_elements_set els els' :
  (forall x, x ∈ els <-> x ∈ els') -> distinct_elements els = distinct_elements els'.
Proof.
  intros E. destruct (distinct_elements_spec els) as (H & _ & _ & Hel).
  destruct (distinct_elements_spec els') as (H' & _ & _ & Hel').
  apply (compar_lt_unique compare_element compare_element_0); [done..|]. intros x. by rewrite Hel, Hel'.
Qed.

(** ** The values of a filter *)

(** The running sums of the numbers in [l], at most [n]. *)
Fixpoint gcs_values (P n : nat) (l : list bool) (v : Z) : list Z :=
  match n with
  | O => []
  | S n => match rice_read P l with
           | Some (d, l) => (v + d) :: gcs_values P n l (v + d)
           | None => []
           end
  end.

Fixpoint deltas (prev : Z) (hs : list Z) : list Z :=
  match hs with [] => [] | h :: hs => (h - prev) :: deltas h hs end.

Lemma gcs_values_ge P n l v x : x ∈ gcs_values P n l v -> v <= x.
Proof.
  revert l v. induction n as [|n IH]; intros l v; cbn [gcs_values]; [by intros ?%not_elem_of_nil|].
  destruct (rice_read P l) as [[d k]|] eqn:E; [|by intros ?%not_elem_of_nil].
  apply rice_read_bound in E as [Hd _]. rewrite elem_of_cons. intros [->|H]; [lia|].
  apply IH in H. lia.
Qed.

Lemma gcs_values_deltas P hs v k :
  StronglySorted Z.le (v :: hs) ->
  gcs_values P (length hs) (concat (rice_bits P <$> deltas v hs) ++ k) v = hs.
Proof.
  revert v. induction hs as [|h hs IH]; intros v Hs; [done|].
  apply StronglySorted_cons in Hs as [Hv Hs]. apply Forall_cons in Hv as [Hv _].
  cbn [deltas fmap list_fmap concat length gcs_values]. rewrite <- app_assoc, rice_read_bits by lia.
  replace (v + (h - v)) with h by lia. by rewrite IH.
Qed.

Lemma deltas_nonneg hs v : StronglySorted Z.le (v :: hs) -> Forall (fun d => 0 <= d) (deltas v hs).
Proof.
  revert v. induction hs as [|h hs IH]; intros v Hs; [done|].
  apply StronglySorted_cons in Hs as [Hv Hs]. apply Forall_cons in Hv as [Hv _].
  constructor; [lia|by apply IH].
Qed.

(** How long the code of a sorted list is. *)
Lemma deltas_bits_length P hs v B :
  StronglySorted Z.le (v :: hs) -> Forall (fun h => h <= B) (v :: hs) ->
  let bits := Z.of_nat (length (concat (rice_bits P <$> deltas v hs))) in
  (Z.of_nat P + 1) * Z.of_nat (length hs) <= bits /\
  2 ^ Z.of_nat P * bits + v <= B + 2 ^ Z.of_nat P * ((Z.of_nat P + 1) * Z.of_nat (length hs)).
Proof.
  revert v. induction hs as [|h hs IH]; intros v Hs HB; cbn [deltas fmap list_fmap concat length].
  { apply Forall_cons in HB as [HB _]. split; lia. }
  apply StronglySorted_cons in Hs as [Hv Hs]. apply Forall_cons in Hv as [Hv _].
  apply Forall_cons in HB as [_ HB]. specialize (IH h Hs HB) as [IH1 IH2].
  rewrite length_app. set (n := length (concat _)) in *. unfold rice_bits. rewrite length_app, length_replicate.
  cbn [length]. rewrite length_bits_be, Z.shiftr_div_pow2 by lia.
  assert (0 < 2 ^ Z.of_nat P) as Hp by (apply Z.pow_pos_nonneg; lia).
  pose proof (Z.mul_div_le (h - v) (2 ^ Z.of_nat P) Hp).
  pose proof (Z.div_pos (h - v) (2 ^ Z.of_nat P) ltac:(lia) Hp).
  split; nia.
Qed.

Lemma encode_steps hs w v P :
  StronglySorted Z.le (v :: hs) -> Forall (urange 64) (v :: hs) ->
  (foldl (encode_step P) (w, v) hs).1 = rice_encode_all w P (deltas v hs).
Proof.
  revert w v. induction hs as [|h hs IH]; intros w v Hs Hr; [done|].
  apply StronglySorted_cons in Hs as [Hv Hs]. apply Forall_cons in Hv as [Hv _].
  apply Forall_cons in Hr as [Hrv Hr]. pose proof (Forall_inv Hr) as Hh. unfold urange in *.
  cbn [foldl encode_step deltas]. rewrite IH by done. unfold rice_encode_all. cbn [foldl].
  rewrite (wrap_small 64) by (unfold urange; lia). done.
Qed.

(** ** Matching *)

Lemma fits_bits (l : list bool) P :
  (P < 64)%nat -> Z.of_nat (length l) * 2 ^ Z.of_nat P < 2 ^ 64 -> Z.of_nat (length l) < 2 ^ (64 - Z.of_nat P).
Proof.
  intros HP H. assert (0 < 2 ^ Z.of_nat P) by (apply Z.pow_pos_nonneg; lia).
  assert (2 ^ (64 - Z.of_nat P) * 2 ^ Z.of_nat P = 2 ^ 64) by (rewrite <- Z.pow_add_r by lia; f_equal; lia).
  nia.
Qed.

(** Decoding the next number, by cases on the bits. *)
Lemma next_value P l r v :
  reader_holds r l -> (P < 64)%nat -> 0 <= v -> v + Z.of_nat (length l) * 2 ^ Z.of_nat P < 2 ^ 64 ->
  match rice_read P l with
  | Some (d, k) => exists r', golomb_rice_decode r P = (Some d, r') /\ reader_holds r' k /\
      0 <= d /\ u64 (v + d) = v + d /\ v + d + Z.of_nat (length k) * 2 ^ Z.of_nat P < 2 ^ 64
  | None => exists r', golomb_rice_decode r P = (None, r')
  end.
Proof.
  intros Hr HP Hv Hfit. assert (0 < 2 ^ Z.of_nat P) by (apply Z.pow_pos_nonneg; lia).
  pose proof (rice_decode_holds P l r Hr HP ltac:(apply fits_bits; [done|lia])) as H'.
  destruct (rice_read P l) as [[d k]|] eqn:E; [|done].
  apply rice_read_bound in E. destruct H' as (r' & -> & Hr'). exists r'.
  split_and!; [done|done|lia| |lia]. apply wrap_small. unfold urange. nia.
Qed.

Lemma match_loop_spec P n r l v t :
  reader_holds r l -> (P < 64)%nat -> 0 <= v -> v + Z.of_nat (length l) * 2 ^ Z.of_nat P < 2 ^ 64 ->
  match_loop n r P v t = bool_decide (t ∈ gcs_values P n l v).
Proof.
  revert r l v. induction n as [|n IH]; intros r l v Hr HP Hv Hfit; cbn [match_loop gcs_values].
  { symmetry. apply bool_decide_eq_false. apply not_elem_of_nil. }
  pose proof (next_value P l r v Hr HP Hv Hfit) as H. destruct (rice_read P l) as [[d k]|].
  2:{ destruct H as (r' & ->). symmetry. apply bool_decide_eq_false. apply not_elem_of_nil. }
  destruct H as (r' & -> & Hr' & Hd & -> & Hfit').
  destruct (Z.eqb_spec (v + d) t) as [<-|Hne].
  { symmetry. apply bool_decide_eq_true. apply list_elem_of_here. }
  destruct (Z.ltb_spec t (v + d)).
  - symmetry. apply bool_decide_eq_false. rewrite elem_of_cons. intros [->|Hin]; [done|].
    apply gcs_values_ge in Hin. lia.
  - rewrite IH with (l := k) by (done || lia). apply bool_decide_ext. rewrite elem_of_cons.
    split; [by right|]. by intros [->|].
Qed.

Lemma existsb_not_in {A} `{!EqDecision A} (l : list A) :
  existsb (fun q => bool_decide (q ∈ @nil A)) l = false.
Proof.
  induction l as [|x l IH]; [done|]. cbn [existsb]. rewrite IH.
  by rewrite bool_decide_eq_false_2 by apply not_elem_of_nil.
Qed.

Lemma match_any_loop_spec P fuel Nn idx r l v qs :
  reader_holds r l -> (P < 64)%nat -> 0 <= v -> v + Z.of_nat (length l) * 2 ^ Z.of_nat P < 2 ^ 64 ->
  idx <= Nn -> (Z.to_nat (Nn - idx) + length qs < fuel)%nat -> StronglySorted Z.le qs ->
  match_any_loop fuel Nn P r v idx qs =
  Some (existsb (fun q => bool_decide (q ∈ v :: gcs_values P (Z.to_nat (Nn - idx)) l v)) qs).
Proof.
  revert idx r l v qs. induction fuel as [|fuel IH]; intros idx r l v qs Hr HP Hv Hfit Hidx Hfuel Hs; [lia|].
  cbn [match_any_loop]. destruct qs as [|q qs]; [done|]. cbn [length] in Hfuel.
  rewrite (proj2 (Z.ltb_ge Nn idx)) by lia. destruct (Z.eqb_spec v q) as [<-|Hne].
  { cbn [existsb]. by rewrite bool_decide_eq_true_2 by apply list_elem_of_here. }
  pose proof Hs as Hs0. apply StronglySorted_cons in Hs as [Hq Hs].
  destruct (Z.ltb_spec v q) as [Hlt|Hge].
  - (* the value in front of every query drops out *)
    assert (forall vs, existsb (fun q => bool_decide (q ∈ v :: vs)) (q :: qs) =
      existsb (fun q => bool_decide (q ∈ vs)) (q :: qs)) as Hdrop.
    { clear Hs0. intros vs. assert (Forall (fun x => v < x) (q :: qs)) as Hall.
      { constructor; [done|]. apply (Forall_impl _ _ _ Hq). intros x Hx. lia. }
      induction Hall as [|x xs Hx _ IHx]; [done|]. cbn [existsb]. rewrite IHx. f_equal.
      apply bool_decide_ext. rewrite elem_of_cons. split; [intros [->|]; [lia|done]|by right]. }
    rewrite Hdrop. clear Hdrop. destruct (Z.leb_spec Nn idx).
    + replace (Z.to_nat (Nn - idx)) with O by lia. cbn [gcs_values]. by rewrite existsb_not_in.
    + replace (Z.to_nat (Nn - idx)) with (S (Z.to_nat (Nn - (idx + 1)))) by lia. cbn [gcs_values].
      pose proof (next_value P l r v Hr HP Hv Hfit) as H'. destruct (rice_read P l) as [[d k]|].
      * destruct H' as (r' & -> & Hr' & Hd & -> & Hfit'). apply IH; try done; try lia. cbn [length]. lia.
      * destruct H' as (r' & ->). by rewrite existsb_not_in.
  - rewrite IH with (l := l) by (done || lia). cbn [existsb].
    rewrite bool_decide_eq_false_2; [done|]. rewrite elem_of_cons. intros [->|Hin]; [done|].
    apply gcs_values_ge in Hin. lia.
Qed.

(** ** What a filter promises *)

Definition filter_values (f : gcs_filter) : list Z :=
  match encoded f with
  | None => []
  | Some enc => gcs_values (Z.to_nat (P f)) (Z.to_nat (N f)) (bytes_bits enc) 0
  end.

(** No sum of decoded numbers exceeds 64 bits; with [P = 19] that is less than 4 TB. *)
Definition filter_fits (f : gcs_filter) : Prop :=
  0 <= P f < 64 /\ forall enc, encoded f = Some enc -> 8 * Z.of_nat (length enc) * 2 ^ P f < 2 ^ 64.

Lemma filter_fits_bits f enc :
  filter_fits f -> encoded f = Some enc ->
  (Z.to_nat (P f) < 64)%nat /\
  0 + Z.of_nat (length (bytes_bits enc)) * 2 ^ Z.of_nat (Z.to_nat (P f)) < 2 ^ 64.
Proof.
  intros [HP H] E. specialize (H enc E). rewrite length_bytes_bits, Z2Nat.id by lia. split; [lia|].
  replace (Z.of_nat (8 * length enc)) with (8 * Z.of_nat (length enc)) by lia. lia.
Qed.

Lemma gcs_filter_match_values f data :
  filter_fits f ->
  gcs_filter_match f data = bool_decide (gcs_hash_element (key f) (F f) data ∈ filter_values f).
Proof.
  intros Hf. unfold gcs_filter_match, filter_values. destruct (encoded f) as [enc|] eqn:E.
  2:{ symmetry. apply bool_decide_eq_false, not_elem_of_nil. }
  destruct (filter_fits_bits f enc Hf E) as [HP Hfit]. destruct (Z.eqb_spec (N f) 0) as [->|_].
  { symmetry. apply bool_decide_eq_false, not_elem_of_nil. }
  by apply match_loop_spec; [apply reader_init_holds|..].
Qed.

Lemma existsb_perm {A} (p : A -> bool) l k : l ≡ₚ k -> existsb p l = existsb p k.
Proof.
  induction 1; cbn [existsb]; [done|by f_equal|by rewrite !orb_assoc, (orb_comm (p y))|by etrans].
Qed.

Lemma existsb_fmap {A B} (p : B -> bool) (g : A -> B) l : existsb p (g <$> l) = existsb (fun x => p (g x)) l.
Proof. induction l as [|x l IH]; [done|]. cbn. by rewrite <- IH. Qed.

Lemma existsb_ext {A} (p q : A -> bool) l : (forall x, p x = q x) -> existsb p l = existsb q l.
Proof. intros E. induction l as [|x l IH]; [done|]. cbn. by rewrite E, IH. Qed.

Lemma qsort_uint64_sorted l : StronglySorted Z.le (qsort compare_uint64 l).
Proof.
  pose proof (qsort_sorted compare_uint64 compare_uint64_0 l) as H.
  induction H as [|a k _ IH Ha]; constructor; [done|]. apply (Forall_impl _ _ _ Ha).
  intros x. apply compare_uint64_le.
Qed.

#[local] Existing Instance default_mapper.

Lemma gcs_filter_match_any_values f els :
  filter_fits f -> 0 <= N f ->
  gcs_filter_match_any f els = existsb (gcs_filter_match f) els.
Proof.
  intros Hf HN. rewrite (existsb_ext _ _ els (fun e => gcs_filter_match_values f e Hf)).
  unfold gcs_filter_match_any, filter_values.
  destruct (encoded f) as [enc|] eqn:E.
  2:{ symmetry. induction els as [|e els IH]; [done|]. cbn [existsb]. rewrite IH.
      by rewrite bool_decide_eq_false_2 by apply not_elem_of_nil. }
  destruct (filter_fits_bits f enc Hf E) as [HP Hfit]. set (hash := gcs_hash_element (key f) (F f)).
  change (fun x => bool_decide (hash x ∈ ?vs)) with (fun x => (fun q => bool_decide (q ∈ vs)) (hash x)).
  rewrite <- (existsb_fmap _ hash els).
  destruct (Z.eqb_spec (N f) 0) as [->|HN0]; cbn [orb].
  { cbn [Z.to_nat gcs_values]. by rewrite existsb_not_in. }
  destruct (Z.eqb_spec (Z.of_nat (length els)) 0) as [E0|_]; [by destruct els|]. cbn [alloc_ok default_mapper negb].
  rewrite <- (existsb_perm _ _ _ (qsort_perm compare_uint64 (hash <$> els))).
  replace (Z.to_nat (N f)) with (S (Z.to_nat (N f - 1))) by lia. cbn [gcs_values].
  pose proof (next_value _ _ _ 0 (reader_init_holds enc) HP ltac:(lia) Hfit) as Hn.
  destruct (rice_read _ _) as [[d k]|]; [|destruct Hn as (r & ->); by rewrite existsb_not_in].
  destruct Hn as (r & -> & Hr & Hd & -> & Hfit').
  rewrite (match_any_loop_spec _ _ _ 1 r k (0 + d)); [done|..];
    first [done | lia | apply qsort_uint64_sorted | unfold match_any_fuel; lia].
Qed.

(** *** Building *)

Definition encode_hashes (hs : list Z) : bytes :=
  w_data (gcs_bitwriter_flush (foldl (encode_step 19) (gcs_bitwriter_init, 0) (qsort compare_uint64 hs)).1).

(** The filter of a set of elements. *)
Definition built (ftype : Z) (blockhash : bytes) (els : list bytes) : gcs_filter :=
  let d := distinct_elements els in
  let n := Z.of_nat (length d) in
  let f := n * GCS_BASIC_FILTER_M in
  let k := gcs_derive_key blockhash in
  mk_gcs ftype n f GCS_BASIC_FILTER_P GCS_BASIC_FILTER_M k
    (Some (encode_hashes (gcs_hash_element k f <$> d))).

Lemma gcs_filter_build_spec f ftype blockhash els :
  Z.of_nat (length els) < 2 ^ 32 ->
  gcs_filter_build f ftype blockhash els = Some (true, built ftype blockhash els).
Proof.
  intros Hlen. unfold gcs_filter_build, built. destruct (distinct_elements_spec els) as (_ & _ & Hl & _).
  destruct (Z.eqb_spec (Z.of_nat (length els)) 0) as [E0|_].
  { destruct els; [|done]. reflexivity. }
  cbn [alloc_ok default_mapper negb]. rewrite (proj2 (Z.leb_gt _ _)) by done.
  unfold distinct_elements in *. pose proof (collapse_spec _ (qsort_sorted _ compare_element_0 els)) as Hc.
  destruct (collapse _) as [d n]. destruct Hc as (Hn & _ & _ & _).
  rewrite length_take, Nat.min_l in * by done. cbn [alloc_ok default_mapper negb].
  rewrite (wrap_small 32) by (unfold urange; lia). unfold GCS_BASIC_FILTER_M.
  rewrite (wrap_small 64) by (unfold urange; lia). unfold encode_hashes.
  change (Z.to_nat GCS_BASIC_FILTER_P) with 19%nat. by destruct (foldl _ _ _).
Qed.

Lemma encode_hashes_spec hs B :
  Forall (fun h => 0 <= h <= B) hs -> 0 <= B < 2 ^ 64 -> exists k, (k < 8)%nat /\
  bytes_bits (encode_hashes hs) =
    concat (rice_bits 19 <$> deltas 0 (qsort compare_uint64 hs)) ++ replicate k false.
Proof.
  intros Hh HB. unfold encode_hashes. set (sorted := qsort compare_uint64 hs).
  assert (Forall (fun h => 0 <= h <= B) sorted) as Hs.
  { unfold sorted. by rewrite (qsort_perm compare_uint64 hs). }
  assert (StronglySorted Z.le (0 :: sorted)) as Hss.
  { constructor; [apply qsort_uint64_sorted|]. apply (Forall_impl _ _ _ Hs). intros ? ?; cbn in *. lia. }
  rewrite encode_steps; [|done|].
  2:{ constructor; [done|]. apply (Forall_impl _ _ _ Hs). intros ? ?; cbn in *. unfold urange. lia. }
  apply flush_holds. apply (rice_encode_all_holds _ _ _ []); [by apply deltas_nonneg|lia|apply writer_init_holds].
Qed.

Lemma sorted_hashes_bounds hs B :
  Forall (fun h => 0 <= h <= B) hs -> 0 <= B ->
  StronglySorted Z.le (0 :: qsort compare_uint64 hs) /\ Forall (fun h => h <= B) (0 :: qsort compare_uint64 hs).
Proof.
  intros Hh HB. rewrite <- (qsort_perm compare_uint64 hs) in Hh. split; constructor; try done.
  - apply qsort_uint64_sorted.
  - apply (Forall_impl _ _ _ Hh). intros ? ?; cbn in *. lia.
  - apply (Forall_impl _ _ _ Hh). intros ? ?; cbn in *. lia.
Qed.

(** What the filter of [els] holds, and how long it is. *)
Lemma built_values ftype blockhash els :
  Z.of_nat (length els) < 2 ^ 32 ->
  let f := built ftype blockhash els in
  filter_fits f /\
  filter_values f = qsort compare_uint64 (gcs_hash_element (key f) (F f) <$> distinct_elements els) /\
  (forall enc, encoded f = Some enc -> 20 * N f <= 8 * Z.of_nat (length enc)).
Proof.
  intros Hlen f. destruct (distinct_elements_spec els) as (_ & _ & Hl & _).
  unfold f, built, filter_fits, filter_values. cbn [key F N P encoded].
  set (d := distinct_elements els) in *. set (B := Z.of_nat (length d) * GCS_BASIC_FILTER_M).
  set (hs := gcs_hash_element _ _ <$> d).
  assert (0 <= B < 2 ^ 52) as HB by (unfold B, GCS_BASIC_FILTER_M; lia).
  assert (Forall (fun h => 0 <= h <= B) hs) as Hh.
  { apply Forall_fmap, Forall_forall. intros x Hx. cbn [compose].
    assert (0 < B) by (unfold B, GCS_BASIC_FILTER_M; destruct d; [by apply not_elem_of_nil in Hx|cbn [length]; lia]).
    pose proof (gcs_hash_range (gcs_derive_key blockhash) B x ltac:(unfold urange; lia) ltac:(lia)). lia. }
  destruct (encode_hashes_spec hs B Hh ltac:(lia)) as (k & Hk & Eb).
  destruct (sorted_hashes_bounds hs B Hh ltac:(lia)) as [Hss HsB].
  pose proof (deltas_bits_length 19 _ 0 B Hss HsB) as Hbits. cbv zeta in Hbits.
  assert (length (qsort compare_uint64 hs) = length d) as Hn.
  { rewrite (Permutation_length (qsort_perm compare_uint64 hs)). apply length_fmap. }
  rewrite Hn in Hbits. pose proof (f_equal length Eb) as El.
  rewrite length_bytes_bits, length_app, length_replicate in El.
  set (bits := length (concat _)) in *. change GCS_BASIC_FILTER_P with 19.
  change (2 ^ Z.of_nat 19) with (2 ^ 19) in Hbits. change (Z.of_nat 19 + 1) with 20 in Hbits.
  split_and!; [lia|lia| | |].
  - intros enc [= <-]. lia.
  - rewrite Nat2Z.id, Eb. change (Z.to_nat 19) with 19%nat. rewrite <- Hn. by apply gcs_values_deltas.
  - intros enc [= <-]. lia.
Qed.

(** *** The properties *)

(** C27: The filter of fewer than 2^32 elements is built, counts the distinct ones, and matches
    an element exactly when its hash is the hash of one of them; so it never misses one. *)
Theorem gcs_match_correct f ftype blockhash els :
  Z.of_nat (length els) < 2 ^ 32 ->
  exists f', gcs_filter_build f ftype blockhash els = Some (true, f') /\
    N f' = Z.of_nat (length (remove_dups els)) /\ F f' = N f' * M f' /\
    forall e, gcs_filter_match f' e = true <->
      exists x, x ∈ els /\ gcs_hash_element (key f') (F f') x = gcs_hash_element (key f') (F f') e.
Proof.
  intros Hlen. exists (built ftype blockhash els). split; [by apply gcs_filter_build_spec|].
  destruct (built_values ftype blockhash els Hlen) as (Hfit & Hv & _).
  destruct (distinct_elements_spec els) as (Hs & _ & _ & Hel). split_and!.
  - unfold built. cbn [N]. f_equal. apply Permutation_length, NoDup_Permutation.
    + by apply (compar_lt_nodup compare_element compare_element_0).
    + apply NoDup_remove_dups.
    + intros x. by rewrite Hel, elem_of_remove_dups.
  - done.
  - intros e. rewrite gcs_filter_match_values, Hv, bool_decide_eq_true by done.
    rewrite (qsort_perm compare_uint64), list_elem_of_fmap. split.
    + intros (x & E & Hx). exists x. by rewrite <- Hel.
    + intros (x & Hx & E). exists x. by rewrite Hel.
Qed.

(** Testing many elements at once, with the walk over sorted hashes, is testing each of
    them, for every filter, also one a peer made up, whose sums of numbers fit 64 bits. *)
Theorem match_any_is_any f els :
  filter_fits f -> urange 32 (N f) -> gcs_filter_match_any f els = existsb (gcs_filter_match f) els.
Proof. intros Hf [HN _]. by apply gcs_filter_match_any_values. Qed.

(** The filter depends on the set of elements only: neither their order nor how often one
    occurs, nor the filter's state before, changes a byte of it. *)
Theorem gcs_build_set f f' ftype blockhash els els' :
  Z.of_nat (length els) < 2 ^ 32 -> Z.of_nat (length els') < 2 ^ 32 ->
  (forall x, x ∈ els <-> x ∈ els') ->
  gcs_filter_build f ftype blockhash els = gcs_filter_build f' ftype blockhash els'.
Proof.
  intros H H' E. rewrite !gcs_filter_build_spec by done. unfold built.
  by rewrite (distinct_elements_set els els').
Qed.

(** Reading back a filter that was built gives the filter, past the check on the claimed
    number of elements, and consumes the buffer; a filter that claims more elements than its
    bytes can hold is refused. *)
Theorem gcs_serialize_round_trip f g ftype blockhash els n body :
  Z.of_nat (length els) < 2 ^ 32 ->
  (exists f', gcs_filter_build f ftype blockhash els = Some (true, f') /\
    gcs_filter_deserialize g ftype blockhash (gcs_filter_serialize f' ([] : bytes)) = (true, f', [])) /\
  (urange 32 n -> Z.of_nat (length body) < 2 ^ 61 -> 8 * Z.of_nat (length body) < 20 * n ->
   (gcs_filter_deserialize g ftype blockhash (ser_varlen ([] : bytes) n ++ body)).1.1 = false).
Proof.
  intros Hlen. split.
  - exists (built ftype blockhash els). split; [by apply gcs_filter_build_spec|].
    destruct (built_values ftype blockhash els Hlen) as (Hfit & _ & H20).
    destruct (distinct_elements_spec els) as (_ & _ & Hl & _).
    unfold gcs_filter_serialize. set (f' := built _ _ _) in *.
    destruct (encoded f') as [enc|] eqn:E; [|done]. specialize (H20 enc eq_refl).
    destruct Hfit as [_ Hfit]. specialize (Hfit enc E). change (P f') with 19 in Hfit.
    assert (urange 32 (N f')) as HN by (unfold f', built, urange; cbn [N]; lia).
    assert (match enc with b :: enc => sink_append (ser_varlen ([] : bytes) (N f')) (b :: enc)
            | [] => ser_varlen [] (N f') end = ser_varlen [] (N f') ++ enc) as ->.
    { destruct enc; [by rewrite app_nil_r|done]. }
    unfold gcs_filter_deserialize. rewrite (varlen_round_trip (N f') enc HN).
    rewrite (wrap_small 64) by (unfold urange; lia).
    rewrite (proj2 (Z.ltb_ge _ _)).
    2:{ apply Z.div_le_lower_bound; [done|]. change (GCS_BASIC_FILTER_P + 1) with 20. lia. }
    unfold urange in HN. rewrite (wrap_small 64) by (unfold urange, GCS_BASIC_FILTER_M; lia).
    rewrite <- E. reflexivity.
  - intros Hn Hb Hlt. unfold gcs_filter_deserialize. rewrite (varlen_round_trip n body Hn).
    rewrite (wrap_small 64) by (unfold urange; lia).
    rewrite (proj2 (Z.ltb_lt _ _)); [done|]. apply Z.div_lt_upper_bound; [done|].
    change (GCS_BASIC_FILTER_P + 1) with 20. lia.
Qed.

Definition example_elements : list bytes := [[Byte.x01; Byte.x02]; [Byte.x05]; [Byte.x01; Byte.x02]].
Definition example_filter : gcs_filter := mk_gcs 0 0 0 19 784931 [] None.

Lemma gcs_match_correct_witness :
  exists f', gcs_filter_build example_filter 0 (zeros 32) example_elements = Some (true, f') /\
    N f' = 2 /\ gcs_filter_match f' [Byte.x05] = true.
Proof.
  destruct (gcs_match_correct example_filter 0 (zeros 32) example_elements eq_refl)
    as (f' & E & HN & _ & H).
  exists f'. split; [exact E|]. split; [exact HN|]. apply H. exists [Byte.x05].
  split; [right; left|reflexivity].
Defined.

Definition received_filter : gcs_filter :=
  mk_gcs 0 3 2354793 19 784931 (zeros 16) (Some [Byte.x0e; Byte.x89; Byte.x4c; Byte.xe7; Byte.x62]).

Lemma match_any_is_any_witness :
  gcs_filter_match_any received_filter example_elements =
  existsb (gcs_filter_match received_filter) example_elements.
Proof.
  apply match_any_is_any.
  - split; [split; vm_compute; congruence|]. intros enc [= <-]. reflexivity.
  - split; vm_compute; congruence.
Defined.

Lemma gcs_build_set_witness :
  gcs_filter_build example_filter 0 (zeros 32) example_elements =
  gcs_filter_build received_filter 0 (zeros 32) [[Byte.x05]; [Byte.x01; Byte.x02]].
Proof.
  apply gcs_build_set; [reflexivity|reflexivity|]. intros x.
  unfold example_elements. rewrite !elem_of_cons, !elem_of_nil. tauto.
Defined.

Lemma gcs_serialize_round_trip_witness :
  (gcs_filter_deserialize received_filter 0 (zeros 32) (ser_varlen ([] : bytes) 1000 ++ zeros 10)).1.1 = false.
Proof. apply (gcs_serialize_round_trip example_filter received_filter 0 (zeros 32) []); reflexivity || (split; vm_compute; congruence). Defined.
