(* ===== verification/Koinu.v ===== *)
(** * Amounts ([src/src/koinu.c])

    The conversions between an amount in koinu and its text in coins.  Buffers are regions;
    a write outside one gives [None]. *)

From S2P Require Import Prelude Mem Utils.

Local Open Scope Z_scope.

#[local] Set Warnings "-abstract-large-number".

(** ** Digits *)

Definition digit_char (d : Z) : Byte.byte := byte.of_Z (d + 48).
Definition char_0 : Byte.byte := Byte.x30.
Definition char_dot : Byte.byte := Byte.x2e.

Definition is_digit (c : Byte.byte) : bool := (48 <=? byte.unsigned c) && (byte.unsigned c <=? 57).
Definition digit_value (c : Byte.byte) : Z := byte.unsigned c - 48.

(** ** Reading a number *)

(** The digits in front of the text and their number. *)
Fixpoint take_digits (s : bytes) (v : Z) (n : nat) : Z * nat :=
  match s with
  | c :: s => if is_digit c then take_digits s (10 * v + digit_value c) (S n) else (v, n)
  | [] => (v, n)
  end.

(** [strtoull(s, &end, 10)]: the value, the offset of [end], and whether [errno] was set to
    ERANGE; the negative of a value is taken modulo 2^64. *)
Definition strtoull (s : bytes) : Z * nat * bool :=
  let rest := skip_spaces s in
  let skipped := (length s - length rest)%nat in
  let '(neg, digits, skipped) :=
    match rest with
    | c :: r => if byte_eqb c Byte.x2d then (true, r, S skipped)
                else if byte_eqb c Byte.x2b then (false, r, S skipped) else (false, rest, skipped)
    | [] => (false, rest, skipped)
    end in
  let '(v, n) := take_digits digits 0 0 in
  if (n =? 0)%nat then (0, O, false)
  else if 2 ^ 64 - 1 <? v then (2 ^ 64 - 1, (skipped + n)%nat, true)
  else (if neg then u64 (- v) else v, (skipped + n)%nat, false).

(** ** Checks *)

Inductive conversion_type :=
  | CONVERSION_SUCCESS | CONVERSION_NON_DECIMAL | CONVERSION_INVALID_STR_TERMINATION
  | CONVERSION_OUT_OF_RANGE | CONVERSION_OVERFLOW | CONVERSION_UNDERFLOW
  | CONVERSION_UNSUPPORTED_VALUE | CONVERSION_FAILURE.

#[export] Instance conversion_type_eq_dec : EqDecision conversion_type.
Proof. solve_decision. Defined.

(** [ends]: the text, where reading it ended, and the character expected there; [None] when
    the pointers are NULL. *)
Definition validate_conversion (converted : Z) (erange : bool) (ends : option (bytes * nat * Byte.byte)) :
    conversion_type :=
  let type := CONVERSION_SUCCESS in
  let type := match ends with
              | Some (src, src_end, target) =>
                  let type := if (src_end =? 0)%nat then CONVERSION_NON_DECIMAL else type in
                  if negb (byte_eqb target (nth src_end src byte_zero))
                  then CONVERSION_INVALID_STR_TERMINATION else type
              | None => type
              end in
  let type := if (converted =? 2 ^ 64 - 1) && erange then CONVERSION_OUT_OF_RANGE else type in
  let type := if 2 ^ 64 - 1 <=? converted then CONVERSION_OVERFLOW else type in
  if converted =? 0xFFFFF511543FB600 then CONVERSION_UNDERFLOW else type.

(** 22 characters at most; [string] is a region with a NUL. *)
Definition check_length (string : bytes) : option Z :=
  n ← c_strlen string; Some (if 22 <? Z.of_nat n then 0 else Z.of_nat n).

(** ** Writing an amount *)

(** [while (x > 0) { x /= 10; count++; }]; twenty digits are enough for 64 bits. *)
Fixpoint calc_length_loop (fuel : nat) (x count : Z) : option Z :=
  if x <=? 0 then Some count
  else match fuel with O => None | S fuel => calc_length_loop fuel (x / 10) (count + 1) end.

Definition calc_length (x : Z) : option Z := calc_length_loop 20 x 0.

Definition string_step (length : Z) (st : option (Z * bytes)) (i : nat) : option (Z * bytes) :=
  '(input, output) ← st;
  output ← mem_write (length - (Z.of_nat i + 1)) [digit_char (input mod 10)] output;
  Some (input / 10, output).

(** [string(input, output)] *)
Definition string (input : Z) (output : bytes) : option bytes :=
  length ← calc_length input;
  '(_, output) ← foldl (string_step length) (Some (input, output)) (seq 0 (Z.to_nat length));
  mem_write length [byte_zero] output.

Definition KOINU_COINS_STR_MIN_LEN : Z := 11.
Definition KOINU_COINS_STR_MAX_LEN : Z := 22.

Definition koinu_coins_str_required_size (koinu : Z) : option Z :=
  length ← calc_length koinu;
  Some (if length <? 9 then KOINU_COINS_STR_MIN_LEN else length + 2).

(** The zeros in front of a short amount. *)
Definition lead_step (str : option bytes) (i : nat) : option bytes :=
  str ← str;
  if (i =? 0)%nat || (i =? 1)%nat then str ← mem_write 0 [char_0] str; mem_write 1 [char_dot] str
  else mem_write (Z.of_nat i) [char_0] str.

(** [str\[i\] = swap\[j\]], with [i = target + j]. *)
Definition tail_step (swap : bytes) (target : Z) (str : option bytes) (j : nat) : option bytes :=
  str ← str; b ← mem_read (Z.of_nat j) 1 swap; mem_write (target + Z.of_nat j) b str.

(** The dot goes behind the digit [target]. *)
Definition dot_step (tmp : bytes) (target : Z) (str : option bytes) (i : nat) : option bytes :=
  str ← str;
  b ← mem_read (Z.of_nat i) 1 tmp;
  if Z.of_nat i <? target then mem_write (Z.of_nat i) b str
  else if Z.of_nat i =? target then
    str ← mem_write (Z.of_nat i) b str; mem_write (Z.of_nat i + 1) [char_dot] str
  else mem_write (Z.of_nat i + 1) b str.

(** [str]: NULL or the caller's region; [tmp]: what the local array holds at first. *)
Definition koinu_to_coins_str (koinu : Z) (str : option bytes) (str_size : Z) (tmp : bytes) :
    option (bool * option bytes) :=
  if decide (validate_conversion koinu false None <> CONVERSION_SUCCESS) then Some (false, str)
  else match str with
  | None => Some (false, None)
  | Some str =>
      required ← koinu_coins_str_required_size koinu;
      if str_size <? required then Some (false, Some str)
      else
        length ← calc_length koinu;
        if length <? 9 then
          let target := 10 - length in
          str ← string koinu str;
          l ← c_strlen str;
          let swap := take (l + 1) str in
          str ← foldl lead_step (Some str) (seq 0 (Z.to_nat target));
          str ← foldl (tail_step swap target) (Some str) (seq 0 (Z.to_nat (10 - target)));
          str ← mem_write 10 [byte_zero] str;
          Some (true, Some str)
        else
          let target := length - 9 in
          tmp ← string koinu tmp;
          str ← foldl (dot_step tmp target) (Some str) (seq 0 (Z.to_nat length));
          str ← mem_write (length + 1) [byte_zero] str;
          Some (true, Some str)
  end.

(** ** Reading an amount *)

(** The loop over the integer part; the result is the position behind it. *)
Fixpoint integer_part (coins : bytes) (i length : nat) (dogecoin_string : bytes) : option (nat * bytes) :=
  match length with
  | O => Some (i, dogecoin_string)
  | S length =>
      match coins with
      | [] => None
      | c :: coins =>
          d ← mem_write (Z.of_nat i) [c] dogecoin_string;
          if byte_eqb c char_dot then
            d ← foldl (fun d j => d ← d; mem_write (Z.of_nat j) [char_0] d) (Some d) (seq i 8);
            d ← mem_write (Z.of_nat i) [byte_zero] d;
            Some (S i, d)
          else integer_part coins (S i) length d
      end
  end.

(** [coins]: the region with the text and its NUL. *)
Definition coins_to_koinu_str (coins : bytes) : option Z :=
  c0 ← coins !! O;
  if byte_eqb c0 Byte.x2d then Some 0
  else
    length ← check_length coins;
    if length =? 0 then Some 0
    else
      '(i, dogecoin_string) ← integer_part coins 0 (Z.to_nat length) (zeros 21);
      let fraction := take 8 (take (Z.to_nat length - i) (drop i coins)) in
      koinu_string ← mem_write 0 fraction (zeros 9);
      let mantissa_length := List.length fraction in
      koinu_string ←
        (if (mantissa_length =? 8)%nat then
           l ← c_strlen koinu_string; mem_write (Z.of_nat l) [byte_zero] koinu_string
         else mem_write (Z.of_nat mantissa_length) (replicate (8 - mantissa_length) char_0) koinu_string);
      let '(dogecoin, doge_end, erange) := strtoull dogecoin_string in
      let state := validate_conversion dogecoin erange (Some (dogecoin_string, doge_end, byte_zero)) in
      l ← c_strlen dogecoin_string;
      let dogecoin := if decide (state = CONVERSION_SUCCESS)
                      then if (l <=? 12)%nat then u64 (dogecoin * 100000000) else dogecoin
                      else dogecoin in
      let '(k, koinu_end, erange) := strtoull koinu_string in
      let koinu := u64 (k + dogecoin) in
      let state := validate_conversion koinu erange (Some (koinu_string, koinu_end, byte_zero)) in
      Some (if decide (state = CONVERSION_SUCCESS) then koinu else 0).

(** ** Decimal text *)

(** The low [n] decimal digits of [x], the highest first. *)
Fixpoint digits (n : nat) (x : Z) : bytes :=
  match n with O => [] | S n => digit_char (x / 10 ^ Z.of_nat n mod 10) :: digits n x end.

Definition num_val (ds : bytes) : Z := foldl (fun v c => 10 * v + digit_value c) 0 ds.

Definition all_digits (ds : bytes) : Prop := Forall (fun c => is_digit c = true) ds.

Lemma digit_char_spec d : 0 <= d < 10 -> is_digit (digit_char d) = true /\ digit_value (digit_char d) = d.
Proof.
  intros Hd. assert (d = 0 \/ d = 1 \/ d = 2 \/ d = 3 \/ d = 4 \/ d = 5 \/ d = 6 \/ d = 7 \/ d = 8 \/ d = 9)
    as H by lia. decompose [or] H; subst; done.
Qed.

(** What a digit is not. *)
Lemma digit_not c :
  is_digit c = true -> is_space c = false /\ byte_eqb c Byte.x2d = false /\ byte_eqb c Byte.x2b = false /\
    byte_eqb c byte_zero = false /\ byte_eqb c char_dot = false /\ 0 <= digit_value c <= 9.
Proof. unfold digit_value. destruct c; try discriminate; intros _; vm_compute; split_and!; congruence. Qed.

Lemma length_digits n x : length (digits n x) = n.
Proof. induction n as [|n IH]; cbn [digits length]; [done|]. by rewrite IH. Qed.

Lemma digits_all n x : all_digits (digits n x).
Proof.
  induction n as [|n IH]; constructor; [|done]. apply digit_char_spec, Z.mod_pos_bound. lia.
Qed.

Lemma digits_app a b x : digits (a + b) x = digits a (x / 10 ^ Z.of_nat b) ++ digits b x.
Proof.
  induction a as [|a IH]; [done|]. cbn [Nat.add digits app]. rewrite IH. do 2 f_equal.
  assert (0 < 10 ^ Z.of_nat b) by (apply Z.pow_pos_nonneg; lia).
  assert (0 < 10 ^ Z.of_nat a) by (apply Z.pow_pos_nonneg; lia).
  rewrite Z.div_div by lia. by rewrite <- Z.pow_add_r, (Z.add_comm (Z.of_nat b)), <- Nat2Z.inj_add by lia.
Qed.

Lemma digits_0 n : digits n 0 = replicate n char_0.
Proof.
  induction n as [|n IH]; [done|]. cbn [digits replicate]. rewrite IH. f_equal.
Qed.

(** Zeros in front of a short number. *)
Lemma digits_pad a b x : 0 <= x < 10 ^ Z.of_nat b -> digits (a + b) x = replicate a char_0 ++ digits b x.
Proof. intros Hx. by rewrite digits_app, Z.div_small, digits_0. Qed.

Lemma num_val_app ds es : num_val (ds ++ es) = num_val ds * 10 ^ Z.of_nat (length es) + num_val es.
Proof.
  assert (forall v, foldl (fun v c => 10 * v + digit_value c) v es =
    v * 10 ^ Z.of_nat (length es) + num_val es) as H.
  { induction es as [|c es IH] using rev_ind; intros v; [cbn; lia|]. unfold num_val in *.
    rewrite !foldl_app, length_app. cbn [foldl length]. rewrite IH.
    replace (Z.of_nat (length es + 1)) with (Z.succ (Z.of_nat (length es))) by lia.
    rewrite Z.pow_succ_r by lia. lia. }
  unfold num_val at 1. rewrite foldl_app. apply H.
Qed.

Lemma num_val_cons c ds : num_val (c :: ds) = digit_value c * 10 ^ Z.of_nat (length ds) + num_val ds.
Proof. change (c :: ds) with ([c] ++ ds). rewrite num_val_app. f_equal. Qed.

Lemma num_val_range ds : all_digits ds -> 0 <= num_val ds < 10 ^ Z.of_nat (length ds).
Proof.
  induction 1 as [|c ds Hc Hds IH]; [cbn; lia|]. rewrite num_val_cons. cbn [length].
  apply digit_not in Hc as (_ & _ & _ & _ & _ & Hc).
  rewrite Nat2Z.inj_succ, Z.pow_succ_r by lia. nia.
Qed.

Lemma num_val_digits n x : num_val (digits n x) = x mod 10 ^ Z.of_nat n.
Proof.
  induction n as [|n IH]; [symmetry; apply Z.mod_1_r|]. cbn [digits].
  rewrite num_val_cons, IH, length_digits.
  rewrite (proj2 (digit_char_spec _ (Z.mod_pos_bound _ 10 ltac:(lia)))).
  rewrite Nat2Z.inj_succ, Z.pow_succ_r, Z.mul_comm by lia.
  assert (0 < 10 ^ Z.of_nat n) by (apply Z.pow_pos_nonneg; lia).
  rewrite (Z.mul_comm 10), Z.rem_mul_r by lia. lia.
Qed.

Lemma num_val_pad ds k : num_val (ds ++ replicate k char_0) = num_val ds * 10 ^ Z.of_nat k.
Proof. rewrite num_val_app, <- digits_0, num_val_digits, length_digits, Z.mod_0_l; [lia|apply Z.pow_nonzero; lia]. Qed.

(** ** Writing into a region *)

Lemma mem_write_app (p src q : bytes) :
  (length src <= length q)%nat ->
  mem_write (Z.of_nat (length p)) src (p ++ q) = Some (p ++ src ++ drop (length src) q).
Proof.
  intros Hl. rewrite mem_write_in by (rewrite ?length_app; lia). f_equal. rewrite Nat2Z.id.
  rewrite inserts_split by (rewrite length_app; lia).
  rewrite take_app_exact, <- drop_drop, drop_app_exact by done. done.
Qed.

Lemma mem_write_app' (p src q : bytes) off :
  off = Z.of_nat (length p) -> (length src <= length q)%nat ->
  mem_write off src (p ++ q) = Some (p ++ src ++ drop (length src) q).
Proof. intros ->. apply mem_write_app. Qed.

Lemma mem_read_nth (l : bytes) i : (i < length l)%nat -> mem_read (Z.of_nat i) 1 l = Some [nth i l byte_zero].
Proof.
  intros Hi. rewrite mem_read_in by lia. rewrite Nat2Z.id. f_equal.
  destruct (lookup_lt_is_Some_2 l i Hi) as [c Hc].
  rewrite (drop_S l c i Hc), (nth_lookup_Some _ _ _ _ Hc). done.
Qed.

(** A loop that writes one byte after the other. *)
Lemma fold_fill (f : nat -> Byte.byte) step o s m (p q : bytes) :
  (forall i r, (s <= i < s + m)%nat -> step (Some r) i = mem_write (Z.of_nat (o + i)) [f i] r) ->
  length p = (o + s)%nat -> (m <= length q)%nat ->
  foldl step (Some (p ++ q)) (seq s m) = Some (p ++ (f <$> seq s m) ++ drop m q).
Proof.
  revert s p q. induction m as [|m IH]; intros s p q Hstep Hp Hq; cbn [seq foldl fmap list_fmap].
  { by rewrite drop_0. }
  rewrite Hstep by lia. rewrite (mem_write_app' p) by (rewrite ?Hp; cbn [length]; lia).
  rewrite app_assoc. rewrite (IH (S s)).
  - f_equal. cbn [length]. rewrite drop_drop, <- app_assoc. f_equal.
  - intros i r Hi. apply Hstep. lia.
  - rewrite length_app. cbn [length]. lia.
  - rewrite length_drop. cbn [length]. lia.
Qed.

Lemma nth_seq (l : bytes) a m :
  (a + m <= length l)%nat -> ((fun i => nth i l byte_zero) <$> seq a m) = take m (drop a l).
Proof.
  revert a. induction m as [|m IH]; intros a Hl; [done|]. cbn [seq fmap list_fmap].
  destruct (lookup_lt_is_Some_2 l a ltac:(lia)) as [c Hc].
  rewrite (drop_S l c a Hc), (nth_lookup_Some _ _ _ _ Hc). cbn [take]. f_equal. apply IH. lia.
Qed.

(** ** Writing an amount *)

(** [n] is the number of decimal digits of [x]. *)
Definition has_digits (x : Z) (n : nat) : Prop :=
  0 <= x < 10 ^ Z.of_nat n /\ (n <> O -> 10 ^ (Z.of_nat n - 1) <= x).

Lemma calc_length_loop_spec fuel x count :
  0 <= x < 10 ^ Z.of_nat fuel ->
  exists n, calc_length_loop fuel x count = Some (count + Z.of_nat n) /\ has_digits x n /\ (n <= fuel)%nat.
Proof.
  revert x count. induction fuel as [|fuel IH]; intros x count Hx.
  { exists O. assert (x = 0) as -> by (cbn in Hx; lia). split; [cbn [Z.of_nat]; by rewrite Z.add_0_r|]. split; [by split|lia]. }
  cbn [calc_length_loop]. destruct (Z.leb_spec x 0).
  { exists O. split; [cbn [Z.of_nat]; by rewrite Z.add_0_r|].
    split; [split; [cbn; lia|done]|lia]. }
  rewrite Nat2Z.inj_succ, Z.pow_succ_r in Hx by lia.
  destruct (IH (x / 10) (count + 1)) as (n & -> & [Hn Hn'] & Hle).
  { split; [apply Z.div_pos; lia|]. apply Z.div_lt_upper_bound; lia. }
  exists (S n). pose proof (Z.div_mod x 10 ltac:(lia)). pose proof (Z.mod_pos_bound x 10 ltac:(lia)).
  split; [f_equal; lia|]. split; [|lia]. split.
  - rewrite Nat2Z.inj_succ, Z.pow_succ_r by lia. lia.
  - intros _. replace (Z.of_nat (S n) - 1) with (Z.of_nat n) by lia.
    destruct n as [|n]; [cbn; lia|]. specialize (Hn' ltac:(lia)).
    replace (Z.of_nat (S n)) with (Z.succ (Z.of_nat (S n) - 1)) by lia. rewrite Z.pow_succ_r by lia. lia.
Qed.

Lemma calc_length_spec x :
  urange 64 x -> exists n, calc_length x = Some (Z.of_nat n) /\ has_digits x n /\ (n <= 20)%nat.
Proof. intros [Hx Hlt]. apply (calc_length_loop_spec 20 x 0). split; [done|]. cbn in *. lia. Qed.

Lemma string_spec x n out :
  calc_length x = Some (Z.of_nat n) -> has_digits x n -> (n < length out)%nat ->
  string x out = Some (digits n x ++ byte_zero :: drop (S n) out).
Proof.
  intros Ec [Hx _] Hl. unfold string. rewrite Ec. cbn [mbind option_bind]. rewrite Nat2Z.id.
  assert (forall i, (i <= n)%nat ->
    foldl (string_step (Z.of_nat n)) (Some (x, out)) (seq 0 i) =
    Some (x / 10 ^ Z.of_nat i, take (n - i) out ++ digits i x ++ drop n out)) as H.
  { induction i as [|i IH]; intros Hi.
    - cbn [seq foldl digits app]. rewrite Z.div_1_r, Nat.sub_0_r. by rewrite take_drop.
    - rewrite seq_S, foldl_app, IH by lia. cbn [foldl Nat.add string_step mbind option_bind].
      destruct (lookup_lt_is_Some_2 out (n - S i) ltac:(lia)) as [c Hc].
      replace (n - i)%nat with (S (n - S i)) by lia. rewrite (take_S_r _ _ c), <- app_assoc by done.
      cbn [app]. rewrite (mem_write_app' (take (n - S i) out)).
      2: rewrite length_take; lia. 2: cbn [length]; lia.
      cbn [mbind option_bind length drop app digits]. rewrite drop_0. do 2 f_equal.
      rewrite Nat2Z.inj_succ, Z.pow_succ_r, Z.mul_comm, Z.div_div; [done|apply Z.pow_nonzero; lia|lia|lia]. }
  rewrite H by lia. cbn [mbind option_bind]. rewrite Nat.sub_diag. rewrite take_0. cbn [app].
  rewrite (mem_write_app' (digits n x)); [|by rewrite length_digits|rewrite length_drop; cbn [length]; lia].
  cbn [length]. by rewrite drop_drop, Nat.add_1_r.
Qed.

(** The text of an amount: coins, a dot, eight digits. *)
Definition coin_text (k : Z) (n : nat) : bytes :=
  (if (n <? 9)%nat then [char_0] else digits (n - 8) (k / 10 ^ 8)) ++ char_dot :: digits 8 k.

Lemma digits_nul_free ds : all_digits ds -> nul_free ds.
Proof. intros H. eapply Forall_impl; [exact H|]. intros c Hc. by apply digit_not in Hc as (_ & _ & _ & ? & _). Qed.

Lemma write_zero_dot a b (r : bytes) :
  (str ← mem_write 0 [char_0] (a :: b :: r); mem_write 1 [char_dot] str) = Some (char_0 :: char_dot :: r).
Proof.
  rewrite mem_write_in by (cbn; lia).
  change (list_inserts (Z.to_nat 0) [char_0] (a :: b :: r)) with (char_0 :: b :: r).
  cbn [mbind option_bind]. rewrite mem_write_in by (cbn [length]; lia). reflexivity.
Qed.

Lemma const_seq (c : Byte.byte) s m : ((fun _ => c) <$> seq s m) = replicate m c.
Proof. revert s. induction m as [|m IH]; intros s; [done|]. cbn. by rewrite IH. Qed.

Lemma short_amount k n str :
  has_digits k n -> (n < 9)%nat -> (11 <= length str)%nat -> calc_length k = Some (Z.of_nat n) ->
  (str ← string k str;
   l ← c_strlen str;
   let swap := take (l + 1) str in
   str ← foldl lead_step (Some str) (seq 0 (Z.to_nat (10 - Z.of_nat n)));
   str ← foldl (tail_step swap (10 - Z.of_nat n)) (Some str) (seq 0 (Z.to_nat (10 - (10 - Z.of_nat n))));
   mem_write 10 [byte_zero] str) = Some (coin_text k n ++ byte_zero :: drop 11 str).
Proof.
  intros Hk Hn Hl Ec. rewrite (string_spec k n) by (done || lia). cbn [mbind option_bind].
  rewrite c_strlen_app by apply digits_nul_free, digits_all. cbn [mbind option_bind].
  rewrite length_digits. set (out := digits n k ++ byte_zero :: drop (S n) str).
  assert (length out = length str) as Ho.
  { unfold out. rewrite length_app, length_digits. cbn [length]. rewrite length_drop. lia. }
  assert (drop 11 out = drop 11 str) as Erest.
  { unfold out. rewrite drop_app_ge by (rewrite length_digits; lia). rewrite length_digits.
    replace (11 - n)%nat with (S (10 - n)) by lia. cbn [drop]. rewrite drop_drop. f_equal. lia. }
  replace (Z.to_nat (10 - Z.of_nat n)) with (2 + (8 - n))%nat by lia.
  rewrite seq_app, foldl_app.
  assert (foldl lead_step (Some out) (seq 0 2) = Some ([char_0; char_dot] ++ drop 2 out)) as ->.
  { destruct out as [|c0 [|c1 out']]; [cbn in Ho; lia..|]. cbn [seq foldl lead_step Nat.eqb orb mbind option_bind].
    rewrite write_zero_dot. cbn [mbind option_bind]. by rewrite write_zero_dot. }
  rewrite (fold_fill (fun _ => char_0) _ 0).
  2:{ intros i r Hi. destruct i as [|[|i]]; [lia..|]. done. }
  2:{ done. }
  2:{ rewrite length_drop. lia. }
  cbn [mbind option_bind]. rewrite drop_drop, app_assoc.
  replace (Z.to_nat (10 - (10 - Z.of_nat n))) with n by lia.
  assert (take (n + 1) out = digits n k ++ [byte_zero]) as ->.
  { unfold out. change (byte_zero :: drop (S n) str) with ([byte_zero] ++ drop (S n) str). rewrite app_assoc.
    apply take_app_exact. rewrite length_app, length_digits. cbn [length]. lia. }
  rewrite (fold_fill (fun j => nth j (digits n k ++ [byte_zero]) byte_zero) _ (10 - n)).
  2:{ intros j r Hj. cbn [tail_step mbind option_bind]. rewrite mem_read_nth by (rewrite length_app, length_digits; cbn; lia).
      cbn [mbind option_bind]. f_equal. lia. }
  2:{ rewrite length_app, length_fmap, length_seq. cbn [length]. lia. }
  2:{ rewrite length_drop. lia. }
  rewrite nth_seq by (rewrite length_app, length_digits; lia). rewrite drop_0, take_app_exact by apply length_digits.
  cbn [mbind option_bind]. rewrite drop_drop, !app_assoc. replace (2 + (8 - n) + n)%nat with 10%nat by lia.
  rewrite (mem_write_app' _ [byte_zero]).
  - cbn [length]. rewrite drop_drop. unfold coin_text. rewrite (proj2 (Nat.ltb_lt n 9)) by lia.
    replace (digits 8 k) with (replicate (8 - n) char_0 ++ digits n k).
    2:{ rewrite <- digits_pad by apply Hk. f_equal. lia. }
    change (10 + 1)%nat with 11%nat. rewrite Erest, const_seq. cbn [app]. by rewrite <- !app_assoc.
  - rewrite !length_app, length_fmap, length_seq, length_digits. cbn [length]. lia.
  - rewrite length_drop. cbn [length]. lia.
Qed.

Lemma long_amount k n str tmp :
  has_digits k n -> (9 <= n)%nat -> (n + 1 < length str)%nat -> (n < length tmp)%nat ->
  calc_length k = Some (Z.of_nat n) ->
  (tmp ← string k tmp;
   str ← foldl (dot_step tmp (Z.of_nat n - 9)) (Some str) (seq 0 (Z.to_nat (Z.of_nat n)));
   mem_write (Z.of_nat n + 1) [byte_zero] str) = Some (coin_text k n ++ byte_zero :: drop (n + 2) str).
Proof.
  intros Hk Hn Hl Ht Ec. rewrite (string_spec k n) by done. cbn [mbind option_bind].
  set (t := digits n k ++ byte_zero :: drop (S n) tmp).
  assert (n < length t)%nat as Hlt.
  { unfold t. rewrite length_app, length_digits. cbn [length]. lia. }
  assert (forall m a, (a + m <= n)%nat -> ((fun i => nth i t byte_zero) <$> seq a m) = take m (drop a (digits n k))) as Hseq.
  { intros m a Ha. rewrite nth_seq by lia. unfold t. rewrite drop_app_le by (rewrite length_digits; lia).
    rewrite take_app_le by (rewrite length_drop, length_digits; lia). done. }
  rewrite Nat2Z.id. replace n with ((n - 9) + (1 + 8))%nat at 2 by lia.
  rewrite !seq_app, !foldl_app. change (foldl ?f ?x (seq ?a 1)) with (f x a).
  rewrite (fold_fill (fun i => nth i t byte_zero) _ 0 0 (n - 9) [] str).
  2:{ intros i r Hi. cbn [dot_step mbind option_bind]. rewrite mem_read_nth by lia. cbn [mbind option_bind].
      rewrite (proj2 (Z.ltb_lt _ _)) by lia. done. }
  2:{ done. }
  2:{ lia. }
  cbn [app Nat.add]. set (a := (n - 9)%nat). rewrite Hseq, drop_0 by lia.
  set (p := take a (digits n k)). assert (length p = a) as Hp by (unfold p; rewrite length_take, length_digits; lia).
  cbn [dot_step mbind option_bind]. rewrite mem_read_nth by lia. cbn [mbind option_bind].
  replace (Z.of_nat n - 9) with (Z.of_nat a) by lia. rewrite Z.ltb_irrefl, Z.eqb_refl.
  rewrite (mem_write_app' p) by (rewrite ?length_drop; cbn [length]; lia). cbn [mbind option_bind length].
  rewrite drop_drop. rewrite (app_assoc p).
  rewrite (mem_write_app' (p ++ [nth a t byte_zero]) [char_dot]).
  2:{ rewrite length_app. cbn [length]. lia. }
  2:{ rewrite length_drop. cbn [length]. lia. }
  cbn [length]. rewrite drop_drop, (app_assoc (p ++ [nth a t byte_zero])).
  replace (Z.of_nat n - 9) with (Z.of_nat a) by lia.
  rewrite (fold_fill (fun i => nth i t byte_zero) _ 1).
  2:{ intros i r Hi. cbn [dot_step mbind option_bind]. rewrite mem_read_nth by lia. cbn [mbind option_bind].
      rewrite (proj2 (Z.ltb_ge _ _)), (proj2 (Z.eqb_neq _ _)) by lia. f_equal. lia. }
  2:{ rewrite !length_app. cbn [length]. lia. }
  2:{ rewrite length_drop. lia. }
  cbn [mbind option_bind]. rewrite Hseq by lia. rewrite !drop_drop.
  rewrite app_assoc, (mem_write_app' _ [byte_zero]).
  - cbn [length]. rewrite drop_drop. replace (a + 1 + 1 + 8 + 1)%nat with (n + 2)%nat by lia.
    assert (digits n k = digits (a + 1) (k / 10 ^ 8) ++ digits 8 k) as E.
    { rewrite <- (digits_app (a + 1) 8). f_equal. lia. }
    assert (p ++ [nth a t byte_zero] = digits (a + 1) (k / 10 ^ 8)) as ->.
    { change [nth a t byte_zero] with ((fun i => nth i t byte_zero) <$> seq a 1). rewrite Hseq by lia.
      unfold p. rewrite take_take_drop, E. apply take_app_exact, length_digits. }
    rewrite E, drop_app_exact, take_ge by (rewrite length_digits; lia).
    unfold coin_text. rewrite (proj2 (Nat.ltb_ge n 9)) by lia.
    replace (n - 8)%nat with (a + 1)%nat by lia. cbn [app]. by rewrite <- !app_assoc.
  - rewrite !length_app, length_take, length_drop, length_digits. cbn [length]. lia.
  - rewrite length_drop. cbn [length]. lia.
Qed.

(** *** The check on a conversion *)

(** The two values that are refused. *)
Definition refused (k : Z) : bool := (2 ^ 64 - 1 <=? k) || (k =? 0xFFFFF511543FB600).

Lemma validate_null k : validate_conversion k false None = CONVERSION_SUCCESS <-> refused k = false.
Proof.
  unfold validate_conversion, refused. rewrite andb_false_r, orb_false_iff.
  destruct (2 ^ 64 - 1 <=? k), (k =? 0xFFFFF511543FB600); split; (intros [? ?] || intros ?); done.
Qed.

Lemma koinu_to_coins_str_spec k n str str_size tmp :
  urange 64 k -> refused k = false -> has_digits k n -> calc_length k = Some (Z.of_nat n) ->
  (if (n <? 9)%nat then 11 else Z.of_nat n + 2) <= str_size -> str_size <= Z.of_nat (length str) ->
  (20 < length tmp)%nat -> (n <= 20)%nat ->
  exists rest, koinu_to_coins_str k (Some str) str_size tmp =
    Some (true, Some (coin_text k n ++ byte_zero :: rest)) /\
    length (coin_text k n ++ byte_zero :: rest) = length str.
Proof.
  intros Hk Hr Hd Ec Hsize Hstr Htmp Hn. unfold koinu_to_coins_str.
  rewrite decide_False by (rewrite validate_null, Hr; by intros []).
  unfold koinu_coins_str_required_size. rewrite Ec. cbn [mbind option_bind].
  assert (length (coin_text k n) = if (n <? 9)%nat then 10%nat else (n + 1)%nat) as Hlen.
  { unfold coin_text. rewrite length_app. cbn [length]. rewrite length_digits.
    destruct (Nat.ltb_spec n 9); [done|]. rewrite length_digits. lia. }
  destruct (Nat.ltb_spec n 9).
  - rewrite (proj2 (Z.ltb_lt (Z.of_nat n) 9)) by lia. rewrite (proj2 (Z.ltb_ge _ _)) by (unfold KOINU_COINS_STR_MIN_LEN; lia).
    pose proof (short_amount k n str Hd ltac:(done) ltac:(lia) Ec) as H'.
    exists (drop 11 str). split.
    + revert H'. destruct (string k str) as [s1|]; [|done]. cbn [mbind option_bind].
      destruct (c_strlen s1) as [l|]; [|done]. cbn [mbind option_bind]. cbv zeta.
      destruct (foldl lead_step _ _) as [s2|]; [|done]. cbn [mbind option_bind].
      destruct (foldl (tail_step _ _) _ _) as [s3|]; [|done]. cbn [mbind option_bind].
      by intros ->.
    + rewrite length_app, Hlen. cbn [length]. rewrite length_drop. lia.
  - rewrite (proj2 (Z.ltb_ge (Z.of_nat n) 9)) by lia. rewrite (proj2 (Z.ltb_ge _ _)) by lia.
    pose proof (long_amount k n str tmp Hd ltac:(done) ltac:(lia) ltac:(lia) Ec) as H'.
    exists (drop (n + 2) str). split.
    + revert H'. destruct (string k tmp) as [s1|]; [|done]. cbn [mbind option_bind].
      destruct (foldl (dot_step _ _) _ _) as [s2|]; [|done]. cbn [mbind option_bind].
      by intros ->.
    + rewrite length_app, Hlen. cbn [length]. rewrite length_drop. lia.
Qed.

(** ** Reading an amount *)

Lemma take_digits_app ds c r v n :
  all_digits ds -> is_digit c = false ->
  take_digits (ds ++ c :: r) v n = (v * 10 ^ Z.of_nat (length ds) + num_val ds, (n + length ds)%nat).
Proof.
  intros Hds Hc. revert v n. induction Hds as [|d ds Hd Hds IH]; intros v n; cbn [app take_digits length].
  - rewrite Hc. change (num_val []) with 0. f_equal; lia.
  - rewrite Hd, IH, num_val_cons, Nat2Z.inj_succ, Z.pow_succ_r by lia. f_equal; lia.
Qed.

Lemma strtoull_digits ds r :
  all_digits ds -> ds <> [] -> num_val ds < 2 ^ 64 ->
  strtoull (ds ++ byte_zero :: r) = (num_val ds, length ds, false).
Proof.
  intros Hds Hne Hlt. destruct ds as [|d ds]; [done|]. pose proof (Forall_inv Hds) as Hd.
  apply digit_not in Hd as (Hs & Hm & Hp & _). unfold strtoull. cbn [app skip_spaces]. rewrite Hs, Nat.sub_diag.
  rewrite Hm, Hp. change (d :: ds ++ byte_zero :: r) with ((d :: ds) ++ byte_zero :: r).
  rewrite take_digits_app by done. cbn [length Nat.add Nat.eqb].
  rewrite (proj2 (Z.ltb_ge _ _)) by lia. done.
Qed.

Lemma validate_text ds r k :
  all_digits ds -> ds <> [] ->
  validate_conversion k false (Some (ds ++ byte_zero :: r, length ds, byte_zero)) = CONVERSION_SUCCESS <->
  refused k = false.
Proof.
  intros Hds Hne. rewrite <- validate_null. unfold validate_conversion.
  rewrite app_nth2, Nat.sub_diag by lia. cbn [nth]. destruct ds; [done|]. done.
Qed.

(** [p]: what the loop has written so far. *)
Lemma integer_part_dot ip rest m p q :
  all_digits ip -> (length ip + 8 <= length q)%nat ->
  integer_part (ip ++ char_dot :: rest) (length p) (length ip + S m) (p ++ q) =
  Some (S (length p + length ip), p ++ ip ++ byte_zero :: replicate 7 char_0 ++ drop (length ip + 8) q).
Proof.
  intros Hip. revert p q. induction Hip as [|c ip Hc Hip IH]; intros p q Hq; cbn [length Nat.add app integer_part] in *.
  - rewrite (mem_write_app' p) by (cbn [length]; lia). cbn [mbind option_bind length].
    change (byte_eqb char_dot char_dot) with true. cbv iota. cbn [app].
    rewrite (fold_fill (fun _ => char_0) _ 0).
    2:{ done. }
    2:{ done. }
    2:{ cbn [length]. rewrite length_drop. lia. }
    cbn [mbind option_bind]. rewrite const_seq. change (replicate 8 char_0) with (char_0 :: replicate 7 char_0).
    rewrite (mem_write_app' p) by (cbn [length app]; lia). cbn [mbind option_bind length drop app].
    rewrite Nat.add_0_r, drop_0, drop_drop. done.
  - apply digit_not in Hc as (_ & _ & _ & _ & Hdot & _).
    rewrite (mem_write_app' p) by (cbn [length]; lia). cbn [mbind option_bind length].
    rewrite Hdot. cbn [app]. change (c :: drop 1 q) with ([c] ++ drop 1 q). rewrite app_assoc.
    replace (S (length p)) with (length (p ++ [c])) by (rewrite length_app; cbn; lia).
    rewrite IH by (rewrite length_drop; lia). rewrite length_app, drop_drop, <- app_assoc. cbn [length app Nat.add].
    do 3 f_equal. lia.
Qed.

Lemma integer_part_whole ip rest p q :
  all_digits ip -> (length ip <= length q)%nat ->
  integer_part (ip ++ rest) (length p) (length ip) (p ++ q) =
  Some ((length p + length ip)%nat, p ++ ip ++ drop (length ip) q).
Proof.
  intros Hip. revert p q. induction Hip as [|c ip Hc Hip IH]; intros p q Hq; cbn [length Nat.add app integer_part] in *.
  - rewrite Nat.add_0_r, drop_0. by destruct rest.
  - apply digit_not in Hc as (_ & _ & _ & _ & Hdot & _).
    rewrite (mem_write_app' p) by (cbn [length]; lia). cbn [mbind option_bind length].
    rewrite Hdot, app_assoc.
    replace (S (length p)) with (length (p ++ [c])) by (rewrite length_app; cbn; lia).
    rewrite IH by (rewrite length_drop; lia). rewrite length_app, drop_drop, <- app_assoc. cbn [length app Nat.add].
    do 2 f_equal. lia.
Qed.

(** An amount as people write it: digits and, possibly, a dot and digits. *)
Definition amount_text (ip : bytes) (fp : option bytes) : bytes :=
  ip ++ match fp with None => [] | Some fp => char_dot :: fp end.

Definition fraction_value (fp : bytes) : Z := num_val fp * 10 ^ Z.of_nat (8 - length fp).

(** What the code computes from it. *)
Definition amount_value (ip fp : bytes) : Z :=
  let coins := if (length ip <=? 12)%nat then u64 (num_val ip * 100000000) else num_val ip in
  let k := u64 (fraction_value fp + coins) in
  if refused k then 0 else k.

Lemma koinu_string_spec fp :
  all_digits fp -> (length fp <= 8)%nat ->
  (s ← mem_write 0 fp (zeros 9);
   if (length fp =? 8)%nat then l ← c_strlen s; mem_write (Z.of_nat l) [byte_zero] s
   else mem_write (Z.of_nat (length fp)) (replicate (8 - length fp) char_0) s) =
  Some ((fp ++ replicate (8 - length fp) char_0) ++ [byte_zero]).
Proof.
  intros Hfp Hl. unfold zeros. rewrite (mem_write_app' [] fp (replicate 9 byte_zero)) by (done || rewrite length_replicate; lia).
  cbn [mbind option_bind app]. rewrite drop_replicate. destruct (Nat.eqb_spec (length fp) 8) as [->|Hne].
  - change (replicate (9 - 8) byte_zero) with [byte_zero]. rewrite c_strlen_app by by apply digits_nul_free.
    cbn [mbind option_bind]. rewrite (mem_write_app fp [byte_zero] [byte_zero]) by done.
    cbn [Nat.sub replicate length drop]. by rewrite !app_nil_r.
  - rewrite mem_write_app by (rewrite !length_replicate; lia). f_equal.
    rewrite drop_replicate, length_replicate, <- app_assoc. do 3 f_equal. by replace (9 - length fp - (8 - length fp))%nat with 1%nat by lia.
Qed.

(** The last steps, from the two local arrays on. *)
Definition amount_tail (dogecoin_string koinu_string : bytes) : option Z :=
  let '(dogecoin, doge_end, erange) := strtoull dogecoin_string in
  let state := validate_conversion dogecoin erange (Some (dogecoin_string, doge_end, byte_zero)) in
  l ← c_strlen dogecoin_string;
  let dogecoin := if decide (state = CONVERSION_SUCCESS)
                  then if (l <=? 12)%nat then u64 (dogecoin * 100000000) else dogecoin
                  else dogecoin in
  let '(k, koinu_end, erange) := strtoull koinu_string in
  let koinu := u64 (k + dogecoin) in
  let state := validate_conversion koinu erange (Some (koinu_string, koinu_end, byte_zero)) in
  Some (if decide (state = CONVERSION_SUCCESS) then koinu else 0).

Lemma amount_tail_spec ip fp rest :
  all_digits ip -> all_digits fp -> ip <> [] -> (length ip <= 13)%nat -> (length fp <= 8)%nat ->
  amount_tail (ip ++ byte_zero :: rest) ((fp ++ replicate (8 - length fp) char_0) ++ [byte_zero]) =
  Some (amount_value ip fp).
Proof.
  intros Hip Hfp Hne Hi Hf. set (ks := fp ++ replicate (8 - length fp) char_0).
  assert (all_digits ks) as Hks by (apply Forall_app; split; [done|by apply Forall_replicate]).
  assert (length ks = 8%nat) as Hkl by (unfold ks; rewrite length_app, length_replicate; lia).
  assert (ks <> []) as Hkne by (intros E; by rewrite E in Hkl).
  pose proof (num_val_range ip Hip) as Hiv. pose proof (num_val_range ks Hks) as Hkv. rewrite Hkl in Hkv.
  assert (num_val ip < 10 ^ 13) as Hi13.
  { pose proof (Z.pow_le_mono_r 10 (Z.of_nat (length ip)) 13). lia. }
  unfold amount_tail. rewrite !strtoull_digits by (done || lia).
  rewrite c_strlen_app by by apply digits_nul_free. cbn [mbind option_bind].
  assert (refused (num_val ip) = false) as Hr.
  { unfold refused. rewrite (proj2 (Z.leb_gt _ _)), (proj2 (Z.eqb_neq _ _)) by lia. done. }
  rewrite (decide_True _ _ (proj2 (validate_text ip rest (num_val ip) Hip Hne) Hr)).
  f_equal. unfold amount_value, fraction_value. rewrite <- num_val_pad. fold ks.
  set (k := u64 _). destruct (refused k) eqn:E.
  - rewrite decide_False; [done|]. rewrite validate_text, E by done. done.
  - rewrite decide_True; [done|]. by apply validate_text.
Qed.

Lemma coins_to_koinu_str_spec ip fp rest :
  all_digits ip -> all_digits (default [] fp) -> ip <> [] -> (length ip <= 13)%nat ->
  (length (default [] fp) <= 8)%nat ->
  coins_to_koinu_str (amount_text ip fp ++ byte_zero :: rest) = Some (amount_value ip (default [] fp)).
Proof.
  intros Hip Hfp Hne Hi Hf. unfold coins_to_koinu_str.
  assert (nul_free (amount_text ip fp)) as Hnul.
  { unfold amount_text. apply Forall_app. split; [by apply digits_nul_free|].
    destruct fp as [fp|]; constructor; [done|by apply digits_nul_free]. }
  assert (exists c, (amount_text ip fp ++ byte_zero :: rest) !! 0%nat = Some c /\ is_digit c = true) as (c & -> & Hc).
  { destruct ip as [|c ip]; [done|]. exists c. split; [done|]. by apply Forall_inv in Hip. }
  apply digit_not in Hc as (_ & Hm & _). cbn [mbind option_bind]. rewrite Hm.
  unfold check_length. rewrite c_strlen_app by done. cbn [mbind option_bind].
  set (text := amount_text ip fp) in *.
  assert (length text = length ip + match fp with None => 0 | Some fp => S (length fp) end)%nat as Hlen.
  { unfold text, amount_text. rewrite length_app. by destruct fp. }
  assert (0 < length ip)%nat by (destruct ip; [done|cbn; lia]).
  rewrite (proj2 (Z.ltb_ge 22 _)) by (destruct fp; cbn [default] in Hf; cbn in *; lia).
  rewrite (proj2 (Z.eqb_neq _ 0)), Nat2Z.id by lia.
  assert (exists rest', integer_part (text ++ byte_zero :: rest) 0 (length text) (zeros 21) =
    Some ((length ip + match fp with None => 0 | Some _ => 1 end)%nat, ip ++ byte_zero :: rest')) as (rest' & ->).
  { unfold text, amount_text in *. destruct fp as [fp|]; rewrite <- app_assoc; cbn [app] in *.
    - eexists. rewrite Hlen. pose proof (integer_part_dot ip (fp ++ byte_zero :: rest) (length fp) [] (zeros 21) Hip ltac:(cbn; lia)) as E.
      cbn [length app Nat.add] in E. by rewrite E, Nat.add_1_r.
    - exists (zeros (20 - length ip)).
      pose proof (integer_part_whole ip (byte_zero :: rest) [] (zeros 21) Hip ltac:(cbn; lia)) as E.
      cbn [length app Nat.add] in E. rewrite Hlen, !Nat.add_0_r, E. do 3 f_equal. unfold zeros. rewrite drop_replicate.
      by replace (21 - length ip)%nat with (S (20 - length ip)) by lia. }
  cbn [mbind option_bind]. set (n := (length ip + _)%nat).
  assert (take 8 (take (length text - n) (drop n (text ++ byte_zero :: rest))) = default [] fp) as ->.
  { unfold n, text, amount_text. destruct fp as [fp|]; cbn [default from_option id].
    - rewrite <- app_assoc. rewrite <- drop_drop, drop_app_exact by done. cbn [app drop]. rewrite drop_0.
      rewrite take_app_exact; [by apply take_ge|]. rewrite length_app. cbn [length]. lia.
    - rewrite Nat.add_0_r, app_nil_r, Nat.sub_diag, take_0. done. }
  pose proof (koinu_string_spec (default [] fp) Hfp Hf) as Hk. revert Hk.
  destruct (mem_write 0 (default [] fp) (zeros 9)) as [s|]; [|done]. cbn [mbind option_bind]. intros ->.
  cbn [mbind option_bind]. by apply amount_tail_spec.
Qed.

(** ** The properties *)

(** Twenty digits and a dot at most. *)
Lemma coin_text_amount k n :
  has_digits k n -> (n <= 20)%nat -> 0 <= k < 2 ^ 64 ->
  exists ip, coin_text k n = amount_text ip (Some (digits 8 k)) /\ all_digits ip /\ ip <> [] /\
    (length ip <= 12)%nat /\ num_val ip = k / 10 ^ 8.
Proof.
  intros [Hk _] Hn Hr. unfold coin_text, amount_text.
  exists (if (n <? 9)%nat then [char_0] else digits (n - 8) (k / 10 ^ 8)). split; [done|].
  destruct (Nat.ltb_spec n 9).
  - split_and!; [by repeat constructor|done|cbn; lia|]. symmetry. apply Z.div_small. split; [lia|].
    pose proof (Z.pow_le_mono_r 10 (Z.of_nat n) 8). lia.
  - rewrite length_digits, num_val_digits. split_and!; [apply digits_all| |lia|].
    + intros E. apply (f_equal length) in E. rewrite length_digits in E. cbn in E. lia.
    + apply Z.mod_small. split; [apply Z.div_pos; lia|]. apply Z.div_lt_upper_bound; [lia|].
      rewrite <- Z.pow_add_r by lia. replace (8 + Z.of_nat (n - 8)) with (Z.of_nat n) by lia. lia.
Qed.

Lemma coin_value_exact k ip :
  0 <= k < 2 ^ 64 -> (length ip <= 12)%nat -> num_val ip = k / 10 ^ 8 ->
  amount_value ip (digits 8 k) = if refused k then 0 else k.
Proof.
  intros Hk Hl Hv. unfold amount_value, fraction_value. rewrite (proj2 (Nat.leb_le _ _)) by done.
  rewrite length_digits, num_val_digits, Hv. cbn [Nat.sub]. change (Z.of_nat 0) with 0.
  change (Z.of_nat 8) with 8. change (10 ^ 8) with 100000000. change (10 ^ 0) with 1.
  pose proof (Z.div_mod k 100000000 ltac:(lia)). pose proof (Z.mod_pos_bound k 100000000 ltac:(lia)).
  pose proof (Z.div_pos k 100000000 ltac:(lia) ltac:(lia)).
  rewrite (wrap_small 64 (k / 100000000 * 100000000)) by (unfold urange; lia).
  rewrite (wrap_small 64) by (unfold urange; lia).
  by replace (k mod 100000000 * 1 + k / 100000000 * 100000000) with k by lia.
Qed.

(** An amount is written as coins, a dot and eight digits, into any buffer of the required
    size and nowhere else, and reading the text back gives the amount; 22 bytes are enough for
    every amount, and only the two values the check refuses are not written. *)
Theorem koinu_round_trip k str str_size tmp :
  urange 64 k -> KOINU_COINS_STR_MAX_LEN <= str_size <= Z.of_nat (length str) -> length tmp = 22%nat ->
  if refused k then koinu_to_coins_str k (Some str) str_size tmp = Some (false, Some str)
  else exists str', koinu_to_coins_str k (Some str) str_size tmp = Some (true, Some str') /\
    length str' = length str /\ coins_to_koinu_str str' = Some k.
Proof.
  intros Hk Hs Ht. destruct (refused k) eqn:Er.
  { unfold koinu_to_coins_str. rewrite decide_True; [done|]. by rewrite validate_null, Er. }
  destruct (calc_length_spec k Hk) as (n & Ec & Hd & Hn). unfold KOINU_COINS_STR_MAX_LEN in Hs.
  destruct (koinu_to_coins_str_spec k n str str_size tmp) as (rest & E & Hl); try done; try lia.
  { destruct (n <? 9)%nat; lia. }
  eexists. split; [exact E|]. split; [exact Hl|].
  destruct (coin_text_amount k n Hd Hn Hk) as (ip & -> & Hip & Hne & Hi & Hv).
  rewrite coins_to_koinu_str_spec; try done; cbn [default from_option id];
    [|first [apply digits_all|lia|by rewrite length_digits]..].
  by rewrite coin_value_exact, Er.
Qed.

(** Text with at most twelve digits in front of the dot is read as its value modulo 2^64,
    so that an amount of 2^64 koinu or more wraps around; thirteen digits are not scaled at all
    and are read as koinu.  No error is reported in either case. *)
Theorem large_amounts_misread ip fp rest :
  all_digits ip -> all_digits fp -> ip <> [] -> (length fp <= 8)%nat ->
  let k := if (length ip <=? 12)%nat then u64 (num_val ip * 10 ^ 8 + fraction_value fp)
           else num_val ip + fraction_value fp in
  (length ip <= 13)%nat -> refused k = false ->
  coins_to_koinu_str (amount_text ip (Some fp) ++ byte_zero :: rest) = Some k.
Proof.
  intros Hip Hfp Hne Hf k Hi Hr. rewrite coins_to_koinu_str_spec by done. cbn [default from_option id].
  f_equal. unfold amount_value. replace (u64 (fraction_value fp + _)) with k; [by rewrite Hr|].
  unfold k. change (10 ^ 8) with 100000000. destruct (length ip <=? 12)%nat.
  - rewrite wrap_add_r. f_equal. lia.
  - pose proof (num_val_range ip Hip) as H1. pose proof (num_val_range fp Hfp) as H2.
    pose proof (Z.pow_le_mono_r 10 (Z.of_nat (length ip)) 13 ltac:(lia) ltac:(lia)).
    assert (0 <= fraction_value fp < 10 ^ 8) as H3.
    { unfold fraction_value. assert (10 ^ 8 = 10 ^ Z.of_nat (length fp) * 10 ^ Z.of_nat (8 - length fp)) as ->
        by (rewrite <- Z.pow_add_r by lia; f_equal; lia).
      assert (0 < 10 ^ Z.of_nat (8 - length fp)) by (apply Z.pow_pos_nonneg; lia). nia. }
    rewrite (wrap_small 64) by (unfold urange; lia). lia.
Qed.

Lemma koinu_round_trip_witness :
  exists str', koinu_to_coins_str 123456789012 (Some (zeros 30)) 22 (zeros 22) = Some (true, Some str') /\
    length str' = 30%nat /\ coins_to_koinu_str str' = Some 123456789012.
Proof.
  apply (koinu_round_trip 123456789012 (zeros 30) 22 (zeros 22)); [split; vm_compute; congruence| |reflexivity].
  split; vm_compute; congruence.
Defined.

(** 1000000000000.0 coins are read as 10^12 koinu. *)
Lemma large_amounts_misread_witness :
  coins_to_koinu_str (amount_text (digits 13 (10 ^ 12)) (Some [char_0]) ++ [byte_zero]) = Some (10 ^ 12).
Proof.
  apply (large_amounts_misread (digits 13 (10 ^ 12)) [char_0] []);
    [apply digits_all|by repeat constructor|discriminate|cbn; lia|cbn; lia|reflexivity].
Defined.

(** A dot behind fourteen digits: the zeros behind it leave the array. *)
Example dot_too_far_right :
  coins_to_koinu_str (amount_text (replicate 14 char_0) (Some [char_0]) ++ [byte_zero]) = None.
Proof. vm_compute. reflexivity. Qed.

(** The conversion of the coins failed at the x, and its value is used as koinu. *)
Example bad_text_accepted : coins_to_koinu_str [Byte.x31; Byte.x78; byte_zero] = Some 1.
Proof. vm_compute. reflexivity. Qed.
