(* ===== verification/WorkingTx.v ===== *)
(** * Transactions under construction ([src/src/transaction.c])

    The operations on the entries of a registry: inputs, outputs, change, the final check, the
    texts of transactions, and signing by text.  Every one finds its entry, works on it, and
    releases it.  The helpers of [src/src/tx.c] for the addresses of outputs are here, too.
    Strings are those of the caller without their NUL; those that the code checks for NULL are
    optional. *)

From stdpp Require Import gmap.
From S2P Require Import Prelude Words Mem Serialize Script Sha256 Base58 Rmd160 Utils Tx Address Chainparams Keys TxSign Registry Koinu.

Local Open Scope Z_scope.

#[local] Opaque dogecoin_hash sha256_raw rmd160 base58_encode_check base58_decode_check.

Definition TXHEXMAXLEN : Z := 200001.

(** ** Addresses and scripts ([tx.c]) *)

(** The bytes behind the push opcode; all of them zero when every byte that is looked at is one
    of four opcodes. *)
Definition is_template_op (b : Byte.byte) : bool :=
  let c := byte.unsigned b in (c =? OP_DUP) || (c =? OP_HASH160) || (c =? OP_EQUALVERIFY) || (c =? OP_CHECKSIG).
Definition strip_script (script : bytes) (len : nat) : bytes :=
  if forallb is_template_op (take (len - 4 - 2) (drop 2 script)) then zeros len else take 23 (drop 3 script) ++ zeros (len - 23).

(** The script is followed by its NUL. *)
Definition tx_out_pubkey_hash_to_p2pkh_address (txout : tx_out) (is_mainnet : bool) : bool * bytes :=
  match script_pubkey txout with
  | None => (false, [])
  | Some s =>
      if (length s <? 25)%nat then (false, [])
      else
        let chain := if is_mainnet then dogecoin_chainparams_main else dogecoin_chainparams_test in
        p2pkh_addr_from_hash160 (strip_script (s ++ [byte_zero]) (length s)) (prefixes_of chain) (Z.of_nat P2PKHLEN)
  end.

(** [script]: at least 26 bytes; [None]: the length is too small for what is copied. *)
Definition pubkey_hash_to_p2pkh_address (script : option bytes) (len : nat) (chain : dogecoin_chainparams) : option (bool * bytes) :=
  match script with
  | None => Some (false, [])
  | Some s => if (len <? 23)%nat then None else Some (p2pkh_addr_from_hash160 (strip_script s len) (prefixes_of chain) (Z.of_nat P2PKHLEN))
  end.

(** The text behind the two digits of the prefix. *)
Definition address_to_pubkey_hash (p2pkh : bytes) : option (option bytes) :=
  '(decoded_length, dec) ← base58_decode_check p2pkh P2PKHLEN;
  if (decoded_length =? 0)%nat then Some None
  else hex ← utils_uint8_to_hex (take (decoded_length - 4) dec); Some (Some (drop 2 hex)).

(** [privkey\[0\] == 'c'] *)
Definition chain_of_wif (privkey : bytes) : dogecoin_chainparams :=
  if byte_eqb (hd byte_zero privkey) Byte.x63 then dogecoin_chainparams_test else dogecoin_chainparams_main.

Definition tx_add_input_ts (t : tx) (txin : tx_in) : bool * tx :=
  match vin t with
  | None => (false, t)
  | Some ins => (true, set_vin t (ins ++ [tx_in_copy tx_in_new txin]))
  end.
Definition tx_add_output_ts (t : tx) (txout : tx_out) : bool * tx :=
  match vout t with
  | None => (false, t)
  | Some outs => (true, set_vout t (outs ++ [tx_out_copy tx_out_new txout]))
  end.

(** ** Texts *)

(** [strspn(s, VALID_HEX_CHARS)] *)
Fixpoint hex_span (s : bytes) : nat :=
  match s with c :: s => if bool_decide (is_Some (hex_value c)) then S (hex_span s) else O | [] => O end.

(** The length of a text of digits, when there is an even number of them and nothing else. *)
Definition checked_hex (s : bytes) : option nat :=
  let n := hex_span s in
  if (n =? 0)%nat || negb (n mod 2 =? 0)%nat || negb (n =? length s)%nat then None else Some n.

(** The transaction of a text, when it can be parsed. *)
Definition tx_of_hex (s : bytes) (n : nat) : option tx :=
  let '(data_bin, outlength) := utils_hex_to_bin s n in
  let '(ok, txtmp, _) := tx_deserialize (take outlength data_bin) tx_new in
  if ok then Some txtmp else None.

(** ** Operations on an entry *)

Definition save_raw_transaction_ts (txindex : Z) (hexadecimal_transaction : option bytes) : M bool :=
  match hexadecimal_transaction with
  | None => mret false
  | Some s =>
      match checked_hex s with
      | None => mret false
      | Some n =>
          if TXHEXMAXLEN <? Z.of_nat n then mret false
          else
            match tx_of_hex s n with
            | None => mret false
            | Some txtmp => with_ref txindex false (fun p => t ← get_tx p; _ ← put_tx p (tx_copy t txtmp); mret true)
            end
      end
  end.

Definition add_utxo_ts (txindex : Z) (hex_utxo_txid : option bytes) (vout : Z) : M bool :=
  with_ref txindex false (fun p =>
    match hex_utxo_txid with
    | None => mret false
    | Some txid =>
        if negb (hex_span txid =? 64)%nat || negb (length txid =? 64)%nat then mret false
        else
          t ← get_tx p;
          ins ← lift (vin t);
          let flag := length ins in
          let txin := mk_tx_in (mk_outpoint (utils_uint256_sethex txid) (u32 vout)) (script_sig tx_in_new) (sequence tx_in_new) in
          let '(added, t) := tx_add_input_ts t txin in
          _ ← put_tx p t;
          t ← get_tx p;
          ins ← lift (vin t);
          mret (added && (flag + 1 =? length ins)%nat)
    end).

(** The outputs of the scratch transaction, one after the other. *)
Fixpoint copy_outputs (p : nat) (outs : list tx_out) (added : bool) : M bool :=
  match outs with
  | [] => mret added
  | o :: outs =>
      t ← get_tx p;
      let '(r, t) := tx_add_output_ts t o in
      _ ← put_tx p t;
      copy_outputs p outs (added || r)
  end.

Definition add_address_output_ts (p : nat) (chain : chain_name) (koinu : Z) (address : bytes) : M bool :=
  '(ok, scratch) ← lift (tx_add_address_out tx_new (prefixes_of (chain_params chain)) koinu address);
  if negb (ok : bool) then mret false
  else outs ← lift (vout scratch); copy_outputs p outs false.

Definition add_output_ts (txindex : Z) (destinationaddress amount : bytes) : M bool :=
  with_ref txindex false (fun p =>
    let chain := chain_from_b58_prefix destinationaddress in
    koinu ← lift (coins_to_koinu_str (amount ++ [byte_zero]));
    add_address_output_ts p chain (s64 koinu) destinationaddress).

Definition make_change_ts (txindex : Z) (public_key : bytes) (subtractedfee amount : Z) : M bool :=
  if amount =? subtractedfee then mret false
  else
    with_ref txindex false (fun p =>
      let chain := chain_from_b58_prefix public_key in
      let total_change_back := u64 (amount - subtractedfee) in
      add_address_output_ts p chain (s64 total_change_back) public_key).

Definition get_raw_transaction_ts (txindex : Z) : M (option bytes) :=
  with_ref txindex None (fun p => t ← get_tx p; mret (utils_uint8_to_hex (tx_serialize [] t))).

(** The loop over the outputs; [rest]: those from [i] on.  The count of addresses and the sum; the
    last output is followed by the change.  [again]: whether the count starts again with each
    output. *)
Fixpoint sum_outputs (again : bool) (txindex : Z) (p : nat) (is_testnet : bool) (changeaddress : option bytes) (fee total_in : Z)
    (rest i : nat) (p2pkh_count tx_out_total : Z) : M (Z * Z) :=
  match rest with
  | O => mret (p2pkh_count, tx_out_total)
  | S rest =>
      t ← get_tx p;
      tx_out_tmp ← lift (outs ← vout t; outs !! i);
      let tx_out_total := u64 (tx_out_total + value tx_out_tmp) in
      let found := Z.b2z (tx_out_pubkey_hash_to_p2pkh_address tx_out_tmp is_testnet).1 in
      let p2pkh_count := if again then found else p2pkh_count + found in
      match rest, changeaddress with
      | O, Some changeaddress =>
          changed ← make_change_ts txindex changeaddress fee (u64 (total_in - tx_out_total));
          if changed : bool then
            t ← get_tx p;
            tx_out_tmp ← lift (outs ← vout t; last outs);
            mret (p2pkh_count + 1, u64 (tx_out_total + value tx_out_tmp))
          else mret (p2pkh_count, tx_out_total)
      | _, _ => sum_outputs again txindex p is_testnet changeaddress fee total_in rest (S i) p2pkh_count tx_out_total
      end
  end.

(** [dogecoin_tx_finalize_ts] changes nothing. *)
Definition finalize_transaction_ts (txindex : Z) (destinationaddress subtractedfee out_dogeamount_for_verification : bytes)
    (changeaddress : option bytes) : M (option bytes) :=
  ok ← with_ref txindex false (fun p =>
    let is_testnet := chain_from_b58_prefix_bool destinationaddress in
    fee ← lift (coins_to_koinu_str (subtractedfee ++ [byte_zero]));
    out ← lift (coins_to_koinu_str (out_dogeamount_for_verification ++ [byte_zero]));
    let total := u64 (out - fee) in
    t ← get_tx p;
    outs ← lift (vout t);
    '(p2pkh_count, tx_out_total) ← sum_outputs true txindex p is_testnet changeaddress fee out (length outs) 0 0 0;
    if p2pkh_count <? 1 then mret false
    else if negb (tx_out_total =? total) then mret false
    else mret true);
  if ok : bool then get_raw_transaction_ts txindex else mret None.

(** With a pointer from [find_transaction], which takes no reference, and a buffer of [buf_cap]
    bytes, 0 standing for none: the text, when it fits. *)
Definition get_raw_transaction_ex (txindex : Z) (buf_cap : Z) : M (option bytes) :=
  r ← find_transaction txindex;
  match r with
  | None => mret None
  | Some p =>
      if buf_cap =? 0 then mret None
      else
        t ← get_tx p;
        let serialized := tx_serialize [] t in
        if buf_cap <? Z.of_nat (length serialized) * 2 + 1 then mret None
        else mret (Some (concat (hex_byte <$> serialized)))
  end.

Definition finalize_transaction_ex (txindex : Z) (destinationaddress subtractedfee out_dogeamount_for_verification : bytes)
    (changeaddress : option bytes) (buf_cap : Z) : M (option bytes) :=
  r ← find_transaction txindex;
  match r with
  | None => mret None
  | Some p =>
      if buf_cap =? 0 then mret None
      else
        let is_testnet := chain_from_b58_prefix_bool destinationaddress in
        fee ← lift (coins_to_koinu_str (subtractedfee ++ [byte_zero]));
        total_in ← lift (coins_to_koinu_str (out_dogeamount_for_verification ++ [byte_zero]));
        let expected_total := u64 (total_in - fee) in
        t ← get_tx p;
        outs ← lift (vout t);
        '(p2pkh_hits, tx_out_total) ← sum_outputs false txindex p is_testnet changeaddress fee total_in (length outs) 0 0 0;
        if (p2pkh_hits <? 1) || negb (tx_out_total =? expected_total) then mret None
        else get_raw_transaction_ex txindex buf_cap
  end.

Definition store_raw_transaction (incomingrawtx : bytes) : M Z :=
  if TXHEXMAXLEN <? Z.of_nat (length incomingrawtx) then mret 0
  else
    txindex ← start_transaction_ts;
    tx_raw ← find_transaction txindex;
    match tx_of_hex incomingrawtx (length incomingrawtx) with
    | None => mret 0
    | Some txtmp =>
        p ← lift tx_raw;
        t ← get_tx p;
        _ ← put_tx p (tx_copy t txtmp);
        mret txindex
    end.

Section with_library.
Context `{L : Secp256k1}.

(** ** Signing by text *)

(** The script, in digits, that the key spends; the inner [None] is NULL. *)
Definition private_key_wif_to_pubkey_hash (private_key_wif : bytes) : option (option bytes) :=
  let chain := chain_of_wif private_key_wif in
  '(ok, decoded) ← privkey_decode_wif private_key_wif (prefixes_of chain);
  let key := if (ok : bool) then decoded else privkey_init in
  if negb (privkey_is_valid key) then Some None
  else
    pk ← pubkey_from_key key pubkey_init;
    if negb (pubkey_is_valid pk) then Some None
    else
      let new_p2pkh_pubkey := (pubkey_getaddr_p2pkh pk (prefixes_of chain)).2 in
      n ← c_strlen new_p2pkh_pubkey;
      '(ok, script_hash) ← p2pkh_address_to_pubkey_hash (take n new_p2pkh_pubkey);
      Some (if (ok : bool) then Some script_hash else None).

(** The common part: the input is signed, and the transaction is written. *)
Definition sign_parsed (txtmp : tx) (script privkey : bytes) (inputindex sighashtype : Z) : option (option bytes) :=
  ins ← vin txtmp;
  if Z.of_nat (length ins) <=? u64 inputindex then Some None
  else
    _ ← tx_sighash txtmp script (Z.to_nat (u64 inputindex)) sighashtype;
    '(ok, key) ← privkey_decode_wif privkey (prefixes_of (chain_of_wif privkey));
    if negb (ok : bool) then Some None
    else
      '(res, t, _) ← tx_sign_input (Some txtmp) (Some script) key (Z.to_nat (u64 inputindex)) sighashtype;
      if negb (bool_decide (res = SIGN_OK)) then Some None
      else t ← t; Some (Some (concat (hex_byte <$> tx_serialize [] t))).

(** The result, and the text of the caller, which is replaced on success.  (When that text is in
    the buffer of the thread, a failure leaves other digits there; its callers do not look.) *)
Definition sign_raw_transaction (inputindex : Z) (incomingrawtx : bytes) (scripthex : option bytes) (sighashtype : Z) (privkey : bytes)
    : option (bool * bytes) :=
  match scripthex with
  | None => Some (false, incomingrawtx)
  | Some scripthex =>
      match checked_hex incomingrawtx, checked_hex scripthex with
      | Some tx_hex_len, Some script_hex_len =>
          if TXHEXMAXLEN <? Z.of_nat tx_hex_len then Some (false, incomingrawtx)
          else
            match tx_of_hex incomingrawtx tx_hex_len with
            | None => Some (false, incomingrawtx)
            | Some txtmp =>
                signed ← sign_parsed txtmp (utils_hex_to_bin scripthex script_hex_len).1 privkey inputindex sighashtype;
                Some (match signed with
                      | None => (false, incomingrawtx)
                      | Some signed_tx_hex =>
                          if TO_UINT8_HEX_BUF_LEN <=? Z.of_nat (length signed_tx_hex) then (false, incomingrawtx) else (true, signed_tx_hex)
                      end)
            end
      | _, _ => Some (false, incomingrawtx)
      end
  end.

(** [signedrawtx]: whether there is a buffer.  The result, what is written to it, and
    [*signed_size]. *)
Definition sign_raw_transaction_ex (inputindex : Z) (incomingrawtx : bytes) (signedrawtx : bool) (signed_size : Z) (scripthex : bytes)
    (sighashtype : Z) (privkey : bytes) : option (bool * option bytes * Z) :=
  let failed := Some (false, None, signed_size) in
  if TO_UINT8_HEX_BUF_LEN <? Z.of_nat (length incomingrawtx) then failed
  else if (length incomingrawtx / 2 =? 0)%nat then failed
  else
    match tx_of_hex incomingrawtx (length incomingrawtx) with
    | None => failed
    | Some txtmp =>
        ins ← vin txtmp;
        if Z.of_nat (length ins) <=? u64 inputindex then failed
        else if (length scripthex / 2 =? 0)%nat then failed
        else
          signed ← sign_parsed txtmp (utils_hex_to_bin scripthex (length scripthex)).1 privkey inputindex sighashtype;
          match signed with
          | None => failed
          | Some hexout =>
              let need := Z.of_nat (length hexout) + 1 in
              if negb signedrawtx then Some (true, None, need)
              else if signed_size <? need then failed
              else Some (true, Some hexout, signed_size)
          end
    end.

(** The result, and the text of the caller. *)
Definition sign_indexed_raw_transaction (txindex inputindex : Z) (incomingrawtx : bytes) (scripthex : option bytes) (sighashtype : Z)
    (privkey : bytes) : M (bool * bytes) :=
  if txindex =? 0 then mret (false, incomingrawtx)
  else
    '(ok, rawtx) ← lift (sign_raw_transaction inputindex incomingrawtx scripthex sighashtype privkey);
    if negb (ok : bool) then mret (false, rawtx)
    else ok ← save_raw_transaction_ts txindex (Some rawtx); mret (ok, rawtx).

(** The inputs from [i] on, in place; the inner [None]: one of them failed. *)
Fixpoint sign_each (rest i : nat) (rawtx : bytes) (script_pubkey : option bytes) (privkey : bytes) : option (option bytes) :=
  match rest with
  | O => Some (Some rawtx)
  | S rest =>
      '(ok, rawtx) ← sign_raw_transaction (Z.of_nat i) rawtx script_pubkey 1 privkey;
      if ok : bool then sign_each rest (S i) rawtx script_pubkey privkey else Some None
  end.

(** Without an entry the length of a NULL pointer is asked for. *)
Definition sign_transaction (txindex : Z) (script_pubkey : option bytes) (privkey : bytes) : M bool :=
  raw ← get_raw_transaction_ts txindex;
  rawtx ← lift raw;
  match tx_of_hex rawtx (length rawtx) with
  | None => mret false
  | Some txtmp =>
      ins ← lift (vin txtmp);
      signed ← lift (sign_each (length ins) 0 rawtx script_pubkey privkey);
      match signed with
      | None => mret false
      | Some rawtx => _ ← save_raw_transaction_ts txindex (Some rawtx); mret true
      end
  end.

Definition sign_transaction_w_privkey (txindex vout_index : Z) (privkey : bytes) : M bool :=
  script_pubkey ← lift (private_key_wif_to_pubkey_hash privkey);
  raw ← get_raw_transaction_ts txindex;
  rawtx ← lift raw;
  match tx_of_hex rawtx (length rawtx) with
  | None => mret false
  | Some _ =>
      '(ok, rawtx) ← sign_indexed_raw_transaction txindex vout_index rawtx script_pubkey 1 privkey;
      if negb (ok : bool) then mret false
      else _ ← save_raw_transaction_ts txindex (Some rawtx); mret true
  end.

(** With a buffer of the caller of [buf_cap] bytes; the results and the text in it. *)
Definition sign_indexed_raw_transaction_ex (txindex inputindex : Z) (scripthex : bytes) (sighashtype : Z) (privkey : bytes) (buf_cap : Z)
    : M (bool * option bytes) :=
  if buf_cap =? 0 then mret (false, None)
  else
    raw ← get_raw_transaction_ex txindex buf_cap;
    match raw with
    | None => mret (false, None)
    | Some rawtx =>
        '(ok, signed, _) ← lift (sign_raw_transaction_ex inputindex rawtx true buf_cap scripthex sighashtype privkey);
        match signed with
        | Some rawtx => ok ← save_raw_transaction_ts txindex (Some rawtx); mret (ok, Some rawtx)
        | None => mret (false, Some rawtx)
        end
    end.

Fixpoint sign_each_ex (rest i : nat) (rawtx : bytes) (buf_cap : Z) (script_pubkey privkey : bytes) : option (bool * bytes) :=
  match rest with
  | O => Some (true, rawtx)
  | S rest =>
      '(_, signed, _) ← sign_raw_transaction_ex (Z.of_nat i) rawtx true buf_cap script_pubkey 1 privkey;
      match signed with
      | Some rawtx => sign_each_ex rest (S i) rawtx buf_cap script_pubkey privkey
      | None => Some (false, rawtx)
      end
  end.

Definition sign_transaction_ex (txindex : Z) (script_pubkey privkey : bytes) (buf_cap : Z) : M (bool * option bytes) :=
  if buf_cap =? 0 then mret (false, None)
  else
    r ← find_transaction txindex;
    match r with
    | None => mret (false, None)
    | Some p =>
        t ← get_tx p;
        ins ← lift (vin t);
        raw ← get_raw_transaction_ex txindex buf_cap;
        match raw with
        | None => mret (false, None)
        | Some rawtx =>
            '(ok, rawtx) ← lift (sign_each_ex (length ins) 0 rawtx buf_cap script_pubkey privkey);
            if negb (ok : bool) then mret (false, Some rawtx)
            else ok ← save_raw_transaction_ts txindex (Some rawtx); mret (ok, Some rawtx)
        end
    end.

Definition sign_transaction_w_privkey_ex (txindex : Z) (privkey : bytes) (buf_cap : Z) : M (bool * option bytes) :=
  script_pubkey ← lift (private_key_wif_to_pubkey_hash privkey);
  match script_pubkey with
  | None => mret (false, None)
  | Some script_pubkey => sign_transaction_ex txindex script_pubkey privkey buf_cap
  end.

(** ** Addresses that several keys spend *)

(** A key of 33 bytes in the 65 of its record; [None]: more digits than fit are written. *)
Definition read_pubkey (hex : bytes) : option (option pubkey) :=
  let '(bin, outlen) := utils_hex_to_bin hex (length hex) in
  if (65 <? outlen)%nat then None
  else
    let pk := mk_pubkey true (copy_to (zeros 65) bin) in
    Some (if negb (outlen =? 33)%nat || negb (pubkey_is_valid pk) then None else Some pk).

Fixpoint read_pubkeys (hexes : list (option bytes)) : option (option (list pubkey)) :=
  match hexes with
  | [] => Some (Some [])
  | None :: _ => Some None
  | Some hex :: hexes =>
      pk ← read_pubkey hex;
      match pk with
      | None => Some None
      | Some pk => pks ← read_pubkeys hexes; Some (pks ← pks; Some (pk :: pks))
      end
  end.

(** The result, and what is written to the two buffers, each with its capacity. *)
Definition get_p2sh_multisig_address (pubkeys_hex : list (option bytes)) (m : Z) (is_testnet : bool) (p2sh_addr_cap redeem_script_hex_cap : Z)
    : option (bool * option bytes * option bytes) :=
  let n := Z.of_nat (length pubkeys_hex) in
  if (n <? 1) || (m <? 1) || (n <? m) then Some (false, None, None)
  else if p2sh_addr_cap <? Z.of_nat P2PKHLEN then Some (false, None, None)
  else
    pubs ← read_pubkeys pubkeys_hex;
    match pubs with
    | None => Some (false, None, None)
    | Some pubs =>
        let '(ok, redeem) := script_build_multisig m (Some pubs) in
        if negb ok then Some (false, None, None)
        else if redeem_script_hex_cap <? Z.of_nat (length redeem) * 2 + 1 then Some (false, None, None)
        else
          let '(_, script_hash) := script_get_scripthash (Some redeem) in
          let '(ok, addr) := p2sh_addr_from_hash160 script_hash (prefixes_of (chain_of_flag is_testnet)) p2sh_addr_cap in
          Some (ok, Some addr, Some (utils_bin_to_hex redeem))
    end.

(** ** With the key of a wallet *)

(** [dogecoin_tx_sign_ts], when the wallet has a private master key: each input is signed for the
    script it holds. *)
Fixpoint sign_held_scripts (rest i : nat) (t : tx) (private_key : bytes) : option (bool * tx) :=
  match rest with
  | O => Some (true, t)
  | S rest =>
      txin ← (ins ← vin t; ins !! i);
      match script_sig txin with
      | None | Some [] => sign_held_scripts rest (S i) t private_key
      | Some script =>
          '(res, t', _) ← tx_sign_input (Some t) (Some script) private_key i 1;
          t' ← t';
          if bool_decide (res = SIGN_OK) || bool_decide (res = SIGN_NO_KEY_MATCH) then sign_held_scripts rest (S i) t' private_key
          else Some (false, t')
      end
  end.
Definition tx_sign_ts (t : tx) (masterkey : option bytes) : option (bool * tx) :=
  match masterkey with
  | None => Some (false, t)
  | Some private_key => ins ← vin t; sign_held_scripts (length ins) 0 t private_key
  end.
End with_library.

(** ** Texts are read back *)

Lemma hex_span_hex b : hex_span (concat (hex_byte <$> b)) = (2 * length b)%nat.
Proof.
  induction b as [|x b IH]; [done|]. rewrite fmap_cons. cbn [concat]. destruct (hex_byte_spec x) as (hi & lo & h & l & -> & Eh & El & _).
  cbn [app hex_span length]. rewrite Eh, El, !bool_decide_true by done. lia.
Qed.

Lemma checked_hex_hex b : b <> [] -> checked_hex (concat (hex_byte <$> b)) = Some (2 * length b)%nat.
Proof.
  intros Hb. unfold checked_hex. rewrite hex_span_hex, hex_length. assert (0 < length b)%nat by (destruct b; cbn; [done|lia]).
  rewrite (proj2 (Nat.eqb_neq _ _)), Nat.eqb_refl by lia. rewrite Nat.mul_comm, Nat.Div0.mod_mul. done.
Qed.

Lemma hex_to_bin_hex b : utils_hex_to_bin (concat (hex_byte <$> b)) (2 * length b) = (b, length b).
Proof.
  pose proof (proj1 (hex_round_trip b)) as H. unfold utils_hex_to_bin, utils_bin_to_hex in *.
  by rewrite take_app_exact, <- (take_ge (concat _) (2 * length b)) in H by (rewrite hex_length; lia).
Qed.

(** The text of a transaction. *)
Definition text (t : tx) : bytes := concat (hex_byte <$> tx_serialize [] t).

Lemma text_length t : length (text t) = (2 * length (tx_serialize [] t))%nat.
Proof. apply hex_length. Qed.

Lemma serialize_nonempty t ins outs : tx_ok t ins outs -> tx_serialize [] t <> [].
Proof. intros Hok. rewrite (tx_serialize_fields t ins outs Hok). unfold ser_s32, ser_u32, sink_append, bytes_sink. cbn [app]. intros [E _]%app_eq_nil. done. Qed.

Lemma tx_of_text t ins outs : tx_ok t ins outs -> ins <> [] -> tx_of_hex (text t) (length (text t)) = Some t.
Proof.
  intros Hok Hne. unfold tx_of_hex. rewrite text_length. unfold text. rewrite hex_to_bin_hex, take_ge by done. unfold tx_deserialize.
  rewrite <- (app_nil_r (tx_serialize [] t)), (tx_deserialize_serialize t tx_new ins outs) by done. done.
Qed.

Lemma checked_text t ins outs : tx_ok t ins outs -> checked_hex (text t) = Some (length (text t)).
Proof. intros Hok. rewrite text_length. by eapply checked_hex_hex, serialize_nonempty. Qed.

(** A transaction under construction has inputs without scripts; its text does not tell that from
    empty ones. *)
Definition filled_in (i : tx_in) : tx_in := mk_tx_in (prevout i) (Some (default [] (script_sig i))) (sequence i).
Definition filled (t : tx) : tx := mk_tx (version t) (map filled_in <$> vin t) (vout t) (locktime t).

Lemma tx_in_serialize_filled s i : tx_in_serialize s (filled_in i) = tx_in_serialize s i.
Proof. unfold tx_in_serialize. cbn [filled_in prevout script_sig sequence]. by destruct (script_sig i). Qed.

Lemma serialize_filled t : tx_serialize [] (filled t) = tx_serialize [] t.
Proof.
  unfold tx_serialize, vec_len. cbn [filled version vin vout locktime]. destruct (vin t) as [ins|]; [|done]. cbn [fmap option_fmap option_map default from_option].
  unfold id. rewrite length_map. do 3 f_equal.
  generalize (ser_varlen (ser_s32 [] (version t)) (u32 (Z.of_nat (length ins)))). induction ins as [|i ins IH]; intros s; [done|]. cbn [map foldl].
  by rewrite tx_in_serialize_filled, IH.
Qed.

Lemma text_filled t : text (filled t) = text t.
Proof. unfold text. by rewrite serialize_filled. Qed.

(** ** Operations on the map of the registry *)

(** The result, and the map afterwards. *)
Definition acts {A} (h : list nat) (st : registry) (m : M A) (a : A) (m' : gmap Z tx) : Prop :=
  runs m st (fun r st' => r = a /\ registry_ok h st' /\ registry_map st' = m' /\ same_table st st').

Lemma acts_ret {A} h st (a : A) m : registry_ok h st -> registry_map st = m -> acts h st (mret a) a m.
Proof. intros Hok Hm. by apply runs_ret. Qed.

Lemma acts_bind {A B} h st (m : M A) (f : A -> M B) a m1 b m2 : acts h st m a m1 ->
  (forall st1, registry_ok h st1 -> registry_map st1 = m1 -> same_table st st1 -> acts h st1 (f a) b m2) -> acts h st (m ≫= f) b m2.
Proof.
  intros Hm Hf. apply runs_bind. eapply runs_weaken; [exact Hm|]. cbn. intros r st1 (-> & Hok & Hmap & Hs).
  eapply runs_weaken; [by apply Hf|]. cbn. intros r2 st2 (-> & Hok2 & Hmap2 & Hs2). split_and!; try done. by eapply same_table_trans.
Qed.

Lemma acts_lift {A B} h st (o : option A) (f : A -> M B) a b m : o = Some a -> acts h st (f a) b m -> acts h st (lift o ≫= f) b m.
Proof. intros -> H. apply runs_bind. by exists a, st. Qed.

Lemma acts_get h st p idx t {B} (f : tx -> M B) b m : registry_ok h st -> number_of st p = Some idx -> registry_map st !! idx = Some t ->
  acts h st (f t) b m -> acts h st (get_tx p ≫= f) b m.
Proof. intros Hok Hn Hm H. apply runs_bind. exists t, st. split; [by eapply get_tx_ref|done]. Qed.

Lemma acts_put h st p idx t {B} (f : unit -> M B) b m : registry_ok h st -> number_of st p = Some idx ->
  (forall st1, registry_ok h st1 -> number_of st1 p = Some idx -> registry_map st1 = <[idx := t]> (registry_map st) -> acts h st1 (f tt) b m) ->
  acts h st (put_tx p t ≫= f) b m.
Proof.
  intros Hok Hn Hf. apply runs_bind. eapply runs_weaken; [by apply (put_tx_ref h st p idx t)|]. cbn. intros [] st1 (Hok1 & Hm1 & Hs1).
  eapply runs_weaken; [apply Hf; [done| |done]; by rewrite (number_same st st1 p Hs1)|]. cbn. intros r st2 (-> & ? & ? & ?). split_and!; try done. by eapply same_table_trans.
Qed.

(** An operation on the entry [idx], which holds [t]. *)
Lemma acts_with_ref {A} h st idx t (d : A) body a m' : registry_ok h st -> Z.of_nat (length h) < INT_MAX -> registry_map st !! idx = Some t ->
  (forall p st1, registry_ok (p :: h) st1 -> number_of st1 p = Some idx -> registry_map st1 = registry_map st -> acts (p :: h) st1 (body p) a m') ->
  acts h st (with_ref idx d body) a m'.
Proof.
  intros Hok Hl Hm Hb. unfold acts. apply (with_ref_spec h); [done..|congruence|]. intros t' p st1 Hm' Hok1 Hn Hmap Hs.
  eapply runs_weaken; [by apply Hb|]. cbn. intros r st2 (-> & Hok2 & Hmap2 & Hs2). split_and!; try done. intros st3 Hok3 Hmap3 Hs3. split_and!; try done. congruence.
Qed.

Lemma acts_without_ref {A} h st idx (d : A) body : registry_ok h st -> Z.of_nat (length h) < INT_MAX -> registry_map st !! idx = None ->
  acts h st (with_ref idx d body) d (registry_map st).
Proof. intros Hok Hl Hm. unfold acts. apply (with_ref_spec h); [done..| |congruence]. by intros _. Qed.

(** The input that [add_utxo] makes of a text of 64 digits. *)
Definition utxo_in (txid : bytes) (n : Z) : tx_in := mk_tx_in (mk_outpoint (utils_uint256_sethex txid) (u32 n)) None UINT32_MAX.
Definition txid_ok (txid : bytes) : Prop := hex_span txid = 64%nat /\ length txid = 64%nat.

Lemma add_utxo_acts h st idx t ins txid n : registry_ok h st -> Z.of_nat (length h) < INT_MAX -> registry_map st !! idx = Some t ->
  vin t = Some ins -> txid_ok txid ->
  acts h st (add_utxo_ts idx (Some txid) n) true (<[idx := set_vin t (ins ++ [utxo_in txid n])]> (registry_map st)).
Proof.
  intros Hok Hl Hm Hv [Hs Hlen]. unfold add_utxo_ts. eapply acts_with_ref; [done..|]. intros p st1 Hok1 Hn Hmap.
  rewrite Hs, Hlen. cbn [Nat.eqb negb orb]. rewrite <- Hmap in Hm |- *. eapply acts_get; [done..|]. eapply acts_lift; [done|]. cbv zeta.
  unfold tx_add_input_ts. rewrite Hv. eapply acts_put; [done..|]. intros st2 Hok2 Hn2 Hm2.
  eapply acts_get; [done|done|by rewrite Hm2, lookup_insert_eq|]. eapply acts_lift; [done|].
  rewrite length_app. cbn [length]. rewrite Nat.eqb_refl. cbn [andb]. by apply acts_ret.
Qed.

(** The output for an address. *)
Definition pays (address : bytes) (v : Z) (o : tx_out) : Prop :=
  tx_add_address_out tx_new (prefixes_of (chain_params (chain_from_b58_prefix address))) v address = Some (true, set_vout tx_new [o]) /\ value o = v.

Lemma add_address_acts h st p idx t outs address v o : registry_ok h st -> number_of st p = Some idx -> registry_map st !! idx = Some t ->
  vout t = Some outs -> pays address v o ->
  acts h st (add_address_output_ts p (chain_from_b58_prefix address) v address) true (<[idx := set_vout t (outs ++ [o])]> (registry_map st)).
Proof.
  intros Hok Hn Hm Hv [Hp _]. unfold add_address_output_ts. eapply acts_lift; [done|]. cbn [negb]. eapply acts_lift; [done|]. cbn [copy_outputs].
  eapply acts_get; [done..|]. unfold tx_add_output_ts. rewrite Hv. eapply acts_put; [done..|]. intros st1 Hok1 Hn1 Hm1.
  assert (tx_out_copy tx_out_new o = o) as Ho by by destruct o. rewrite Ho in Hm1. by apply acts_ret.
Qed.

Lemma add_output_acts h st idx t outs address amount v o : registry_ok h st -> Z.of_nat (length h) < INT_MAX -> registry_map st !! idx = Some t ->
  vout t = Some outs -> coins_to_koinu_str (amount ++ [byte_zero]) = Some v -> pays address (s64 v) o ->
  acts h st (add_output_ts idx address amount) true (<[idx := set_vout t (outs ++ [o])]> (registry_map st)).
Proof.
  intros Hok Hl Hm Hv Ha Hp. unfold add_output_ts. eapply acts_with_ref; [done..|]. intros p st1 Hok1 Hn Hmap. cbv zeta. eapply acts_lift; [done|].
  rewrite <- Hmap in Hm |- *. by eapply add_address_acts.
Qed.

Lemma make_change_acts h st idx t outs address fee amount o : registry_ok h st -> Z.of_nat (length h) < INT_MAX -> registry_map st !! idx = Some t ->
  vout t = Some outs -> amount <> fee -> pays address (s64 (u64 (amount - fee))) o ->
  acts h st (make_change_ts idx address fee amount) true (<[idx := set_vout t (outs ++ [o])]> (registry_map st)).
Proof.
  intros Hok Hl Hm Hv Ha Hp. unfold make_change_ts. rewrite (proj2 (Z.eqb_neq _ _)) by done. eapply acts_with_ref; [done..|]. intros p st1 Hok1 Hn Hmap.
  cbv zeta. rewrite <- Hmap in Hm |- *. by eapply add_address_acts.
Qed.

Lemma get_raw_acts h st idx t : registry_ok h st -> Z.of_nat (length h) < INT_MAX -> registry_map st !! idx = Some t ->
  acts h st (get_raw_transaction_ts idx) (utils_uint8_to_hex (tx_serialize [] t)) (registry_map st).
Proof.
  intros Hok Hl Hm. unfold get_raw_transaction_ts. eapply acts_with_ref; [done..|]. intros p st1 Hok1 Hn Hmap.
  rewrite <- Hmap in Hm |- *. eapply acts_get; [done..|]. by apply acts_ret.
Qed.

Lemma tx_copy_id t t' : tx_copy t t' = t'.
Proof.
  unfold tx_copy. destruct t' as [ver ins outs lock]. cbn [version vin vout locktime]. f_equal.
  - destruct ins as [ins|]; [|done]. cbn [option_map]. by rewrite copy_ins.
  - destruct outs as [outs|]; [|done]. cbn [option_map]. by rewrite copy_outs.
Qed.

Lemma save_raw_acts h st idx t0 t ins outs : registry_ok h st -> Z.of_nat (length h) < INT_MAX -> registry_map st !! idx = Some t0 ->
  tx_ok t ins outs -> ins <> [] -> Z.of_nat (length (text t)) <= TXHEXMAXLEN ->
  acts h st (save_raw_transaction_ts idx (Some (text t))) true (<[idx := t]> (registry_map st)).
Proof.
  intros Hok Hl Hm Ht Hne Hlen. unfold save_raw_transaction_ts. rewrite (checked_text t ins outs Ht), (proj2 (Z.ltb_ge _ _)), (tx_of_text t ins outs Ht Hne) by done.
  eapply acts_with_ref; [done..|]. intros p st1 Hok1 Hn Hmap. rewrite <- Hmap in Hm |- *. eapply acts_get; [done..|]. rewrite tx_copy_id.
  eapply acts_put; [done..|]. intros st2 Hok2 Hn2 Hm2. by apply acts_ret.
Qed.

(** ** The final check *)

Lemma wrap_swrap w z : 0 < w -> wrap w (swrap w z) = wrap w z.
Proof.
  intros Hw. unfold swrap. case_if; [apply wrap_wrap; lia|]. unfold wrap. rewrite <- Zminus_mod_idemp_r, Z_mod_same_full, Z.sub_0_r.
  apply Zmod_mod.
Qed.

(** The sum of outputs, and what the loop makes of it. *)
Definition sum_values (outs : list tx_out) : Z := foldr (fun o s => value o + s) 0 outs.

Lemma add_values outs tot : foldl (fun s o => u64 (s + value o)) (u64 tot) outs = u64 (tot + sum_values outs).
Proof.
  revert tot. induction outs as [|o outs IH]; intros tot; cbn [foldl sum_values foldr]; [by rewrite Z.add_0_r|].
  rewrite wrap_add_l, IH. f_equal. unfold sum_values. lia.
Qed.

Lemma sum_outputs_acts again h st p idx t outs is_testnet c fee total_in o : registry_ok h st -> Z.of_nat (length h) < INT_MAX ->
  number_of st p = Some idx -> registry_map st !! idx = Some t -> vout t = Some outs ->
  u64 (total_in - sum_values outs) <> fee -> pays c (s64 (u64 (u64 (total_in - sum_values outs) - fee))) o ->
  forall rest i cnt tot, (rest + i)%nat = length outs -> (0 < rest)%nat -> 0 <= cnt ->
  u64 (tot + sum_values (drop i outs)) = u64 (sum_values outs) ->
  exists cnt', 1 <= cnt' /\ acts h st (sum_outputs again idx p is_testnet (Some c) fee total_in rest i cnt (u64 tot))
    (cnt', u64 (sum_values outs + value o)) (<[idx := set_vout t (outs ++ [o])]> (registry_map st)).
Proof.
  intros Hok Hlh Hn Hm Hv Hfee Hp. induction rest as [|rest IH]; intros i cnt tot Hr Hpos Hcnt Hsum; [lia|].
  destruct (lookup_lt_is_Some_2 outs i ltac:(lia)) as [oi Hoi]. rewrite (drop_S _ _ _ Hoi) in Hsum. cbn [sum_values foldr] in Hsum. fold (sum_values (drop (S i) outs)) in Hsum.
  cbn [sum_outputs]. set (found := Z.b2z (tx_out_pubkey_hash_to_p2pkh_address oi is_testnet).1). set (cnt1 := if again then found else cnt + found).
  assert (0 <= cnt1) as Hc1 by (unfold cnt1, found; destruct again, (tx_out_pubkey_hash_to_p2pkh_address oi is_testnet).1; cbn; lia).
  assert (forall z, u64 (total_in - u64 z) = u64 (total_in - z)) as Hsub by (intros z; unfold wrap; apply Zminus_mod_idemp_r).
  destruct rest as [|rest].
  - rewrite drop_ge in Hsum by lia. cbn [sum_values foldr] in Hsum. rewrite Z.add_0_r in Hsum.
    exists (cnt1 + 1). split; [lia|]. eapply acts_get; [done..|]. eapply acts_lift; [by rewrite Hv|]. cbv zeta. fold found cnt1.
    rewrite wrap_add_l, Hsum, Hsub. eapply acts_bind; [by eapply make_change_acts|]. intros st1 Hok1 Hm1 Hs1.
    eapply acts_get; [done|by rewrite (number_same st st1 p Hs1)|by rewrite Hm1, lookup_insert_eq|]. eapply acts_lift; [cbn; by apply last_snoc|].
    rewrite wrap_add_l. by apply acts_ret.
  - destruct (IH (S i) cnt1 (tot + value oi)) as (cnt' & Hcnt' & Hacts); [lia|lia|done|rewrite <- Hsum; f_equal; lia|].
    exists cnt'. split; [done|]. eapply acts_get; [done..|]. eapply acts_lift; [by rewrite Hv|]. cbv zeta. fold found cnt1. rewrite wrap_add_l. exact Hacts.
Qed.

(** Without a reference. *)
Lemma find_acts h st idx t : registry_ok h st -> registry_map st !! idx = Some t ->
  exists p, find_transaction idx st = Some (Some p, st) /\ number_of st p = Some idx.
Proof.
  intros Hok Hm. destruct (find_locked_spec Hok idx) as [[_ E]|(p & w & Hp & Hw & Hi & E & _)]; [congruence|]. exists p. split; [done|].
  unfold number_of. rewrite decide_True, Hw by done. cbn. by rewrite Hi.
Qed.

Lemma hex_fits b : Z.of_nat (length b) <= 99999 -> utils_uint8_to_hex b = Some (concat (hex_byte <$> b)).
Proof. intros H. unfold utils_uint8_to_hex. by rewrite (proj2 (Z.ltb_ge _ _)) by done. Qed.

Lemma finalize_acts h st idx t outs c o dest sfee sout fee out : registry_ok h st -> Z.of_nat (length h) + 1 < INT_MAX ->
  registry_map st !! idx = Some t -> vout t = Some outs -> outs <> [] ->
  coins_to_koinu_str (sfee ++ [byte_zero]) = Some fee -> coins_to_koinu_str (sout ++ [byte_zero]) = Some out ->
  u64 (out - sum_values outs) <> fee -> pays c (s64 (out - sum_values outs - fee)) o ->
  Z.of_nat (length (tx_serialize [] (set_vout t (outs ++ [o])))) <= 99999 ->
  acts h st (finalize_transaction_ts idx dest sfee sout (Some c)) (Some (text (set_vout t (outs ++ [o])))) (<[idx := set_vout t (outs ++ [o])]> (registry_map st)).
Proof.
  intros Hok Hl Hm Hv Hne Hfee Hout Hch Hp Hlen. unfold finalize_transaction_ts.
  assert (s64 (u64 (u64 (out - sum_values outs) - fee)) = s64 (out - sum_values outs - fee)) as Es.
  { rewrite swrap_wrap by lia. rewrite <- (swrap_wrap 64 (u64 _ - _)), <- (swrap_wrap 64 (_ - _ - _)) by lia. f_equal. unfold wrap. apply Zminus_mod_idemp_l. }
  eapply (acts_bind h st _ _ true (<[idx := set_vout t (outs ++ [o])]> (registry_map st))).
  - eapply acts_with_ref; [done|lia|done|]. intros p st1 Hok1 Hn Hmap. cbv zeta. eapply acts_lift; [done|]. eapply acts_lift; [done|].
    rewrite <- Hmap in Hm |- *. eapply acts_get; [done..|]. eapply acts_lift; [done|].
    destruct (sum_outputs_acts true (p :: h) st1 p idx t outs (chain_from_b58_prefix_bool dest) c fee out o Hok1 ltac:(cbn [length]; lia) Hn Hm Hv Hch
      ltac:(by rewrite Es) (length outs) 0 0 0) as (cnt & Hcnt & Hacts); [lia|by destruct outs; [|cbn; lia]|lia|by rewrite drop_0|].
    eapply acts_bind; [exact Hacts|]. intros st2 Hok2 Hm2 _. cbn beta iota. rewrite (proj2 (Z.ltb_ge _ _)) by lia.
    destruct Hp as [_ ->]. rewrite <- (wrap_add_r 64), wrap_swrap, wrap_add_r by lia.
    replace (sum_values outs + (out - sum_values outs - fee)) with (out - fee) by lia. rewrite Z.eqb_refl. by apply acts_ret.
  - intros st1 Hok1 Hm1 _. cbn beta iota. rewrite <- Hm1. unfold text. rewrite <- hex_fits by done.
    eapply get_raw_acts; [done|lia|]. by rewrite Hm1, lookup_insert_eq.
Qed.

(** ** A transaction from its beginning to its text *)

Lemma script_length h : (length (script_build_p2pkh h) <= 25)%nat /\ (length (script_build_p2sh h) <= 25)%nat.
Proof.
  assert (length (take 20 h) <= 20)%nat as Hl by (rewrite length_take; lia).
  unfold script_build_p2pkh, script_build_p2sh, script_append_pushdata, script_append_op, sink_append, bytes_sink.
  rewrite !(proj2 (Z.ltb_lt _ OP_PUSHDATA1)) by (unfold OP_PUSHDATA1; lia). rewrite !length_app, !le_enc_length. cbn [length]. lia.
Qed.

Lemma pays_ok address v o : pays address v o -> srange 64 v -> tx_out_ok o.
Proof.
  intros [Hp Hv] Hr. split; [by rewrite Hv|]. unfold tx_add_address_out in Hp. destruct (base58_decode_check address 256) as [[r buf]|]; [|done].
  cbn [mbind option_bind] in Hp. pose proof (script_length (drop 1 buf)) as [H1 H2].
  repeat case_if; cbn in Hp; try done; injection Hp as <-; eexists; (split; [done|]); unfold varstr_ok, UINT32_MAX; lia.
Qed.

Lemma list_inserts_length {A} i (k l : list A) : length (list_inserts i k l) = length l.
Proof. revert i. induction k as [|x k IH]; intros i; cbn [list_inserts]; [done|]. by rewrite length_insert. Qed.

Lemma utxo_in_ok txid n : tx_in_ok (filled_in (utxo_in txid n)).
Proof.
  split_and!; cbn [filled_in utxo_in prevout op_hash op_n script_sig sequence default].
  - unfold utils_uint256_sethex. rewrite list_inserts_length. done.
  - apply wrap_range. lia.
  - by exists [].
  - done.
Qed.

Fixpoint add_utxos (idx : Z) (utxos : list (bytes * Z)) : M bool :=
  match utxos with
  | [] => mret true
  | (txid, n) :: utxos => ok ← add_utxo_ts idx (Some txid) n; if ok : bool then add_utxos idx utxos else mret false
  end.

(** Pairs of an address and an amount. *)
Fixpoint add_outputs (idx : Z) (orders : list (bytes * bytes)) : M bool :=
  match orders with
  | [] => mret true
  | (address, amount) :: orders => ok ← add_output_ts idx address amount; if ok : bool then add_outputs idx orders else mret false
  end.

Lemma add_utxos_acts h utxos : Forall (fun u => txid_ok u.1) utxos -> forall st idx t ins, registry_ok h st -> Z.of_nat (length h) < INT_MAX ->
  registry_map st !! idx = Some t -> vin t = Some ins ->
  acts h st (add_utxos idx utxos) true (<[idx := set_vin t (ins ++ ((fun u => utxo_in u.1 u.2) <$> utxos))]> (registry_map st)).
Proof.
  induction 1 as [|[txid n] utxos Ht Hts IH]; intros st idx t ins Hok Hl Hm Hv; cbn [add_utxos].
  - apply acts_ret; [done|]. cbn [fmap list_fmap]. rewrite app_nil_r. rewrite insert_id; [done|]. rewrite Hm. f_equal. destruct t. cbn in *. by subst.
  - eapply acts_bind; [by eapply add_utxo_acts|]. intros st1 Hok1 Hm1 _. cbn beta iota. set (i := utxo_in txid n).
    assert (<[idx := set_vin t (ins ++ ((fun u => utxo_in u.1 u.2) <$> (txid, n) :: utxos))]> (registry_map st) =
      <[idx := set_vin (set_vin t (ins ++ [i])) ((ins ++ [i]) ++ ((fun u => utxo_in u.1 u.2) <$> utxos))]> (registry_map st1)) as ->.
    { rewrite Hm1, insert_insert_eq, <- app_assoc. done. }
    apply IH; [done|done|by rewrite Hm1, lookup_insert_eq|done].
Qed.

(** What an order comes to. *)
Definition order_pays (order : bytes * bytes) (o : tx_out) : Prop :=
  exists v, coins_to_koinu_str (order.2 ++ [byte_zero]) = Some v /\ pays order.1 (s64 v) o.

Lemma add_outputs_acts h orders os : Forall2 order_pays orders os -> forall st idx t outs, registry_ok h st -> Z.of_nat (length h) < INT_MAX ->
  registry_map st !! idx = Some t -> vout t = Some outs ->
  acts h st (add_outputs idx orders) true (<[idx := set_vout t (outs ++ os)]> (registry_map st)).
Proof.
  induction 1 as [|[address amount] o orders os (v & Hv & Hp) Hos IH]; intros st idx t outs Hok Hl Hm Ho; cbn [add_outputs].
  - apply acts_ret; [done|]. rewrite app_nil_r. rewrite insert_id; [done|]. rewrite Hm. f_equal. destruct t. cbn in *. by subst.
  - eapply acts_bind; [by eapply add_output_acts|]. intros st1 Hok1 Hm1 _. cbn beta iota.
    assert (<[idx := set_vout t (outs ++ o :: os)]> (registry_map st) =
      <[idx := set_vout (set_vout t (outs ++ [o])) ((outs ++ [o]) ++ os)]> (registry_map st1)) as ->.
    { rewrite Hm1, insert_insert_eq, <- app_assoc. done. }
    apply IH; [done|done|by rewrite Hm1, lookup_insert_eq|done].
Qed.

(** The calls of a client that starts a transaction, fills it, and has it checked. *)
Definition build_transaction (utxos : list (bytes * Z)) (orders : list (bytes * bytes)) (dest sfee sout change : bytes) : M (Z * bool * option bytes) :=
  idx ← start_transaction_ts;
  inputs ← add_utxos idx utxos;
  outputs ← add_outputs idx orders;
  raw ← finalize_transaction_ts idx dest sfee sout (Some change);
  mret (idx, inputs && outputs, raw).


(** ** The size of a signed transaction *)

Definition ins_size (ins : list tx_in) : nat := sum_list_with (fun i => length (tx_in_serialize [] i)) ins.

Lemma ins_size_spec ins : length (foldl tx_in_serialize [] ins) = ins_size ins.
Proof.
  assert (forall s, length (foldl tx_in_serialize s ins) = (length s + ins_size ins)%nat) as H; [|apply (H [])].
  induction ins as [|i ins IH]; intros s; cbn [foldl ins_size sum_list_with]; [lia|]. rewrite IH, (tx_in_appends s i), length_app. unfold ins_size. lia.
Qed.

Lemma in_size i s : script_sig i = Some [] -> (length s <= 110)%nat ->
  length (tx_in_serialize [] (mk_tx_in (prevout i) (Some s) (sequence i))) = (length (tx_in_serialize [] i) + length s)%nat.
Proof.
  intros Hi Hs. unfold tx_in_serialize. cbn [prevout script_sig sequence]. rewrite Hi.
  unfold ser_varstr. cbn [length]. destruct s as [|b s]; [cbn; lia|]. set (l := b :: s) in *. assert (0 < length l)%nat by (cbn; lia).
  rewrite !(proj2 (Z.eqb_neq (Z.of_nat (length l)) 0)), !(proj2 (Z.ltb_ge UINT32_MAX _)) by (unfold UINT32_MAX; lia).
  rewrite !wrap_small by (unfold urange; lia). unfold ser_varlen. rewrite !(proj2 (Z.ltb_lt _ _)) by lia.
  unfold ser_u32, ser_u256, ser_bytes, sink_append, bytes_sink. change (Z.of_nat 0 =? 0) with true. cbv iota. rewrite !length_app, !le_enc_length. cbn [length]. lia.
Qed.

Lemma signed_size t ins outs n i s : tx_ok t ins outs -> ins !! n = Some i -> script_sig i = Some [] -> (length s <= 110)%nat ->
  length (tx_serialize [] (put_script t ins n i s)) = (length (tx_serialize [] t) + length s)%nat.
Proof.
  intros Hok Hi Hs Hl. destruct (put_script_ok t ins outs n i s Hok Hi) as [Hok1 _]; [unfold varstr_ok, UINT32_MAX; lia|].
  rewrite (tx_serialize_fields _ _ _ Hok1), (tx_serialize_fields _ _ _ Hok). rewrite !length_app, length_insert, !ins_size_spec.
  cbn [put_script set_vin version locktime].
  assert (ins_size (<[n := mk_tx_in (prevout i) (Some s) (sequence i)]> ins) = (ins_size ins + length s)%nat) as ->; [|lia].
  rewrite <- (take_drop_middle ins n i Hi) at 2. rewrite insert_take_drop by (by eapply lookup_lt_Some). unfold ins_size.
  rewrite !sum_list_with_app. cbn [sum_list_with]. rewrite in_size by done. lia.
Qed.

Section signing.
Context `{L : Secp256k1} {G : Secp256k1Group L} {Sg : Secp256k1Signatures L}.

(** A key, and its text for the wallet. *)
Context (k : bytes) (p : point) (wif : bytes) (Hk : good_key k p).
Context (Hwif : privkey_decode_wif wif (prefixes_of (chain_of_wif wif)) = Some (true, k)).

Definition script_text : bytes := concat (hex_byte <$> script_of_key k).

Lemma chain_of_wif_prefix : prefix_ok (pubkey_address (prefixes_of (chain_of_wif wif))).
Proof. unfold chain_of_wif. by case_match. Qed.

Lemma script_of_key_point : script_of_key k = script_build_p2pkh (pubkey_get_hash160 (public_of k p)).
Proof using Hk G. destruct Hk as (_ & _ & Hp). unfold script_of_key. by destruct (pubkey_from_key_spec k p Hp) as [-> _]. Qed.

(** The script that is derived from the text of the key. *)
Lemma wif_script : private_key_wif_to_pubkey_hash wif = Some (Some script_text).
Proof using Hk Hwif G.
  destruct Hk as (_ & Hv & Hp). destruct (pubkey_from_key_spec k p Hp) as [Hpk Hvp]. unfold private_key_wif_to_pubkey_hash.
  rewrite Hwif. cbn [mbind option_bind]. rewrite Hv. cbn [negb]. rewrite Hpk. cbn [mbind option_bind]. rewrite Hvp. cbn [negb].
  set (h := pubkey_get_hash160 (public_of k p)). assert (length h = 20%nat) as Hlh by apply rmd160_length.
  destruct (Address.address_round_trip (prefixes_of (chain_of_wif wif)) h chain_of_wif_prefix Hlh) as (addr & Hnul & Hla & Henc & _ & Hhash & _).
  specialize (Henc 100 ltac:(lia)). unfold p2pkh_addr_from_hash160 in Henc. unfold pubkey_getaddr_p2pkh. fold h.
  destruct (base58_encode_check (byte.of_Z (pubkey_address (prefixes_of (chain_of_wif wif))) :: take 20 h) 100) as [r s]. injection Henc as _ ->.
  cbn [snd]. rewrite c_strlen_app by done. cbn [mbind option_bind]. rewrite take_app_exact, Hhash by done. cbn [mbind option_bind].
  unfold script_text. by rewrite script_of_key_point.
Qed.

Lemma script_of_key_nonempty : script_of_key k <> [].
Proof using Hk G. rewrite script_of_key_point. by rewrite script_build_p2pkh_bytes by apply rmd160_length. Qed.

(** One input, by text. *)
Lemma sign_raw_step t ins outs n i : tx_ok t ins outs -> ins !! n = Some i -> script_sig i = Some [] ->
  Z.of_nat (length (tx_serialize [] t)) + 110 <= 99999 ->
  exists s out, tx_sign_input (Some t) (Some (script_of_key k)) k n 1 = Some (SIGN_OK, Some (put_script t ins n i s), out) /\ (length s <= 110)%nat /\
    sign_raw_transaction (Z.of_nat n) (text t) (Some script_text) 1 wif = Some (true, text (put_script t ins n i s)).
Proof using Hk Hwif G Sg.
  intros Hok Hi Hsi Hsz. pose proof (lookup_lt_Some _ _ _ Hi) as Hn. pose proof (ok_vin_len _ _ _ Hok) as Hnv.
  destruct (all_preimage t ins outs (script_of_key k) n 1 Hok Hn hashtype_1) as [pre Hpre].
  destruct (sign_pubkeyhash t ins outs i k p n 1 pre Hok Hk Hi Hsi ltac:(lia) Hpre) as (s & out & E & Hls & _).
  exists s, out. split_and!; [done|done|]. unfold sign_raw_transaction.
  assert (ins <> []) as Hne by (by intros ->).
  rewrite (checked_text t ins outs Hok). unfold script_text. rewrite checked_hex_hex by apply script_of_key_nonempty.
  rewrite (proj2 (Z.ltb_ge _ _)) by (rewrite text_length; unfold TXHEXMAXLEN; lia). rewrite (tx_of_text t ins outs Hok Hne).
  rewrite hex_to_bin_hex. cbn [fst]. unfold sign_parsed. rewrite (ok_vin _ _ _ Hok). cbn [mbind option_bind].
  rewrite wrap_small by (unfold urange; lia). rewrite Nat2Z.id, (proj2 (Z.leb_gt _ _)) by lia. unfold tx_sighash. rewrite Hpre. cbn [mbind option_bind].
  rewrite Hwif. cbn [mbind option_bind negb]. rewrite E. cbn [mbind option_bind]. rewrite bool_decide_true by done. cbn [negb mbind option_bind].
  fold (text (put_script t ins n i s)).
  rewrite (proj2 (Z.leb_gt _ _)); [done|]. rewrite text_length, (signed_size t ins outs n i s) by done. unfold TO_UINT8_HEX_BUF_LEN. lia.
Qed.

(** All of them, one after the other, in the text. *)
Lemma sign_each_spec rest : forall cur t ins outs, tx_ok t ins outs -> length ins = (cur + rest)%nat ->
  (forall n i, (cur <= n)%nat -> ins !! n = Some i -> script_sig i = Some []) ->
  Z.of_nat (length (tx_serialize [] t)) + 110 * Z.of_nat rest <= 99999 ->
  exists t', sign_each rest cur (text t) (Some script_text) wif = Some (Some (text t')) /\
    sign_inputs ((fun j => mk_job j k 1) <$> seq cur rest) t = Some t' /\ Z.of_nat (length (tx_serialize [] t')) <= 99999.
Proof using Hk Hwif G Sg.
  induction rest as [|rest IH]; intros cur t ins outs Hok Hlen Hempty Hsz; cbn [sign_each seq fmap list_fmap sign_inputs].
  { exists t. split_and!; [done|done|lia]. }
  destruct (lookup_lt_is_Some_2 ins cur ltac:(lia)) as [i Hi]. pose proof (Hempty cur i ltac:(lia) Hi) as Hsi.
  destruct (sign_raw_step t ins outs cur i Hok Hi Hsi ltac:(lia)) as (s & out & E & Hls & Eraw).
  destruct (put_script_ok t ins outs cur i s Hok Hi) as [Hok1 _]; [unfold varstr_ok, UINT32_MAX; lia|].
  destruct (IH (S cur) _ _ outs Hok1) as (t' & E1 & E2 & Hl').
  - rewrite length_insert. lia.
  - intros n j Hn Hj. rewrite list_lookup_insert_ne in Hj by lia. apply (Hempty n); [lia|done].
  - rewrite (signed_size t ins outs cur i s) by done. lia.
  - exists t'. cbn [job_key job_input job_type]. rewrite Eraw, E. done.
Qed.

(** C2: an entry whose inputs all spend the outputs of one key is signed with the text of that key: the
    script for it is derived from the text, the call succeeds, and the entry then holds the
    same transaction with every input valid; the other entries stay as they are.  (Asked for: that the
    result, with 110 bytes for each input, fits the buffers of 100,000 bytes.) *)
Theorem sign_transaction_completes (h : list nat) (st : registry) (idx : Z) (t : tx) (ins : list tx_in) (outs : list tx_out)
  (Hok : registry_ok h st) (Hl : Z.of_nat (length h) < INT_MAX) (Hm : registry_map st !! idx = Some t) (Ht : tx_ok (filled t) ins outs)
  (Hne : ins <> []) (He : Forall (fun i => script_sig i = Some []) ins)
  (Hsz : Z.of_nat (length (tx_serialize [] t)) + 110 * Z.of_nat (length ins) <= 99999) :
  exists sc t' ins' st', private_key_wif_to_pubkey_hash wif = Some (Some sc) /\
    sign_transaction idx (Some sc) wif st = Some (true, st') /\
    registry_ok h st' /\ registry_map st' = <[idx := t']> (registry_map st) /\
    tx_ok t' ins' outs /\ same_but_scripts (filled t) t' ins ins' /\
    forall n, (n < length ins)%nat -> p2pkh_input_valid t' (script_of_key k) n = true.
Proof using Hk Hwif G Sg.
  rewrite <- serialize_filled in Hsz. rewrite list.Forall_forall in He.
  assert (forall n i, ins !! n = Some i -> script_sig i = Some []) as He' by (intros n i Hi; by eapply He, list_elem_of_lookup_2).
  destruct (sign_each_spec (length ins) 0 (filled t) ins outs Ht eq_refl ltac:(eauto) Hsz) as (t' & E1 & E2 & Hl').
  destruct (sign_inputs_spec ((fun j => mk_job j k 1) <$> seq 0 (length ins)) (filled t) ins outs Ht) as (t2 & ins' & E3 & Ht' & Hsame & Hvalid & _).
  { rewrite <- list_fmap_compose. unfold compose. cbn [job_input]. rewrite list_fmap_id. apply NoDup_seq. }
  { apply Forall_fmap. apply list.Forall_forall. intros n Hn%elem_of_seq. split; [by exists p|]. split; [cbn; lia|]. split.
    - apply (all_preimage _ ins outs); [done|cbn; lia|apply hashtype_1].
    - destruct (lookup_lt_is_Some_2 ins n ltac:(lia)) as [i Hi]. exists i. split; [done|]. by eapply He'. }
  rewrite E2 in E3. injection E3 as <-.
  assert (ins' <> []) as Hne'.
  { intros ->. destruct Hsame as (_ & _ & Hp & _). by destruct ins. }
  assert (acts h st (sign_transaction idx (Some script_text) wif) true (<[idx := t']> (registry_map st))) as (r & st' & E & -> & Hok' & Hm' & _).
  { unfold sign_transaction. eapply acts_bind; [by eapply get_raw_acts|]. intros st1 Hok1 Hm1 _.
    rewrite <- serialize_filled, hex_fits by lia. eapply acts_lift; [done|]. fold (text (filled t)). rewrite (tx_of_text _ ins outs Ht Hne).
    eapply acts_lift; [apply (ok_vin _ _ _ Ht)|]. eapply acts_lift; [exact E1|]. cbn beta iota. rewrite <- Hm1.
    eapply acts_bind; [eapply save_raw_acts; [done|done|by rewrite Hm1|exact Ht'|done|rewrite text_length; unfold TXHEXMAXLEN; lia]|].
    intros st2 Hok2 Hm2 _. by apply acts_ret. }
  exists script_text, t', ins', st'. split_and!; try done; [apply wif_script|].
  intros n Hn. apply (Hvalid (mk_job n k 1)). apply list_elem_of_fmap. exists n. split; [done|]. apply elem_of_seq. lia.
Qed.
End signing.

(** ** Examples *)

(** The address of twenty zeros, and the amounts 5, 1, 10 and 4. *)
Definition demo_address : bytes := take 34 (p2pkh_addr_from_hash160 (zeros 20) (prefixes_of dogecoin_chainparams_main) 100).2.
Definition coins_5 : bytes := [Byte.x35].
Definition coins_1 : bytes := [Byte.x31].
Definition coins_10 : bytes := [Byte.x31; Byte.x30].
Definition coins_4 : bytes := [Byte.x34].
Definition demo_utxos : list (bytes * Z) := [(replicate 64 Byte.x61, 0)].
Definition output_of (v : Z) : tx_out := mk_tx_out v (Some (script_build_p2pkh (zeros 20))).

Lemma demo_pays v : pays demo_address v (output_of v).
Proof. split; [|done]. vm_compute. reflexivity. Qed.


(** The amounts in the outputs of a text. *)
Definition amounts_of (raw : bytes) : option (list Z) :=
  match tx_of_hex raw (length raw) with Some t => option_map (map value) (vout t) | None => None end.

(** Five coins and a fee are paid out of four: the last output is negative. *)
Example overspent_transaction :
  match build_transaction demo_utxos [(demo_address, coins_5)] demo_address coins_1 coins_4 demo_address context_new with
  | Some ((_, true, Some raw), _) => amounts_of raw = Some [500000000; -200000000]
  | _ => False
  end.
Proof. vm_compute. reflexivity. Qed.

(** A registry with one entry. *)
Definition demo_registry : registry := mk_registry [0%nat] 1 {[0%nat := mk_working 1 open_tx 0 false]} 1.

Lemma demo_registry_ok : registry_ok [] demo_registry.
Proof.
  destruct (do_steps_spec [CStart; CWith 1 (fun _ => open_tx)] [] context_new context_ok ltac:(done) ltac:(done)) as (held & st & E & Hok & _).
  assert (do_steps [CStart; CWith 1 (fun _ => open_tx)] [] context_new = Some ([], demo_registry)) as E' by reflexivity.
  rewrite E' in E. by injection E as <- <-.
Qed.

Definition demo_wif : bytes := take 52 (privkey_encode_wif (demo_key Byte.x01) (prefixes_of dogecoin_chainparams_main) 100).1.

Lemma sign_transaction_completes_witness :
  exists sc t' ins' st', private_key_wif_to_pubkey_hash (L := integers not_zero) demo_wif = Some (Some sc) /\
    sign_transaction (L := integers not_zero) 1 (Some sc) demo_wif demo_registry = Some (true, st') /\
    registry_ok [] st' /\ registry_map st' = <[1 := t']> (registry_map demo_registry) /\
    tx_ok t' ins' [demo_out] /\ same_but_scripts (filled open_tx) t' open_ins ins' /\
    forall n, (n < length open_ins)%nat -> p2pkh_input_valid (L := integers not_zero) t' (script_of_key (L := integers not_zero) (demo_key Byte.x01)) n = true.
Proof.
  apply (sign_transaction_completes (L := integers not_zero) (demo_key Byte.x01) (demo_point Byte.x01) demo_wif) with (t := open_tx);
    [by apply demo_good|vm_compute; reflexivity|apply demo_registry_ok|reflexivity|reflexivity|apply open_tx_ok|discriminate| |vm_compute; discriminate].
  apply List.Forall_cons; [reflexivity|]. apply List.Forall_cons; [reflexivity|apply List.Forall_nil].
Defined.

(** ** What the calls do not agree on *)

(** A transaction that pays an address of a script last, without change: [finalize_transaction] starts
    its count of addresses again with each output and refuses it; [finalize_transaction_ex] adds
    them up. *)
Definition demo_script_address : bytes := take 34 (p2sh_addr_from_hash160 (zeros 20) (prefixes_of dogecoin_chainparams_main) 100).2.
Definition pay_both {A} (finalize : M A) : option A :=
  '(r, _) ← (_ ← start_transaction_ts; _ ← add_utxos 1 demo_utxos;
             _ ← add_outputs 1 [(demo_address, coins_5); (demo_script_address, coins_4)]; finalize) context_new;
  Some r.

Definition accepted (r : option (option bytes)) : bool := match r with Some (Some _) => true | _ => false end.

Example finalize_counts_differ :
  pay_both (finalize_transaction_ts 1 demo_address coins_1 coins_10 None) = Some None /\
  accepted (pay_both (finalize_transaction_ex 1 demo_address coins_1 coins_10 None 1000)) = true.
Proof. split; vm_compute; reflexivity. Qed.

(** Without an entry, [sign_transaction] asks for the length of a NULL pointer. *)
Lemma sign_unknown_entry `{L : Secp256k1} h st idx script wif : registry_ok h st -> Z.of_nat (length h) < INT_MAX -> registry_map st !! idx = None ->
  sign_transaction idx script wif st = None.
Proof.
  intros Hok Hl Hm. destruct (acts_without_ref h st idx None (fun p => t ← get_tx p; mret (utils_uint8_to_hex (tx_serialize [] t))) Hok Hl Hm)
    as (r & st' & E & -> & _). unfold sign_transaction, get_raw_transaction_ts, mbind at 1, M_bind at 1. rewrite E. done.
Qed.
