(* ===== verification/Gf256.v ===== *)
(** * The field of 256 elements and interpolation ([src/src/slip0039.c])

    Multiplication with the polynomial of AES, powers, inverses and Lagrange interpolation of
    vectors of bytes; that this is a field, and that interpolation recovers every polynomial
    from as many points as it has coefficients. *)

From Stdlib Require Import Ring.
From S2P Require Import Prelude.

Local Open Scope Z_scope.

(** ** Arithmetic *)

(** One turn of the loop: [r], [a] and [b]. *)
Definition gf_step (st : Z * Z * Z) : Z * Z * Z :=
  let '(r, a, b) := st in
  let r := if Z.land b 1 =? 0 then r else Z.lxor r a in
  let hi := Z.land a 0x80 in
  let a := u8 (Z.shiftl a 1) in
  let a := if hi =? 0 then a else Z.lxor a 0x1B in
  (r, a, Z.shiftr b 1).

Definition gf256_mul (a b : Byte.byte) : Byte.byte :=
  let '(r, _, _) := Nat.iter 8 gf_step (0, byte.unsigned a, byte.unsigned b) in byte.of_Z r.

(** [while (exp)]; [None]: no fuel left. *)
Fixpoint gf_pow_loop (fuel : nat) (r a : Byte.byte) (exp : Z) : option Byte.byte :=
  if exp =? 0 then Some r
  else match fuel with
       | O => None
       | S fuel =>
           let r := if Z.land exp 1 =? 0 then r else gf256_mul r a in
           gf_pow_loop fuel r (gf256_mul a a) (Z.shiftr exp 1)
       end.

(** Eight turns use up an exponent of eight bits. *)
Definition gf256_pow (a : Byte.byte) (exp : Z) : Byte.byte :=
  default Byte.x00 (gf_pow_loop 8 Byte.x01 a exp).

Definition gf256_inv (a : Byte.byte) : Byte.byte := gf256_pow a 254.

(** [out\[k\] ^= v\[k\] * c] *)
Definition add_scaled (out v : bytes) (c : Byte.byte) : bytes :=
  zip_with (fun o y => byte.xor o (gf256_mul y c)) out v.

(** The products over all indexes but [i]. *)
Definition lagrange_products (target_x : Byte.byte) (xs : bytes) (i : nat) : Byte.byte * Byte.byte :=
  foldl (fun '(num, den) j =>
           if (j =? i)%nat then (num, den)
           else (gf256_mul num (byte.xor target_x (nth j xs Byte.x00)),
                 gf256_mul den (byte.xor (nth i xs Byte.x00) (nth j xs Byte.x00))))
    (Byte.x01, Byte.x01) (seq 0 (length xs)).

Definition lagrange_step (target_x : Byte.byte) (xs : bytes) (ys : list bytes)
    (out : option bytes) (i : nat) : option bytes :=
  out ← out;
  let '(num, den) := lagrange_products target_x xs i in
  if byte_eqb den Byte.x00 then None
  else Some (add_scaled out (nth i ys []) (gf256_mul num (gf256_inv den))).

(** [ys]: the vectors, one for each of [xs]; [None] is the result -1. *)
Definition gf256_lagrange (target_x : Byte.byte) (xs : bytes) (ys : list bytes) (ylen : nat) :
    option bytes :=
  match list_find (fun x => x = target_x) xs with
  | Some (i, _) => Some (nth i ys [])
  | None => foldl (lagrange_step target_x xs ys) (Some (zeros ylen)) (seq 0 (length xs))
  end.

(** ** A field *)

(** Statements about all bytes, by evaluation. *)
Definition all_bytes : bytes := (fun i => byte.of_Z (Z.of_nat i)) <$> seq 0 256.

Lemma elem_of_all_bytes b : b ∈ all_bytes.
Proof.
  apply list_elem_of_fmap. exists (Z.to_nat (byte.unsigned b)).
  pose proof (byte_range b) as Hb. unfold urange in Hb.
  rewrite Z2Nat.id by lia. split; [by rewrite byte.of_Z_unsigned|]. apply elem_of_seq. lia.
Qed.

Lemma bytes_all (P : Byte.byte -> bool) : forallb P all_bytes = true -> forall b, P b = true.
Proof. intros H b. eapply forallb_forall in H; [exact H|]. apply list_elem_of_In, elem_of_all_bytes. Qed.

Lemma bytes_all2 (P : Byte.byte -> Byte.byte -> bool) :
  forallb (fun a => forallb (P a) all_bytes) all_bytes = true -> forall a b, P a b = true.
Proof. intros H a b. apply (bytes_all (P a)). by apply (bytes_all (fun a => forallb (P a) all_bytes)). Qed.

Abbreviation gf := Byte.byte (only parsing).
Abbreviation gadd := byte.xor.
Abbreviation gmul := gf256_mul.
Abbreviation g0 := Byte.x00.
Abbreviation g1 := Byte.x01.

Lemma byte_eqb_eq a b : byte_eqb a b = true <-> a = b.
Proof. unfold byte_eqb. split; [apply Byte.byte_dec_bl|apply Byte.byte_dec_lb]. Qed.

Lemma unsigned_xor a b : byte.unsigned (gadd a b) = Z.lxor (byte.unsigned a) (byte.unsigned b).
Proof. unfold byte.xor. rewrite byte_unsigned_of_Z. apply wrap_small, lxor_range; [lia|apply byte_range..]. Qed.

Lemma gadd_comm a b : gadd a b = gadd b a.
Proof. apply byte.unsigned_inj. rewrite !unsigned_xor. apply Z.lxor_comm. Qed.

Lemma gadd_assoc a b c : gadd a (gadd b c) = gadd (gadd a b) c.
Proof. apply byte.unsigned_inj. rewrite !unsigned_xor. by rewrite Z.lxor_assoc. Qed.

Lemma gadd_0 a : gadd g0 a = a.
Proof. apply byte.unsigned_inj. rewrite !unsigned_xor. apply Z.lxor_0_l. Qed.

Lemma gadd_self a : gadd a a = g0.
Proof. apply byte.unsigned_inj. rewrite !unsigned_xor. apply Z.lxor_nilpotent. Qed.

Lemma gadd_eq_0 a b : gadd a b = g0 <-> a = b.
Proof.
  split; [|intros ->; apply gadd_self]. intros H.
  rewrite <- (gadd_0 b), <- H, <- gadd_assoc, gadd_self, gadd_comm. by rewrite gadd_0.
Qed.

(** *** Multiplication is bilinear *)

Definition xtime (a : Z) : Z :=
  let a' := u8 (Z.shiftl a 1) in if Z.land a 0x80 =? 0 then a' else Z.lxor a' 0x1B.

(** What [n] turns of the loop add to the result. *)
Fixpoint gf_sum (n : nat) (a b : Z) : Z :=
  match n with
  | O => 0
  | S n => Z.lxor (if Z.odd b then a else 0) (gf_sum n (xtime a) (Z.shiftr b 1))
  end.

Lemma gf_step_sum n r a b : (Nat.iter n gf_step (r, a, b)).1.1 = Z.lxor r (gf_sum n a b).
Proof.
  revert r a b. induction n as [|n IH]; intros r a b; [cbn; by rewrite Z.lxor_0_r|].
  rewrite Nat.iter_succ_r. cbn [gf_step]. rewrite IH. cbn [gf_sum].
  assert (Z.land b 1 = if Z.odd b then 1 else 0) as ->.
  { change 1 with (Z.ones 1) at 1. rewrite Z.land_ones, Z.pow_1_r by lia. apply Zmod_odd. }
  change (xtime a) with (let a' := u8 (Z.shiftl a 1) in if Z.land a 0x80 =? 0 then a' else Z.lxor a' 0x1B).
  destruct (Z.odd b); cbn [Z.eqb]; [by rewrite Z.lxor_assoc|by rewrite Z.lxor_0_l].
Qed.

Lemma xtime_range a : urange 8 (xtime a).
Proof.
  unfold xtime. pose proof (wrap_range 8 (Z.shiftl a 1) ltac:(lia)).
  destruct (_ =? 0); [done|]. by apply lxor_range.
Qed.

Lemma gf_sum_range n a b : urange 8 a -> urange 8 (gf_sum n a b).
Proof.
  revert a b. induction n as [|n IH]; intros a b Ha; [done|]. cbn [gf_sum].
  apply lxor_range; [lia|by destruct (Z.odd b)|]. apply IH, xtime_range.
Qed.

Lemma gmul_sum a b : byte.unsigned (gmul a b) = gf_sum 8 (byte.unsigned a) (byte.unsigned b).
Proof.
  unfold gf256_mul. pose proof (gf_step_sum 8 0 (byte.unsigned a) (byte.unsigned b)) as H.
  destruct (Nat.iter 8 gf_step _) as [[r x] y]. cbn [fst] in H.
  rewrite byte_unsigned_of_Z, H, Z.lxor_0_l. apply wrap_small, gf_sum_range, byte_range.
Qed.

Lemma hi_bit a : (Z.land (byte.unsigned a) 0x80 =? 0) = negb (Z.testbit (byte.unsigned a) 7).
Proof.
  apply eqb_true_iff. apply (bytes_all (fun a => eqb (Z.land (byte.unsigned a) 0x80 =? 0) (negb (Z.testbit (byte.unsigned a) 7)))).
  vm_compute. reflexivity.
Qed.

Lemma xtime_xor a b :
  xtime (byte.unsigned (gadd a b)) = Z.lxor (xtime (byte.unsigned a)) (xtime (byte.unsigned b)).
Proof.
  unfold xtime. rewrite !hi_bit, !unsigned_xor, Z.lxor_spec, Z.shiftl_lxor.
  assert (forall x y, u8 (Z.lxor x y) = Z.lxor (u8 x) (u8 y)) as ->.
  { intros x y. rewrite !wrap_land by lia. apply Z.bits_inj'. intros n Hn.
    rewrite !Z.land_spec, !Z.lxor_spec, !Z.land_spec.
    by destruct (Z.testbit x n), (Z.testbit y n), (Z.testbit (Z.ones 8) n). }
  set (x := u8 _). set (y := u8 _).
  destruct (Z.testbit (byte.unsigned a) 7), (Z.testbit (byte.unsigned b) 7); cbn [xorb negb]; try done.
  - rewrite Z.lxor_assoc, (Z.lxor_comm 0x1B), Z.lxor_assoc, Z.lxor_nilpotent. by rewrite Z.lxor_0_r.
  - rewrite !Z.lxor_assoc. f_equal. apply Z.lxor_comm.
  - by rewrite Z.lxor_assoc.
Qed.

Lemma gmul_add_r a b c : gmul a (gadd b c) = gadd (gmul a b) (gmul a c).
Proof.
  apply byte.unsigned_inj. rewrite !unsigned_xor, !gmul_sum, unsigned_xor.
  generalize (byte.unsigned a) (byte.unsigned b) (byte.unsigned c). clear. intros a b c.
  revert a b c. generalize 8%nat. induction n as [|n IH]; intros a b c; [done|]. cbn [gf_sum].
  rewrite Z.shiftr_lxor, IH, <- !Z.bit0_odd, Z.lxor_spec.
  generalize (gf_sum n (xtime a) (Z.shiftr b 1)) (gf_sum n (xtime a) (Z.shiftr c 1)). intros x y.
  apply Z.bits_inj'. intros k Hk. rewrite !Z.lxor_spec.
  destruct (Z.testbit b 0), (Z.testbit c 0); cbn [xorb]; rewrite ?Z.bits_0;
    by destruct (Z.testbit a k), (Z.testbit x k), (Z.testbit y k).
Qed.

Lemma gmul_add_l a b c : gmul (gadd a b) c = gadd (gmul a c) (gmul b c).
Proof.
  apply byte.unsigned_inj. rewrite !unsigned_xor, !gmul_sum.
  generalize (byte.unsigned c). clear c. revert a b. generalize 8%nat.
  induction n as [|n IH]; intros a b c; [done|]. cbn [gf_sum].
  pose proof (xtime_range (byte.unsigned a)) as Ha. pose proof (xtime_range (byte.unsigned b)) as Hb.
  assert (forall x, urange 8 (xtime x) -> xtime x = byte.unsigned (byte.of_Z (xtime x))) as E.
  { intros x Hx. by rewrite byte_unsigned_of_Z, wrap_small. }
  assert (xtime (byte.unsigned (gadd a b)) =
    byte.unsigned (gadd (byte.of_Z (xtime (byte.unsigned a))) (byte.of_Z (xtime (byte.unsigned b))))) as ->.
  { by rewrite xtime_xor, unsigned_xor, <- !E. }
  rewrite IH, <- !E, unsigned_xor by done.
  generalize (gf_sum n (xtime (byte.unsigned a)) (Z.shiftr c 1)) (gf_sum n (xtime (byte.unsigned b)) (Z.shiftr c 1)).
  intros x y. destruct (Z.odd c); apply Z.bits_inj'; intros k Hk; rewrite !Z.lxor_spec, ?Z.bits_0;
    by destruct (Z.testbit (byte.unsigned a) k), (Z.testbit (byte.unsigned b) k), (Z.testbit x k), (Z.testbit y k).
Qed.

(** What holds for the powers of two and for sums holds for all bytes. *)
Definition basis : bytes := (fun i => byte.of_Z (2 ^ Z.of_nat i)) <$> seq 0 8.
Definition basis_of (b : Byte.byte) : bytes :=
  (fun i => byte.of_Z (2 ^ Z.of_nat i)) <$> List.filter (fun i => Z.testbit (byte.unsigned b) (Z.of_nat i)) (seq 0 8).

Lemma basis_sum b : b = foldr gadd g0 (basis_of b).
Proof.
  apply byte_eqb_eq. apply (bytes_all (fun b => byte_eqb b (foldr gadd g0 (basis_of b)))). vm_compute. reflexivity.
Qed.

Lemma basis_of_basis b x : x ∈ basis_of b -> x ∈ basis.
Proof.
  intros (i & -> & Hi)%list_elem_of_fmap. apply list_elem_of_fmap. exists i. split; [done|].
  apply list_elem_of_In in Hi. apply filter_In in Hi as [Hi _]. by apply list_elem_of_In.
Qed.

Lemma basis_ind (P : Byte.byte -> Prop) :
  P g0 -> (forall b, b ∈ basis -> P b) -> (forall a b, P a -> P b -> P (gadd a b)) -> forall b, P b.
Proof.
  intros H0 Hb Hadd b. rewrite (basis_sum b). pose proof (basis_of_basis b) as H. revert H.
  generalize (basis_of b). intros l Hl.
  induction l as [|x l IH]; [done|]. cbn [foldr]. apply Hadd.
  - apply Hb, Hl. left.
  - apply IH. intros y Hy. apply Hl. by right.
Qed.

Lemma gmul_0_r a : gmul a g0 = g0.
Proof. rewrite <- (gadd_self g0), gmul_add_r. apply gadd_self. Qed.

Lemma gmul_0_l a : gmul g0 a = g0.
Proof. rewrite <- (gadd_self g0), gmul_add_l. apply gadd_self. Qed.

Lemma basis_all (P : Byte.byte -> bool) : forallb P basis = true -> forall b, b ∈ basis -> P b = true.
Proof. intros H b Hb. eapply forallb_forall in H; [exact H|]. by apply list_elem_of_In. Qed.

Lemma gmul_comm a b : gmul a b = gmul b a.
Proof.
  revert b. apply (basis_ind (fun b => gmul a b = gmul b a)).
  - by rewrite gmul_0_r, gmul_0_l.
  - intros b Hb. revert a. apply (basis_ind (fun a => gmul a b = gmul b a)).
    + by rewrite gmul_0_r, gmul_0_l.
    + intros a Ha. apply byte_eqb_eq. revert b Hb. apply basis_all. revert a Ha.
      apply (basis_all (fun a => forallb (fun b => byte_eqb (gmul a b) (gmul b a)) basis)).
      vm_compute. reflexivity.
    + intros x y Hx Hy. by rewrite gmul_add_l, gmul_add_r, Hx, Hy.
  - intros x y Hx Hy. by rewrite gmul_add_l, gmul_add_r, Hx, Hy.
Qed.

Lemma gmul_assoc a b c : gmul a (gmul b c) = gmul (gmul a b) c.
Proof.
  revert c. apply (basis_ind (fun c => gmul a (gmul b c) = gmul (gmul a b) c)).
  { by rewrite !gmul_0_r. }
  2:{ intros x y Hx Hy. by rewrite !gmul_add_r, Hx, Hy. }
  intros c Hc. revert b. apply (basis_ind (fun b => gmul a (gmul b c) = gmul (gmul a b) c)).
  { by rewrite gmul_0_r, !gmul_0_l, gmul_0_r. }
  2:{ intros x y Hx Hy. by rewrite gmul_add_l, !gmul_add_r, gmul_add_l, Hx, Hy. }
  intros b Hb. revert a. apply (basis_ind (fun a => gmul a (gmul b c) = gmul (gmul a b) c)).
  { by rewrite !gmul_0_l. }
  2:{ intros x y Hx Hy. by rewrite !gmul_add_l, Hx, Hy. }
  intros a Ha. apply byte_eqb_eq. revert c Hc. apply basis_all. revert b Hb.
  apply (basis_all (fun b => forallb (fun c => byte_eqb (gmul a (gmul b c)) (gmul (gmul a b) c)) basis)).
  revert a Ha.
  apply (basis_all (fun a => forallb (fun b => forallb (fun c => byte_eqb (gmul a (gmul b c)) (gmul (gmul a b) c)) basis) basis)).
  vm_compute. reflexivity.
Qed.

Lemma gmul_1 a : gmul g1 a = a.
Proof. apply byte_eqb_eq. apply (bytes_all (fun a => byte_eqb (gmul g1 a) a)). vm_compute. reflexivity. Qed.

Lemma gmul_inv a : a <> g0 -> gmul a (gf256_inv a) = g1.
Proof.
  intros Ha. assert (byte_eqb a g0 || byte_eqb (gmul a (gf256_inv a)) g1 = true) as H.
  { apply (bytes_all (fun a => byte_eqb a g0 || byte_eqb (gmul a (gf256_inv a)) g1)). vm_compute. reflexivity. }
  apply orb_true_iff in H as [H|H]; by apply byte_eqb_eq in H.
Qed.

Lemma gf_ring : ring_theory g0 g1 gadd gmul gadd (fun x => x) eq.
Proof.
  split; intros.
  - apply gadd_0.
  - apply gadd_comm.
  - apply gadd_assoc.
  - apply gmul_1.
  - apply gmul_comm.
  - apply gmul_assoc.
  - apply gmul_add_l.
  - done.
  - apply gadd_self.
Qed.

#[local] Opaque gf256_mul gf256_inv byte.xor.

Add Ring gf256 : gf_ring.

Lemma gmul_integral a b : gmul a b = g0 -> a = g0 \/ b = g0.
Proof.
  intros H. destruct (decide (a = g0)) as [|Ha]; [by left|right].
  rewrite <- (gmul_1 b), <- (gmul_inv a Ha). transitivity (gmul (gf256_inv a) (gmul a b)); [ring|].
  rewrite H. apply gmul_0_r.
Qed.

(** ** Polynomials *)

(** Coefficients, the constant one first. *)
Definition eval (p : bytes) (x : Byte.byte) : Byte.byte := foldr (fun c v => gadd c (gmul x v)) g0 p.

Lemma eval_cons c p x : eval (c :: p) x = gadd c (gmul x (eval p x)).
Proof. done. Qed.

#[local] Arguments eval : simpl never.

(** [f] is a polynomial with [n] coefficients. *)
Definition poly_fun (n : nat) (f : Byte.byte -> Byte.byte) : Prop :=
  exists p, length p = n /\ forall x, f x = eval p x.

Lemma poly_fun_ext n f g : (forall x, f x = g x) -> poly_fun n f -> poly_fun n g.
Proof. intros E (p & Hl & H). exists p. split; [done|]. intros x. by rewrite <- E. Qed.

Lemma eval_zeros n x : eval (replicate n g0) x = g0.
Proof. induction n as [|n IH]; [done|]. cbn [replicate]. rewrite eval_cons, IH. ring. Qed.

Lemma poly_fun_zero n : poly_fun n (fun _ => g0).
Proof. exists (replicate n g0). split; [apply length_replicate|]. intros x. by rewrite eval_zeros. Qed.

Lemma poly_fun_const c : poly_fun 1 (fun _ => c).
Proof. exists [c]. split; [done|]. intros x. rewrite eval_cons. change (eval [] x) with g0. ring. Qed.

Lemma poly_fun_scale n c f : poly_fun n f -> poly_fun n (fun x => gmul c (f x)).
Proof.
  intros (p & <- & H). exists (gmul c <$> p). split; [apply length_fmap|]. intros x. rewrite H. clear H.
  induction p as [|a p IH]; [apply gmul_0_r|]. rewrite fmap_cons, !eval_cons, <- IH. ring.
Qed.

Lemma poly_fun_add n f g : poly_fun n f -> poly_fun n g -> poly_fun n (fun x => gadd (f x) (g x)).
Proof.
  intros (p & Hp & Hf) (q & Hq & Hg). exists (zip_with gadd p q). split; [rewrite length_zip_with; lia|].
  intros x. rewrite Hf, Hg. clear Hf Hg. revert p q Hp Hq.
  induction n as [|n IH]; intros [|a p] [|b q] Hp Hq; try done.
  cbn [zip_with]. rewrite !eval_cons, <- (IH p q) by (cbn [length] in *; lia). ring.
Qed.

(** Multiplying by [x + c]. *)
Lemma poly_fun_root n c f : poly_fun n f -> poly_fun (S n) (fun x => gmul (f x) (gadd x c)).
Proof.
  intros Hf. apply (poly_fun_ext _ (fun x => gadd (gmul x (f x)) (gmul c (f x)))); [intros x; ring|].
  apply poly_fun_add.
  - destruct Hf as (p & <- & H). exists (g0 :: p). split; [done|]. intros x. rewrite H, eval_cons. ring.
  - apply poly_fun_scale. destruct Hf as (p & <- & H). exists (p ++ [g0]). split; [rewrite length_app; cbn; lia|].
    intros x. rewrite H. clear H. induction p as [|a p IH]; cbn [app]; rewrite !eval_cons.
    + change (eval [] x) with g0. ring.
    + by rewrite IH.
Qed.

(** Taking a value off leaves a factor. *)
Lemma eval_factor p a :
  p <> [] -> exists q, S (length q) = length p /\
    forall x, eval p x = gadd (eval p a) (gmul (gadd x a) (eval q x)).
Proof.
  induction p as [|c p IH]; intros Hne; [done|]. destruct p as [|c' p'].
  { exists []. split; [done|]. intros x. rewrite !eval_cons. change (eval [] ?y) with g0. ring. }
  destruct (IH ltac:(done)) as (q & Hq & H). set (p := c' :: p') in *. exists (eval p a :: q).
  split; [cbn [length]; lia|]. intros x. rewrite !eval_cons.
  rewrite (H x). set (e := eval p a). set (v := eval q x).
  assert (gmul a e = gadd (gmul a e) (gadd (gmul x e) (gmul x e))) as E by (rewrite gadd_self, gadd_comm; symmetry; apply gadd_0).
  transitivity (gadd (gadd c (gadd (gmul a e) (gmul a e))) (gadd (gmul x e) (gmul (gmul x (gadd x a)) v))); [|ring].
  rewrite gadd_self. ring.
Qed.

Lemma poly_vanishes p xs :
  NoDup xs -> length p = length xs -> (forall x, x ∈ xs -> eval p x = g0) -> forall x, eval p x = g0.
Proof.
  revert p. induction xs as [|a xs IH]; intros p Hnd Hl Hz x; [by destruct p|].
  apply NoDup_cons in Hnd as [Ha Hnd].
  destruct (eval_factor p a) as (q & Hq & H); [by intros ->|]. rewrite H, (Hz a) by left.
  rewrite (IH q); [|done|cbn [length] in Hl; lia|].
  { rewrite gmul_0_r. apply gadd_0. }
  intros y Hy. specialize (H y). rewrite (Hz y), (Hz a), gadd_0 in H by first [by left | by right].
  symmetry in H. apply gmul_integral in H as [H|H]; [|done]. apply (proj1 (gadd_eq_0 _ _)) in H. rewrite H in Hy. by destruct (Ha Hy).
Qed.

(** A polynomial is determined by as many values as it has coefficients. *)
Lemma poly_fun_unique xs f g :
  NoDup xs -> poly_fun (length xs) f -> poly_fun (length xs) g ->
  (forall x, x ∈ xs -> f x = g x) -> forall x, f x = g x.
Proof.
  intros Hnd Hf Hg E x. destruct (poly_fun_add _ _ _ Hf Hg) as (p & Hl & H).
  apply gadd_eq_0. rewrite H. apply (poly_vanishes p xs); [done|done|].
  intros y Hy. by rewrite <- H, E, gadd_self.
Qed.

(** ** Interpolation *)

Definition others (n i : nat) : list nat := List.filter (fun j => negb (j =? i)%nat) (seq 0 n).

Definition num (t : Byte.byte) (xs : bytes) (i : nat) : Byte.byte :=
  foldl (fun v j => gmul v (gadd t (nth j xs g0))) g1 (others (length xs) i).

Lemma lagrange_products_spec t xs i :
  lagrange_products t xs i = (num t xs i, num (nth i xs g0) xs i).
Proof.
  unfold lagrange_products, num, others.
  assert (forall l a b, foldl (fun '(num, den) j => if (j =? i)%nat then (num, den) else
      (gmul num (gadd t (nth j xs g0)), gmul den (gadd (nth i xs g0) (nth j xs g0)))) (a, b) l =
    (foldl (fun v j => gmul v (gadd t (nth j xs g0))) a (List.filter (fun j => negb (j =? i)%nat) l),
     foldl (fun v j => gmul v (gadd (nth i xs g0) (nth j xs g0))) b (List.filter (fun j => negb (j =? i)%nat) l))) as H.
  { induction l as [|j l IH]; intros a b; [done|]. cbn [foldl List.filter].
    destruct (j =? i)%nat; cbn [negb]; apply IH. }
  apply H.
Qed.

Lemma elem_of_others n i j : j ∈ others n i <-> (j < n)%nat /\ j <> i.
Proof.
  unfold others. rewrite list_elem_of_In, filter_In, <- list_elem_of_In, elem_of_seq, negb_true_iff, Nat.eqb_neq. lia.
Qed.

Lemma length_others n i : (i < n)%nat -> S (length (others n i)) = n.
Proof.
  intros Hi. assert (i :: others n i ≡ₚ seq 0 n) as Hp.
  { apply NoDup_Permutation; [apply NoDup_cons; split; [rewrite elem_of_others; lia|]| |].
    - unfold others. apply NoDup_ListNoDup, List.NoDup_filter, NoDup_ListNoDup, NoDup_seq.
    - apply NoDup_seq.
    - intros j. rewrite elem_of_cons, elem_of_others, elem_of_seq. lia. }
  apply Permutation_length in Hp. by rewrite length_seq in Hp.
Qed.

Lemma num_poly xs i : (i < length xs)%nat -> poly_fun (length xs) (fun t => num t xs i).
Proof.
  intros Hi. rewrite <- (length_others (length xs) i Hi) at 1. unfold num.
  assert (forall l k f, poly_fun k f ->
    poly_fun (length l + k) (fun t => foldl (fun v j => gmul v (gadd t (nth j xs g0))) (f t) l)) as H.
  { induction l as [|j l IH]; intros k f Hf; [done|]. cbn [length foldl].
    replace (S (length l) + k)%nat with (length l + S k)%nat by lia.
    apply (IH _ (fun t => gmul (f t) (gadd t (nth j xs g0)))). by apply poly_fun_root. }
  specialize (H (others (length xs) i) 1%nat (fun _ => g1) (poly_fun_const g1)).
  by rewrite Nat.add_1_r in H.
Qed.

Lemma foldl_mul_zero t xs l v :
  foldl (fun v j => gmul v (gadd t (nth j xs g0))) v l = g0 <-> v = g0 \/ exists j, j ∈ l /\ nth j xs g0 = t.
Proof.
  revert v. induction l as [|j l IH]; intros v; cbn [foldl].
  { split; [by left|]. intros [H|(j & H & _)]; [done|by apply not_elem_of_nil in H]. }
  rewrite IH. split.
  - intros [H|(k & Hk & E)]; [|right; exists k; split; [by right|done]].
    apply gmul_integral in H as [H|H]; [by left|right]. apply (proj1 (gadd_eq_0 _ _)) in H. exists j. split; [left|done].
  - intros [->|(k & Hk & E)]; [left; apply gmul_0_l|]. apply elem_of_cons in Hk as [->|Hk].
    + left. rewrite E, gadd_self. apply gmul_0_r.
    + right. by exists k.
Qed.

Lemma num_zero t xs i : num t xs i = g0 <-> exists j, (j < length xs)%nat /\ j <> i /\ nth j xs g0 = t.
Proof.
  unfold num. rewrite foldl_mul_zero. split.
  - intros [H|(j & Hj%elem_of_others & E)]; [done|]. exists j. tauto.
  - intros (j & Hj & Hi & E). right. exists j. rewrite elem_of_others. tauto.
Qed.

Lemma den_nonzero xs i : NoDup xs -> (i < length xs)%nat -> num (nth i xs g0) xs i <> g0.
Proof.
  intros Hnd Hi (j & Hj & Hne & E)%num_zero. apply Hne.
  apply NoDup_ListNoDup in Hnd. eapply NoDup_nth; [exact Hnd|done..].
Qed.

(** *** One coordinate *)

Definition lagrange_term (t : Byte.byte) (xs y : bytes) (i : nat) : Byte.byte :=
  gmul (nth i y g0) (gmul (num t xs i) (gf256_inv (num (nth i xs g0) xs i))).

Definition lagrange_sum (t : Byte.byte) (xs y : bytes) (v : Byte.byte) (l : list nat) : Byte.byte :=
  foldl (fun v i => gadd v (lagrange_term t xs y i)) v l.

Lemma lagrange_sum_poly xs y l :
  Forall (fun i => (i < length xs)%nat) l ->
  poly_fun (length xs) (fun t => lagrange_sum t xs y g0 l).
Proof.
  intros Hl. assert (forall f, poly_fun (length xs) f -> poly_fun (length xs) (fun t => lagrange_sum t xs y (f t) l)) as H.
  { induction Hl as [|i l Hi Hl IH]; intros f Hf; [done|]. cbn [lagrange_sum foldl].
    apply (IH (fun t => gadd (f t) (lagrange_term t xs y i))). apply poly_fun_add; [done|].
    apply (poly_fun_ext _ (fun t => gmul (gmul (nth i y g0) (gf256_inv (num (nth i xs g0) xs i))) (num t xs i))).
    - intros t. unfold lagrange_term. ring.
    - by apply poly_fun_scale, num_poly. }
  apply (H (fun _ => g0)), poly_fun_zero.
Qed.

Lemma lagrange_sum_zero t xs y v l :
  (forall i, i ∈ l -> lagrange_term t xs y i = g0) -> lagrange_sum t xs y v l = v.
Proof.
  revert v. induction l as [|i l IH]; intros v H; [done|]. cbn [lagrange_sum foldl].
  rewrite (H i) by left. rewrite gadd_comm, gadd_0. apply IH. intros j Hj. apply H. by right.
Qed.

(** At one of the points every other term vanishes. *)
Lemma lagrange_sum_node xs y m :
  NoDup xs -> (m < length xs)%nat ->
  lagrange_sum (nth m xs g0) xs y g0 (seq 0 (length xs)) = nth m y g0.
Proof.
  intros Hnd Hm. assert (forall i, (i < length xs)%nat -> i <> m -> lagrange_term (nth m xs g0) xs y i = g0) as Hz.
  { intros i Hi Hne. unfold lagrange_term. rewrite (proj2 (num_zero _ xs i)); [by rewrite gmul_0_l, gmul_0_r|].
    exists m. done. }
  replace (length xs) with (m + (1 + (length xs - m - 1)))%nat by lia. rewrite !seq_app.
  unfold lagrange_sum. rewrite !foldl_app.
  fold (lagrange_sum (nth m xs g0) xs y g0 (seq 0 m)). rewrite lagrange_sum_zero.
  2:{ intros i Hi%elem_of_seq. apply Hz; lia. }
  cbn [seq foldl Nat.add]. fold (lagrange_sum (nth m xs g0) xs y (gadd g0 (lagrange_term (nth m xs g0) xs y m)) (seq (m + 1) (length xs - m - 1))).
  rewrite lagrange_sum_zero.
  2:{ intros i Hi%elem_of_seq. apply Hz; lia. }
  rewrite gadd_0. unfold lagrange_term. rewrite gmul_inv by by apply den_nonzero. ring.
Qed.

(** *** Vectors *)

(** A vector of [ylen] polynomials with [n] coefficients. *)
Definition vec_poly (n ylen : nat) (g : Byte.byte -> bytes) : Prop :=
  (forall x, length (g x) = ylen) /\ forall k, (k < ylen)%nat -> poly_fun n (fun x => nth k (g x) g0).

Lemma nth_zip_with (f : Byte.byte -> Byte.byte -> Byte.byte) a b k :
  (k < length a)%nat -> length a = length b ->
  nth k (zip_with f a b) g0 = f (nth k a g0) (nth k b g0).
Proof.
  intros Hk Hl. destruct (lookup_lt_is_Some_2 a k Hk) as [x Hx].
  destruct (lookup_lt_is_Some_2 b k ltac:(lia)) as [y Hy].
  rewrite (nth_lookup_Some _ _ _ _ Hx), (nth_lookup_Some _ _ _ _ Hy). apply nth_lookup_Some.
  by rewrite lookup_zip_with, Hx, Hy.
Qed.

Lemma lagrange_fold t xs ys ylen l out :
  NoDup xs -> length ys = length xs -> Forall (fun v => length v = ylen) ys ->
  Forall (fun i => (i < length xs)%nat) l -> length out = ylen ->
  exists out', foldl (lagrange_step t xs ys) (Some out) l = Some out' /\ length out' = ylen /\
    forall k, (k < ylen)%nat -> nth k out' g0 = lagrange_sum t xs ((fun v => nth k v g0) <$> ys) (nth k out g0) l.
Proof.
  intros Hnd Hlen Hys Hl. revert out. induction Hl as [|i l Hi Hl IH]; intros out Ho.
  { exists out. split_and!; [done|done|]. by intros. }
  cbn [foldl lagrange_step mbind option_bind]. rewrite lagrange_products_spec.
  destruct (byte_eqb (num (nth i xs g0) xs i) g0) eqn:E.
  { apply byte_eqb_eq in E. by destruct (den_nonzero xs i Hnd Hi). }
  destruct (lookup_lt_is_Some_2 ys i ltac:(lia)) as [v Hv].
  assert (length v = ylen) as Hlv by (eapply Forall_lookup_1 in Hys; [exact Hys|done]).
  rewrite (nth_lookup_Some _ _ _ _ Hv).
  destruct (IH (add_scaled out v (gmul (num t xs i) (gf256_inv (num (nth i xs g0) xs i))))) as (out' & E' & Hl' & H').
  { unfold add_scaled. rewrite length_zip_with. lia. }
  exists out'. split_and!; [done|done|]. intros k Hk. rewrite H' by done. cbn [lagrange_sum foldl].
  unfold add_scaled. rewrite nth_zip_with by lia. unfold lagrange_term at 2.
  assert (nth i ((fun v => nth k v g0) <$> ys) g0 = nth k v g0) as ->; [|done].
  apply nth_lookup_Some. by rewrite list_lookup_fmap, Hv.
Qed.

Lemma bytes_ext (a b : bytes) :
  length a = length b -> (forall k, (k < length a)%nat -> nth k a g0 = nth k b g0) -> a = b.
Proof. intros Hl H. eapply nth_ext; [done|exact H]. Qed.

(** Interpolation through points of a polynomial gives the polynomial. *)
Lemma lagrange_poly t xs g ylen :
  NoDup xs -> vec_poly (length xs) ylen g -> gf256_lagrange t xs (g <$> xs) ylen = Some (g t).
Proof.
  intros Hnd [Hgl Hg]. unfold gf256_lagrange. destruct (list_find _ xs) as [[i x]|] eqn:E.
  { apply list_find_Some in E as (Hi & -> & _). f_equal. apply nth_lookup_Some. by rewrite list_lookup_fmap, Hi. }
  destruct (lagrange_fold t xs (g <$> xs) ylen (seq 0 (length xs)) (zeros ylen)) as (out & -> & Hl & H).
  - done.
  - apply length_fmap.
  - apply Forall_fmap, Forall_forall. intros x _. apply Hgl.
  - apply Forall_forall. intros i Hi%elem_of_seq. lia.
  - apply length_replicate.
  - f_equal. apply bytes_ext; [by rewrite Hgl|]. intros k Hk. rewrite H by lia.
    unfold zeros. rewrite nth_lookup, lookup_replicate_2 by lia. cbn [default from_option id].
    apply (poly_fun_unique xs (fun t => lagrange_sum t xs ((fun v => nth k v g0) <$> (g <$> xs)) g0 (seq 0 (length xs)))
             (fun t => nth k (g t) g0)); [done| |apply Hg; lia|].
    + apply lagrange_sum_poly, Forall_forall. intros i Hi%elem_of_seq. lia.
    + intros x (m & Hm)%list_elem_of_lookup. pose proof (lookup_lt_Some _ _ _ Hm) as Hlt.
      rewrite <- (nth_lookup_Some _ _ g0 _ Hm), lagrange_sum_node by done.
      apply nth_lookup_Some. by rewrite !list_lookup_fmap, Hm, (nth_lookup_Some _ _ _ _ Hm).
Qed.

(** Every choice of values is that of a polynomial. *)
Lemma lagrange_exists xs ys ylen :
  NoDup xs -> length ys = length xs -> Forall (fun v => length v = ylen) ys ->
  exists g, vec_poly (length xs) ylen g /\ g <$> xs = ys.
Proof.
  intros Hnd Hlen Hys.
  exists (fun t => (fun k => lagrange_sum t xs ((fun v => nth k v g0) <$> ys) g0 (seq 0 (length xs))) <$> seq 0 ylen).
  assert (forall t k, (k < ylen)%nat -> nth k ((fun k => lagrange_sum t xs ((fun v => nth k v g0) <$> ys) g0
    (seq 0 (length xs))) <$> seq 0 ylen) g0 = lagrange_sum t xs ((fun v => nth k v g0) <$> ys) g0 (seq 0 (length xs))) as Hn.
  { intros t k Hk. apply nth_lookup_Some. rewrite list_lookup_fmap, lookup_seq_lt by lia. done. }
  split; [split|].
  - intros x. by rewrite length_fmap, length_seq.
  - intros k Hk. eapply poly_fun_ext; [intros x; symmetry; by apply Hn|].
    apply lagrange_sum_poly, Forall_forall. intros i Hi%elem_of_seq. lia.
  - apply list_eq. intros m. rewrite list_lookup_fmap. destruct (xs !! m) as [x|] eqn:Hm.
    2:{ apply lookup_ge_None in Hm. symmetry. apply lookup_ge_None. lia. }
    pose proof (lookup_lt_Some _ _ _ Hm) as Hlt. destruct (lookup_lt_is_Some_2 ys m ltac:(lia)) as [v Hv].
    assert (length v = ylen) as Hlv by (eapply Forall_lookup_1 in Hys; [exact Hys|done]).
    rewrite Hv. cbn [fmap option_fmap option_map]. f_equal. apply bytes_ext; [by rewrite length_fmap, length_seq|].
    rewrite length_fmap, length_seq. intros k Hk. rewrite Hn by done.
    rewrite <- (nth_lookup_Some _ _ g0 _ Hm), lagrange_sum_node by done.
    apply nth_lookup_Some. by rewrite list_lookup_fmap, Hv.
Qed.

Lemma lagrange_duplicate t xs ys ylen i j :
  (i < j < length xs)%nat -> nth i xs g0 = nth j xs g0 -> t ∉ xs -> gf256_lagrange t xs ys ylen = None.
Proof.
  intros Hij E Ht. unfold gf256_lagrange. destruct (list_find _ xs) as [[k x]|] eqn:Ef.
  { apply list_find_Some in Ef as (Hk & -> & _). by apply list_elem_of_lookup_2 in Hk. }
  replace (length xs) with (i + (1 + (length xs - i - 1)))%nat by lia. rewrite !seq_app, !foldl_app.
  assert (forall l, foldl (lagrange_step t xs ys) None l = None) as Hn by (by induction l).
  destruct (foldl _ (Some (zeros ylen)) _) as [out|]; [|by rewrite !Hn].
  cbn [seq foldl Nat.add lagrange_step mbind option_bind]. rewrite lagrange_products_spec.
  assert (num (nth i xs g0) xs i = g0) as -> by (apply num_zero; exists j; split_and!; [lia|lia|done]).
  rewrite (proj2 (byte_eqb_eq g0 g0)) by done. apply Hn.
Qed.

(** Given vectors of bytes at distinct points, interpolation computes, for every argument,
    the value of the one vector of polynomials over the field of 256 elements that has one
    coefficient per point and takes the given values; a point given twice is refused. *)
Theorem lagrange_interpolates xs ys ylen :
  length ys = length xs -> Forall (fun v => length v = ylen) ys ->
  (NoDup xs -> exists g, vec_poly (length xs) ylen g /\ g <$> xs = ys /\
     (forall t, gf256_lagrange t xs ys ylen = Some (g t)) /\
     forall g', vec_poly (length xs) ylen g' -> g' <$> xs = ys -> forall t, g' t = g t) /\
  (forall t i j, (i < j < length xs)%nat -> nth i xs Byte.x00 = nth j xs Byte.x00 -> t ∉ xs ->
     gf256_lagrange t xs ys ylen = None).
Proof.
  intros Hlen Hys. split; [|intros t i j; apply lagrange_duplicate].
  intros Hnd. destruct (lagrange_exists xs ys ylen Hnd Hlen Hys) as (g & Hg & <-).
  exists g. split_and!; [done|done|intros t; by apply lagrange_poly|].
  intros g' Hg' E t. pose proof (lagrange_poly t xs g ylen Hnd Hg) as H.
  rewrite <- E, (lagrange_poly t xs g' ylen Hnd Hg') in H. by injection H.
Qed.

Lemma lagrange_interpolates_witness :
  exists g, g <$> [Byte.x00; Byte.x01] = [[Byte.x05]; [Byte.x09]] /\
    gf256_lagrange Byte.xff [Byte.x00; Byte.x01] [[Byte.x05]; [Byte.x09]] 1 = Some (g Byte.xff).
Proof.
  destruct (lagrange_interpolates [Byte.x00; Byte.x01] [[Byte.x05]; [Byte.x09]] 1 eq_refl
    ltac:(repeat constructor)) as [H _].
  destruct H as (g & _ & E & Hg & _); [|exists g; split; [exact E|exact (Hg Byte.xff)]].
  apply NoDup_cons. split; [|apply NoDup_singleton]. intros H. apply list_elem_of_singleton in H. discriminate.
Defined.
