(* ===== verification/Slip39Words.v ===== *)
(** * The words of shares ([src/src/slip0039_wordlist.h], [src/src/slip0039.c])

    The list of 1024 words, and the binary search for a word. *)

From Stdlib Require Import String.
From S2P Require Import Prelude.

Local Open Scope Z_scope.

Definition SLIP0039_WORDLIST_SIZE : Z := 1024.

Local Open Scope string_scope.

(** The table, as text. *)
Definition wordlist_text : list string := [
  "academic"; "acid"; "acne"; "acquire"; "acrobat"; "activity"; "actress"; "adapt";
  "adequate"; "adjust"; "admit"; "adorn"; "adult"; "advance"; "advocate"; "afraid";
  "again"; "agency"; "agree"; "aide"; "aircraft"; "airline"; "airport"; "ajar";
  "alarm"; "album"; "alcohol"; "alien"; "alive"; "alpha"; "already"; "alto";
  "aluminum"; "always"; "amazing"; "ambition"; "amount"; "amuse"; "analysis"; "anatomy";
  "ancestor"; "ancient"; "angel"; "angry"; "animal"; "answer"; "antenna"; "anxiety";
  "apart"; "aquatic"; "arcade"; "arena"; "argue"; "armed"; "artist"; "artwork";
  "aspect"; "auction"; "august"; "aunt"; "average"; "aviation"; "avoid"; "award";
  "away"; "axis"; "axle"; "beam"; "beard"; "beaver"; "become"; "bedroom";
  "behavior"; "being"; "believe"; "belong"; "benefit"; "best"; "beyond"; "bike";
  "biology"; "birthday"; "bishop"; "black"; "blanket"; "blessing"; "blimp"; "blind";
  "blue"; "body"; "bolt"; "boring"; "born"; "both"; "boundary"; "bracelet";
  "branch"; "brave"; "breathe"; "briefing"; "broken"; "brother"; "browser"; "bucket";
  "budget"; "building"; "bulb"; "bulge"; "bumpy"; "bundle"; "burden"; "burning";
  "busy"; "buyer"; "cage"; "calcium"; "camera"; "campus"; "canyon"; "capacity";
  "capital"; "capture"; "carbon"; "cards"; "careful"; "cargo"; "carpet"; "carve";
  "category"; "cause"; "ceiling"; "center"; "ceramic"; "champion"; "change"; "charity";
  "check"; "chemical"; "chest"; "chew"; "chubby"; "cinema"; "civil"; "class";
  "clay"; "cleanup"; "client"; "climate"; "clinic"; "clock"; "clogs"; "closet";
  "clothes"; "club"; "cluster"; "coal"; "coastal"; "coding"; "column"; "company";
  "corner"; "costume"; "counter"; "course"; "cover"; "cowboy"; "cradle"; "craft";
  "crazy"; "credit"; "cricket"; "criminal"; "crisis"; "critical"; "crowd"; "crucial";
  "crunch"; "crush"; "crystal"; "cubic"; "cultural"; "curious"; "curly"; "custody";
  "cylinder"; "daisy"; "damage"; "dance"; "darkness"; "database"; "daughter"; "deadline";
  "deal"; "debris"; "debut"; "decent"; "decision"; "declare"; "decorate"; "decrease";
  "deliver"; "demand"; "density"; "deny"; "depart"; "depend"; "depict"; "deploy";
  "describe"; "desert"; "desire"; "desktop"; "destroy"; "detailed"; "detect"; "device";
  "devote"; "diagnose"; "dictate"; "diet"; "dilemma"; "diminish"; "dining"; "diploma";
  "disaster"; "discuss"; "disease"; "dish"; "dismiss"; "display"; "distance"; "dive";
  "divorce"; "document"; "domain"; "domestic"; "dominant"; "dough"; "downtown"; "dragon";
  "dramatic"; "dream"; "dress"; "drift"; "drink"; "drove"; "drug"; "dryer";
  "duckling"; "duke"; "duration"; "dwarf"; "dynamic"; "early"; "earth"; "easel";
  "easy"; "echo"; "eclipse"; "ecology"; "edge"; "editor"; "educate"; "either";
  "elbow"; "elder"; "election"; "elegant"; "element"; "elephant"; "elevator"; "elite";
  "else"; "email"; "emerald"; "emission"; "emperor"; "emphasis"; "employer"; "empty";
  "ending"; "endless"; "endorse"; "enemy"; "energy"; "enforce"; "engage"; "enjoy";
  "enlarge"; "entrance"; "envelope"; "envy"; "epidemic"; "episode"; "equation"; "equip";
  "eraser"; "erode"; "escape"; "estate"; "estimate"; "evaluate"; "evening"; "evidence";
  "evil"; "evoke"; "exact"; "example"; "exceed"; "exchange"; "exclude"; "excuse";
  "execute"; "exercise"; "exhaust"; "exotic"; "expand"; "expect"; "explain"; "express";
  "extend"; "extra"; "eyebrow"; "facility"; "fact"; "failure"; "faint"; "fake";
  "false"; "family"; "famous"; "fancy"; "fangs"; "fantasy"; "fatal"; "fatigue";
  "favorite"; "fawn"; "fiber"; "fiction"; "filter"; "finance"; "findings"; "finger";
  "firefly"; "firm"; "fiscal"; "fishing"; "fitness"; "flame"; "flash"; "flavor";
  "flea"; "flexible"; "flip"; "float"; "floral"; "fluff"; "focus"; "forbid";
  "force"; "forecast"; "forget"; "formal"; "fortune"; "forward"; "founder"; "fraction";
  "fragment"; "frequent"; "freshman"; "friar"; "fridge"; "friendly"; "frost"; "froth";
  "frozen"; "fumes"; "funding"; "furl"; "fused"; "galaxy"; "game"; "garbage";
  "garden"; "garlic"; "gasoline"; "gather"; "general"; "genius"; "genre"; "genuine";
  "geology"; "gesture"; "glad"; "glance"; "glasses"; "glen"; "glimpse"; "goat";
  "golden"; "graduate"; "grant"; "grasp"; "gravity"; "gray"; "greatest"; "grief";
  "grill"; "grin"; "grocery"; "gross"; "group"; "grownup"; "grumpy"; "guard";
  "guest"; "guilt"; "guitar"; "gums"; "hairy"; "hamster"; "hand"; "hanger";
  "harvest"; "have"; "havoc"; "hawk"; "hazard"; "headset"; "health"; "hearing";
  "heat"; "helpful"; "herald"; "herd"; "hesitate"; "hobo"; "holiday"; "holy";
  "home"; "hormone"; "hospital"; "hour"; "huge"; "human"; "humidity"; "hunting";
  "husband"; "hush"; "husky"; "hybrid"; "idea"; "identify"; "idle"; "image";
  "impact"; "imply"; "improve"; "impulse"; "include"; "income"; "increase"; "index";
  "indicate"; "industry"; "infant"; "inform"; "inherit"; "injury"; "inmate"; "insect";
  "inside"; "install"; "intend"; "intimate"; "invasion"; "involve"; "iris"; "island";
  "isolate"; "item"; "ivory"; "jacket"; "jerky"; "jewelry"; "join"; "judicial";
  "juice"; "jump"; "junction"; "junior"; "junk"; "jury"; "justice"; "kernel";
  "keyboard"; "kidney"; "kind"; "kitchen"; "knife"; "knit"; "laden"; "ladle";
  "ladybug"; "lair"; "lamp"; "language"; "large"; "laser"; "laundry"; "lawsuit";
  "leader"; "leaf"; "learn"; "leaves"; "lecture"; "legal"; "legend"; "legs";
  "lend"; "length"; "level"; "liberty"; "library"; "license"; "lift"; "likely";
  "lilac"; "lily"; "lips"; "liquid"; "listen"; "literary"; "living"; "lizard";
  "loan"; "lobe"; "location"; "losing"; "loud"; "loyalty"; "luck"; "lunar";
  "lunch"; "lungs"; "luxury"; "lying"; "lyrics"; "machine"; "magazine"; "maiden";
  "mailman"; "main"; "makeup"; "making"; "mama"; "manager"; "mandate"; "mansion";
  "manual"; "marathon"; "march"; "market"; "marvel"; "mason"; "material"; "math";
  "maximum"; "mayor"; "meaning"; "medal"; "medical"; "member"; "memory"; "mental";
  "merchant"; "merit"; "method"; "metric"; "midst"; "mild"; "military"; "mineral";
  "minister"; "miracle"; "mixed"; "mixture"; "mobile"; "modern"; "modify"; "moisture";
  "moment"; "morning"; "mortgage"; "mother"; "mountain"; "mouse"; "move"; "much";
  "mule"; "multiple"; "muscle"; "museum"; "music"; "mustang"; "nail"; "national";
  "necklace"; "negative"; "nervous"; "network"; "news"; "nuclear"; "numb"; "numerous";
  "nylon"; "oasis"; "obesity"; "object"; "observe"; "obtain"; "ocean"; "often";
  "olympic"; "omit"; "oral"; "orange"; "orbit"; "order"; "ordinary"; "organize";
  "ounce"; "oven"; "overall"; "owner"; "paces"; "pacific"; "package"; "paid";
  "painting"; "pajamas"; "pancake"; "pants"; "papa"; "paper"; "parcel"; "parking";
  "party"; "patent"; "patrol"; "payment"; "payroll"; "peaceful"; "peanut"; "peasant";
  "pecan"; "penalty"; "pencil"; "percent"; "perfect"; "permit"; "petition"; "phantom";
  "pharmacy"; "photo"; "phrase"; "physics"; "pickup"; "picture"; "piece"; "pile";
  "pink"; "pipeline"; "pistol"; "pitch"; "plains"; "plan"; "plastic"; "platform";
  "playoff"; "pleasure"; "plot"; "plunge"; "practice"; "prayer"; "preach"; "predator";
  "pregnant"; "premium"; "prepare"; "presence"; "prevent"; "priest"; "primary"; "priority";
  "prisoner"; "privacy"; "prize"; "problem"; "process"; "profile"; "program"; "promise";
  "prospect"; "provide"; "prune"; "public"; "pulse"; "pumps"; "punish"; "puny";
  "pupal"; "purchase"; "purple"; "python"; "quantity"; "quarter"; "quick"; "quiet";
  "race"; "racism"; "radar"; "railroad"; "rainbow"; "raisin"; "random"; "ranked";
  "rapids"; "raspy"; "reaction"; "realize"; "rebound"; "rebuild"; "recall"; "receiver";
  "recover"; "regret"; "regular"; "reject"; "relate"; "remember"; "remind"; "remove";
  "render"; "repair"; "repeat"; "replace"; "require"; "rescue"; "research"; "resident";
  "response"; "result"; "retailer"; "retreat"; "reunion"; "revenue"; "review"; "reward";
  "rhyme"; "rhythm"; "rich"; "rival"; "river"; "robin"; "rocky"; "romantic";
  "romp"; "roster"; "round"; "royal"; "ruin"; "ruler"; "rumor"; "sack";
  "safari"; "salary"; "salon"; "salt"; "satisfy"; "satoshi"; "saver"; "says";
  "scandal"; "scared"; "scatter"; "scene"; "scholar"; "science"; "scout"; "scramble";
  "screw"; "script"; "scroll"; "seafood"; "season"; "secret"; "security"; "segment";
  "senior"; "shadow"; "shaft"; "shame"; "shaped"; "sharp"; "shelter"; "sheriff";
  "short"; "should"; "shrimp"; "sidewalk"; "silent"; "silver"; "similar"; "simple";
  "single"; "sister"; "skin"; "skunk"; "slap"; "slavery"; "sled"; "slice";
  "slim"; "slow"; "slush"; "smart"; "smear"; "smell"; "smirk"; "smith";
  "smoking"; "smug"; "snake"; "snapshot"; "sniff"; "society"; "software"; "soldier";
  "solution"; "soul"; "source"; "space"; "spark"; "speak"; "species"; "spelling";
  "spend"; "spew"; "spider"; "spill"; "spine"; "spirit"; "spit"; "spray";
  "sprinkle"; "square"; "squeeze"; "stadium"; "staff"; "standard"; "starting"; "station";
  "stay"; "steady"; "step"; "stick"; "stilt"; "story"; "strategy"; "strike";
  "style"; "subject"; "submit"; "sugar"; "suitable"; "sunlight"; "superior"; "surface";
  "surprise"; "survive"; "sweater"; "swimming"; "swing"; "switch"; "symbolic"; "sympathy";
  "syndrome"; "system"; "tackle"; "tactics"; "tadpole"; "talent"; "task"; "taste";
  "taught"; "taxi"; "teacher"; "teammate"; "teaspoon"; "temple"; "tenant"; "tendency";
  "tension"; "terminal"; "testify"; "texture"; "thank"; "that"; "theater"; "theory";
  "therapy"; "thorn"; "threaten"; "thumb"; "thunder"; "ticket"; "tidy"; "timber";
  "timely"; "ting"; "tofu"; "together"; "tolerate"; "total"; "toxic"; "tracks";
  "traffic"; "training"; "transfer"; "trash"; "traveler"; "treat"; "trend"; "trial";
  "tricycle"; "trip"; "triumph"; "trouble"; "true"; "trust"; "twice"; "twin";
  "type"; "typical"; "ugly"; "ultimate"; "umbrella"; "uncover"; "undergo"; "unfair";
  "unfold"; "unhappy"; "union"; "universe"; "unkind"; "unknown"; "unusual"; "unwrap";
  "upgrade"; "upstairs"; "username"; "usher"; "usual"; "valid"; "valuable"; "vampire";
  "vanish"; "various"; "vegan"; "velvet"; "venture"; "verdict"; "verify"; "very";
  "veteran"; "vexed"; "victim"; "video"; "view"; "vintage"; "violence"; "viral";
  "visitor"; "visual"; "vitamins"; "vocal"; "voice"; "volume"; "voter"; "voting";
  "walnut"; "warmth"; "warn"; "watch"; "wavy"; "wealthy"; "weapon"; "webcam";
  "welcome"; "welfare"; "western"; "width"; "wildlife"; "window"; "wine"; "wireless";
  "wisdom"; "withdraw"; "wits"; "wolf"; "woman"; "work"; "worthy"; "wrap";
  "wrist"; "writing"; "wrote"; "year"; "yelp"; "yield"; "yoga"; "zero"].

Local Close Scope string_scope.

Definition slip0039_wordlist : list bytes := list_byte_of_string <$> wordlist_text.

(** ** The search *)

Fixpoint strncmp (n : nat) (a b : bytes) : Z :=
  match n with
  | O => 0
  | S n =>
      let x := byte.unsigned (hd byte_zero a) in
      let d := x - byte.unsigned (hd byte_zero b) in
      if negb (d =? 0) then d else if x =? 0 then 0 else strncmp n (tl a) (tl b)
  end.

(** [while (lo <= hi)]; [None]: no fuel left. *)
Fixpoint word_search (fuel : nat) (word : bytes) (lo hi : Z) : option Z :=
  if hi <? lo then Some (-1)
  else match fuel with
       | O => None
       | S fuel =>
           let mid := lo + (hi - lo) / 2 in
           let m := nth (Z.to_nat mid) slip0039_wordlist [] in
           let cmp := strncmp (Nat.min (length m) (length word)) m word in
           let cmp := if (cmp =? 0) && negb (length m =? length word)%nat
                      then (if (length m <? length word)%nat then -1 else 1) else cmp in
           if cmp =? 0 then Some mid
           else if cmp <? 0 then word_search fuel word (mid + 1) hi
           else word_search fuel word lo (mid - 1)
       end.

(** Each turn halves the interval: eleven are enough for 1024 words. *)
Definition slip0039_word_to_index (word : bytes) : Z :=
  default (-1) (word_search 11 word 0 (SLIP0039_WORDLIST_SIZE - 1)).

(** ** Proofs *)

Lemma length_wordlist : length slip0039_wordlist = 1024%nat.
Proof. vm_compute. reflexivity. Qed.

(** Words are letters, at most eight of them. *)
Definition word_ok (w : bytes) : bool :=
  (0 <? Z.of_nat (length w)) && (Z.of_nat (length w) <=? 8) &&
  forallb (fun c => (97 <=? byte.unsigned c) && (byte.unsigned c <=? 122)) w.

Lemma wordlist_ok : Forall (fun w => word_ok w = true) slip0039_wordlist.
Proof.
  apply Forall_forall. intros w Hw. assert (forallb word_ok slip0039_wordlist = true) as H by (vm_compute; reflexivity).
  eapply forallb_forall in H; [exact H|]. by apply list_elem_of_In.
Qed.

Lemma nth_word i : 0 <= i < 1024 -> word_ok (nth (Z.to_nat i) slip0039_wordlist []) = true.
Proof.
  intros Hi. pose proof wordlist_ok as H. rewrite Forall_forall in H. apply H.
  apply list_elem_of_In, nth_In. rewrite length_wordlist. lia.
Qed.

(** The halving never runs out of fuel. *)
Lemma word_search_fuel fuel word lo hi :
  0 <= lo -> hi - lo + 1 < 2 ^ Z.of_nat fuel -> word_search fuel word lo hi <> None.
Proof.
  revert lo hi. induction fuel as [|fuel IH]; intros lo hi Hlo Hf; cbn [word_search].
  { change (2 ^ Z.of_nat 0) with 1 in Hf. rewrite (proj2 (Z.ltb_lt _ _)) by lia. done. }
  rewrite Nat2Z.inj_succ, Z.pow_succ_r in Hf by lia. destruct (Z.ltb_spec hi lo); [done|].
  pose proof (Z.div_mod (hi - lo) 2 ltac:(lia)). pose proof (Z.mod_pos_bound (hi - lo) 2 ltac:(lia)).
  destruct (_ =? 0); [done|]. destruct (_ <? 0); apply IH; lia.
Qed.

(** Every word is found at its place. *)
Lemma word_to_index_nth i :
  0 <= i < 1024 -> slip0039_word_to_index (nth (Z.to_nat i) slip0039_wordlist []) = i.
Proof.
  intros Hi. assert (forallb (fun k => slip0039_word_to_index (nth k slip0039_wordlist []) =? Z.of_nat k) (seq 0 1024) = true) as H.
  { vm_compute. reflexivity. }
  eapply forallb_forall with (x := Z.to_nat i) in H; [apply Z.eqb_eq in H; lia|].
  apply in_seq. lia.
Qed.

Lemma strncmp_0 n a b :
  length a = n -> length b = n -> Forall (fun c => byte.unsigned c <> 0) a -> strncmp n a b = 0 -> a = b.
Proof.
  revert a b. induction n as [|n IH]; intros [|x a] [|y b] Ha Hb Hz; try done.
  cbn [strncmp hd tl]. apply Forall_cons in Hz as [Hx Hz].
  destruct (Z.eqb_spec (byte.unsigned x - byte.unsigned y) 0) as [E|E]; cbn [negb]; [|lia].
  rewrite (proj2 (Z.eqb_neq (byte.unsigned x) 0)) by done. intros H. f_equal.
  - apply byte.unsigned_inj. lia.
  - apply IH; [by injection Ha|by injection Hb|done|done].
Qed.

(** What is found is the word. *)
Lemma word_search_sound fuel word lo hi i :
  0 <= lo -> hi < 1024 -> word_search fuel word lo hi = Some i -> 0 <= i ->
  i < 1024 /\ nth (Z.to_nat i) slip0039_wordlist [] = word.
Proof.
  revert lo hi. induction fuel as [|fuel IH]; intros lo hi Hlo Hhi; cbn [word_search].
  { destruct (Z.ltb_spec hi lo); [intros [= <-]; lia|done]. }
  destruct (Z.ltb_spec hi lo); [intros [= <-]; lia|].
  pose proof (Z.div_mod (hi - lo) 2 ltac:(lia)). pose proof (Z.mod_pos_bound (hi - lo) 2 ltac:(lia)).
  set (mid := lo + (hi - lo) / 2) in *. set (m := nth (Z.to_nat mid) slip0039_wordlist []).
  destruct (Z.eqb_spec (strncmp (Nat.min (length m) (length word)) m word) 0) as [E|E]; cbn [andb].
  2:{ rewrite (proj2 (Z.eqb_neq _ 0)) by done. destruct (_ <? 0); apply IH; lia. }
  destruct (Nat.eqb_spec (length m) (length word)) as [El|El]; cbn [negb].
  - rewrite E. intros [= <-] Hi. split; [lia|]. fold m. rewrite El, Nat.min_id in E.
    apply (strncmp_0 (length word)); [done|done| |done].
    pose proof (nth_word mid ltac:(lia)) as Hok. fold m in Hok. apply andb_true_iff in Hok as [_ Hok].
    apply Forall_forall. intros c Hc. eapply forallb_forall in Hok; [|by apply list_elem_of_In].
    apply andb_true_iff in Hok as [Hok _]. apply Z.leb_le in Hok. lia.
  - destruct (length m <? length word)%nat; cbn [Z.eqb Z.ltb Z.compare]; apply IH; lia.
Qed.

(** The search finds exactly the words of the list, at their places. *)
Lemma word_to_index_spec word :
  slip0039_word_to_index word = -1 \/
  0 <= slip0039_word_to_index word < 1024 /\ nth (Z.to_nat (slip0039_word_to_index word)) slip0039_wordlist [] = word.
Proof.
  unfold slip0039_word_to_index. destruct (word_search 11 word 0 (SLIP0039_WORDLIST_SIZE - 1)) as [i|] eqn:E; [|by left].
  cbn [default from_option id]. destruct (decide (0 <= i)) as [Hi|Hi].
  - right. apply word_search_sound in E; [|done..]. tauto.
  - left. assert (forall fuel lo hi, 0 <= lo -> word_search fuel word lo hi = Some i -> i = -1) as H.
    { induction fuel as [|fuel IH]; intros lo hi Hlo; cbn [word_search].
      - destruct (hi <? lo); congruence.
      - destruct (Z.ltb_spec hi lo); [congruence|]. pose proof (Z.div_pos (hi - lo) 2 ltac:(lia) ltac:(lia)).
        destruct (_ =? 0); [intros [= <-]; lia|]. destruct (_ <? 0); apply IH; lia. }
    eapply H; [|exact E]. lia.
Qed.
