(* ===== verification/Rs1024.v ===== *)
(** * The checksum of shares ([src/src/slip0039.c])

    The Reed-Solomon checksum over words of ten bits: what is created is accepted, and which
    errors are found. *)

From S2P Require Import Prelude Words Bitstream.

Local Open Scope Z_scope.

Definition SLIP0039_RS1024_CUSTOMIZATION : list Z := [115; 104; 97; 109; 105; 114].
Definition SLIP0039_RS1024_CUSTOMIZATION_EXT : list Z :=
  [115; 104; 97; 109; 105; 114; 95; 101; 120; 116; 101; 110; 100; 97; 98; 108; 101].

Definition SLIP0039_RS1024_GEN : list Z :=
  [0x00E0E040; 0x01C1C080; 0x03838100; 0x07070200; 0x0E0E0009;
   0x1C0C2412; 0x38086C24; 0x3090FC48; 0x21B1F890; 0x03F3F120].

(** The loop over the generators. *)
Definition gen_step (b chk : Z) (j : nat) : Z :=
  if Z.land (Z.shiftr b (Z.of_nat j)) 1 =? 0 then chk else Z.lxor chk (nth j SLIP0039_RS1024_GEN 0).

Definition polymod_step (chk v : Z) : Z :=
  let b := Z.shiftr chk 20 in
  let chk := Z.lxor (u32 (Z.shiftl (Z.land chk 0xFFFFF) 10)) v in
  foldl (gen_step b) chk (seq 0 10).

Definition rs1024_polymod (values : list Z) : Z := foldl polymod_step 1 values.

Definition customization (extendable : bool) : list Z :=
  if extendable then SLIP0039_RS1024_CUSTOMIZATION_EXT else SLIP0039_RS1024_CUSTOMIZATION.

(** The last three of [words] are the slots. *)
Definition rs1024_create_checksum (words : list Z) (extendable : bool) : list Z :=
  if (64 <? length words)%nat then words
  else
    let poly := Z.lxor (rs1024_polymod (customization extendable ++ words)) 1 in
    foldl (fun words i => <[(length words - 3 + i)%nat := Z.land (Z.shiftr poly (10 * (2 - Z.of_nat i))) 0x3FF]> words)
      words (seq 0 3).

Definition rs1024_verify_checksum (words : list Z) (extendable : bool) : bool :=
  if (64 <? length words)%nat then false
  else rs1024_polymod (customization extendable ++ words) =? 1.

(** ** The step is linear *)

Definition advance (c : Z) : Z := polymod_step c 0.

(** The generators selected by the bits of [b]. *)
Definition gens (b : Z) (l : list nat) : Z :=
  foldr (fun j x => Z.lxor (if Z.testbit b (Z.of_nat j) then nth j SLIP0039_RS1024_GEN 0 else 0) x) 0 l.

Lemma gen_fold b l chk : foldl (gen_step b) chk l = Z.lxor chk (gens b l).
Proof.
  revert chk. induction l as [|j l IH]; intros chk; cbn [foldl gens foldr]; [by rewrite Z.lxor_0_r|].
  fold (gens b l). rewrite IH. unfold gen_step.
  assert (Z.land (Z.shiftr b (Z.of_nat j)) 1 = Z.b2z (Z.testbit b (Z.of_nat j))) as ->.
  { apply land_1_bit. lia. }
  destruct (Z.testbit b (Z.of_nat j)); cbn [Z.b2z Z.eqb]; by rewrite ?Z.lxor_0_l, ?Z.lxor_assoc.
Qed.

Lemma polymod_step_xor c v :
  polymod_step c v = Z.lxor (Z.lxor (u32 (Z.shiftl (Z.land c 0xFFFFF) 10)) (gens (Z.shiftr c 20) (seq 0 10))) v.
Proof.
  unfold polymod_step. rewrite gen_fold, !Z.lxor_assoc. f_equal. apply Z.lxor_comm.
Qed.

Lemma polymod_step_advance c v : polymod_step c v = Z.lxor (advance c) v.
Proof. unfold advance. by rewrite !polymod_step_xor, Z.lxor_0_r. Qed.

Lemma lxor_swap a b c d : Z.lxor (Z.lxor a b) (Z.lxor c d) = Z.lxor (Z.lxor a c) (Z.lxor b d).
Proof. rewrite !Z.lxor_assoc. f_equal. rewrite <- !Z.lxor_assoc. f_equal. apply Z.lxor_comm. Qed.

Lemma gens_xor a b l : gens (Z.lxor a b) l = Z.lxor (gens a l) (gens b l).
Proof.
  induction l as [|j l IH]; [done|]. cbn [gens foldr]. fold (gens (Z.lxor a b) l) (gens a l) (gens b l).
  rewrite IH, lxor_swap, Z.lxor_spec. f_equal.
  destruct (Z.testbit a (Z.of_nat j)), (Z.testbit b (Z.of_nat j)); cbn [xorb];
    by rewrite ?Z.lxor_nilpotent, ?Z.lxor_0_r, ?Z.lxor_0_l.
Qed.

Lemma land_xor a b m : Z.land (Z.lxor a b) m = Z.lxor (Z.land a m) (Z.land b m).
Proof.
  apply Z.bits_inj'. intros n Hn. rewrite !Z.land_spec, !Z.lxor_spec, !Z.land_spec.
  by destruct (Z.testbit a n), (Z.testbit b n), (Z.testbit m n).
Qed.

Lemma advance_xor a b : advance (Z.lxor a b) = Z.lxor (advance a) (advance b).
Proof.
  unfold advance. rewrite !polymod_step_xor, !Z.lxor_0_r, land_xor, Z.shiftl_lxor, Z.shiftr_lxor, gens_xor.
  rewrite !wrap_land, land_xor by lia. apply lxor_swap.
Qed.

(** ** Ranges *)

Lemma gens_range b l : urange 30 (gens b l).
Proof.
  induction l as [|j l IH]; [done|]. cbn [gens foldr]. fold (gens b l). apply lxor_range; [lia| |done].
  destruct (Z.testbit b (Z.of_nat j)); [|done].
  assert (Forall (urange 30) SLIP0039_RS1024_GEN) as Hg by (apply (bool_decide_unpack _); vm_compute; exact I).
  destruct (nth_lookup_or_length SLIP0039_RS1024_GEN j 0) as [H|H]; [by eapply Forall_lookup_1 in Hg|].
  by rewrite nth_overflow.
Qed.

Lemma polymod_step_range c v : urange 10 v -> urange 30 (polymod_step c v).
Proof.
  intros Hv. rewrite polymod_step_xor. apply lxor_range; [lia| |].
  - apply lxor_range; [lia| |apply gens_range]. change 0xFFFFF with (Z.ones 20). rewrite Z.land_ones by lia.
    pose proof (Z.mod_pos_bound c (2 ^ 20) ltac:(lia)). rewrite Z.shiftl_mul_pow2 by lia.
    rewrite wrap_small by (unfold urange; lia). unfold urange. lia.
  - unfold urange in *. lia.
Qed.

Lemma polymod_range vs c : Forall (urange 10) vs -> urange 30 c -> urange 30 (foldl polymod_step c vs).
Proof.
  intros Hvs. revert c. induction Hvs as [|v vs Hv Hvs IH]; intros c Hc; [done|].
  cbn [foldl]. by apply IH, polymod_step_range.
Qed.

(** A short word only moves up. *)
Lemma advance_small c : 0 <= c < 2 ^ 20 -> advance c = Z.shiftl c 10.
Proof.
  intros Hc. unfold advance. rewrite polymod_step_xor, Z.lxor_0_r.
  rewrite Z.shiftr_div_pow2, (Z.div_small c) by lia. change (gens 0 (seq 0 10)) with 0. rewrite Z.lxor_0_r.
  change 0xFFFFF with (Z.ones 20). rewrite Z.land_ones, Z.mod_small by lia.
  apply wrap_small. rewrite Z.shiftl_mul_pow2 by lia. unfold urange. lia.
Qed.

(** Different tops give different bottoms, so that nothing is lost. *)
Lemma gens_injective b : 0 <= b < 2 ^ 10 -> Z.land (gens b (seq 0 10)) 0x3FF = 0 -> b = 0.
Proof.
  intros Hb H. assert (forallb (fun k => (Z.of_nat k =? 0) || negb (Z.land (gens (Z.of_nat k) (seq 0 10)) 0x3FF =? 0)) (seq 0 1024) = true) as Ha.
  { vm_compute. reflexivity. }
  eapply forallb_forall with (x := Z.to_nat b) in Ha; [|apply in_seq; lia].
  rewrite Z2Nat.id, H, orb_false_r in Ha by lia. by apply Z.eqb_eq.
Qed.

Lemma advance_nonzero c : urange 30 c -> advance c = 0 -> c = 0.
Proof.
  unfold urange. intros Hc. unfold advance. rewrite polymod_step_xor, Z.lxor_0_r. intros H.
  change 0xFFFFF with (Z.ones 20) in H. rewrite Z.land_ones in H by lia.
  pose proof (Z.mod_pos_bound c (2 ^ 20) ltac:(lia)). pose proof (Z.div_mod c (2 ^ 20) ltac:(lia)).
  assert (0 <= c / 2 ^ 20 < 2 ^ 10) as Hd by (split; [apply Z.div_pos; lia|apply Z.div_lt_upper_bound; lia]).
  rewrite Z.shiftr_div_pow2 in H by lia. rewrite Z.shiftl_mul_pow2 in H by lia.
  rewrite wrap_small in H by (unfold urange; lia). apply Z.lxor_eq in H.
  assert (c / 2 ^ 20 = 0) as E.
  { apply gens_injective; [done|]. rewrite <- H. change 0x3FF with (Z.ones 10). rewrite Z.land_ones by lia.
    apply Z.mod_mul. lia. }
  rewrite E in H. change (gens 0 (seq 0 10)) with 0 in H. lia.
Qed.

Lemma advance_range c : urange 30 (advance c).
Proof. unfold advance. by apply polymod_step_range. Qed.

(** ** Words of difference *)

Lemma polymod_xor vs es c d :
  length vs = length es ->
  foldl polymod_step (Z.lxor c d) (zip_with Z.lxor vs es) =
  Z.lxor (foldl polymod_step c vs) (foldl polymod_step d es).
Proof.
  revert es c d. induction vs as [|v vs IH]; intros [|e es] c d Hl; try done. cbn [zip_with foldl].
  rewrite <- IH by (by injection Hl). f_equal. rewrite !polymod_step_advance, advance_xor. apply lxor_swap.
Qed.

Lemma polymod_zeros n c : urange 30 c -> foldl polymod_step c (replicate n 0) = 0 -> c = 0.
Proof.
  revert c. induction n as [|n IH]; intros c Hc; [done|]. cbn [replicate foldl]. intros H.
  apply IH in H; [by apply advance_nonzero|apply advance_range].
Qed.

Lemma three_words a b c :
  urange 10 a -> urange 10 b -> urange 10 c ->
  foldl polymod_step 0 [a; b; c] = a * 2 ^ 20 + b * 2 ^ 10 + c.
Proof.
  unfold urange. intros Ha Hb Hc. cbn [foldl]. rewrite !polymod_step_advance.
  change (advance 0) with 0. rewrite Z.lxor_0_l, (advance_small a), Z.shiftl_mul_pow2 by lia.
  assert (forall x y k, 0 <= k -> 0 <= y < 2 ^ k -> Z.lxor (x * 2 ^ k) y = x * 2 ^ k + y) as E.
  { intros x y k Hk Hy. symmetry. apply Z.add_nocarry_lxor. apply Z.bits_inj'. intros n Hn.
    rewrite Z.land_spec, Z.bits_0. destruct (Z.lt_ge_cases n k).
    - by rewrite Z.mul_pow2_bits_low.
    - rewrite (testbit_high k y), andb_false_r by (done || lia). done. }
  rewrite (E a b) by lia. rewrite (advance_small (a * 2 ^ 10 + b)), Z.shiftl_mul_pow2, (E _ c) by lia. lia.
Qed.

(** ** The checksum *)

Lemma cust_range ext : Forall (urange 10) (customization ext).
Proof. destruct ext; apply (bool_decide_unpack _); vm_compute; exact I. Qed.

(** The state in front of the words. *)
Definition start (ext : bool) : Z := foldl polymod_step 1 (customization ext).

Lemma polymod_start ext ws : rs1024_polymod (customization ext ++ ws) = foldl polymod_step (start ext) ws.
Proof. unfold rs1024_polymod, start. by rewrite foldl_app. Qed.

Lemma start_range ext : urange 30 (start ext).
Proof. apply polymod_range; [apply cust_range|done]. Qed.

Lemma split_poly p :
  urange 30 p -> exists a b c, p = a * 2 ^ 20 + b * 2 ^ 10 + c /\ urange 10 a /\ urange 10 b /\ urange 10 c /\
    Z.land (Z.shiftr p 20) 0x3FF = a /\ Z.land (Z.shiftr p 10) 0x3FF = b /\ Z.land (Z.shiftr p 0) 0x3FF = c.
Proof.
  unfold urange. intros Hp. change 0x3FF with (Z.ones 10). rewrite !Z.land_ones, !Z.shiftr_div_pow2 by lia.
  change (2 ^ 0) with 1. rewrite Z.div_1_r.
  exists (p / 2 ^ 20 mod 2 ^ 10), (p / 2 ^ 10 mod 2 ^ 10), (p mod 2 ^ 10).
  pose proof (Z.div_mod p (2 ^ 10) ltac:(lia)). pose proof (Z.div_mod (p / 2 ^ 10) (2 ^ 10) ltac:(lia)) as H2.
  rewrite Z.div_div in H2 by lia. change (2 ^ 10 * 2 ^ 10) with (2 ^ 20) in H2.
  assert (0 <= p / 2 ^ 20 < 2 ^ 10) by (split; [apply Z.div_pos; lia|apply Z.div_lt_upper_bound; lia]).
  rewrite (Z.mod_small (p / 2 ^ 20)) by lia.
  pose proof (Z.mod_pos_bound p (2 ^ 10) ltac:(lia)). pose proof (Z.mod_pos_bound (p / 2 ^ 10) (2 ^ 10) ltac:(lia)).
  split_and!; try done; lia.
Qed.

Lemma create_checksum_spec d ext :
  Forall (urange 10) d -> (length d <= 61)%nat ->
  exists a b c, rs1024_create_checksum (d ++ [0; 0; 0]) ext = d ++ [a; b; c] /\
    urange 10 a /\ urange 10 b /\ urange 10 c /\ rs1024_verify_checksum (d ++ [a; b; c]) ext = true.
Proof.
  intros Hd Hl. unfold rs1024_create_checksum, rs1024_verify_checksum.
  rewrite length_app. cbn [length]. rewrite (proj2 (Nat.ltb_ge _ _)) by lia.
  rewrite polymod_start, foldl_app. set (s := foldl polymod_step (start ext) d).
  assert (urange 30 s) as Hs by (apply polymod_range; [done|apply start_range]).
  set (P := foldl polymod_step s [0; 0; 0]).
  assert (urange 30 P) as HP by (apply polymod_range; [by repeat constructor|done]).
  destruct (split_poly (Z.lxor P 1)) as (a & b & c & E & Ha & Hb & Hc & Ea & Eb & Ec).
  { apply lxor_range; done || lia. }
  exists a, b, c. split.
  { cbn [seq foldl]. change (10 * (2 - Z.of_nat 0)) with 20. change (10 * (2 - Z.of_nat 1)) with 10.
    change (10 * (2 - Z.of_nat 2)) with 0. rewrite Ea, Eb, Ec.
    repeat (rewrite length_insert || rewrite length_app). cbn [length].
    replace (length d + 3 - 3 + 0)%nat with (length d + 0)%nat by lia.
    replace (length d + 3 - 3 + 1)%nat with (length d + 1)%nat by lia.
    replace (length d + 3 - 3 + 2)%nat with (length d + 2)%nat by lia. by rewrite !insert_app_r. }
  split_and!; [done..|]. rewrite length_app. cbn [length]. rewrite (proj2 (Nat.ltb_ge _ _)) by lia.
  rewrite polymod_start, foldl_app. fold s. apply Z.eqb_eq.
  pose proof (polymod_xor [0; 0; 0] [a; b; c] s 0 eq_refl) as H. cbn [zip_with] in H.
  rewrite !Z.lxor_0_l, Z.lxor_0_r in H. rewrite H. fold P.
  rewrite three_words, <- E by done. rewrite <- Z.lxor_assoc, Z.lxor_nilpotent. done.
Qed.

Lemma verify_difference p e e' q ext :
  length e = length e' -> Forall (urange 10) p -> Forall (urange 10) e -> Forall (urange 10) e' ->
  Forall (urange 10) q ->
  rs1024_verify_checksum (p ++ e ++ q) ext = true -> rs1024_verify_checksum (p ++ e' ++ q) ext = true ->
  foldl polymod_step 0 (zip_with Z.lxor e e') = 0.
Proof.
  intros Hl Hp He He' Hq. unfold rs1024_verify_checksum. rewrite !length_app, Hl.
  destruct (64 <? _)%nat; [done|]. rewrite !polymod_start, !foldl_app.
  set (s := foldl polymod_step (start ext) p). intros H%Z.eqb_eq H'%Z.eqb_eq.
  pose proof (polymod_xor q q (foldl polymod_step s e) (foldl polymod_step s e') eq_refl) as E.
  rewrite H, H' in E. assert (zip_with Z.lxor q q = replicate (length q) 0) as Eq.
  { clear. induction q as [|x q IH]; [done|]. cbn. by rewrite Z.lxor_nilpotent, IH. }
  rewrite Eq in E. apply polymod_zeros in E.
  - pose proof (polymod_xor e e' s s Hl) as X. rewrite Z.lxor_nilpotent in X. by rewrite X.
  - assert (urange 30 s) by (apply polymod_range; [done|apply start_range]).
    apply lxor_range; [lia|by apply polymod_range..].
Qed.

(** The same step, quicker to evaluate. *)
Fixpoint gens_fast (b : Z) (l : list Z) : Z :=
  match l with
  | [] => 0
  | g :: l => if Z.odd b then Z.lxor g (gens_fast (Z.div2 b) l) else gens_fast (Z.div2 b) l
  end.

Definition advance_fast (c : Z) : Z :=
  Z.lxor (Z.shiftl (Z.land c 0xFFFFF) 10) (gens_fast (Z.shiftr c 20) SLIP0039_RS1024_GEN).

Lemma advance_fast_spec c : advance_fast c = advance c.
Proof.
  unfold advance_fast, advance. rewrite polymod_step_xor, Z.lxor_0_r. f_equal.
  - change 0xFFFFF with (Z.ones 20). rewrite Z.land_ones by lia.
    pose proof (Z.mod_pos_bound c (2 ^ 20) ltac:(lia)). rewrite Z.shiftl_mul_pow2 by lia.
    by rewrite wrap_small by (unfold urange; lia).
  - generalize (Z.shiftr c 20). intros b.
    assert (forall l k, (forall i, (i < length l)%nat -> nth (k + i) SLIP0039_RS1024_GEN 0 = nth i l 0) ->
      gens_fast (Z.shiftr b (Z.of_nat k)) l = gens b (seq k (length l))) as H.
    { induction l as [|g l IH]; intros k Hl; [done|]. cbn [gens_fast length seq gens foldr].
      fold (gens b (seq (S k) (length l))). rewrite <- IH.
      2:{ intros i Hi. specialize (Hl (S i) ltac:(cbn; lia)). cbn [nth] in Hl. rewrite <- Hl. f_equal. lia. }
      specialize (Hl 0%nat ltac:(cbn; lia)). rewrite Nat.add_0_r in Hl. cbn [nth] in Hl. rewrite Hl.
      rewrite <- Z.bit0_odd, Z.shiftr_spec, Z.add_0_l by lia.
      rewrite Z.div2_spec, Z.shiftr_shiftr by lia. replace (Z.of_nat k + 1) with (Z.of_nat (S k)) by lia.
      by destruct (Z.testbit b (Z.of_nat k)); rewrite ?Z.lxor_0_l. }
    rewrite <- (Z.shiftr_0_r b) at 1. apply (H SLIP0039_RS1024_GEN 0%nat). done.
Qed.

(** The next [n] states are no short words. *)
Fixpoint stays_long (n : nat) (c : Z) : bool :=
  match n with O => true | S n => let c := advance_fast c in (2 ^ 10 <=? c) && stays_long n c end.

Lemma stays_long_spec m c n : stays_long m c = true -> (1 <= n <= m)%nat -> 2 ^ 10 <= Nat.iter n advance c.
Proof.
  revert c n. induction m as [|m IH]; intros c n H Hn; [lia|]. cbn [stays_long] in H.
  rewrite advance_fast_spec in H. apply andb_true_iff in H as [H1 H2].
  destruct n as [|n]; [lia|]. rewrite Nat.iter_succ_r.
  destruct n as [|n]; [by apply Z.leb_le|]. apply IH; [done|lia].
Qed.

(** A word moved up any number of places is no short word again. *)
Lemma advance_far e n :
  0 < e < 2 ^ 10 -> (1 <= n <= 64)%nat -> 2 ^ 10 <= Nat.iter n advance e.
Proof.
  intros He Hn. apply (stays_long_spec 64); [|done].
  assert (forallb (fun k => (Z.of_nat k =? 0) || stays_long 64 (Z.of_nat k)) (seq 0 1024) = true) as H.
  { vm_cast_no_check (eq_refl true). }
  eapply forallb_forall with (x := Z.to_nat e) in H; [|apply in_seq; lia].
  by rewrite Z2Nat.id, (proj2 (Z.eqb_neq e 0)) in H by lia.
Qed.

Lemma two_words_detected a b m :
  urange 10 a -> urange 10 b -> Forall (urange 10) m -> (length m < 64)%nat ->
  foldl polymod_step 0 (a :: replicate (length m) 0 ++ [b]) = 0 -> a = 0 /\ b = 0.
Proof.
  intros Ha Hb _ Hm H. cbn [foldl] in H. rewrite foldl_app in H. cbn [foldl] in H.
  rewrite !polymod_step_advance in H. change (advance 0) with 0 in H. rewrite Z.lxor_0_l in H.
  assert (forall n c, foldl polymod_step c (replicate n 0) = Nat.iter n advance c) as E.
  { induction n as [|n IH]; intros c; [done|]. cbn [replicate foldl]. by rewrite IH, Nat.iter_succ_r. }
  rewrite E in H. apply Z.lxor_eq in H. destruct (decide (a = 0)) as [->|Hne].
  - split; [done|]. rewrite <- H, <- E. change (advance ?x) with (polymod_step x 0).
    clear. generalize (length m). intros n. assert (foldl polymod_step 0 (replicate n 0) = 0) as ->; [|done].
    induction n as [|n IH]; [done|]. cbn [replicate foldl]. change (polymod_step 0 0) with 0. done.
  - unfold urange in *. pose proof (advance_far a (S (length m)) ltac:(lia) ltac:(lia)) as Hf.
    change (Nat.iter (S (length m)) advance a) with (advance (Nat.iter (length m) advance a)) in Hf. lia.
Qed.

(** C26: What [rs1024_create_checksum] appends is accepted by [rs1024_verify_checksum]; two
    accepted phrases that differ only within three consecutive words, or only in two words,
    are equal: every such error is found. *)
Theorem rs1024_detects d ext :
  Forall (urange 10) d -> (length d <= 61)%nat ->
  (exists c, rs1024_create_checksum (d ++ [0; 0; 0]) ext = d ++ c /\ length c = 3%nat /\
     Forall (urange 10) c /\ rs1024_verify_checksum (d ++ c) ext = true) /\
  (forall p e e' q, length e = 3%nat -> length e' = 3%nat -> Forall (urange 10) (p ++ e ++ q) ->
     Forall (urange 10) e' -> rs1024_verify_checksum (p ++ e ++ q) ext = true ->
     rs1024_verify_checksum (p ++ e' ++ q) ext = true -> e = e') /\
  (forall p a m b q a' b', Forall (urange 10) (p ++ (a :: m ++ [b]) ++ q) -> urange 10 a' -> urange 10 b' ->
     rs1024_verify_checksum (p ++ (a :: m ++ [b]) ++ q) ext = true ->
     rs1024_verify_checksum (p ++ (a' :: m ++ [b']) ++ q) ext = true -> a = a' /\ b = b').
Proof.
  intros Hd Hl. split; [|split].
  - destruct (create_checksum_spec d ext Hd Hl) as (a & b & c & E & Ha & Hb & Hc & V).
    exists [a; b; c]. split_and!; [done|done|do 3 (constructor; [done|]); constructor|done].
  - intros p e e' q He He' [Hp [Hee Hq]%Forall_app]%Forall_app He'r V V'.
    pose proof (verify_difference p e e' q ext ltac:(lia) Hp Hee He'r Hq V V') as H.
    destruct e as [|a [|b [|c [|? ?]]]]; try done. destruct e' as [|a' [|b' [|c' [|? ?]]]]; try done.
    cbn [zip_with] in H. apply Forall_cons in Hee as [Ha [Hb [Hc _]%Forall_cons]%Forall_cons].
    apply Forall_cons in He'r as [Ha' [Hb' [Hc' _]%Forall_cons]%Forall_cons].
    pose proof (lxor_range 10 a a' ltac:(lia) Ha Ha') as H1. pose proof (lxor_range 10 b b' ltac:(lia) Hb Hb') as H2.
    pose proof (lxor_range 10 c c' ltac:(lia) Hc Hc') as H3.
    rewrite three_words in H by done. unfold urange in H1, H2, H3.
    assert (Z.lxor a a' = 0) as ->%Z.lxor_eq by lia. assert (Z.lxor b b' = 0) as ->%Z.lxor_eq by lia.
    assert (Z.lxor c c' = 0) as ->%Z.lxor_eq by lia. done.
  - intros p a m b q a' b' [Hp [He Hq]%Forall_app]%Forall_app Ha' Hb' V V'.
    apply Forall_cons in He as [Ha [Hm [Hb _]%Forall_cons]%Forall_app].
    assert (length m < 64)%nat as Hml.
    { unfold rs1024_verify_checksum in V. destruct (64 <? _)%nat eqn:E in V; [done|].
      apply Nat.ltb_ge in E. rewrite length_app in E. cbn [length app] in E. rewrite !length_app in E. cbn [length] in E. lia. }
    pose proof (verify_difference p (a :: m ++ [b]) (a' :: m ++ [b']) q ext) as H.
    cbn [zip_with] in H. rewrite zip_with_app in H by done. cbn [zip_with] in H.
    assert (zip_with Z.lxor m m = replicate (length m) 0) as Em.
    { clear. induction m as [|x m IH]; [done|]. cbn. by rewrite Z.lxor_nilpotent, IH. }
    rewrite Em in H. apply two_words_detected in H; [|by apply lxor_range|by apply lxor_range|done|done|..].
    + destruct H as [->%Z.lxor_eq ->%Z.lxor_eq]. done.
    + cbn [length]. by rewrite !length_app.
    + done.
    + constructor; [done|]. apply Forall_app. split; [done|by constructor].
    + constructor; [done|]. apply Forall_app. split; [done|by constructor].
    + done.
    + done.
    + done.
Qed.

Lemma rs1024_detects_witness :
  exists c, rs1024_create_checksum ([1; 2; 3] ++ [0; 0; 0]) false = [1; 2; 3] ++ c /\
    rs1024_verify_checksum ([1; 2; 3] ++ c) false = true.
Proof.
  destruct (rs1024_detects [1; 2; 3] false) as [(c & E & _ & _ & V) _].
  - apply (bool_decide_unpack _). vm_compute. exact I.
  - cbn. lia.
  - exists c. split; [exact E|exact V].
Defined.
