(* ===== verification/Slip39Text.v ===== *)
(** * Shares as words ([src/src/slip0039.c])

    Packing fields into words of ten bits and back, and the text of a share: encoding,
    decoding, and for which lengths of the secret the second undoes the first. *)

From Stdlib Require Import String.
From S2P Require Import Prelude Words Bitstream Rs1024 Slip39Words.

Local Open Scope Z_scope.

Definition SLIP0039_MIN_SECRET_BYTES : Z := 16.
Definition SLIP0039_MAX_SECRET_BYTES : Z := 32.
Definition SLIP0039_MAX_SHARE_STR_SIZE : Z := 320.

(** ** Packing *)

(** [bw_words]: the words emitted so far, [count] of them. *)
Record bitpack_writer := mk_bw { bw_words : list Z; bw_capacity : Z; bw_buf : Z; bw_bits : Z }.

Definition bw_init (capacity : Z) : bitpack_writer := mk_bw [] capacity 0 0.

(** [while (nbits > 0)]; the outer [None]: no fuel left, the inner: -1. *)
Fixpoint bw_put_loop (fuel : nat) (w : bitpack_writer) (value nbits : Z) : option (option bitpack_writer) :=
  if nbits <=? 0 then Some (Some w)
  else match fuel with
  | O => None
  | S fuel =>
      let take := if 10 - bw_bits w <=? nbits then 10 - bw_bits w else nbits in
      let buf := Z.lor (u32 (Z.shiftl (bw_buf w) take))
                   (Z.land (Z.shiftr value (nbits - take)) (u32 (Z.shiftl 1 take) - 1)) in
      let bits := bw_bits w + take in
      let nbits := nbits - take in
      if bits =? 10 then
        if bw_capacity w <=? Z.of_nat (length (bw_words w)) then Some None
        else bw_put_loop fuel (mk_bw (bw_words w ++ [Z.land buf 0x3FF]) (bw_capacity w) 0 0) value nbits
      else bw_put_loop fuel (mk_bw (bw_words w) (bw_capacity w) buf bits) value nbits
  end.

(** Each turn takes at least one of the bits. *)
Definition bw_put (w : bitpack_writer) (value nbits : Z) : option bitpack_writer :=
  default None (bw_put_loop (Z.to_nat nbits) w value nbits).

(** [br_words]: the words from [idx] on. *)
Record bitpack_reader := mk_br { br_words : list Z; br_buf : Z; br_bits : Z }.

Definition br_init (words : list Z) : bitpack_reader := mk_br words 0 0.

(** [while (r->bits < nbits)] *)
Fixpoint br_fill (words : list Z) (buf bits nbits : Z) : option bitpack_reader :=
  if nbits <=? bits then Some (mk_br words buf bits)
  else match words with
       | [] => None
       | w :: words => br_fill words (Z.lor (u32 (Z.shiftl buf 10)) (Z.land w 0x3FF)) (bits + 10) nbits
       end.

Definition br_get (r : bitpack_reader) (nbits : Z) : option (Z * bitpack_reader) :=
  r ← br_fill (br_words r) (br_buf r) (br_bits r) nbits;
  let bits := br_bits r - nbits in
  let out := Z.land (Z.shiftr (br_buf r) bits)
               (if nbits =? 32 then 0xFFFFFFFF else u32 (Z.shiftl 1 nbits) - 1) in
  let buf := Z.land (br_buf r) (if bits =? 0 then 0 else u32 (Z.shiftl 1 bits) - 1) in
  Some (out, mk_br (br_words r) buf bits).

(** ** Encoding a share *)

Record share_header := mk_share_header {
  identifier : Z; iter_exp : Z; group_idx : Z; group_thr : Z; group_count : Z;
  member_idx : Z; member_thr : Z }.

Definition pad_bits_for (share_bits : Z) : Z := (10 - share_bits mod 10) mod 10.

(** The fields in the order in which they are put. *)
Definition put_fields (w : bitpack_writer) (fields : list (Z * Z)) : option bitpack_writer :=
  foldl (fun w '(value, nbits) => w ← w; bw_put w value nbits) (Some w) fields.

Definition encode_words (h : share_header) (share_value : bytes) : option (list Z) :=
  let ems_len := Z.of_nat (length share_value) in
  if (group_thr h <? 1) || (group_count h <? 1) || (member_thr h <? 1) then None
  else if (16 <? group_thr h) || (16 <? group_count h) || (16 <? member_thr h) then None
  else if (15 <? group_idx h) || (15 <? member_idx h) then None
  else if 15 <? iter_exp h then None
  else if 2 ^ 15 - 1 <? identifier h then None
  else if (ems_len <? SLIP0039_MIN_SECRET_BYTES) || (SLIP0039_MAX_SECRET_BYTES <? ems_len) ||
          negb (Z.land ems_len 1 =? 0) then None
  else
    let share_bits := ems_len * 8 in
    let pad_bits := pad_bits_for share_bits in
    let share_words := (share_bits + pad_bits) / 10 in
    let total_words := 4 + share_words + 3 in
    if 40 <? total_words then None
    else
      w ← put_fields (bw_init (total_words - 3))
            ([(identifier h, 15); (0, 1); (iter_exp h, 4); (group_idx h, 4); (group_thr h - 1, 4);
              (group_count h - 1, 4); (member_idx h, 4); (member_thr h - 1, 4)]);
      w ← (if pad_bits =? 0 then Some w else bw_put w 0 pad_bits);
      w ← put_fields w ((fun b => (byte.unsigned b, 8)) <$> share_value);
      let words := bw_words w ++ replicate (Z.to_nat total_words - length (bw_words w)) 0 in
      Some (rs1024_create_checksum words false).

(** The words behind [out], separated by spaces; the result is the text in front of the NUL. *)
Fixpoint render (words : list Z) (out : bytes) (out_size : Z) : option bytes :=
  match words with
  | [] => Some out
  | w :: words =>
      if SLIP0039_WORDLIST_SIZE <=? w then None
      else
        let mn := nth (Z.to_nat w) slip0039_wordlist [] in
        if out_size <=? Z.of_nat (length out) + (Z.of_nat (length mn) + 1) then None
        else render words ((out ++ mn) ++ match words with [] => [] | _ => [Byte.x20] end) out_size
  end.

Definition slip0039_encode_mnemonic (h : share_header) (share_value : bytes) (out_size : Z) : option bytes :=
  words ← encode_words h share_value; render words [] out_size.

(** ** Decoding a share *)

Definition is_sep (c : Byte.byte) : bool :=
  byte_eqb c Byte.x20 || byte_eqb c Byte.x09 || byte_eqb c Byte.x0a || byte_eqb c Byte.x0d.

Fixpoint skip_seps (p : bytes) : bytes :=
  match p with c :: p' => if is_sep c then skip_seps p' else p | [] => [] end.

(** The characters up to a separator or the end, and what is left. *)
Fixpoint next_word (p : bytes) : bytes * bytes :=
  match p with
  | c :: p' => if is_sep c then ([], p) else let '(w, rest) := next_word p' in (c :: w, rest)
  | [] => ([], [])
  end.

(** [mnemonic]: the characters in front of the NUL; the outer [None]: no fuel left. *)
Fixpoint tokenize (fuel : nat) (p : bytes) (words : list Z) : option (option (list Z)) :=
  match skip_seps p with
  | [] => Some (Some words)
  | p =>
      match fuel with
      | O => None
      | S fuel =>
          let '(w, rest) := next_word p in
          if (length w =? 0)%nat || (8 <? length w)%nat then Some None
          else if (40 <=? length words)%nat then Some None
          else
            let idx := slip0039_word_to_index w in
            if idx <? 0 then Some None else tokenize fuel rest (words ++ [idx])
      end
  end.

Fixpoint get_bytes (n : nat) (r : bitpack_reader) : option (bytes * bitpack_reader) :=
  match n with
  | O => Some ([], r)
  | S n => '(v, r) ← br_get r 8; '(l, r) ← get_bytes n r; Some (byte.of_Z v :: l, r)
  end.

(** The header, the bit for extendable shares and the value. *)
Definition decode_words (words : list Z) (value_len : Z) : option (share_header * bool * bytes) :=
  let total_words := Z.of_nat (length words) in
  if total_words <? 8 then None
  else if 40 <? total_words then None
  else
    let id_exp := Z.lor (u32 (Z.shiftl (nth 0 words 0) 10)) (nth 1 words 0) in
    let ext_bit := negb (Z.land (Z.shiftr id_exp 4) 1 =? 0) in
    if negb (rs1024_verify_checksum words ext_bit) then None
    else
      let share_bits := (total_words - 4 - 3) * 10 in
      if share_bits <? 8 then None
      else
        let pad_bits := share_bits mod 8 in
        let value_bits := share_bits - pad_bits in
        if negb (Z.land value_bits 7 =? 0) then None
        else
          let ems_len := value_bits / 8 in
          if (ems_len <? SLIP0039_MIN_SECRET_BYTES) || (SLIP0039_MAX_SECRET_BYTES <? ems_len) then None
          else if negb (Z.land ems_len 1 =? 0) then None
          else if value_len <? ems_len then None
          else
            let r := br_init (take (Z.to_nat (total_words - 3)) words) in
            '(id, r) ← br_get r 15;
            '(ext, r) ← br_get r 1;
            '(iter, r) ← br_get r 4;
            '(gi, r) ← br_get r 4;
            '(gt, r) ← br_get r 4;
            '(gc, r) ← br_get r 4;
            if gc + 1 <? gt + 1 then None
            else
              '(mi, r) ← br_get r 4;
              '(mt, r) ← br_get r 4;
              r ← (if pad_bits =? 0 then Some r
                   else '(v, r) ← br_get r pad_bits; if negb (v =? 0) then None else Some r);
              '(value, _) ← get_bytes (Z.to_nat ems_len) r;
              Some (mk_share_header id iter gi (gt + 1) (gc + 1) mi (mt + 1), negb (ext =? 0), value).

Definition slip0039_decode_mnemonic (mnemonic : bytes) (value_len : Z) : option (share_header * bool * bytes) :=
  words ← default None (tokenize (length mnemonic) mnemonic []);
  decode_words words value_len.

(** ** Packing and bits *)

Definition words_bits (ws : list Z) : list bool := concat (bits_be 10 <$> ws).

Lemma words_bits_app a b : words_bits (a ++ b) = words_bits a ++ words_bits b.
Proof. unfold words_bits. by rewrite fmap_app, concat_app. Qed.

Lemma words_bits_cons w ws : words_bits (w :: ws) = bits_be 10 w ++ words_bits ws.
Proof. done. Qed.

Lemma length_words_bits ws : length (words_bits ws) = (10 * length ws)%nat.
Proof.
  induction ws as [|w ws IH]; [done|]. rewrite words_bits_cons, length_app, length_bits_be, IH.
  cbn [length]. lia.
Qed.

Lemma bits_be_app a b v : bits_be (a + b) v = bits_be a (Z.shiftr v (Z.of_nat b)) ++ bits_be b v.
Proof.
  induction a as [|a IH]; [done|]. cbn [Nat.add bits_be app]. rewrite IH. f_equal.
  rewrite Z.shiftr_spec by lia. f_equal. lia.
Qed.

Lemma mask_wrap v n : 0 <= n < 32 -> Z.land v (u32 (Z.shiftl 1 n) - 1) = wrap n v.
Proof.
  intros Hn. assert (0 < 2 ^ n < 2 ^ 32) as H.
  { split; [apply Z.pow_pos_nonneg; lia|apply Z.pow_lt_mono_r; lia]. }
  rewrite Z.shiftl_1_l, (wrap_small 32) by (unfold urange; lia).
  rewrite Z.sub_1_r, <- Z.ones_equiv. by rewrite wrap_land by lia.
Qed.

(** [w] has been given the bits [l]. *)
Definition bw_has (w : bitpack_writer) (l : list bool) : Prop :=
  exists p, l = words_bits (bw_words w) ++ p /\ bw_bits w = Z.of_nat (length p) /\ bw_bits w < 10 /\
    bw_buf w = bits_val p /\ Forall (urange 10) (bw_words w).

Lemma bw_init_has c : bw_has (bw_init c) [].
Proof. exists []. split_and!; done || constructor. Qed.

(** The accumulator behind the next bits. *)
Lemma bw_buffer p t value :
  (length p + t <= 10)%nat ->
  Z.lor (u32 (Z.shiftl (bits_val p) (Z.of_nat t))) (Z.land value (u32 (Z.shiftl 1 (Z.of_nat t)) - 1)) =
  bits_val (p ++ bits_be t value).
Proof.
  intros Hl. rewrite mask_wrap by lia. pose proof (bits_val_range p) as Hp.
  rewrite Z.shiftl_mul_pow2 by lia. assert (0 < 2 ^ Z.of_nat t) by (apply Z.pow_pos_nonneg; lia).
  assert (2 ^ Z.of_nat (length p) * 2 ^ Z.of_nat t <= 2 ^ 10) as Hb.
  { rewrite <- Z.pow_add_r by lia. apply Z.pow_le_mono_r; lia. }
  rewrite (wrap_small 32) by (unfold urange; nia).
  rewrite (lor_disjoint _ _ (Z.of_nat t)); [|lia|by exists (bits_val p)|apply wrap_range; lia].
  by rewrite bits_val_app, length_bits_be, bits_val_be.
Qed.

Lemma bw_put_loop_spec fuel w l value n :
  bw_has w l -> (n <= fuel)%nat -> Z.of_nat (length l + n) <= 10 * bw_capacity w ->
  exists w', bw_put_loop fuel w value (Z.of_nat n) = Some (Some w') /\ bw_has w' (l ++ bits_be n value) /\
    bw_capacity w' = bw_capacity w.
Proof.
  revert w l n. induction fuel as [|fuel IH]; intros w l n Hw Hn Hcap; cbn [bw_put_loop].
  { replace n with 0%nat by lia. exists w. by rewrite app_nil_r. }
  destruct (Z.leb_spec (Z.of_nat n) 0).
  { replace n with 0%nat by lia. exists w. by rewrite app_nil_r. }
  destruct Hw as (p & -> & Hb & Hlt & Hbuf & Hws). rewrite Hb in *.
  set (t := Nat.min (10 - length p) n).
  assert ((if 10 - Z.of_nat (length p) <=? Z.of_nat n then 10 - Z.of_nat (length p) else Z.of_nat n) = Z.of_nat t) as ->.
  { unfold t. destruct (Z.leb_spec (10 - Z.of_nat (length p)) (Z.of_nat n)); lia. }
  assert (1 <= t <= n)%nat as Ht by (unfold t; lia). assert (length p + t <= 10)%nat as Hpt by (unfold t; lia).
  replace (Z.of_nat n - Z.of_nat t) with (Z.of_nat (n - t)) by lia. rewrite Hbuf, bw_buffer by done.
  set (q := p ++ bits_be t (Z.shiftr value (Z.of_nat (n - t)))).
  assert (length q = length p + t)%nat as Hq by (unfold q; rewrite length_app, length_bits_be; done).
  assert (bits_be n value = bits_be t (Z.shiftr value (Z.of_nat (n - t))) ++ bits_be (n - t) value) as E.
  { rewrite <- bits_be_app. f_equal. lia. }
  rewrite E, <- !app_assoc. rewrite length_app, length_words_bits in Hcap.
  destruct (Z.eqb_spec (Z.of_nat (length p) + Z.of_nat t) 10).
  - rewrite (proj2 (Z.leb_gt _ _)) by lia.
    pose proof (bits_val_range q) as Hv. rewrite Hq in Hv. replace (length p + t)%nat with 10%nat in Hv by lia.
    assert (Z.land (bits_val q) 0x3FF = bits_val q) as Eq.
    { change 0x3FF with (Z.ones 10). rewrite Z.land_ones by lia. by apply Z.mod_small. }
    rewrite Eq. destruct (IH (mk_bw (bw_words w ++ [bits_val q]) (bw_capacity w) 0 0) (words_bits (bw_words w) ++ q) (n - t)%nat)
      as (w' & Ew & Hw' & Hc').
    + exists []. cbn [bw_words bw_bits bw_buf length]. split_and!; [|done|lia|done|].
      * rewrite words_bits_app, app_nil_r. f_equal. rewrite words_bits_cons, app_nil_r.
        replace 10%nat with (length q) by lia. by rewrite bits_be_val.
      * apply Forall_app. split; [done|]. by repeat constructor; unfold urange; lia.
    + lia.
    + cbn [bw_capacity]. rewrite length_app, length_words_bits, Hq. lia.
    + exists w'. split_and!; [done| |done]. unfold q in Hw'. by rewrite <- !app_assoc in Hw'.
  - destruct (IH (mk_bw (bw_words w) (bw_capacity w) (bits_val q) (Z.of_nat (length p) + Z.of_nat t)) (words_bits (bw_words w) ++ q) (n - t)%nat)
      as (w' & Ew & Hw' & Hc').
    + exists q. cbn [bw_words bw_bits bw_buf length]. split_and!; [done|lia|lia|done|done].
    + lia.
    + cbn [bw_capacity]. rewrite length_app, length_words_bits, Hq. lia.
    + exists w'. split_and!; [done| |done]. unfold q in Hw'. by rewrite <- !app_assoc in Hw'.
Qed.

Lemma bw_put_spec w l value n :
  bw_has w l -> Z.of_nat (length l + n) <= 10 * bw_capacity w ->
  exists w', bw_put w value (Z.of_nat n) = Some w' /\ bw_has w' (l ++ bits_be n value) /\
    bw_capacity w' = bw_capacity w.
Proof.
  intros Hw Hcap. destruct (bw_put_loop_spec n w l value n Hw ltac:(lia) Hcap) as (w' & E & H).
  exists w'. split; [|done]. unfold bw_put. by rewrite Nat2Z.id, E.
Qed.

(** Fields, with their numbers of bits. *)
Definition fields_bits (fs : list (Z * Z)) : list bool :=
  concat ((fun '(v, n) => bits_be (Z.to_nat n) v) <$> fs).

Lemma put_fields_spec fs w l :
  bw_has w l -> Forall (fun f => 0 <= f.2) fs -> Z.of_nat (length l + length (fields_bits fs)) <= 10 * bw_capacity w ->
  exists w', put_fields w fs = Some w' /\ bw_has w' (l ++ fields_bits fs) /\ bw_capacity w' = bw_capacity w.
Proof.
  revert w l. induction fs as [|[v n] fs IH]; intros w l Hw Hfs Hcap.
  { exists w. by rewrite app_nil_r. }
  apply Forall_cons in Hfs as [Hn Hfs]. cbn [snd] in Hn.
  change (fields_bits ((v, n) :: fs)) with (bits_be (Z.to_nat n) v ++ fields_bits fs) in *.
  rewrite length_app, length_bits_be in Hcap.
  destruct (bw_put_spec w l v (Z.to_nat n) Hw ltac:(lia)) as (w1 & E1 & H1 & C1).
  destruct (IH w1 _ H1 Hfs) as (w' & E & H & C).
  { rewrite C1, length_app, length_bits_be. lia. }
  exists w'. unfold put_fields in *. cbn [foldl mbind option_bind]. rewrite Z2Nat.id in E1 by lia. rewrite E1.
  split_and!; [done|by rewrite app_assoc|congruence].
Qed.

(** ** Unpacking *)

Definition br_has (r : bitpack_reader) (l : list bool) : Prop :=
  l = bits_be (Z.to_nat (br_bits r)) (br_buf r) ++ words_bits (br_words r) /\
  0 <= br_bits r < 10 /\ urange (br_bits r) (br_buf r) /\ Forall (urange 10) (br_words r).

Lemma br_init_has ws : Forall (urange 10) ws -> br_has (br_init ws) (words_bits ws).
Proof. intros H. split_and!; done || lia. Qed.

Lemma br_fill_spec ws buf b n l :
  l = bits_be b buf ++ words_bits ws -> urange (Z.of_nat b) buf -> Forall (urange 10) ws ->
  (b <= n + 9)%nat -> (n <= 15)%nat -> (n <= length l)%nat ->
  exists r b', br_fill ws buf (Z.of_nat b) (Z.of_nat n) = Some r /\ br_bits r = Z.of_nat b' /\
    l = bits_be b' (br_buf r) ++ words_bits (br_words r) /\ urange (Z.of_nat b') (br_buf r) /\
    Forall (urange 10) (br_words r) /\ (n <= b' <= n + 9)%nat.
Proof.
  revert buf b. induction ws as [|w ws IH]; intros buf b El Hb Hws Hbn Hn Hl; cbn [br_fill].
  - rewrite (proj2 (Z.leb_le _ _)).
    2:{ rewrite El, length_app, length_bits_be in Hl. cbn in Hl. lia. }
    exists (mk_br [] buf (Z.of_nat b)), b. split_and!; try done.
    rewrite El, length_app, length_bits_be in Hl. cbn in Hl. lia.
  - destruct (Z.leb_spec (Z.of_nat n) (Z.of_nat b)).
    { exists (mk_br (w :: ws) buf (Z.of_nat b)), b. split_and!; try done. lia. }
    apply Forall_cons in Hws as [Hw Hws]. unfold urange in Hb, Hw.
    assert (Z.lor (u32 (Z.shiftl buf 10)) (Z.land w 0x3FF) = buf * 2 ^ 10 + w) as ->.
    { change 0x3FF with (Z.ones 10). rewrite Z.land_ones, Z.mod_small by lia. rewrite Z.shiftl_mul_pow2 by lia.
      assert (2 ^ Z.of_nat b <= 2 ^ 15) by (apply Z.pow_le_mono_r; lia).
      rewrite (wrap_small 32) by (unfold urange; lia).
      apply (lor_disjoint _ _ 10); [lia|by exists buf|lia]. }
    replace (Z.of_nat b + 10) with (Z.of_nat (b + 10)) by lia.
    apply IH; try done; try lia.
    + rewrite El, words_bits_cons, bits_be_app, <- app_assoc. f_equal.
      * rewrite Z.shiftr_div_pow2 by lia. f_equal. apply (Z.div_unique _ _ _ w); lia.
      * f_equal. rewrite <- (bits_be_ext 10 (buf * 2 ^ 10 + w)), <- (bits_be_ext 10 w). f_equal.
        unfold wrap. rewrite Z.add_comm, Z.mod_add by lia. done.
    + unfold urange. rewrite Nat2Z.inj_add, Z.pow_add_r by lia. change (Z.of_nat 10) with 10. nia.
Qed.

Lemma br_get_spec r n v l :
  br_has r (bits_be n v ++ l) -> (1 <= n <= 15)%nat -> urange (Z.of_nat n) v ->
  exists r', br_get r (Z.of_nat n) = Some (v, r') /\ br_has r' l.
Proof.
  intros (El & Hb & Hbuf & Hws) Hn Hv. unfold br_get.
  destruct (br_fill_spec (br_words r) (br_buf r) (Z.to_nat (br_bits r)) n _ El) as (r1 & b & E & Eb & El1 & Hr & Hws1 & Hbn).
  - by rewrite Z2Nat.id by lia.
  - done.
  - lia.
  - lia.
  - rewrite length_app, length_bits_be. lia.
  - rewrite Z2Nat.id in E by lia. rewrite E. cbn [mbind option_bind]. rewrite Eb.
    rewrite (proj2 (Z.eqb_neq _ 32)) by lia. replace (Z.of_nat b - Z.of_nat n) with (Z.of_nat (b - n)) by lia.
    replace b with (n + (b - n))%nat in El1 by lia. rewrite bits_be_app, <- app_assoc in El1.
    apply app_inj_1 in El1 as [Ev El1]; [|by rewrite !length_bits_be].
    rewrite mask_wrap by lia. assert (wrap (Z.of_nat n) (Z.shiftr (br_buf r1) (Z.of_nat (b - n))) = v) as ->.
    { rewrite <- bits_val_be, <- Ev, bits_val_be. by apply wrap_small. }
    eexists. split; [done|].
    assert (Z.land (br_buf r1) (if Z.of_nat (b - n) =? 0 then 0 else u32 (Z.shiftl 1 (Z.of_nat (b - n))) - 1) =
      wrap (Z.of_nat (b - n)) (br_buf r1)) as ->.
    { destruct (Z.eqb_spec (Z.of_nat (b - n)) 0) as [->|]; [|apply mask_wrap; lia].
      rewrite Z.land_0_r. symmetry. apply Z.mod_1_r. }
    split_and!; cbn [br_bits br_buf br_words].
    + rewrite El1, Nat2Z.id. f_equal. by rewrite bits_be_ext.
    + lia.
    + lia.
    + apply wrap_range. lia.
    + done.
Qed.

Lemma get_bytes_spec v r l :
  br_has r (bytes_bits v ++ l) -> exists r', get_bytes (length v) r = Some (v, r') /\ br_has r' l.
Proof.
  revert r. induction v as [|b v IH]; intros r Hr; [by exists r|].
  rewrite bytes_bits_cons, <- app_assoc in Hr. cbn [length get_bytes].
  destruct (br_get_spec r 8 (byte.unsigned b) _ Hr ltac:(lia) (byte_range b)) as (r1 & E & H1).
  change (Z.of_nat 8) with 8 in E. rewrite E. cbn [mbind option_bind].
  destruct (IH r1 H1) as (r' & -> & H). exists r'. cbn [mbind option_bind]. by rewrite byte.of_Z_unsigned.
Qed.

(** ** The text *)

Definition word_of (w : Z) : bytes := nth (Z.to_nat w) slip0039_wordlist [].

Fixpoint join (ws : list Z) : bytes :=
  match ws with
  | [] => []
  | w :: ws => word_of w ++ match ws with [] => [] | _ => Byte.x20 :: join ws end
  end.

Lemma word_of_ok w :
  urange 10 w -> (1 <= length (word_of w) <= 8)%nat /\ Forall (fun c => is_sep c = false) (word_of w).
Proof.
  intros Hw. pose proof (nth_word w Hw) as H. fold (word_of w) in H. unfold word_ok in H.
  apply andb_true_iff in H as [[H1 H2]%andb_true_iff H3]. apply Z.ltb_lt in H1. apply Z.leb_le in H2.
  split; [lia|]. apply Forall_forall. intros c Hc.
  eapply forallb_forall in H3; [|by apply list_elem_of_In]. revert H3. destruct c; vm_compute; congruence.
Qed.

Lemma render_spec ws out out_size :
  Forall (urange 10) ws -> Z.of_nat (length out + 9 * length ws) < out_size ->
  render ws out out_size = Some (out ++ join ws).
Proof.
  intros Hws. revert out. induction Hws as [|w ws Hw Hws IH]; intros out Hl; cbn [render join length] in *.
  { by rewrite app_nil_r. }
  unfold urange in Hw. rewrite (proj2 (Z.leb_gt _ _)) by (unfold SLIP0039_WORDLIST_SIZE; lia).
  fold (word_of w). pose proof (word_of_ok w Hw) as [Hlw _]. rewrite (proj2 (Z.leb_gt _ _)) by lia.
  rewrite IH.
  - destruct ws; [by rewrite !app_nil_r|]. by rewrite <- !app_assoc.
  - rewrite !length_app. destruct ws; cbn [length] in *; lia.
Qed.

Lemma skip_seps_word w rest : urange 10 w -> skip_seps (word_of w ++ rest) = word_of w ++ rest.
Proof.
  intros Hw. pose proof (word_of_ok w Hw) as [Hl Hs]. destruct (word_of w) as [|c m]; [cbn in Hl; lia|].
  cbn [app skip_seps]. by rewrite (Forall_inv Hs).
Qed.

Lemma next_word_spec m rest :
  Forall (fun c => is_sep c = false) m ->
  match rest with [] => True | c :: _ => is_sep c = true end -> next_word (m ++ rest) = (m, rest).
Proof.
  intros Hm Hr. induction Hm as [|c m Hc Hm IH]; cbn [app next_word].
  - destruct rest as [|c rest]; [done|]. cbn [next_word]. by rewrite Hr.
  - by rewrite Hc, IH.
Qed.

Lemma tokenize_spec fuel ws p acc :
  Forall (urange 10) ws -> skip_seps p = join ws -> (length ws <= fuel)%nat -> (length acc + length ws <= 40)%nat ->
  tokenize fuel p acc = Some (Some (acc ++ ws)).
Proof.
  intros Hws. revert fuel p acc. induction Hws as [|w ws Hw Hws IH]; intros fuel p acc Hp Hf Hl.
  { destruct fuel; cbn [tokenize]; rewrite Hp; cbn [join]; by rewrite app_nil_r. }
  destruct fuel as [|fuel]; cbn [length] in *; [lia|]. cbn [tokenize]. rewrite Hp.
  pose proof (word_of_ok w Hw) as [Hlw Hs]. cbn [join].
  set (rest := match ws with [] => [] | _ => Byte.x20 :: join ws end).
  assert (exists c m, word_of w ++ rest = c :: m) as (c & m & E).
  { destruct (word_of w) as [|c m]; [cbn in Hlw; lia|]. by eexists _, _. }
  rewrite E, <- E. rewrite next_word_spec; [|done|by destruct ws].
  rewrite (proj2 (Nat.eqb_neq _ 0)), (proj2 (Nat.ltb_ge 8 _)) by lia. cbn [orb].
  rewrite (proj2 (Nat.leb_gt 40 _)) by lia. unfold word_of. rewrite word_to_index_nth by exact Hw.
  unfold urange in Hw. rewrite (proj2 (Z.ltb_ge _ _)) by lia. rewrite (IH fuel rest (acc ++ [w])).
  - by rewrite <- app_assoc.
  - unfold rest. destruct ws as [|w' ws]; [done|]. cbn [skip_seps].
    change (is_sep Byte.x20) with true. cbv iota. apply Forall_inv in Hws. cbn [join]. by apply skip_seps_word.
  - lia.
  - rewrite length_app. cbn [length]. lia.
Qed.

Lemma length_join ws : Forall (urange 10) ws -> (length ws <= length (join ws))%nat.
Proof.
  induction 1 as [|w ws Hw Hws IH]; [done|]. pose proof (word_of_ok w Hw) as [Hl _].
  cbn [join length]. rewrite length_app. destruct ws; cbn [length] in *; lia.
Qed.

Lemma text_round_trip ws value_len :
  Forall (urange 10) ws -> (length ws <= 33)%nat ->
  render ws [] SLIP0039_MAX_SHARE_STR_SIZE = Some (join ws) /\
  slip0039_decode_mnemonic (join ws) value_len = decode_words ws value_len.
Proof.
  intros Hws Hl. split; [apply render_spec; [done|unfold SLIP0039_MAX_SHARE_STR_SIZE; cbn [length]; lia]|].
  unfold slip0039_decode_mnemonic. rewrite (tokenize_spec _ ws (join ws) []); try done.
  - destruct ws as [|w ws]; [done|]. cbn [join]. apply skip_seps_word, (Forall_inv Hws).
  - by apply length_join.
  - cbn [length]. lia.
Qed.

(** ** Encoding and decoding *)

Record header_ok (h : share_header) : Prop := {
  ok_identifier : urange 15 (identifier h);
  ok_iter_exp : 0 <= iter_exp h <= 15;
  ok_group_idx : 0 <= group_idx h <= 15;
  ok_group_thr : 1 <= group_thr h <= group_count h;
  ok_group_count : group_count h <= 16;
  ok_member_idx : 0 <= member_idx h <= 15;
  ok_member_thr : 1 <= member_thr h <= 16;
}.

Definition header_fields (h : share_header) : list (Z * Z) :=
  [(identifier h, 15); (0, 1); (iter_exp h, 4); (group_idx h, 4); (group_thr h - 1, 4);
   (group_count h - 1, 4); (member_idx h, 4); (member_thr h - 1, 4)].

Definition secret_len_ok (n : nat) : Prop := (16 <= n <= 32)%nat /\ Z.land (Z.of_nat n) 1 = 0.

Lemma secret_len_cases n :
  secret_len_ok n -> n = 16%nat \/ n = 18%nat \/ n = 20%nat \/ n = 22%nat \/ n = 24%nat \/ n = 26%nat \/
    n = 28%nat \/ n = 30%nat \/ n = 32%nat.
Proof.
  intros [Hn He]. assert (exists m, n = (16 + m)%nat /\ (m <= 16)%nat) as (m & -> & Hm) by (exists (n - 16)%nat; lia).
  do 17 (destruct m as [|m]; [first [discriminate He | lia]|]). lia.
Qed.

(** The padding, and the words of the value. *)
Lemma secret_len_words n :
  secret_len_ok n -> exists pad k, pad_bits_for (Z.of_nat n * 8) = Z.of_nat pad /\
    (8 * n + pad = 10 * k)%nat /\ (13 <= k <= 26)%nat /\ (pad < 10)%nat /\
    (Z.of_nat n * 8 + Z.of_nat pad) / 10 = Z.of_nat k /\
    (n <> 24%nat -> Z.of_nat k * 10 mod 8 = Z.of_nat pad).
Proof.
  intros H%secret_len_cases. exists (Z.to_nat (pad_bits_for (Z.of_nat n * 8))).
  exists (Z.to_nat ((Z.of_nat n * 8 + pad_bits_for (Z.of_nat n * 8)) / 10)).
  repeat (destruct H as [->|H]; [vm_compute; split_and!; congruence || lia|]). subst. vm_compute; split_and!; congruence || lia.
Qed.

Lemma length_header_bits h : length (fields_bits (header_fields h)) = 40%nat.
Proof. unfold fields_bits, header_fields. cbn [fmap list_fmap concat]. rewrite !length_app, !length_bits_be. done. Qed.

Lemma value_fields_bits v : fields_bits ((fun b => (byte.unsigned b, 8)) <$> v) = bytes_bits v.
Proof. unfold fields_bits, bytes_bits. rewrite <- list_fmap_compose. done. Qed.

Lemma encode_words_spec h v :
  header_ok h -> secret_len_ok (length v) ->
  exists ws c pad k, encode_words h v = Some (ws ++ c) /\ length c = 3%nat /\ length ws = (4 + k)%nat /\
    Forall (urange 10) (ws ++ c) /\ rs1024_verify_checksum (ws ++ c) false = true /\
    words_bits ws = fields_bits (header_fields h) ++ bits_be pad 0 ++ bytes_bits v /\
    (8 * length v + pad = 10 * k)%nat /\ (13 <= k <= 26)%nat /\ (pad < 10)%nat /\
    (length v <> 24%nat -> Z.of_nat k * 10 mod 8 = Z.of_nat pad).
Proof.
  intros [Hi He Hg Ht Hc Hm Hmt] Hlen. pose proof Hlen as [Hr Hev]. unfold urange in Hi.
  destruct (secret_len_words _ Hlen) as (pad & k & Epad & Ek & Hk & Hpad & Ediv & Edec).
  unfold encode_words. repeat match goal with |- context [?a <? ?b] => rewrite (proj2 (Z.ltb_ge a b)) by (unfold SLIP0039_MIN_SECRET_BYTES, SLIP0039_MAX_SECRET_BYTES; lia) end.
  rewrite Hev. cbn [orb negb Z.eqb]. rewrite Epad, Ediv.
  rewrite (proj2 (Z.ltb_ge 40 _)) by lia.
  destruct (put_fields_spec (header_fields h) (bw_init (4 + Z.of_nat k + 3 - 3)) []) as (w1 & E1 & H1 & C1).
  { apply bw_init_has. }
  { unfold header_fields. repeat (constructor; [cbn [snd]; lia|]). constructor. }
  { rewrite length_header_bits. cbn [bw_init bw_capacity length]. lia. }
  unfold header_fields in E1. rewrite E1. cbn [mbind option_bind app] in *. cbn [bw_init bw_capacity] in C1.
  assert (exists w2, (if Z.of_nat pad =? 0 then Some w1 else bw_put w1 0 (Z.of_nat pad)) = Some w2 /\
    bw_has w2 (fields_bits (header_fields h) ++ bits_be pad 0) /\ bw_capacity w2 = bw_capacity w1) as (w2 & E2 & H2 & C2).
  { destruct (Z.eqb_spec (Z.of_nat pad) 0) as [E0|E0].
    - exists w1. replace pad with 0%nat by lia. cbn [bits_be]. rewrite app_nil_r. done.
    - apply (bw_put_spec w1 _ 0 pad H1). rewrite C1, length_header_bits. lia. }
  rewrite E2. cbn [mbind option_bind].
  destruct (put_fields_spec ((fun b => (byte.unsigned b, 8)) <$> v) w2 _ H2) as (w3 & E3 & H3 & C3).
  { apply Forall_fmap, Forall_forall. intros b _. cbn. lia. }
  { rewrite value_fields_bits, length_bytes_bits, length_app, length_header_bits, length_bits_be, C2, C1. lia. }
  rewrite E3. cbn [mbind option_bind]. rewrite value_fields_bits, <- app_assoc in H3.
  destruct H3 as (p & El & Hb & Hlt & _ & Hws).
  pose proof (f_equal length El) as Hl. rewrite !length_app, length_header_bits, length_bits_be, length_bytes_bits,
    length_words_bits in Hl.
  assert (length (bw_words w3) = 4 + k)%nat as Hlw by lia. assert (length p = 0%nat) as Hp by lia.
  destruct p; [|done]. rewrite app_nil_r in El. rewrite Hlw.
  replace (Z.to_nat (4 + Z.of_nat k + 3) - (4 + k))%nat with 3%nat by lia.
  destruct (create_checksum_spec (bw_words w3) false Hws ltac:(lia)) as (a & b & c & Ec & Ha & Hb' & Hc' & V).
  exists (bw_words w3), [a; b; c], pad, k. cbn [replicate]. rewrite Ec.
  split; [done|]. split; [done|]. split; [done|]. split; [|split_and!; done || lia].
  apply Forall_app. split; [done|]. do 3 (constructor; [done|]). constructor.
Qed.

(** The bit for extendable shares, read off the first two words. *)
Lemma ext_bit_spec id iter w0 w1 ws l :
  urange 15 id -> 0 <= iter <= 15 -> urange 10 w0 -> urange 10 w1 ->
  words_bits (w0 :: w1 :: ws) = bits_be 15 id ++ bits_be 1 0 ++ bits_be 4 iter ++ l ->
  Z.land (Z.shiftr (Z.lor (u32 (Z.shiftl w0 10)) w1) 4) 1 = 0.
Proof.
  unfold urange. intros Hi He H0 H1 E. rewrite !words_bits_cons, !(app_assoc (bits_be 15 id)), !app_assoc in E.
  rewrite <- (app_assoc (bits_be 10 w0 ++ bits_be 10 w1)) in E || idtac.
  assert (bits_be 10 w0 ++ bits_be 10 w1 = (bits_be 15 id ++ bits_be 1 0) ++ bits_be 4 iter) as Eb.
  { apply app_inj_1 in E as [E _]; [done|]. by rewrite !length_app, !length_bits_be. }
  pose proof (f_equal bits_val Eb) as Ev.
  rewrite !bits_val_app, !bits_val_be, !length_bits_be, !wrap_small in Ev by (unfold urange; lia).
  change (2 ^ Z.of_nat 10) with (2 ^ 10) in Ev. change (2 ^ Z.of_nat 1) with 2 in Ev. change (2 ^ Z.of_nat 4) with 16 in Ev.
  rewrite Z.shiftl_mul_pow2, (wrap_small 32) by (unfold urange; lia).
  rewrite (lor_disjoint _ _ 10); [|lia|by exists w0|lia]. rewrite Ev.
  change 1 with (Z.ones 1). rewrite Z.land_ones, Z.shiftr_div_pow2 by lia.
  assert (((id * 2 + 0) * 16 + iter) / 2 ^ 4 = id * 2) as -> by (symmetry; apply (Z.div_unique _ _ _ iter); lia).
  by rewrite Z.mod_mul.
Qed.

Lemma header_bits_eq h :
  fields_bits (header_fields h) =
  bits_be 15 (identifier h) ++ bits_be 1 0 ++ bits_be 4 (iter_exp h) ++ bits_be 4 (group_idx h) ++
  bits_be 4 (group_thr h - 1) ++ bits_be 4 (group_count h - 1) ++ bits_be 4 (member_idx h) ++ bits_be 4 (member_thr h - 1).
Proof.
  unfold fields_bits, header_fields. cbn [fmap list_fmap concat]. rewrite app_nil_r. done.
Qed.

(** One read of a field that is in front. *)
Ltac br_field H :=
  match type of H with
  | br_has ?r (bits_be ?n ?v ++ ?l) =>
      let r' := fresh "r" in let E := fresh "E" in
      destruct (br_get_spec r n v l H ltac:(lia)) as (r' & E & H');
      [unfold urange; cbn; lia|];
      let m := eval vm_compute in (Z.of_nat n) in change (Z.of_nat n) with m in E;
      rewrite E; cbn [mbind option_bind]; clear E H; rename H' into H; try clear r
  end.

Lemma decode_words_spec h v ws c pad k :
  header_ok h -> secret_len_ok (length v) -> length v <> 24%nat ->
  length c = 3%nat -> length ws = (4 + k)%nat -> Forall (urange 10) (ws ++ c) ->
  rs1024_verify_checksum (ws ++ c) false = true ->
  words_bits ws = fields_bits (header_fields h) ++ bits_be pad 0 ++ bytes_bits v ->
  (8 * length v + pad = 10 * k)%nat -> (13 <= k <= 26)%nat -> (pad < 10)%nat ->
  Z.of_nat k * 10 mod 8 = Z.of_nat pad ->
  decode_words (ws ++ c) SLIP0039_MAX_SECRET_BYTES = Some (h, false, v).
Proof.
  intros [Hi He Hg Ht Hc Hm Hmt] Hlen H24 Hcl Hwl Hws V Hbits Hk Hkr Hpad Hdec.
  pose proof Hlen as [Hr Hev]. apply Forall_app in Hws as [Hws _].
  unfold decode_words. rewrite length_app, Hcl, Hwl.
  rewrite (proj2 (Z.ltb_ge _ 8)), (proj2 (Z.ltb_ge 40 _)) by lia.
  destruct ws as [|w0 [|w1 ws]]; [cbn in Hwl; lia..|].
  pose proof (Forall_inv Hws) as Hw0. pose proof (Forall_inv (Forall_inv_tail Hws)) as Hw1.
  change (nth 0 ((w0 :: w1 :: ws) ++ c) 0) with w0. change (nth 1 ((w0 :: w1 :: ws) ++ c) 0) with w1.
  rewrite (ext_bit_spec (identifier h) (iter_exp h) w0 w1 ws _ Hi He Hw0 Hw1 Hbits).
  cbn [Z.eqb negb]. rewrite V. cbn [negb].
  replace ((Z.of_nat (4 + k + 3) - 4 - 3) * 10) with (Z.of_nat k * 10) by lia.
  rewrite (proj2 (Z.ltb_ge _ 8)) by lia. rewrite Hdec.
  replace (Z.of_nat k * 10 - Z.of_nat pad) with (Z.of_nat (length v) * 8) by lia.
  rewrite Z.div_mul by lia.
  assert (Z.land (Z.of_nat (length v) * 8) 7 = 0) as ->.
  { change 7 with (Z.ones 3). rewrite Z.land_ones by lia. apply Z.mod_mul. lia. }
  rewrite Hev. cbn [negb Z.eqb].
  repeat match goal with |- context [?a <? ?b] => rewrite (proj2 (Z.ltb_ge a b)) by (unfold SLIP0039_MIN_SECRET_BYTES, SLIP0039_MAX_SECRET_BYTES; lia) end.
  cbn [orb]. replace (Z.to_nat (Z.of_nat (4 + k + 3) - 3)) with (length (w0 :: w1 :: ws)) by lia.
  rewrite take_app_length. pose proof (br_init_has _ Hws) as Hr0. rewrite Hbits in Hr0.
  rewrite header_bits_eq, <- !app_assoc in Hr0. unfold urange in Hi.
  br_field Hr0. br_field Hr0. br_field Hr0. br_field Hr0. br_field Hr0. br_field Hr0.
  rewrite (proj2 (Z.ltb_ge _ _)) by lia. br_field Hr0. br_field Hr0.
  match type of Hr0 with br_has ?r _ => rename r into rd end.
  assert (exists r', (if Z.of_nat pad =? 0 then Some rd else '(v, r) ← br_get rd (Z.of_nat pad); if negb (v =? 0) then None else Some r) =
    Some r' /\ br_has r' (bytes_bits v)) as (r' & E & Hr').
  { destruct (Z.eqb_spec (Z.of_nat pad) 0) as [E0|E0].
    - exists rd. split; [done|]. by replace pad with 0%nat in Hr0 by lia.
    - destruct (br_get_spec rd pad 0 _ Hr0 ltac:(lia)) as (r' & E & Hr'); [unfold urange; split; [lia|apply Z.pow_pos_nonneg; lia]|].
      exists r'. by rewrite E. }
  rewrite E. cbn [mbind option_bind]. rewrite Nat2Z.id. rewrite <- (app_nil_r (bytes_bits v)) in Hr'.
  destruct (get_bytes_spec v r' [] Hr') as (r'' & -> & _). cbn [mbind option_bind].
  rewrite !Z.sub_add. by destruct h.
Qed.

(** The share of a header and a value is a text of words from the list. *)
Lemma encode_mnemonic_text h v :
  header_ok h -> secret_len_ok (length v) ->
  exists ws, encode_words h v = Some ws /\ slip0039_encode_mnemonic h v SLIP0039_MAX_SHARE_STR_SIZE = Some (join ws) /\
    (forall value_len, slip0039_decode_mnemonic (join ws) value_len = decode_words ws value_len).
Proof.
  intros Hh Hl. destruct (encode_words_spec h v Hh Hl) as (ws & c & pad & k & E & Hc & Hw & Hr & _ & _ & _ & Hk & _).
  exists (ws ++ c). split; [done|]. unfold slip0039_encode_mnemonic. rewrite E. cbn [mbind option_bind].
  assert (length (ws ++ c) <= 33)%nat as Hl33 by (rewrite length_app; lia).
  split; [apply (text_round_trip _ 0 Hr Hl33)|intros value_len; apply (text_round_trip _ value_len Hr Hl33)].
Qed.

Lemma decode_encoded h v :
  header_ok h -> secret_len_ok (length v) -> length v <> 24%nat ->
  exists text, slip0039_encode_mnemonic h v SLIP0039_MAX_SHARE_STR_SIZE = Some text /\
    slip0039_decode_mnemonic text SLIP0039_MAX_SECRET_BYTES = Some (h, false, v).
Proof.
  intros Hh Hl H24. destruct (encode_mnemonic_text h v Hh Hl) as (ws & E & Et & Ed).
  exists (join ws). split; [done|]. rewrite Ed.
  destruct (encode_words_spec h v Hh Hl) as (ws' & c & pad & k & E' & Hc & Hw & Hr & V & Hb & Hlk & Hk & Hp & Hdec).
  rewrite E in E'. injection E' as ->. by apply (decode_words_spec h v ws' c pad k); auto.
Qed.

(** A share survives being written down: for a header with its fields in their ranges and
    a value of 16 to 32 bytes, an even number other than 24, [slip0039_encode_mnemonic] into a
    buffer of the size callers use succeeds, and [slip0039_decode_mnemonic] of the text gives the
    header, the extendable bit clear and the value. *)
Theorem mnemonic_round_trip (h : share_header) (v : bytes) (Hh : header_ok h) (Hl : secret_len_ok (length v))
  (H24 : length v <> 24%nat) :
  exists text, slip0039_encode_mnemonic h v SLIP0039_MAX_SHARE_STR_SIZE = Some text /\
    slip0039_decode_mnemonic text SLIP0039_MAX_SECRET_BYTES = Some (h, false, v).
Proof. by apply decode_encoded. Qed.

Lemma mnemonic_round_trip_witness :
  exists text, slip0039_encode_mnemonic (mk_share_header 7945 0 0 1 1 0 1) (replicate 16 Byte.xbb)
      SLIP0039_MAX_SHARE_STR_SIZE = Some text /\
    slip0039_decode_mnemonic text SLIP0039_MAX_SECRET_BYTES =
      Some (mk_share_header 7945 0 0 1 1 0 1, false, replicate 16 Byte.xbb).
Proof.
  apply (mnemonic_round_trip (mk_share_header 7945 0 0 1 1 0 1) (replicate 16 Byte.xbb)).
  - split; cbn; unfold urange; lia.
  - split; [cbn; lia|reflexivity].
  - done.
Defined.

Lemma decode_24 h v :
  header_ok h -> length v = 24%nat ->
  exists text, slip0039_encode_mnemonic h v SLIP0039_MAX_SHARE_STR_SIZE = Some text /\
    forall value_len, slip0039_decode_mnemonic text value_len = None.
Proof.
  intros Hh Hl. assert (secret_len_ok (length v)) as Hl' by (rewrite Hl; split; [lia|done]).
  destruct (encode_mnemonic_text h v Hh Hl') as (ws & E & Et & Ed). exists (join ws). split; [done|].
  intros value_len. rewrite Ed.
  destruct (encode_words_spec h v Hh Hl') as (ws' & c & pad & k & E' & Hc & Hw & _ & _ & _ & Hlk & _ & Hp & _).
  rewrite E in E'. injection E' as ->. assert (k = 20)%nat as -> by lia.
  unfold decode_words. rewrite length_app, Hc, Hw. cbn [Nat.add Z.of_nat].
  destruct (negb (rs1024_verify_checksum _ _)); [|done]. by destruct (value_len <? 25).
Qed.

(** What is read is in the range of its number of bits. *)
Lemma br_get_range r n v r' : 0 <= n < 32 -> br_get r n = Some (v, r') -> urange n v.
Proof.
  intros Hn. unfold br_get. destruct (br_fill _ _ _ _) as [r1|]; [|done]. cbn [mbind option_bind].
  intros [= <- _]. rewrite (proj2 (Z.eqb_neq n 32)) by lia. rewrite mask_wrap by lia. apply wrap_range. lia.
Qed.

Lemma get_bytes_length n r v r' : get_bytes n r = Some (v, r') -> length v = n.
Proof.
  revert r v r'. induction n as [|n IH]; intros r v r'; cbn [get_bytes]; [by intros [= <- _]|].
  destruct (br_get r 8) as [[b r1]|]; [|done]. cbn [mbind option_bind].
  destruct (get_bytes n r1) as [[l r2]|] eqn:E; [|done]. cbn [mbind option_bind]. intros [= <- _].
  cbn [length]. by rewrite (IH _ _ _ E).
Qed.

(** Takes one read of [decode_words] apart. *)
Ltac br_read :=
  match goal with
  | |- (br_get ?r ?n ≫= _) = Some _ -> _ =>
      let E := fresh "E" in let v := fresh "v" in let r' := fresh "r'" in
      destruct (br_get r n) as [[v r']|] eqn:E; [apply br_get_range in E; [|lia]|done]; cbn [mbind option_bind]
  | |- (if ?c then None else _) = Some _ -> _ => let H := fresh "H" in destruct c eqn:H; [done|]
  end.

(** Whatever the text, what [slip0039_decode_mnemonic] accepts is well formed: the fields of
    the header are in the ranges that [slip0039_encode_mnemonic] asks for, the group threshold is
    at most the number of groups, and the value has an even number of bytes, 16 to 32, that fits
    the caller's buffer. *)
Theorem decode_well_formed (text : bytes) (value_len : Z) (h : share_header) (ext : bool) (v : bytes)
  (E : slip0039_decode_mnemonic text value_len = Some (h, ext, v)) :
  header_ok h /\ secret_len_ok (length v) /\ Z.of_nat (length v) <= value_len.
Proof.
  revert E. unfold slip0039_decode_mnemonic. destruct (default None _) as [words|]; [|done].
  cbn [mbind option_bind]. unfold decode_words. set (share_bits := (_ - 4 - 3) * 10).
  set (ems_len := (share_bits - share_bits mod 8) / 8). repeat br_read.
  destruct (if share_bits mod 8 =? 0 then _ else _) as [r|]; [|done]. cbn [mbind option_bind].
  destruct (get_bytes _ r) as [[value r1]|] eqn:Ev; [|done]. cbn [mbind option_bind]. intros [= <- _ <-].
  apply get_bytes_length in Ev. unfold urange, SLIP0039_MIN_SECRET_BYTES, SLIP0039_MAX_SECRET_BYTES in *.
  repeat match goal with H : (_ || _) = false |- _ => apply orb_false_iff in H as [? H] end.
  repeat match goal with H : negb _ = false |- _ => apply negb_false_iff in H end.
  repeat match goal with H : (_ <? _) = false |- _ => apply Z.ltb_ge in H end.
  repeat match goal with H : (_ =? _) = true |- _ => apply Z.eqb_eq in H end.
  rewrite Ev. split; [split; cbn; unfold urange; lia|]. unfold secret_len_ok. rewrite Z2Nat.id by lia. split; [|lia].
  split; [lia|done].
Qed.

Lemma decode_well_formed_witness :
  slip0039_decode_mnemonic (list_byte_of_string "duckling enlarge academic academic agency result length solution fridge kidney coal piece deal husband erode duke ajar critical decision keyboard"%string) 32 =
    Some (mk_share_header 7945 0 0 1 1 0 1, false,
        byte.of_Z <$> [0x11; 0xbc; 0x60; 0x9d; 0x21; 0x74; 0x7c; 0x49; 0xba; 0x78; 0xc0; 0x70; 0x12; 0x93; 0xe4; 0x17]) /\
  header_ok (mk_share_header 7945 0 0 1 1 0 1) /\ secret_len_ok 16 /\ 16 <= 32.
Proof.
  assert (slip0039_decode_mnemonic (list_byte_of_string "duckling enlarge academic academic agency result length solution fridge kidney coal piece deal husband erode duke ajar critical decision keyboard"%string) 32 =
    Some (mk_share_header 7945 0 0 1 1 0 1, false,
        byte.of_Z <$> [0x11; 0xbc; 0x60; 0x9d; 0x21; 0x74; 0x7c; 0x49; 0xba; 0x78; 0xc0; 0x70; 0x12; 0x93; 0xe4; 0x17])) as E
    by (vm_compute; reflexivity).
  split; [exact E|]. exact (decode_well_formed _ 32 _ _ _ E).
Defined.
