(* ===== verification/Slip39.v ===== *)
(** * Shares of a seed ([src/src/slip0039.c])

    Encrypting the master secret with four Feistel rounds, splitting it into shares, writing
    the shares down, and recovering the secret from the texts. *)

From S2P Require Import Prelude Words Hmac Sha256 Gf256 Rs1024 Slip39Text.

Local Open Scope Z_scope.

Definition SLIP0039_MAX_SHARES : Z := 16.
Definition SLIP0039_DIGEST_INDEX : Byte.byte := Byte.xfe.
Definition SLIP0039_SECRET_INDEX : Byte.byte := Byte.xff.
Definition SLIP0039_DIGEST_LENGTH_BYTES : nat := 4.
Definition SLIP0039_BASE_ITERATION_COUNT : Z := 10000.
Definition SLIP0039_ROUND_COUNT : Z := 4.
Definition SLIP0039_DEFAULT_ITER_EXP : Z := 1.
(** ["shamir"] *)
Definition SLIP0039_CUSTOMIZATION_STRING : bytes :=
  [Byte.x73; Byte.x68; Byte.x61; Byte.x6d; Byte.x69; Byte.x72].

(** ** Encrypting the master secret *)

(** [out] is overwritten whole. *)
Definition slip0039_round_function (round_index : Z) (passphrase : bytes) (identifier iter_exp : Z)
    (extendable : bool) (r_half : bytes) : option bytes :=
  if 256 <? Z.of_nat (length passphrase) then None
  else
    let pass_buf := byte.of_Z round_index :: passphrase in
    let half_len := length r_half in
    salt_buf ←
      (if extendable then
         if 80 <? Z.of_nat half_len then None else Some r_half
       else if 80 <? 6 + 2 + Z.of_nat half_len then None
       else Some (SLIP0039_CUSTOMIZATION_STRING ++
                  [byte.of_Z (Z.land (Z.shiftr identifier 8) 0xFF); byte.of_Z (Z.land identifier 0xFF)] ++ r_half));
    let iters := u32 (Z.shiftl SLIP0039_BASE_ITERATION_COUNT iter_exp) / SLIP0039_ROUND_COUNT in
    Some (pbkdf2_hmac_sha256 pass_buf salt_buf iters (zeros half_len) half_len).

(** One round: the right half goes to the left. *)
Definition feistel_round (passphrase : bytes) (identifier iter_exp : Z) (extendable : bool)
    (LR : option (bytes * bytes)) (i : Z) : option (bytes * bytes) :=
  '(L, R) ← LR;
  F ← slip0039_round_function i passphrase identifier iter_exp extendable R;
  Some (R, xor_bytes F L).

(** The halves through the rounds of these numbers, and swapped at the end. *)
Definition feistel (rounds : list Z) (ms passphrase : bytes) (identifier iter_exp : Z) (extendable : bool) : option bytes :=
  let ms_len := length ms in
  if (Z.of_nat ms_len <? 2) || negb (Z.land (Z.of_nat ms_len) 1 =? 0) then None
  else
    let half := (ms_len / 2)%nat in
    if SLIP0039_MAX_SECRET_BYTES / 2 <? Z.of_nat half then None
    else
      '(L, R) ← foldl (feistel_round passphrase identifier iter_exp extendable) (Some (take half ms, drop half ms)) rounds;
      Some (R ++ L).

Definition slip0039_encrypt := feistel [0; 1; 2; 3].
Definition slip0039_decrypt := feistel [3; 2; 1; 0].

(** ** Splitting and combining *)

Definition slip0039_make_digest_share (secret random_pad : bytes) : bytes :=
  take SLIP0039_DIGEST_LENGTH_BYTES (hmac_sha256 random_pad secret) ++ random_pad.

Definition slip0039_verify_digest_share (secret digest_share : bytes) : bool :=
  bool_decide (take SLIP0039_DIGEST_LENGTH_BYTES (hmac_sha256 (drop SLIP0039_DIGEST_LENGTH_BYTES digest_share) secret) =
               take SLIP0039_DIGEST_LENGTH_BYTES digest_share).

Definition index_byte (i : nat) : Byte.byte := byte.of_Z (Z.of_nat i).

Definition slip0039_combine (xs : bytes) (ys : list bytes) (n : Z) (ems_len : nat) (threshold : Z) : option bytes :=
  if negb (n =? threshold) then None
  else if threshold =? 1 then Some (nth 0 ys [])
  else
    let xs := take (Z.to_nat n) xs in
    let ys := take (Z.to_nat n) ys in
    ems ← gf256_lagrange SLIP0039_SECRET_INDEX xs ys ems_len;
    digest_share ← gf256_lagrange SLIP0039_DIGEST_INDEX xs ys ems_len;
    if slip0039_verify_digest_share ems digest_share then Some ems else None.

Section with_random.

(** [dogecoin_random_bytes]: what the call of each number gives for a length, or failure. *)
Context (random_bytes : nat -> nat -> option bytes).

(** [shares_y_out], as the vectors in it; [call]: the number of the first call for random bytes. *)
Definition slip0039_split (call : nat) (ems : bytes) (threshold share_count : Z) : option (list bytes) :=
  if (threshold <? 1) || (share_count <? threshold) || (SLIP0039_MAX_SHARES <? share_count) then None
  else if threshold =? 1 then Some (replicate (Z.to_nat share_count) ems)
  else
    let ems_len := length ems in
    let t := Z.to_nat (threshold - 2) in
    random_y ← mapM (fun i => random_bytes (call + i) ems_len) (seq 0 t);
    random_pad ← random_bytes (call + t) (ems_len - SLIP0039_DIGEST_LENGTH_BYTES);
    let digest_share := slip0039_make_digest_share ems random_pad in
    let known_x := (index_byte <$> seq 0 t) ++ [SLIP0039_DIGEST_INDEX; SLIP0039_SECRET_INDEX] in
    let known_y := random_y ++ [digest_share; ems] in
    rest ← mapM (fun i => gf256_lagrange (index_byte i) known_x known_y ems_len)
             (seq t (Z.to_nat share_count - t));
    Some (random_y ++ rest).

(** ** From a secret to texts *)

Definition dogecoin_slip0039_generate_shares (secret : bytes) (threshold share_count : Z) : option (list bytes) :=
  let secret_len := Z.of_nat (length secret) in
  if (secret_len <? SLIP0039_MIN_SECRET_BYTES) || (SLIP0039_MAX_SECRET_BYTES <? secret_len) ||
     negb (Z.land secret_len 1 =? 0) then None
  else if (threshold <? 1) || (share_count <? threshold) || (SLIP0039_MAX_SHARES <? share_count) then None
  else
    id_bytes ← random_bytes 0 2;
    let identifier := Z.land (Z.lor (Z.shiftl (byte.unsigned (nth 0 id_bytes Byte.x00)) 8)
                                    (byte.unsigned (nth 1 id_bytes Byte.x00))) 0x7FFF in
    let iter_exp := SLIP0039_DEFAULT_ITER_EXP in
    ems ← slip0039_encrypt secret [] identifier iter_exp false;
    share_y ← slip0039_split 1 ems threshold share_count;
    mapM (fun i =>
            slip0039_encode_mnemonic (mk_share_header identifier iter_exp 0 1 1 (Z.of_nat i) threshold)
              (nth i share_y []) SLIP0039_MAX_SHARE_STR_SIZE)
      (seq 0 (Z.to_nat share_count)).

End with_random.

(** ** From texts to the secret *)

(** [g_xs], [g_ys]: the first [member_count] of the arrays. *)
Record group_slot_t := mk_group {
  present : bool; g_member_thr : Z; g_xs : bytes; g_ys : list bytes; used_mi : list bool }.

Definition member_count (g : group_slot_t) : Z := Z.of_nat (length (g_xs g)).

Definition group_zero : group_slot_t := mk_group false 0 [] [] (replicate 16 false).

(** The common parameters, once there is a share. *)
Record share_common := mk_common {
  common_id : Z; common_ext : bool; common_iter : Z; common_gt : Z; common_gc : Z; common_len : nat }.

#[export] Instance share_common_eq_dec : EqDecision share_common.
Proof. solve_decision. Defined.

Definition recover_state : Type := option share_common * list group_slot_t.

Definition recover_start : recover_state := (None, replicate 16 group_zero).

(** One turn of the loop that parses and groups the shares. *)
Definition add_share (st : option recover_state) (share : bytes) : option recover_state :=
  '(common, groups) ← st;
  '(h, ext, value) ← slip0039_decode_mnemonic share SLIP0039_MAX_SECRET_BYTES;
  let params := mk_common (identifier h) ext (iter_exp h) (group_thr h) (group_count h) (length value) in
  if negb (match common with None => true | Some c => bool_decide (c = params) end) then None
  else if SLIP0039_MAX_SHARES <=? group_idx h then None
  else
    let gi := Z.to_nat (group_idx h) in
    let g := nth gi groups group_zero in
    let mt := member_thr h in
    let mi := member_idx h in
    if present g && negb (g_member_thr g =? mt) then None
    else if (SLIP0039_MAX_SHARES <=? mi) || nth (Z.to_nat mi) (used_mi g) false then None
    else if SLIP0039_MAX_SHARES <=? member_count g then None
    else
      let g := mk_group true mt (g_xs g ++ [byte.of_Z mi]) (g_ys g ++ [value]) (<[Z.to_nat mi := true]> (used_mi g)) in
      Some (Some params, <[gi := g]> groups).

(** The loop over the groups, with the coordinates found so far. *)
Definition combine_group (c : share_common) (groups : list group_slot_t)
    (acc : option (bytes * list bytes)) (gi : nat) : option (bytes * list bytes) :=
  '(group_xs, group_ys) ← acc;
  if common_gt c <=? Z.of_nat (length group_xs) then Some (group_xs, group_ys)
  else
    let g := nth gi groups group_zero in
    if negb (present g) || (member_count g <? g_member_thr g) then Some (group_xs, group_ys)
    else
      group_share ← slip0039_combine (g_xs g) (g_ys g) (g_member_thr g) (common_len c) (g_member_thr g);
      Some (group_xs ++ [index_byte gi], group_ys ++ [group_share]).

(** [secret_len_out]: the room in [secret_out]. *)
Definition dogecoin_slip0039_recover_secret (shares : list bytes) (passphrase : bytes) (secret_len_out : Z) : option bytes :=
  if Z.of_nat (length shares) =? 0 then None
  else if SLIP0039_MAX_SHARES * SLIP0039_MAX_SHARES <? Z.of_nat (length shares) then None
  else
    '(common, groups) ← foldl add_share (Some recover_start) shares;
    c ← common;
    '(group_xs, group_ys) ← foldl (combine_group c groups) (Some ([], [])) (seq 0 (Z.to_nat (common_gc c)));
    if Z.of_nat (length group_xs) <? common_gt c then None
    else
      master_ems ← slip0039_combine group_xs group_ys (common_gt c) (common_len c) (common_gt c);
      if secret_len_out <? Z.of_nat (common_len c) then None
      else slip0039_decrypt master_ems passphrase (common_id c) (common_iter c) (common_ext c).

(** ** The rounds *)

Lemma round_function_ok i passphrase identifier iter_exp extendable r_half :
  (length passphrase <= 256)%nat -> 0 <= iter_exp <= 15 -> (1 <= length r_half <= 16)%nat ->
  exists F, slip0039_round_function i passphrase identifier iter_exp extendable r_half = Some F /\
    length F = length r_half.
Proof.
  intros Hp He Hr. unfold slip0039_round_function. rewrite (proj2 (Z.ltb_ge 256 _)) by lia. cbv zeta.
  rewrite !(proj2 (Z.ltb_ge 80 _)) by lia.
  assert (1 <= 2 ^ iter_exp <= 2 ^ 15) as Hpow.
  { split; [|apply Z.pow_le_mono_r; lia]. pose proof (Z.pow_pos_nonneg 2 iter_exp). lia. }
  rewrite Z.shiftl_mul_pow2, (wrap_small 32) by (unfold urange, SLIP0039_BASE_ITERATION_COUNT; lia).
  unfold SLIP0039_BASE_ITERATION_COUNT, SLIP0039_ROUND_COUNT.
  set (it := 10000 * 2 ^ iter_exp / 4). assert (1 <= it < 2 ^ 32) as Hit.
  { unfold it. split; [apply Z.div_le_lower_bound|apply Z.div_lt_upper_bound]; lia. }
  replace it with (Z.of_nat (Z.to_nat it)) by lia. clearbody it.
  destruct extendable; cbn [mbind option_bind]; eexists; (split; [done|]);
    (match goal with |- length (pbkdf2_hmac_sha256 ?p ?s ?c ?k ?n) = _ =>
       destruct (pbkdf2_spec p s (Z.to_nat it) k n) as [-> ->]; unfold zeros; rewrite ?length_replicate; done || lia end).
Qed.

Lemma xor_bytes_self F L : length F = length L -> xor_bytes F (xor_bytes F L) = L.
Proof.
  unfold xor_bytes. revert L. induction F as [|f F IH]; intros [|l L] Hl; try done.
  cbn [zip_with]. f_equal; [|apply IH; by injection Hl].
  change (byte.xor f (byte.xor f l) = l). rewrite gadd_assoc, gadd_self. apply gadd_0.
Qed.

#[local] Opaque slip0039_round_function.

Section rounds.
Context (passphrase : bytes) (identifier iter_exp : Z) (extendable : bool).
Context (Hp : (length passphrase <= 256)%nat) (He : 0 <= iter_exp <= 15).

Abbreviation round := (feistel_round passphrase identifier iter_exp extendable).

(** Rounds undone in the opposite order, with the halves swapped. *)
Lemma feistel_rounds n rounds L R :
  (1 <= n <= 16)%nat -> length L = n -> length R = n ->
  exists L' R', foldl round (Some (L, R)) rounds = Some (L', R') /\ length L' = n /\ length R' = n /\
    foldl round (Some (R', L')) (rev rounds) = Some (R, L).
Proof.
  intros Hn. revert L R. induction rounds as [|i rounds IH]; intros L R HL HR; [by exists L, R|].
  cbn [foldl rev feistel_round mbind option_bind].
  destruct (round_function_ok i passphrase identifier iter_exp extendable R) as (F & EF & HF); [done|done|lia|].
  rewrite EF. cbn [mbind option_bind].
  destruct (IH R (xor_bytes F L)) as (L' & R' & E & HL' & HR' & Er); [done|rewrite xor_bytes_length; lia|].
  exists L', R'. split_and!; try done. rewrite foldl_app, Er. cbn [foldl feistel_round mbind option_bind].
  rewrite EF. cbn [mbind option_bind]. by rewrite xor_bytes_self by lia.
Qed.

Lemma feistel_inverse rounds ms :
  (2 <= length ms <= 32)%nat -> Z.land (Z.of_nat (length ms)) 1 = 0 ->
  exists ems, feistel rounds ms passphrase identifier iter_exp extendable = Some ems /\ length ems = length ms /\
    feistel (rev rounds) ems passphrase identifier iter_exp extendable = Some ms.
Proof.
  intros Hl Hev. set (half := (length ms / 2)%nat).
  assert (length ms = half + half)%nat as Hh.
  { change 1 with (Z.ones 1) in Hev. rewrite Z.land_ones in Hev by lia. unfold half.
    pose proof (Nat.div_mod_eq (length ms) 2). change (2 ^ 1) with (Z.of_nat 2) in Hev.
    rewrite <- Nat2Z.inj_mod in Hev. lia. }
  destruct (feistel_rounds half rounds (take half ms) (drop half ms)) as (L & R & E & HL & HR & Er);
    [lia|rewrite length_take; lia|rewrite length_drop; lia|].
  exists (R ++ L). assert (length (R ++ L) = length ms) as Hlr by (rewrite length_app; lia).
  unfold feistel. rewrite Hlr. fold half. rewrite Hev, (proj2 (Z.ltb_ge _ 2)) by lia.
  rewrite (proj2 (Z.ltb_ge _ _)) by (cbv [SLIP0039_MAX_SECRET_BYTES]; change (32 / 2) with 16; lia).
  cbn [orb negb Z.eqb]. rewrite E. cbn [mbind option_bind]. split; [done|]. split; [done|].
  rewrite <- HR at 1 2. rewrite take_app_length, drop_app_length, Er. cbn [mbind option_bind]. by rewrite take_drop.
Qed.
End rounds.

(** ** Any [threshold] of the shares *)

Lemma index_byte_inj i j : (i < 256)%nat -> (j < 256)%nat -> index_byte i = index_byte j -> i = j.
Proof.
  intros Hi Hj E. apply (f_equal byte.unsigned) in E. unfold index_byte in E.
  rewrite !byte_unsigned_of_Z, !(wrap_small 8) in E by (unfold urange; lia). lia.
Qed.

Lemma NoDup_index_bytes l : Forall (fun i => (i < 256)%nat) l -> NoDup l -> NoDup (index_byte <$> l).
Proof.
  intros Hl. induction 1 as [|i l Hi Hnd IH]; [constructor|]. apply Forall_cons in Hl as [H1 Hl].
  cbn [fmap list_fmap]. constructor; [|by apply IH]. intros (j & E & Hj)%list_elem_of_fmap.
  eapply Forall_forall in Hl; [|done]. apply index_byte_inj in E as ->; done.
Qed.

Lemma NoDup_known_x t :
  (t <= 14)%nat -> NoDup ((index_byte <$> seq 0 t) ++ [SLIP0039_DIGEST_INDEX; SLIP0039_SECRET_INDEX]).
Proof.
  intros Ht. change [SLIP0039_DIGEST_INDEX; SLIP0039_SECRET_INDEX] with (index_byte <$> [254; 255]%nat).
  rewrite <- fmap_app. apply NoDup_index_bytes.
  - apply Forall_app. split; [apply Forall_forall; intros i Hi%elem_of_seq; lia|repeat constructor; lia].
  - apply NoDup_app. split; [apply NoDup_seq|]. split; [|by apply (bool_decide_unpack _); vm_compute].
    intros i Hi%elem_of_seq. rewrite !elem_of_cons. pose proof (not_elem_of_nil i). intuition lia.
Qed.

Lemma hmac_sha256_length key msg : length (hmac_sha256 key msg) = 32%nat.
Proof. exact (eq_trans (f_equal length (hmac_spec (P := sha256) key msg)) (rfc2104_length (P := sha256) key msg)). Qed.

#[local] Opaque hmac_sha256.

Lemma length_hmac_prefix key msg :
  length (take SLIP0039_DIGEST_LENGTH_BYTES (hmac_sha256 key msg)) = SLIP0039_DIGEST_LENGTH_BYTES.
Proof. apply length_take_le. rewrite hmac_sha256_length. cbv. lia. Qed.

Lemma verify_digest_share secret random_pad :
  slip0039_verify_digest_share secret (slip0039_make_digest_share secret random_pad) = true.
Proof.
  unfold slip0039_verify_digest_share, slip0039_make_digest_share. apply bool_decide_eq_true.
  rewrite drop_app_length', take_app_length' by exact (eq_sym (length_hmac_prefix random_pad secret)). reflexivity.
Qed.

Lemma length_digest_share secret random_pad :
  length (slip0039_make_digest_share secret random_pad) = (4 + length random_pad)%nat.
Proof. unfold slip0039_make_digest_share. by rewrite length_app, length_hmac_prefix. Qed.

#[local] Opaque slip0039_make_digest_share slip0039_verify_digest_share gf256_lagrange.

Lemma mapM_pure {A B} (f : A -> option B) (g : A -> B) l :
  (forall x, x ∈ l -> f x = Some (g x)) -> mapM f l = Some (g <$> l).
Proof.
  intros H. apply mapM_Some_2. induction l as [|x l IH]; [constructor|].
  constructor; [apply H; left|apply IH; intros y Hy; apply H; by right].
Qed.

(** Any [n] points of a polynomial with [n] coefficients give its value at the secret's index. *)
Lemma combine_poly g l n ylen :
  (2 <= n <= length l)%nat -> NoDup l -> Forall (fun i => (i < 256)%nat) l -> vec_poly n ylen g ->
  slip0039_verify_digest_share (g SLIP0039_SECRET_INDEX) (g SLIP0039_DIGEST_INDEX) = true ->
  slip0039_combine (index_byte <$> l) (g <$> (index_byte <$> l)) (Z.of_nat n) ylen (Z.of_nat n) =
  Some (g SLIP0039_SECRET_INDEX).
Proof.
  intros Hn Hnd Hl Hg Hv. unfold slip0039_combine. rewrite Z.eqb_refl, (proj2 (Z.eqb_neq _ 1)) by lia.
  cbn [negb]. rewrite Nat2Z.id, <- !fmap_take. set (xs := index_byte <$> take n l).
  assert (length xs = n) as Hx by (unfold xs; rewrite length_fmap, length_take; lia).
  assert (NoDup xs) as Hnx.
  { apply NoDup_index_bytes; [by apply Forall_take|]. rewrite <- (take_drop n l), NoDup_app in Hnd. apply Hnd. }
  rewrite <- Hx in Hg. rewrite !(lagrange_poly _ xs g ylen Hnx Hg). cbn [mbind option_bind]. by rewrite Hv.
Qed.

Lemma combine_one xs y ys ylen : slip0039_combine xs (y :: ys) 1 ylen 1 = Some y.
Proof. done. Qed.

Section shares.
Context (random_bytes : nat -> nat -> option bytes).
(** The source gives as many bytes as it is asked for. *)
Context (random_ok : forall call n, exists b, random_bytes call n = Some b /\ length b = n).

Lemma random_shares call n ks :
  exists ys, mapM (fun i => random_bytes (call + i) n) ks = Some ys /\ length ys = length ks /\
    Forall (fun y => length y = n) ys.
Proof.
  induction ks as [|k ks (ys & E & Hl & Hy)]; [by exists []|].
  destruct (random_ok (call + k) n) as (b & Eb & Hb). exists (b :: ys). cbn [mapM].
  rewrite Eb. cbn [mbind option_bind]. rewrite E. cbn [length]. split_and!; [done|congruence|by constructor].
Qed.

(** The shares are values at their indexes of polynomials whose value at 255 is the secret. *)
Lemma split_points call ems t share_count :
  (t + 2 <= share_count <= 16)%nat -> (4 <= length ems)%nat ->
  exists g, slip0039_split random_bytes call ems (Z.of_nat (t + 2)) (Z.of_nat share_count) =
      Some (g <$> (index_byte <$> seq 0 share_count)) /\
    vec_poly (t + 2) (length ems) g /\ g SLIP0039_SECRET_INDEX = ems /\
    slip0039_verify_digest_share (g SLIP0039_SECRET_INDEX) (g SLIP0039_DIGEST_INDEX) = true.
Proof.
  intros Ht Hl. unfold slip0039_split.
  rewrite !(proj2 (Z.ltb_ge _ _)) by (unfold SLIP0039_MAX_SHARES; lia).
  rewrite (proj2 (Z.eqb_neq _ 1)) by lia. cbn [orb].
  replace (Z.to_nat (Z.of_nat (t + 2) - 2)) with t by lia.
  destruct (random_shares call (length ems) (seq 0 t)) as (ys & -> & Hys & Hyl). rewrite length_seq in Hys.
  destruct (random_ok (call + t) (length ems - SLIP0039_DIGEST_LENGTH_BYTES)) as (pad & Ep & Hpad).
  cbn [mbind option_bind]. rewrite Ep. cbn [mbind option_bind].
  set (ds := slip0039_make_digest_share ems pad).
  assert (length ds = length ems) as Hds.
  { unfold ds. rewrite length_digest_share, Hpad. cbv [SLIP0039_DIGEST_LENGTH_BYTES]. lia. }
  set (xs := (index_byte <$> seq 0 t) ++ [SLIP0039_DIGEST_INDEX; SLIP0039_SECRET_INDEX]).
  assert (length xs = t + 2)%nat as Hxs by (unfold xs; rewrite length_app, length_fmap, length_seq; done).
  pose proof (NoDup_known_x t ltac:(lia)) as Hnd. fold xs in Hnd.
  destruct (lagrange_exists xs (ys ++ [ds; ems]) (length ems)) as (g & Hg & Eg); [done| | |].
  { rewrite length_app, Hxs. cbn [length]. lia. }
  { apply Forall_app. split; [done|]. by repeat constructor. }
  rewrite (mapM_pure _ (fun i => g (index_byte i))).
  2:{ intros i _. rewrite <- Eg. apply lagrange_poly; [done|done]. }
  unfold xs in Eg. rewrite fmap_app in Eg.
  apply app_inj_1 in Eg as [Ey Et]; [|rewrite !length_fmap, length_seq; lia]. injection Et as Ed Es.
  exists g. cbn [mbind option_bind]. rewrite Nat2Z.id. split_and!; [|by rewrite <- Hxs|done|].
  - f_equal. rewrite <- Ey. replace share_count with (t + (share_count - t))%nat at 2 by lia.
    rewrite seq_app, !fmap_app. f_equal. cbn [Nat.add]. by rewrite <- list_fmap_compose.
  - rewrite Ed, Es. apply verify_digest_share.
Qed.

(** What the shares promise: share [i] is [g i], and from any [threshold] of them the secret. *)
Lemma split_combine call ems threshold share_count :
  1 <= threshold <= share_count -> share_count <= SLIP0039_MAX_SHARES -> (4 <= length ems)%nat ->
  exists g, slip0039_split random_bytes call ems threshold share_count = Some (g <$> seq 0 (Z.to_nat share_count)) /\
    (forall i, length (g i) = length ems) /\
    forall l, NoDup l -> Forall (fun i => (i < 16)%nat) l -> threshold <= Z.of_nat (length l) ->
      slip0039_combine (index_byte <$> l) (g <$> l) threshold (length ems) threshold = Some ems.
Proof.
  unfold SLIP0039_MAX_SHARES. intros Ht Hs Hl. destruct (decide (threshold = 1)) as [->|H1].
  - exists (fun _ => ems). unfold slip0039_split. rewrite !(proj2 (Z.ltb_ge _ _)) by (unfold SLIP0039_MAX_SHARES; lia).
    split_and!; [|done|].
    + cbn [orb Z.eqb Pos.eqb]. f_equal. generalize 0%nat. induction (Z.to_nat share_count) as [|n IH]; intros k; [done|].
      cbn [replicate seq fmap list_fmap]. f_equal. apply IH.
    + intros [|i l] _ _ Hll; [cbn in Hll; lia|]. apply combine_one.
  - destruct (split_points call ems (Z.to_nat (threshold - 2)) (Z.to_nat share_count)) as (g & E & Hg & Es & Hv); [lia|done|].
    replace (Z.of_nat (Z.to_nat (threshold - 2) + 2)) with threshold in E by lia. rewrite Z2Nat.id in E by lia.
    exists (fun i => g (index_byte i)). split_and!.
    + rewrite E. by rewrite <- list_fmap_compose.
    + intros i. apply Hg.
    + intros l Hnd Hll Hlen. pose proof (combine_poly g l (Z.to_nat threshold) (length ems)) as H.
      rewrite Z2Nat.id in H by lia. rewrite <- list_fmap_compose in H. rewrite Es in H. apply H; try done.
      * lia.
      * eapply Forall_impl; [done|]. cbn. lia.
      * by replace (Z.to_nat threshold) with (Z.to_nat (threshold - 2) + 2)%nat by lia.
      * by rewrite Es in Hv.
Qed.
End shares.

(** ** The texts *)

Lemma add_share_None l : foldl add_share None l = None.
Proof. by induction l. Qed.

Section recover.
Context (id threshold : Z) (len : nat) (g : nat -> bytes) (t : nat -> bytes).
Context (Hg : forall i, length (g i) = len) (Ht : 1 <= threshold).

Definition share_params : share_common := mk_common id false 1 1 1 len.

(** The first of the groups behind the shares [l]. *)
Definition slot (l : list nat) : group_slot_t :=
  match l with
  | [] => group_zero
  | _ => mk_group true threshold (index_byte <$> l) (g <$> l) (foldl (fun u i => <[i := true]> u) (replicate 16 false) l)
  end.

Lemma length_used l u : length (foldl (fun (u : list bool) i => <[i := true]> u) u l) = length u.
Proof. revert u. induction l as [|i l IH]; intros u; [done|]. cbn [foldl]. by rewrite IH, length_insert. Qed.

Lemma used_spec l i : (i < 16)%nat -> nth i (used_mi (slot l)) false = bool_decide (i ∈ l).
Proof.
  intros Hi. assert (used_mi (slot l) = foldl (fun u i => <[i := true]> u) (replicate 16 false) l) as -> by by destruct l.
  induction l as [|j l IH] using rev_ind; [cbn [foldl]; rewrite nth_lookup, lookup_replicate_2 by lia; done|].
  rewrite foldl_app. cbn [foldl]. rewrite nth_lookup. destruct (decide (i = j)) as [<-|Hij].
  - rewrite list_lookup_insert_eq by (rewrite length_used, length_replicate; lia). cbn [default].
    symmetry. apply bool_decide_eq_true. set_solver.
  - rewrite list_lookup_insert_ne, <- nth_lookup, IH by congruence. apply bool_decide_ext. set_solver.
Qed.

Definition share_state (l : list nat) : recover_state :=
  (match l with [] => None | _ => Some share_params end, <[0%nat := slot l]> (replicate 16 group_zero)).

(** The texts of shares of one secret, in any order. *)
Lemma add_shares l :
  Forall (fun i => (i < 16)%nat /\ slip0039_decode_mnemonic (t i) SLIP0039_MAX_SECRET_BYTES =
    Some (mk_share_header id 1 0 1 1 (Z.of_nat i) threshold, false, g i)) l ->
  foldl add_share (Some recover_start) (t <$> l) = if decide (NoDup l) then Some (share_state l) else None.
Proof.
  induction l as [|i l IH] using rev_ind; intros Hl; [by rewrite decide_True by constructor|].
  apply Forall_app in Hl as [Hl [Hi E]%Forall_inv]. rewrite fmap_app, foldl_app, (IH Hl).
  assert (NoDup (l ++ [i]) <-> NoDup l /\ i ∉ l) as Hnd.
  { rewrite NoDup_app. split; [intros (H & H1 & _); split; [done|]; intros H2; by apply (H1 i H2); left|].
    intros [H H1]. split; [done|]. split; [|apply NoDup_singleton].
    by intros j Hj ->%list_elem_of_singleton. }
  destruct (decide (NoDup l)) as [H|H].
  2:{ rewrite decide_False; [done|]. rewrite Hnd. tauto. }
  cbn [fmap list_fmap foldl]. unfold share_state, add_share. cbn [mbind option_bind]. rewrite E.
  cbn [mbind option_bind identifier iter_exp group_idx group_thr group_count member_idx member_thr].
  rewrite Hg. fold share_params.
  assert (match match l with [] => None | _ => Some share_params end with None => true
    | Some c => bool_decide (c = share_params) end = true) as ->.
  { destruct l; [done|]. by apply bool_decide_eq_true. }
  cbn [negb]. change (SLIP0039_MAX_SHARES <=? 0) with false. cbv iota. change (Z.to_nat 0) with 0%nat.
  assert (nth 0 (<[0%nat := slot l]> (replicate 16 group_zero)) group_zero = slot l) as -> by done.
  assert (present (slot l) && negb (g_member_thr (slot l) =? threshold) = false) as ->.
  { destruct l; [done|]. cbn. by rewrite Z.eqb_refl. }
  rewrite (proj2 (Z.leb_gt _ _)) by (unfold SLIP0039_MAX_SHARES; lia). cbn [orb]. rewrite Nat2Z.id, used_spec by done.
  case_bool_decide as Hin.
  { rewrite decide_False; [done|]. rewrite Hnd. tauto. }
  rewrite decide_True by (by apply Hnd).
  assert (member_count (slot l) = Z.of_nat (length l)) as ->.
  { unfold member_count. destruct l; [done|]. cbn [slot g_xs]. by rewrite length_fmap. }
  assert (length l <= 15)%nat as Hlen.
  { assert (NoDup (l ++ [i])) as Hn by by apply Hnd.
    assert (l ++ [i] ⊆ seq 0 16) as Hs.
    { intros j [Hj|Hj%list_elem_of_singleton]%elem_of_app; apply elem_of_seq; [|lia].
      eapply Forall_forall in Hl; [|done]. lia. }
    pose proof (submseteq_length _ _ (NoDup_submseteq _ _ Hn Hs)) as H16. rewrite length_app, length_seq in H16. cbn in H16. lia. }
  rewrite (proj2 (Z.leb_gt _ _)) by (unfold SLIP0039_MAX_SHARES; lia). f_equal. f_equal.
  - by destruct l.
  - rewrite list_insert_insert_eq. f_equal. unfold slot. destruct (l ++ [i]) as [|j l'] eqn:El; [by destruct l|]. rewrite <- El.
    rewrite foldl_app, !fmap_app. destruct l; done.
Qed.
End recover.

(** What the texts of the shares [l] of an encrypted secret [ems] give. *)
Lemma recover_texts id threshold ems g t l secret room :
  (forall i, length (g i) = length ems) -> 1 <= threshold -> (length l <= 256)%nat ->
  Forall (fun i => (i < 16)%nat /\ slip0039_decode_mnemonic (t i) SLIP0039_MAX_SECRET_BYTES =
      Some (mk_share_header id 1 0 1 1 (Z.of_nat i) threshold, false, g i)) l ->
  (forall l, NoDup l -> Forall (fun i => (i < 16)%nat) l -> threshold <= Z.of_nat (length l) ->
     slip0039_combine (index_byte <$> l) (g <$> l) threshold (length ems) threshold = Some ems) ->
  Z.of_nat (length ems) <= room -> slip0039_decrypt ems [] id 1 false = Some secret ->
  dogecoin_slip0039_recover_secret (t <$> l) [] room =
  if decide (NoDup l /\ threshold <= Z.of_nat (length l)) then Some secret else None.
Proof.
  intros Hg Ht Hl256 Hl Hc Hroom Hd. unfold dogecoin_slip0039_recover_secret. rewrite length_fmap.
  destruct (Z.eqb_spec (Z.of_nat (length l)) 0).
  { rewrite decide_False; [done|]. lia. }
  change (SLIP0039_MAX_SHARES * SLIP0039_MAX_SHARES) with 256. rewrite (proj2 (Z.ltb_ge _ _)) by lia.
  rewrite (add_shares id threshold (length ems) g t Hg Ht l Hl).
  destruct (decide (NoDup l)) as [Hnd|Hnd]; [|rewrite decide_False; [done|tauto]].
  destruct l as [|i l']; [done|]. unfold share_state. cbn [mbind option_bind]. set (l := i :: l') in *.
  change (Z.to_nat (common_gc _)) with 1%nat. cbn [seq foldl combine_group mbind option_bind length].
  change (common_gt _) with 1. change (common_len _) with (length ems). change (1 <=? Z.of_nat 0) with false. cbv iota.
  change (nth 0 (<[0%nat := _]> _) group_zero) with (slot threshold g l).
  assert (Forall (fun i => (i < 16)%nat) l) as Hl16 by (eapply Forall_impl; [exact Hl|intros j []; done]).
  cbn [slot l]. fold l. cbn [present g_member_thr g_xs g_ys negb orb]. unfold member_count. cbn [g_xs].
  rewrite length_fmap. destruct (Z.ltb_spec (Z.of_nat (length l)) threshold).
  { cbn [mbind option_bind length Z.of_nat]. rewrite decide_False; [done|lia]. }
  rewrite (Hc l Hnd Hl16) by lia. cbn [mbind option_bind length app Z.of_nat].
  change (1 <? 1) with false. cbv iota. rewrite combine_one. cbn [mbind option_bind].
  rewrite decide_True by (split; [done|lia]). by rewrite (proj2 (Z.ltb_ge room _)) by lia.
Qed.

Section generate.
Context (random_bytes : nat -> nat -> option bytes).
Context (random_ok : forall call n, exists b, random_bytes call n = Some b /\ length b = n).
Context (secret : bytes) (threshold share_count : Z).
Context (Hs : secret_len_ok (length secret)).
Context (Ht : 1 <= threshold <= share_count) (Hn : share_count <= SLIP0039_MAX_SHARES).

(** The texts are the shares of an encrypted secret, written down. *)
Lemma generate_spec :
  exists id ems g texts, dogecoin_slip0039_generate_shares random_bytes secret threshold share_count = Some texts /\
    length texts = Z.to_nat share_count /\ length ems = length secret /\ slip0039_decrypt ems [] id 1 false = Some secret /\
    (forall i, length (g i) = length ems) /\
    (forall i, (i < length texts)%nat ->
       header_ok (mk_share_header id 1 0 1 1 (Z.of_nat i) threshold) /\
       slip0039_encode_mnemonic (mk_share_header id 1 0 1 1 (Z.of_nat i) threshold) (g i) SLIP0039_MAX_SHARE_STR_SIZE =
       Some (nth i texts [])) /\
    forall l, NoDup l -> Forall (fun i => (i < 16)%nat) l -> threshold <= Z.of_nat (length l) ->
      slip0039_combine (index_byte <$> l) (g <$> l) threshold (length ems) threshold = Some ems.
Proof.
  pose proof Hs as [Hlen Hev]. unfold SLIP0039_MAX_SHARES in Hn. unfold dogecoin_slip0039_generate_shares.
  rewrite Hev. cbn [negb Z.eqb].
  rewrite !(proj2 (Z.ltb_ge _ _)) by (unfold SLIP0039_MAX_SHARES, SLIP0039_MIN_SECRET_BYTES, SLIP0039_MAX_SECRET_BYTES; lia).
  cbn [orb]. destruct (random_ok 0 2) as (b & Eb & _). rewrite Eb. cbn [mbind option_bind].
  set (id := Z.land _ 0x7FFF). assert (urange 15 id) as Hid.
  { unfold id. change 0x7FFF with (Z.ones 15). rewrite Z.land_ones by lia. unfold urange. by apply Z.mod_pos_bound. }
  clearbody id. destruct (feistel_inverse [] id 1 false ltac:(cbn; lia) ltac:(lia) [0; 1; 2; 3] secret) as (ems & Ee & Hle & Ed); [lia|done|].
  change (feistel [0; 1; 2; 3]) with slip0039_encrypt in Ee. change (feistel (rev [0; 1; 2; 3])) with slip0039_decrypt in Ed.
  change SLIP0039_DEFAULT_ITER_EXP with 1. rewrite Ee. cbn [mbind option_bind].
  destruct (split_combine random_bytes random_ok 1 ems threshold share_count) as (g & Eg & Hg & Hc); [lia|unfold SLIP0039_MAX_SHARES; lia|lia|].
  rewrite Eg. cbn [mbind option_bind].
  assert (forall i, (i < Z.to_nat share_count)%nat -> header_ok (mk_share_header id 1 0 1 1 (Z.of_nat i) threshold)) as Hh.
  { intros i Hi. split; cbn; done || lia. }
  set (text i := default [] (slip0039_encode_mnemonic (mk_share_header id 1 0 1 1 (Z.of_nat i) threshold) (g i) SLIP0039_MAX_SHARE_STR_SIZE)).
  assert (forall i, (i < Z.to_nat share_count)%nat -> slip0039_encode_mnemonic (mk_share_header id 1 0 1 1 (Z.of_nat i) threshold) (g i)
    SLIP0039_MAX_SHARE_STR_SIZE = Some (text i)) as Htext.
  { intros i Hi. destruct (encode_mnemonic_text _ (g i) (Hh i Hi)) as (ws & _ & E & _); [by rewrite Hg, Hle|].
    unfold text. by rewrite E. }
  assert (forall {A} (f : nat -> A) d i, (i < Z.to_nat share_count)%nat -> nth i (f <$> seq 0 (Z.to_nat share_count)) d = f i) as Hnth.
  { intros A f d i Hi. apply nth_lookup_Some. by rewrite list_lookup_fmap, lookup_seq_lt. }
  rewrite (mapM_pure _ text).
  2:{ intros i Hi%elem_of_seq. rewrite Hnth by lia. apply Htext. lia. }
  exists id, ems, g, (text <$> seq 0 (Z.to_nat share_count)). rewrite length_fmap, length_seq.
  split_and!; try done. intros i Hi. rewrite Hnth by done. split; [by apply Hh|by apply Htext].
Qed.
End generate.

(** Encryption is undone: for a secret of an even number of bytes, 2 to 32, a passphrase of
    at most 256 and an iteration exponent of at most 15, [slip0039_encrypt] succeeds and
    [slip0039_decrypt] of what it gives, with the same parameters, is the secret. *)
Theorem decrypt_encrypt (ms passphrase : bytes) (id exp : Z) (extendable : bool)
  (Hp : (length passphrase <= 256)%nat) (He : 0 <= exp <= 15)
  (Hl : (2 <= length ms <= 32)%nat) (Hev : Z.land (Z.of_nat (length ms)) 1 = 0) :
  exists ems, slip0039_encrypt ms passphrase id exp extendable = Some ems /\ length ems = length ms /\
    slip0039_decrypt ems passphrase id exp extendable = Some ms.
Proof. exact (feistel_inverse passphrase id exp extendable Hp He [0; 1; 2; 3] ms Hl Hev). Qed.

Lemma decrypt_encrypt_witness :
  exists ems, slip0039_encrypt (replicate 16 Byte.x07) [Byte.x41] 5 1 false = Some ems /\ length ems = 16%nat /\
    slip0039_decrypt ems [Byte.x41] 5 1 false = Some (replicate 16 Byte.x07).
Proof. apply (decrypt_encrypt (replicate 16 Byte.x07) [Byte.x41] 5 1 false); cbn; reflexivity || lia. Defined.

(** C25: shares come back as the secret they were made from, if there are enough of them. With a
    random source that answers, [dogecoin_slip0039_generate_shares] of a secret of 16 to 32
    bytes, an even number other than 24, makes [share_count] texts; and
    [dogecoin_slip0039_recover_secret] of any of them, at most 256 and in any order, gives the
    secret if none is there twice and there are [threshold] of them, and fails otherwise. *)
Theorem generate_recover (random_bytes : nat -> nat -> option bytes) (secret : bytes) (threshold share_count : Z)
  (Hr : forall call n, exists b, random_bytes call n = Some b /\ length b = n)
  (Hs : secret_len_ok (length secret)) (H24 : length secret <> 24%nat)
  (Ht : 1 <= threshold <= share_count) (Hn : share_count <= SLIP0039_MAX_SHARES) :
  exists texts, dogecoin_slip0039_generate_shares random_bytes secret threshold share_count = Some texts /\
    length texts = Z.to_nat share_count /\
    forall l room, Forall (fun i => (i < length texts)%nat) l -> (length l <= 256)%nat ->
      Z.of_nat (length secret) <= room ->
      dogecoin_slip0039_recover_secret ((fun i => nth i texts []) <$> l) [] room =
      if decide (NoDup l /\ threshold <= Z.of_nat (length l)) then Some secret else None.
Proof.
  destruct (generate_spec random_bytes Hr secret threshold share_count Hs Ht Hn)
    as (id & ems & g & texts & E & Hlt & Hle & Hd & Hg & He & Hc).
  exists texts. split; [done|]. split; [done|]. intros l room Hl Hl256 Hroom.
  apply (recover_texts id threshold ems g); try done; [lia| |by rewrite Hle].
  eapply Forall_impl; [exact Hl|]. intros i Hi. cbn in Hi. unfold SLIP0039_MAX_SHARES in Hn. split; [lia|].
  destruct (He i Hi) as [Hh Ei]. destruct (decode_encoded _ (g i) Hh) as (text & E1 & E2); [by rewrite Hg, Hle..|].
  rewrite Ei in E1. injection E1 as <-. exact E2.
Qed.

Lemma generate_recover_witness :
  exists texts, dogecoin_slip0039_generate_shares (fun _ n => Some (zeros n)) (replicate 16 Byte.x07) 2 3 = Some texts /\
    length texts = 3%nat /\
    forall l room, Forall (fun i => (i < length texts)%nat) l -> (length l <= 256)%nat -> 16 <= room ->
      dogecoin_slip0039_recover_secret ((fun i => nth i texts []) <$> l) [] room =
      if decide (NoDup l /\ 2 <= Z.of_nat (length l)) then Some (replicate 16 Byte.x07) else None.
Proof.
  apply (generate_recover (fun _ n => Some (zeros n)) (replicate 16 Byte.x07) 2 3).
  - intros _ n. exists (zeros n). split; [reflexivity|apply length_replicate].
  - split; [cbn; lia|reflexivity].
  - cbn. lia.
  - lia.
  - cbv. congruence.
Defined.

(** But a secret of 24 bytes cannot be recovered. [dogecoin_slip0039_generate_shares] accepts
    it and makes its shares, and [dogecoin_slip0039_recover_secret] fails on every selection of
    them: [slip0039_decode_mnemonic], which takes the padding to be the bits of the value's words
    modulo 8 (here 0, and not the 8 bits that were put in), refuses each text. *)
Theorem generate_24_lost (random_bytes : nat -> nat -> option bytes) (secret : bytes) (threshold share_count : Z)
  (Hr : forall call n, exists b, random_bytes call n = Some b /\ length b = n)
  (H24 : length secret = 24%nat) (Ht : 1 <= threshold <= share_count) (Hn : share_count <= SLIP0039_MAX_SHARES) :
  exists texts, dogecoin_slip0039_generate_shares random_bytes secret threshold share_count = Some texts /\
    length texts = Z.to_nat share_count /\
    forall l passphrase room, Forall (fun i => (i < length texts)%nat) l ->
      dogecoin_slip0039_recover_secret ((fun i => nth i texts []) <$> l) passphrase room = None.
Proof.
  assert (secret_len_ok (length secret)) as Hs by (rewrite H24; split; [lia|done]).
  destruct (generate_spec random_bytes Hr secret threshold share_count Hs Ht Hn)
    as (id & ems & g & texts & E & Hlt & Hle & Hd & Hg & He & Hc).
  exists texts. split; [done|]. split; [done|]. intros l passphrase room Hl.
  unfold dogecoin_slip0039_recover_secret. rewrite length_fmap.
  destruct l as [|i l]; [done|]. destruct (_ =? 0); [done|]. destruct (_ <? _); [done|].
  apply Forall_inv in Hl. destruct (He i Hl) as [Hh Ei].
  destruct (decode_24 _ (g i) Hh) as (text & E1 & E2); [by rewrite Hg, Hle|].
  rewrite Ei in E1. injection E1 as <-. cbn [fmap list_fmap foldl]. unfold add_share at 2.
  cbn [recover_start mbind option_bind]. rewrite E2. cbn [mbind option_bind]. by rewrite add_share_None.
Qed.

Lemma generate_24_lost_witness :
  exists texts, dogecoin_slip0039_generate_shares (fun _ n => Some (zeros n)) (replicate 24 Byte.x07) 2 3 = Some texts /\
    length texts = 3%nat /\
    forall l passphrase room, Forall (fun i => (i < length texts)%nat) l ->
      dogecoin_slip0039_recover_secret ((fun i => nth i texts []) <$> l) passphrase room = None.
Proof.
  apply (generate_24_lost (fun _ n => Some (zeros n)) (replicate 24 Byte.x07) 2 3).
  - intros _ n. exists (zeros n). split; [reflexivity|apply length_replicate].
  - reflexivity.
  - lia.
  - cbv. congruence.
Defined.
