(* ===== verification/Protocol.v ===== *)
(** * Peer-to-peer messages ([src/src/protocol.c], [src/include/dogecoin/protocol.h])

    The frame around a message, network addresses, the version message, inventories and
    requests for headers: writing and reading. *)

From S2P Require Import Prelude Mem Words Serialize Sha2Stream Sha256.

Local Open Scope Z_scope.

Definition DOGECOIN_ADDR_TIME_VERSION : Z := 31402.
Definition DOGECOIN_P2P_HDRSZ : Z := 24.
Definition DOGECOIN_PROTOCOL_VERSION : Z := 70015.
Definition NULLHASH : bytes := zeros 32.
Definition DOGECOIN_IPV4_PREFIX : bytes := zeros 10 ++ [Byte.xff; Byte.xff].

(** ** The frame *)

Record p2p_msg_hdr := mk_msg_hdr { netmagic : bytes; command : bytes; data_len : Z; msg_hash : bytes }.

(** [None]: the command overruns the 12 bytes on the stack. *)
Definition p2p_message_new (magic cmd data : bytes) : option bytes :=
  command_null ← mem_write 0 cmd (zeros 12);
  let s := sink_append [] (take 4 magic) in
  let s := sink_append s command_null in
  let s := sink_append s (le_enc 4 (Z.of_nat (length data))) in
  let s := sink_append s (take 4 (dogecoin_hash data)) in
  Some (if 0 <? Z.of_nat (length data) then sink_append s data else s).

(** A read whose failure is not looked at: what is not read keeps its value. *)
Definition deser_or {A} (d : deser A) (old : A) : deser A := fun buf =>
  let '(o, buf) := d buf in (Some (default old o), buf).

Definition p2p_deser_msghdr (hdr : p2p_msg_hdr) : deser p2p_msg_hdr :=
  m ← deser_or (deser_bytes 4) (netmagic hdr);
  c ← deser_or (deser_bytes 12) (command hdr);
  l ← deser_or deser_u32 (data_len hdr);
  h ← deser_or (deser_bytes 4) (msg_hash hdr);
  mret (mk_msg_hdr m c l h).

(** ** Addresses *)

Record p2p_address := mk_p2p_address { addr_time : Z; addr_services : Z; ip : bytes; port : Z }.

Definition p2p_address_init : p2p_address := mk_p2p_address 0 0 (zeros 16) 0.

Definition is_ipv4_mapped (ipaddr : bytes) : bool := bytes_eqb (take 12 ipaddr) DOGECOIN_IPV4_PREFIX.

Definition p2p_deser_addr (protocol_version : Z) : deser p2p_address :=
  time ← (if DOGECOIN_ADDR_TIME_VERSION <=? protocol_version then deser_u32 else mret 0);
  services ← deser_u64;
  ip ← deser_bytes 16;
  port ← deser_u16;
  mret (mk_p2p_address time services ip port).

Definition p2p_ser_addr (protover : Z) (s : bytes) (addr : p2p_address) : bytes :=
  let s := if DOGECOIN_ADDR_TIME_VERSION <=? protover then ser_u32 s (addr_time addr) else s in
  let s := ser_u64 s (addr_services addr) in
  let s := ser_bytes s (take 16 (ip addr)) in
  ser_u16 s (port addr).

(** A socket address: the family, the port in network order, and the bytes of the two kinds of
    address, which a [sockaddr_in] and a [sockaddr_in6] keep at places of their own. *)
Record sockaddr := mk_sockaddr { sa_family : Z; sa_port : Z; sin_addr : bytes; sin6_addr : bytes }.

Definition AF_INET : Z := 2.
Definition AF_INET6 : Z := 10.

(** [ntohs] and [htons], on a little-endian machine. *)
Definition swap16 (v : Z) : Z := Z.lor (u16 (Z.shiftl v 8)) (Z.shiftr v 8).

Definition addr_to_p2paddr (addr : sockaddr) (addr_out : p2p_address) : p2p_address :=
  if sa_family addr =? AF_INET6 then
    mk_p2p_address (addr_time addr_out) (addr_services addr_out) (take 16 (sin6_addr addr)) (swap16 (sa_port addr))
  else if sa_family addr =? AF_INET then
    mk_p2p_address (addr_time addr_out) (addr_services addr_out)
      (zeros 10 ++ [Byte.xff; Byte.xff] ++ take 4 (sin_addr addr)) (swap16 (sa_port addr))
  else addr_out.

(** The family of [addr_out] is not set. *)
Definition p2paddr_to_addr (p2p_addr : p2p_address) (addr_out : sockaddr) : sockaddr :=
  if negb (is_ipv4_mapped (ip p2p_addr)) then
    mk_sockaddr (sa_family addr_out) (swap16 (port p2p_addr)) (sin_addr addr_out) (take 16 (ip p2p_addr))
  else
    mk_sockaddr (sa_family addr_out) (swap16 (port p2p_addr)) (take 4 (drop 12 (ip p2p_addr))) (sin6_addr addr_out).

(** ** The version message *)

(** [useragent]: the 128 bytes. *)
Record p2p_version_msg := mk_version_msg {
  ver_version : Z; ver_services : Z; ver_timestamp : Z; addr_recv : p2p_address; addr_from : p2p_address;
  ver_nonce : Z; useragent : bytes; start_height : Z; relay : Z }.

(** [now], [random]: what [time] and [dogecoin_random_bytes] give, [None] when the latter fails;
    [strSubVer]: the bytes in front of the NUL. *)
Definition p2p_msg_version_init (now : Z) (random : option bytes) (msg : p2p_version_msg)
    (addrFrom addrTo : option p2p_address) (strSubVer : option bytes) (rl : Z) : p2p_version_msg :=
  mk_version_msg DOGECOIN_PROTOCOL_VERSION 0 now (default p2p_address_init addrTo) (default p2p_address_init addrFrom)
    (match random with Some b => le_dec b | None => 0 end)
    (match strSubVer with
     | Some s => if Z.of_nat (length s) <? 128 then list_inserts 0 s (useragent msg) else useragent msg
     | None => useragent msg
     end)
    0 rl.

(** [None]: the user agent has no NUL, so that the bytes behind it are read. *)
Definition p2p_msg_version_ser (msg : p2p_version_msg) (buf : bytes) : option bytes :=
  if negb (existsb (byte_eqb Byte.x00) (useragent msg)) then None
  else
    let buf := ser_s32 buf (ver_version msg) in
    let buf := ser_u64 buf (ver_services msg) in
    let buf := ser_s64 buf (ver_timestamp msg) in
    let buf := p2p_ser_addr 0 buf (addr_recv msg) in
    let buf := p2p_ser_addr 0 buf (addr_from msg) in
    let buf := ser_u64 buf (ver_nonce msg) in
    let buf := ser_str buf (useragent msg) 1024 in
    let buf := ser_s32 buf (start_height msg) in
    Some (sink_append buf [byte.of_Z (relay msg)]).

Definition p2p_msg_version_deser : deser p2p_version_msg :=
  version ← deser_s32;
  services ← deser_u64;
  timestamp ← deser_s64;
  recv ← p2p_deser_addr 0;
  from ← p2p_deser_addr 0;
  nonce ← deser_u64;
  ua_len ← deser_varlen;
  let cpy_len := if 128 <? ua_len then 128 else ua_len in
  _ ← deser_guard (negb (1024 <? ua_len));
  ua_str ← deser_bytes ua_len;
  let ua := list_inserts 0 (take (Z.to_nat cpy_len) ua_str) (zeros 128) in
  height ← deser_s32;
  rl ← (if 70003 <? version then b ← deser_bytes 1; mret (le_dec b) else mret 0);
  mret (mk_version_msg version services timestamp recv from nonce ua height rl).

(** ** Inventories *)

Record p2p_inv_msg := mk_inv_msg { inv_type : Z; inv_hash : bytes }.

Definition p2p_msg_inv_init (type : Z) (hash : bytes) : p2p_inv_msg := mk_inv_msg type (take 32 hash).

Definition p2p_msg_inv_ser (buf : bytes) (msg : p2p_inv_msg) : bytes :=
  ser_bytes (ser_u32 buf (inv_type msg)) (take 32 (inv_hash msg)).

Definition p2p_msg_inv_deser : deser p2p_inv_msg :=
  type ← deser_u32;
  hash ← deser_u256;
  mret (mk_inv_msg type hash).

(** ** Requests for headers *)

Definition p2p_msg_getheaders (blocklocators : list bytes) (hashstop : option bytes) (s : bytes) : bytes :=
  let s := ser_u32 s DOGECOIN_PROTOCOL_VERSION in
  let s := ser_varlen s (Z.of_nat (length blocklocators)) in
  let s := foldl (fun s hash => ser_bytes s (take 32 hash)) s blocklocators in
  ser_bytes s (take 32 (default NULLHASH hashstop)).

(** The locators are added to the vector, whose length [vector_resize] leaves as it was. *)
Definition p2p_deser_msg_getheaders (blocklocators : list bytes) : deser (list bytes * bytes) :=
  _ ← deser_s32;
  vsize ← deser_varlen;
  remaining ← deser_remaining;
  _ ← deser_guard (negb (remaining / 32 <? vsize));
  hashes ← deser_times (Z.to_nat vsize) deser_u256;
  hashstop ← deser_u256;
  mret (take (Z.to_nat vsize) blocklocators ++ hashes, hashstop).

(** ** What is written is read back *)

Lemma inserts_zeros b n : (length b <= n)%nat -> list_inserts 0 b (zeros n) = b ++ zeros (n - length b).
Proof.
  intros H. rewrite inserts_split by (rewrite zeros_length; lia). cbn [Nat.add take app].
  unfold zeros. by rewrite drop_replicate.
Qed.

#[local] Opaque dogecoin_hash.

Lemma message_new_spec magic cmd data :
  length magic = 4%nat -> (length cmd <= 12)%nat ->
  p2p_message_new magic cmd data =
  Some (magic ++ (cmd ++ zeros (12 - length cmd)) ++ le_enc 4 (Z.of_nat (length data)) ++ take 4 (dogecoin_hash data) ++ data).
Proof.
  intros Hm Hc. unfold p2p_message_new. rewrite mem_write_in by (rewrite ?zeros_length; lia). cbn [mbind option_bind Z.to_nat].
  rewrite inserts_zeros by done.
  unfold sink_append, bytes_sink. rewrite (take_ge magic) by lia. cbn [app].
  generalize (take 4 (dogecoin_hash data)). intros h. destruct (Z.ltb_spec 0 (Z.of_nat (length data))).
  - by rewrite <- !app_assoc.
  - destruct data; [|cbn in *; lia]. by rewrite <- !app_assoc, app_nil_r.
Qed.

Lemma deser_or_app {A B} (d : deser A) old (f : A -> deser B) a buf rest :
  d buf = (Some a, rest) -> (deser_or d old ≫= f) buf = f a rest.
Proof. intros E. apply deser_bind_some. unfold deser_or. by rewrite E. Qed.

(** The header in front of 24 bytes or more. *)
Lemma deser_msghdr_spec hdr m c l h rest :
  length m = 4%nat -> length c = 12%nat -> urange 32 l -> length h = 4%nat ->
  p2p_deser_msghdr hdr (m ++ c ++ le_enc 4 l ++ h ++ rest) = (Some (mk_msg_hdr m c l h), rest).
Proof.
  intros Hm Hc Hl Hh. unfold p2p_deser_msghdr.
  rewrite (deser_or_app _ _ _ m _ _ (deser_bytes_app 4 m _ ltac:(lia))).
  rewrite (deser_or_app _ _ _ c _ _ (deser_bytes_app 12 c _ ltac:(lia))).
  rewrite (deser_or_app _ _ _ l _ _ (u32_round_trip l _ Hl)).
  by rewrite (deser_or_app _ _ _ h _ _ (deser_bytes_app 4 h _ ltac:(lia))).
Qed.

Definition address_ok (protover : Z) (a : p2p_address) : Prop :=
  (if DOGECOIN_ADDR_TIME_VERSION <=? protover then urange 32 (addr_time a) else addr_time a = 0) /\
  urange 64 (addr_services a) /\ length (ip a) = 16%nat /\ urange 16 (port a).

#[export] Instance ser_addr_appends protover : Appends (p2p_ser_addr protover).
Proof.
  intros s a. unfold p2p_ser_addr. destruct (_ <=? _); flatten_ser; reflexivity.
Qed.

#[export] Instance address_round_trip protover :
  RoundTrip (address_ok protover) (p2p_ser_addr protover) (p2p_deser_addr protover).
Proof.
  intros a rest (Ht & Hs & Hi & Hp). unfold p2p_ser_addr, p2p_deser_addr.
  rewrite (take_ge (ip a)) by lia. flatten_ser. destruct (_ <=? _).
  - rewrite app_nil_l, read_u32, read_u64, read_bytes, read_u16 by (done || lia). by destruct a.
  - rewrite app_nil_l, <- ?app_assoc. rewrite (deser_bind_some (mret 0) _ _ 0 _ eq_refl).
    rewrite read_u64, read_bytes, read_u16 by (done || lia). destruct a; cbn in *; by subst.
Qed.

#[export] Instance inv_appends : Appends p2p_msg_inv_ser.
Proof. intros s m. unfold p2p_msg_inv_ser. flatten_ser. reflexivity. Qed.

#[export] Instance inv_round_trip :
  RoundTrip (fun m => urange 32 (inv_type m) /\ length (inv_hash m) = 32%nat) p2p_msg_inv_ser p2p_msg_inv_deser.
Proof.
  intros m rest [Ht Hh]. unfold p2p_msg_inv_ser, p2p_msg_inv_deser. rewrite take_ge by lia. flatten_ser.
  rewrite app_nil_l, read_u32, read_u256 by done. by destruct m.
Qed.

Lemma strnlen_nul_free s rest maxlen :
  Forall (fun b => b <> byte_zero) s -> (length s < maxlen)%nat -> strnlen (s ++ byte_zero :: rest) maxlen = length s.
Proof.
  intros Hs. revert maxlen. induction Hs as [|b s Hb Hs IH]; intros [|m] Hl; cbn [length] in Hl; try lia; [done|].
  cbn [app strnlen length]. rewrite IH by lia.
  assert (byte_eqb b byte_zero = false) as ->; [|done].
  apply not_true_iff_false. intros E. apply Hb. by apply Byte.byte_dec_bl.
Qed.

(** The agent is text, with zeros behind it. *)
Definition agent_ok (ua : bytes) : Prop :=
  exists s, ua = s ++ zeros (128 - length s) /\ (length s < 128)%nat /\ Forall (fun b => b <> byte_zero) s.

Record version_ok (m : p2p_version_msg) : Prop := {
  vok_version : srange 32 (ver_version m); vok_relay_sent : 70003 < ver_version m;
  vok_services : urange 64 (ver_services m); vok_timestamp : srange 64 (ver_timestamp m);
  vok_recv : address_ok 0 (addr_recv m); vok_from : address_ok 0 (addr_from m);
  vok_nonce : urange 64 (ver_nonce m); vok_agent : agent_ok (useragent m);
  vok_height : srange 32 (start_height m); vok_relay : urange 8 (relay m);
}.

Lemma existsb_nul s n : (0 < n)%nat -> existsb (byte_eqb Byte.x00) (s ++ zeros n) = true.
Proof. intros Hn. rewrite existsb_app. destruct n; [lia|]. by rewrite orb_true_r. Qed.

Lemma version_bytes m s :
  version_ok m -> useragent m = s ++ zeros (128 - length s) -> (length s < 128)%nat -> Forall (fun b => b <> byte_zero) s ->
  p2p_msg_version_ser m [] =
  Some (le_enc 4 (u32 (ver_version m)) ++ le_enc 8 (ver_services m) ++ le_enc 8 (u64 (ver_timestamp m)) ++
        p2p_ser_addr 0 [] (addr_recv m) ++ p2p_ser_addr 0 [] (addr_from m) ++ le_enc 8 (ver_nonce m) ++
        ser_varlen [] (Z.of_nat (length s)) ++ s ++ le_enc 4 (u32 (start_height m)) ++ [byte.of_Z (relay m)]).
Proof.
  intros _ Eu Hl Hs. unfold p2p_msg_version_ser. rewrite Eu, existsb_nul by lia. cbn [negb].
  unfold ser_str. destruct (128 - length s)%nat as [|n] eqn:En; [lia|]. cbn [zeros replicate].
  rewrite strnlen_nul_free by (done || lia). rewrite (proj2 (Z.ltb_ge _ _)) by (unfold UINT32_MAX; lia).
  rewrite take_app_length, (wrap_small 32) by (unfold urange; lia).
  rewrite (ser_addr_appends 0 (p2p_ser_addr 0 _ _)), (ser_addr_appends 0 (ser_s64 _ _)). by flatten_ser.
Qed.

Lemma version_deser_spec m s rest :
  version_ok m -> useragent m = s ++ zeros (128 - length s) -> (length s < 128)%nat -> Forall (fun b => b <> byte_zero) s ->
  exists b, p2p_msg_version_ser m [] = Some b /\ p2p_msg_version_deser (b ++ rest) = (Some m, rest).
Proof.
  intros Hok Eu Hl Hs. eexists. split; [by apply (version_bytes m s)|]. destruct Hok. rewrite <- !app_assoc.
  unfold p2p_msg_version_deser. rewrite read_s32, read_u64, read_s64 by done.
  rewrite (deser_bind_some _ _ _ _ _ (address_round_trip 0 _ _ vok_recv0)).
  rewrite (deser_bind_some _ _ _ _ _ (address_round_trip 0 _ _ vok_from0)).
  rewrite read_u64, read_varlen by (done || unfold urange; lia). cbv zeta.
  rewrite (proj2 (Z.ltb_ge 128 _)), (proj2 (Z.ltb_ge 1024 _)) by lia.
  rewrite read_guard, read_bytes, read_s32 by done.
  rewrite (proj2 (Z.ltb_lt 70003 _)) by done.
  rewrite (deser_bind_some _ _ _ (relay m) rest).
  2:{ rewrite read_bytes by done. unfold mret, deser_ret. by rewrite le_dec_tag. }
  unfold mret, deser_ret. rewrite Nat2Z.id, take_ge by done.
  rewrite inserts_zeros, <- Eu by lia. by destruct m.
Qed.

Lemma locators_bytes (l : list bytes) (s : bytes) :
  foldl (fun s hash => ser_bytes s (take 32 hash)) s l = s ++ foldl ser_u256 [] l.
Proof. apply (foldl_appends ser_u256). Qed.

Lemma length_locators (l : list bytes) :
  Forall (fun b => length b = 32%nat) l -> length (foldl ser_u256 [] l) = (32 * length l)%nat.
Proof.
  induction 1 as [|h l Hh Hl IH]; [done|]. cbn [foldl]. rewrite (foldl_appends ser_u256), length_app, IH.
  unfold ser_u256, ser_bytes, sink_append, bytes_sink. cbn [app length]. rewrite length_take. lia.
Qed.

(** A request for headers is read back: the locators, 32 bytes each, and the hash to stop
    at, zeros where none was given; they are added behind those the vector already holds. *)
Theorem getheaders_round_trip (locators old : list bytes) (stop : option bytes) (rest : bytes)
  (Hl : Forall (fun b => length b = 32%nat) locators) (Hc : Z.of_nat (length locators) < 2 ^ 32)
  (Hs : length (default NULLHASH stop) = 32%nat) (Ho : (length old <= length locators)%nat) :
  p2p_deser_msg_getheaders old (p2p_msg_getheaders locators stop [] ++ rest) =
  (Some (old ++ locators, default NULLHASH stop), rest).
Proof.
  unfold p2p_msg_getheaders, p2p_deser_msg_getheaders. rewrite locators_bytes, (take_ge (default _ _)) by lia.
  pose proof (fun rest => times_round_trip _ ser_u256 deser_u256 locators rest Hl) as Ht.
  pose proof (length_locators _ Hl) as Hll. set (L := foldl ser_u256 [] locators) in *. clearbody L.
  flatten_ser. rewrite app_nil_l. change (le_enc 4 DOGECOIN_PROTOCOL_VERSION) with (le_enc 4 (u32 DOGECOIN_PROTOCOL_VERSION)).
  rewrite read_s32, read_varlen by (unfold srange, urange, DOGECOIN_PROTOCOL_VERSION; lia).
  set (n := length locators) in *.
  rewrite (deser_bind_some deser_remaining _ _ _ _ eq_refl).
  rewrite read_guard.
  2:{ rewrite !length_app, Hll.
      apply negb_true_iff, Z.ltb_ge, Z.div_le_lower_bound; lia. }
  rewrite Nat2Z.id. subst n.
  rewrite (deser_bind_some _ _ _ _ _ (Ht _)).
  rewrite read_u256, (take_ge old) by done. done.
Qed.

Lemma getheaders_round_trip_witness :
  p2p_deser_msg_getheaders [] (p2p_msg_getheaders [replicate 32 Byte.x07] None [] ++ [Byte.x01]) =
  (Some ([replicate 32 Byte.x07], zeros 32), [Byte.x01]).
Proof.
  apply (getheaders_round_trip [replicate 32 Byte.x07] [] None [Byte.x01]); [by repeat constructor|..]; cbn; lia || done.
Defined.

Lemma length_ser_addr a : length (ip a) = 16%nat -> length (p2p_ser_addr 0 [] a) = 26%nat.
Proof.
  intros H. unfold p2p_ser_addr. change (DOGECOIN_ADDR_TIME_VERSION <=? 0) with false. cbv iota. flatten_ser.
  rewrite app_nil_l, !length_app, take_ge, !le_enc_length, H by lia. done.
Qed.

Lemma length_varlen v : (length (ser_varlen [] v) <= 5)%nat.
Proof.
  unfold ser_varlen, ser_u16, ser_u32, ser_bytes, sink_append, bytes_sink. cbn [app length].
  destruct (v <? 253); [cbn; lia|]. destruct (v <? 65536); cbn [length]; rewrite le_enc_length; lia.
Qed.

(** ["version"] *)
Definition DOGECOIN_MSG_VERSION : bytes := [Byte.x76; Byte.x65; Byte.x72; Byte.x73; Byte.x69; Byte.x6f; Byte.x6e].

(** A version message survives the wire: with its fields in their ranges, a version above
    70003 and an agent of at most 127 characters, [p2p_msg_version_ser] writes a body,
    [p2p_message_new] frames it, [p2p_deser_msghdr] reads the frame off any stream that starts
    with it and finds the network, the command padded with zeros, the length of the body and the
    first bytes of its double hash, and [p2p_msg_version_deser] of what follows gives the
    message. *)
Theorem version_message_round_trip (magic rest : bytes) (m : p2p_version_msg) (hdr : p2p_msg_hdr)
  (Hm : length magic = 4%nat) (Hv : version_ok m) :
  exists body msg, p2p_msg_version_ser m [] = Some body /\ p2p_message_new magic DOGECOIN_MSG_VERSION body = Some msg /\
    p2p_deser_msghdr hdr (msg ++ rest) =
      (Some (mk_msg_hdr magic (DOGECOIN_MSG_VERSION ++ zeros 5) (Z.of_nat (length body)) (take 4 (dogecoin_hash body))),
       body ++ rest) /\
    p2p_msg_version_deser (body ++ rest) = (Some m, rest).
Proof.
  destruct (vok_agent _ Hv) as (s & Eu & Hl & Hs).
  destruct (version_deser_spec m s rest Hv Eu Hl Hs) as (body & E & Ed).
  rewrite (version_bytes m s Hv Eu Hl Hs) in E. apply (inj Some) in E. pose proof (f_equal length E) as El.
  assert (urange 32 (Z.of_nat (length body))) as Hlen.
  { rewrite <- El. destruct (vok_recv _ Hv) as (_ & _ & H1 & _). destruct (vok_from _ Hv) as (_ & _ & H2 & _).
    rewrite !length_app, !length_ser_addr, !le_enc_length by done. pose proof (length_varlen (Z.of_nat (length s))).
    unfold urange. cbn [length]. lia. }
  eexists body, _. split; [by rewrite (version_bytes m s Hv Eu Hl Hs), E|]. clear E El.
  split; [apply message_new_spec; [done|cbn; lia]|]. split; [|done].
  rewrite <- !app_assoc, (app_assoc DOGECOIN_MSG_VERSION). apply deser_msghdr_spec; try done.
  rewrite length_take, dogecoin_hash_length. done.
Qed.

(** A message as a client sends it. *)
Definition demo_version : p2p_version_msg :=
  p2p_msg_version_init 1700000000 (Some [Byte.x01; Byte.x02; Byte.x03; Byte.x04; Byte.x05; Byte.x06; Byte.x07; Byte.x08])
    (mk_version_msg 0 0 0 p2p_address_init p2p_address_init 0 (zeros 128) 0 0) None None (Some [Byte.x2f; Byte.x61; Byte.x2f]) 1.

Lemma demo_version_ok : version_ok demo_version.
Proof.
  split; try (vm_compute; done || (split; congruence) || lia).
  exists [Byte.x2f; Byte.x61; Byte.x2f]. split; [reflexivity|]. split; [cbn; lia|]. by repeat constructor.
Qed.

Lemma version_message_round_trip_witness :
  exists body msg, p2p_msg_version_ser demo_version [] = Some body /\
    p2p_message_new [Byte.xc0; Byte.xc0; Byte.xc0; Byte.xc0] DOGECOIN_MSG_VERSION body = Some msg /\
    p2p_deser_msghdr (mk_msg_hdr [] [] 0 []) (msg ++ [Byte.x01]) =
      (Some (mk_msg_hdr [Byte.xc0; Byte.xc0; Byte.xc0; Byte.xc0] (DOGECOIN_MSG_VERSION ++ zeros 5)
               (Z.of_nat (length body)) (take 4 (dogecoin_hash body))),
       body ++ [Byte.x01]) /\
    p2p_msg_version_deser (body ++ [Byte.x01]) = (Some demo_version, [Byte.x01]).
Proof.
  apply (version_message_round_trip [Byte.xc0; Byte.xc0; Byte.xc0; Byte.xc0] [Byte.x01] demo_version); [done|].
  apply demo_version_ok.
Defined.

Lemma existsb_nul_free s : Forall (fun b => b <> byte_zero) s -> existsb (byte_eqb Byte.x00) s = false.
Proof.
  induction 1 as [|b s Hb Hs IH]; [done|]. cbn [existsb]. rewrite IH, orb_false_r.
  apply not_true_iff_false. intros E%Byte.byte_dec_bl. by apply Hb.
Qed.

(** An agent of 128 to 1024 characters is accepted and cut off without a NUL behind it: the
    128 bytes [p2p_msg_version_deser] stores are characters, so that every use of the agent as a
    string, [p2p_msg_version_ser] among them, reads beyond it. *)
Theorem long_agent_unterminated (m : p2p_version_msg) (ua rest : bytes)
  (Hv : srange 32 (ver_version m)) (H7 : 70003 < ver_version m)
  (Hs : urange 64 (ver_services m)) (Ht : srange 64 (ver_timestamp m)) (Hr : address_ok 0 (addr_recv m))
  (Hf : address_ok 0 (addr_from m)) (Hn : urange 64 (ver_nonce m)) (Hh : srange 32 (start_height m))
  (Hy : urange 8 (relay m)) (Hu : Forall (fun b => b <> byte_zero) ua) (Hl : (128 <= length ua <= 1024)%nat) :
  let body := le_enc 4 (u32 (ver_version m)) ++ le_enc 8 (ver_services m) ++ le_enc 8 (u64 (ver_timestamp m)) ++
        p2p_ser_addr 0 [] (addr_recv m) ++ p2p_ser_addr 0 [] (addr_from m) ++ le_enc 8 (ver_nonce m) ++
        ser_varlen [] (Z.of_nat (length ua)) ++ ua ++ le_enc 4 (u32 (start_height m)) ++ [byte.of_Z (relay m)] in
  exists m', p2p_msg_version_deser (body ++ rest) = (Some m', rest) /\ useragent m' = take 128 ua /\
    existsb (byte_eqb Byte.x00) (useragent m') = false /\ p2p_msg_version_ser m' [] = None.
Proof.
  cbv zeta. rewrite <- !app_assoc. unfold p2p_msg_version_deser. rewrite read_s32, read_u64, read_s64 by done.
  rewrite (deser_bind_some _ _ _ _ _ (address_round_trip 0 _ _ Hr)).
  rewrite (deser_bind_some _ _ _ _ _ (address_round_trip 0 _ _ Hf)).
  rewrite read_u64, read_varlen by (done || unfold urange; lia). cbv zeta.
  rewrite (proj2 (Z.ltb_ge 1024 _)) by lia. rewrite read_guard, read_bytes, read_s32 by done.
  rewrite (proj2 (Z.ltb_lt 70003 _)) by done. rewrite (deser_bind_some _ _ _ (relay m) rest).
  2:{ rewrite read_bytes by done. unfold mret, deser_ret. by rewrite le_dec_tag. }
  unfold mret, deser_ret.
  assert (list_inserts 0 (take (Z.to_nat (if 128 <? Z.of_nat (length ua) then 128 else Z.of_nat (length ua))) ua) (zeros 128) =
    take 128 ua) as ->.
  { replace (if 128 <? Z.of_nat (length ua) then 128 else Z.of_nat (length ua)) with (Z.of_nat 128) by (case_match; lia).
    rewrite Nat2Z.id. assert (length (take 128 ua) = 128%nat) as H by (rewrite length_take; lia).
    rewrite inserts_zeros, H by lia. by rewrite app_nil_r. }
  assert (existsb (byte_eqb Byte.x00) (take 128 ua) = false) as E by (apply existsb_nul_free, Forall_take, Hu).
  eexists. split; [reflexivity|]. cbn [useragent]. split; [done|]. split; [done|].
  unfold p2p_msg_version_ser. cbn [useragent]. by rewrite E.
Qed.

Lemma long_agent_unterminated_witness :
  let ua := replicate 200 Byte.x61 in
  let body := le_enc 4 (u32 70015) ++ le_enc 8 0 ++ le_enc 8 (u64 1700000000) ++
        p2p_ser_addr 0 [] p2p_address_init ++ p2p_ser_addr 0 [] p2p_address_init ++ le_enc 8 (ver_nonce demo_version) ++
        ser_varlen [] (Z.of_nat (length ua)) ++ ua ++ le_enc 4 (u32 0) ++ [byte.of_Z 1] in
  exists m', p2p_msg_version_deser (body ++ []) = (Some m', []) /\ useragent m' = take 128 ua /\
    existsb (byte_eqb Byte.x00) (useragent m') = false /\ p2p_msg_version_ser m' [] = None.
Proof.
  pose proof demo_version_ok as [? ? ? ? ? ? ? _ ? ?].
  apply (long_agent_unterminated demo_version (replicate 200 Byte.x61) []); try assumption.
  - apply Forall_replicate. done.
  - rewrite length_replicate. lia.
Defined.

(** ** Socket addresses *)

Lemma swap16_swap16 v : urange 16 v -> swap16 (swap16 v) = v.
Proof.
  unfold urange, swap16. intros Hv.
  assert (forall v, 0 <= v < 2 ^ 16 -> Z.lor (u16 (Z.shiftl v 8)) (Z.shiftr v 8) = v mod 2 ^ 8 * 2 ^ 8 + v / 2 ^ 8) as E.
  { intros x Hx. assert (u16 (Z.shiftl x 8) = x mod 2 ^ 8 * 2 ^ 8) as ->.
    { unfold wrap. rewrite Z.shiftl_mul_pow2 by lia. change (2 ^ 16) with (2 ^ 8 * 2 ^ 8). rewrite Z.mul_mod_distr_r by lia. done. }
    rewrite Z.shiftr_div_pow2 by lia. apply (lor_disjoint _ _ 8); [lia|by eexists|].
    split; [apply Z.div_pos; lia|apply Z.div_lt_upper_bound; lia]. }
  pose proof (Z.mod_pos_bound v (2 ^ 8) ltac:(lia)) as Hm. pose proof (Z.div_mod v (2 ^ 8) ltac:(lia)) as Hd.
  assert (0 <= v / 2 ^ 8 < 2 ^ 8) as Hq by (split; [apply Z.div_pos; lia|apply Z.div_lt_upper_bound; lia]).
  rewrite (E v) by lia. set (q := v / 2 ^ 8) in *. set (r := v mod 2 ^ 8) in *. rewrite E by lia.
  assert ((r * 2 ^ 8 + q) / 2 ^ 8 = r) as -> by (symmetry; apply (Z.div_unique _ _ _ q); lia).
  assert ((r * 2 ^ 8 + q) mod 2 ^ 8 = q) as -> by (symmetry; apply (Z.mod_unique _ _ r); lia). lia.
Qed.

(** A socket address goes into a message and out again, into a structure of its own family, if
    it is not an IPv4 address in the clothes of IPv6. *)
Lemma sockaddr_round_trip (a b : sockaddr) (p : p2p_address) :
  urange 16 (sa_port a) -> length (sin_addr a) = 4%nat -> length (sin6_addr a) = 16%nat ->
  sa_family b = sa_family a ->
  sa_family a = AF_INET /\ sin6_addr b = sin6_addr a \/
  sa_family a = AF_INET6 /\ is_ipv4_mapped (sin6_addr a) = false /\ sin_addr b = sin_addr a ->
  p2paddr_to_addr (addr_to_p2paddr a p) b = a.
Proof.
  intros Hp H4 H6 Hf H. unfold addr_to_p2paddr, p2paddr_to_addr. destruct H as [[Ha Hb]|(Ha & Hm & Hb)]; rewrite Ha.
  - change (AF_INET =? AF_INET6) with false. change (AF_INET =? AF_INET) with true. cbv match.
    cbn [ip port]. rewrite (take_ge (sin_addr a)) by lia.
    assert (is_ipv4_mapped (zeros 10 ++ [Byte.xff; Byte.xff] ++ sin_addr a) = true) as ->.
    { unfold is_ipv4_mapped, DOGECOIN_IPV4_PREFIX. by apply bool_decide_eq_true. }
    cbn [negb]. rewrite swap16_swap16, Hf, Hb by done.
    change (drop 12 (zeros 10 ++ [Byte.xff; Byte.xff] ++ sin_addr a)) with (sin_addr a). rewrite take_ge by lia. by destruct a.
  - change (AF_INET6 =? AF_INET6) with true. cbv match. cbn [ip port]. rewrite (take_ge (sin6_addr a)) by lia.
    rewrite Hm. cbn [negb]. rewrite swap16_swap16, Hf, Hb, take_ge by (done || lia). by destruct a.
Qed.
