(* ===== verification/CompactBlock.v ===== *)
(** * Compact blocks ([src/src/compact_block.c], [src/include/dogecoin/compact_block.h])

    BIP 152: short identifiers of transactions, the messages, and rebuilding a block from the
    transactions a client knows and those it asks for.  Arrays are lists with their counts as
    lengths; a pointer to a transaction is an [option tx]. *)

From S2P Require Import Prelude Words Serialize Sha2Stream Sha256 Arith256 Tx Block Auxpow Siphash Protocol.

Local Open Scope Z_scope.

Definition CMPCTBLOCK_VERSION : Z := 1.
Definition CMPCTBLOCK_HEADER_BASE_SIZE : Z := 80.
Definition SHORTTXID_LENGTH : nat := 6.

(** ** Data *)

Record prefilled_tx := mk_prefilled { pf_index : Z; pf_tx : tx }.

Record compact_block := mk_compact_block {
  cb_header : block_header; header_raw : option bytes; cb_nonce : Z; sipkey_k0 : Z; sipkey_k1 : Z;
  short_ids : list bytes; prefilled_txs : list prefilled_tx }.

Record getblocktxn := mk_getblocktxn { gb_blockhash : bytes; indices : list Z }.

Record blocktxn := mk_blocktxn { bt_blockhash : bytes; bt_txs : list (option tx) }.

(** The transactions of a block being rebuilt and the indexes of those asked for; the part that
    is negotiated with a peer is in the node. *)
Record compact_block_state := mk_cb_state {
  available_txs : option (list (option tx)); missing_indices : option (list Z); missing_count : Z }.

Definition compact_block_state_new : compact_block_state := mk_cb_state None None 0.

(** ** Short identifiers *)

Definition compact_block_set_header_raw (c : compact_block) (b : bytes) : option compact_block :=
  let len := Z.of_nat (length b) in
  if len <? CMPCTBLOCK_HEADER_BASE_SIZE then None
  else if DOGECOIN_MAX_P2P_MSG_SIZE <? len then None
  else Some (mk_compact_block (cb_header c) (Some b) (cb_nonce c) (sipkey_k0 c) (sipkey_k1 c) (short_ids c) (prefilled_txs c)).

Definition compact_block_derive_sipkeys_raw (header_ser : bytes) (nonce : Z) : Z * Z :=
  let preimage := ser_u64 (ser_bytes [] header_ser) nonce in
  let hash := sha256_raw preimage in
  (le_dec (take 8 hash), le_dec (take 8 (drop 8 hash))).

(** Over the 80 bytes of a header without a proof of merge mining. *)
Definition compact_block_derive_sipkeys (header : block_header) (nonce : Z) : Z * Z :=
  compact_block_derive_sipkeys_raw (block_header_serialize [] header) nonce.

Definition compact_block_compute_short_id (k0 k1 : Z) (txhash : bytes) : bytes :=
  let siphash_result := siphash_u256 k0 k1 txhash in
  (fun i => byte.of_Z (Z.land (Z.shiftr siphash_result (8 * i)) 0xFF)) <$> [0; 1; 2; 3; 4; 5].

(** ** The messages *)

(** The difference to the index before, less one; the first index as it is. *)
Definition index_diff (last : option Z) (index : Z) : Z :=
  match last with None => index | Some last => u32 (index - last - 1) end.

Definition index_of_diff (last : option Z) (diff : Z) : Z :=
  match last with None => diff | Some last => u32 (last + diff + 1) end.

Fixpoint ser_prefilled (s : bytes) (last : option Z) (txs : list prefilled_tx) : bytes :=
  match txs with
  | [] => s
  | p :: txs =>
      let s := ser_varlen s (index_diff last (pf_index p)) in
      ser_prefilled (tx_serialize s (pf_tx p)) (Some (pf_index p)) txs
  end.

(** [None]: false, and nothing has been appended. *)
Definition compact_block_serialize (s : bytes) (c : compact_block) : option bytes :=
  s ← match header_raw c with
      | Some raw =>
          if CMPCTBLOCK_HEADER_BASE_SIZE <=? Z.of_nat (length raw) then Some (ser_bytes s raw)
          else if Z.land (hversion (cb_header c)) 0x100 =? 0 then Some (block_header_serialize s (cb_header c))
          else None
      | None =>
          if Z.land (hversion (cb_header c)) 0x100 =? 0 then Some (block_header_serialize s (cb_header c)) else None
      end;
  let s := ser_u64 s (cb_nonce c) in
  let s := ser_varlen s (Z.of_nat (length (short_ids c))) in
  let s := foldl ser_bytes s (short_ids c) in
  let s := ser_varlen s (Z.of_nat (length (prefilled_txs c))) in
  Some (ser_prefilled s None (prefilled_txs c)).

(** [dogecoin_tx_deserialize] and the skip behind it. *)
Definition deser_tx : deser tx := fun buf =>
  let '(ok, t, consumed) := tx_deserialize buf tx_new in
  if negb ok then (None, buf) else (deser_skip consumed;; mret t) buf.

Fixpoint deser_prefilled (n : nat) (last : option Z) : deser (list prefilled_tx) :=
  match n with
  | O => mret []
  | S n =>
      diff ← deser_varlen;
      let index := index_of_diff last diff in
      t ← deser_tx;
      l ← deser_prefilled n (Some index);
      mret (mk_prefilled index t :: l)
  end.

(** What follows the header. *)
Definition deser_compact_body (header : block_header) (raw : bytes) : deser compact_block :=
  nonce ← deser_u64;
  let '(k0, k1) := compact_block_derive_sipkeys_raw raw nonce in
  short_ids_count ← deser_varlen;
  ids ← deser_bytes (short_ids_count * Z.of_nat SHORTTXID_LENGTH);
  prefilled_count ← deser_varlen;
  len ← deser_remaining;
  _ ← deser_guard (negb (len <? prefilled_count));
  txs ← deser_prefilled (Z.to_nat prefilled_count) None;
  mret (mk_compact_block header (Some raw) nonce k0 k1 (chunks SHORTTXID_LENGTH (Z.to_nat short_ids_count) ids) txs).

(** The result and the rest of the buffer; the outer [None] is undefined behaviour in the
    check of the header. *)
Definition compact_block_deserialize (buf : bytes) (params : chainparams) : option (option compact_block * bytes) :=
  if Z.of_nat (length buf) <? CMPCTBLOCK_HEADER_BASE_SIZE then Some (None, buf)
  else
    '(ok, header, rest, _) ← block_header_deserialize block_header_new buf params None;
    if negb ok then Some (None, rest)
    else
      let raw := take (length buf - length rest) buf in
      match compact_block_set_header_raw (mk_compact_block header None 0 0 0 [] []) raw with
      | None => Some (None, rest)
      | Some _ => Some (deser_compact_body header raw rest)
      end.

Fixpoint ser_indices (s : bytes) (last : option Z) (l : list Z) : bytes :=
  match l with
  | [] => s
  | i :: l => ser_indices (ser_varlen s (index_diff last i)) (Some i) l
  end.

Definition getblocktxn_serialize (s : bytes) (req : getblocktxn) : bytes :=
  let s := ser_u256 s (gb_blockhash req) in
  let s := ser_varlen s (Z.of_nat (length (indices req))) in
  ser_indices s None (indices req).

Fixpoint deser_indices (n : nat) (last : option Z) : deser (list Z) :=
  match n with
  | O => mret []
  | S n =>
      diff ← deser_varlen;
      let index := index_of_diff last diff in
      l ← deser_indices n (Some index);
      mret (index :: l)
  end.

Definition getblocktxn_deserialize : deser getblocktxn :=
  hash ← deser_u256;
  count ← deser_varlen;
  len ← deser_remaining;
  _ ← deser_guard (negb (len <? count));
  l ← deser_indices (Z.to_nat count) None;
  mret (mk_getblocktxn hash l).

(** The count is that of the pointers, NULL or not. *)
Definition blocktxn_serialize (s : bytes) (resp : blocktxn) : bytes :=
  let s := ser_u256 s (bt_blockhash resp) in
  let s := ser_varlen s (Z.of_nat (length (bt_txs resp))) in
  foldl (fun s t => match t with Some t => tx_serialize s t | None => s end) s (bt_txs resp).

Definition blocktxn_deserialize : deser blocktxn :=
  hash ← deser_u256;
  count ← deser_varlen;
  len ← deser_remaining;
  _ ← deser_guard (negb (len <? count));
  l ← deser_times (Z.to_nat count) deser_tx;
  mret (mk_blocktxn hash (Some <$> l)).

(** The negotiation: whether to announce, and the version. *)
Definition p2p_msg_sendcmpct_deser : deser (bool * Z) :=
  announce ← deser_bytes 1;
  version ← deser_u64;
  mret (negb (le_dec announce =? 0), version).

(** ["sendcmpct"], ["cmpctblock"], ["getblocktxn"], ["blocktxn"] *)
Definition DOGECOIN_MSG_SENDCMPCT : bytes :=
  [Byte.x73; Byte.x65; Byte.x6e; Byte.x64; Byte.x63; Byte.x6d; Byte.x70; Byte.x63; Byte.x74].
Definition DOGECOIN_MSG_CMPCTBLOCK : bytes :=
  [Byte.x63; Byte.x6d; Byte.x70; Byte.x63; Byte.x74; Byte.x62; Byte.x6c; Byte.x6f; Byte.x63; Byte.x6b].
Definition DOGECOIN_MSG_GETBLOCKTXN : bytes :=
  [Byte.x67; Byte.x65; Byte.x74; Byte.x62; Byte.x6c; Byte.x6f; Byte.x63; Byte.x6b; Byte.x74; Byte.x78; Byte.x6e].
Definition DOGECOIN_MSG_BLOCKTXN : bytes :=
  [Byte.x62; Byte.x6c; Byte.x6f; Byte.x63; Byte.x6b; Byte.x74; Byte.x78; Byte.x6e].

Definition p2p_msg_sendcmpct (magic : bytes) (high_bandwidth : bool) (version : Z) : option bytes :=
  p2p_message_new magic DOGECOIN_MSG_SENDCMPCT
    (ser_u64 (ser_bytes [] [if high_bandwidth then Byte.x01 else Byte.x00]) version).

Definition p2p_msg_cmpctblock (magic : bytes) (c : compact_block) : option bytes :=
  payload ← compact_block_serialize [] c; p2p_message_new magic DOGECOIN_MSG_CMPCTBLOCK payload.

Definition p2p_msg_getblocktxn (magic : bytes) (req : getblocktxn) : option bytes :=
  p2p_message_new magic DOGECOIN_MSG_GETBLOCKTXN (getblocktxn_serialize [] req).

Definition p2p_msg_blocktxn (magic : bytes) (resp : blocktxn) : option bytes :=
  p2p_message_new magic DOGECOIN_MSG_BLOCKTXN (blocktxn_serialize [] resp).

(** ** Rebuilding a block *)

(** Prefilled transactions at their indexes; [None]: out of range, or two at one index. *)
Definition place_prefilled (av : option (list (option tx))) (p : prefilled_tx) : option (list (option tx)) :=
  av ← av;
  if Z.of_nat (length av) <=? pf_index p then None
  else match nth (Z.to_nat (pf_index p)) av None with
       | Some _ => None
       | None => Some (<[Z.to_nat (pf_index p) := Some (pf_tx p)]> av)
       end.

(** The indexes of the slots that are NULL, from [i] on. *)
Fixpoint empty_slots (i : nat) (av : list (option tx)) : list nat :=
  match av with
  | [] => []
  | None :: av => i :: empty_slots (S i) av
  | Some _ :: av => empty_slots (S i) av
  end.

(** The slot of each short identifier, in an array of zeros. *)
Definition shortid_to_txpos (count : nat) (av : list (option tx)) : list nat :=
  let slots := take count (empty_slots 0 av) in slots ++ replicate (count - length slots) 0%nat.

Fixpoint has_duplicate (ids : list bytes) : bool :=
  match ids with [] => false | x :: ids => existsb (bytes_eqb x) ids || has_duplicate ids end.

(** The match so far, and whether there was a second one. *)
Fixpoint find_match (k0 k1 : Z) (target : bytes) (known : list (option tx)) (found : option tx) : option tx * bool :=
  match known with
  | [] => (found, false)
  | None :: known => find_match k0 k1 target known found
  | Some t :: known =>
      if bytes_eqb target (compact_block_compute_short_id k0 k1 (tx_hash t)) then
        match found with
        | Some _ => (found, true)
        | None => find_match k0 k1 target known (Some t)
        end
      else find_match k0 k1 target known found
  end.

(** One short identifier: its slot filled, or counted as missing. *)
Definition fill_slot (k0 k1 : Z) (known : list (option tx)) (st : list (option tx) * Z) (slot : bytes * nat) :
    list (option tx) * Z :=
  let '(av, missing) := st in
  let '(target, pos) := slot in
  match find_match k0 k1 target known None with
  | (Some t, false) => (<[pos := Some t]> av, missing)
  | _ => (av, missing + 1)
  end.

Definition compact_block_reconstruct (c : compact_block) (st : compact_block_state) (known_txs : list (option tx)) :
    bool * compact_block_state :=
  let st := compact_block_state_new in
  let ids := length (short_ids c) in
  if UINT32_MAX - Z.of_nat (length (prefilled_txs c)) <? Z.of_nat ids then (false, st)
  else
    let total_txs := (ids + length (prefilled_txs c))%nat in
    if (total_txs =? 0)%nat then (false, st)
    else
      match foldl place_prefilled (Some (replicate total_txs None)) (prefilled_txs c) with
      | None => (false, st)
      | Some av =>
          let txpos := shortid_to_txpos ids av in
          if has_duplicate (short_ids c) then (false, st)
          else
            let '(av, missing) := foldl (fill_slot (sipkey_k0 c) (sipkey_k1 c) known_txs) (av, 0) (zip (short_ids c) txpos) in
            if 0 <? missing then
              (false, mk_cb_state (Some av)
                 (Some (Z.of_nat <$> filter (fun pos => nth pos av None = None) txpos)) missing)
            else (missing =? 0, mk_cb_state (Some av) None 0)
      end.

(** One transaction of the answer; [None]: false, what was stored before it stays. *)
Definition fill_missing_step (av : bool * list (option tx)) (it : Z * option tx) : bool * list (option tx) :=
  let '(ok, av) := av in
  let '(idx, t) := it in
  if negb ok then (false, av)
  else if Z.of_nat (length av) <=? idx then (false, av)
  else (true, <[Z.to_nat idx := t]> av).

Definition compact_block_fill_missing (st : compact_block_state) (resp : blocktxn) : bool * compact_block_state :=
  match available_txs st, missing_indices st with
  | Some av, Some missing =>
      if negb (Z.of_nat (length (bt_txs resp)) =? missing_count st) then (false, st)
      else
        let '(ok, av) := foldl fill_missing_step (true, av) (zip missing (bt_txs resp)) in
        if negb ok then (false, mk_cb_state (Some av) (Some missing) (missing_count st))
        else if existsb (fun t => match t with None => true | Some _ => false end) av
        then (false, mk_cb_state (Some av) (Some missing) (missing_count st))
        else (true, mk_cb_state (Some av) (Some missing) 0)
  | _, _ => (false, st)
  end.

(** ** What is written is read back *)

Lemma index_round_trip last i :
  urange 32 i -> match last with Some l => urange 32 l | None => True end ->
  index_of_diff last (index_diff last i) = i /\ urange 32 (index_diff last i).
Proof.
  unfold urange, index_of_diff, index_diff. intros Hi Hl. destruct last as [l|]; [|done].
  split; [|apply wrap_range; lia]. replace (l + u32 (i - l - 1) + 1) with (u32 (i - l - 1) + (l + 1)) by lia.
  rewrite wrap_add_l. replace (i - l - 1 + (l + 1)) with i by lia. by apply wrap_small.
Qed.

Definition sendable (t : tx) : Prop := exists ins outs, tx_ok t ins outs /\ ins <> [].

#[export] Instance tx_round_trip_deser : RoundTrip sendable (tx_serialize (S := bytes)) deser_tx.
Proof.
  intros t rest (ins & outs & Hok & Hi). unfold deser_tx, tx_deserialize.
  rewrite (tx_deserialize_serialize t tx_new ins outs rest true) by done. cbn [negb]. unfold deser_skip.
  rewrite (deser_bind_some _ _ _ tt rest); [done|].
  rewrite length_app, (proj2 (Z.ltb_ge _ _)) by lia. by rewrite Nat2Z.id, drop_app_length.
Qed.

Lemma length_varlen_pos v : (1 <= length (ser_varlen [] v))%nat.
Proof.
  unfold ser_varlen, ser_u16, ser_u32, ser_bytes, sink_append, bytes_sink. cbn [app length].
  repeat case_match; cbn [length]; lia.
Qed.

Lemma ser_prefilled_app s last l : ser_prefilled s last l = s ++ ser_prefilled [] last l.
Proof.
  revert s last. induction l as [|p l IH]; intros s last; cbn [ser_prefilled]; [by rewrite app_nil_r|].
  rewrite IH, (IH (tx_serialize (ser_varlen [] _) _)), (tx_appends (ser_varlen _ _)), (tx_appends (ser_varlen [] _)),
    (ser_varlen_appends s). by rewrite <- !app_assoc.
Qed.

Lemma ser_indices_app s last l : ser_indices s last l = s ++ ser_indices [] last l.
Proof.
  revert s last. induction l as [|i l IH]; intros s last; cbn [ser_indices]; [by rewrite app_nil_r|].
  rewrite IH, (IH (ser_varlen [] _)), (ser_varlen_appends s). by rewrite <- app_assoc.
Qed.

Lemma ser_prefilled_length last l : (length l <= length (ser_prefilled [] last l))%nat.
Proof.
  revert last. induction l as [|p l IH]; intros last; cbn [ser_prefilled length]; [lia|].
  rewrite ser_prefilled_app, tx_appends, !length_app. pose proof (length_varlen_pos (index_diff last (pf_index p))).
  specialize (IH (Some (pf_index p))). lia.
Qed.

Lemma ser_indices_length last l : (length l <= length (ser_indices [] last l))%nat.
Proof.
  revert last. induction l as [|i l IH]; intros last; cbn [ser_indices length]; [lia|].
  rewrite ser_indices_app, length_app. pose proof (length_varlen_pos (index_diff last i)). specialize (IH (Some i)). lia.
Qed.

Lemma prefilled_round_trip last l rest :
  Forall (fun p => urange 32 (pf_index p) /\ sendable (pf_tx p)) l ->
  match last with Some i => urange 32 i | None => True end ->
  deser_prefilled (length l) last (ser_prefilled [] last l ++ rest) = (Some l, rest).
Proof.
  intros Hl. revert last. induction Hl as [|p l [Hp Ht] Hl IH]; intros last Hlast; cbn [ser_prefilled length deser_prefilled]; [done|].
  destruct (index_round_trip last (pf_index p) Hp Hlast) as [Ei Hd].
  rewrite ser_prefilled_app, tx_appends, <- !app_assoc, read_varlen by done. cbv zeta. rewrite Ei.
  rewrite (deser_bind_some _ _ _ _ _ (tx_round_trip_deser (pf_tx p) _ Ht)).
  rewrite (deser_bind_some _ _ _ _ _ (IH (Some (pf_index p)) Hp)). by destruct p.
Qed.

Lemma indices_round_trip last l rest :
  Forall (urange 32) l -> match last with Some i => urange 32 i | None => True end ->
  deser_indices (length l) last (ser_indices [] last l ++ rest) = (Some l, rest).
Proof.
  intros Hl. revert last. induction Hl as [|i l Hi Hl IH]; intros last Hlast; cbn [ser_indices length deser_indices]; [done|].
  destruct (index_round_trip last i Hi Hlast) as [Ei Hd].
  rewrite ser_indices_app, <- app_assoc, read_varlen by done. cbv zeta. rewrite Ei.
  by rewrite (deser_bind_some _ _ _ _ _ (IH (Some i) Hi)).
Qed.

(** A compact block as it is received: its header is what its bytes say, its keys are those of
    its bytes and nonce. *)
Record wire_ok (params : chainparams) (c : compact_block) : Prop := {
  wok_header : header_ok (cb_header c);
  wok_flag : payload (cb_header c) = None -> Z.testbit (hversion (cb_header c)) 8 = false;
  wok_raw : header_raw c = block_header_serialize_full [] (cb_header c);
  wok_valid : exists w, block_header_validate (Some (cb_header c)) params None = Some (true, w);
  wok_nonce : urange 64 (cb_nonce c);
  wok_keys : forall raw, header_raw c = Some raw ->
    compact_block_derive_sipkeys_raw raw (cb_nonce c) = (sipkey_k0 c, sipkey_k1 c);
  wok_ids : Forall (fun id => length id = SHORTTXID_LENGTH) (short_ids c);
  wok_ids_count : Z.of_nat (length (short_ids c)) < 2 ^ 32;
  wok_prefilled : Forall (fun p => urange 32 (pf_index p) /\ sendable (pf_tx p)) (prefilled_txs c);
  wok_prefilled_count : Z.of_nat (length (prefilled_txs c)) < 2 ^ 32;
}.

#[local] Opaque sha256_raw dogecoin_hash.

(** The bytes of the short identifiers, in one piece. *)
Lemma ids_bytes (ids : list bytes) s : foldl ser_bytes s ids = s ++ concat ids.
Proof.
  revert s. induction ids as [|x ids IH]; intros s; cbn [foldl concat]; [by rewrite app_nil_r|].
  rewrite IH. unfold ser_bytes, sink_append, bytes_sink. by rewrite <- app_assoc.
Qed.

Lemma length_ids (ids : list bytes) :
  Forall (fun id => length id = SHORTTXID_LENGTH) ids -> length (concat ids) = (6 * length ids)%nat.
Proof. intros H. rewrite (length_concat_const 6); [lia|]. by apply Forall_forall. Qed.

Lemma compact_body_round_trip params c raw rest :
  wire_ok params c -> header_raw c = Some raw ->
  deser_compact_body (cb_header c) raw
    (le_enc 8 (cb_nonce c) ++ ser_varlen [] (Z.of_nat (length (short_ids c))) ++ concat (short_ids c) ++
     ser_varlen [] (Z.of_nat (length (prefilled_txs c))) ++ ser_prefilled [] None (prefilled_txs c) ++ rest) = (Some c, rest).
Proof.
  intros [] Hraw. unfold deser_compact_body. rewrite read_u64 by done. rewrite (wok_keys0 raw Hraw).
  rewrite read_varlen by (unfold urange; lia).
  rewrite read_bytes by (rewrite length_ids by done; cbv [SHORTTXID_LENGTH]; lia).
  rewrite read_varlen by (unfold urange; lia).
  rewrite (deser_bind_some deser_remaining _ _ _ _ eq_refl). rewrite read_guard.
  2:{ pose proof (ser_prefilled_length None (prefilled_txs c)). rewrite length_app. apply negb_true_iff, Z.ltb_ge. lia. }
  rewrite !Nat2Z.id. rewrite (deser_bind_some _ _ _ _ _ (prefilled_round_trip None (prefilled_txs c) rest wok_prefilled0 I)).
  unfold mret, deser_ret. rewrite chunks_concat by exact wok_ids0. rewrite <- Hraw. by destruct c.
Qed.

(** A compact block survives the wire: [compact_block_serialize] writes the header as it was
    received, the nonce, the short identifiers and the prefilled transactions, and
    [compact_block_deserialize] reads the same compact block back, keys included, in front of
    any bytes, for headers with and without a proof of merge mining. *)
Theorem compact_block_round_trip (params : chainparams) (c : compact_block) (rest : bytes) (Hc : wire_ok params c) :
  exists b, compact_block_serialize [] c = Some b /\
    (Z.of_nat (length (b ++ rest)) <= DOGECOIN_MAX_P2P_MSG_SIZE ->
     compact_block_deserialize (b ++ rest) params = Some (Some c, rest)).
Proof.
  destruct (header_serialize_parse (cb_header c) block_header_new [] (wok_header _ _ Hc)) as (raw & Er & _).
  { done. }
  pose proof (wok_raw _ _ Hc) as Hraw. rewrite Er in Hraw.
  assert (80 <= length raw)%nat as H80.
  { unfold block_header_serialize_full in Er. pose proof (ok_base _ (wok_header _ _ Hc)) as Hb.
    pose proof (length_header (cb_header c) Hb). destruct (payload (cb_header c)) as [p|] eqn:Ep.
    - destruct (ok_payload _ (wok_header _ _ Hc) p Ep) as [Hp _].
      destruct (payload_serialize_fields p Hp) as (t & pm & am & ph & _ & _ & _ & _ & Ef).
      rewrite (Ef (block_header_serialize [] _)) in Er. apply (inj Some) in Er. subst raw. rewrite length_app. lia.
    - apply (inj Some) in Er. subst raw. lia. }
  eexists. split.
  { unfold compact_block_serialize. rewrite Hraw. rewrite (proj2 (Z.leb_le _ _)) by (unfold CMPCTBLOCK_HEADER_BASE_SIZE; lia).
    cbn [mbind option_bind]. rewrite ids_bytes, ser_prefilled_app. flatten_ser. reflexivity. }
  rewrite app_nil_l, <- !app_assoc. intros Hlen.
  set (body := le_enc 8 (cb_nonce c) ++ _) in *.
  destruct (header_serialize_parse (cb_header c) block_header_new body (wok_header _ _ Hc)) as (raw' & Er' & Hp).
  { intros E T. by rewrite (wok_flag _ _ Hc E) in T. }
  rewrite Er in Er'. apply (inj Some) in Er'. subst raw'. change (bytes) with (list Byte.byte) in *.
  unfold compact_block_deserialize. rewrite (proj2 (Z.ltb_ge _ _)).
  2:{ rewrite length_app. unfold CMPCTBLOCK_HEADER_BASE_SIZE. lia. }
  unfold block_header_deserialize. rewrite (Hp Hlen). cbn [negb].
  destruct (wok_valid _ _ Hc) as (w & ->). cbn [mbind option_bind negb].
  rewrite length_app, Nat.add_sub, take_app_length. unfold compact_block_set_header_raw.
  rewrite !(proj2 (Z.ltb_ge _ _)).
  - f_equal. by apply (compact_body_round_trip params).
  - rewrite length_app in Hlen. lia.
  - unfold CMPCTBLOCK_HEADER_BASE_SIZE. lia.
Qed.

(** Requests and answers for missing transactions survive the wire, the indexes of a request
    in whatever order: [getblocktxn_deserialize] reads back what [getblocktxn_serialize] wrote,
    differences and all, and [blocktxn_deserialize] the transactions of
    [blocktxn_serialize], in front of any bytes. *)
Theorem getblocktxn_round_trip (req : getblocktxn) (resp : blocktxn) (txs : list tx) (rest : bytes)
  (Hh : length (gb_blockhash req) = 32%nat) (Hi : Forall (urange 32) (indices req))
  (Hc : Z.of_nat (length (indices req)) < 2 ^ 32)
  (Hh' : length (bt_blockhash resp) = 32%nat) (Ht : bt_txs resp = Some <$> txs) (Hs : Forall sendable txs)
  (Hc' : Z.of_nat (length txs) < 2 ^ 32) :
  getblocktxn_deserialize (getblocktxn_serialize [] req ++ rest) = (Some req, rest) /\
  blocktxn_deserialize (blocktxn_serialize [] resp ++ rest) = (Some resp, rest).
Proof.
  split.
  - unfold getblocktxn_serialize, getblocktxn_deserialize. rewrite ser_indices_app. unfold ser_u256.
    rewrite take_ge by lia. flatten_ser. rewrite app_nil_l, read_u256, read_varlen by (done || unfold urange; lia).
    rewrite (deser_bind_some deser_remaining _ _ _ _ eq_refl). rewrite read_guard.
    2:{ pose proof (ser_indices_length None (indices req)). rewrite length_app. apply negb_true_iff, Z.ltb_ge. lia. }
    rewrite Nat2Z.id, (deser_bind_some _ _ _ _ _ (indices_round_trip None (indices req) rest Hi I)). by destruct req.
  - unfold blocktxn_serialize, blocktxn_deserialize. rewrite Ht, length_fmap.
    assert (forall s, foldl (fun s t => match t with Some t => tx_serialize s t | None => s end) s (Some <$> txs) =
      s ++ foldl tx_serialize [] txs) as ->.
    { intros s. rewrite <- (foldl_appends tx_serialize). clear. revert s. induction txs as [|t l IH]; intros s; [done|apply IH]. }
    assert (length txs <= length (foldl tx_serialize [] txs))%nat as Hlen.
    { clear -Hs. induction Hs as [|t l (ins & outs & Hok & _) Hl IH]; [cbn; lia|]. cbn [foldl length].
      rewrite (foldl_appends tx_serialize), length_app. pose proof (tx_serialize_length_ge _ _ _ Hok). lia. }
    pose proof (times_round_trip sendable tx_serialize deser_tx txs rest Hs) as Hr.
    set (body := foldl tx_serialize [] txs) in *. clearbody body. unfold ser_u256.
    rewrite take_ge by lia. flatten_ser. rewrite app_nil_l, read_u256, read_varlen by (done || unfold urange; lia).
    rewrite (deser_bind_some deser_remaining _ _ _ _ eq_refl). rewrite read_guard.
    2:{ rewrite length_app. apply negb_true_iff, Z.ltb_ge. lia. }
    rewrite Nat2Z.id, (deser_bind_some _ _ _ _ _ Hr). unfold mret, deser_ret. rewrite <- Ht. by destruct resp.
Qed.

Lemma demo_sendable : sendable demo_tx.
Proof. exists [demo_in], [demo_out]. by split; [apply demo_tx_ok|]. Qed.

Lemma getblocktxn_round_trip_witness :
  getblocktxn_deserialize (getblocktxn_serialize [] (mk_getblocktxn (zeros 32) [7; 3; 300]) ++ [Byte.x01]) =
    (Some (mk_getblocktxn (zeros 32) [7; 3; 300]), [Byte.x01]) /\
  blocktxn_deserialize (blocktxn_serialize [] (mk_blocktxn (zeros 32) [Some demo_tx]) ++ [Byte.x01]) =
    (Some (mk_blocktxn (zeros 32) [Some demo_tx]), [Byte.x01]).
Proof.
  apply (getblocktxn_round_trip (mk_getblocktxn (zeros 32) [7; 3; 300]) (mk_blocktxn (zeros 32) [Some demo_tx]) [demo_tx]);
    try (cbn; lia || done).
  - repeat constructor; unfold urange; lia.
  - repeat constructor. apply demo_sendable.
Defined.

(** A compact block of one prefilled transaction and one short identifier. *)
Definition demo_compact : compact_block :=
  let raw := block_header_serialize [] demo_base in
  let keys := compact_block_derive_sipkeys_raw raw 5 in
  mk_compact_block demo_base (Some raw) 5 keys.1 keys.2 [zeros 6] [mk_prefilled 0 demo_tx].

Lemma demo_compact_ok : wire_ok demo_params demo_compact.
Proof.
  split.
  - split; [split; done|done|done].
  - done.
  - reflexivity.
  - exists (None : option arith_uint256). reflexivity.
  - cbn. unfold urange. lia.
  - intros raw [= <-]. unfold demo_compact. cbn [sipkey_k0 sipkey_k1 cb_nonce]. by destruct (compact_block_derive_sipkeys_raw _ _).
  - by repeat constructor.
  - cbn. lia.
  - constructor; [|constructor]. split; [cbn; unfold urange; lia|apply demo_sendable].
  - cbn. lia.
Qed.

Lemma compact_block_round_trip_witness :
  exists b, compact_block_serialize [] demo_compact = Some b /\
    (Z.of_nat (length (b ++ [Byte.x01])) <= DOGECOIN_MAX_P2P_MSG_SIZE ->
     compact_block_deserialize (b ++ [Byte.x01]) demo_params = Some (Some demo_compact, [Byte.x01])).
Proof. exact (compact_block_round_trip demo_params demo_compact [Byte.x01] demo_compact_ok). Defined.

(** ** Slots *)

#[local] Opaque compact_block_compute_short_id tx_hash.

(** How many slots are NULL. *)
Definition holes (av : list (option tx)) : nat := length (filter (fun o => o = None) av).

Lemma list_filter_in {A} (P Q : A -> Prop) `{!forall x, Decision (P x), !forall x, Decision (Q x)} (l : list A) :
  (forall x, x ∈ l -> P x <-> Q x) -> filter P l = filter Q l.
Proof.
  induction l as [|x l IH]; intros E; [done|]. rewrite !filter_cons, IH by (intros y Hy; apply E; by right).
  specialize (E x ltac:(by left)). destruct (decide (P x)), (decide (Q x)); tauto.
Qed.

Lemma empty_slots_filter i av :
  empty_slots i av = filter (fun k => nth (k - i) av None = None) (seq i (length av)).
Proof.
  revert i. induction av as [|o av IH]; intros i; [done|]. cbn [empty_slots length seq].
  assert (filter (fun k => nth (k - i) (o :: av) None = None) (seq (S i) (length av)) = empty_slots (S i) av) as E.
  { rewrite IH. apply list_filter_in. intros k Hk%elem_of_seq.
    by replace (k - i)%nat with (S (k - S i)) by lia. }
  rewrite filter_cons. replace (i - i)%nat with 0%nat by lia. cbn [nth]. destruct o as [t|].
  - rewrite decide_False by done. exact (eq_sym E).
  - rewrite decide_True by done. f_equal. exact (eq_sym E).
Qed.

Lemma empty_slots_spec av p : p ∈ empty_slots 0 av <-> av !! p = Some None.
Proof.
  rewrite empty_slots_filter, list_elem_of_filter, elem_of_seq, Nat.sub_0_r. split.
  - intros [E Hp]. destruct (lookup_lt_is_Some_2 av p ltac:(lia)) as [o Ho].
    rewrite (nth_lookup_Some _ _ _ _ Ho) in E. by subst.
  - intros E. rewrite (nth_lookup_Some _ _ _ _ E). apply lookup_lt_Some in E. split; [done|lia].
Qed.

Lemma empty_slots_NoDup av : NoDup (empty_slots 0 av).
Proof. rewrite empty_slots_filter. apply NoDup_filter, NoDup_seq. Qed.

Lemma length_empty_slots i av : length (empty_slots i av) = holes av.
Proof.
  revert i. induction av as [|[t|] av IH]; intros i; [done|..]; unfold holes; rewrite filter_cons; cbn [empty_slots length].
  - rewrite decide_False by done. apply IH.
  - rewrite decide_True by done. cbn [length]. by rewrite IH.
Qed.

Lemma holes_insert av p t : av !! p = Some None -> S (holes (<[p := Some t]> av)) = holes av.
Proof.
  revert p. induction av as [|o av IH]; intros [|p] E; try done.
  - injection E as ->. unfold holes. cbn [insert list_insert]. rewrite !filter_cons.
    by rewrite decide_False, decide_True by done.
  - cbn in E. specialize (IH p E). unfold holes in *. cbn [insert list_insert]. rewrite !filter_cons.
    destruct (decide (o = None)); cbn [length]; [f_equal|]; exact IH.
Qed.

Lemma place_prefilled_None l : foldl place_prefilled None l = None.
Proof. by induction l. Qed.

Lemma place_step av p av' :
  0 <= pf_index p -> place_prefilled (Some av) p = Some av' ->
  av !! Z.to_nat (pf_index p) = Some None /\ av' = <[Z.to_nat (pf_index p) := Some (pf_tx p)]> av.
Proof.
  intros Hp. cbn [place_prefilled mbind option_bind]. destruct (Z.leb_spec (Z.of_nat (length av)) (pf_index p)); [done|].
  destruct (lookup_lt_is_Some_2 av (Z.to_nat (pf_index p)) ltac:(lia)) as [o Ho].
  rewrite (nth_lookup_Some _ _ _ _ Ho). destruct o; [done|]. by intros [= <-].
Qed.

(** Every prefilled transaction takes one slot that was empty. *)
Lemma place_all l av av' :
  Forall (fun p => 0 <= pf_index p) l -> foldl place_prefilled (Some av) l = Some av' ->
  length av' = length av /\ (holes av' + length l = holes av)%nat.
Proof.
  intros Hl. revert av. induction Hl as [|p l Hp Hl IH]; intros av E; [injection E as <-; cbn; lia|].
  cbn [foldl] in E. destruct (place_prefilled (Some av) p) as [av1|] eqn:E1; [|by rewrite place_prefilled_None in E].
  destruct (place_step av p av1 Hp E1) as [H0 ->]. destruct (IH _ E) as [H1 H2].
  rewrite length_insert in H1. pose proof (holes_insert av _ (pf_tx p) H0). cbn [length]. lia.
Qed.

Lemma holes_replicate n : holes (replicate n None) = n.
Proof.
  unfold holes. induction n as [|n IH]; [done|]. cbn [replicate]. rewrite filter_cons, decide_True by done.
  cbn [length]. by rewrite IH.
Qed.

Lemma has_duplicate_spec ids : has_duplicate ids = false <-> NoDup ids.
Proof.
  induction ids as [|x ids IH]; cbn [has_duplicate]; [split; [constructor|done]|].
  rewrite NoDup_cons, orb_false_iff, IH, <- not_true_iff_false, existsb_exists.
  split; intros [H1 H2]; split; try done.
  - intros Hx. apply H1. exists x. split; [by apply list_elem_of_In|]. by apply bool_decide_eq_true.
  - intros (y & Hy & E%bool_decide_eq_true). subst y. apply H1. by apply list_elem_of_In.
Qed.

(** ** Filling the slots *)

(** The known transaction that answers to a short identifier, if there is exactly one. *)
Definition resolve (k0 k1 : Z) (known : list (option tx)) (target : bytes) : option tx :=
  match find_match k0 k1 target known None with (Some t, false) => Some t | _ => None end.

Lemma find_match_sound k0 k1 target known found t :
  find_match k0 k1 target known found = (Some t, false) ->
  found = Some t \/ Some t ∈ known /\ target = compact_block_compute_short_id k0 k1 (tx_hash t).
Proof.
  revert found. induction known as [|[t'|] known IH]; intros found; cbn [find_match].
  - intros [= ->]. by left.
  - destruct (bytes_eqb target _) eqn:E.
    + apply bool_decide_eq_true in E. destruct found as [f|]; [done|]. intros [[= ->]|[H1 H2]]%IH; right; [|split; [by right|done]].
      split; [by left|done].
    + intros [H|[H1 H2]]%IH; [by left|right]. split; [by right|done].
  - intros [H|[H1 H2]]%IH; [by left|right]. split; [by right|done].
Qed.

Lemma resolve_sound k0 k1 known target t :
  resolve k0 k1 known target = Some t -> Some t ∈ known /\ target = compact_block_compute_short_id k0 k1 (tx_hash t).
Proof.
  unfold resolve. destruct (find_match k0 k1 target known None) as [[t'|] []] eqn:E; try done. intros [= ->].
  by apply find_match_sound in E as [|].
Qed.

Lemma fill_slot_resolve k0 k1 known av m target pos :
  fill_slot k0 k1 known (av, m) (target, pos) =
  match resolve k0 k1 known target with Some t => (<[pos := Some t]> av, m) | None => (av, m + 1) end.
Proof. unfold fill_slot, resolve. by destruct (find_match k0 k1 target known None) as [[t|] []]. Qed.

Lemma fill_slots_spec k0 k1 known slots av m :
  NoDup slots.*2 -> Forall (fun s => av !! s.2 = Some None) slots ->
  exists av', foldl (fill_slot k0 k1 known) (av, m) slots =
      (av', m + Z.of_nat (length (filter (fun s => resolve k0 k1 known s.1 = None) slots))) /\
    length av' = length av /\ Forall (fun s => av' !! s.2 = Some (resolve k0 k1 known s.1)) slots /\
    forall i, i ∉ slots.*2 -> av' !! i = av !! i.
Proof.
  revert av m. induction slots as [|[target pos] slots IH]; intros av m Hnd Hav.
  { exists av. cbn. split_and!; [|done|constructor|done]. by rewrite Z.add_0_r. }
  apply NoDup_cons in Hnd as [Hpos Hnd]. apply Forall_cons in Hav as [H0 Hav]. cbn [snd fst] in *.
  cbn [foldl]. rewrite fill_slot_resolve, filter_cons. cbn [fst].
  set (av1 := match resolve k0 k1 known target with Some t => <[pos := Some t]> av | None => av end).
  assert (length av1 = length av) as Hl1 by (unfold av1; destruct (resolve k0 k1 known target); [apply length_insert|done]).
  assert (av1 !! pos = Some (resolve k0 k1 known target)) as Hp1.
  { unfold av1. destruct (resolve k0 k1 known target); [|done]. apply list_lookup_insert_eq. by apply lookup_lt_Some in H0. }
  assert (forall i, i <> pos -> av1 !! i = av !! i) as Ho1.
  { intros i Hi. unfold av1. destruct (resolve k0 k1 known target); [|done]. by rewrite list_lookup_insert_ne by congruence. }
  destruct (IH av1 (m + match resolve k0 k1 known target with None => 1 | Some _ => 0 end)) as (av' & E & Hl & Hs & Ho); [done| |].
  { apply Forall_forall. intros s Hin. rewrite Ho1; [by eapply Forall_forall in Hav|].
    intros E. apply Hpos. rewrite <- E. by apply list_elem_of_fmap_2. }
  exists av'. split_and!; [|congruence| |].
  - unfold av1 in E. destruct (resolve k0 k1 known target) as [t|].
    + rewrite decide_False by done. rewrite Z.add_0_r in E. exact E.
    + rewrite decide_True by done. rewrite E. f_equal. cbn [length]. lia.
  - constructor; [|done]. cbn [fst snd]. by rewrite Ho.
  - intros i [Hi Hi']%not_elem_of_cons. by rewrite Ho, Ho1.
Qed.

Lemma length_filter_snd {A B} (P : A -> Prop) (Q : B -> Prop) `{!forall x, Decision (P x), !forall x, Decision (Q x)}
    (zs : list (A * B)) :
  Forall (fun s => P s.1 <-> Q s.2) zs -> length (filter (fun s => P s.1) zs) = length (filter Q zs.*2).
Proof.
  induction 1 as [|[a b] zs Hs Hzs IH]; [done|]. cbn [fmap list_fmap fst snd] in *. rewrite !filter_cons. cbn [fst].
  destruct (decide (P a)), (decide (Q b)); cbn [length]; tauto || congruence.
Qed.

(** What is left to ask for once the slots are filled. *)
Definition missing_slots (av0 av : list (option tx)) : list nat :=
  filter (fun pos => nth pos av None = None) (empty_slots 0 av0).

(** Either nothing is built, or the prefilled transactions are at their indexes, the slots left
    hold what their short identifiers resolve to, and those that hold nothing are missing. *)
Lemma reconstruct_cases c st known b st' :
  Forall (fun p => 0 <= pf_index p) (prefilled_txs c) ->
  compact_block_reconstruct c st known = (b, st') ->
  (b = false /\ st' = compact_block_state_new /\
   (UINT32_MAX < Z.of_nat (length (short_ids c) + length (prefilled_txs c)) \/
    (length (short_ids c) + length (prefilled_txs c) = 0)%nat \/
    foldl place_prefilled (Some (replicate (length (short_ids c) + length (prefilled_txs c)) None)) (prefilled_txs c) = None \/
    ~ NoDup (short_ids c))) \/
  exists av0 av, foldl place_prefilled (Some (replicate (length (short_ids c) + length (prefilled_txs c)) None)) (prefilled_txs c) = Some av0 /\
    NoDup (short_ids c) /\ length av0 = (length (short_ids c) + length (prefilled_txs c))%nat /\
    length (empty_slots 0 av0) = length (short_ids c) /\ length av = length av0 /\
    (forall j p id, empty_slots 0 av0 !! j = Some p -> short_ids c !! j = Some id ->
       av !! p = Some (resolve (sipkey_k0 c) (sipkey_k1 c) known id)) /\
    (forall i, i ∉ empty_slots 0 av0 -> av !! i = av0 !! i) /\
    (b, st') = match missing_slots av0 av with
               | [] => (true, mk_cb_state (Some av) None 0)
               | l => (false, mk_cb_state (Some av) (Some (Z.of_nat <$> l)) (Z.of_nat (length l)))
               end.
Proof.
  intros Hp. unfold compact_block_reconstruct. set (ids := length (short_ids c)). cbv zeta.
  destruct (Z.ltb_spec (UINT32_MAX - Z.of_nat (length (prefilled_txs c))) (Z.of_nat ids)).
  { intros [= <- <-]. left. split_and!; [done|done|left; lia]. }
  destruct (Nat.eqb_spec (ids + length (prefilled_txs c)) 0); [intros [= <- <-]; left; split_and!; auto|].
  destruct (foldl place_prefilled _ _) as [av0|] eqn:E0; [|intros [= <- <-]; left; split_and!; auto].
  destruct (has_duplicate (short_ids c)) eqn:Ed.
  { intros [= <- <-]. left. split_and!; [done|done|]. do 3 right. rewrite <- has_duplicate_spec. congruence. }
  apply has_duplicate_spec in Ed.
  destruct (place_all _ _ _ Hp E0) as [Hl0 Hh0]. rewrite length_replicate in Hl0. rewrite holes_replicate in Hh0.
  assert (length (empty_slots 0 av0) = ids) as Hslots by (rewrite length_empty_slots; lia).
  assert (shortid_to_txpos ids av0 = empty_slots 0 av0) as ->.
  { unfold shortid_to_txpos. rewrite take_ge, Hslots, Nat.sub_diag, app_nil_r by lia. done. }
  set (slots := empty_slots 0 av0) in *.
  assert ((zip (short_ids c) slots).*2 = slots) as E2 by (apply snd_zip; lia).
  destruct (fill_slots_spec (sipkey_k0 c) (sipkey_k1 c) known (zip (short_ids c) slots) av0 0) as (av & -> & Hl & Hs & Ho).
  { rewrite E2. apply empty_slots_NoDup. }
  { apply Forall_forall. intros s Hin. apply empty_slots_spec. fold slots. rewrite <- E2. by apply list_elem_of_fmap_2. }
  rewrite E2 in Ho. intros E. right. exists av0, av. fold ids.
  assert (length (filter (fun s => resolve (sipkey_k0 c) (sipkey_k1 c) known s.1 = None) (zip (short_ids c) slots)) =
    length (missing_slots av0 av)) as Ec.
  { unfold missing_slots. fold slots. rewrite <- E2 at 2.
    refine (length_filter_snd (fun id => resolve (sipkey_k0 c) (sipkey_k1 c) known id = None)
      (fun pos => nth pos av None = None) (zip (short_ids c) slots) _).
    eapply Forall_impl; [exact Hs|]. intros s Hsl. cbn beta in Hsl. by rewrite (nth_lookup_Some _ _ _ _ Hsl). }
  rewrite Z.add_0_l, Ec in E. split_and!; try done; try lia.
  - intros j p id Hj Hid. rewrite Forall_forall in Hs. apply (Hs (id, p)), list_elem_of_lookup. exists j.
    apply lookup_zip_Some. by split.
  - unfold missing_slots in *. fold slots in E |- *. destruct (filter _ slots) as [|p l] eqn:Ef; cbn [length] in E.
    + by injection E as <- <-.
    + rewrite (proj2 (Z.ltb_lt 0 _)) in E by lia. injection E as <- <-. done.
Qed.

(** ** The answer *)

Lemma fill_missing_steps l (ts av : list (option tx)) :
  NoDup l -> Forall (fun p => (p < length av)%nat) l -> length ts = length l ->
  exists av', foldl fill_missing_step (true, av) (zip (Z.of_nat <$> l) ts) = (true, av') /\ length av' = length av /\
    (forall j p t, l !! j = Some p -> ts !! j = Some t -> av' !! p = Some t) /\
    forall i, i ∉ l -> av' !! i = av !! i.
Proof.
  intros Hnd. revert ts av. induction Hnd as [|p l Hp Hnd IH]; intros ts av Hl Hlen.
  { exists av. split_and!; try done. }
  destruct ts as [|t ts]; [done|]. apply Forall_cons in Hl as [H0 Hl]. cbn [fmap list_fmap zip zip_with foldl].
  unfold fill_missing_step at 2. cbn [negb]. rewrite (proj2 (Z.leb_gt _ _)) by lia. rewrite Nat2Z.id.
  destruct (IH ts (<[p := t]> av)) as (av' & E & Hl' & Hs & Ho); [by rewrite length_insert|by injection Hlen|].
  exists av'. split_and!; [done|by rewrite Hl', length_insert| |].
  - intros [|j] q u Hq Hu; cbn in Hq, Hu; [|by eapply Hs]. injection Hq as ->. injection Hu as ->.
    rewrite Ho by done. by apply list_lookup_insert_eq.
  - intros i [Hi Hi']%not_elem_of_cons. rewrite Ho, list_lookup_insert_ne by congruence. done.
Qed.

(** An answer of the right length, in which no transaction is missing, completes the block. *)
Lemma fill_missing_spec av l ts hash :
  NoDup l -> (forall i, i ∈ l <-> av !! i = Some None) -> length ts = length l ->
  exists av' st', compact_block_fill_missing (mk_cb_state (Some av) (Some (Z.of_nat <$> l)) (Z.of_nat (length l)))
      (mk_blocktxn hash (Some <$> ts)) = (true, st') /\ available_txs st' = Some av' /\ length av' = length av /\
    (forall j p t, l !! j = Some p -> ts !! j = Some t -> av' !! p = Some (Some t)) /\
    (forall i, i ∉ l -> av' !! i = av !! i) /\ exists all, av' = Some <$> all.
Proof.
  intros Hnd Hl Hlen. unfold compact_block_fill_missing. cbn [available_txs missing_indices missing_count bt_txs].
  rewrite length_fmap, Hlen, Z.eqb_refl. cbn [negb].
  destruct (fill_missing_steps l (Some <$> ts) av Hnd) as (av' & -> & Hl' & Hs & Ho).
  { apply Forall_forall. intros i Hi%Hl. by apply lookup_lt_Some in Hi. }
  { by rewrite length_fmap. }
  assert (forall i, (i < length av')%nat -> exists t, av' !! i = Some (Some t)) as Hall.
  { intros i Hi. destruct (decide (i ∈ l)) as [Hin|Hin].
    - apply list_elem_of_lookup in Hin as [j Hj]. destruct (lookup_lt_is_Some_2 ts j) as [t Ht].
      { rewrite Hlen. by apply lookup_lt_Some in Hj. }
      exists t. apply (Hs j); [done|]. by rewrite list_lookup_fmap, Ht.
    - rewrite Ho by done. destruct (lookup_lt_is_Some_2 av i ltac:(lia)) as [[t|] E]; [by exists t|].
      exfalso. by apply Hin, Hl. }
  assert (exists all, av' = Some <$> all) as [all Eall].
  { clear -Hall. induction av' as [|o av' IH]; [by exists []|]. destruct (Hall 0%nat ltac:(cbn; lia)) as [t [= ->]].
    destruct IH as [all ->]; [|by exists (t :: all)]. intros i Hi. apply (Hall (S i)). cbn. lia. }
  assert (existsb (fun t : option tx => match t with None => true | Some _ => false end) av' = false) as ->.
  { rewrite Eall. clear. by induction all. }
  cbn [negb]. exists av'. eexists. split; [done|]. split_and!; try done; [|by exists all].
  intros j p t Hj Ht. apply (Hs j); [done|]. by rewrite list_lookup_fmap, Ht.
Qed.

(** ** From a compact block to the block *)

(** The indexes whose transactions are not prefilled. *)
Definition free_indices (c : compact_block) (n : nat) : list nat :=
  filter (fun i => Z.of_nat i ∉ pf_index <$> prefilled_txs c) (seq 0 n).

(** [c] is a compact block of the transactions [txs]. *)
Record encodes (c : compact_block) (txs : list tx) : Prop := {
  enc_prefilled : Forall (fun p => 0 <= pf_index p /\ txs !! Z.to_nat (pf_index p) = Some (pf_tx p)) (prefilled_txs c);
  enc_distinct : NoDup (pf_index <$> prefilled_txs c);
  enc_ids : short_ids c = (fun i => compact_block_compute_short_id (sipkey_k0 c) (sipkey_k1 c) (tx_hash (nth i txs tx_new))) <$>
              free_indices c (length txs);
}.

Lemma place_encoded l txs av :
  Forall (fun p => 0 <= pf_index p /\ txs !! Z.to_nat (pf_index p) = Some (pf_tx p)) l ->
  NoDup (pf_index <$> l) -> length av = length txs ->
  (forall p, p ∈ l -> av !! Z.to_nat (pf_index p) = Some None) ->
  exists av', foldl place_prefilled (Some av) l = Some av' /\
    (forall i, Z.of_nat i ∈ pf_index <$> l -> av' !! i = Some <$> txs !! i) /\
    (forall i, Z.of_nat i ∉ pf_index <$> l -> av' !! i = av !! i).
Proof.
  intros Hl. revert av. induction Hl as [|p l [Hp Ht] Hl IH]; intros av Hnd Hlen Hav.
  { exists av. split_and!; [done|by intros i ?%elem_of_nil|done]. }
  cbn [fmap list_fmap] in *. apply NoDup_cons in Hnd as [Hpn Hnd].
  pose proof (Hav p ltac:(by left)) as H0. pose proof (lookup_lt_Some _ _ _ H0).
  cbn [foldl]. cbn [place_prefilled mbind option_bind]. rewrite (proj2 (Z.leb_gt _ _)) by lia.
  rewrite (nth_lookup_Some _ _ _ _ H0).
  destruct (IH (<[Z.to_nat (pf_index p) := Some (pf_tx p)]> av)) as (av' & E & Hin & Hout); [done|by rewrite length_insert| |].
  { intros q Hq. rewrite list_lookup_insert_ne; [apply Hav; by right|]. intros E. apply Hpn.
    rewrite Forall_forall in Hl. pose proof (proj1 (Hl q Hq)).
    replace (pf_index p) with (pf_index q) by lia. by apply list_elem_of_fmap_2. }
  exists av'. split_and!; [done| |].
  - intros i [E1|E1]%elem_of_cons; [|by apply Hin]. rewrite <- E1 in *.
    destruct (decide (Z.of_nat i ∈ pf_index <$> l)) as [Hi|Hi]; [done|].
    rewrite Hout by done. rewrite Nat2Z.id in *. rewrite list_lookup_insert_eq by done. by rewrite Ht.
  - intros i [E1 E2]%not_elem_of_cons. rewrite Hout, list_lookup_insert_ne by (done || lia). done.
Qed.

(** The prefilled transactions of an encoded block leave the slots of the others empty. *)
Lemma encodes_slots c txs av0 :
  encodes c txs ->
  foldl place_prefilled (Some (replicate (length txs) None)) (prefilled_txs c) = Some av0 ->
  empty_slots 0 av0 = free_indices c (length txs) /\ (length (short_ids c) + length (prefilled_txs c) = length txs)%nat /\
  forall i, i ∉ free_indices c (length txs) -> av0 !! i = Some <$> txs !! i.
Proof.
  intros [Hp Hd Hi] E.
  destruct (place_encoded (prefilled_txs c) txs (replicate (length txs) None) Hp Hd) as (av' & E' & Hin & Hout).
  { apply length_replicate. }
  { intros p Hpin. rewrite Forall_forall in Hp. destruct (Hp p Hpin) as [_ Ht%lookup_lt_Some]. by rewrite lookup_replicate_2. }
  rewrite E in E'. injection E' as <-.
  assert (Forall (fun p => 0 <= pf_index p) (prefilled_txs c)) as Hp0 by (eapply Forall_impl; [exact Hp|by intros p []]).
  destruct (place_all _ _ _ Hp0 E) as [Hl Hh]. rewrite length_replicate in Hl. rewrite holes_replicate in Hh.
  assert (empty_slots 0 av0 = free_indices c (length txs)) as Es.
  { rewrite empty_slots_filter, Hl. apply list_filter_in. intros k Hk%elem_of_seq. rewrite Nat.sub_0_r. split.
    - intros En Hkin. specialize (Hin k Hkin). destruct (lookup_lt_is_Some_2 txs k ltac:(lia)) as [t Ht].
      rewrite Ht in Hin. cbn in Hin. by rewrite (nth_lookup_Some _ _ _ _ Hin) in En.
    - intros Hkin. specialize (Hout k Hkin). rewrite lookup_replicate_2 in Hout by lia.
      by rewrite (nth_lookup_Some _ _ _ _ Hout). }
  split; [done|]. split.
  - rewrite Hi, length_fmap, <- Es, length_empty_slots. done.
  - intros i Hni. destruct (decide (Z.of_nat i ∈ pf_index <$> prefilled_txs c)) as [Hin'|Hin']; [by apply Hin|].
    rewrite Hout by done. assert (~ (i < length txs)%nat) as Hge.
    { intros Hlt. apply Hni. apply list_elem_of_filter. split; [done|]. apply elem_of_seq. lia. }
    rewrite !lookup_ge_None_2; [done|lia|rewrite length_replicate; lia].
Qed.

Lemma missing_slots_spec av0 av :
  length av = length av0 ->
  (forall i, i ∉ empty_slots 0 av0 -> av !! i <> Some None) ->
  NoDup (missing_slots av0 av) /\ forall i, i ∈ missing_slots av0 av <-> av !! i = Some None.
Proof.
  intros Hl Ho. split; [apply NoDup_filter, empty_slots_NoDup|]. intros i. unfold missing_slots.
  rewrite list_elem_of_filter. split.
  - intros [En Hi]. apply empty_slots_spec, lookup_lt_Some in Hi. destruct (lookup_lt_is_Some_2 av i ltac:(lia)) as [o E].
    rewrite (nth_lookup_Some _ _ _ _ E) in En. by subst.
  - intros E. rewrite (nth_lookup_Some _ _ _ _ E). split; [done|].
    destruct (decide (i ∈ empty_slots 0 av0)) as [Hi|Hi]; [done|]. by apply Ho in Hi.
Qed.

(** The slots of the block: each holds its transaction, or is free and holds nothing. *)
Lemma complete_slots c txs st known b st' :
  encodes c txs -> txs <> [] -> Z.of_nat (length txs) < 2 ^ 32 -> NoDup (short_ids c) ->
  (forall t i, Some t ∈ known -> i ∈ free_indices c (length txs) ->
     compact_block_compute_short_id (sipkey_k0 c) (sipkey_k1 c) (tx_hash t) =
     compact_block_compute_short_id (sipkey_k0 c) (sipkey_k1 c) (tx_hash (nth i txs tx_new)) -> t = nth i txs tx_new) ->
  compact_block_reconstruct c st known = (b, st') ->
  exists av l, length av = length txs /\ NoDup l /\ (forall i, i ∈ l <-> av !! i = Some None) /\
    (forall i, (i < length txs)%nat -> i ∉ l -> av !! i = Some (Some (nth i txs tx_new))) /\
    (b, st') = match l with
               | [] => (true, mk_cb_state (Some av) None 0)
               | _ => (false, mk_cb_state (Some av) (Some (Z.of_nat <$> l)) (Z.of_nat (length l)))
               end.
Proof.
  intros Henc Hne Hlen Hnd Hcol E.
  assert (Forall (fun p => 0 <= pf_index p) (prefilled_txs c)) as Hp0.
  { eapply Forall_impl; [apply (enc_prefilled _ _ Henc)|by intros p []]. }
  destruct (place_encoded (prefilled_txs c) txs (replicate (length txs) None) (enc_prefilled _ _ Henc) (enc_distinct _ _ Henc))
    as (av1 & E1 & _ & _).
  { apply length_replicate. }
  { intros p Hp. pose proof (enc_prefilled _ _ Henc) as H. rewrite Forall_forall in H.
    destruct (H p Hp) as [_ Ht%lookup_lt_Some]. by rewrite lookup_replicate_2. }
  destruct (encodes_slots c txs av1 Henc E1) as (Es & En & Ho1).
  destruct (reconstruct_cases c st known b st' Hp0 E) as [(_ & _ & H)|(av0 & av & E0 & _ & Hl0 & Hs & Hl & Hin & Hout & Eb)]; rewrite En in *.
  { exfalso. unfold UINT32_MAX in H. destruct H as [H|[H|[H|H]]]; [lia| |congruence|done]. destruct txs; [done|cbn in H; lia]. }
  rewrite E1 in E0. injection E0 as <-. rewrite Es in Hin, Hout.
  assert (forall i, (i < length txs)%nat -> av !! i = Some None \/ av !! i = Some (Some (nth i txs tx_new))) as Hav.
  { intros i Hi. destruct (lookup_lt_is_Some_2 txs i Hi) as [t Ht].
    destruct (decide (i ∈ free_indices c (length txs))) as [Hf|Hf].
    - pose proof Hf as [j Hj]%list_elem_of_lookup.
      rewrite (Hin j i (compact_block_compute_short_id (sipkey_k0 c) (sipkey_k1 c) (tx_hash (nth i txs tx_new)))); [|done|].
      2:{ rewrite (enc_ids _ _ Henc), list_lookup_fmap, Hj. done. }
      destruct (resolve _ _ _ _) as [u|] eqn:Er; [|by left]. apply resolve_sound in Er as [Hk Eid].
      right. do 2 f_equal. by apply Hcol.
    - right. rewrite Hout, Ho1, Ht by done. cbn. by rewrite (nth_lookup_Some _ _ _ _ Ht). }
  destruct (missing_slots_spec av1 av) as [Hnd' Hm]; [congruence| |].
  { intros i Hi. rewrite Es in Hi. rewrite Hout, Ho1 by done. by destruct (txs !! i). }
  exists av, (missing_slots av1 av). split_and!; [lia|done|done| |].
  - intros i Hi Hni. destruct (Hav i Hi) as [H|H]; [|done]. by apply Hm in H.
  - rewrite Eb. by destruct (missing_slots av1 av).
Qed.

(** C22: a compact block of the transactions [txs], with distinct short identifiers, becomes the
    block, whatever transactions are known, in at most one round trip, if no known transaction
    has the short identifier of another one: either [compact_block_reconstruct] returns true and
    holds exactly [txs], or it names indexes of the block, and [compact_block_fill_missing] with
    the transactions at those indexes returns true and then holds exactly [txs]. *)
Theorem reconstruct_completes (c : compact_block) (txs : list tx) (st : compact_block_state) (known : list (option tx))
  (Henc : encodes c txs) (Hne : txs <> []) (Hlen : Z.of_nat (length txs) < 2 ^ 32) (Hnd : NoDup (short_ids c))
  (Hcol : forall t i, Some t ∈ known -> i ∈ free_indices c (length txs) ->
     compact_block_compute_short_id (sipkey_k0 c) (sipkey_k1 c) (tx_hash t) =
     compact_block_compute_short_id (sipkey_k0 c) (sipkey_k1 c) (tx_hash (nth i txs tx_new)) -> t = nth i txs tx_new) :
  exists b st', compact_block_reconstruct c st known = (b, st') /\
    if b then available_txs st' = Some (Some <$> txs)
    else exists missing, missing_indices st' = Some missing /\ Forall (fun i => 0 <= i < Z.of_nat (length txs)) missing /\
      forall hash, exists st'', compact_block_fill_missing st' (mk_blocktxn hash ((fun i => txs !! Z.to_nat i) <$> missing)) = (true, st'') /\
        available_txs st'' = Some (Some <$> txs).
Proof.
  destruct (compact_block_reconstruct c st known) as [b st'] eqn:E. exists b, st'. split; [done|].
  destruct (complete_slots c txs st known b st' Henc Hne Hlen Hnd Hcol E) as (av & l & Hl & Hndl & Hm & Hav & Eb).
  assert (forall av', length av' = length txs -> (forall i, (i < length txs)%nat -> av' !! i = Some (Some (nth i txs tx_new))) ->
    av' = Some <$> txs) as Hfull.
  { intros av' Hl' H. apply list_eq_same_length with (length txs); [by rewrite length_fmap|done|].
    intros i x y Hi Hx Hy. rewrite H in Hx by done. injection Hx as <-. rewrite list_lookup_fmap in Hy.
    destruct (lookup_lt_is_Some_2 txs i Hi) as [t Ht]. rewrite Ht in Hy. injection Hy as <-.
    by rewrite (nth_lookup_Some _ _ _ _ Ht). }
  destruct l as [|p l'].
  - injection Eb as -> ->. cbn [available_txs]. f_equal. apply Hfull; [done|]. intros i Hi. apply Hav; [done|apply not_elem_of_nil].
  - set (l := p :: l') in *. injection Eb as -> ->. cbn [missing_indices]. exists (Z.of_nat <$> l). split; [done|].
    assert (forall i, i ∈ l -> (i < length txs)%nat) as Hlt by (intros i Hi%Hm%lookup_lt_Some; lia).
    split; [apply Forall_fmap, Forall_forall; intros i Hi%Hlt; cbn; lia|]. intros hash.
    destruct (fill_missing_spec av l ((fun i => nth i txs tx_new) <$> l) hash Hndl Hm) as (av' & st'' & Ef & Ea & Hl' & Hs & Ho & _).
    { apply length_fmap. }
    exists st''. rewrite Ea. split.
    + rewrite <- Ef. do 2 f_equal. rewrite <- !list_fmap_compose. apply list_fmap_ext. intros k i Hi%list_elem_of_lookup_2%Hlt.
      cbn. rewrite Nat2Z.id. destruct (lookup_lt_is_Some_2 txs i Hi) as [t Ht]. by rewrite Ht, (nth_lookup_Some _ _ _ _ Ht).
    + f_equal. apply Hfull; [lia|]. intros i Hi. destruct (decide (i ∈ l)) as [Hin|Hin]; [|rewrite Ho by done; by apply Hav].
      apply list_elem_of_lookup in Hin as [j Hj]. apply (Hs j); [done|]. by rewrite list_lookup_fmap, Hj.
Qed.

(** One transaction prefilled, the other known. *)
Definition demo_pair : compact_block :=
  mk_compact_block demo_base None 0 1 2 [compact_block_compute_short_id 1 2 (tx_hash demo_tx)] [mk_prefilled 0 demo_tx].

Lemma reconstruct_completes_witness :
  exists b st', compact_block_reconstruct demo_pair compact_block_state_new [Some demo_tx] = (b, st') /\
    if b then available_txs st' = Some [Some demo_tx; Some demo_tx]
    else exists missing, missing_indices st' = Some missing /\ Forall (fun i => 0 <= i < 2) missing /\
      forall hash, exists st'', compact_block_fill_missing st' (mk_blocktxn hash ((fun i => [demo_tx; demo_tx] !! Z.to_nat i) <$> missing)) = (true, st'') /\
        available_txs st'' = Some [Some demo_tx; Some demo_tx].
Proof.
  assert (free_indices demo_pair (length [demo_tx; demo_tx]) = [1%nat]) as Ef by reflexivity.
  apply (reconstruct_completes demo_pair [demo_tx; demo_tx] compact_block_state_new [Some demo_tx]).
  - split.
    + constructor; [|constructor]. split; [cbn; lia|reflexivity].
    + apply NoDup_singleton.
    + rewrite Ef. reflexivity.
  - done.
  - cbn. lia.
  - apply NoDup_singleton.
  - rewrite Ef. intros t i Ht%list_elem_of_singleton Hi%list_elem_of_singleton _. injection Ht as ->. by subst i.
Defined.

Lemma place_sound l av av' i t :
  Forall (fun p => 0 <= pf_index p) l -> foldl place_prefilled (Some av) l = Some av' -> av' !! i = Some (Some t) ->
  av !! i = Some (Some t) \/ exists p, p ∈ l /\ pf_index p = Z.of_nat i /\ pf_tx p = t.
Proof.
  intros Hl. revert av. induction Hl as [|p l Hp Hl IH]; intros av E Hi; [injection E as <-; by left|].
  cbn [foldl] in E. destruct (place_prefilled (Some av) p) as [av1|] eqn:E1; [|by rewrite place_prefilled_None in E].
  destruct (place_step av p av1 Hp E1) as [H0 ->]. destruct (IH _ E Hi) as [H|(q & Hq & H)].
  - destruct (decide (i = Z.to_nat (pf_index p))) as [->|Hne].
    + rewrite list_lookup_insert_eq in H by (by apply lookup_lt_Some in H0). injection H as <-. right.
      exists p. split; [by left|]. split; [lia|done].
    + rewrite list_lookup_insert_ne in H by congruence. by left.
  - right. exists q. split; [by right|done].
Qed.

(** Whatever a peer sends and whatever is known, what [compact_block_reconstruct] builds is
    either nothing, or as many slots as the message has transactions, each of which holds a
    transaction the message prefilled at that index or a known one with a short identifier of
    the message, or nothing; the indexes to ask for are exactly those of the slots that hold
    nothing, each once, as many as [missing_count] says; and it returns true exactly when there
    are none. *)
Theorem reconstruct_sound (c : compact_block) (st st' : compact_block_state) (known : list (option tx)) (b : bool)
  (Hp : Forall (fun p => 0 <= pf_index p) (prefilled_txs c)) (E : compact_block_reconstruct c st known = (b, st')) :
  let missing := default [] (missing_indices st') in
  missing_count st' = Z.of_nat (length missing) /\ NoDup missing /\
  match available_txs st' with
  | None => b = false /\ missing = []
  | Some av =>
      length av = (length (short_ids c) + length (prefilled_txs c))%nat /\
      (forall i t, av !! i = Some (Some t) ->
         (exists p, p ∈ prefilled_txs c /\ pf_index p = Z.of_nat i /\ pf_tx p = t) \/
         Some t ∈ known /\ compact_block_compute_short_id (sipkey_k0 c) (sipkey_k1 c) (tx_hash t) ∈ short_ids c) /\
      (forall i, i ∈ missing <-> exists p, i = Z.of_nat p /\ av !! p = Some None) /\
      (b = true <-> missing = [])
  end.
Proof.
  destruct (reconstruct_cases c st known b st' Hp E) as [(-> & -> & _)|(av0 & av & E0 & _ & Hl0 & Hs & Hl & Hin & Hout & Eb)].
  { cbn. split_and!; [done|constructor|done|done]. }
  destruct (missing_slots_spec av0 av Hl) as [Hnd Hm].
  { intros i Hi. rewrite Hout by done. by rewrite <- empty_slots_spec. }
  assert (forall i t, av !! i = Some (Some t) ->
    (exists p, p ∈ prefilled_txs c /\ pf_index p = Z.of_nat i /\ pf_tx p = t) \/
    Some t ∈ known /\ compact_block_compute_short_id (sipkey_k0 c) (sipkey_k1 c) (tx_hash t) ∈ short_ids c) as Hfilled.
  { intros i t Hi. destruct (decide (i ∈ empty_slots 0 av0)) as [Hf|Hf].
    - right. apply list_elem_of_lookup in Hf as [j Hj].
      destruct (lookup_lt_is_Some_2 (short_ids c) j) as [id Hid]; [rewrite <- Hs; by apply lookup_lt_Some in Hj|].
      pose proof (Hin j i id Hj Hid) as H. rewrite Hi in H. injection H as H. symmetry in H. apply resolve_sound in H as [Hk ->].
      split; [done|]. by apply list_elem_of_lookup_2 in Hid.
    - left. rewrite Hout in Hi by done. destruct (place_sound _ _ _ _ _ Hp E0 Hi) as [H|H]; [|done].
      apply list_elem_of_lookup_2, elem_of_replicate in H as [H _]. done. }
  set (l := missing_slots av0 av) in *.
  assert (available_txs st' = Some av /\ default [] (missing_indices st') = Z.of_nat <$> l /\
    missing_count st' = Z.of_nat (length l) /\ (b = true <-> l = [])) as (-> & -> & -> & Hb).
  { destruct l as [|p l']; injection Eb as -> ->; cbn; split_and!; done. }
  cbv zeta. rewrite length_fmap. split_and!; try done; [|lia| |].
  - by apply (NoDup_fmap_2 Z.of_nat).
  - intros i. rewrite list_elem_of_fmap. split; intros (p & -> & H); exists p; (split; [done|]); by apply Hm.
  - rewrite Hb. destruct l; split; done.
Qed.

Lemma reconstruct_sound_witness :
  let st' := (compact_block_reconstruct demo_pair compact_block_state_new []).2 in
  let b := (compact_block_reconstruct demo_pair compact_block_state_new []).1 in
  let missing := default [] (missing_indices st') in
  missing_count st' = Z.of_nat (length missing) /\ NoDup missing /\
  match available_txs st' with
  | None => b = false /\ missing = []
  | Some av =>
      length av = 2%nat /\
      (forall i t, av !! i = Some (Some t) ->
         (exists p, p ∈ [mk_prefilled 0 demo_tx] /\ pf_index p = Z.of_nat i /\ pf_tx p = t) \/
         Some t ∈ [] /\ compact_block_compute_short_id 1 2 (tx_hash t) ∈ short_ids demo_pair) /\
      (forall i, i ∈ missing <-> exists p, i = Z.of_nat p /\ av !! p = Some None) /\
      (b = true <-> missing = [])
  end.
Proof.
  intros st' b. apply (reconstruct_sound demo_pair compact_block_state_new st' [] b).
  - constructor; [cbn; lia|constructor].
  - unfold st', b. by destruct (compact_block_reconstruct demo_pair compact_block_state_new []).
Defined.
