(* ===== verification/Net.v ===== *)
(** * Peers ([src/src/net.c], [src/include/dogecoin/net.h])

    The states of the nodes of a group, what the events of the network do to them, the loop
    that cuts the received bytes into messages, the answers to the messages that every client
    answers, and the callbacks of the program that broadcasts a transaction.  The event library
    appears through what it reports: which handles a node has, and whether a connection could be
    started.  [recvBuffer], which only [read_cb] touches, is passed beside the group.  Logging
    is left out. *)

From stdpp Require Import relations.
From S2P Require Import Prelude Serialize Sha2Stream Sha256 Tx Block Protocol CompactBlock.

Local Open Scope Z_scope.

(** ** Nodes *)

Definition NODE_CONNECTING : Z := 1.
Definition NODE_CONNECTED : Z := 2.
Definition NODE_ERRORED : Z := 4.
Definition NODE_TIMEOUT : Z := 8.
Definition NODE_MISSBEHAVED : Z := 64.
Definition NODE_DISCONNECTED : Z := 128.
Definition NODE_DISCONNECTED_FROM_REMOTE_PEER : Z := 256.

Definition DOGECOIN_NODE_NETWORK : Z := 1.
Definition DOGECOIN_CONNECT_TIMEOUT_S : Z := 10.
Definition DOGECOIN_PING_INTERVAL_S : Z := 120.

Definition BEV_EVENT_EOF : Z := 16.
Definition BEV_EVENT_ERROR : Z := 32.
Definition BEV_EVENT_TIMEOUT : Z := 64.
Definition BEV_EVENT_CONNECTED : Z := 128.

(** [event_bev], [timer_event]: whether the handles are there. *)
Record node := mk_node {
  n_addr : sockaddr; event_bev : bool; timer_event : bool; lastping : Z; time_started_con : Z;
  n_services : Z; n_state : Z; version_handshake : bool; bestknownheight : Z;
  cmpct_enabled : bool; cmpct_high_bandwidth : bool; cmpct_version : Z; hints : Z }.

(** [sent]: what was written to each node, the last first; [leaked]: the nodes of the handles
    that were overwritten while they were still there; [clientstr]: up to its NUL. *)
Record node_group (C : Type) := mk_group {
  ctx : C; nodes : list node; sent : list (nat * bytes); leaked : list nat;
  chain_magic : bytes; clientstr : bytes; desired_amount_connected_nodes : Z }.
Arguments mk_group {C}.
Arguments ctx {C}.
Arguments nodes {C}.
Arguments sent {C}.
Arguments leaked {C}.
Arguments chain_magic {C}.
Arguments clientstr {C}.
Arguments desired_amount_connected_nodes {C}.

Definition addr_zero : sockaddr := mk_sockaddr 0 0 (zeros 4) (zeros 16).

Definition node_new : node := mk_node addr_zero false false 0 0 0 0 false 0 false false 0 0.

(** "libdogecoin-spv-node" *)
Definition default_clientstr : bytes :=
  map byte.of_Z [108; 105; 98; 100; 111; 103; 101; 99; 111; 105; 110; 45; 115; 112; 118; 45; 110; 111; 100; 101].

Definition has (state flag : Z) : bool := Z.land state flag =? flag.

(** *** Assignments to the fields of a node *)

Definition with_addr (n : node) (a : sockaddr) : node :=
  mk_node a (event_bev n) (timer_event n) (lastping n) (time_started_con n) (n_services n)
    (n_state n) (version_handshake n) (bestknownheight n) (cmpct_enabled n) (cmpct_high_bandwidth n) (cmpct_version n) (hints n).

Definition with_state (n : node) (state : Z) : node :=
  mk_node (n_addr n) (event_bev n) (timer_event n) (lastping n) (time_started_con n) (n_services n)
    state (version_handshake n) (bestknownheight n) (cmpct_enabled n) (cmpct_high_bandwidth n) (cmpct_version n) (hints n).

Definition with_events (n : node) (bev timer : bool) : node :=
  mk_node (n_addr n) bev timer (lastping n) (time_started_con n) (n_services n)
    (n_state n) (version_handshake n) (bestknownheight n) (cmpct_enabled n) (cmpct_high_bandwidth n) (cmpct_version n) (hints n).

Definition with_times (n : node) (ping started : Z) : node :=
  mk_node (n_addr n) (event_bev n) (timer_event n) ping started (n_services n)
    (n_state n) (version_handshake n) (bestknownheight n) (cmpct_enabled n) (cmpct_high_bandwidth n) (cmpct_version n) (hints n).

Definition with_version (n : node) (services height : Z) : node :=
  mk_node (n_addr n) (event_bev n) (timer_event n) (lastping n) (time_started_con n) services
    (n_state n) (version_handshake n) height (cmpct_enabled n) (cmpct_high_bandwidth n) (cmpct_version n) (hints n).

Definition with_handshake (n : node) : node :=
  mk_node (n_addr n) (event_bev n) (timer_event n) (lastping n) (time_started_con n) (n_services n)
    (n_state n) true (bestknownheight n) (cmpct_enabled n) (cmpct_high_bandwidth n) (cmpct_version n) (hints n).

Definition with_cmpct (n : node) (enabled high : bool) (version : Z) : node :=
  mk_node (n_addr n) (event_bev n) (timer_event n) (lastping n) (time_started_con n) (n_services n)
    (n_state n) (version_handshake n) (bestknownheight n) enabled high version (hints n).

Definition with_hints (n : node) (h : Z) : node :=
  mk_node (n_addr n) (event_bev n) (timer_event n) (lastping n) (time_started_con n) (n_services n)
    (n_state n) (version_handshake n) (bestknownheight n) (cmpct_enabled n) (cmpct_high_bandwidth n) (cmpct_version n) h.

Definition node_release_events (n : node) : node := with_events n false false.

Definition node_disconnect (n : node) : node :=
  let n := node_release_events n in
  let n := with_state n (Z.lor (Z.ldiff (Z.ldiff (n_state n) NODE_CONNECTING) NODE_CONNECTED) NODE_DISCONNECTED) in
  with_times n (lastping n) 0.

(** What the environment answers: the time, 8 random bytes unless they are refused, and whether
    the connection to a node could be started. *)
Record environment := mk_env { now : Z; random : option bytes; connects : nat -> bool }.

(** A command of at most 11 characters: [strcmp] sees the first difference, the NUL at the
    latest. *)
Definition cmd_is (cmd s : bytes) : bool := bytes_eqb (take (S (length s)) cmd) (s ++ [byte_zero]).

(** ["verack"], ["ping"], ["pong"], ["inv"], ["getdata"], ["tx"] *)
Definition DOGECOIN_MSG_VERACK : bytes := map byte.of_Z [118; 101; 114; 97; 99; 107].
Definition DOGECOIN_MSG_PING : bytes := map byte.of_Z [112; 105; 110; 103].
Definition DOGECOIN_MSG_PONG : bytes := map byte.of_Z [112; 111; 110; 103].
Definition DOGECOIN_MSG_INV : bytes := map byte.of_Z [105; 110; 118].
Definition DOGECOIN_MSG_GETDATA : bytes := map byte.of_Z [103; 101; 116; 100; 97; 116; 97].
Definition DOGECOIN_MSG_TX : bytes := map byte.of_Z [116; 120].

Definition DOGECOIN_INV_TYPE_TX : Z := 1.

Definition version_zero : p2p_version_msg := mk_version_msg 0 0 0 p2p_address_init p2p_address_init 0 (zeros 128) 0 0.

(** ** Groups *)

Section net.
Context {C : Type}.

(** A callback is given the group and the node; one that is [None] is a null pointer.
    [parse_cmd_cb] and [postcmd_cb] get what is left of the payload. *)
Record callbacks := mk_callbacks {
  parse_cmd_cb : option (node_group C -> nat -> p2p_msg_hdr -> bytes -> bool * bytes * node_group C);
  postcmd_cb : option (node_group C -> nat -> p2p_msg_hdr -> bytes -> node_group C);
  node_connection_state_changed_cb : option (node_group C -> nat -> node_group C);
  should_connect_to_more_nodes_cb : option (node_group C -> nat -> bool);
  handshake_done_cb : option (node_group C -> nat -> node_group C);
  periodic_timer_cb : option (node_group C -> nat -> Z -> bool * Z * node_group C) }.

Definition group_new (c : C) (magic : bytes) : node_group C := mk_group c [] [] [] magic default_clientstr 8.

Definition get_node (g : node_group C) (i : nat) : node := nth i (nodes g) node_new.

Definition with_nodes (g : node_group C) (ns : list node) : node_group C :=
  mk_group (ctx g) ns (sent g) (leaked g) (chain_magic g) (clientstr g) (desired_amount_connected_nodes g).

Definition with_ctx (g : node_group C) (c : C) : node_group C :=
  mk_group c (nodes g) (sent g) (leaked g) (chain_magic g) (clientstr g) (desired_amount_connected_nodes g).

Definition set_node (g : node_group C) (i : nat) (n : node) : node_group C := with_nodes g (<[i := n]> (nodes g)).

Definition update (g : node_group C) (i : nat) (f : node -> node) : node_group C := set_node g i (f (get_node g i)).

Definition node_group_add_node (g : node_group C) (n : node) : node_group C := with_nodes g (nodes g ++ [n]).

Definition node_group_amount_of_connected_nodes (g : node_group C) (state : Z) : Z :=
  Z.of_nat (length (List.filter (fun n => has (n_state n) state) (nodes g))).

(** The http server and the loop of the event library are not there. *)
Definition node_group_shutdown (g : node_group C) : node_group C := with_nodes g (map node_disconnect (nodes g)).

Definition node_send (g : node_group C) (i : nat) (data : bytes) : node_group C :=
  if negb (has (n_state (get_node g i)) NODE_CONNECTED) || negb (event_bev (get_node g i)) then g
  else mk_group (ctx g) (nodes g) ((i, data) :: sent g) (leaked g) (chain_magic g) (clientstr g) (desired_amount_connected_nodes g).

(** The commands of the messages that are sent have at most 12 characters. *)
Definition send_message (g : node_group C) (i : nat) (cmd data : bytes) : node_group C :=
  match p2p_message_new (chain_magic g) cmd data with Some m => node_send g i m | None => g end.

Definition node_send_version (env : environment) (g : node_group C) (i : nat) : node_group C :=
  let toAddr := addr_to_p2paddr (n_addr (get_node g i)) p2p_address_init in
  let msg := p2p_msg_version_init (now env) (random env) version_zero (Some p2p_address_init) (Some toAddr) (Some (clientstr g)) 1 in
  match p2p_msg_version_ser msg [] with
  | Some body => send_message g i DOGECOIN_MSG_VERSION body
  | None => g
  end.

(** A handle that is still there is overwritten; the timer only when the connection started. *)
Definition leak_events (g : node_group C) (i : nat) (started : bool) : node_group C :=
  let n := get_node g i in
  if event_bev n || started && timer_event n then
    mk_group (ctx g) (nodes g) (sent g) (i :: leaked g) (chain_magic g) (clientstr g) (desired_amount_connected_nodes g)
  else g.

(** One node of the loop of [dogecoin_node_group_connect_next_nodes]: the group, the number of
    connections left to start, whether one was started, and what the function has returned. *)
Definition connect_step (env : environment) (st : node_group C * Z * bool * option bool) (i : nat) :
    node_group C * Z * bool * option bool :=
  let '(g, amount, started, result) := st in
  match result with
  | Some _ => st
  | None =>
      let n := get_node g i in
      if negb (has (n_state n) NODE_CONNECTED) && negb (has (n_state n) NODE_DISCONNECTED) && negb (has (n_state n) NODE_CONNECTING) then
        let g := leak_events g i (connects env i) in
        if negb (connects env i) then (set_node g i (with_events n false (timer_event n)), amount, started, Some false)
        else
          let n := with_times (with_events n true true) (lastping n) (now env) in
          let n := with_state n (Z.lor (n_state n) NODE_CONNECTING) in
          let amount := amount - 1 in
          (set_node g i n, amount, true, if amount <=? 0 then Some true else None)
      else st
  end.

Definition node_group_connect_next_nodes (env : environment) (g : node_group C) : bool * node_group C :=
  let connect_amount := desired_amount_connected_nodes g - node_group_amount_of_connected_nodes g NODE_CONNECTED in
  if connect_amount <=? 0 then (true, g)
  else
    let '(g, _, started, result) :=
      foldl (connect_step env) (g, connect_amount * 3, false, None) (seq 0 (length (nodes g))) in
    (default started result, g).

(** ** Events *)

Context (cbs : callbacks).

Definition node_connection_state_changed (env : environment) (g : node_group C) (i : nat) : node_group C :=
  let g := match node_connection_state_changed_cb cbs with Some f => f g i | None => g end in
  let g :=
    if has (n_state (get_node g i)) NODE_ERRORED then
      let g := update g i node_release_events in
      match should_connect_to_more_nodes_cb cbs with
      | Some f => if f g i then (node_group_connect_next_nodes env g).2 else g
      | None => g
      end
    else g in
  let n := get_node g i in
  if has (n_state n) NODE_MISSBEHAVED then
    if has (n_state n) NODE_CONNECTED || has (n_state n) NODE_CONNECTING then update g i node_disconnect else g
  else if has (n_state n) NODE_CONNECTED && event_bev n then node_send_version env g i
  else g.

Definition node_misbehave (env : environment) (g : node_group C) (i : nat) : node_group C :=
  node_connection_state_changed env (update g i (fun n => with_state n (Z.lor (n_state n) NODE_MISSBEHAVED))) i.

Definition event_cb (env : environment) (g : node_group C) (i : nat) (type : Z) : node_group C :=
  let set_state state := update g i (fun n => with_state n state) in
  if negb (Z.land type BEV_EVENT_TIMEOUT =? 0) && has (n_state (get_node g i)) NODE_CONNECTING then
    node_connection_state_changed env (set_state (Z.lor NODE_ERRORED NODE_TIMEOUT)) i
  else if negb (Z.land type BEV_EVENT_EOF =? 0) || negb (Z.land type BEV_EVENT_ERROR =? 0) then
    let state := Z.lor NODE_ERRORED NODE_DISCONNECTED in
    let state := if negb (Z.land type BEV_EVENT_EOF =? 0) then Z.lor state NODE_DISCONNECTED_FROM_REMOTE_PEER else state in
    node_connection_state_changed env (set_state state) i
  else if negb (Z.land type BEV_EVENT_CONNECTED =? 0) then
    let state := n_state (get_node g i) in
    let state := Z.ldiff (Z.ldiff (Z.lor state NODE_CONNECTED) NODE_CONNECTING) NODE_ERRORED in
    node_connection_state_changed env (set_state state) i
  else g.

Definition node_periodical_timer (env : environment) (g : node_group C) (i : nat) : node_group C :=
  let '(continue, now, g) :=
    match periodic_timer_cb cbs with Some f => f g i (now env) | None => (true, now env, g) end in
  if negb continue then g
  else
    let n := get_node g i in
    let g :=
      if (u64 (time_started_con n + DOGECOIN_CONNECT_TIMEOUT_S) <? now) && has (n_state n) NODE_CONNECTING then
        let n := with_state (with_times n (lastping n) 0) (Z.lor NODE_ERRORED NODE_TIMEOUT) in
        node_connection_state_changed env (set_node g i n) i
      else g in
    let n := get_node g i in
    if has (n_state n) NODE_CONNECTED && (u64 (lastping n + DOGECOIN_PING_INTERVAL_S) <? now) then
      match random env with
      | None => g
      | Some nonce =>
          let g := send_message g i DOGECOIN_MSG_PING nonce in
          update g i (fun n => with_times n now (time_started_con n))
      end
    else g.

(** ** Messages *)

Definition post_cmd (g : node_group C) (i : nat) (hdr : p2p_msg_hdr) (buf : bytes) : node_group C :=
  match postcmd_cb cbs with Some f => f g i hdr buf | None => g end.

Definition node_parse_message (env : environment) (g : node_group C) (i : nat) (hdr : p2p_msg_hdr) (buf : bytes) : node_group C :=
  if negb (bytes_eqb (take 4 (netmagic hdr)) (take 4 (chain_magic g))) then node_misbehave env g i
  else
    let '(handle, buf, g) := match parse_cmd_cb cbs with Some f => f g i hdr buf | None => (true, buf, g) end in
    if negb handle then post_cmd g i hdr buf
    else if cmd_is (command hdr) DOGECOIN_MSG_VERSION then
      match p2p_msg_version_deser buf with
      | (None, _) => node_misbehave env g i
      | (Some v, buf) =>
          let g := if negb (has (ver_services v) DOGECOIN_NODE_NETWORK) then update g i node_disconnect else g in
          let g := update g i (fun n => with_version n (ver_services v) (u32 (start_height v))) in
          post_cmd (send_message g i DOGECOIN_MSG_VERACK []) i hdr buf
      end
    else if cmd_is (command hdr) DOGECOIN_MSG_VERACK then
      let g := update g i with_handshake in
      let g := match p2p_msg_sendcmpct (chain_magic g) false CMPCTBLOCK_VERSION with Some m => node_send g i m | None => g end in
      let g := match handshake_done_cb cbs with Some f => f g i | None => g end in
      post_cmd g i hdr buf
    else if cmd_is (command hdr) DOGECOIN_MSG_SENDCMPCT then
      match p2p_msg_sendcmpct_deser buf with
      | (None, _) => node_misbehave env g i
      | (Some (hb, version), buf) =>
          let g := update g i (fun n =>
            if version =? CMPCTBLOCK_VERSION then with_cmpct n true hb version else with_cmpct n false false 0) in
          post_cmd g i hdr buf
      end
    else if cmd_is (command hdr) DOGECOIN_MSG_PING then
      match deser_u64 buf with
      | (None, _) => node_misbehave env g i
      | (Some nonce, buf) => post_cmd (send_message g i DOGECOIN_MSG_PONG (le_enc 8 nonce)) i hdr buf
      end
    else post_cmd g i hdr buf.

(** The loop of [read_cb] has returned, leaving the buffer as it was, or has ended with
    [read_upto], which says what is left to read. *)
Inductive read_result :=
  | ReadReturned (g : node_group C)
  | ReadEnded (g : node_group C) (read_upto : option bytes).

Definition hdr_unset : p2p_msg_hdr := mk_msg_hdr [] [] 0 [].

(** [None]: the fuel is spent. *)
Fixpoint read_loop (fuel : nat) (env : environment) (g : node_group C) (i : nat) (buf : bytes) (read_upto : option bytes) :
    option read_result :=
  match fuel with
  | O => None
  | S fuel =>
      if Z.of_nat (length buf) <? DOGECOIN_P2P_HDRSZ then Some (ReadEnded g read_upto)
      else
        match p2p_deser_msghdr hdr_unset buf with
        | (None, _) => None
        | (Some hdr, buf) =>
            if DOGECOIN_MAX_P2P_MSG_SIZE <? data_len hdr then Some (ReadReturned (node_misbehave env g i))
            else if Z.of_nat (length buf) <? data_len hdr then Some (ReadEnded g read_upto)
            else
              let cmd_data_buf := take (Z.to_nat (data_len hdr)) buf in
              if negb (has (n_state (get_node g i)) NODE_CONNECTED) then Some (ReadReturned g)
              else if negb (bytes_eqb (take 4 (dogecoin_hash cmd_data_buf)) (msg_hash hdr)) then
                Some (ReadReturned (node_misbehave env g i))
              else
                let g := node_parse_message env g i hdr cmd_data_buf in
                let buf := drop (Z.to_nat (data_len hdr)) buf in
                match buf with
                | [] => Some (ReadEnded g (Some []))
                | _ => read_loop fuel env g i buf (Some buf)
                end
        end
  end.

(** The input that has arrived goes behind [recvBuffer]; the result is the new one. *)
Definition read_cb (env : environment) (g : node_group C) (i : nat) (recvBuffer input : bytes) : option (node_group C * bytes) :=
  if negb (has (n_state (get_node g i)) NODE_CONNECTED) then Some (g, recvBuffer)
  else
    let recvBuffer := recvBuffer ++ input in
    r ← read_loop (S (length recvBuffer)) env g i recvBuffer None;
    Some (match r with
          | ReadReturned g => (g, recvBuffer)
          | ReadEnded g read_upto => (g, default recvBuffer read_upto)
          end).

End net.
Arguments callbacks : clear implicits.
Arguments read_result : clear implicits.

(** ** Peers given by address *)

(** [parse_sockaddr]: [evutil_parse_sockaddr_port] of the event library, given the bytes in front of
    the NUL. *)
Definition node_set_ipport (parse_sockaddr : bytes -> option sockaddr) (n : node) (ipport : bytes) : node * bool :=
  match parse_sockaddr ipport with Some a => (with_addr n a, true) | None => (n, false) end.

(** The list of [dogecoin_node_group_add_peers_by_ip_or_seed] at a comma or at its end: the working
    string, 64 bytes, is the address of a node.  [None]: it has no NUL, so that what lies behind it is
    read. *)
Definition add_peer (parse_sockaddr : bytes -> option sockaddr) {C} (g : node_group C) (working_str : bytes) : option (node_group C) :=
  if negb (existsb (byte_eqb Byte.x00) working_str) then None
  else
    let '(n, ok) := node_set_ipport parse_sockaddr node_new (take (strnlen working_str 64) working_str) in
    Some (if ok then node_group_add_node g n else g).

Fixpoint add_peers_loop (parse_sockaddr : bytes -> option sockaddr) {C} (g : node_group C) (working_str : bytes) (offset : nat)
    (ips : bytes) : option (node_group C) :=
  match ips with
  | [] => add_peer parse_sockaddr g working_str
  | c :: ips =>
      if byte_eqb c Byte.x2c then g ← add_peer parse_sockaddr g working_str; add_peers_loop parse_sockaddr g (zeros 64) 0 ips
      else if negb (byte_eqb c Byte.x20) && (offset <? 64)%nat then
        add_peers_loop parse_sockaddr g (<[offset := c]> working_str) (S offset) ips
      else add_peers_loop parse_sockaddr g working_str offset ips
  end.

(** With a list of addresses, the bytes in front of its NUL; asking the seeds is left out. *)
Definition node_group_add_peers_by_ip (parse_sockaddr : bytes -> option sockaddr) {C} (g : node_group C) (ips : bytes) :
    option (bool * node_group C) :=
  g' ← add_peers_loop parse_sockaddr g (zeros 64) 0 ips;
  Some ((length (nodes g) <? length (nodes g'))%nat, g').

(** ** Broadcasting a transaction *)

Record broadcast_ctx := mk_broadcast {
  b_tx : tx; timeout : Z; connected_to_peers : Z; max_peers_to_connect : Z; max_peers_to_inv : Z;
  inved_to_peers : Z; getdata_from_peers : Z; found_on_non_inved_peers : Z; start_time : Z }.

Definition broadcast_group : Type := node_group broadcast_ctx.

Definition broadcast_timer_cb (g : broadcast_group) (i : nat) (now : Z) : bool * Z * broadcast_group :=
  let disconnect_if (b : bool) (g : broadcast_group) := if b then update g i node_disconnect else g in
  let g := disconnect_if (timeout (ctx g) <? u64 (now - start_time (ctx g))) g in
  let g := disconnect_if (has (hints (get_node g i)) 2) g in
  let g := disconnect_if (has (hints (get_node g i)) 4) g in
  (true, now, g).

Definition with_counts (c : broadcast_ctx) (connected inved getdata found : Z) : broadcast_ctx :=
  mk_broadcast (b_tx c) (timeout c) connected (max_peers_to_connect c) (max_peers_to_inv c) inved getdata found (start_time c).

Definition broadcast_handshake_done (g : broadcast_group) (i : nat) : broadcast_group :=
  let c := ctx g in
  let g := with_ctx g (with_counts c (connected_to_peers c + 1) (inved_to_peers c) (getdata_from_peers c) (found_on_non_inved_peers c)) in
  let c := ctx g in
  if max_peers_to_inv c <=? inved_to_peers c then g
  else
    let inv_msg := p2p_msg_inv_init DOGECOIN_INV_TYPE_TX (tx_hash (b_tx c)) in
    let g := send_message g i DOGECOIN_MSG_INV (p2p_msg_inv_ser (ser_varlen [] 1) inv_msg) in
    let g := update g i (fun n => with_hints n (Z.lor (hints n) 1)) in
    with_ctx g (with_counts c (connected_to_peers c) (inved_to_peers c + 1) (getdata_from_peers c) (found_on_non_inved_peers c)).

Definition broadcast_should_connect_more (g : broadcast_group) (i : nat) : bool :=
  negb (max_peers_to_connect (ctx g) <=? connected_to_peers (ctx g)).

(** The callbacks that [dogecoin_node_misbehave] looks at. *)
Definition broadcast_connect_cbs : callbacks broadcast_ctx :=
  mk_callbacks None None None (Some broadcast_should_connect_more) None None.

(** The entries of an inventory. *)
Fixpoint broadcast_inv_loop (vsize : nat) (env : environment) (g : broadcast_group) (i : nat) (hash buf : bytes) : broadcast_group :=
  match vsize with
  | O => g
  | S vsize =>
      match p2p_msg_inv_deser buf with
      | (None, _) => node_misbehave broadcast_connect_cbs env g i
      | (Some inv_msg, buf) =>
          let g :=
            if bytes_eqb hash (inv_hash inv_msg) then
              let g := update g i (fun n => with_hints n (Z.lor (hints n) 4)) in
              let c := ctx g in
              with_ctx g (with_counts c (connected_to_peers c) (inved_to_peers c) (getdata_from_peers c) (found_on_non_inved_peers c + 1))
            else g in
          broadcast_inv_loop vsize env g i hash buf
      end
  end.

Definition broadcast_post_cmd (env : environment) (g : broadcast_group) (i : nat) (hdr : p2p_msg_hdr) (buf : bytes) : broadcast_group :=
  if cmd_is (command hdr) DOGECOIN_MSG_INV then
    match deser_varlen buf with
    | (None, _) => node_misbehave broadcast_connect_cbs env g i
    | (Some vsize, buf) => broadcast_inv_loop (Z.to_nat vsize) env g i (tx_hash (b_tx (ctx g))) buf
    end
  else if cmd_is (command hdr) DOGECOIN_MSG_GETDATA && negb (has (hints (get_node g i)) 2) then
    let c := ctx g in
    let g := with_ctx g (with_counts c (connected_to_peers c) (inved_to_peers c) (getdata_from_peers c + 1) (found_on_non_inved_peers c)) in
    match deser_varlen buf with
    | (Some 1, buf) =>
        match p2p_msg_inv_deser buf with
        | (Some inv_msg, _) =>
            if negb (inv_type inv_msg =? DOGECOIN_INV_TYPE_TX) then node_misbehave broadcast_connect_cbs env g i
            else
              let g := send_message g i DOGECOIN_MSG_TX (tx_serialize [] (b_tx c)) in
              update g i (fun n => with_hints n (Z.lor (hints n) 2))
        | (None, _) => node_misbehave broadcast_connect_cbs env g i
        end
    | _ => node_misbehave broadcast_connect_cbs env g i
    end
  else g.

Definition broadcast_callbacks (env : environment) : callbacks broadcast_ctx :=
  mk_callbacks None (Some (broadcast_post_cmd env)) None (Some broadcast_should_connect_more)
    (Some broadcast_handshake_done) (Some broadcast_timer_cb).

(** The group as [broadcast_tx] sets it up, before its nodes are added. *)
Definition broadcast_start (magic : bytes) (t : tx) (maxpeers tmo started : Z) : broadcast_group :=
  let c := mk_broadcast t tmo 0 maxpeers maxpeers 0 0 0 started in
  mk_group c [] [] [] magic default_clientstr maxpeers.

(** ** What the states of a node mean *)

Definition is_flag (f : Z) : Prop := exists k, 0 <= k /\ f = 2 ^ k.

Lemma has_bit s k : 0 <= k -> has s (2 ^ k) = Z.testbit s k.
Proof.
  intros Hk. unfold has. destruct (Z.testbit s k) eqn:E.
  - apply Z.eqb_eq. apply Z.bits_inj'. intros m Hm. rewrite Z.land_spec, Z.pow2_bits_eqb by lia.
    destruct (Z.eqb_spec k m) as [->|]; [by rewrite E|by rewrite andb_false_r].
  - apply Z.eqb_neq. intros H. apply (f_equal (fun z => Z.testbit z k)) in H. revert H.
    rewrite Z.land_spec, E, Z.pow2_bits_true by lia. done.
Qed.

Lemma pow2_eqb a b : 0 <= a -> 0 <= b -> (2 ^ a =? 2 ^ b) = (a =? b).
Proof.
  intros Ha Hb. destruct (Z.eqb_spec a b) as [->|N]; [apply Z.eqb_refl|].
  apply Z.eqb_neq. intros H. apply N. by apply (Z.pow_inj_r 2) in H.
Qed.

Lemma has_lor s f g : is_flag f -> is_flag g -> has (Z.lor s f) g = has s g || (f =? g).
Proof.
  intros (a & Ha & ->) (b & Hb & ->). rewrite !has_bit, Z.lor_spec, Z.pow2_bits_eqb, pow2_eqb by done. done.
Qed.

Lemma has_ldiff s f g : is_flag f -> is_flag g -> has (Z.ldiff s f) g = has s g && negb (f =? g).
Proof.
  intros (a & Ha & ->) (b & Hb & ->). rewrite !has_bit, Z.ldiff_spec, Z.pow2_bits_eqb, pow2_eqb by done. done.
Qed.

Ltac flag_tac :=
  match goal with
  | |- is_flag NODE_CONNECTING => exists 0 | |- is_flag NODE_CONNECTED => exists 1 | |- is_flag NODE_ERRORED => exists 2
  | |- is_flag NODE_TIMEOUT => exists 3 | |- is_flag NODE_MISSBEHAVED => exists 6 | |- is_flag NODE_DISCONNECTED => exists 7
  | |- is_flag NODE_DISCONNECTED_FROM_REMOTE_PEER => exists 8
  end; split; [lia|reflexivity].

Definition connecting (n : node) : bool := has (n_state n) NODE_CONNECTING.
Definition connected (n : node) : bool := has (n_state n) NODE_CONNECTED.
Definition errored (n : node) : bool := has (n_state n) NODE_ERRORED.
Definition misbehaved (n : node) : bool := has (n_state n) NODE_MISSBEHAVED.
Definition disconnected (n : node) : bool := has (n_state n) NODE_DISCONNECTED.

(** The flags of a node and its two handles. *)
Record flags := mk_flags { f_connecting : bool; f_connected : bool; f_errored : bool; f_misbehaved : bool; f_disconnected : bool;
                           f_bev : bool; f_timer : bool }.

Definition flags_of (n : node) : flags :=
  mk_flags (connecting n) (connected n) (errored n) (misbehaved n) (disconnected n) (event_bev n) (timer_event n).

(** A node is connecting, or connected, or neither; it has its two handles exactly in the first
    two cases; what is disconnected, as every node that has misbehaved, is in none of them; an
    error is not connected. *)
Definition flags_ok (f : flags) : bool :=
  let '(mk_flags k c e m d bev timer) := f in
  implb c (negb k) && implb d (negb (c || k)) && implb m d && implb e (negb c) && Bool.eqb bev (c || k) && Bool.eqb timer bev.

(** What a node may be when [dogecoin_node_connection_state_changed] is called: it has just been
    connected, or is in error, with its handles perhaps still there, or has just misbehaved. *)
Definition flags_changed (f : flags) : bool :=
  let '(mk_flags k c e m d bev timer) := f in
  flags_ok f && negb e ||
  e && negb (c || k) && implb m d && Bool.eqb timer bev ||
  m && (d || c || k) && implb c (negb k) && implb d (negb (c || k)) && implb e (negb c) && Bool.eqb bev (c || k) && Bool.eqb timer bev.

Definition node_ok (n : node) : bool := flags_ok (flags_of n).

(** The flags after an assignment to the state, the handles or something else. *)
Lemma flags_disconnect n :
  flags_of (node_disconnect n) = let '(mk_flags k c e m d bev timer) := flags_of n in mk_flags false false e m true false false.
Proof.
  unfold flags_of, node_disconnect, connecting, connected, errored, misbehaved, disconnected.
  cbn [n_state event_bev timer_event with_state with_events with_times node_release_events].
  rewrite !has_lor, !has_ldiff by flag_tac. f_equal; cbn; rewrite ?andb_true_r, ?andb_false_r, ?orb_false_r, ?orb_true_r; done.
Qed.

Lemma flags_release n :
  flags_of (node_release_events n) = let '(mk_flags k c e m d bev timer) := flags_of n in mk_flags k c e m d false false.
Proof. done. Qed.

Lemma flags_misbehave n :
  flags_of (with_state n (Z.lor (n_state n) NODE_MISSBEHAVED)) =
  let '(mk_flags k c e m d bev timer) := flags_of n in mk_flags k c e true d bev timer.
Proof.
  unfold flags_of, connecting, connected, errored, misbehaved, disconnected. cbn [n_state event_bev timer_event with_state].
  rewrite !has_lor by flag_tac. f_equal; cbn; rewrite ?orb_false_r, ?orb_true_r; done.
Qed.

Lemma flags_connecting n ping started :
  let n' := with_times (with_events n true true) ping started in
  flags_of (with_state n' (Z.lor (n_state n') NODE_CONNECTING)) =
  let '(mk_flags k c e m d bev timer) := flags_of n in mk_flags true c e m d true true.
Proof.
  unfold flags_of, connecting, connected, errored, misbehaved, disconnected.
  cbn [n_state event_bev timer_event with_state with_events with_times].
  rewrite !has_lor by flag_tac. f_equal; cbn; rewrite ?orb_false_r, ?orb_true_r; done.
Qed.

Lemma flags_connected n :
  flags_of (with_state n (Z.ldiff (Z.ldiff (Z.lor (n_state n) NODE_CONNECTED) NODE_CONNECTING) NODE_ERRORED)) =
  let '(mk_flags k c e m d bev timer) := flags_of n in mk_flags false true false m d bev timer.
Proof.
  unfold flags_of, connecting, connected, errored, misbehaved, disconnected. cbn [n_state event_bev timer_event with_state].
  rewrite !has_ldiff, !has_lor by flag_tac.
  f_equal; cbn; rewrite ?orb_false_r, ?orb_true_r, ?andb_true_r, ?andb_false_r; done.
Qed.

(** Decides what follows about flags from what is known about them. *)
Ltac flags_tac :=
  repeat match goal with
  | H : context [flags_of ?n] |- _ => destruct (flags_of n)
  | |- context [flags_of ?n] => destruct (flags_of n)
  end; cbn in *;
  repeat match goal with b : bool |- _ => destruct b end; cbn in *; done.

(** *** What an operation may do to a group *)

Section evolves.
Context {C : Type}.

Implicit Types (g : node_group C) (P Q R : flags -> bool).

Definition sent_to g (j : nat) : list (nat * bytes) := List.filter (fun m => (m.1 =? j)%nat) (sent g).

(** All nodes are well, node [i] in the sense of [P]. *)
Definition group_ok P (i : nat) g : Prop :=
  forall j, (if (j =? i)%nat then P else flags_ok) (flags_of (get_node g j)) = true.

(** From a group that is well, an operation on node [i] leads to one that is well, in the sense of
    [Q] for this node; and the nodes that are disconnected stay so, and nothing is sent to them. *)
Record evolves P Q (i : nat) g g' : Prop := {
  ev_ok : group_ok P i g -> group_ok Q i g';
  ev_quiet j : group_ok P i g -> disconnected (get_node g j) = true ->
    disconnected (get_node g' j) = true /\ sent_to g' j = sent_to g j }.

Lemma evolves_refl P i g : evolves P P i g g.
Proof. by split. Qed.

Lemma evolves_trans P Q R i g1 g2 g3 : evolves P Q i g1 g2 -> evolves Q R i g2 g3 -> evolves P R i g1 g3.
Proof.
  intros [O1 S1] [O2 S2]. split; [by auto|]. intros j Hok Hd.
  destruct (S1 j Hok Hd) as [D1 E1]. destruct (S2 j (O1 Hok) D1) as [D2 E2]. split; [done|congruence].
Qed.

Lemma evolves_if (b : bool) P Q i g g1 g2 :
  (b = true -> evolves P Q i g g1) -> (b = false -> evolves P Q i g g2) -> evolves P Q i g (if b then g1 else g2).
Proof. destruct b; auto. Qed.

(** When every node is well, it does not matter which one is looked at. *)
Lemma group_ok_any i k g : group_ok flags_ok i g -> group_ok flags_ok k g.
Proof. intros H j. specialize (H j). by repeat case_match. Qed.

Lemma evolves_any i k g g' : evolves flags_ok flags_ok i g g' -> evolves flags_ok flags_ok k g g'.
Proof.
  intros [Ho Hs]. split.
  - intros H. by apply (group_ok_any i), Ho, (group_ok_any k).
  - intros j H. by apply Hs, (group_ok_any k).
Qed.

Lemma group_ok_weaken P Q i g :
  (P (flags_of (get_node g i)) = true -> Q (flags_of (get_node g i)) = true) -> group_ok P i g -> group_ok Q i g.
Proof. intros H Hok j. specialize (Hok j). destruct (Nat.eqb_spec j i) as [E|]; [subst j|]; auto. Qed.

Lemma group_ok_at P i g : group_ok P i g -> P (flags_of (get_node g i)) = true.
Proof. intros H. specialize (H i). by rewrite Nat.eqb_refl in H. Qed.

Lemma get_update g i f j :
  get_node (update g i f) j = if (j =? i)%nat && (i <? length (nodes g))%nat then f (get_node g i) else get_node g j.
Proof.
  unfold update, set_node, get_node. cbn [nodes with_nodes]. rewrite !nth_lookup.
  destruct (Nat.eqb_spec j i) as [Ej|N]; [subst j|cbn; by rewrite list_lookup_insert_ne].
  destruct (Nat.ltb_spec i (length (nodes g))); cbn [andb].
  - rewrite list_lookup_insert_eq by done. done.
  - by rewrite list_insert_ge.
Qed.

(** An assignment to node [i]. *)
Lemma evolves_update P Q i g f :
  (P (flags_of (get_node g i)) = true -> Q (flags_of (f (get_node g i))) = true) ->
  (P (flags_of (get_node g i)) = true -> disconnected (get_node g i) = true -> disconnected (f (get_node g i)) = true) ->
  (P (flags_of node_new) = true -> Q (flags_of node_new) = true) -> evolves P Q i g (update g i f).
Proof.
  intros Hf Hd Hn. split.
  - intros Hok j. pose proof (group_ok_at _ _ _ Hok) as Hi. specialize (Hok j). rewrite get_update.
    destruct (Nat.eqb_spec j i) as [Ej|N]; [subst j|done]. cbn [andb].
    destruct (Nat.ltb_spec i (length (nodes g))); [by auto|].
    unfold get_node in *. rewrite nth_overflow in Hi |- * by done. auto.
  - intros j Hok Hj. pose proof (group_ok_at _ _ _ Hok) as Hi. split; [|done]. rewrite get_update.
    destruct (Nat.eqb_spec j i) as [Ej|N]; [subst j|done]. cbn [andb]. destruct (_ <? _)%nat; auto.
Qed.

(** One that touches neither the state nor the handles. *)
Lemma evolves_harmless P i g f :
  (forall n, flags_of (f n) = flags_of n) -> evolves P P i g (update g i f).
Proof.
  intros Hf. split.
  - intros Hok j. specialize (Hok j). rewrite get_update. destruct (Nat.eqb_spec j i) as [Ej|]; [subst j|done].
    cbn [andb]. destruct (_ <? _)%nat; [by rewrite Hf|done].
  - intros j Hok Hj. split; [|done]. rewrite get_update. destruct (Nat.eqb_spec j i) as [Ej|]; [subst j|done].
    cbn [andb]. destruct (_ <? _)%nat; [|done].
    change (f_disconnected (flags_of (f (get_node g i))) = true). by rewrite Hf.
Qed.

(** What looks at a node is only its state and its handles. *)
Definition quiet P : Prop := forall f, P f = true -> f_disconnected f = true -> f_connected f = false.

Lemma quiet_ok : quiet flags_ok.
Proof. intros [[] [] [] [] [] [] []]; done. Qed.

Lemma quiet_changed : quiet flags_changed.
Proof. intros [[] [] [] [] [] [] []]; done. Qed.

Lemma evolves_send P i g data : quiet P -> evolves P P i g (node_send g i data).
Proof.
  intros HP. unfold node_send. apply evolves_if; [intros; apply evolves_refl|]. intros E. apply orb_false_iff in E as [E _].
  apply negb_false_iff in E. split; [done|]. intros j Hok Hd. split; [done|].
  cbn [sent_to sent List.filter]. unfold sent_to. cbn [sent List.filter fst].
  destruct (Nat.eqb_spec i j) as [->|]; [|done]. apply group_ok_at in Hok.
  specialize (HP _ Hok Hd). change (connected (get_node g j) = false) in HP. unfold connected in HP. congruence.
Qed.

Lemma evolves_message P i g cmd data : quiet P -> evolves P P i g (send_message g i cmd data).
Proof. intros HP. unfold send_message. case_match; [by apply evolves_send|apply evolves_refl]. Qed.

Lemma evolves_version P env i g : quiet P -> evolves P P i g (node_send_version env g i).
Proof. intros HP. unfold node_send_version. case_match; [by apply evolves_message|apply evolves_refl]. Qed.

Lemma evolves_ctx P i g c : evolves P P i g (with_ctx g c).
Proof. by split. Qed.

Lemma disconnected_disconnect n : disconnected (node_disconnect n) = true.
Proof.
  change (f_disconnected (flags_of (node_disconnect n)) = true). rewrite flags_disconnect. by destruct (flags_of _).
Qed.

Lemma evolves_disconnect P i g :
  (P = flags_ok \/ P = flags_changed) -> evolves P P i g (update g i node_disconnect).
Proof.
  intros HP. apply evolves_update; rewrite ?flags_disconnect.
  - intros H. destruct HP as [-> | ->]; flags_tac.
  - intros _ _. apply disconnected_disconnect.
  - by destruct HP as [-> | ->].
Qed.

(** Starting connections. *)
Lemma evolves_leak P i g k b : evolves P P i g (leak_events g k b).
Proof. unfold leak_events. apply evolves_if; intros; [by split|apply evolves_refl]. Qed.

Lemma flags_at g k :
  connecting (get_node g k) = f_connecting (flags_of (get_node g k)) /\ connected (get_node g k) = f_connected (flags_of (get_node g k)) /\
  disconnected (get_node g k) = f_disconnected (flags_of (get_node g k)).
Proof. done. Qed.

Lemma evolves_given P Q i g g' : (group_ok P i g -> evolves P Q i g g') -> evolves P Q i g g'.
Proof. intros H. split; [intros Hok | intros j Hok]; by apply H. Qed.

Lemma evolves_weaken P Q R i g g' :
  (forall f, P f = true -> Q f = true) -> evolves Q R i g g' -> evolves P R i g g'.
Proof.
  intros HPQ. apply evolves_trans. split; [|done]. intros Hok j. specialize (Hok j). case_match; auto.
Qed.

(** An assignment to a node [k] that is well, and stays so. *)
Lemma evolves_update_at P i k g f :
  (k = i -> P (flags_of (get_node g k)) = true ->
   flags_ok (flags_of (get_node g k)) = true /\ (forall F, flags_ok F = true -> P F = true)) ->
  (flags_ok (flags_of (get_node g k)) = true -> flags_ok (flags_of (f (get_node g k))) = true) ->
  disconnected (get_node g k) = false -> evolves P P i g (update g k f).
Proof.
  intros Hi Hf Hd. apply evolves_given. intros Hok. split.
  - intros _ j. pose proof (Hok j) as Hj. rewrite get_update. destruct (Nat.eqb_spec j k) as [Ej|]; [subst j|done]. cbn [andb].
    destruct (_ <? _)%nat; [|done]. destruct (Nat.eqb_spec k i) as [Ek|]; [|auto]. destruct (Hi Ek Hj). auto.
  - intros j _ Hj. split; [|done]. rewrite get_update. destruct (Nat.eqb_spec j k) as [Ej|]; [subst j|done]. congruence.
Qed.

(** When node [i] may be connected to, it is well and may be anything that is well. *)
Definition connectable P : Prop := forall f, P f = true ->
  f_connecting f = false -> f_connected f = false -> f_disconnected f = false ->
  flags_ok f = true /\ (forall f', flags_ok f' = true -> P f' = true).

Lemma connectable_ok : connectable flags_ok.
Proof. by split. Qed.

Lemma connect_step_evolves P env st i k : connectable P -> evolves P P i st.1.1.1 (connect_step env st k).1.1.1.
Proof.
  intros HP. destruct st as [[[g amount] started] [r|]]; [apply evolves_refl|]. cbn [connect_step fst].
  destruct (_ && _ && _) eqn:E; [|apply evolves_refl].
  set (g0 := leak_events g k (connects env k)).
  assert (get_node g0 k = get_node g k) as Eg by (unfold g0, leak_events; by destruct (_ || _)).
  refine (evolves_trans _ P _ _ _ g0 _ (evolves_leak _ _ _ _ _) _). rewrite <- Eg in E |- *. clearbody g0. clear Eg g.
  change (negb (connected (get_node g0 k)) && negb (disconnected (get_node g0 k)) && negb (connecting (get_node g0 k)) = true) in E.
  apply andb_true_iff in E as [[Hc%negb_true_iff Hd%negb_true_iff]%andb_true_iff Hk%negb_true_iff].
  assert (forall n, (flags_ok (flags_of (get_node g0 k)) = true -> flags_ok (flags_of n) = true) -> evolves P P i g0 (set_node g0 k n)) as Hset.
  { intros n Hn. change (set_node g0 k n) with (update g0 k (fun _ => n)). apply evolves_update_at; [|done|done].
    intros <- H. by apply HP. }
  destruct (negb (connects env k)); cbn [fst]; apply Hset.
  - change (flags_of (with_events (get_node g0 k) false (timer_event (get_node g0 k)))) with
      (mk_flags (f_connecting (flags_of (get_node g0 k))) (f_connected (flags_of (get_node g0 k))) (f_errored (flags_of (get_node g0 k)))
         (f_misbehaved (flags_of (get_node g0 k))) (f_disconnected (flags_of (get_node g0 k))) false (f_timer (flags_of (get_node g0 k)))).
    destruct (flags_at g0 k) as (Ek & Ec & Ed). rewrite Ek in Hk. rewrite Ec in Hc. clear Ek Ec Ed Hd Hset. intros H. flags_tac.
  - rewrite flags_connecting. destruct (flags_at g0 k) as (Ek & Ec & Ed). rewrite Ec in Hc. rewrite Ed in Hd.
    clear Ek Ec Ed Hk Hset. intros H. flags_tac.
Qed.

Lemma connect_steps_evolve P env l i : connectable P -> forall st, evolves P P i st.1.1.1 (foldl (connect_step env) st l).1.1.1.
Proof.
  intros HP. induction l as [|k l IH]; intros st; [apply evolves_refl|]. cbn [foldl].
  eapply evolves_trans; [|apply IH]. by apply connect_step_evolves.
Qed.

Lemma connect_evolves P env i g : connectable P -> evolves P P i g (node_group_connect_next_nodes env g).2.
Proof.
  intros HP. unfold node_group_connect_next_nodes. case_match; [apply evolves_refl|].
  match goal with |- context [foldl ?f ?s ?l] =>
    pose proof (connect_steps_evolve P env l i HP s) as H0; destruct (foldl f s l) as [[[g' a] b] r] end.
  done.
Qed.
End evolves.

(** *** Callbacks that keep to the rules *)

(** Of a node that was contacted. *)
Definition flags_met (f : flags) : bool := flags_ok f && (f_connected f || f_connecting f || f_disconnected f).

(** [P], and, when [b] is set, the node was contacted. *)
Definition also (b : bool) (P : flags -> bool) (f : flags) : bool :=
  P f && implb b (f_connected f || f_connecting f || f_disconnected f).

(** What the handlers rely on: a callback may assign, send, add nodes, disconnect; the one for
    changes of state may not do so in a way that brings a node up which is just going down. *)
Class Polite {C} (cbs : callbacks C) : Prop := {
  polite_changed b f g i : node_connection_state_changed_cb cbs = Some f ->
    evolves (also b flags_changed) (also b flags_changed) i g (f g i);
  polite_parse f g i hdr buf : parse_cmd_cb cbs = Some f -> evolves flags_met flags_met i g (f g i hdr buf).2;
  polite_post f g i hdr buf : postcmd_cb cbs = Some f -> evolves flags_met flags_met i g (f g i hdr buf);
  polite_handshake f g i : handshake_done_cb cbs = Some f -> evolves flags_met flags_met i g (f g i);
  polite_timer f g i t : periodic_timer_cb cbs = Some f -> evolves flags_met flags_met i g (f g i t).2 }.

(** After the handles of a node in error are released: it is well, or has misbehaved and will be
    disconnected. *)
Definition flags_final (f : flags) : bool :=
  flags_ok f || f_misbehaved f && (f_connected f || f_connecting f).

Lemma connectable_final b : connectable (also b flags_final).
Proof.
  intros [[] [] [] [] [] [] []]; destruct b; try done; intros; (split; [done|]); intros [[] [] [] [] [] [] []]; done.
Qed.

Section polite.
Context {C : Type} (cbs : callbacks C) {Hp : Polite cbs}.

Implicit Types g : node_group C.

Lemma quiet_also b : quiet (also b flags_ok).
Proof. intros f [H _]%andb_true_iff. by apply quiet_ok. Qed.

Lemma state_changed_evolves b env g i : evolves (also b flags_changed) (also b flags_ok) i g (node_connection_state_changed cbs env g i).
Proof.
  unfold node_connection_state_changed.
  set (g1 := match node_connection_state_changed_cb cbs with Some f => f g i | None => g end).
  refine (evolves_trans _ (also b flags_changed) _ _ _ g1 _ _ _).
  { unfold g1. destruct (node_connection_state_changed_cb cbs) eqn:E; [by apply polite_changed|apply evolves_refl]. }
  clearbody g1. clear g. set (g2 := if has _ NODE_ERRORED then _ else _).
  refine (evolves_trans _ (also b flags_final) _ _ _ g2 _ _ _).
  - unfold g2. clear g2. destruct (has _ NODE_ERRORED) eqn:E.
    + refine (evolves_trans _ (also b flags_final) _ _ _ (update g1 i node_release_events) _ _ _).
      * apply evolves_update; [|done|done]. rewrite flags_release. change (f_errored (flags_of (get_node g1 i)) = true) in E.
        intros H. flags_tac.
      * case_match; [|apply evolves_refl]. apply evolves_if; intros; [|apply evolves_refl].
        apply connect_evolves, connectable_final.
    + change (f_errored (flags_of (get_node g1 i)) = false) in E.
      apply evolves_given. intros Hok. split; [|done]. intros _. revert Hok. apply group_ok_weaken.
      intros H. flags_tac.
  - clearbody g2. clear g1. cbv zeta. apply evolves_if; intros Em.
    + apply evolves_if; intros Ec.
      * apply evolves_update; [|intros _ _; apply disconnected_disconnect|done]. rewrite flags_disconnect.
        change (f_misbehaved (flags_of (get_node g2 i)) = true) in Em. intros H. flags_tac.
      * apply evolves_given. intros Hok. split; [|done]. intros _. revert Hok. apply group_ok_weaken.
        change (f_misbehaved (flags_of (get_node g2 i)) = true) in Em.
        change (f_connected (flags_of (get_node g2 i)) || f_connecting (flags_of (get_node g2 i)) = false) in Ec. intros H. flags_tac.
    + refine (evolves_trans _ (also b flags_ok) _ _ _ g2 _ _ _).
      * split; [|done]. apply group_ok_weaken. change (f_misbehaved (flags_of (get_node g2 i)) = false) in Em. intros H. flags_tac.
      * apply evolves_if; intros; [apply evolves_version, quiet_also|apply evolves_refl].
Qed.

Lemma misbehave_evolves env g i : evolves flags_met flags_met i g (node_misbehave cbs env g i).
Proof.
  unfold node_misbehave. eapply evolves_trans; [|apply (state_changed_evolves true)].
  apply evolves_update; [| |done].
  - rewrite flags_misbehave. intros H. flags_tac.
  - intros _ Hd. change (f_disconnected (flags_of (with_state (get_node g i) (Z.lor (n_state (get_node g i)) NODE_MISSBEHAVED))) = true).
    rewrite flags_misbehave. change (f_disconnected (flags_of (get_node g i)) = true) in Hd. flags_tac.
Qed.

(** The same of a node that perhaps was not contacted. *)
Lemma changed_evolves env g i : evolves flags_changed flags_ok i g (node_connection_state_changed cbs env g i).
Proof.
  refine (evolves_weaken _ (also false flags_changed) _ _ _ _ _ _); [intros f; unfold also; by intros ->|].
  eapply evolves_trans; [apply (state_changed_evolves false)|]. split; [|done]. apply group_ok_weaken.
  by intros [H _]%andb_true_iff.
Qed.

(** The state 0 with some flags. *)
Lemma flags_timeout n :
  flags_of (with_state n (Z.lor NODE_ERRORED NODE_TIMEOUT)) =
  let '(mk_flags k c e m d bev timer) := flags_of n in mk_flags false false true false false bev timer.
Proof. done. Qed.

Lemma flags_gone n (r : bool) :
  flags_of (with_state n (let state := Z.lor NODE_ERRORED NODE_DISCONNECTED in if r then Z.lor state NODE_DISCONNECTED_FROM_REMOTE_PEER else state)) =
  let '(mk_flags k c e m d bev timer) := flags_of n in mk_flags false false true false true bev timer.
Proof. by destruct r. Qed.

Lemma event_evolves env g i type :
  event_bev (get_node g i) = true -> evolves flags_ok flags_ok i g (event_cb cbs env g i type).
Proof.
  intros Hb. change (f_bev (flags_of (get_node g i)) = true) in Hb. unfold event_cb.
  apply evolves_if; [|intros _; apply evolves_if; [|intros _; apply evolves_if]].
  - intros [_ Hk]%andb_true_iff. change (f_connecting (flags_of (get_node g i)) = true) in Hk.
    eapply evolves_trans; [|apply changed_evolves].
    apply evolves_update; [| |done].
    + rewrite flags_timeout. intros H. flags_tac.
    + intros H Hd. change (f_disconnected (flags_of (get_node g i)) = true) in Hd. exfalso. flags_tac.
  - intros _. eapply evolves_trans; [|apply changed_evolves].
    apply evolves_update; [| |done].
    + rewrite flags_gone. intros H. flags_tac.
    + intros _ _. by destruct (negb _).
  - intros _. eapply evolves_trans; [|apply changed_evolves]. apply evolves_update; [| |done].
    + rewrite flags_connected. intros H. flags_tac.
    + intros _ Hd. cbv zeta. match goal with |- disconnected ?n = _ => change (f_disconnected (flags_of n) = true) end.
      rewrite flags_connected. change (f_disconnected (flags_of (get_node g i)) = true) in Hd. flags_tac.
  - intros _. apply evolves_refl.
Qed.

(** *** The timer, the messages and the loop *)

Lemma ok_met g i : 
  (connected (get_node g i) = true \/ connecting (get_node g i) = true \/ disconnected (get_node g i) = true) ->
  evolves flags_ok flags_met i g g.
Proof.
  intros H. split; [|done]. apply group_ok_weaken. unfold flags_met. intros ->.
  change (f_connected (flags_of (get_node g i)) = true \/ f_connecting (flags_of (get_node g i)) = true \/
    f_disconnected (flags_of (get_node g i)) = true) in H.
  destruct H as [-> |[-> | ->]]; by rewrite ?orb_true_r.
Qed.

Lemma met_ok g i : evolves flags_met flags_ok i g g.
Proof. split; [|done]. apply group_ok_weaken. by intros [H _]%andb_true_iff. Qed.

Lemma quiet_met : quiet flags_met.
Proof. intros [[] [] [] [] [] [] []]; done. Qed.

Lemma timer_evolves env g i :
  timer_event (get_node g i) = true -> evolves flags_ok flags_ok i g (node_periodical_timer cbs env g i).
Proof.
  intros Ht. unfold node_periodical_timer.
  set (r := match periodic_timer_cb cbs with Some f => f g i (now env) | None => (true, now env, g) end).
  assert (evolves flags_ok flags_ok i g r.2) as H1.
  { unfold r. destruct (periodic_timer_cb cbs) eqn:E; [|apply evolves_refl].
    apply evolves_given. intros Hok. apply (evolves_trans _ flags_met _ _ _ g); [|eapply evolves_trans; [by apply polite_timer|apply met_ok]].
    apply ok_met. apply group_ok_at in Hok. change (f_timer (flags_of (get_node g i)) = true) in Ht.
    destruct (flags_at g i) as (-> & -> & ->). rewrite <- !orb_true_iff. flags_tac. }
  destruct r as [[continue t] g1]. cbn [snd] in H1. apply evolves_if; [by intros|]. intros _. cbv zeta.
  refine (evolves_trans _ flags_ok _ _ _ _ _ H1 _). clear H1 Ht.
  set (g2 := if _ && has _ NODE_CONNECTING then _ else g1).
  refine (evolves_trans _ flags_ok _ _ _ g2 _ _ _); clear g.
  - unfold g2. apply evolves_if; [|intros; apply evolves_refl]. intros [_ Hk]%andb_true_iff.
    change (f_connecting (flags_of (get_node g1 i)) = true) in Hk.
    eapply evolves_trans; [|apply changed_evolves].
    change (set_node g1 i ?n) with (update g1 i (fun _ => n)). apply evolves_update; [| |done].
    + rewrite flags_timeout. change (flags_of (with_times (get_node g1 i) ?p ?q)) with (flags_of (get_node g1 i)).
      intros H. flags_tac.
    + intros H Hd. change (f_disconnected (flags_of (get_node g1 i)) = true) in Hd. exfalso. flags_tac.
  - apply evolves_if; [|intros; apply evolves_refl]. intros _. case_match; [|apply evolves_refl].
    eapply evolves_trans; [|by apply evolves_harmless]. apply evolves_message, quiet_ok.
Qed.

Lemma post_evolves g i hdr buf : evolves flags_met flags_met i g (post_cmd cbs g i hdr buf).
Proof. unfold post_cmd. destruct (postcmd_cb cbs) eqn:E; [by apply polite_post|apply evolves_refl]. Qed.

Lemma parse_evolves env g i hdr buf : evolves flags_met flags_met i g (node_parse_message cbs env g i hdr buf).
Proof.
  unfold node_parse_message. apply evolves_if; intros _; [apply misbehave_evolves|].
  set (r := match parse_cmd_cb cbs with Some f => f g i hdr buf | None => (true, buf, g) end).
  assert (evolves flags_met flags_met i g r.2) as H1.
  { unfold r. destruct (parse_cmd_cb cbs) eqn:E; [by apply polite_parse|apply evolves_refl]. }
  destruct r as [[handle b] g1]. cbn [snd] in H1. refine (evolves_trans _ flags_met _ _ _ _ _ H1 _). clear H1 g buf.
  apply evolves_if; intros _; [apply post_evolves|].
  apply evolves_if; intros _; [destruct (p2p_msg_version_deser b) as [[v|] b']|].
  - cbv zeta. set (g2 := if negb _ then _ else g1). refine (evolves_trans _ flags_met _ _ _ g2 _ _ _).
    + apply evolves_if; intros _; [|apply evolves_refl].
      apply evolves_update; [rewrite flags_disconnect; intros H; flags_tac|intros _ _; apply disconnected_disconnect|done].
    + eapply evolves_trans; [|apply post_evolves]. eapply evolves_trans; [|apply evolves_message, quiet_met].
      by apply evolves_harmless.
  - apply misbehave_evolves.
  - apply evolves_if; intros _; [|apply evolves_if; intros _;
      [|apply evolves_if; intros _; [|apply post_evolves]]].
    + cbv zeta. eapply evolves_trans; [apply (evolves_harmless _ _ _ with_handshake); done|].
      set (g2 := update g1 i with_handshake). clearbody g2.
      set (g3 := match p2p_msg_sendcmpct _ _ _ with Some m => node_send g2 i m | None => g2 end).
      refine (evolves_trans _ flags_met _ _ _ g3 _ _ _).
      { unfold g3. case_match; [apply evolves_send, quiet_met|apply evolves_refl]. }
      clearbody g3. eapply evolves_trans; [|apply post_evolves].
      destruct (handshake_done_cb cbs) eqn:E; [by apply polite_handshake|apply evolves_refl].
    + destruct (p2p_msg_sendcmpct_deser b) as [[[hb version]|] b']; [|apply misbehave_evolves].
      cbv zeta. eapply evolves_trans; [|apply post_evolves]. apply evolves_harmless. intros n. by case_match.
    + destruct (deser_u64 b) as [[nonce|] b']; [|apply misbehave_evolves].
      eapply evolves_trans; [|apply post_evolves]. apply evolves_message, quiet_met.
Qed.

Definition result_group (r : read_result C) : node_group C :=
  match r with ReadReturned g => g | ReadEnded g _ => g end.

Lemma loop_evolves env i fuel : forall g buf upto r,
  read_loop cbs fuel env g i buf upto = Some r -> evolves flags_met flags_met i g (result_group r).
Proof.
  induction fuel as [|fuel IH]; intros g buf upto r Hr; [done|]. cbn [read_loop] in Hr.
  case_match; [injection Hr as <-; apply evolves_refl|].
  destruct (p2p_deser_msghdr hdr_unset buf) as [[hdr|] b]; [|done].
  case_match; [injection Hr as <-; apply misbehave_evolves|].
  case_match; [injection Hr as <-; apply evolves_refl|]. cbv zeta in Hr.
  case_match; [injection Hr as <-; apply evolves_refl|].
  case_match; [injection Hr as <-; apply misbehave_evolves|].
  eapply evolves_trans; [apply parse_evolves|].
  case_match; [injection Hr as <-; apply evolves_refl|]. by eapply IH.
Qed.

Lemma read_evolves env g i recv input r :
  read_cb cbs env g i recv input = Some r -> evolves flags_ok flags_ok i g r.1.
Proof.
  unfold read_cb. destruct (has _ NODE_CONNECTED) eqn:E; cbn [negb]; [|intros [= <-]; apply evolves_refl].
  destruct (read_loop _ _ _ _ _ _ _) as [res|] eqn:L; [|done]. cbn [mbind option_bind]. intros [= <-].
  apply loop_evolves in L. apply (evolves_trans _ flags_met _ _ _ g); [apply ok_met; by left|].
  eapply evolves_trans; [|apply met_ok]. by destruct res.
Qed.

End polite.

Section steps.
Context {C : Type} (cbs : environment -> callbacks C).

Implicit Types g : node_group C.

(** What can happen to a group: nodes are added, connections started, the event library reports
    on a node that has the handle, or the group is shut down. *)
Inductive net_step : node_group C -> node_group C -> Prop :=
  | step_add g addr : net_step g (node_group_add_node g (with_addr node_new addr))
  | step_connect env g : net_step g (node_group_connect_next_nodes env g).2
  | step_event env g i type : event_bev (get_node g i) = true -> net_step g (event_cb (cbs env) env g i type)
  | step_timer env g i : timer_event (get_node g i) = true -> net_step g (node_periodical_timer (cbs env) env g i)
  | step_read env g i recv input r : event_bev (get_node g i) = true ->
      read_cb (cbs env) env g i recv input = Some r -> net_step g r.1
  | step_shutdown g : net_step g (node_group_shutdown g).

Lemma get_add g n j :
  get_node (node_group_add_node g n) j = if (j =? length (nodes g))%nat then n else get_node g j.
Proof.
  unfold get_node. cbn [nodes node_group_add_node with_nodes]. destruct (Nat.eqb_spec j (length (nodes g))) as [Ej|N]; [subst j|].
  - by rewrite app_nth2, Nat.sub_diag by lia.
  - destruct (Nat.lt_ge_cases j (length (nodes g))); [by rewrite app_nth1|].
    rewrite !nth_overflow; [done| |rewrite length_app; cbn]; lia.
Qed.

Lemma get_shutdown g j :
  get_node (node_group_shutdown g) j = if (j <? length (nodes g))%nat then node_disconnect (get_node g j) else node_new.
Proof.
  unfold get_node. cbn [nodes node_group_shutdown with_nodes]. destruct (Nat.ltb_spec j (length (nodes g))).
  - rewrite (nth_indep _ node_new (node_disconnect node_new)) by (by rewrite length_map). apply map_nth.
  - apply nth_overflow. by rewrite length_map.
Qed.

Context {Hp : forall env, Polite (cbs env)}.

Lemma step_evolves g g' : net_step g g' -> evolves flags_ok flags_ok 0 g g'.
Proof.
  destruct 1.
  - split.
    + intros Hok j. rewrite get_add. specialize (Hok j). destruct (j =? length _)%nat; [by destruct (_ =? _)%nat|done].
    + intros j Hok Hj. split; [|done]. rewrite get_add. destruct (Nat.eqb_spec j (length (nodes g))) as [->|]; [|done].
      unfold get_node in Hj. by rewrite nth_overflow in Hj.
  - apply connect_evolves, connectable_ok.
  - by apply (evolves_any i), event_evolves.
  - by apply (evolves_any i), timer_evolves.
  - apply (evolves_any i). by apply (read_evolves (cbs env) env g i recv input).
  - split.
    + intros Hok j. rewrite get_shutdown. specialize (Hok j).
      assert ((if (j =? 0)%nat then flags_ok else flags_ok) = flags_ok) as E by (by case_match). rewrite E in Hok |- *. clear E.
      case_match; [|done]. rewrite flags_disconnect. flags_tac.
    + intros j Hok Hj. split; [|done]. rewrite get_shutdown. destruct (Nat.ltb_spec j (length (nodes g))); [apply disconnected_disconnect|].
      unfold get_node in Hj. by rewrite nth_overflow in Hj.
Qed.

Lemma steps_evolve g g' : rtc net_step g g' -> evolves flags_ok flags_ok 0 g g'.
Proof. induction 1; [apply evolves_refl|]. eapply evolves_trans; [by apply step_evolves|done]. Qed.

End steps.

(** ** The broadcasting program keeps to the rules *)

#[export] Instance broadcast_connect_polite : Polite broadcast_connect_cbs.
Proof. by split. Qed.

Lemma hints_harmless h i (g : broadcast_group) : evolves flags_met flags_met i g (update g i (fun n => with_hints n (h n))).
Proof. by apply evolves_harmless. Qed.

Lemma inv_loop_evolves env i hash vsize : forall g buf,
  evolves flags_met flags_met i g (broadcast_inv_loop vsize env g i hash buf).
Proof.
  induction vsize as [|vsize IH]; intros g buf; [apply evolves_refl|]. cbn [broadcast_inv_loop].
  destruct (p2p_msg_inv_deser buf) as [[inv|] b]; [|apply misbehave_evolves, _].
  eapply evolves_trans; [|apply IH]. apply evolves_if; intros _; [|apply evolves_refl].
  eapply evolves_trans; [|apply evolves_ctx]. apply hints_harmless.
Qed.

Lemma disconnect_if_evolves (b : bool) i (g : broadcast_group) :
  evolves flags_met flags_met i g (if b then update g i node_disconnect else g).
Proof.
  apply evolves_if; intros _; [|apply evolves_refl]. apply evolves_update; [|intros _ _; apply disconnected_disconnect|done].
  rewrite flags_disconnect. intros H. flags_tac.
Qed.

#[export] Instance broadcast_polite env : Polite (broadcast_callbacks env).
Proof.
  split; try done; cbn [broadcast_callbacks postcmd_cb handshake_done_cb periodic_timer_cb].
  - intros f g i hdr buf [= <-]. unfold broadcast_post_cmd. apply evolves_if; intros _.
    + destruct (deser_varlen buf) as [[vsize|] b]; [apply inv_loop_evolves|apply misbehave_evolves, _].
    + apply evolves_if; intros _; [|apply evolves_refl]. eapply evolves_trans; [apply evolves_ctx|].
      destruct (deser_varlen buf) as [[vsize|] b]; [|apply misbehave_evolves, _].
      assert (forall g0, evolves flags_met flags_met i g0 (node_misbehave broadcast_connect_cbs env g0 i)) as Hm
        by (intros; apply misbehave_evolves, _).
      destruct vsize as [|[| |]|]; try apply Hm.
      destruct (p2p_msg_inv_deser b) as [[inv|] b']; [|apply Hm].
      apply evolves_if; intros _; [apply Hm|]. eapply evolves_trans; [|apply hints_harmless].
      apply evolves_message, quiet_met.
  - intros f g i [= <-]. unfold broadcast_handshake_done. eapply evolves_trans; [apply evolves_ctx|].
    apply evolves_if; intros _; [apply evolves_refl|]. eapply evolves_trans; [|apply evolves_ctx].
    eapply evolves_trans; [|apply hints_harmless]. apply evolves_message, quiet_met.
  - intros f g i t [= <-]. unfold broadcast_timer_cb. cbn [snd].
    eapply evolves_trans; [apply disconnect_if_evolves|]. eapply evolves_trans; apply disconnect_if_evolves.
Qed.

(** ** Theorems on the states *)

(** C8: whatever the network does, and in whatever order, every node of a group is at all times
    connecting, connected or neither; it has its connection and its timer exactly in the first two
    cases; a node that is disconnected or has misbehaved is in none of them, and one in error is
    not connected.  This holds of every program whose callbacks keep to the rules, among them the
    one that broadcasts a transaction. *)
Theorem nodes_stay_well {C} (cbs : environment -> callbacks C) (g0 g : node_group C)
  (Hp : forall env, Polite (cbs env)) (H0 : nodes g0 = []) (Hr : rtc (net_step cbs) g0 g) :
  forallb node_ok (nodes g) = true.
Proof.
  apply forallb_forall. intros n (j & Hj & <-)%(In_nth _ _ node_new).
  assert (group_ok flags_ok 0 g0) as Hok.
  { intros k. unfold get_node. rewrite H0. by destruct k. }
  pose proof (ev_ok _ _ _ _ _ (steps_evolve cbs g0 g Hr) Hok j) as H. by destruct (j =? 0)%nat.
Qed.

(** A run of the broadcasting program: a node is added, connected to, and gone. *)
Definition demo_env (t : Z) : environment := mk_env t (Some (zeros 8)) (fun _ => true).

Definition demo_start : broadcast_group := broadcast_start [Byte.xc0; Byte.xc0; Byte.xc0; Byte.xc0] (mk_tx 1 (Some []) (Some []) 0) 10 15 0.

Definition demo_up : broadcast_group :=
  let g := node_group_add_node demo_start (with_addr node_new addr_zero) in
  let g := (node_group_connect_next_nodes (demo_env 1) g).2 in
  event_cb (broadcast_callbacks (demo_env 2)) (demo_env 2) g 0 BEV_EVENT_CONNECTED.

Definition demo_gone : broadcast_group :=
  event_cb (broadcast_callbacks (demo_env 3)) (demo_env 3) demo_up 0 BEV_EVENT_EOF.

Lemma demo_runs : rtc (net_step broadcast_callbacks) demo_start demo_up.
Proof.
  eapply rtc_l; [apply (step_add _ _ addr_zero)|]. eapply rtc_l; [apply (step_connect _ (demo_env 1))|].
  eapply rtc_l; [apply (step_event _ (demo_env 2) _ 0 BEV_EVENT_CONNECTED); reflexivity|]. apply rtc_refl.
Qed.

Lemma nodes_stay_well_witness :
  rtc (net_step broadcast_callbacks) demo_start demo_up /\ length (nodes demo_up) = 1%nat /\
  connected (get_node demo_up 0) = true /\ forallb node_ok (nodes demo_up) = true.
Proof.
  split; [apply demo_runs|]. split; [reflexivity|]. split; [vm_compute; reflexivity|].
  apply (nodes_stay_well broadcast_callbacks demo_start demo_up); [apply broadcast_polite|reflexivity|apply demo_runs].
Defined.


Lemma demo_goes : rtc (net_step broadcast_callbacks) demo_up demo_gone.
Proof. eapply rtc_l; [apply (step_event _ (demo_env 3) _ 0 BEV_EVENT_EOF); vm_compute; reflexivity|]. apply rtc_refl. Qed.


(** ** The callback of the header client *)

(** [discover]: what [dogecoin_spv_client_discover_peers] does to the group. *)
Definition node_should_connect_to_more_cb {C} (g : node_group C) (i : nat) : bool :=
  node_group_amount_of_connected_nodes g NODE_CONNECTED + node_group_amount_of_connected_nodes g NODE_CONNECTING
    <? desired_amount_connected_nodes g.

Definition node_connection_state_changed_cb_spv {C} (discover : node_group C -> node_group C) (env : environment)
    (g : node_group C) (i : nat) : node_group C :=
  if node_should_connect_to_more_cb g i then (node_group_connect_next_nodes env (discover g)).2 else g.

Definition spv_connect_cbs {C} (discover : node_group C -> node_group C) (env : environment) : callbacks C :=
  mk_callbacks None None (Some (node_connection_state_changed_cb_spv discover env)) (Some node_should_connect_to_more_cb) None None.

(** The group of a client with one peer, whose connection attempt has timed out. *)
Definition timed_out {C} (c : C) (magic client : bytes) (desired : Z) (n : node) : node_group C :=
  mk_group c [with_state (with_events n true true) (Z.lor NODE_ERRORED NODE_TIMEOUT)] [] [] magic client desired.

Definition node_started (env : environment) (n : node) : node :=
  let n := with_times (with_events n true true) (lastping n) (now env) in
  with_state n (Z.lor (n_state n) NODE_CONNECTING).

(** One node: a connection is started unless the node is up or going there. *)
Lemma connect_single {C} env (c : C) n s l m cl d :
  1 < d -> connects env 0%nat = true -> connected n = false -> disconnected n = false ->
  (node_group_connect_next_nodes env (mk_group c [n] s l m cl d)).2 =
  if connecting n then mk_group c [n] s l m cl d
  else mk_group c [node_started env n] s (if event_bev n || timer_event n then 0%nat :: l else l) m cl d.
Proof.
  intros Hd Hc En Ed. unfold connected, disconnected, connecting in *.
  unfold node_group_connect_next_nodes, node_group_amount_of_connected_nodes.
  cbn [nodes desired_amount_connected_nodes List.filter]. rewrite En. cbn [length Z.of_nat]. rewrite Z.sub_0_r.
  rewrite (proj2 (Z.leb_gt _ _)) by lia. cbn [seq foldl connect_step get_node nth nodes]. rewrite En, Ed, Hc.
  destruct (has (n_state n) NODE_CONNECTING); cbn [negb andb]; [done|]. unfold leak_events. cbn [get_node nth nodes andb].
  by destruct (event_bev n || timer_event n).
Qed.

(** The callback of the header client is not of this kind, and strands the node whose attempt
    to connect has timed out: the callback starts a second attempt while the handles of the first
    are still there, which nothing frees any more, and what is then released are the handles of
    the second.  The node is left connecting without a handle, and is not tried again. *)
Theorem timeout_strands_node {C} (c : C) (magic client : bytes) (desired : Z) (n : node) (env : environment)
  (Hd : 1 < desired) (Hc : connects env 0%nat = true) :
  let g := node_connection_state_changed (spv_connect_cbs id env) env (timed_out c magic client desired n) 0 in
  connecting (get_node g 0) = true /\ event_bev (get_node g 0) = false /\ timer_event (get_node g 0) = false /\
  leaked g = [0%nat] /\ node_ok (get_node g 0) = false /\
  nodes (node_group_connect_next_nodes env g).2 = nodes g.
Proof.
  cbv zeta.
  set (n1 := with_state (with_events n true true) (Z.lor NODE_ERRORED NODE_TIMEOUT)).
  assert (node_connection_state_changed (spv_connect_cbs id env) env (timed_out c magic client desired n) 0 =
    mk_group c [node_release_events (node_started env n1)] [] [0%nat] magic client desired) as ->.
  - unfold node_connection_state_changed, timed_out. cbn [spv_connect_cbs node_connection_state_changed_cb should_connect_to_more_nodes_cb].
    fold n1. unfold node_connection_state_changed_cb_spv.
    assert (node_should_connect_to_more_cb (mk_group c [n1] [] [] magic client desired) 0 = true) as ->.
    { apply Z.ltb_lt. change (0 < desired). lia. }
    cbn [id]. rewrite connect_single by done. change (connecting n1) with false. cbv match. change (event_bev n1 || timer_event n1) with true. cbv match.
    change (has (n_state (get_node (mk_group c [node_started env n1] [] [0%nat] magic client desired) 0)) NODE_ERRORED) with true. cbv match.
    change (update (mk_group c [node_started env n1] [] [0%nat] magic client desired) 0 node_release_events) with
      (mk_group c [node_release_events (node_started env n1)] [] [0%nat] magic client desired).
    assert (node_should_connect_to_more_cb (mk_group c [node_release_events (node_started env n1)] [] [0%nat] magic client desired) 0 = true) as ->.
    { apply Z.ltb_lt. change (1 < desired). lia. }
    rewrite connect_single by done. reflexivity.
  - rewrite connect_single by done. by repeat split.
Qed.

Lemma timeout_strands_node_witness :
  let g := node_connection_state_changed (spv_connect_cbs id (demo_env 20)) (demo_env 20)
             (timed_out tt [Byte.xc0; Byte.xc0; Byte.xc0; Byte.xc0] default_clientstr 8 node_new) 0 in
  connecting (get_node g 0) = true /\ event_bev (get_node g 0) = false /\ timer_event (get_node g 0) = false /\
  leaked g = [0%nat] /\ node_ok (get_node g 0) = false /\
  nodes (node_group_connect_next_nodes (demo_env 20) g).2 = nodes g.
Proof. apply (timeout_strands_node tt _ _ 8 node_new (demo_env 20)); [lia|reflexivity]. Defined.

(** ** The stream and its messages *)

#[local] Opaque dogecoin_hash.

(** What the front of a stream is: a message is not complete yet, or says it is too long, or is
    there with its header and its payload, in front of the rest. *)
Inductive front :=
  | Waiting
  | TooLong
  | Message (hdr : p2p_msg_hdr) (payload rest : bytes).

Definition front_of (s : bytes) : front :=
  if Z.of_nat (length s) <? DOGECOIN_P2P_HDRSZ then Waiting
  else
    let hdr := mk_msg_hdr (take 4 s) (take 12 (drop 4 s)) (le_dec (take 4 (drop 16 s))) (take 4 (drop 20 s)) in
    let s := drop 24 s in
    if DOGECOIN_MAX_P2P_MSG_SIZE <? data_len hdr then TooLong
    else if Z.of_nat (length s) <? data_len hdr then Waiting
    else Message hdr (take (Z.to_nat (data_len hdr)) s) (drop (Z.to_nat (data_len hdr)) s).

Definition checksum_ok (hdr : p2p_msg_hdr) (payload : bytes) : bool :=
  bytes_eqb (take 4 (dogecoin_hash payload)) (msg_hash hdr).

Lemma deser_msghdr_front s : (24 <= length s)%nat ->
  p2p_deser_msghdr hdr_unset s =
  (Some (mk_msg_hdr (take 4 s) (take 12 (drop 4 s)) (le_dec (take 4 (drop 16 s))) (take 4 (drop 20 s))), drop 24 s).
Proof.
  intros H. rewrite <- (take_drop 4 s) at 1. rewrite <- (take_drop 12 (drop 4 s)) at 1.
  rewrite drop_drop. rewrite <- (take_drop 4 (drop (4 + 12) s)) at 1. rewrite drop_drop.
  rewrite <- (take_drop 4 (drop (4 + 12 + 4) s)) at 1. rewrite drop_drop. cbn [Nat.add].
  assert (length (take 4 (drop 16 s)) = 4%nat) as H4 by (rewrite length_take, length_drop; lia).
  rewrite <- (le_enc_dec (take 4 (drop 16 s)) 4 H4) at 1. apply deser_msghdr_spec; rewrite ?length_take, ?length_drop; try lia.
  pose proof (le_dec_range (take 4 (drop 16 s))) as Hr. by rewrite H4 in Hr.
Qed.

(** More bytes behind do not change what is at the front. *)
Lemma front_app s t :
  front_of (s ++ t) = match front_of s with
                      | Waiting => front_of (s ++ t)
                      | TooLong => TooLong
                      | Message hdr p rest => Message hdr p (rest ++ t)
                      end.
Proof.
  unfold front_of at 2. destruct (Z.ltb_spec (Z.of_nat (length s)) DOGECOIN_P2P_HDRSZ) as [|Hl]; [done|].
  unfold DOGECOIN_P2P_HDRSZ in Hl. unfold front_of. cbn [data_len].
  rewrite !length_app, (proj2 (Z.ltb_ge _ DOGECOIN_P2P_HDRSZ)) by (unfold DOGECOIN_P2P_HDRSZ; lia).
  rewrite !drop_app_le, !take_app_le by (rewrite ?length_drop; lia).
  set (len := le_dec (take 4 (drop 16 s))) in *. destruct (DOGECOIN_MAX_P2P_MSG_SIZE <? len); [done|].
  rewrite length_app. destruct (Z.ltb_spec (Z.of_nat (length (drop 24 s))) len); [done|].
  rewrite (proj2 (Z.ltb_ge _ _)) by lia. by rewrite take_app_le, drop_app_le by lia.
Qed.

Lemma front_shorter s hdr p rest : front_of s = Message hdr p rest -> (length rest + 24 <= length s)%nat.
Proof.
  unfold front_of. destruct (Z.ltb_spec (Z.of_nat (length s)) DOGECOIN_P2P_HDRSZ) as [|H]; [done|].
  unfold DOGECOIN_P2P_HDRSZ in H. cbv zeta. case_match; [done|]. case_match; [done|].
  injection 1 as _ _ <-. rewrite !length_drop. lia.
Qed.

Section stream.
Context {C : Type} (cbs : callbacks C) (env : environment) (i : nat).

Implicit Types g : node_group C.

(** The messages of a stream are handled one after the other, while the node is connected; what is
    left waits for more. *)
Inductive handles : node_group C -> bytes -> node_group C -> bytes -> Prop :=
  | handles_done g s : front_of s = Waiting -> handles g s g s
  | handles_message g s hdr p s' g' rest :
      front_of s = Message hdr p s' -> connected (get_node g i) = true -> checksum_ok hdr p = true ->
      handles (node_parse_message cbs env g i hdr p) s' g' rest -> handles g s g' rest.

(** One round of the loop. *)
Lemma read_loop_front fuel g buf upto :
  read_loop cbs (S fuel) env g i buf upto =
  match front_of buf with
  | Waiting => Some (ReadEnded g upto)
  | TooLong => Some (ReadReturned (node_misbehave cbs env g i))
  | Message hdr p rest =>
      if negb (connected (get_node g i)) then Some (ReadReturned g)
      else if negb (checksum_ok hdr p) then Some (ReadReturned (node_misbehave cbs env g i))
      else
        let g := node_parse_message cbs env g i hdr p in
        match rest with [] => Some (ReadEnded g (Some [])) | _ => read_loop cbs fuel env g i rest (Some rest) end
  end.
Proof.
  cbn [read_loop]. unfold front_of. destruct (Z.ltb_spec (Z.of_nat (length buf)) DOGECOIN_P2P_HDRSZ) as [|H]; [done|].
  unfold DOGECOIN_P2P_HDRSZ in H. rewrite deser_msghdr_front by lia. cbn [data_len msg_hash].
  case_match; [done|]. case_match; [done|]. done.
Qed.

Lemma loop_handles g s g' rest : handles g s g' rest -> forall fuel upto,
  (length s < fuel)%nat -> (front_of s = Waiting -> s = default s upto) ->
  exists upto', read_loop cbs fuel env g i s upto = Some (ReadEnded g' upto') /\ default s upto' = rest /\
    (upto' = None -> upto = None).
Proof.
  induction 1 as [g s Hf|g s hdr p s' g' rest Hf Hc Hs Hh IH]; intros [|fuel] upto Hl Hu; try lia.
  - rewrite read_loop_front, Hf. exists upto. split; [done|]. by rewrite <- Hu.
  - rewrite read_loop_front, Hf, Hc, Hs. cbn [negb]. apply front_shorter in Hf as Hl'. cbv zeta.
    destruct s' as [|b s'].
    + exists (Some []). inversion Hh; subst; [done|].
      match goal with H : front_of [] = _ |- _ => discriminate H end.
    + edestruct (IH fuel (Some (b :: s'))) as (upto' & Hr & Hd & Hn); [cbn in *; lia|done|].
      exists upto'. split; [done|]. split; [|by intros E; specialize (Hn E)].
      destruct upto' as [u|]; [done|]. by specialize (Hn eq_refl).
Qed.

Lemma read_handles g g' recv input rest :
  handles g (recv ++ input) g' rest -> connected (get_node g i) = true ->
  read_cb cbs env g i recv input = Some (g', rest).
Proof.
  intros Hh Hc. unfold read_cb. unfold connected in Hc. rewrite Hc. cbn [negb].
  destruct (loop_handles _ _ _ _ Hh (S (length (recv ++ input))) None) as (upto' & -> & Hd & _); [lia|done|].
  cbn [mbind option_bind]. by rewrite Hd.
Qed.

(** The front part of a stream can be handled first. *)
Lemma handles_split g s g' rest : handles g s g' rest -> forall s1 s2, s = s1 ++ s2 ->
  exists g1 r1, handles g s1 g1 r1 /\ handles g1 (r1 ++ s2) g' rest.
Proof.
  induction 1 as [g s Hf|g s hdr p s' g' rest Hf Hc Hs Hh IH]; intros s1 s2 E; subst s.
  - exists g, s1. split; [|by constructor]. constructor. rewrite front_app in Hf. by destruct (front_of s1).
  - pose proof (front_app s1 s2) as Ha. destruct (front_of s1) as [| |hdr1 p1 rest1] eqn:E1.
    + exists g, s1. split; [by constructor|]. by eapply handles_message.
    + congruence.
    + rewrite Hf in Ha. injection Ha as -> -> ->. destruct (IH rest1 s2 eq_refl) as (g1 & r1 & H1 & H2).
      exists g1, r1. split; [by eapply handles_message|done].
Qed.

Lemma handles_connected g s g' rest : handles g s g' rest -> connected (get_node g' i) = true -> connected (get_node g i) = true.
Proof. by destruct 1. Qed.

(** What arrives in pieces: [read_cb] for each. *)
Definition feed g (recvBuffer : bytes) (pieces : list bytes) : option (node_group C * bytes) :=
  foldl (fun st input => '(g, recv) ← st; read_cb cbs env g i recv input) (Some (g, recvBuffer)) pieces.

Lemma feed_handles pieces : forall g recv g' rest,
  handles g (recv ++ concat pieces) g' rest -> front_of recv = Waiting -> connected (get_node g' i) = true ->
  feed g recv pieces = Some (g', rest).
Proof.
  unfold feed. induction pieces as [|b pieces IH]; intros g recv g' rest Hh Hf Hc; cbn [concat foldl].
  - cbn [concat] in Hh. rewrite app_nil_r in Hh. inversion Hh; subst; [done|congruence].
  - cbn [concat] in Hh. rewrite app_assoc in Hh.
    destruct (handles_split _ _ _ _ Hh _ _ eq_refl) as (g1 & r1 & H1 & H2).
    cbn [mbind option_bind]. rewrite (read_handles g g1 recv b r1 H1).
    2:{ eapply handles_connected, handles_connected; eassumption. }
    apply IH; [done| |done]. clear - H1. by induction H1.
Qed.

(** The loop always ends. *)
Lemma read_loop_total fuel : forall g buf upto, (length buf < fuel)%nat -> read_loop cbs fuel env g i buf upto <> None.
Proof.
  induction fuel as [|fuel IH]; intros g buf upto Hl; [lia|]. rewrite read_loop_front.
  destruct (front_of buf) as [| |hdr p rest] eqn:E; [done|done|]. apply front_shorter in E.
  repeat case_match; try done. apply IH. cbn in *. lia.
Qed.
End stream.

(** *** Misbehaving *)

Section misbehave.
Context {C : Type} (cbs : callbacks C) (env : environment) (i : nat).
Hypothesis no_callback : node_connection_state_changed_cb cbs = None.

Implicit Types g : node_group C.

Lemma connect_step_keeps (st : node_group C * Z * bool * option bool) k :
  sent (connect_step env st k).1.1.1 = sent st.1.1.1 /\
  (forall j, connected (get_node (connect_step env st k).1.1.1 j) = connected (get_node st.1.1.1 j)) /\
  (forall j, misbehaved (get_node (connect_step env st k).1.1.1 j) = misbehaved (get_node st.1.1.1 j)).
Proof.
  destruct st as [[[g amount] started] [r|]]; [done|]. cbn [connect_step fst].
  case_match; [|done]. set (g0 := leak_events g k (connects env k)).
  assert (sent g0 = sent g /\ (forall j, get_node g0 j = get_node g j)) as [Es Eg] by (unfold g0, leak_events; by case_match).
  clearbody g0.
  assert (forall n, connected n = connected (get_node g0 k) -> misbehaved n = misbehaved (get_node g0 k) ->
    sent (set_node g0 k n) = sent g /\ (forall j, connected (get_node (set_node g0 k n) j) = connected (get_node g j)) /\
    (forall j, misbehaved (get_node (set_node g0 k n) j) = misbehaved (get_node g j))) as Hset.
  { intros n Hc Hm. split; [done|]. change (set_node g0 k n) with (update g0 k (fun _ => n)).
    split; intros j; rewrite get_update, <- !Eg; destruct (Nat.eqb_spec j k) as [Ej|]; try done; subst j; cbn [andb]; by case_match. }
  case_match; cbn [fst]; apply Hset; rewrite <- ?Eg; try done.
  - unfold connected at 1. cbn [n_state with_state with_times with_events]. rewrite has_lor by flag_tac.
    unfold connected. by rewrite orb_false_r.
  - unfold misbehaved at 1. cbn [n_state with_state with_times with_events]. rewrite has_lor by flag_tac.
    unfold misbehaved. by rewrite orb_false_r.
Qed.

Lemma connect_keeps g :
  sent (node_group_connect_next_nodes env g).2 = sent g /\
  (forall j, misbehaved (get_node (node_group_connect_next_nodes env g).2 j) = misbehaved (get_node g j)).
Proof.
  unfold node_group_connect_next_nodes. case_match; [done|].
  match goal with |- context [foldl ?f ?s ?l] => assert (forall st : node_group C * Z * bool * option bool,
    sent (foldl f st l).1.1.1 = sent st.1.1.1 /\
    (forall j, misbehaved (get_node (foldl f st l).1.1.1 j) = misbehaved (get_node st.1.1.1 j))) as Hk end.
  { generalize (seq 0 (length (nodes g))). intros l. induction l as [|k l IH]; intros st; [done|]. cbn [foldl].
    destruct (IH (connect_step env st k)) as [-> Hm]. destruct (connect_step_keeps st k) as (-> & _ & Hk).
    split; [done|]. intros j. by rewrite Hm, Hk. }
  match goal with |- context [foldl ?f ?s ?l] => specialize (Hk s); destruct (foldl f s l) as [[[g' a] b] r] end. done.
Qed.

(** A node that misbehaves is cut off, and nothing is sent. *)
Lemma misbehave_cuts g :
  connected (get_node (node_misbehave cbs env g i) i) = false /\ sent (node_misbehave cbs env g i) = sent g.
Proof.
  unfold node_misbehave, node_connection_state_changed. rewrite no_callback.
  set (g1 := update g i _).
  destruct (Nat.lt_ge_cases i (length (nodes g))) as [Hi|Hi].
  2:{ assert (g1 = g) as -> by (unfold g1, update, set_node; rewrite list_insert_ge by done; by destruct g).
      assert (get_node g i = node_new) as E by (unfold get_node; by rewrite nth_overflow).
      assert (has (n_state (get_node g i)) NODE_ERRORED = false) as -> by (by rewrite E). cbv zeta.
      assert (has (n_state (get_node g i)) NODE_MISSBEHAVED = false) as -> by (by rewrite E).
      assert (has (n_state (get_node g i)) NODE_CONNECTED = false) as -> by (by rewrite E).
      cbn [andb]. cbv match. split; [by rewrite E|done]. }
  assert (misbehaved (get_node g1 i) = true) as Hm1.
  { unfold g1. rewrite get_update, Nat.eqb_refl, (proj2 (Nat.ltb_lt _ _)) by done. cbn [andb].
    unfold misbehaved. cbn [n_state with_state]. rewrite has_lor by flag_tac. by rewrite orb_true_r. }
  set (g2 := if has _ NODE_ERRORED then _ else g1).
  assert (misbehaved (get_node g2 i) = true /\ sent g2 = sent g) as [Hm Hs].
  { unfold g2. case_match; [|done]. set (g1' := update g1 i node_release_events).
    assert (misbehaved (get_node g1' i) = true) as Hm1'.
    { unfold g1'. rewrite get_update. by case_match. }
    case_match; [|done]. case_match; [|done]. destruct (connect_keeps g1') as [-> ->]. done. }
  clearbody g2. unfold misbehaved in Hm. cbv zeta. rewrite Hm.
  destruct (has (n_state (get_node g2 i)) NODE_CONNECTED || has (n_state (get_node g2 i)) NODE_CONNECTING) eqn:E.
  - split; [|done]. rewrite get_update, Nat.eqb_refl. cbn [andb].
    destruct (Nat.ltb_spec i (length (nodes g2))).
    + change (f_connected (flags_of (node_disconnect (get_node g2 i))) = false). rewrite flags_disconnect. by destruct (flags_of _).
    + unfold get_node. by rewrite nth_overflow.
  - apply orb_false_iff in E as [E _]. done.
Qed.

(** What is left when the loop ends waits for more. *)
Lemma loop_waits fuel : forall g buf upto g' u,
  read_loop cbs fuel env g i buf upto = Some (ReadEnded g' u) ->
  (u = None -> upto = None) /\ (upto = None \/ upto = Some buf -> front_of (default buf u) = Waiting).
Proof.
  induction fuel as [|fuel IH]; intros g buf upto g' u Hr; [done|]. rewrite read_loop_front in Hr.
  destruct (front_of buf) as [| |hdr p rest] eqn:E; [|done|].
  - injection Hr as _ <-. split; [done|]. by intros [-> | ->].
  - case_match; [done|]. case_match; [done|]. cbv zeta in Hr. destruct rest as [|b rest].
    + injection Hr as _ <-. by split.
    + apply IH in Hr as [Hn Hw]. split; [intros ->; by specialize (Hn eq_refl)|]. intros _.
      specialize (Hw (or_intror eq_refl)). destruct u; [done|]. by specialize (Hn eq_refl).
Qed.

Lemma loop_returned fuel : forall g buf upto g',
  read_loop cbs fuel env g i buf upto = Some (ReadReturned g') -> connected (get_node g' i) = false.
Proof.
  induction fuel as [|fuel IH]; intros g buf upto g' Hr; [done|]. rewrite read_loop_front in Hr.
  destruct (front_of buf) as [| |hdr p rest]; [done|injection Hr as <-; apply misbehave_cuts|].
  destruct (negb (connected _)) eqn:E; [injection Hr as <-; by apply negb_true_iff|].
  case_match; [injection Hr as <-; apply misbehave_cuts|]. cbv zeta in Hr.
  case_match; [done|]. by apply IH in Hr.
Qed.

(** From a node that is not connected, the loop sends nothing and connects nothing. *)
Lemma loop_cut fuel g buf upto r : connected (get_node g i) = false ->
  read_loop cbs fuel env g i buf upto = Some r ->
  connected (get_node (result_group r) i) = false /\ sent (result_group r) = sent g.
Proof.
  intros Hc. destruct fuel as [|fuel]; [done|]. rewrite read_loop_front, Hc.
  destruct (front_of buf) as [| |hdr p rest]; cbn [negb]; intros [= <-]; [done|apply misbehave_cuts|done].
Qed.
End misbehave.

(** *** Theorems on the stream *)

(** C10: it does not matter how the bytes of a peer are cut on their way: as long as the node stays
    connected, handling the pieces as they arrive, with what is incomplete kept for the next one,
    does the same as handling the messages of the whole stream one after the other, and leaves the
    same rest.  The time and the answers of the environment are held fixed. *)
Theorem pieces_do_not_matter {C} (cbs : callbacks C) (env : environment) (i : nat) (g g' : node_group C)
  (recv rest : bytes) (pieces : list bytes)
  (Hh : handles cbs env i g (recv ++ concat pieces) g' rest) (Hw : front_of recv = Waiting)
  (Hc : connected (get_node g' i) = true) :
  feed cbs env i g recv pieces = Some (g', rest).
Proof. by apply feed_handles. Qed.

(** A message with a nonce to be sent back, as a peer sends it to the node of [demo_up]. *)
Definition demo_ping : bytes :=
  default [] (p2p_message_new [Byte.xc0; Byte.xc0; Byte.xc0; Byte.xc0] DOGECOIN_MSG_PING (map byte.of_Z [1; 2; 3; 4; 5; 6; 7; 8])).

Definition demo_cbs : callbacks broadcast_ctx := broadcast_callbacks (demo_env 3).

Definition demo_ponged : broadcast_group :=
  send_message demo_up 0 DOGECOIN_MSG_PONG (map byte.of_Z [1; 2; 3; 4; 5; 6; 7; 8]).

Lemma pieces_do_not_matter_witness :
  let pieces := [take 3 (drop 2 demo_ping); drop 5 demo_ping ++ [Byte.xc0]] in
  connected (get_node demo_ponged 0) = true /\
  feed demo_cbs (demo_env 3) 0 demo_up (take 2 demo_ping) pieces = Some (demo_ponged, [Byte.xc0]).
Proof.
  cbv zeta. split; [vm_compute; reflexivity|].
  apply (pieces_do_not_matter demo_cbs (demo_env 3) 0 demo_up demo_ponged (take 2 demo_ping) [Byte.xc0]).
  - eapply handles_message with
      (hdr := mk_msg_hdr [Byte.xc0; Byte.xc0; Byte.xc0; Byte.xc0] (DOGECOIN_MSG_PING ++ zeros 8) 8
                (take 4 (dogecoin_hash (map byte.of_Z [1; 2; 3; 4; 5; 6; 7; 8]))))
      (p := map byte.of_Z [1; 2; 3; 4; 5; 6; 7; 8]) (s' := [Byte.xc0]); [vm_compute; reflexivity|vm_compute; reflexivity|
      vm_compute; reflexivity|].
    assert (forall g s g' r, g = g' -> s = r -> front_of s = Waiting -> handles demo_cbs (demo_env 3) 0 g s g' r) as Hd.
    { intros g s g' r -> -> H. by constructor. }
    apply Hd; [vm_compute; reflexivity|reflexivity|vm_compute; reflexivity].
  - vm_compute. reflexivity.
  - vm_compute. reflexivity.
Defined.

(** C11: [read_cb] always returns, whatever has been received, and leaves nothing behind that
    could be handled: if the node is still connected, what is kept is not a whole message, nor the
    front of one that is too long.  (Of programs without a callback for changes of state.) *)
Theorem read_leaves_nothing {C} (cbs : callbacks C) (env : environment) (i : nat) (g : node_group C)
  (recv input : bytes) (Hn : node_connection_state_changed_cb cbs = None) :
  exists g' rest, read_cb cbs env g i recv input = Some (g', rest) /\
    (connected (get_node g' i) = true -> front_of rest = Waiting).
Proof.
  unfold read_cb. destruct (has (n_state (get_node g i)) NODE_CONNECTED) eqn:E; cbn [negb].
  2:{ exists g, recv. split; [done|]. intros H. unfold connected in H. congruence. }
  destruct (read_loop cbs _ env g i (recv ++ input) None) as [r|] eqn:Hr; [|by apply read_loop_total in Hr; [|lia]].
  cbn [mbind option_bind]. destruct r as [g'|g' u].
  - exists g', (recv ++ input). split; [done|]. apply loop_returned in Hr; [congruence|done].
  - exists g', (default (recv ++ input) u). split; [done|]. intros _. apply loop_waits in Hr as [_ Hw]. apply Hw. by left.
Qed.

Lemma read_leaves_nothing_witness :
  exists g' rest, read_cb demo_cbs (demo_env 3) demo_up 0 [] (demo_ping ++ take 7 demo_ping) = Some (g', rest) /\
    (connected (get_node g' 0) = true -> front_of rest = Waiting).
Proof. apply (read_leaves_nothing demo_cbs (demo_env 3) 0 demo_up); reflexivity. Defined.



(** ** Lists of addresses *)

(** An address as it is written in a list. *)
Definition address_text (a : bytes) : Prop :=
  Forall (fun b => b <> byte_zero /\ b <> Byte.x2c /\ b <> Byte.x20) a /\ (length a < 64)%nat.

Lemma byte_eqb_ne a b : a <> b -> byte_eqb a b = false.
Proof. intros H. apply not_true_iff_false. intros E. by apply H, Byte.byte_dec_bl. Qed.

(** The characters of an address go to the working string. *)
Lemma add_peers_text parse {C} (g : node_group C) a : forall pre ips,
  Forall (fun b => b <> byte_zero /\ b <> Byte.x2c /\ b <> Byte.x20) a -> (length pre + length a < 64)%nat ->
  add_peers_loop parse g (pre ++ zeros (64 - length pre)) (length pre) (a ++ ips) =
  add_peers_loop parse g ((pre ++ a) ++ zeros (64 - length (pre ++ a))) (length (pre ++ a)) ips.
Proof.
  induction a as [|c a IH]; intros pre ips Ha Hl; [by rewrite !app_nil_r|].
  inversion Ha as [|? ? (H0 & H1 & H2) Ha']; subst. cbn [app add_peers_loop length] in *.
  rewrite !byte_eqb_ne by done. rewrite (proj2 (Nat.ltb_lt _ _)) by lia. cbn [negb andb].
  assert (<[length pre := c]> (pre ++ zeros (64 - length pre)) = (pre ++ [c]) ++ zeros (64 - length (pre ++ [c]))) as ->.
  { rewrite length_app. cbn [length]. destruct (64 - length pre)%nat as [|n] eqn:En; [lia|].
    rewrite insert_app_r_alt, Nat.sub_diag by lia. replace (64 - (length pre + 1))%nat with n by lia.
    cbn [zeros replicate]. by rewrite <- app_assoc. }
  replace (S (length pre)) with (length (pre ++ [c])) by (rewrite length_app; cbn; lia).
  rewrite IH; [|done|rewrite length_app; cbn; lia]. by rewrite <- !app_assoc.
Qed.

Lemma add_peer_text parse {C} (g : node_group C) a : address_text a ->
  add_peer parse g (a ++ zeros (64 - length a)) =
  Some (match parse a with Some addr => node_group_add_node g (with_addr node_new addr) | None => g end).
Proof.
  intros [Ha Hl]. unfold add_peer. rewrite existsb_nul by lia. cbn [negb].
  destruct (64 - length a)%nat as [|n] eqn:En; [lia|]. cbn [zeros replicate].
  rewrite strnlen_nul_free; [|eapply Forall_impl; [exact Ha|intros b (Hb & _ & _); exact Hb]|lia].
  rewrite take_app_length. unfold node_set_ipport. by destruct (parse a).
Qed.

(** The addresses of a list, separated by commas and of at most 63 characters each, become
    nodes of the group, in their order, without those that are no addresses; the result says
    whether there was one. *)
Theorem add_peers_by_list (parse : bytes -> option sockaddr) {C} (g : node_group C) (a : bytes) (l : list bytes)
  (Ha : address_text a) (Hl : Forall address_text l) :
  let added := map (with_addr node_new) (omap parse (a :: l)) in
  node_group_add_peers_by_ip parse g (a ++ concat (map (cons Byte.x2c) l)) =
  Some (negb (length added =? 0)%nat, with_nodes g (nodes g ++ added)).
Proof.
  cbv zeta.
  assert (forall l (g : node_group C) a, address_text a -> Forall address_text l ->
    add_peers_loop parse g (zeros 64) 0 (a ++ concat (map (cons Byte.x2c) l)) =
    Some (with_nodes g (nodes g ++ map (with_addr node_new) (omap parse (a :: l))))) as H.
  { clear. intros l. induction l as [|b l IH]; intros g a Ha Hl.
    - cbn [map concat]. pose proof (add_peers_text parse g a [] [] (proj1 Ha) (proj2 Ha)) as E. cbn [app length Nat.sub] in E.
      rewrite E. cbn [add_peers_loop]. rewrite add_peer_text by done. cbn [omap list_omap].
      destruct (parse a); [done|]. cbn [map]. rewrite app_nil_r. by destruct g.
    - cbn [map concat]. pose proof (add_peers_text parse g a [] (Byte.x2c :: b ++ concat (map (cons Byte.x2c) l)) (proj1 Ha) (proj2 Ha)) as E.
      cbn [app length Nat.sub] in E. cbn [app]. rewrite E. cbn [add_peers_loop]. change (byte_eqb Byte.x2c Byte.x2c) with true. cbv match.
      rewrite add_peer_text by done. cbn [mbind option_bind]. inversion Hl; subst. rewrite IH by done.
      cbn [omap list_omap]. destruct (parse a); [|done]. cbn [map nodes node_group_add_node with_nodes].
      by rewrite <- app_assoc. }
  unfold node_group_add_peers_by_ip. rewrite H by done. cbn [mbind option_bind].
  set (added := map _ _). clearbody added. cbn [nodes with_nodes]. rewrite length_app. do 2 f_equal.
  destruct (Nat.eqb_spec (length added) 0), (Nat.ltb_spec (length (nodes g)) (length (nodes g) + length added)); done || lia.
Qed.

Lemma add_peers_by_list_witness :
  let parse a := if (length a =? 2)%nat then Some (mk_sockaddr 2 0 a (zeros 16)) else None in
  node_group_add_peers_by_ip parse (group_new tt []) [Byte.x31; Byte.x32; Byte.x2c; Byte.x33; Byte.x2c; Byte.x34; Byte.x35] =
  Some (true, with_nodes (group_new tt [])
    [with_addr node_new (mk_sockaddr 2 0 [Byte.x31; Byte.x32] (zeros 16)); with_addr node_new (mk_sockaddr 2 0 [Byte.x34; Byte.x35] (zeros 16))]).
Proof.
  intros parse.
  apply (add_peers_by_list parse (group_new tt []) [Byte.x31; Byte.x32] [[Byte.x33]; [Byte.x34; Byte.x35]]);
    repeat constructor; done || (cbn; lia).
Defined.
