(* ===== verification/Chacha20.v ===== *)
(** * The stream cipher ([src/src/chacha20.c], [src/include/dogecoin/chacha20.h])

    ChaCha20 as a source of bytes: the state of sixteen words with its counter, the blocks and
    the loop that gives them out.  The record of function pointers is left out. *)

From S2P Require Import Prelude Words.

Local Open Scope Z_scope.

(** [input], sixteen words. *)
Definition state : Type := list Z.

Definition rotl32 (v c : Z) : Z := Z.lor (u32 (Z.shiftl v c)) (Z.shiftr v (32 - c)).

Definition word (x : state) (i : nat) : Z := nth i x 0.

(** [x += y; z = rotl32(z ^ x, c)] *)
Definition add_rotl (s : state) (x y z : nat) (c : Z) : state :=
  let s := <[x := u32 (word s x + word s y)]> s in
  <[z := rotl32 (Z.lxor (word s z) (word s x)) c]> s.

Definition QUARTERROUND (s : state) (a b c d : nat) : state :=
  let s := add_rotl s a b d 16 in
  let s := add_rotl s c d b 12 in
  let s := add_rotl s a b d 8 in
  add_rotl s c d b 7.

(** "expand 32-byte k" and "expand 16-byte k" *)
Definition sigma : bytes := map byte.of_Z [101; 120; 112; 97; 110; 100; 32; 51; 50; 45; 98; 121; 116; 101; 32; 107].
Definition tau : bytes := map byte.of_Z [101; 120; 112; 97; 110; 100; 32; 49; 54; 45; 98; 121; 116; 101; 32; 107].

Definition read_le32 (p : bytes) : Z := le_dec (take 4 p).
Definition write_le32 (x : Z) : bytes := le_enc 4 x.

Definition chacha20_new : state := replicate 16 0.

(** [keylen] only decides between 32 and anything else, where the key is taken to have 16
    bytes. *)
Definition chacha20_set_key (k : bytes) (keylen : Z) : state :=
  let lo := map (fun i => read_le32 (drop (4 * i) k)) (seq 0 4) in
  let '(k, constants) := if keylen =? 32 then (drop 16 k, sigma) else (k, tau) in
  let hi := map (fun i => read_le32 (drop (4 * i) k)) (seq 0 4) in
  map (fun i => read_le32 (drop (4 * i) constants)) (seq 0 4) ++ lo ++ hi ++ [0; 0; 0; 0].

Definition chacha20_init (k : bytes) (keylen : Z) : state := chacha20_set_key k keylen.

Definition chacha20_set_iv (s : state) (iv : Z) : state := <[15%nat := u32 (Z.shiftr iv 32)]> (<[14%nat := u32 iv]> s).

Definition chacha20_seek (s : state) (pos : Z) : state := <[13%nat := u32 (Z.shiftr pos 32)]> (<[12%nat := u32 pos]> s).

(** Two of the twenty rounds. *)
Definition double_round (x : state) : state :=
  let x := QUARTERROUND x 0 4 8 12 in
  let x := QUARTERROUND x 1 5 9 13 in
  let x := QUARTERROUND x 2 6 10 14 in
  let x := QUARTERROUND x 3 7 11 15 in
  let x := QUARTERROUND x 0 5 10 15 in
  let x := QUARTERROUND x 1 6 11 12 in
  let x := QUARTERROUND x 2 7 8 13 in
  QUARTERROUND x 3 4 9 14.

(** One block from the words [j]. *)
Definition output_block (j : state) : bytes :=
  let x := Nat.iter 10 double_round j in
  concat (map write_le32 (zip_with (fun x j => u32 (x + j)) x j)).

(** [++j12; if (!j12) ++j13;] *)
Definition next_counter (j : state) : state :=
  let j := <[12%nat := u32 (word j 12 + 1)]> j in
  if word j 12 =? 0 then <[13%nat := u32 (word j 13 + 1)]> j else j.

(** The loop; a last block of less than 64 bytes goes through [tmp].  [None]: the fuel is spent. *)
Fixpoint output_loop (fuel : nat) (j : state) (c : bytes) (bytes : Z) : option (Prelude.bytes * state) :=
  match fuel with
  | O => None
  | S fuel =>
      let block := output_block j in
      let j := next_counter j in
      if bytes <=? 64 then Some (c ++ take (Z.to_nat bytes) block, j)
      else output_loop fuel j (c ++ block) (bytes - 64)
  end.

(** What is written, and the new state. *)
Definition chacha20_output (s : state) (n : Z) : option (bytes * state) :=
  if n =? 0 then Some ([], s) else output_loop (S (Z.to_nat (n / 64))) s [] n.

(** ** The cipher as it is defined *)

(** A quarter round on four words. *)
Definition qr (a b c d : Z) : Z * Z * Z * Z :=
  let a := u32 (a + b) in let d := rotl32 (Z.lxor d a) 16 in
  let c := u32 (c + d) in let b := rotl32 (Z.lxor b c) 12 in
  let a := u32 (a + b) in let d := rotl32 (Z.lxor d a) 8 in
  let c := u32 (c + d) in let b := rotl32 (Z.lxor b c) 7 in
  (a, b, c, d).

(** The sixteen words as four rows: quarter rounds on the columns, then the rows are rotated by
    0, 1, 2 and 3 places, so that the diagonals become columns. *)
Definition rows (x : list Z) : list (list Z) := [take 4 x; take 4 (drop 4 x); take 4 (drop 8 x); take 4 (drop 12 x)].

Definition columns_round (m : list (list Z)) : list (list Z) :=
  match m with
  | [a; b; c; d] =>
      let q := zip_with (fun ab cd => qr ab.1 ab.2 cd.1 cd.2) (zip a b) (zip c d) in
      [map (fun t => t.1.1.1) q; map (fun t => t.1.1.2) q; map (fun t => t.1.2) q; map (fun t => t.2) q]
  | _ => m
  end.

Definition rotate_row (k : nat) (r : list Z) : list Z := drop k r ++ take k r.
Definition diagonalise (m : list (list Z)) : list (list Z) := imap rotate_row m.
Definition undiagonalise (m : list (list Z)) : list (list Z) := imap (fun k => rotate_row ((4 - k) mod 4)) m.

Definition chacha_rounds (m : list (list Z)) : list (list Z) :=
  Nat.iter 10 (fun m => undiagonalise (columns_round (diagonalise (columns_round m)))) m.

(** The words of the state for a key, an initial value and a block number. *)
Definition words (b : bytes) : list Z := map (fun i => le_dec (take 4 (drop (4 * i) b))) (seq 0 (length b / 4)).

Definition chacha_state (key : bytes) (iv pos : Z) : list Z :=
  words (if (length key =? 32)%nat then sigma ++ key else tau ++ key ++ key) ++ words (le_enc 8 pos ++ le_enc 8 iv).

Definition chacha_block (key : bytes) (iv pos : Z) : bytes :=
  let s := chacha_state key iv pos in
  concat (map (le_enc 4) (zip_with (fun x y => u32 (x + y)) (concat (chacha_rounds (rows s))) s)).

(** The bytes from block [pos] on; the number of a block wraps around at [2^64]. *)
Definition keystream (key : bytes) (iv pos : Z) (blocks : nat) : bytes :=
  concat (map (fun i => chacha_block key iv (u64 (pos + Z.of_nat i))) (seq 0 blocks)).

(** ** Equivalence *)

Lemma sixteen_words (x : list Z) : length x = 16%nat ->
  exists a b c d e f g h i j k l m n o p, x = [a; b; c; d; e; f; g; h; i; j; k; l; m; n; o; p].
Proof.
  intros H. do 16 (destruct x as [|? x]; [done|]). destruct x; [|done]. by do 16 eexists.
Qed.

(** On a word it is the rotation. *)
Lemma rotl32_is_rotation v c : urange 32 v -> 0 < c < 32 -> rotl32 v c = v * 2 ^ c mod 2 ^ 32 + v / 2 ^ (32 - c).
Proof.
  unfold urange. intros Hv Hc. unfold rotl32, wrap.
  assert (2 ^ 32 = 2 ^ c * 2 ^ (32 - c)) as E by (rewrite <- Z.pow_add_r by lia; f_equal; lia).
  rewrite Z.shiftl_mul_pow2, Z.shiftr_div_pow2 by lia. rewrite (lor_disjoint _ _ c); [done|lia| |].
  - rewrite E, (Z.mul_comm v), Z.mul_mod_distr_l by lia. apply Z.divide_factor_l.
  - split; [apply Z.div_pos; lia|]. apply Z.div_lt_upper_bound; lia.
Qed.

Lemma double_round_rows x : length x = 16%nat ->
  rows (double_round x) = undiagonalise (columns_round (diagonalise (columns_round (rows x)))) /\
  length (double_round x) = 16%nat.
Proof.
  intros H. destruct (sixteen_words x H) as (a & b & c & d & e & f & g & h & i & j & k & l & m & n & o & p & ->).
  clear H. split; [|reflexivity].
  cbv -[wrap Z.lxor rotl32 Z.add]. reflexivity.
Qed.

Lemma rows_concat x : length x = 16%nat -> concat (rows x) = x.
Proof.
  intros H. destruct (sixteen_words x H) as (a & b & c & d & e & f & g & h & i & j & k & l & m & n & o & p & ->). done.
Qed.

Lemma rounds_rows n x : length x = 16%nat ->
  rows (Nat.iter n double_round x) = Nat.iter n (fun m => undiagonalise (columns_round (diagonalise (columns_round m)))) (rows x) /\
  length (Nat.iter n double_round x) = 16%nat.
Proof.
  intros Hx. induction n as [|n [IH IHl]]; [done|]. rewrite !Nat.iter_succ.
  destruct (double_round_rows _ IHl) as [-> Hl]. by rewrite IH.
Qed.

Lemma output_block_spec x : length x = 16%nat ->
  output_block x = concat (map (le_enc 4) (zip_with (fun x y => u32 (x + y)) (concat (chacha_rounds (rows x))) x)).
Proof.
  intros Hx. destruct (rounds_rows 10 x Hx) as [Hr Hl]. unfold output_block, chacha_rounds. rewrite <- Hr, rows_concat by done. done.
Qed.

Lemma length_output_block x : length x = 16%nat -> length (output_block x) = 64%nat.
Proof.
  intros Hx. destruct (rounds_rows 10 x Hx) as [_ Hl]. unfold output_block.
  rewrite (length_concat_const 4); [rewrite length_map, length_zip_with; lia|].
  intros b (z & <- & _)%list_elem_of_In%in_map_iff. apply le_enc_length.
Qed.

(** *** The state *)

Definition key_ok (key : bytes) : Prop := length key = 32%nat \/ length key = 16%nat.

Lemma words_counters pos iv :
  words (le_enc 8 pos ++ le_enc 8 iv) = [u32 pos; u32 (Z.shiftr pos 32); u32 iv; u32 (Z.shiftr iv 32)].
Proof.
  rewrite !(le_enc_add 4 4). change (8 * Z.of_nat 4) with 32.
  assert (forall z, u32 z = le_dec (le_enc 4 z)) as E by (intros z; symmetry; apply (le_dec_enc 4)).
  by rewrite !E.
Qed.

Lemma length_words b : length (words b) = (length b / 4)%nat.
Proof. unfold words. by rewrite length_map, length_seq. Qed.

Lemma state_spec key iv pos : key_ok key ->
  chacha20_seek (chacha20_set_iv (chacha20_set_key key (Z.of_nat (length key))) iv) pos = chacha_state key iv pos.
Proof.
  intros Hk. unfold chacha_state. rewrite words_counters. unfold chacha20_set_key, words. destruct Hk as [Hk|Hk]; rewrite Hk.
  - change (32 =? 32)%nat with true. cbv match. rewrite length_app, Hk. do 32 (destruct key as [|? key]; [done|]). destruct key; [|done]. reflexivity.
  - change (16 =? 32)%nat with false. cbv match. rewrite !length_app, Hk. do 16 (destruct key as [|? key]; [done|]). destruct key; [|done]. reflexivity.
Qed.

Lemma length_state key iv pos : key_ok key -> length (chacha_state key iv pos) = 16%nat.
Proof.
  intros Hk. unfold chacha_state. rewrite words_counters, length_app, length_words.
  destruct Hk as [Hk|Hk]; rewrite Hk; cbn [Nat.eqb]; rewrite !length_app, Hk; done.
Qed.

Lemma counter_up pos : urange 64 pos ->
  let lo := u32 (u32 pos + 1) in
  u32 (u64 (pos + 1)) = lo /\
  u32 (Z.shiftr (u64 (pos + 1)) 32) = if lo =? 0 then u32 (u32 (Z.shiftr pos 32) + 1) else u32 (Z.shiftr pos 32).
Proof.
  intros Hp. cbv zeta. unfold urange in Hp. rewrite wrap_add_l. split; [by rewrite wrap_wrap by lia|].
  rewrite !Z.shiftr_div_pow2 by lia. rewrite wrap_add_l. unfold wrap.
  pose proof (Z.div_mod pos (2 ^ 32) ltac:(lia)) as E. pose proof (Z.mod_pos_bound pos (2 ^ 32) ltac:(lia)) as Hm.
  set (q := pos / 2 ^ 32) in *. set (r := pos mod 2 ^ 32) in *.
  assert (0 <= q < 2 ^ 32) as Hq by (subst q; split; [apply Z.div_pos; lia|apply Z.div_lt_upper_bound; lia]).
  clearbody q r. subst pos. destruct (Z.eq_dec r (2 ^ 32 - 1)) as [-> |Hr].
  - replace (2 ^ 32 * q + (2 ^ 32 - 1) + 1) with ((q + 1) * 2 ^ 32) by lia.
    rewrite Z.mod_mul by lia. cbn [Z.eqb]. change (2 ^ 64) with (2 ^ 32 * 2 ^ 32).
    rewrite Z.mul_mod_distr_r, Z.div_mul, Z.mod_mod by lia. done.
  - replace ((2 ^ 32 * q + r + 1) mod 2 ^ 32) with (r + 1).
    2:{ symmetry. replace (2 ^ 32 * q + r + 1) with (r + 1 + q * 2 ^ 32) by lia. rewrite Z.mod_add by lia. apply Z.mod_small. lia. }
    rewrite (proj2 (Z.eqb_neq (r + 1) 0)) by lia. rewrite (Z.mod_small _ (2 ^ 64)) by lia.
    replace (2 ^ 32 * q + r + 1) with (r + 1 + q * 2 ^ 32) by lia. rewrite Z.div_add by lia.
    rewrite (Z.div_small (r + 1)) by lia. done.
Qed.

Lemma next_counter_spec key iv pos : key_ok key -> urange 64 pos ->
  next_counter (chacha_state key iv pos) = chacha_state key iv (u64 (pos + 1)).
Proof.
  intros Hk Hp. destruct (counter_up pos Hp) as [Hlo Hhi]. unfold chacha_state. rewrite !words_counters.
  set (front := words _). rewrite Hlo, Hhi.
  assert (length front = 12%nat) as Hf.
  { unfold front. rewrite length_words. destruct Hk as [Hk|Hk]; rewrite Hk; cbn [Nat.eqb]; rewrite !length_app, Hk; done. }
  clearbody front. clear Hlo Hhi. do 12 (destruct front as [|? front]; [done|]). destruct front; [|done].
  unfold next_counter. cbn [app insert list_insert word nth]. by case_match.
Qed.

Lemma keystream_S key iv pos n : urange 64 pos ->
  keystream key iv pos (S n) = chacha_block key iv pos ++ keystream key iv (u64 (pos + 1)) n.
Proof.
  intros Hp. unfold keystream. cbn [seq map concat]. rewrite Z.add_0_r, (wrap_small 64 pos) by done. f_equal. f_equal.
  rewrite <- seq_shift, map_map. apply map_ext. intros i. rewrite wrap_add_l. do 2 f_equal. lia.
Qed.

(** The number of blocks for [n] bytes. *)
Definition blocks (n : Z) : Z := (n + 63) / 64.

Lemma output_block_state key iv pos : key_ok key -> output_block (chacha_state key iv pos) = chacha_block key iv pos.
Proof. intros Hk. apply output_block_spec. by apply length_state. Qed.

Lemma output_loop_spec key iv fuel : key_ok key -> forall pos c n, urange 64 pos -> 0 < n -> n / 64 < Z.of_nat fuel ->
  output_loop fuel (chacha_state key iv pos) c n =
  Some (c ++ take (Z.to_nat n) (keystream key iv pos (Z.to_nat (blocks n))), chacha_state key iv (u64 (pos + blocks n))).
Proof.
  intros Hk. unfold blocks. induction fuel as [|fuel IH]; intros pos c n Hp Hn Hf.
  { pose proof (Z.div_pos n 64). lia. }
  cbn [output_loop]. rewrite output_block_state, next_counter_spec by done.
  destruct (Z.leb_spec n 64).
  - replace ((n + 63) / 64) with 1 by (apply (Z.div_unique _ _ _ (n - 1)); lia). change (Z.to_nat 1) with 1%nat.
    rewrite keystream_S by done. unfold keystream at 1. cbn [seq map concat]. by rewrite app_nil_r.
  - assert ((n + 63) / 64 = (n - 64 + 63) / 64 + 1) as E.
    { replace (n + 63) with (n - 64 + 63 + 1 * 64) by lia. by rewrite Z.div_add by lia. }
    pose proof (Z.div_pos (n - 64 + 63) 64 ltac:(lia) ltac:(lia)).
    rewrite IH; [|apply wrap_range; lia|lia|].
    2:{ replace (n - 64) with (n + -1 * 64) by lia. rewrite Z.div_add by lia. lia. }
    rewrite E, wrap_add_l. replace (Z.to_nat ((n - 64 + 63) / 64 + 1)) with (S (Z.to_nat ((n - 64 + 63) / 64))) by lia.
    rewrite keystream_S by done. rewrite <- app_assoc. f_equal. f_equal; [|f_equal; f_equal; lia].
    f_equal. rewrite take_app. f_equal.
    + rewrite take_ge; [done|]. rewrite <- output_block_state, length_output_block by (done || by apply length_state). lia.
    + f_equal. rewrite <- output_block_state, length_output_block by (done || by apply length_state). lia.
Qed.

(** C24: the cipher is ChaCha20 with a counter and an initial value of 64 bits: after
    [chacha20_set_key], [chacha20_set_iv] and [chacha20_seek], [chacha20_output] gives the bytes of
    the blocks from the given one on, each the sum of its sixteen words and what ten rounds over the
    columns and the diagonals make of them, and stands at the block behind those it has touched. *)
Theorem chacha20_correct (key : bytes) (iv pos n : Z) (Hk : key_ok key) (Hp : urange 64 pos) (Hn : 0 <= n) :
  chacha20_output (chacha20_seek (chacha20_set_iv (chacha20_set_key key (Z.of_nat (length key))) iv) pos) n =
  Some (take (Z.to_nat n) (keystream key iv pos (Z.to_nat (blocks n))),
        chacha20_seek (chacha20_set_iv (chacha20_set_key key (Z.of_nat (length key))) iv) (u64 (pos + blocks n))).
Proof.
  rewrite !state_spec by done. unfold chacha20_output. destruct (Z.eqb_spec n 0) as [-> |].
  - cbn. by rewrite Z.add_0_r, wrap_small.
  - apply output_loop_spec; try done; lia.
Qed.

(** The first block of the vectors of the program's tests, for the key 0, 1, ..., 31. *)
Definition demo_key : bytes := map (fun i => byte.of_Z (Z.of_nat i)) (seq 0 32).

Lemma chacha20_correct_witness :
  chacha20_output (chacha20_seek (chacha20_set_iv (chacha20_set_key demo_key 32) 0x4a000000) 1) 70 =
  Some (take 70 (keystream demo_key 0x4a000000 1 2), chacha20_seek (chacha20_set_iv (chacha20_set_key demo_key 32) 0x4a000000) 3) /\
  map byte.unsigned (take 8 (keystream demo_key 0x4a000000 1 2)) = [0x22; 0x4f; 0x51; 0xf3; 0x40; 0x1b; 0xd9; 0xe1].
Proof.
  split; [|vm_compute; reflexivity].
  apply (chacha20_correct demo_key 0x4a000000 1 70); [by left|unfold urange; lia|lia].
Defined.

Lemma map_seq_shift {A} (f : nat -> A) m n : map f (seq m n) = map (fun i => f (m + i)%nat) (seq 0 n).
Proof. induction n as [|n IH]; [done|]. by rewrite !seq_S, !map_app, IH. Qed.

Lemma keystream_app key iv pos m n :
  keystream key iv pos (m + n) = keystream key iv pos m ++ keystream key iv (u64 (pos + Z.of_nat m)) n.
Proof.
  unfold keystream. rewrite seq_app, map_app, concat_app. f_equal. f_equal. rewrite map_seq_shift.
  apply map_ext. intros i. rewrite wrap_add_l. do 2 f_equal. lia.
Qed.

Lemma length_keystream key iv pos m : key_ok key -> length (keystream key iv pos m) = (64 * m)%nat.
Proof.
  intros Hk. unfold keystream. rewrite (length_concat_const 64); [by rewrite length_map, length_seq; lia|].
  intros b (z & <- & _)%list_elem_of_In%in_map_iff. rewrite <- output_block_state, length_output_block by (done || by apply length_state).
  done.
Qed.

(** The bytes may be asked for in pieces: after whole blocks, what comes next is what would
    have come in one piece, and the state is the same; the rest of a block that was begun is lost. *)
Theorem chacha20_pieces (key : bytes) (iv pos m n : Z) (Hk : key_ok key) (Hp : urange 64 pos)
  (Hm : 0 <= m) (Hd : (64 | m)) (Hn : 0 <= n) :
  let s := chacha20_seek (chacha20_set_iv (chacha20_set_key key (Z.of_nat (length key))) iv) pos in
  exists a s1 b s2, chacha20_output s m = Some (a, s1) /\ chacha20_output s1 n = Some (b, s2) /\
    chacha20_output s (m + n) = Some (a ++ b, s2).
Proof.
  destruct Hd as [k ->]. assert (blocks (k * 64) = k) as Eb by (unfold blocks; symmetry; apply (Z.div_unique _ _ _ 63); lia).
  assert (blocks (k * 64 + n) = k + blocks n) as Ebn.
  { unfold blocks. replace (k * 64 + n + 63) with (n + 63 + k * 64) by lia. rewrite Z.div_add by lia. lia. }
  pose proof (Z.div_pos (n + 63) 64 ltac:(lia) ltac:(lia)) as Hb. change (0 <= blocks n) in Hb.
  assert (urange 64 (u64 (pos + k))) as Hp' by (apply wrap_range; lia).
  eexists _, _, _, _. split; [by rewrite chacha20_correct by (done || lia)|]. rewrite Eb.
  split; [by rewrite chacha20_correct by (done || lia)|]. rewrite chacha20_correct by (done || lia). rewrite Ebn, wrap_add_l.
  do 2 f_equal; [|f_equal; f_equal; lia].
  replace (Z.to_nat (k + blocks n)) with (Z.to_nat k + Z.to_nat (blocks n))%nat by lia.
  rewrite keystream_app, take_app, Z2Nat.id, length_keystream by (done || lia).
  f_equal; [rewrite !take_ge by (rewrite length_keystream by done; lia); done|]. f_equal. lia.
Qed.

Lemma chacha20_pieces_witness :
  let s := chacha20_seek (chacha20_set_iv (chacha20_set_key demo_key (Z.of_nat (length demo_key))) 7) (2 ^ 32 - 1) in
  exists a s1 b s2, chacha20_output s 64 = Some (a, s1) /\ chacha20_output s1 70 = Some (b, s2) /\
    chacha20_output s (64 + 70) = Some (a ++ b, s2).
Proof.
  apply (chacha20_pieces demo_key 7 (2 ^ 32 - 1) 64 70); [by left|unfold urange; lia|lia|by exists 1|lia].
Defined.
