(* ===== verification/FilterHeaders.v ===== *)
(** * Filter headers ([src/src/compact_filter.c], [src/src/cfheadersdb_file.c])

    The messages of BIP 157, the state of the client, headers of filters and their checkpoints,
    and the two files: filter headers, and filters.  Vectors are lists; writing to a file
    succeeds; the tables of checkpoints are a parameter. *)

From Stdlib Require Import Sorted.
From S2P Require Import Prelude Serialize Sha2Stream Sha256 Block Utils Golomb.

Local Open Scope Z_scope.

Definition MAX_GETCFHEADERS_SIZE : Z := 2000.
Definition CFCHECKPT_INTERVAL : Z := 1000.

(** ** Messages *)

(** [getcfilters] and [getcfheaders] have the same fields. *)
Record getcfilters_msg := mk_getcfilters { gf_type : Z; gf_start : Z; gf_stop : bytes }.
Record getcfcheckpt_msg := mk_getcfcheckpt { gc_type : Z; gc_stop : bytes }.
Record cfilter_msg := mk_cfilter { cf_type : Z; cf_block : bytes; cf_data : option bytes }.
Record cfheaders_msg := mk_cfheaders { ch_type : Z; ch_stop : bytes; ch_prev : bytes; ch_hashes : option (list bytes) }.
Record cfcheckpt_msg := mk_cfcheckpt { cc_type : Z; cc_stop : bytes; cc_headers : option (list bytes) }.

Definition p2p_msg_getcfilters_ser (out : bytes) (msg : getcfilters_msg) : bytes :=
  let out := ser_bytes out [byte.of_Z (gf_type msg)] in
  let out := ser_u32 out (gf_start msg) in
  ser_u256 out (gf_stop msg).

Definition p2p_msg_getcfheaders_ser (out : bytes) (msg : getcfilters_msg) : bytes :=
  let out := ser_bytes out [byte.of_Z (gf_type msg)] in
  let out := ser_u32 out (gf_start msg) in
  ser_u256 out (gf_stop msg).

Definition p2p_msg_getcfcheckpt_ser (out : bytes) (msg : getcfcheckpt_msg) : bytes :=
  let out := ser_bytes out [byte.of_Z (gc_type msg)] in
  ser_u256 out (gc_stop msg).

Definition deser_type : deser Z := b ← deser_bytes 1; mret (le_dec b).

Definition p2p_msg_cfilter_deser : deser cfilter_msg :=
  type ← deser_type;
  block ← deser_u256;
  filter_len ← deser_varlen;
  data ← deser_bytes filter_len;
  mret (mk_cfilter type block (Some data)).

Definition p2p_msg_cfheaders_deser : deser cfheaders_msg :=
  type ← deser_type;
  stop ← deser_u256;
  prev ← deser_u256;
  n_hashes ← deser_varlen;
  len ← deser_remaining;
  _ ← deser_guard (negb (len / 32 <? n_hashes));
  _ ← deser_guard (negb (MAX_GETCFHEADERS_SIZE <? n_hashes));
  l ← deser_times (Z.to_nat n_hashes) deser_u256;
  mret (mk_cfheaders type stop prev (Some l)).

Definition p2p_msg_cfcheckpt_deser : deser cfcheckpt_msg :=
  type ← deser_type;
  stop ← deser_u256;
  n_headers ← deser_varlen;
  len ← deser_remaining;
  _ ← deser_guard (negb (len / 32 <? n_headers));
  l ← deser_times (Z.to_nat n_headers) deser_u256;
  mret (mk_cfcheckpt type stop (Some l)).

Definition cfilter_msg_init : cfilter_msg := mk_cfilter GCS_BASIC_FILTER_TYPE (zeros 32) None.
Definition cfheaders_msg_init : cfheaders_msg := mk_cfheaders GCS_BASIC_FILTER_TYPE (zeros 32) (zeros 32) None.
Definition cfcheckpt_msg_init : cfcheckpt_msg := mk_cfcheckpt GCS_BASIC_FILTER_TYPE (zeros 32) None.

(** ** The state of the client *)

Record par_buf := mk_par_buf {
  node_id : Z; batch_start : Z; batch_end : Z; records : option (list (bytes * option bytes)); received : Z; complete : bool; assign_time : Z }.

Record filter_state := mk_filter_state {
  enabled : bool; filter_type : Z; cfheaders_tip_height : Z; cfheaders_tip_hash : bytes;
  filter_headers : list bytes; checkpoints : list bytes; cfheaders_base_height : Z; filters_tip_height : Z; cfilter_batch_end : Z;
  pending_start_height : Z; pending_stop_hash : bytes; awaiting_response : bool; last_request_time : Z; genesis_filter_header : bytes;
  watched_scripts : list bytes; matched_block_hashes : list bytes; matched_block_heights : list Z; matched_blocks_fetched : Z;
  cf_block_fetch_active : bool;
  par_num_workers : Z; par_next_height : Z; par_flush_height : Z; par_bufs : option (list par_buf);
  cfh_par_n : Z; cfh_par_done : Z; cfh_par_data : option bytes; cfh_par_base : Z; cfh_par_total : Z; cfh_par_chunks : bool;
  filter_headers_flat : option bytes; filter_headers_flat_base : Z; filter_headers_flat_len : Z; rescan_done : bool; cf_scan_start_height : Z }.

Definition compact_filter_state_new : filter_state := {|
  enabled := false; filter_type := GCS_BASIC_FILTER_TYPE; cfheaders_tip_height := 0; cfheaders_tip_hash := zeros 32;
  filter_headers := []; checkpoints := []; cfheaders_base_height := 1; filters_tip_height := 0; cfilter_batch_end := 0;
  pending_start_height := 0; pending_stop_hash := zeros 32; awaiting_response := false; last_request_time := 0;
  genesis_filter_header := zeros 32; watched_scripts := []; matched_block_hashes := []; matched_block_heights := [];
  matched_blocks_fetched := 0; cf_block_fetch_active := false;
  par_num_workers := 0; par_next_height := 0; par_flush_height := 0; par_bufs := None;
  cfh_par_n := 0; cfh_par_done := 0; cfh_par_data := None; cfh_par_base := 1; cfh_par_total := 0; cfh_par_chunks := false;
  filter_headers_flat := None; filter_headers_flat_base := 1; filter_headers_flat_len := 0; rescan_done := false; cf_scan_start_height := 0 |}.

(** A worker: its records are freed, its range is kept. *)
Definition reset_buf (b : par_buf) : par_buf := mk_par_buf (-1) (batch_start b) (batch_end b) None 0 false (assign_time b).

(** The buffers beyond [par_num_workers] are not looked at. *)
Definition compact_filter_state_reset (s : filter_state) : filter_state := {|
  enabled := enabled s; filter_type := filter_type s; cfheaders_tip_height := 0; cfheaders_tip_hash := zeros 32;
  filter_headers := []; checkpoints := []; cfheaders_base_height := 1; filters_tip_height := 0; cfilter_batch_end := cfilter_batch_end s;
  pending_start_height := 0; pending_stop_hash := zeros 32; awaiting_response := false; last_request_time := 0;
  genesis_filter_header := zeros 32; watched_scripts := watched_scripts s; matched_block_hashes := []; matched_block_heights := [];
  matched_blocks_fetched := 0; cf_block_fetch_active := false;
  par_num_workers := par_num_workers s; par_next_height := 0; par_flush_height := 0;
  par_bufs := (fun l => let n := Z.to_nat (par_num_workers s) in map reset_buf (take n l) ++ drop n l) <$> par_bufs s;
  cfh_par_n := 0; cfh_par_done := 0; cfh_par_data := None; cfh_par_base := cfh_par_base s; cfh_par_total := 0; cfh_par_chunks := false;
  filter_headers_flat := None; filter_headers_flat_base := filter_headers_flat_base s;
  filter_headers_flat_len := (match filter_headers_flat s with Some _ => 0 | None => filter_headers_flat_len s end);
  rescan_done := rescan_done s; cf_scan_start_height := cf_scan_start_height s |}.

Definition with_checkpoints (s : filter_state) (cps : list bytes) : filter_state :=
  mk_filter_state (enabled s) (filter_type s) (cfheaders_tip_height s) (cfheaders_tip_hash s) (filter_headers s) cps
    (cfheaders_base_height s) (filters_tip_height s) (cfilter_batch_end s) (pending_start_height s) (pending_stop_hash s)
    (awaiting_response s) (last_request_time s) (genesis_filter_header s) (watched_scripts s) (matched_block_hashes s)
    (matched_block_heights s) (matched_blocks_fetched s) (cf_block_fetch_active s) (par_num_workers s) (par_next_height s)
    (par_flush_height s) (par_bufs s) (cfh_par_n s) (cfh_par_done s) (cfh_par_data s) (cfh_par_base s) (cfh_par_total s)
    (cfh_par_chunks s) (filter_headers_flat s) (filter_headers_flat_base s) (filter_headers_flat_len s) (rescan_done s)
    (cf_scan_start_height s).

(** What loading the file of filter headers assigns. *)
Definition with_headers (s : filter_state) (genesis : bytes) (headers : list bytes) (tip_height base : Z) (tip : bytes) : filter_state :=
  mk_filter_state (enabled s) (filter_type s) tip_height tip headers (checkpoints s)
    base (filters_tip_height s) (cfilter_batch_end s) (pending_start_height s) (pending_stop_hash s)
    (awaiting_response s) (last_request_time s) genesis (watched_scripts s) (matched_block_hashes s)
    (matched_block_heights s) (matched_blocks_fetched s) (cf_block_fetch_active s) (par_num_workers s) (par_next_height s)
    (par_flush_height s) (par_bufs s) (cfh_par_n s) (cfh_par_done s) (cfh_par_data s) (cfh_par_base s) (cfh_par_total s)
    (cfh_par_chunks s) (filter_headers_flat s) (filter_headers_flat_base s) (filter_headers_flat_len s) (rescan_done s)
    (cf_scan_start_height s).

(** ** Headers of filters *)

Definition compact_filter_compute_header (filter_data : option bytes) (prev : bytes) : bytes :=
  match filter_data with
  | None => zeros 32
  | Some data => dogecoin_hash (dogecoin_hash data ++ take 32 prev)
  end.

Definition compact_filter_validate (filter_data : option bytes) (prev expected : bytes) : bool :=
  match filter_data with
  | None => false
  | Some _ => bytes_eqb (compact_filter_compute_header filter_data prev) (take 32 expected)
  end.

(** *** Checkpoints *)

(** An entry of a table: the height, and the text of the header unless it is NULL. *)
Record cf_checkpoint := mk_checkpoint { cp_height : Z; cp_header : option bytes }.

(** The entries in front of the one that ends the table. *)
Fixpoint cf_entries (cps : list cf_checkpoint) : list (Z * bytes) :=
  match cps with
  | [] => []
  | mk_checkpoint h o :: cps =>
      if h =? 0 then [] else match o with None => [] | Some t => (h, t) :: cf_entries cps end
  end.

(** [height / CFCHECKPT_INTERVAL - 1], in 32 bits. *)
Definition cp_idx (height : Z) : Z := u32 (height / CFCHECKPT_INTERVAL - 1).

(** [cps]: the table of the chain. *)
Definition cf_validate_checkpoints (cps : list cf_checkpoint) (peer_checkpoints : list bytes) : bool :=
  forallb (fun '(h, t) =>
    if Z.of_nat (length peer_checkpoints) <=? cp_idx h then true
    else bytes_eqb (utils_uint256_sethex t) (nth (Z.to_nat (cp_idx h)) peer_checkpoints [])) (cf_entries cps).

(** The search, between [lo] and [hi]. *)
Fixpoint cf_search (fuel : nat) (cps : list cf_checkpoint) (height : Z) (lo hi : nat) : option bytes :=
  match fuel with
  | O => None
  | S fuel =>
      if (lo <? hi)%nat then
        let mid := (lo + (hi - lo) / 2)%nat in
        let e := nth mid cps (mk_checkpoint 0 None) in
        if cp_height e =? height then utils_uint256_sethex <$> cp_header e
        else if cp_height e <? height then cf_search fuel cps height (S mid) hi
        else cf_search fuel cps height lo mid
      else None
  end.

(** [count]: the number of entries; [None]: false. *)
Definition cf_hardcoded_checkpoint_at (cps : list cf_checkpoint) (count : nat) (height : Z) : option bytes :=
  if (count =? 0)%nat then None else cf_search (S count) cps height 0 count.

Definition cf_fill_slot (slots : list bytes * Z) (e : Z * bytes) : list bytes * Z :=
  let '(l, loaded) := slots in
  if Z.of_nat (length l) <=? cp_idx e.1 then (l, loaded)
  else (<[Z.to_nat (cp_idx e.1) := utils_uint256_sethex e.2]> l, loaded + 1).

(** The number of checkpoints, and the state. *)
Definition cf_load_hardcoded_checkpoints (s : filter_state) (cps : list cf_checkpoint) : Z * filter_state :=
  match cps with
  | [] => (0, s)
  | _ =>
      let max_height := foldl Z.max 0 (map fst (cf_entries cps)) in
      if max_height =? 0 then (0, with_checkpoints s [])
      else
        let n_slots := u32 (cp_idx max_height + 1) in
        let '(l, loaded) := foldl cf_fill_slot (replicate (Z.to_nat n_slots) (zeros 32), 0) (cf_entries cps) in
        (loaded, with_checkpoints s l)
  end.

(** ** The files *)

Definition cfhdr_magic : bytes := [Byte.xcf; Byte.x68; Byte.x44; Byte.x52].
Definition cfdata_magic : bytes := [Byte.xcf; Byte.xda; Byte.x54; Byte.x41].
Definition cf_file_version : Z := 2.
Definition CF_HEADERS_FILE_HDR_LEN : nat := 40.
Definition CF_HEADERS_FILE_REC_LEN : nat := 36.
Definition CF_FILTERS_FILE_REC_HDR_LEN : nat := 40.

Definition write_file_header (magic : bytes) : bytes := magic ++ le_enc 4 cf_file_version ++ zeros 32.

(** 0: no header, or another magic. *)
Definition read_file_version (f magic : bytes) : Z :=
  if (length f <? 8)%nat then 0
  else if negb (bytes_eqb (take 4 f) magic) then 0
  else le_dec (take 4 (drop 4 f)).

(** [hdb_file]: the contents of the file, at whose end the next write goes; [None]: it is not open. *)
Record cfheaders_db := mk_hdb { hdb_file : option bytes; hdb_read_write : bool; hdb_tip_height : Z; hdb_tip_header : bytes }.

Definition cfheaders_db_new (inmem_only : bool) : cfheaders_db := mk_hdb None (negb inmem_only) 0 (zeros 32).

(** Records as long as there are 36 bytes. *)
Fixpoint load_headers (fuel : nat) (f : bytes) : list (Z * bytes) :=
  match fuel with
  | O => []
  | S fuel =>
      if (length f <? CF_HEADERS_FILE_REC_LEN)%nat then []
      else (le_dec (take 4 f), take 32 (drop 4 f)) :: load_headers fuel (drop CF_HEADERS_FILE_REC_LEN f)
  end.

(** [disk]: what is at the path; [None]: nothing, or it cannot be opened for reading.  Creating the
    file succeeds. *)
Definition cfheaders_db_load (db : cfheaders_db) (disk : option bytes) (s : filter_state) : bool * cfheaders_db * filter_state :=
  if negb (hdb_read_write db) then (true, db, s)
  else
    let fresh := (true, mk_hdb (Some (write_file_header cfhdr_magic)) (hdb_read_write db) (hdb_tip_height db) (hdb_tip_header db), s) in
    match disk with
    | None => fresh
    | Some f =>
        if (length f <? CF_HEADERS_FILE_HDR_LEN)%nat then fresh
        else if read_file_version f cfhdr_magic <? 2 then fresh
        else
          let genesis := take 32 (drop 8 f) in
          let recs := load_headers (length f) (drop CF_HEADERS_FILE_HDR_LEN f) in
          let headers := filter_headers s ++ map snd recs in
          let '(height, header) := default (hdb_tip_height db, hdb_tip_header db) (last recs) in
          let db := mk_hdb (Some f) (hdb_read_write db) height header in
          match recs with
          | [] => (true, db, with_headers s genesis headers (cfheaders_tip_height s) (cfheaders_base_height s) (cfheaders_tip_hash s))
          | (first, _) :: _ => (true, db, with_headers s genesis headers height first header)
          end
    end.

Definition cfheaders_db_write (db : cfheaders_db) (height : Z) (filter_header : bytes) : bool * cfheaders_db :=
  match hdb_read_write db, hdb_file db with
  | true, Some f => (true, mk_hdb (Some (f ++ le_enc 4 height ++ take 32 filter_header)) true height (take 32 filter_header))
  | _, _ => (true, db)
  end.

Definition cfheaders_db_write_genesis (db : cfheaders_db) (genesis : bytes) : bool * cfheaders_db :=
  match hdb_read_write db, hdb_file db with
  | true, Some f => (true, mk_hdb (Some (take 8 f ++ take 32 genesis ++ drop 40 f)) true (hdb_tip_height db) (hdb_tip_header db))
  | _, _ => (true, db)
  end.

(** A shorter file is filled up with zeros. *)
Definition cfheaders_db_reset (db : cfheaders_db) : bool * cfheaders_db :=
  match hdb_read_write db, hdb_file db with
  | true, Some f => (true, mk_hdb (Some (take 40 f ++ zeros (40 - length f))) true 0 (zeros 32))
  | _, _ => (true, db)
  end.

(** [fdb_pos]: where the next write goes. *)
Record cfilters_db := mk_fdb { fdb_file : option bytes; fdb_read_write : bool; fdb_tip_height : Z; fdb_pos : nat }.

Definition cfilters_db_new (inmem_only : bool) : cfilters_db := mk_fdb None (negb inmem_only) 0 0.

(** The height of the last record; the seek over the data goes beyond the end of the file. *)
Fixpoint scan_filters (fuel : nat) (f : bytes) (tip : Z) : Z :=
  match fuel with
  | O => tip
  | S fuel =>
      if (length f <? CF_FILTERS_FILE_REC_HDR_LEN)%nat then tip
      else scan_filters fuel (drop (40 + Z.to_nat (le_dec (take 4 (drop 36 f)))) f) (le_dec (take 4 f))
  end.

Definition cfilters_db_load (db : cfilters_db) (disk : option bytes) : bool * cfilters_db :=
  if negb (fdb_read_write db) then (true, db)
  else
    let fresh := (true, mk_fdb (Some (write_file_header cfdata_magic)) (fdb_read_write db) (fdb_tip_height db) 40) in
    match disk with
    | None => fresh
    | Some f =>
        if (length f <? 8)%nat then fresh
        else if read_file_version f cfdata_magic =? 0 then (false, mk_fdb None (fdb_read_write db) (fdb_tip_height db) 0)
        else (true, mk_fdb (Some f) (fdb_read_write db) (scan_filters (length f) (drop 40 f) (fdb_tip_height db)) (length f))
    end.

(** Writing over what is at a position, and behind the end. *)
Definition write_at (f : bytes) (pos : nat) (b : bytes) : bytes := take pos f ++ b ++ drop (pos + length b) f.

Definition cfilters_db_write (db : cfilters_db) (height : Z) (block_hash : bytes) (filter_data : option bytes) : bool * cfilters_db :=
  match fdb_read_write db, fdb_file db with
  | true, Some f =>
      match filter_data with
      | None => (false, db)
      | Some data =>
          let rec := le_enc 4 height ++ take 32 block_hash ++ le_enc 4 (Z.of_nat (length data)) ++ data in
          (true, mk_fdb (Some (write_at f (fdb_pos db) rec)) true height (fdb_pos db + length rec))
      end
  | _, _ => (true, db)
  end.

Section iterate.
Context {A : Type} (cb : A -> Z -> bytes -> option bytes -> bool * A).

(** The callback is given the height, the hash and the data, [None] for none; it says whether to go
    on.  The result is that of the function, the context of the callback and, when it fails, how many
    bytes of the file are behind the position. *)
Fixpoint iterate_filters (fuel : nat) (f : bytes) (ctx : A) : bool * A * nat :=
  match fuel with
  | O => (true, ctx, O)
  | S fuel =>
      if (length f <? CF_FILTERS_FILE_REC_HDR_LEN)%nat then (true, ctx, O)
      else
        let height := le_dec (take 4 f) in
        let block_hash := take 32 (drop 4 f) in
        let data_len := le_dec (take 4 (drop 36 f)) in
        let f := drop 40 f in
        if data_len =? 0 then
          let '(go_on, ctx) := cb ctx height block_hash None in
          if go_on then iterate_filters fuel f ctx else (true, ctx, O)
        else if DOGECOIN_MAX_P2P_MSG_SIZE <? data_len then (false, ctx, length f)
        else if Z.of_nat (length f) <? data_len then (false, ctx, O)
        else
          let '(go_on, ctx) := cb ctx height block_hash (Some (take (Z.to_nat data_len) f)) in
          if go_on then iterate_filters fuel (drop (Z.to_nat data_len) f) ctx else (true, ctx, O)
  end.

(** Only a walk that succeeds, or reads up to the end, leaves the position at the end. *)
Definition cfilters_db_iterate (db : cfilters_db) (ctx : A) : bool * A * cfilters_db :=
  match fdb_file db with
  | None => (false, ctx, db)
  | Some f =>
      let '(ok, ctx, behind) := iterate_filters (length f) (drop CF_HEADERS_FILE_HDR_LEN f) ctx in
      (ok, ctx, mk_fdb (Some f) (fdb_read_write db) (fdb_tip_height db) (length f - behind))
  end.
End iterate.

(** ** The file of filter headers *)

#[local] Opaque dogecoin_hash.

Definition header_record (r : Z * bytes) : bytes := le_enc 4 r.1 ++ r.2.
Definition header_ok (r : Z * bytes) : Prop := urange 32 r.1 /\ length r.2 = 32%nat.

Lemma length_header_record r : header_ok r -> length (header_record r) = 36%nat.
Proof. intros [_ H]. unfold header_record. by rewrite length_app, le_enc_length, H. Qed.

(** Records followed by less than one. *)
Lemma load_headers_spec recs : Forall header_ok recs -> forall rest fuel, (length rest < 36)%nat -> (length recs < fuel)%nat ->
  load_headers fuel (concat (map header_record recs) ++ rest) = recs.
Proof.
  induction 1 as [|r recs Hr Hrs IH]; intros rest [|fuel] Hl Hf; cbn [length] in Hf; try lia; cbn [load_headers map concat app].
  - by rewrite (proj2 (Nat.ltb_lt _ _)) by done.
  - pose proof (length_header_record r Hr) as Hlen. rewrite <- app_assoc, length_app, Hlen.
    rewrite (proj2 (Nat.ltb_ge _ _)) by (unfold CF_HEADERS_FILE_REC_LEN; lia).
    change CF_HEADERS_FILE_REC_LEN with 36%nat. rewrite (drop_app_exact (header_record r) _ 36) by exact Hlen. rewrite IH by (done || lia). f_equal.
    destruct r as [h fh], Hr as [Hh Hfh]. cbn [fst snd] in *. unfold header_record. cbn [fst snd]. rewrite <- app_assoc.
    rewrite take_app_exact, drop_app_exact, take_app_exact by (done || apply le_enc_length). by rewrite le_dec_enc_small.
Qed.

(** What the file holds: the header of the filter of the genesis block, and the records. *)
Definition headers_file (c : bytes * list (Z * bytes)) : bytes :=
  cfhdr_magic ++ le_enc 4 cf_file_version ++ c.1 ++ concat (map header_record c.2).

Definition headers_file_ok (c : bytes * list (Z * bytes)) : Prop := length c.1 = 32%nat /\ Forall header_ok c.2.

Inductive headers_op :=
  | WriteHeader (height : Z) (header : bytes)
  | WriteGenesis (genesis : bytes)
  | ResetHeaders.

Definition op_ok (o : headers_op) : Prop :=
  match o with WriteHeader h fh => header_ok (h, fh) | WriteGenesis g => length g = 32%nat | ResetHeaders => True end.

Definition run_op (db : cfheaders_db) (o : headers_op) : cfheaders_db :=
  match o with
  | WriteHeader h fh => (cfheaders_db_write db h fh).2
  | WriteGenesis g => (cfheaders_db_write_genesis db g).2
  | ResetHeaders => (cfheaders_db_reset db).2
  end.

(** The same on the abstract contents. *)
Definition spec_op (c : bytes * list (Z * bytes)) (o : headers_op) : bytes * list (Z * bytes) :=
  match o with
  | WriteHeader h fh => (c.1, c.2 ++ [(h, fh)])
  | WriteGenesis g => (g, c.2)
  | ResetHeaders => (c.1, [])
  end.

(** A handle that stands for the contents [c]. *)
Definition holds (db : cfheaders_db) (c : bytes * list (Z * bytes)) : Prop :=
  hdb_read_write db = true /\ hdb_file db = Some (headers_file c) /\ headers_file_ok c.

Lemma headers_file_split c : headers_file_ok c ->
  take 8 (headers_file c) = cfhdr_magic ++ le_enc 4 cf_file_version /\
  take 40 (headers_file c) = cfhdr_magic ++ le_enc 4 cf_file_version ++ c.1 /\
  drop 40 (headers_file c) = concat (map header_record c.2) /\ take 32 (drop 8 (headers_file c)) = c.1.
Proof.
  intros [H _]. unfold headers_file.
  set (R := concat _). split; [done|]. split; [|split].
  - change (cfhdr_magic ++ le_enc 4 cf_file_version ++ take 32 (c.1 ++ R) = cfhdr_magic ++ le_enc 4 cf_file_version ++ c.1).
    by rewrite take_app_exact.
  - change (drop 32 (c.1 ++ R) = R). by rewrite drop_app_exact.
  - change (take 32 (c.1 ++ R) = c.1). by rewrite take_app_exact.
Qed.

Lemma run_op_holds db c o : op_ok o -> holds db c -> holds (run_op db o) (spec_op c o).
Proof.
  intros Ho (Hrw & Hf & Hok). destruct (headers_file_split c Hok) as (T8 & T40 & D40 & _). destruct Hok as [Hg Hr].
  destruct o as [h fh|g|]; cbn [run_op spec_op op_ok] in *.
  - unfold cfheaders_db_write. rewrite Hrw, Hf. cbn [snd]. split; [done|]. split; cbn [hdb_file].
    + unfold headers_file. cbn [fst snd]. rewrite map_app, concat_app. cbn [map concat]. unfold header_record at 3. cbn [fst snd].
      rewrite (take_ge fh) by (destruct Ho; cbn in *; lia). by rewrite app_nil_r, <- !app_assoc.
    + split; [done|]. apply Forall_app. split; [done|]. by constructor.
  - unfold cfheaders_db_write_genesis. rewrite Hrw, Hf. cbn [snd]. split; [done|]. split; cbn [hdb_file].
    + rewrite T8, D40, (take_ge g) by lia. unfold headers_file. cbn [fst snd]. by rewrite <- app_assoc.
    + done.
  - unfold cfheaders_db_reset. rewrite Hrw, Hf. cbn [snd]. split; [done|]. split; cbn [hdb_file]; [|done].
    rewrite T40. unfold headers_file. cbn [fst snd map concat]. rewrite !app_nil_r.
    rewrite !length_app, Hg. cbn [length Nat.sub Nat.add]. rewrite !le_enc_length. cbn. by rewrite app_nil_r.
Qed.

Lemma length_headers_file c : headers_file_ok c -> length (headers_file c) = (40 + 36 * length c.2)%nat.
Proof.
  intros [Hg Hr]. unfold headers_file. rewrite !length_app, Hg, le_enc_length, (length_concat_const 36).
  - rewrite length_map. cbn. lia.
  - intros b (r & <- & Hi)%list_elem_of_In%in_map_iff. apply length_header_record. rewrite Forall_forall in Hr.
    apply Hr. by apply list_elem_of_In.
Qed.

(** Loading a file with less than a record behind its contents. *)
Lemma load_file c rest s : headers_file_ok c -> (length rest < 36)%nat -> filter_headers s = [] ->
  exists db' s', cfheaders_db_load (cfheaders_db_new false) (Some (headers_file c ++ rest)) s = (true, db', s') /\
    hdb_file db' = Some (headers_file c ++ rest) /\ hdb_read_write db' = true /\
    filter_headers s' = map snd c.2 /\ genesis_filter_header s' = c.1 /\
    match head c.2, last c.2 with
    | Some (first, _), Some (height, header) =>
        cfheaders_base_height s' = first /\ cfheaders_tip_height s' = height /\ cfheaders_tip_hash s' = header /\
        hdb_tip_height db' = height
    | _, _ => cfheaders_base_height s' = cfheaders_base_height s /\ cfheaders_tip_height s' = cfheaders_tip_height s
    end.
Proof.
  intros Hok Hrest Hs. destruct (headers_file_split c Hok) as (T8 & T40 & D40 & G).
  pose proof (length_headers_file c Hok) as Hl. destruct Hok as [Hg Hr].
  unfold cfheaders_db_load. cbn [hdb_read_write cfheaders_db_new negb]. rewrite length_app.
  rewrite (proj2 (Nat.ltb_ge _ _)) by (rewrite Hl; unfold CF_HEADERS_FILE_HDR_LEN; lia).
  assert (read_file_version (headers_file c ++ rest) cfhdr_magic = 2) as ->.
  { unfold read_file_version. rewrite length_app, (proj2 (Nat.ltb_ge _ _)) by lia. reflexivity. }
  cbn [Z.ltb]. assert (take 32 (drop 8 (headers_file c ++ rest)) = c.1) as ->.
  { rewrite drop_app_le, take_app_le by (rewrite ?length_drop; lia). done. }
  change CF_HEADERS_FILE_HDR_LEN with 40%nat. rewrite drop_app_le, D40, load_headers_spec by (done || lia).
  rewrite Hs. destruct c as [g l]. cbn [fst snd] in *. destruct l as [|[first fh] l]; cbn [last default head hdb_tip_height].
  - eexists _, _. split; [reflexivity|]. done.
  - destruct (last ((first, fh) :: l)) as [[height header]|] eqn:E; [|by apply last_None in E].
    eexists _, _. split; [reflexivity|]. done.
Qed.

(** C23: the file of filter headers implements a list with a genesis header: after it has been created,
    whatever is written, reset, or set as the header of the genesis block, loading the file into
    an empty state gives back the headers that were written since the last reset, the height of the
    first and of the last, and the genesis header; the file itself goes on from there. *)
Theorem cfheaders_file_refines (s : filter_state) (ops : list headers_op) (Ho : Forall op_ok ops) (Hs : filter_headers s = []) :
  let created := (cfheaders_db_load (cfheaders_db_new false) None s).1.2 in
  let db := foldl run_op created ops in
  let c := foldl spec_op (zeros 32, []) ops in
  exists db' s', cfheaders_db_load (cfheaders_db_new false) (hdb_file db) s = (true, db', s') /\
    hdb_file db' = hdb_file db /\ filter_headers s' = map snd c.2 /\ genesis_filter_header s' = c.1 /\
    match head c.2, last c.2 with
    | Some (first, _), Some (height, header) =>
        cfheaders_base_height s' = first /\ cfheaders_tip_height s' = height /\ cfheaders_tip_hash s' = header /\
        hdb_tip_height db' = height
    | _, _ => cfheaders_base_height s' = cfheaders_base_height s /\ cfheaders_tip_height s' = cfheaders_tip_height s
    end.
Proof.
  cbv zeta. set (db := foldl run_op _ ops). set (c := foldl spec_op _ ops).
  assert (holds db c) as (Hrw & Hf & Hok).
  { subst db c. set (db0 := (_ : bool * cfheaders_db * filter_state).1.2).
    assert (holds db0 (zeros 32, [])) as H0 by (split; [done|]; split; [reflexivity|]; by split).
    clearbody db0. clear - Ho H0. revert db0 H0. generalize (zeros 32, [] : list (Z * bytes)). induction Ho as [|o ops Ho _ IH]; intros c db H; [done|].
    cbn [foldl]. by apply IH, run_op_holds. }
  clearbody db c. rewrite Hf. destruct (load_file c [] s Hok ltac:(cbn; lia) Hs) as (db' & s' & E & Hf' & _ & Hrest).
  rewrite app_nil_r in E, Hf'. by exists db', s'.
Qed.

Lemma cfheaders_file_refines_witness :
  let ops := [WriteGenesis (replicate 32 Byte.x01); WriteHeader 7 (replicate 32 Byte.x02); ResetHeaders; WriteHeader 5 (replicate 32 Byte.x03)] in
  let created := (cfheaders_db_load (cfheaders_db_new false) None compact_filter_state_new).1.2 in
  let db := foldl run_op created ops in
  exists db' s', cfheaders_db_load (cfheaders_db_new false) (hdb_file db) compact_filter_state_new = (true, db', s') /\
    hdb_file db' = hdb_file db /\ filter_headers s' = [replicate 32 Byte.x03] /\ genesis_filter_header s' = replicate 32 Byte.x01 /\
    (cfheaders_base_height s' = 5 /\ cfheaders_tip_height s' = 5 /\ cfheaders_tip_hash s' = replicate 32 Byte.x03 /\ hdb_tip_height db' = 5).
Proof.
  apply (cfheaders_file_refines compact_filter_state_new); [|reflexivity].
  repeat constructor; unfold urange; cbn; lia.
Defined.

(** A record that was not written to its end, by a process that died or a full disk, is not
    cut off when the file is loaded: the next header is written behind its remains, so that the
    one that is loaded the next time begins with them, and every later record is read from the
    wrong place. *)
Theorem torn_record_shifts (s : filter_state) (g torn : bytes) (recs : list (Z * bytes)) (r : Z * bytes)
  (Hg : length g = 32%nat) (Hr : Forall header_ok recs) (Hn : header_ok r) (Ht : (0 < length torn < 36)%nat)
  (Hs : filter_headers s = []) :
  let '(_, db, _) := cfheaders_db_load (cfheaders_db_new false) (Some (headers_file (g, recs) ++ torn)) s in
  let db' := (cfheaders_db_write db r.1 r.2).2 in
  let '(_, _, s') := cfheaders_db_load (cfheaders_db_new false) (hdb_file db') s in
  filter_headers s' = map snd recs ++ [take 32 (drop 4 (torn ++ header_record r))].
Proof.
  destruct (load_file (g, recs) torn s (conj Hg Hr) ltac:(lia) Hs) as (db & s0 & -> & Hf & Hrw & _). cbv zeta.
  unfold cfheaders_db_write. rewrite Hrw, Hf. cbn [snd hdb_file]. rewrite (take_ge r.2) by (destruct Hn; lia).
  set (w := torn ++ header_record r).
  assert (length w = (length torn + 36)%nat) as Hw by (unfold w; by rewrite length_app, length_header_record).
  set (x := (le_dec (take 4 w), take 32 (drop 4 w))).
  assert (header_ok x) as Hx.
  { split; [|cbn; rewrite length_take, length_drop; lia]. cbn [fst x].
    pose proof (le_dec_range (take 4 w)) as H. by rewrite length_take, Nat.min_l in H by lia. }
  assert (header_record x = take 36 w) as Ex.
  { unfold header_record, x. cbn [fst snd]. rewrite le_enc_dec by (rewrite length_take; lia).
    apply (take_take_drop w 4 32). }
  assert ((headers_file (g, recs) ++ torn) ++ le_enc 4 r.1 ++ r.2 = headers_file (g, recs ++ [x]) ++ drop 36 w) as ->.
  { unfold headers_file. cbn [fst snd]. rewrite map_app, concat_app. cbn [map concat]. rewrite app_nil_r, Ex, <- !app_assoc.
    rewrite take_drop. done. }
  destruct (load_file (g, recs ++ [x]) (drop 36 w) s) as (db' & s' & -> & _ & _ & -> & _).
  - split; [done|]. apply Forall_app. split; [done|]. by constructor.
  - rewrite length_drop. lia.
  - done.
  - cbn [snd]. by rewrite map_app.
Qed.

Lemma torn_record_shifts_witness :
  let torn := replicate 20 Byte.x0a in let r := (9, replicate 32 Byte.x0b) in
  let '(_, db, _) := cfheaders_db_load (cfheaders_db_new false) (Some (headers_file (zeros 32, [(8, replicate 32 Byte.x07)]) ++ torn))
                       compact_filter_state_new in
  let db' := (cfheaders_db_write db r.1 r.2).2 in
  let '(_, _, s') := cfheaders_db_load (cfheaders_db_new false) (hdb_file db') compact_filter_state_new in
  filter_headers s' = [replicate 32 Byte.x07; take 32 (drop 4 (torn ++ header_record r))].
Proof.
  apply (torn_record_shifts compact_filter_state_new (zeros 32) (replicate 20 Byte.x0a) [(8, replicate 32 Byte.x07)] (9, replicate 32 Byte.x0b));
    repeat constructor; unfold urange; cbn; lia.
Defined.

(** ** The file of filters *)

Definition filter_record (r : Z * bytes * bytes) : bytes := le_enc 4 r.1.1 ++ r.1.2 ++ le_enc 4 (Z.of_nat (length r.2)) ++ r.2.
Definition filter_ok (r : Z * bytes * bytes) : Prop :=
  urange 32 r.1.1 /\ length r.1.2 = 32%nat /\ Z.of_nat (length r.2) <= DOGECOIN_MAX_P2P_MSG_SIZE.

(** What the callback is told of a record, and the records up to the one at which it stops. *)
Definition told {A} (cb : A -> Z -> bytes -> option bytes -> bool * A) (ctx : A) (r : Z * bytes * bytes) : bool * A :=
  cb ctx r.1.1 r.1.2 (if (length r.2 =? 0)%nat then None else Some r.2).

Fixpoint told_all {A} (cb : A -> Z -> bytes -> option bytes -> bool * A) (ctx : A) (l : list (Z * bytes * bytes)) : A :=
  match l with
  | [] => ctx
  | r :: l => let '(go_on, ctx) := told cb ctx r in if go_on then told_all cb ctx l else ctx
  end.

Lemma filter_record_fields r rest : filter_ok r ->
  let f := filter_record r ++ rest in
  (40 <= length f)%nat /\ le_dec (take 4 f) = r.1.1 /\ take 32 (drop 4 f) = r.1.2 /\
  le_dec (take 4 (drop 36 f)) = Z.of_nat (length r.2) /\ drop 40 f = r.2 ++ rest.
Proof.
  destruct r as [[h b] d]. intros (Hh & Hb & Hd). cbn [fst snd] in *. cbv zeta. unfold filter_record. cbn [fst snd].
  rewrite <- !app_assoc. unfold DOGECOIN_MAX_P2P_MSG_SIZE in Hd.
  set (tail := le_enc 4 (Z.of_nat (length d)) ++ d ++ rest).
  assert (drop 36 (le_enc 4 h ++ b ++ tail) = tail) as E36.
  { rewrite (app_assoc (le_enc 4 h)). apply drop_app_exact. by rewrite length_app, le_enc_length, Hb. }
  split; [unfold tail; rewrite !length_app, !le_enc_length, Hb; lia|].
  split; [rewrite take_app_exact by apply le_enc_length; by rewrite le_dec_enc_small|].
  split; [rewrite drop_app_exact by apply le_enc_length; by rewrite take_app_exact|].
  split.
  - transitivity (le_dec (take 4 tail)); [by do 2 f_equal|].
    unfold tail. rewrite take_app_exact by apply le_enc_length. apply le_dec_enc_small. unfold urange. lia.
  - transitivity (drop 4 (drop 36 (le_enc 4 h ++ b ++ tail))); [by rewrite drop_drop|].
    transitivity (drop 4 tail); [by f_equal|]. unfold tail. by rewrite drop_app_exact by apply le_enc_length.
Qed.

Definition filters_file (l : list (Z * bytes * bytes)) : bytes := write_file_header cfdata_magic ++ concat (map filter_record l).

(** The writes of [l], on a file that has just been created. *)
Definition write_filters (l : list (Z * bytes * bytes)) : cfilters_db :=
  foldl (fun db r => (cfilters_db_write db r.1.1 r.1.2 (Some r.2)).2) (cfilters_db_load (cfilters_db_new false) None).2 l.

Lemma write_filters_file l : Forall filter_ok l ->
  fdb_file (write_filters l) = Some (filters_file l) /\ fdb_read_write (write_filters l) = true /\
  fdb_pos (write_filters l) = length (filters_file l).
Proof.
  unfold write_filters. induction l as [|r l IH] using rev_ind; intros Hl; [done|].
  apply Forall_app in Hl as [Hl Hr]. destruct (IH Hl) as (Hf & Hrw & Hp). rewrite foldl_app. cbn [foldl].
  set (db := foldl _ _ l) in *. unfold cfilters_db_write. rewrite Hrw, Hf, Hp. cbn [snd fdb_file fdb_read_write fdb_pos].
  inversion_clear Hr as [|? ? (_ & Hb & _) _]. rewrite (take_ge r.1.2) by lia. fold (filter_record r).
  assert (filters_file l ++ filter_record r = filters_file (l ++ [r])) as <-.
  { unfold filters_file. rewrite map_app, concat_app. cbn [map concat]. by rewrite app_nil_r, <- !app_assoc. }
  split; [|split; [done|by rewrite length_app]]. unfold write_at. rewrite firstn_all, drop_ge by lia. by rewrite app_nil_r.
Qed.

Lemma filter_record_drop r rest : filter_ok r -> drop (40 + length r.2) (filter_record r ++ rest) = rest.
Proof.
  intros Hr. apply drop_app_exact. destruct Hr as (_ & Hb & _). unfold filter_record. rewrite !length_app, !le_enc_length. lia.
Qed.

Lemma iterate_filters_spec {A} (cb : A -> Z -> bytes -> option bytes -> bool * A) l : Forall filter_ok l ->
  forall fuel ctx, (length l < fuel)%nat -> iterate_filters cb fuel (concat (map filter_record l)) ctx = (true, told_all cb ctx l, O).
Proof.
  induction 1 as [|r l Hr _ IH]; intros [|fuel] ctx Hf; cbn [length] in Hf; try lia; cbn [map concat iterate_filters told_all]; [done|].
  destruct (filter_record_fields r (concat (map filter_record l)) Hr) as (Hlen & -> & -> & -> & ->).
  rewrite (proj2 (Nat.ltb_ge _ _)) by exact Hlen. pose proof Hr as (_ & _ & Hd). unfold told.
  destruct (Nat.eqb_spec (length r.2) 0) as [E|E].
  - rewrite E. cbn [Z.of_nat Z.eqb]. apply length_zero_iff_nil in E. rewrite E. cbn [app].
    destruct (cb ctx r.1.1 r.1.2 None) as [[] ctx']; [|done]. apply IH. lia.
  - rewrite (proj2 (Z.eqb_neq _ _)), (proj2 (Z.ltb_ge _ _)) by lia. rewrite length_app, (proj2 (Z.ltb_ge _ _)) by lia.
    rewrite Nat2Z.id, take_app_exact, drop_app_exact by done.
    destruct (cb ctx r.1.1 r.1.2 (Some r.2)) as [[] ctx']; [|done]. apply IH. lia.
Qed.

Lemma scan_filters_spec l : Forall filter_ok l -> forall fuel tip, (length l < fuel)%nat ->
  scan_filters fuel (concat (map filter_record l)) tip = default tip ((fun r => r.1.1) <$> last l).
Proof.
  induction 1 as [|r l Hr _ IH]; intros [|fuel] tip Hf; cbn [length] in Hf; try lia; [done|]. cbn [map concat scan_filters].
  destruct (filter_record_fields r (concat (map filter_record l)) Hr) as (Hlen & -> & _ & -> & _).
  rewrite (proj2 (Nat.ltb_ge _ _)) by exact Hlen. rewrite Nat2Z.id, filter_record_drop, IH by (done || lia).
  destruct l as [|r' l]; [done|]. change (last (r :: r' :: l)) with (last (r' :: l)).
  destruct (last (r' :: l)) eqn:E; [done|]. by apply last_None in E.
Qed.

Lemma length_filters_file l : Forall filter_ok l -> (40 + 40 * length l <= length (filters_file l))%nat.
Proof.
  intros Hl. unfold filters_file. rewrite length_app. change (length (write_file_header cfdata_magic)) with 40%nat.
  enough (40 * length l <= length (concat (map filter_record l)))%nat by lia.
  induction Hl as [|r l Hr _ IH]; [done|]. cbn [map concat length]. rewrite length_app. destruct Hr as (_ & Hb & _).
  unfold filter_record at 1. rewrite !length_app, !le_enc_length. lia.
Qed.

(** The file of filters: whatever filters have been written to a file since it was created, going
    through the file calls the callback on each of them, in the order in which they were written,
    until the callback stops, and leaves the handle as it was; opening the file again finds the
    height of the last. *)
Theorem cfilters_file_iterates {A} (cb : A -> Z -> bytes -> option bytes -> bool * A) (ctx : A) (l : list (Z * bytes * bytes))
  (Hl : Forall filter_ok l) :
  let db := write_filters l in
  cfilters_db_iterate cb db ctx = (true, told_all cb ctx l, db) /\
  exists db', cfilters_db_load (cfilters_db_new false) (fdb_file db) = (true, db') /\
    fdb_file db' = fdb_file db /\ fdb_tip_height db' = default 0 ((fun r => r.1.1) <$> last l).
Proof.
  cbv zeta. destruct (write_filters_file l Hl) as (Hf & _ & Hp). pose proof (length_filters_file l Hl) as Hlen.
  assert (drop 40 (filters_file l) = concat (map filter_record l)) as Hd by (apply drop_app_exact; reflexivity).
  unfold cfilters_db_iterate. rewrite Hf. split.
  - change CF_HEADERS_FILE_HDR_LEN with 40%nat. rewrite Hd, iterate_filters_spec by (done || lia). rewrite Nat.sub_0_r, <- Hf, <- Hp. by destruct (write_filters l).
  - unfold cfilters_db_load. cbn [fdb_read_write cfilters_db_new negb]. rewrite (proj2 (Nat.ltb_ge _ _)) by lia.
    assert (read_file_version (filters_file l) cfdata_magic = 2) as ->.
    { unfold read_file_version. rewrite (proj2 (Nat.ltb_ge _ _)) by lia. reflexivity. }
    cbn [Z.eqb]. rewrite Hd, scan_filters_spec by (done || lia). by eexists.
Qed.

Lemma cfilters_file_iterates_witness :
  let l := [(3, replicate 32 Byte.x01, [Byte.x05; Byte.x06]); (4, replicate 32 Byte.x02, [])] in
  let cb (ctx : list Z) (h : Z) (_ : bytes) (d : option bytes) := (true, ctx ++ [h; Z.of_nat (length (default [] d))]) in
  let db := write_filters l in
  cfilters_db_iterate cb db [] = (true, [3; 2; 4; 0], db) /\
  exists db', cfilters_db_load (cfilters_db_new false) (fdb_file db) = (true, db') /\
    fdb_file db' = fdb_file db /\ fdb_tip_height db' = 4.
Proof.
  apply (cfilters_file_iterates (fun (ctx : list Z) (h : Z) (_ : bytes) (d : option bytes) => (true, ctx ++ [h; Z.of_nat (length (default [] d))])) []
           [(3, replicate 32 Byte.x01, [Byte.x05; Byte.x06]); (4, replicate 32 Byte.x02, [])]).
  repeat constructor; unfold urange, DOGECOIN_MAX_P2P_MSG_SIZE; cbn; lia.
Defined.

(** ** Headers of filters chain *)

(** The headers of the filters [datas], one after the other. *)
Definition cf_chain (prev : bytes) (datas : list bytes) : bytes :=
  foldl (fun prev d => compact_filter_compute_header (Some d) prev) prev datas.

Definition hash_collision : Prop := exists a b : bytes, a <> b /\ dogecoin_hash a = dogecoin_hash b.

Lemma length_compute_header d prev : length (compact_filter_compute_header (Some d) prev) = 32%nat.
Proof. apply dogecoin_hash_length. Qed.

Lemma compute_header_inj d d' prev prev' : length prev = 32%nat -> length prev' = 32%nat ->
  compact_filter_compute_header (Some d) prev = compact_filter_compute_header (Some d') prev' ->
  (d = d' /\ prev = prev') \/ hash_collision.
Proof.
  intros Hp Hp' E. cbn [compact_filter_compute_header] in E. rewrite !take_ge in E by lia.
  destruct (decide (dogecoin_hash d ++ prev = dogecoin_hash d' ++ prev')) as [E1|N]; [|right; exact (ex_intro _ _ (ex_intro _ _ (conj N E)))].
  destruct (app_inj_1 _ _ _ _ (eq_trans (dogecoin_hash_length d) (eq_sym (dogecoin_hash_length d'))) E1) as [Ed Ep].
  destruct (decide (d = d')) as [->|N]; [left; exact (conj eq_refl Ep)|right; exact (ex_intro _ d (ex_intro _ d' (conj N Ed)))].
Qed.

(** A header of a filter stands for every filter up to its block: two chains of as many filters that
    end in the same header start from the same header and have the same filters, unless two
    different strings have been found with the same double SHA-256. *)
Theorem cf_headers_bind (prev prev' : bytes) (datas datas' : list bytes)
  (Hp : length prev = 32%nat) (Hp' : length prev' = 32%nat) (Hl : length datas = length datas')
  (He : cf_chain prev datas = cf_chain prev' datas') :
  (prev = prev' /\ datas = datas') \/ hash_collision.
Proof.
  revert prev prev' datas' Hp Hp' Hl He. induction datas as [|d l IH]; intros prev prev' [|d' l'] Hp Hp' Hl He; try done; [by left|].
  unfold cf_chain in He. cbn [foldl] in He. destruct (IH _ _ l' (length_compute_header d prev) (length_compute_header d' prev') ltac:(by injection Hl) He)
    as [[E ->]|C]; [|by right].
  destruct (compute_header_inj d d' prev prev' Hp Hp' E) as [[-> ->]|C]; [by left|by right].
Qed.

Lemma cf_headers_bind_witness :
  let l := [[Byte.x01]; []] in (zeros 32 = zeros 32 /\ l = l) \/ hash_collision.
Proof.
  cbv zeta. apply (cf_headers_bind (zeros 32) (zeros 32) [[Byte.x01]; []] [[Byte.x01]; []]); done.
Defined.

(** ** Checkpoints *)

Definition ascending (cps : list cf_checkpoint) : Prop := StronglySorted Z.lt (map cp_height cps).

(** The entry of a height, by looking at each. *)
Definition checkpoint_of (cps : list cf_checkpoint) (height : Z) : option bytes :=
  e ← List.find (fun e => cp_height e =? height) cps; utils_uint256_sethex <$> cp_header e.

Lemma ascending_lt cps i j e e' : ascending cps -> cps !! i = Some e -> cps !! j = Some e' -> (i < j)%nat -> cp_height e < cp_height e'.
Proof.
  unfold ascending. revert i j. induction cps as [|c cps IH]; intros [|i] [|j] Hs Hi Hj Hij; try lia; try done.
  all: cbn [map] in Hs; apply StronglySorted_inv in Hs as [Hs Hall]; cbn in *.
  - injection Hi as ->. rewrite List.Forall_forall in Hall. apply Hall. apply in_map.
    apply list_elem_of_In. by eapply list_elem_of_lookup_2.
  - eapply IH; eauto; lia.
Qed.

Lemma find_none_iff cps height : (forall i e, cps !! i = Some e -> cp_height e <> height) -> List.find (fun e => cp_height e =? height) cps = None.
Proof.
  intros H. destruct (List.find _ cps) as [e|] eqn:E; [|done]. apply find_some in E as [Hi He].
  apply list_elem_of_In, list_elem_of_lookup_1 in Hi as [i Hi]. by apply Z.eqb_eq, (H i e Hi) in He.
Qed.

Lemma find_ascending cps i e : ascending cps -> cps !! i = Some e -> List.find (fun c => cp_height c =? cp_height e) cps = Some e.
Proof.
  intros Hs Hi. destruct (List.find _ cps) as [e'|] eqn:E.
  - apply find_some in E as [Hj He]. apply list_elem_of_In, list_elem_of_lookup_1 in Hj as [j Hj]. apply Z.eqb_eq in He.
    destruct (Nat.lt_trichotomy i j) as [H|[<-|H]].
    + pose proof (ascending_lt cps i j e e' Hs Hi Hj H). lia.
    + congruence.
    + pose proof (ascending_lt cps j i e' e Hs Hj Hi H). lia.
  - eapply find_none in E; [by apply Z.eqb_neq in E|]. apply list_elem_of_In. by eapply list_elem_of_lookup_2.
Qed.

(** Entries below [lo] are lower, entries from [hi] on are higher. *)
Lemma cf_search_spec cps height : ascending cps -> forall fuel lo hi, (lo <= hi <= length cps)%nat -> (hi - lo < fuel)%nat ->
  (forall i e, cps !! i = Some e -> (i < lo)%nat -> cp_height e < height) ->
  (forall i e, cps !! i = Some e -> (hi <= i)%nat -> height < cp_height e) ->
  cf_search fuel cps height lo hi = checkpoint_of cps height.
Proof.
  intros Hs. induction fuel as [|fuel IH]; intros lo hi Hb Hf Hlo Hhi; [lia|]. cbn [cf_search].
  destruct (Nat.ltb_spec lo hi) as [Hlt|Hge].
  - set (mid := (lo + (hi - lo) / 2)%nat).
    assert (lo <= mid < hi)%nat as Hm by (pose proof (Nat.div_lt (hi - lo) 2 ltac:(lia) ltac:(lia)); lia).
    destruct (lookup_lt_is_Some_2 cps mid ltac:(lia)) as [e He].
    rewrite (nth_lookup_Some cps mid _ e He).
    destruct (Z.eqb_spec (cp_height e) height) as [E|N].
    + unfold checkpoint_of. rewrite <- E. by rewrite (find_ascending cps mid e Hs He).
    + destruct (Z.ltb_spec (cp_height e) height) as [L|G]; apply IH; try lia; try done.
      * intros i e' Hi Him. destruct (decide (i = mid)) as [->|Hne]; [congruence|].
        pose proof (ascending_lt cps i mid e' e Hs Hi He ltac:(lia)). lia.
      * intros i e' Hi Him. destruct (decide (i = mid)) as [->|Hne]; [assert (e' = e) as -> by congruence; lia|].
        pose proof (ascending_lt cps mid i e e' Hs He Hi ltac:(lia)). lia.
  - unfold checkpoint_of. rewrite find_none_iff; [done|]. intros i e Hi.
    destruct (decide (i < lo)%nat) as [H|H]; [pose proof (Hlo i e Hi H); lia|pose proof (Hhi i e Hi ltac:(lia)); lia].
Qed.

(** The binary search in a table of checkpoints in ascending order, whatever the distance between
    them, finds what a look at every entry finds, and finds nothing at any other height; the
    number of its steps is at most the number of entries. *)
Theorem checkpoint_search_correct (cps : list cf_checkpoint) (height : Z) (Hs : ascending cps) :
  cf_hardcoded_checkpoint_at cps (length cps) height = checkpoint_of cps height.
Proof.
  unfold cf_hardcoded_checkpoint_at. destruct (Nat.eqb_spec (length cps) 0) as [E|N].
  - by apply length_zero_iff_nil in E as ->.
  - apply cf_search_spec; try done; try lia. intros i e Hi H. apply lookup_lt_Some in Hi. lia.
Qed.

Lemma checkpoint_search_correct_witness :
  let cps := [mk_checkpoint 10000 (Some [Byte.x41]); mk_checkpoint 20000 None; mk_checkpoint 50000 (Some [Byte.x42])] in
  cf_hardcoded_checkpoint_at cps 3 50000 = Some (utils_uint256_sethex [Byte.x42]).
Proof.
  cbv zeta. etransitivity; [apply (checkpoint_search_correct [mk_checkpoint 10000 (Some [Byte.x41]); mk_checkpoint 20000 None; mk_checkpoint 50000 (Some [Byte.x42])])|reflexivity].
  unfold ascending. cbn. repeat constructor.
Defined.

(** A table with an entry at heights that are multiples of the interval, all with a header. *)
Definition table_ok (cps : list cf_checkpoint) : Prop :=
  ascending cps /\
  Forall (fun e => 0 < cp_height e < 2 ^ 32 /\ cp_height e mod CFCHECKPT_INTERVAL = 0 /\ cp_header e <> None) cps.

Definition table_max (cps : list cf_checkpoint) : Z := foldl Z.max 0 (map fst (cf_entries cps)).

Lemma entry_idx h : 0 < h < 2 ^ 32 -> h mod CFCHECKPT_INTERVAL = 0 -> 1000 <= h /\ cp_idx h = h / 1000 - 1 /\ 0 <= cp_idx h.
Proof.
  unfold CFCHECKPT_INTERVAL, cp_idx, CFCHECKPT_INTERVAL. intros Hh Hm. pose proof (Z.div_mod h 1000 ltac:(lia)).
  assert (1 <= h / 1000 < 4294968) by (split; [|apply Z.div_lt_upper_bound]; lia).
  rewrite wrap_small by (unfold urange; lia). lia.
Qed.

Lemma idx_height h (i : nat) : 0 < h < 2 ^ 32 -> h mod CFCHECKPT_INTERVAL = 0 ->
  (Z.to_nat (cp_idx h) =? i)%nat = (h =? (Z.of_nat i + 1) * CFCHECKPT_INTERVAL).
Proof.
  intros Hh Hm. destruct (entry_idx h Hh Hm) as (H1 & -> & H2). unfold CFCHECKPT_INTERVAL in *.
  pose proof (Z.div_mod h 1000 ltac:(lia)). destruct (Nat.eqb_spec (Z.to_nat (h / 1000 - 1)) i), (Z.eqb_spec h ((Z.of_nat i + 1) * 1000)); lia.
Qed.

Lemma table_ok_cons e cps : table_ok (e :: cps) -> exists t,
  e = mk_checkpoint (cp_height e) (Some t) /\ 0 < cp_height e < 2 ^ 32 /\ cp_height e mod CFCHECKPT_INTERVAL = 0 /\
  Forall (fun e' => cp_height e < cp_height e') cps /\ table_ok cps /\
  cf_entries (e :: cps) = (cp_height e, t) :: cf_entries cps.
Proof.
  intros [Hs Hf]. apply Forall_cons_1 in Hf as [(H1 & H2 & H3) Hf]. destruct e as [h [t|]]; [|done]. cbn [cp_height] in *.
  apply StronglySorted_inv in Hs as [Hs Hlt]. exists t. split; [done|]. split; [done|]. split; [done|].
  split; [|split; [by split|]].
  - rewrite Forall_forall. intros e' He. rewrite List.Forall_forall in Hlt. apply Hlt, in_map. by apply list_elem_of_In.
  - cbn [cf_entries]. by rewrite (proj2 (Z.eqb_neq _ _)) by lia.
Qed.

(** Every slot after the entries have been filled in, when there is one for each. *)
Lemma filled_slots_spec cps : table_ok cps -> forall l k, Forall (fun e => (Z.to_nat (cp_idx (cp_height e)) < length l)%nat) cps ->
  let '(l', k') := foldl cf_fill_slot (l, k) (cf_entries cps) in
  k' = k + Z.of_nat (length cps) /\ length l' = length l /\
  forall i x, l !! i = Some x -> l' !! i = Some (default x (checkpoint_of cps ((Z.of_nat i + 1) * CFCHECKPT_INTERVAL))).
Proof.
  induction cps as [|e cps IH]; intros Hok l k Hlen.
  - cbn. split; [lia|]. split; [done|]. done.
  - apply Forall_cons_1 in Hlen as [He Hlen]. destruct (table_ok_cons e cps Hok) as (t & Ee & H1 & H2 & Hlt & Hok' & ->).
    cbn [foldl]. destruct (entry_idx (cp_height e) H1 H2) as (_ & _ & Hi0).
    assert (cf_fill_slot (l, k) (cp_height e, t) = (<[Z.to_nat (cp_idx (cp_height e)) := utils_uint256_sethex t]> l, k + 1)) as ->.
    { cbn [cf_fill_slot fst snd]. by rewrite (proj2 (Z.leb_gt _ _)) by lia. }
    set (l1 := <[_ := _]> l). assert (length l1 = length l) as Hl1 by apply length_insert.
    specialize (IH Hok' l1 (k + 1)). rewrite Hl1 in IH. specialize (IH Hlen).
    destruct (foldl cf_fill_slot (l1, k + 1) (cf_entries cps)) as [l' k'] eqn:E. destruct IH as (Hk & Hll & Hlook).
    split; [cbn [length]; lia|]. split; [done|]. intros i x Hx. unfold checkpoint_of. cbn [List.find].
    rewrite <- idx_height by done. destruct (Nat.eqb_spec (Z.to_nat (cp_idx (cp_height e))) i) as [Ei|Ni].
    + assert (l1 !! i = Some (utils_uint256_sethex t)) as H by (unfold l1; rewrite Ei; apply list_lookup_insert_eq; by eapply lookup_lt_Some).
      rewrite (Hlook i _ H). unfold checkpoint_of. rewrite find_none_iff.
      * rewrite Ee. done.
      * intros j e' Hj. rewrite Forall_forall in Hlt. pose proof (Hlt e' (list_elem_of_lookup_2 _ _ _ Hj)).
        pose proof (idx_height (cp_height e) i H1 H2) as Hh. rewrite Ei, Nat.eqb_refl in Hh. symmetry in Hh. apply Z.eqb_eq in Hh. lia.
    + assert (l1 !! i = Some x) as H by (unfold l1; by rewrite list_lookup_insert_ne).
      exact (Hlook i x H).
Qed.

Lemma foldl_max_ge (l : list Z) a : a <= foldl Z.max a l /\ Forall (fun x => x <= foldl Z.max a l) l.
Proof.
  revert a. induction l as [|x l IH]; intros a; cbn [foldl]; [split; [lia|constructor]|].
  destruct (IH (Z.max a x)) as [H1 H2]. split; [lia|]. constructor; [lia|done].
Qed.

Lemma foldl_max_in (l : list Z) a : foldl Z.max a l = a \/ foldl Z.max a l ∈ l.
Proof.
  revert a. induction l as [|x l IH]; intros a; cbn [foldl]; [by left|]. destruct (IH (Z.max a x)) as [->|H].
  - destruct (Z.max_spec a x) as [[_ ->]|[_ ->]]; [right; constructor|by left].
  - right. by constructor.
Qed.

Lemma entries_heights cps : table_ok cps -> map fst (cf_entries cps) = map cp_height cps.
Proof.
  induction cps as [|e cps IH]; intros Hok; [done|]. destruct (table_ok_cons e cps Hok) as (t & _ & _ & _ & _ & Hok' & ->).
  cbn [map fst]. by rewrite IH.
Qed.

Lemma entries_in cps h t : (h, t) ∈ cf_entries cps -> mk_checkpoint h (Some t) ∈ cps.
Proof.
  induction cps as [|[h' [t'|]] cps IH]; cbn [cf_entries]; [by intros ?%elem_of_nil| |]; destruct (h' =? 0); try by intros ?%elem_of_nil.
  intros [[= -> ->]|H]%elem_of_cons; [by left|right; by apply IH].
Qed.

(** Slots that hold what the table has pass the comparison. *)
Lemma slots_pass cps (l : list bytes) : table_ok cps ->
  (forall i : nat, (i < length l)%nat -> l !! i = Some (default (zeros 32) (checkpoint_of cps ((Z.of_nat i + 1) * CFCHECKPT_INTERVAL)))) ->
  cf_validate_checkpoints cps l = true.
Proof.
  intros [Hs Hall] Hl. unfold cf_validate_checkpoints. apply forallb_forall. intros [h t] Hi.
  destruct (Z.leb_spec (Z.of_nat (length l)) (cp_idx h)) as [|Hlt]; [done|].
  apply list_elem_of_In, entries_in in Hi. rewrite Forall_forall in Hall. destruct (Hall _ Hi) as (H1 & H2 & _). cbn [cp_height] in *.
  destruct (entry_idx h H1 H2) as (_ & _ & H0). specialize (Hl (Z.to_nat (cp_idx h)) ltac:(lia)).
  pose proof (idx_height h (Z.to_nat (cp_idx h)) H1 H2) as Hh. rewrite Nat.eqb_refl in Hh. symmetry in Hh. apply Z.eqb_eq in Hh. rewrite <- Hh in Hl.
  apply list_elem_of_lookup_1 in Hi as [j Hj]. unfold checkpoint_of in Hl. pose proof (find_ascending cps j _ Hs Hj) as Hf. cbn [cp_height] in Hf.
  rewrite Hf in Hl. cbn in Hl. rewrite (nth_lookup_Some _ _ _ _ Hl). by apply bool_decide_eq_true.
Qed.

(** Loading a table of checkpoints, with one for each interval or one for several: every entry counts,
    the slot of a height holds the header of that height, and zeros where the table has none, and
    checkpoints that were loaded in this way pass the comparison with the table. *)
Theorem loaded_checkpoints (s : filter_state) (cps : list cf_checkpoint) (Hok : table_ok cps) (Hn : cps <> []) :
  let '(loaded, s') := cf_load_hardcoded_checkpoints s cps in
  loaded = Z.of_nat (length cps) /\
  Z.of_nat (length (checkpoints s')) = table_max cps / CFCHECKPT_INTERVAL /\
  (forall i : nat, (i < length (checkpoints s'))%nat ->
     checkpoints s' !! i = Some (default (zeros 32) (checkpoint_of cps ((Z.of_nat i + 1) * CFCHECKPT_INTERVAL)))) /\
  cf_validate_checkpoints cps (checkpoints s') = true.
Proof.
  assert (Forall (fun e => cp_height e <= table_max cps) cps) as Hle.
  { unfold table_max. rewrite (entries_heights cps Hok). destruct (foldl_max_ge (map cp_height cps) 0) as [_ H].
    by rewrite Forall_map in H. }
  assert (exists e, e ∈ cps /\ table_max cps = cp_height e) as (em & Hem & Hmax).
  { unfold table_max in *. rewrite (entries_heights cps Hok) in *. destruct (foldl_max_in (map cp_height cps) 0) as [E|E].
    - destruct cps as [|e cps]; [done|]. destruct (table_ok_cons e cps Hok) as (t & _ & H1 & _).
      apply Forall_cons_1 in Hle as [Hle _]. lia.
    - apply list_elem_of_In, in_map_iff in E as (e & <- & E). exists e. split; [by apply list_elem_of_In|done]. }
  destruct Hok as [Hs Hall]. pose proof Hall as Hall'. rewrite Forall_forall in Hall. destruct (Hall em Hem) as (Hm1 & Hm2 & _).
  destruct (entry_idx _ Hm1 Hm2) as (Hm3 & Hmi & _). rewrite <- Hmax in *.
  assert (cp_idx (table_max cps) + 1 = table_max cps / CFCHECKPT_INTERVAL) as Hslots by (rewrite Hmi; unfold CFCHECKPT_INTERVAL; lia).
  unfold cf_load_hardcoded_checkpoints. destruct cps as [|e0 cps0]; [done|]. set (cps := e0 :: cps0) in *. fold (table_max cps).
  rewrite (proj2 (Z.eqb_neq _ _)) by lia. rewrite Hslots.
  assert (0 <= table_max cps / CFCHECKPT_INTERVAL < 2 ^ 32) as Hr by (unfold CFCHECKPT_INTERVAL; split; [apply Z.div_pos|apply Z.div_lt_upper_bound]; lia).
  rewrite wrap_small by (unfold urange; lia). set (n := Z.to_nat (table_max cps / CFCHECKPT_INTERVAL)).
  assert (Forall (fun e => (Z.to_nat (cp_idx (cp_height e)) < length (replicate n (zeros 32)))%nat) cps) as Hlen.
  { rewrite length_replicate. rewrite Forall_forall. intros e He. destruct (Hall e He) as (H1 & H2 & _). destruct (entry_idx _ H1 H2) as (_ & -> & _).
    rewrite Forall_forall in Hle. pose proof (Hle e He). unfold n, CFCHECKPT_INTERVAL.
    pose proof (Z.div_le_mono (cp_height e) (table_max cps) 1000 ltac:(lia) ltac:(lia)).
    assert (1 <= cp_height e / 1000) by (apply Z.div_le_lower_bound; [lia|]; destruct (entry_idx _ H1 H2); lia). lia. }
  pose proof (filled_slots_spec cps (conj Hs Hall') (replicate n (zeros 32)) 0 Hlen) as H.
  destruct (foldl cf_fill_slot (replicate n (zeros 32), 0) (cf_entries cps)) as [l' k'] eqn:E.
  destruct H as (Hk & Hl' & Hlook). rewrite length_replicate in Hl'. split; [lia|]. cbn [checkpoints with_checkpoints].
  split; [unfold n in Hl'; lia|]. assert (forall i : nat, (i < length l')%nat ->
     l' !! i = Some (default (zeros 32) (checkpoint_of cps ((Z.of_nat i + 1) * CFCHECKPT_INTERVAL)))) as Hslot.
  { intros i Hi. apply Hlook. apply lookup_replicate_2. lia. }
  split; [done|]. by apply slots_pass.
Qed.

Lemma loaded_checkpoints_witness :
  let cps := [mk_checkpoint 1000 (Some (replicate 64 Byte.x31)); mk_checkpoint 3000 (Some (replicate 64 Byte.x32))] in
  let '(loaded, s') := cf_load_hardcoded_checkpoints compact_filter_state_new cps in
  loaded = 2 /\ Z.of_nat (length (checkpoints s')) = 3 /\
  (forall i : nat, (i < length (checkpoints s'))%nat ->
     checkpoints s' !! i = Some (default (zeros 32) (checkpoint_of cps ((Z.of_nat i + 1) * CFCHECKPT_INTERVAL)))) /\
  cf_validate_checkpoints cps (checkpoints s') = true.
Proof.
  apply (loaded_checkpoints compact_filter_state_new [mk_checkpoint 1000 (Some (replicate 64 Byte.x31)); mk_checkpoint 3000 (Some (replicate 64 Byte.x32))]); [|done].
  split; [repeat constructor|]. repeat constructor; done.
Defined.
