(* ===== verification/Base64.v ===== *)
(** * Base 64 ([src/src/utils.c])

    The text form of signed messages and of transactions under construction. *)

From S2P Require Import Prelude.

Local Open Scope Z_scope.

(** ABC...Zabc...z0123456789+/ *)
Definition base64_char : bytes :=
  map (fun i => byte.of_Z (65 + Z.of_nat i)) (seq 0 26) ++ map (fun i => byte.of_Z (97 + Z.of_nat i)) (seq 0 26) ++
  map (fun i => byte.of_Z (48 + Z.of_nat i)) (seq 0 10) ++ [Byte.x2b; Byte.x2f].

(** The value of a character; 64 for the filling, 0 for what is no character of the code. *)
Definition base64_int (ch : Z) : Z :=
  if ch =? 43 then 62
  else if ch =? 47 then 63
  else if ch =? 61 then 64
  else if (47 <? ch) && (ch <? 58) then ch + 4
  else if (64 <? ch) && (ch <? 91) then ch - 65
  else if (96 <? ch) && (ch <? 123) then ch - 97 + 26
  else 0.

(** The numbers below [in_size] that are divisible by three are counted. *)
Definition base64_encoded_size (in_size : nat) : Z :=
  4 * Z.of_nat (length (List.filter (fun i => (i mod 3 =? 0)%nat) (seq 0 in_size))).

(** In 32 bits. *)
Definition base64_decoded_size (in_size : Z) : Z := wrap 32 (3 * in_size) / 4.

Definition char_at (i : Z) : Byte.byte := nth (Z.to_nat i) base64_char byte_zero.
Definition filling : Byte.byte := Byte.x3d.

(** Three bytes at a time; [s] are their values. *)
Fixpoint base64_encode (b : bytes) : bytes :=
  match b with
  | s0 :: s1 :: s2 :: b =>
      let s0 := byte.unsigned s0 in let s1 := byte.unsigned s1 in let s2 := byte.unsigned s2 in
      char_at (Z.shiftr (Z.land s0 255) 2) ::
      char_at (Z.shiftl (Z.land s0 0x03) 4 + Z.shiftr (Z.land s1 0xF0) 4) ::
      char_at (Z.shiftl (Z.land s1 0x0F) 2 + Z.shiftr (Z.land s2 0xC0) 6) ::
      char_at (Z.land s2 0x3F) :: base64_encode b
  | [s0; s1] =>
      let s0 := byte.unsigned s0 in let s1 := byte.unsigned s1 in
      [char_at (Z.shiftr (Z.land s0 255) 2);
       char_at (Z.shiftl (Z.land s0 0x03) 4 + Z.shiftr (Z.land s1 0xF0) 4);
       char_at (Z.shiftl (Z.land s1 0x0F) 2); filling]
  | [s0] =>
      let s0 := byte.unsigned s0 in
      [char_at (Z.shiftr (Z.land s0 255) 2); char_at (Z.shiftl (Z.land s0 0x03) 4 + Z.shiftr (Z.land 0 0xF0) 4); filling; filling]
  | [] => []
  end.

(** Four characters at a time; up to three at the end are dropped.  A sum is cut to a byte. *)
Fixpoint base64_decode (t : bytes) : bytes :=
  match t with
  | c0 :: c1 :: c2 :: c3 :: t =>
      let s0 := base64_int (byte.unsigned c0) in let s1 := base64_int (byte.unsigned c1) in
      let s2 := base64_int (byte.unsigned c2) in let s3 := base64_int (byte.unsigned c3) in
      let o0 := byte.of_Z (Z.shiftl (Z.land s0 255) 2 + Z.shiftr (Z.land s1 0x30) 4) in
      let o1 := byte.of_Z (Z.shiftl (Z.land s1 0x0F) 4 + Z.shiftr (Z.land s2 0x3C) 2) in
      let o2 := byte.of_Z (Z.shiftl (Z.land s2 0x03) 6 + s3) in
      (if s2 =? 64 then [o0] else if s3 =? 64 then [o0; o1] else [o0; o1; o2]) ++ base64_decode t
  | _ => []
  end.

(** ** The code *)

Definition below (n : nat) : list Z := map Z.of_nat (seq 0 n).

Lemma below_all n (P : Z -> bool) : forallb P (below n) = true -> forall z, 0 <= z < Z.of_nat n -> P z = true.
Proof.
  intros H z Hz. rewrite forallb_forall in H. apply H. unfold below. apply in_map_iff. exists (Z.to_nat z). split; [lia|]. apply in_seq. lia.
Qed.

(** A character stands for its index, and is not the filling. *)
Lemma char_value i : 0 <= i < 64 -> base64_int (byte.unsigned (char_at i)) = i.
Proof. intros Hi. apply Z.eqb_eq. revert i Hi. apply (below_all 64). vm_compute. reflexivity. Qed.

(** The parts of a byte. *)
Lemma byte_parts x : 0 <= x < 256 ->
  Z.shiftr (Z.land x 255) 2 = x / 4 /\ Z.shiftl (Z.land x 3) 4 = x mod 4 * 16 /\ Z.shiftr (Z.land x 0xF0) 4 = x / 16 /\
  Z.shiftl (Z.land x 0x0F) 2 = x mod 16 * 4 /\ Z.shiftr (Z.land x 0xC0) 6 = x / 64 /\ Z.land x 0x3F = x mod 64.
Proof.
  intros Hx. set (P := fun x => (Z.shiftr (Z.land x 255) 2 =? x / 4) && (Z.shiftl (Z.land x 3) 4 =? x mod 4 * 16) &&
    (Z.shiftr (Z.land x 0xF0) 4 =? x / 16) && (Z.shiftl (Z.land x 0x0F) 2 =? x mod 16 * 4) && (Z.shiftr (Z.land x 0xC0) 6 =? x / 64) &&
    (Z.land x 0x3F =? x mod 64)).
  assert (P x = true) as H by (revert x Hx; apply (below_all 256); vm_compute; reflexivity).
  unfold P in H. rewrite !andb_true_iff, !Z.eqb_eq in H. tauto.
Qed.

(** The parts of a value of a character. *)
Lemma value_parts s : 0 <= s < 64 ->
  Z.shiftl (Z.land s 255) 2 = s * 4 /\ Z.shiftr (Z.land s 0x30) 4 = s / 16 /\ Z.shiftl (Z.land s 0x0F) 4 = s mod 16 * 16 /\
  Z.shiftr (Z.land s 0x3C) 2 = s / 4 /\ Z.shiftl (Z.land s 3) 6 = s mod 4 * 64.
Proof.
  intros Hs. set (P := fun s => (Z.shiftl (Z.land s 255) 2 =? s * 4) && (Z.shiftr (Z.land s 0x30) 4 =? s / 16) &&
    (Z.shiftl (Z.land s 0x0F) 4 =? s mod 16 * 16) && (Z.shiftr (Z.land s 0x3C) 2 =? s / 4) && (Z.shiftl (Z.land s 3) 6 =? s mod 4 * 64)).
  assert (P s = true) as H by (revert s Hs; apply (below_all 64); vm_compute; reflexivity).
  unfold P in H. rewrite !andb_true_iff, !Z.eqb_eq in H. tauto.
Qed.

Lemma triple_split x y z : 0 <= x < 256 -> 0 <= y < 256 -> 0 <= z < 256 ->
  let s0 := x / 4 in let s1 := x mod 4 * 16 + y / 16 in let s2 := y mod 16 * 4 + z / 64 in let s3 := z mod 64 in
  (0 <= s0 < 64 /\ 0 <= s1 < 64 /\ 0 <= s2 < 64 /\ 0 <= s3 < 64) /\
  s0 * 4 + s1 / 16 = x /\ s1 mod 16 * 16 + s2 / 4 = y /\ s2 mod 4 * 64 + s3 = z.
Proof. intros Hx Hy Hz. cbv zeta. Z.div_mod_to_equations. lia. Qed.

Lemma decode_quad s0 s1 s2 s3 t : 0 <= s0 < 64 -> 0 <= s1 < 64 -> 0 <= s2 < 64 -> 0 <= s3 < 64 ->
  base64_decode (char_at s0 :: char_at s1 :: char_at s2 :: char_at s3 :: t) =
  [byte.of_Z (s0 * 4 + s1 / 16); byte.of_Z (s1 mod 16 * 16 + s2 / 4); byte.of_Z (s2 mod 4 * 64 + s3)] ++ base64_decode t.
Proof.
  intros H0 H1 H2 H3. cbn [base64_decode]. rewrite !char_value by done.
  destruct (value_parts s0 H0) as (-> & _), (value_parts s1 H1) as (_ & -> & -> & _), (value_parts s2 H2) as (_ & _ & _ & -> & ->).
  by rewrite !(proj2 (Z.eqb_neq _ _)) by lia.
Qed.

(** Three bytes at a time, and one or two at the end. *)
Lemma bytes_by_three (P : bytes -> Prop) : P [] -> (forall a, P [a]) -> (forall a b, P [a; b]) ->
  (forall a b c l, P l -> P (a :: b :: c :: l)) -> forall l, P l.
Proof.
  intros H0 H1 H2 H3. fix IH 1. intros [|a [|b [|c l]]]; [done|apply H1|apply H2|apply H3, IH].
Qed.

Lemma byte_of_unsigned b : byte.of_Z (byte.unsigned b) = b.
Proof. apply byte.of_Z_unsigned. Qed.

Lemma three_mods k : ((k * 3) mod 3 = 0 /\ S (k * 3) mod 3 = 1 /\ S (S (k * 3)) mod 3 = 2)%nat.
Proof.
  split; [apply Nat.Div0.mod_mul|]. replace (S (k * 3)) with (1 + k * 3)%nat by lia. replace (S (1 + k * 3)) with (2 + k * 3)%nat by lia.
  by rewrite !Nat.Div0.mod_add.
Qed.

Lemma base64_decode_encode b : base64_decode (base64_encode b) = b.
Proof.
  induction b as [|a|a b|a b c l IH] using bytes_by_three; [done| | |].
    + pose proof (byte.unsigned_range a) as Ha. cbn [base64_encode]. destruct (byte_parts _ Ha) as (-> & -> & _).
      change (Z.shiftr (Z.land 0 0xF0) 4) with 0. set (x := byte.unsigned a) in *.
      assert (0 <= x / 4 < 64 /\ 0 <= x mod 4 * 16 + 0 < 64 /\ x / 4 * 4 + (x mod 4 * 16 + 0) / 16 = x) as (B0 & B1 & E) by (Z.div_mod_to_equations; lia).
      cbn [base64_decode]. rewrite !char_value by done. destruct (value_parts _ B0) as (-> & _), (value_parts _ B1) as (_ & -> & _).
      cbn. rewrite E. unfold x. by rewrite byte_of_unsigned.
    + pose proof (byte.unsigned_range a) as Ha. pose proof (byte.unsigned_range b) as Hb. cbn [base64_encode].
      destruct (byte_parts _ Ha) as (-> & -> & _), (byte_parts _ Hb) as (_ & _ & -> & -> & _).
      destruct (triple_split _ _ 0 Ha Hb ltac:(lia)) as ((B0 & B1 & B2 & _) & E0 & E1 & _). change (0 / 64) with 0 in *. rewrite Z.add_0_r in B2, E1.
      cbn [base64_decode]. rewrite !char_value by done.
      destruct (value_parts _ B0) as (-> & _), (value_parts _ B1) as (_ & -> & -> & _), (value_parts _ B2) as (_ & _ & _ & -> & _).
      rewrite (proj2 (Z.eqb_neq (byte.unsigned b mod 16 * 4) 64)) by lia. cbn [Z.eqb]. change (base64_int (byte.unsigned filling) =? 64) with true.
      rewrite E0, E1. by rewrite !byte_of_unsigned.
    + pose proof (byte.unsigned_range a) as Ha. pose proof (byte.unsigned_range b) as Hb. pose proof (byte.unsigned_range c) as Hc. cbn [base64_encode].
      destruct (byte_parts _ Ha) as (-> & -> & _), (byte_parts _ Hb) as (_ & _ & -> & -> & _), (byte_parts _ Hc) as (_ & _ & _ & _ & -> & ->).
      destruct (triple_split _ _ _ Ha Hb Hc) as ((B0 & B1 & B2 & B3) & E0 & E1 & E2).
      rewrite decode_quad by done. rewrite E0, E1, E2, IH. by rewrite !byte_of_unsigned.
Qed.

Lemma base64_length b : Z.of_nat (length (base64_encode b)) = base64_encoded_size (length b).
Proof.
  unfold base64_encoded_size. assert (forall k, length (List.filter (fun i => (i mod 3 =? 0)%nat) (seq (3 * k) (length b))) =
      (length (base64_encode b) / 4)%nat /\ (length (base64_encode b) mod 4 = 0)%nat) as H.
    { induction b as [|a|a b|a b c l IH] using bytes_by_three; intros k.
      - done.
      - cbn [length seq List.filter base64_encode]. replace (3 * k)%nat with (k * 3)%nat by lia. by destruct (three_mods k) as (-> & _).
      - cbn [length seq List.filter base64_encode]. replace (3 * k)%nat with (k * 3)%nat by lia. by destruct (three_mods k) as (-> & -> & _).
      - cbn [length base64_encode]. destruct (IH (S k)) as [IH1 IH2]. replace (3 * S k)%nat with (S (S (S (k * 3)))) in IH1 by lia.
        cbn [seq List.filter]. replace (3 * k)%nat with (k * 3)%nat by lia. destruct (three_mods k) as (-> & -> & ->).
        cbn [Nat.eqb length]. rewrite IH1.
        set (n := length (base64_encode l)) in *. replace (S (S (S (S n)))) with (n + 1 * 4)%nat by lia.
        rewrite Nat.Div0.mod_add, Nat.div_add by lia. split; [lia|done]. }
    destruct (H 0%nat) as [H1 H2]. change (3 * 0)%nat with 0%nat in H1. rewrite H1. pose proof (Nat.div_mod_eq (length (base64_encode b)) 4). lia.
Qed.

(** Text and bytes: what is encoded is decoded to the same bytes, whatever their number, and the
    text has the length for which room is made. *)
Theorem base64_round_trip (b : bytes) :
  base64_decode (base64_encode b) = b /\ Z.of_nat (length (base64_encode b)) = base64_encoded_size (length b).
Proof. split; [apply base64_decode_encode|apply base64_length]. Qed.

(** A character that is not of the code counts as A. *)
Example bad_characters_accepted : base64_decode [Byte.x21; Byte.x20; Byte.x0a; Byte.x7e] = [Byte.x00; Byte.x00; Byte.x00].
Proof. reflexivity. Qed.

Example base64_example : base64_encode [Byte.x4d; Byte.x61; Byte.x6e; Byte.x4d] = [Byte.x54; Byte.x57; Byte.x46; Byte.x75; Byte.x54; Byte.x51; Byte.x3d; Byte.x3d].
Proof. reflexivity. Qed.
