(* ===== verification/Sign.v ===== *)
(** * Signed messages ([src/src/sign.c])

    A message is hashed behind a fixed text, signed with a key in the wallet format, and the
    signature, in base 64, is checked against the address of the key.  The file joins [Keys],
    [Base64], [Address] and [Chainparams]. *)

From Stdlib Require Import String.
From S2P Require Import Prelude Words Mem Sha256 Base58 Base64 Rmd160 Utils Script Tx Address Chainparams Keys.

Local Open Scope Z_scope.

#[local] Opaque dogecoin_hash sha256_raw rmd160 base58_encode_check base58_decode_check.

Definition msg_magic : bytes := list_byte_of_string "Dogecoin Signed Message:" ++ [Byte.x0a].

(** Two lengths, of one byte each, in front of the texts.  The number of hashed bytes is that of
    the buffer as a string. *)
Definition hash_message (msg : bytes) : option bytes :=
  let msg_magic_len := length msg_magic in
  let msg_len := length msg in
  let tmp_msg := byte.of_Z (Z.of_nat msg_magic_len) :: msg_magic ++ byte.of_Z (Z.of_nat msg_len) :: msg ++ [byte_zero] in
  n ← c_strlen tmp_msg;
  Some (dogecoin_hash (take n tmp_msg)).

Section with_library.
Context `{L : Secp256k1}.

(** The signature, or NULL; the outer [None]: undefined behaviour or a failed assertion. *)
Definition sign_message (privkey msg : bytes) (rnddata : option bytes) : option (option bytes) :=
  message_bytes ← hash_message msg;
  '(ok, key, pk) ← init_keypair privkey rnddata;
  if negb ok then Some None
  else
    let '(ok, compact_signature, compact_signature_length, recid) := key_sign_hash_compact_recoverable_fcomp key message_bytes 65 (-1) in
    if negb ok then Some None
    else
      '(ok, pk) ← key_recover_pubkey compact_signature message_bytes recid pk;
      if negb ok then Some None
      else
        let '(ok, p2pkh_address) := pubkey_getaddr_p2pkh pk (prefixes_of dogecoin_chainparams_main) in
        if negb ok then Some None
        else Some (Some (base64_encode (take compact_signature_length compact_signature))).

(** The decoded bytes are followed by a terminator; a signature that is too short is read
    behind it. *)
Definition verify_message (sig msg address : bytes) : option bool :=
  message_bytes ← hash_message msg;
  let decoded_signature := base64_decode sig ++ [byte_zero] in
  let header := byte.unsigned (hd byte_zero decoded_signature) in
  if (header <? 27) || (42 <? header) then Some false
  else if (length decoded_signature <? 65)%nat then None
  else
    let '(compressed, header) := if 31 <=? header then (true, header - 4) else (false, header) in
    let pub_key := mk_pubkey compressed (pk_bytes pubkey_init) in
    let recid := header - 27 in
    '(ok, pub_key) ← key_recover_pubkey decoded_signature message_bytes recid pub_key;
    if negb ok then Some false
    else if negb (pubkey_verify_sigcmp pub_key message_bytes decoded_signature) then Some false
    else
      let chain := chain_params (chain_from_b58_prefix address) in
      let '(ok, p2pkh_address) := pubkey_getaddr_p2pkh pub_key (prefixes_of chain) in
      if negb ok then Some false
      else Some (bytes_eqb p2pkh_address (address ++ [byte_zero])).

(** ** The hash of a message *)

Lemma hash_message_some msg : nul_free msg -> is_Some (hash_message msg).
Proof.
  intros Hm. unfold hash_message. destruct (decide (Z.of_nat (length msg) mod 256 = 0)) as [E|E].
  - assert (byte.of_Z (Z.of_nat (length msg)) = byte_zero) as ->.
    { apply byte.unsigned_inj. rewrite byte_unsigned_of_Z. exact E. }
    change (byte.of_Z (Z.of_nat (length msg_magic)) :: msg_magic ++ byte_zero :: msg ++ [byte_zero])
      with ((byte.of_Z (Z.of_nat (length msg_magic)) :: msg_magic) ++ byte_zero :: msg ++ [byte_zero]).
    rewrite c_strlen_app; [by eexists|]. repeat constructor.
  - assert (nul_free (byte.of_Z (Z.of_nat (length msg)) :: msg)) as Hn.
    { constructor; [|done]. destruct (byte_eqb _ _) eqn:Eb; [|done]. apply Byte.byte_dec_bl in Eb.
      apply (f_equal byte.unsigned) in Eb. rewrite byte_unsigned_of_Z in Eb. done. }
    replace (byte.of_Z (Z.of_nat (length msg_magic)) :: msg_magic ++ byte.of_Z (Z.of_nat (length msg)) :: msg ++ [byte_zero])
      with ((byte.of_Z (Z.of_nat (length msg_magic)) :: msg_magic ++ byte.of_Z (Z.of_nat (length msg)) :: msg) ++ [byte_zero])
      by (cbn [app]; rewrite <- app_assoc; reflexivity).
    rewrite c_strlen_app; [by eexists|]. apply Forall_cons. split; [done|]. apply Forall_app. split; [repeat constructor|done].
Qed.

(** The hash of a message whose length is a multiple of 256 does not depend on the message,
    because the byte for its length ends the string that is hashed: a signature of one such
    message is accepted for every other one. *)
Theorem long_messages_collide (msg msg' sig address : bytes)
  (H : Z.of_nat (length msg) mod 256 = 0) (H' : Z.of_nat (length msg') mod 256 = 0) :
  hash_message msg = Some (dogecoin_hash (byte.of_Z (Z.of_nat (length msg_magic)) :: msg_magic)) /\
  verify_message sig msg address = verify_message sig msg' address.
Proof.
  assert (forall m, Z.of_nat (length m) mod 256 = 0 ->
    hash_message m = Some (dogecoin_hash (byte.of_Z (Z.of_nat (length msg_magic)) :: msg_magic))) as E.
  { intros m Hm. unfold hash_message. assert (byte.of_Z (Z.of_nat (length m)) = byte_zero) as ->.
    { apply byte.unsigned_inj. rewrite byte_unsigned_of_Z. exact Hm. }
    set (head := byte.of_Z (Z.of_nat (length msg_magic)) :: msg_magic).
    change (byte.of_Z (Z.of_nat (length msg_magic)) :: msg_magic ++ byte_zero :: m ++ [byte_zero]) with (head ++ byte_zero :: m ++ [byte_zero]).
    rewrite c_strlen_app by (repeat constructor). cbn [mbind option_bind]. by rewrite take_app_exact. }
  split; [by apply E|]. unfold verify_message. by rewrite !E.
Qed.

(** ** What is signed is verified *)

Context {G : Secp256k1Group L} {S : Secp256k1Signatures L}.

(** The address of a public key, as a string. *)
Lemma address_text c pk : c <> CHAIN_REGTEST -> exists addr, pubkey_getaddr_p2pkh pk (prefixes_of (chain_params c)) = (true, addr ++ [byte_zero]) /\
  chain_from_b58_prefix addr = c.
Proof.
  intros Hc. assert (length (pubkey_get_hash160 pk) = 20%nat) as Hl by apply rmd160_length.
  unfold pubkey_getaddr_p2pkh. set (h := pubkey_get_hash160 pk) in *.
  pose proof (address_fits (prefixes_of (chain_params c)) h Hl) as Hf.
  pose proof (chain_detected c _ Hc (text_address c h 100 Hl Hf)) as Hd. unfold p2pkh_addr_from_hash160 in *.
  destruct (encode_check_spec (byte.of_Z (pubkey_address (prefixes_of (chain_params c))) :: take 20 h)
    ltac:(cbn [length]; rewrite length_take; lia)) as (s & _ & _ & E). rewrite E in *.
  destruct (100 <=? _); cbn [fst snd] in *; [done|]. exists s. split; [done|]. by destruct s.
Qed.

(** C15: a message that is signed with a valid key is verified against the address of the key, on
    the main chain and on the test chain. *)
Theorem message_round_trip (c : chain_name) (k msg rnd : bytes) (Hz : zero_refused) (Hc : c <> CHAIN_REGTEST)
  (Hl : length k = 32%nat) (Hv : privkey_is_valid k = true) (Hm : nul_free msg) :
  exists wif p addr sig, privkey_encode_wif k (prefixes_of (chain_params c)) 100 = (wif ++ [byte_zero], 100) /\ ec_pubkey_create k = Some p /\
    pubkey_getaddr_p2pkh (public_of k p) (prefixes_of (chain_params c)) = (true, addr ++ [byte_zero]) /\
    sign_message wif msg (Some rnd) = Some (Some sig) /\ verify_message sig msg addr = Some true.
Proof.
  destruct (init_keypair_spec c k rnd Hz Hc Hl Hv) as (wif & p & _ & He & Hp & _ & Hi).
  destruct (address_text c (public_of k p) Hc) as (addr & Ha & Hca). destruct (hash_message_some msg Hm) as [h Hh].
  destruct (sign_formats k h p Hl Hv Hp) as [_ _ (sig & recid & Hs & Hls & Hr & Hhd & Hrec & Hver)].
  exists wif, p, addr, (base64_encode sig). split_and!; [done..| |].
  - unfold sign_message. rewrite Hh. cbn [mbind option_bind]. rewrite Hi. cbn [mbind option_bind negb]. rewrite Hs. cbn [negb].
    rewrite Hrec. cbn [mbind option_bind negb]. destruct (address_text CHAIN_MAIN (public_of k p) ltac:(done)) as (? & Ea & _).
    cbn [chain_params] in Ea. rewrite Ea. cbn [negb]. rewrite take_ge by lia. done.
  - unfold verify_message. rewrite Hh. cbn [mbind option_bind]. rewrite base64_decode_encode.
    destruct sig as [|b sig]; [done|]. cbn [hd app] in *. rewrite Hhd.
    rewrite (proj2 (Z.ltb_ge _ _)), (proj2 (Z.ltb_ge 42 _)) by lia. cbn [orb].
    rewrite (proj2 (Nat.ltb_ge _ _)) by (cbn [length] in *; rewrite length_app; lia).
    rewrite (proj2 (Z.leb_le 31 _)) by lia. replace (31 + recid - 4 - 27) with recid by lia.
    assert (forall pk', key_recover_pubkey (b :: sig ++ [byte_zero]) h recid pk' = key_recover_pubkey (b :: sig) h recid pk' /\
      pubkey_verify_sigcmp pk' h (b :: sig ++ [byte_zero]) = pubkey_verify_sigcmp pk' h (b :: sig)) as Et.
    { intros pk'. unfold key_recover_pubkey, recover_pubkey, pubkey_verify_sigcmp, ecc_verify_sigcmp. cbn [drop]. rewrite !drop_0.
      rewrite take_app_exact, (take_ge sig) by (cbn [length] in Hls; lia). done. }
    rewrite (proj1 (Et _)), Hrec. cbn [mbind option_bind negb]. rewrite (proj2 (Et _)), Hver. cbn [negb]. rewrite Hca, Ha. cbn [negb].
    f_equal. by apply bool_decide_eq_true.
Qed.
End with_library.

Lemma long_messages_collide_witness :
  verify_message (L := integers not_zero) [] [] [] = verify_message (L := integers not_zero) [] (replicate 256 Byte.x61) [].
Proof. apply (long_messages_collide (L := integers not_zero) [] (replicate 256 Byte.x61)); reflexivity. Defined.

Lemma message_round_trip_witness :
  exists wif p addr sig, privkey_encode_wif (replicate 32 Byte.x01) (prefixes_of dogecoin_chainparams_main) 100 = (wif ++ [byte_zero], 100) /\
    ec_pubkey_create (Secp256k1 := integers not_zero) (replicate 32 Byte.x01) = Some p /\
    pubkey_getaddr_p2pkh (public_of (L := integers not_zero) (replicate 32 Byte.x01) p) (prefixes_of dogecoin_chainparams_main) = (true, addr ++ [byte_zero]) /\
    sign_message (L := integers not_zero) wif [Byte.x68; Byte.x69] (Some []) = Some (Some sig) /\
    verify_message (L := integers not_zero) sig [Byte.x68; Byte.x69] addr = Some true.
Proof.
  apply (message_round_trip (L := integers not_zero) CHAIN_MAIN (replicate 32 Byte.x01) [Byte.x68; Byte.x69] []);
    [split; reflexivity|discriminate|reflexivity|vm_compute; reflexivity|repeat constructor].
Defined.
