(* ===== verification/Bip32.v ===== *)
(** * Extended keys ([src/src/bip32.c], [src/src/bip44.c])

    Nodes of the tree of keys: children of private and of public nodes, the text of a node, paths,
    and the wrappers that go from text to text.  The operations on points are those of [Keys]. *)

From Stdlib Require Import String.
From S2P Require Import Prelude Words Mem Sha256 Sha512 Base58 Rmd160 Utils Script Address Koinu Chainparams Keys.

Local Open Scope Z_scope.

#[local] Opaque dogecoin_hash sha256_raw rmd160 hmac_sha512 base58_encode_check base58_decode_check.

Definition DOGECOIN_BIP32_CHAINCODE_SIZE : nat := 32.
Definition HDKEYLEN : Z := 112.

Record hdnode := mk_node {
  nd_depth : Z; nd_fingerprint : Z; nd_child_num : Z;
  nd_chain_code : bytes; nd_private_key : bytes; nd_public_key : bytes }.

(** The size of the structure, with its padding. *)
Definition sizeof_hdnode : nat := 112.

(** Four bytes, the highest first: [write_be] and [read_be]. *)
Definition write_be (x : Z) : bytes := be_enc 4 x.
Definition read_be (data : bytes) : Z := be_dec (take 4 data).

Definition hdnode_new : hdnode := mk_node 0 0 0 (zeros 32) (zeros 32) (zeros 33).
Definition hdnode_copy (n : hdnode) : hdnode :=
  mk_node (nd_depth n) (nd_fingerprint n) (nd_child_num n) (nd_chain_code n) (nd_private_key n) (nd_public_key n).

Definition with_private (n : hdnode) (k : bytes) : hdnode :=
  mk_node (nd_depth n) (nd_fingerprint n) (nd_child_num n) (nd_chain_code n) k (nd_public_key n).
Definition with_public (n : hdnode) (k : bytes) : hdnode :=
  mk_node (nd_depth n) (nd_fingerprint n) (nd_child_num n) (nd_chain_code n) (nd_private_key n) k.
Definition with_chain (n : hdnode) (c : bytes) : hdnode :=
  mk_node (nd_depth n) (nd_fingerprint n) (nd_child_num n) c (nd_private_key n) (nd_public_key n).
Definition with_place (n : hdnode) (depth fingerprint child_num : Z) : hdnode :=
  mk_node depth fingerprint child_num (nd_chain_code n) (nd_private_key n) (nd_public_key n).

Definition seed_key : bytes := list_byte_of_string "Bitcoin seed".
Definition HARDENED : Z := 0x80000000.

Section with_library.
Context `{L : Secp256k1}.

Definition hdnode_fill_public_key (n : hdnode) : option hdnode :=
  out ← ecc_get_pubkey (nd_private_key n) 33 true; Some (with_public n out).

(** The result and [*out]. *)
Definition hdnode_from_seed (seed : bytes) : option (bool * hdnode) :=
  let I := hmac_sha512 seed_key seed in
  let out := with_private hdnode_new (take 32 I) in
  if negb (ecc_verify_privatekey (nd_private_key out)) then Some (false, out)
  else
    out ← hdnode_fill_public_key (with_chain out (drop 32 I));
    Some (true, out).

(** The first bytes of the hash of the public key. *)
Definition key_fingerprint (public_key : bytes) : Z := read_be (rmd160 (sha256_raw (take 33 public_key)) 32).

(** The result and [*inout].  [failed] is set to false when the addition fails. *)
Definition hdnode_public_ckd (inout : hdnode) (i : Z) : bool * hdnode :=
  if negb (Z.land i HARDENED =? 0) then (false, inout)
  else
    let data := take 33 (nd_public_key inout) ++ write_be i in
    let inout := with_place inout (nd_depth inout) (key_fingerprint (nd_public_key inout)) (nd_child_num inout) in
    let inout := with_private inout (zeros 32) in
    let failed := false in
    let I := hmac_sha512 (nd_chain_code inout) data in
    let inout := with_chain inout (drop 32 I) in
    let '(ok, public_key) := ecc_public_key_tweak_add (nd_public_key inout) I in
    let inout := with_public inout public_key in
    let failed := if negb ok then false else failed in
    let inout := if negb failed then with_place inout (u32 (nd_depth inout + 1)) (nd_fingerprint inout) i else inout in
    (if failed then false else true, inout).

Definition hdnode_private_ckd (inout : hdnode) (i : Z) : option (bool * hdnode) :=
  let data := (if negb (Z.land i HARDENED =? 0) then Byte.x00 :: nd_private_key inout else take 33 (nd_public_key inout)) ++ write_be i in
  let inout := with_place inout (nd_depth inout) (key_fingerprint (nd_public_key inout)) (nd_child_num inout) in
  let p := nd_private_key inout in
  let I := hmac_sha512 (nd_chain_code inout) data in
  let inout := with_chain inout (drop 32 I) in
  let z := take 32 I in
  let failed := negb (ecc_verify_privatekey z) in
  let '(ok, private_key) := ecc_private_key_tweak_add p z in
  let inout := with_private inout private_key in
  let failed := if negb ok then true else failed in
  inout ← (if negb failed then hdnode_fill_public_key (with_place inout (u32 (nd_depth inout + 1)) (nd_fingerprint inout) i) else Some inout);
  Some (true, inout).

Definition hdnode_private_ckd_prime (inout : hdnode) (i : Z) : option (bool * hdnode) := hdnode_private_ckd inout (Z.lor i HARDENED).

(** ** The text of a node *)

(** The depth is written in one byte. *)
Definition node_data (n : hdnode) (version : Z) (use_public : bool) : bytes :=
  write_be version ++ [byte.of_Z (nd_depth n)] ++ write_be (nd_fingerprint n) ++ write_be (nd_child_num n) ++ nd_chain_code n ++
  (if use_public then nd_public_key n else Byte.x00 :: nd_private_key n).

(** What is written to [str]; whether it fits is not looked at. *)
Definition hdnode_serialize (n : hdnode) (version : Z) (use_public : bool) (strsize : Z) : bytes :=
  (base58_encode_check (node_data n version use_public) strsize).2.

Definition hdnode_serialize_public (n : hdnode) (chain : dogecoin_chainparams) (strsize : Z) : bytes :=
  hdnode_serialize n (b58prefix_bip32_pubkey chain) true strsize.
Definition hdnode_serialize_private (n : hdnode) (chain : dogecoin_chainparams) (strsize : Z) : bytes :=
  hdnode_serialize n (b58prefix_bip32_privkey chain) false strsize.

Definition hdnode_get_hash160 (n : hdnode) : bytes := rmd160 (hash_sngl_sha256 (take 33 (nd_public_key n))) 32.
Definition hdnode_get_p2pkh_address (n : hdnode) (chain : dogecoin_chainparams) (strsize : Z) : bytes :=
  (base58_encode_check (byte.of_Z (b58prefix_pubkey_address chain) :: hdnode_get_hash160 n) strsize).2.
Definition hdnode_get_pub_hex (n : hdnode) (strsize : Z) : option (bytes * Z) :=
  pubkey_get_hex (mk_pubkey true (copy_to (pk_bytes pubkey_init) (take 33 (nd_public_key n)))) strsize.

(** The result and [*node]; the length of the payload is not looked at. *)
Definition hdnode_deserialize (str : bytes) (chain : dogecoin_chainparams) : option (bool * hdnode) :=
  let node := hdnode_new in
  '(r, node_data) ← base58_decode_check str sizeof_hdnode;
  if (r =? 0)%nat then Some (false, node)
  else
    let version := read_be node_data in
    let fields n :=
      let n := with_place n (byte.unsigned (nth 4 node_data byte_zero)) (read_be (drop 5 node_data)) (read_be (drop 9 node_data)) in
      Some (true, with_chain n (take 32 (drop 13 node_data))) in
    if version =? b58prefix_bip32_pubkey chain then fields (with_public node (take 33 (drop 45 node_data)))
    else if version =? b58prefix_bip32_privkey chain then
      if negb (byte.unsigned (nth 45 node_data byte_zero) =? 0) then Some (false, node)
      else node ← hdnode_fill_public_key (with_private node (take 32 (drop 46 node_data))); fields node
    else Some (false, node).

(** ** Paths *)

Definition slash : Byte.byte := Byte.x2f.
(** The delimiter p, h, H or an apostrophe. *)
Definition is_prime (c : Byte.byte) : bool := match c with Byte.x70 | Byte.x68 | Byte.x48 | Byte.x27 => true | _ => false end.

(** The calls of [strtok_r]: the pieces between slashes that are not empty; [cur] is the piece
    that has been read, backwards. *)
Fixpoint tokens (cur s : bytes) : list bytes :=
  match s with
  | [] => match cur with [] => [] | _ => [rev cur] end
  | c :: s =>
      if byte_eqb c slash then match cur with [] => tokens [] s | _ => rev cur :: tokens [] s end
      else tokens (c :: cur) s
  end.

(** The loop over a component: whether it is hardened; [None]: it is refused. *)
Fixpoint component_prime (pch : bytes) (usepubckd : bool) : option bool :=
  match pch with
  | [] => Some false
  | c :: r =>
      if is_prime c then
        match r with
        | [] => if usepubckd then None else Some true
        | _ => None
        end
      else if is_digit c then component_prime r usepubckd else None
  end.

(** One component; the result and the node. *)
Definition path_step (usepubckd : bool) (node : hdnode) (pch : bytes) : option (bool * hdnode) :=
  match component_prime pch usepubckd with
  | None => Some (false, node)
  | Some prm =>
      let '(idx, _, _) := strtoull pch in
      if 2 ^ 32 - 1 <? idx then Some (false, node)
      else if prm then hdnode_private_ckd_prime node idx
      else if usepubckd then Some (hdnode_public_ckd node idx)
      else hdnode_private_ckd node idx
  end.

(** Until one is refused. *)
Fixpoint path_loop (usepubckd : bool) (node : hdnode) (l : list bytes) : option (bool * hdnode) :=
  match l with
  | [] => Some (true, node)
  | pch :: l =>
      '(ok, node) ← path_step usepubckd node pch;
      if negb ok then Some (false, node) else path_loop usepubckd node l
  end.

(** The result and [*node], which has some contents before. *)
Definition hd_generate_key (node : hdnode) (keypath keymaster : bytes) (depth : Z) (chaincode : bytes) (usepubckd : bool) : option (bool * hdnode) :=
  if negb (length keypath <? 1024)%nat then None
  else
    match keypath with
    | m :: s :: kp =>
        if negb (byte_eqb m Byte.x6d) || negb (byte_eqb s slash) then Some (false, node)
        else
          let node := with_chain (with_place node depth 0 0) (take 32 chaincode) in
          node ← (if usepubckd then Some (with_public node (take 33 keymaster))
                  else hdnode_fill_public_key (with_private node (take 32 keymaster)));
          path_loop usepubckd node (tokens [] kp)
    | _ => Some (false, node)
    end.

Definition hdnode_has_privkey (n : hdnode) : bool := existsb (fun b => negb (byte_eqb b byte_zero)) (nd_private_key n).

(** ** From text to text *)

(** All four return true; the node that is derived has some contents before. *)
Definition getHDRootKeyFromSeed (seed : bytes) (is_testnet : bool) : option bytes :=
  '(_, node) ← hdnode_from_seed seed;
  Some (hdnode_serialize_private node (chain_of_flag is_testnet) HDKEYLEN).

Definition getHDPubKey (hdkey : bytes) (is_testnet : bool) : option bytes :=
  '(_, node) ← hdnode_deserialize hdkey (chain_of_flag is_testnet);
  Some (hdnode_serialize_public node (chain_of_flag is_testnet) HDKEYLEN).

Definition deriveExtKeyFromHDKey (node : hdnode) (extkey keypath : bytes) (is_testnet : bool) : option bytes :=
  '(_, parent) ← hdnode_deserialize extkey (chain_of_flag is_testnet);
  '(_, node) ← hd_generate_key node keypath (nd_private_key parent) (nd_depth parent) (nd_chain_code parent) false;
  Some (hdnode_serialize_private node (chain_of_flag is_testnet) HDKEYLEN).

Definition deriveExtPubKeyFromHDKey (node : hdnode) (extpubkey keypath : bytes) (is_testnet : bool) : option bytes :=
  '(_, parent) ← hdnode_deserialize extpubkey (chain_of_flag is_testnet);
  '(_, node) ← hd_generate_key node keypath (nd_public_key parent) (nd_depth parent) (nd_chain_code parent) true;
  Some (hdnode_serialize_public node (chain_of_flag is_testnet) HDKEYLEN).

(** ** Children *)

(** The bytes that are added to the key of a node for a child. *)
Definition child_data (n : hdnode) (i : Z) : bytes :=
  hmac_sha512 (nd_chain_code n) ((if negb (Z.land i HARDENED =? 0) then Byte.x00 :: nd_private_key n else take 33 (nd_public_key n)) ++ write_be i).
Definition child_tweak (n : hdnode) (i : Z) : bytes := take 32 (child_data n i).

(** The step does not fail, which it does with negligible probability. *)
Definition derivable (n : hdnode) (i : Z) : Prop :=
  ec_seckey_verify (child_tweak n i) = true /\ (ec_privkey_tweak_add (nd_private_key n) (child_tweak n i)).1 = true.

(** The node of BIP 32. *)
Definition child_of (n : hdnode) (i : Z) (private_key public_key : bytes) : hdnode :=
  mk_node (u32 (nd_depth n + 1)) (key_fingerprint (nd_public_key n)) i (drop 32 (child_data n i)) private_key public_key.

(** What the owner of the tree gives away. *)
Definition neuter (n : hdnode) : hdnode := with_private n (zeros 32).

(** A private node: its public key is that of its private key. *)
Definition keyed (n : hdnode) : Prop :=
  length (nd_private_key n) = 32%nat /\
  exists p, ec_pubkey_create (nd_private_key n) = Some p /\ nd_public_key n = ec_pubkey_serialize true p.

Context {G : Secp256k1Group L}.

Lemma fill_public_spec n p : ec_pubkey_create (nd_private_key n) = Some p -> hdnode_fill_public_key n = Some (with_public n (ec_pubkey_serialize true p)).
Proof. intros E. unfold hdnode_fill_public_key, ecc_get_pubkey. cbn [key_size Nat.eqb negb mbind option_bind]. by rewrite E. Qed.

Lemma private_ckd_spec n i : keyed n -> derivable n i ->
  exists p', let k' := (ec_privkey_tweak_add (nd_private_key n) (child_tweak n i)).2 in
    ec_pubkey_create k' = Some p' /\ (exists p, ec_pubkey_create (nd_private_key n) = Some p /\ nd_public_key n = ec_pubkey_serialize true p /\ ec_pubkey_tweak_add p (child_tweak n i) = Some p') /\
    hdnode_private_ckd n i = Some (true, child_of n i k' (ec_pubkey_serialize true p')) /\ keyed (child_of n i k' (ec_pubkey_serialize true p')).
Proof.
  intros (Hl & p & Hp & Hpub) [Hz Ht]. pose proof (tweak_create _ _ p Hl Hp Ht) as Hc. pose proof (tweak_verify _ _ Ht) as Hv.
  pose proof (tweak_length _ (child_tweak n i) Hl) as Hl'. destruct (create_some _ Hl' Hv) as [p' Hp']. exists p'. cbv zeta.
  split_and!; [done|exists p; split_and!; [done..|congruence]| |split; [done|by exists p']].
  unfold hdnode_private_ckd. cbn [nd_private_key nd_public_key nd_chain_code nd_depth with_place with_chain].
  fold (child_data n i). fold (child_tweak n i). unfold ecc_verify_privatekey, ecc_private_key_tweak_add.
  assert (take 32 (child_tweak n i) = child_tweak n i) as -> by (unfold child_tweak; by rewrite take_take).
  rewrite Hz. cbn [negb]. destruct (ec_privkey_tweak_add (nd_private_key n) (child_tweak n i)) as [ok k'] eqn:E. cbn [fst snd] in *. rewrite Ht. cbn [negb].
  by rewrite (fill_public_spec _ p').
Qed.

(** The public child of a public node is the public side of the private child. *)
Lemma ckd_commutes n i : keyed n -> derivable n i -> Z.land i HARDENED = 0 ->
  exists n', hdnode_private_ckd n i = Some (true, n') /\ keyed n' /\ forall k, hdnode_public_ckd (with_private n k) i = (true, neuter n').
Proof.
  intros Hk Hd Hi. destruct (private_ckd_spec n i Hk Hd) as (p' & Hp' & (p & Hp & Hpub & Ha) & Hs & Hk'). eexists. split; [exact Hs|]. split; [exact Hk'|]. intros k.
  unfold hdnode_public_ckd. rewrite Hi. cbn [Z.eqb negb nd_private_key nd_public_key nd_chain_code nd_depth with_place with_chain with_private].
  assert (child_data n i = hmac_sha512 (nd_chain_code n) (take 33 (nd_public_key n) ++ write_be i)) as E by (unfold child_data; by rewrite Hi).
  rewrite <- E. unfold ecc_public_key_tweak_add. fold (child_tweak n i). rewrite Hpub, (take_ge (ec_pubkey_serialize true p)), parse_serialize by (by rewrite serialize_length).
  cbn [mbind option_bind]. rewrite Ha. cbn [negb]. rewrite (drop_ge (ec_pubkey_serialize true p)), app_nil_r by (by rewrite serialize_length).
  unfold neuter, child_of, with_private, with_public, with_place. cbn. by rewrite Hpub.
Qed.

(** C14: a derivation that fails is reported as done: when the tweak of a child is not a key or the
    sum is zero, the private child has the old depth and number and another chain code; the
    public child has the old public key under a new number. *)
Theorem failed_child_reported (n : hdnode) (i : Z) (Hl : length (nd_private_key n) = 32%nat)
  (Hf : ec_seckey_verify (child_tweak n i) = false \/ (ec_privkey_tweak_add (nd_private_key n) (child_tweak n i)).1 = false) :
  (exists k, hdnode_private_ckd n i = Some (true, mk_node (nd_depth n) (key_fingerprint (nd_public_key n)) (nd_child_num n) (drop 32 (child_data n i)) k (nd_public_key n))) /\
  (Z.land i HARDENED = 0 -> (forall p, ec_pubkey_parse (take 33 (nd_public_key n)) = Some p -> ec_pubkey_tweak_add p (child_tweak n i) = None) ->
   hdnode_public_ckd n i = (true, child_of n i (zeros 32) (nd_public_key n))).
Proof.
  split.
  - unfold hdnode_private_ckd. cbn [nd_private_key nd_public_key nd_chain_code nd_depth with_place with_chain].
    fold (child_data n i). fold (child_tweak n i). unfold ecc_verify_privatekey, ecc_private_key_tweak_add.
    assert (take 32 (child_tweak n i) = child_tweak n i) as -> by (unfold child_tweak; by rewrite take_take).
    destruct (ec_privkey_tweak_add (nd_private_key n) (child_tweak n i)) as [ok k'] eqn:E. cbn [fst snd] in *. exists k'.
    destruct Hf as [-> | ->]; cbn [negb]; [by destruct ok|done].
  - intros Hi Hp. unfold hdnode_public_ckd. rewrite Hi. cbn [Z.eqb negb nd_private_key nd_public_key nd_chain_code nd_depth with_place with_chain with_private].
    assert (child_data n i = hmac_sha512 (nd_chain_code n) (take 33 (nd_public_key n) ++ write_be i)) as E by (unfold child_data; by rewrite Hi).
    rewrite <- E. unfold ecc_public_key_tweak_add. fold (child_tweak n i).
    assert (ec_pubkey_parse (take 33 (nd_public_key n)) ≫= (fun p => ec_pubkey_tweak_add p (child_tweak n i)) = None) as ->.
    { destruct (ec_pubkey_parse _) as [p|] eqn:Ep; [|done]. by apply Hp. }
    cbn. by unfold child_of.
Qed.

(** ** Texts of nodes *)

(** A node whose fields have their sizes, at a depth that fits in one byte. *)
Record node_ok (n : hdnode) : Prop := {
  ok_depth : urange 8 (nd_depth n);
  ok_fingerprint : urange 32 (nd_fingerprint n);
  ok_child : urange 32 (nd_child_num n);
  ok_chain : length (nd_chain_code n) = 32%nat;
  ok_keyed : keyed n }.

Lemma node_data_length n v b : node_ok n -> length (node_data n v b) = 78%nat.
Proof.
  intros [_ _ _ Hc (Hl & p & _ & Hp)]. unfold node_data, write_be. rewrite !length_app, !be_enc_length, Hc. destruct b; cbn [length]; [rewrite Hp, serialize_length|rewrite Hl]; done.
Qed.

Lemma chain_versions c b : let v := if b : bool then b58prefix_bip32_pubkey (chain_params c) else b58prefix_bip32_privkey (chain_params c) in
  urange 32 v /\ exists ch, starts_with (write_be v) 74 ch 110 = true.
Proof. destruct c, b; (split; [done|]); (exists 36; by vm_compute) || (exists 51; by vm_compute). Qed.

(** The text of a node has 111 characters, and decoding it gives the fields back. *)
Lemma node_text n c (b : bool) (v := if b then b58prefix_bip32_pubkey (chain_params c) else b58prefix_bip32_privkey (chain_params c)) : node_ok n ->
  exists s rest, nul_free s /\ hdnode_serialize n v b HDKEYLEN = s ++ [byte_zero] /\ length s = 111%nat /\
    base58_decode_check s sizeof_hdnode = Some (82%nat, node_data n v b ++ rest).
Proof.
  intros Hn. pose proof (node_data_length n v b Hn) as Hlen. destruct (chain_versions c b) as (Hv & ch & Hst). fold v in Hv, Hst.
  set (rest0 := [byte.of_Z (nd_depth n)] ++ write_be (nd_fingerprint n) ++ write_be (nd_child_num n) ++ nd_chain_code n ++
    (if b then nd_public_key n else Byte.x00 :: nd_private_key n)).
  assert (node_data n v b = write_be v ++ rest0) as Ed by done.
  assert (length rest0 = 74%nat) as Hr by (rewrite Ed, length_app in Hlen; unfold write_be in Hlen; rewrite be_enc_length in Hlen; lia).
  destruct (encode_check_spec (node_data n v b) ltac:(lia)) as (s & Hs & _ & E).
  unfold starts_with in Hst. repeat (apply andb_true_iff in Hst as [Hst ?]).
  destruct (check_string_head _ _ (write_be v) rest0 ch 110 Hs Ed) as (r & Es & Hlr).
  { destruct (write_be v); [done|]. by apply negb_true_iff. }
  { intros E0. rewrite E0 in *. done. }
  { lia. }
  { rewrite Hr. by apply Z.leb_le. }
  { rewrite Hr. by apply Z.leb_le. }
  assert (length s = 111)%nat as Hls by (subst s; cbn [length]; lia).
  exists s, (checksum (node_data n v b) ++ zeros (sizeof_hdnode - 82)). split_and!; [by apply check_string_length in Hs as [_ ?]| |done|].
  - unfold hdnode_serialize. rewrite E, Hls. done.
  - rewrite (decode_check_spec (node_data n v b) s sizeof_hdnode Hs); rewrite ?Hls, ?Hlen; [done|lia|unfold sizeof_hdnode; lia| |by apply Nat.leb_le].
    rewrite Ed, <- app_assoc. destruct (write_be v) as [|b0 w]; [done|]. apply Exists_cons_hd. intros ->. done.
Qed.

Lemma read_be_app x r : urange 32 x -> read_be (write_be x ++ r) = x.
Proof. intros Hx. unfold read_be, write_be. rewrite take_app_exact by apply be_enc_length. by apply be_dec_enc. Qed.

Lemma four_bytes x : exists a b c d, write_be x = [a; b; c; d].
Proof.
  pose proof (be_enc_length 4 x) as H. fold (write_be x) in H. destruct (write_be x) as [|a [|b [|c [|d [|]]]]]; try done. by exists a, b, c, d.
Qed.

(** The places of the fields. *)
Lemma node_fields n v b rest (D := node_data n v b ++ rest) : urange 32 v -> node_ok n ->
  read_be D = v /\ byte.unsigned (nth 4 D byte_zero) = nd_depth n /\ read_be (drop 5 D) = nd_fingerprint n /\ read_be (drop 9 D) = nd_child_num n /\
  take 32 (drop 13 D) = nd_chain_code n /\ drop 45 D = (if b then nd_public_key n else Byte.x00 :: nd_private_key n) ++ rest.
Proof.
  intros Hv [Hd Hf Hc Hcc _]. unfold D, node_data. clear D. rewrite <- !app_assoc.
  set (keys := (if b then _ else _) ++ rest).
  pose proof (read_be_app v ([byte.of_Z (nd_depth n)] ++ write_be (nd_fingerprint n) ++ write_be (nd_child_num n) ++ nd_chain_code n ++ keys) Hv) as E1.
  pose proof (read_be_app (nd_fingerprint n) (write_be (nd_child_num n) ++ nd_chain_code n ++ keys) Hf) as E2.
  pose proof (read_be_app (nd_child_num n) (nd_chain_code n ++ keys) Hc) as E3.
  destruct (four_bytes v) as (a & b0 & c & d & Ev), (four_bytes (nd_fingerprint n)) as (a' & b' & c' & d' & Ef), (four_bytes (nd_child_num n)) as (x & y & z & w & Ec).
  rewrite Ev, Ef, Ec in *. cbn [app nth drop] in *. rewrite ?drop_0. split_and!; try done.
  - by rewrite byte_unsigned_of_Z, wrap_small by done.
  - by apply take_app_exact.
  - by apply drop_app_exact.
Qed.

Lemma deserialize_private n c : node_ok n ->
  exists s, nul_free s /\ hdnode_serialize_private n (chain_params c) HDKEYLEN = s ++ [byte_zero] /\ length s = 111%nat /\
    hdnode_deserialize s (chain_params c) = Some (true, n).
Proof.
  intros Hn. destruct (node_text n c false Hn) as (s & rest & Hnf & Es & Hl & Ed). exists s. split_and!; [done..|].
  destruct (chain_versions c false) as [Hv _]. destruct (node_fields n _ false rest Hv Hn) as (E1 & E2 & E3 & E4 & E5 & E6).
  unfold hdnode_deserialize. rewrite Ed. cbn [mbind option_bind Nat.eqb]. rewrite E1.
  assert ((b58prefix_bip32_privkey (chain_params c) =? b58prefix_bip32_pubkey (chain_params c)) = false) as -> by (by destruct c).
  rewrite Z.eqb_refl. destruct n as [dp fp cn cc k pk]. destruct Hn as [Hd Hf Hc Hcc (Hk & p & Hp & Hpk)]. cbn in Hk, Hp, Hpk, E2, E3, E4, E5, E6.
  set (D := node_data _ _ _ ++ rest) in *.
  assert (nth 45 D byte_zero = Byte.x00) as ->.
  { change 45%nat with (45 + 0)%nat. by rewrite nth_lookup, <- lookup_drop, E6. }
  cbn [negb Z.eqb byte.unsigned]. assert (drop 46 D = k ++ rest) as ->.
  { change 46%nat with (1 + 45)%nat. rewrite Nat.add_comm, <- drop_drop, E6. done. }
  rewrite take_app_exact by done. rewrite (fill_public_spec _ p) by done. cbn. rewrite E2, E3, E4, E5. by subst pk.
Qed.

Lemma deserialize_public n c : node_ok n ->
  exists s, nul_free s /\ hdnode_serialize_public n (chain_params c) HDKEYLEN = s ++ [byte_zero] /\ length s = 111%nat /\
    hdnode_deserialize s (chain_params c) = Some (true, neuter n).
Proof.
  intros Hn. destruct (node_text n c true Hn) as (s & rest & Hnf & Es & Hl & Ed). exists s. split_and!; [done..|].
  destruct (chain_versions c true) as [Hv _]. destruct (node_fields n _ true rest Hv Hn) as (E1 & E2 & E3 & E4 & E5 & E6).
  unfold hdnode_deserialize. rewrite Ed. cbn [mbind option_bind Nat.eqb]. rewrite E1, Z.eqb_refl, E2, E3, E4, E5, E6.
  destruct Hn as [_ _ _ _ (_ & p & _ & Hpk)]. rewrite take_app_exact by (by rewrite Hpk, serialize_length). done.
Qed.

Lemma fingerprint_range pk : urange 32 (key_fingerprint pk).
Proof.
  unfold key_fingerprint, read_be, be_dec. pose proof (le_dec_range (rev (take 4 (rmd160 (sha256_raw (take 33 pk)) 32)))) as H.
  rewrite length_rev, length_take, rmd160_length in H. exact H.
Qed.

(** ** Paths *)

(** The number of the child that a component stands for. *)
Definition token_index (pch : bytes) : option Z :=
  prm ← component_prime pch false;
  let '(idx, _, _) := strtoull pch in
  if 2 ^ 32 - 1 <? idx then None else Some (if prm : bool then Z.lor idx HARDENED else idx).

Lemma path_step_private n pch :
  path_step false n pch = match token_index pch with Some i => hdnode_private_ckd n i | None => Some (false, n) end.
Proof.
  unfold path_step, token_index. destruct (component_prime pch false) as [prm|]; [|done]. cbn [mbind option_bind].
  destruct (strtoull pch) as [[idx e] er]. destruct (2 ^ 32 - 1 <? idx); [done|]. by destruct prm.
Qed.

Lemma component_public pch prm : component_prime pch false = Some prm ->
  component_prime pch true = if prm then None else Some false.
Proof.
  induction pch as [|c r IH]; cbn [component_prime]; [by intros [= <-]|]. destruct (is_prime c).
  - destruct r; [by intros [= <-]|done].
  - destruct (is_digit c); [done|done].
Qed.

Lemma path_step_public n pch i : token_index pch = Some i -> Z.land i HARDENED = 0 -> path_step true n pch = Some (hdnode_public_ckd n i).
Proof.
  unfold path_step, token_index. destruct (component_prime pch false) as [prm|] eqn:E; [|done]. rewrite (component_public _ _ E). cbn [mbind option_bind].
  destruct (strtoull pch) as [[idx e] er]. destruct (2 ^ 32 - 1 <? idx); [done|]. destruct prm; intros [= <-] Hi; [|done].
  exfalso. apply (f_equal (fun z => Z.testbit z 31)) in Hi. rewrite Z.land_spec, Z.lor_spec in Hi. change (Z.testbit HARDENED 31) with true in Hi.
  by rewrite orb_true_r in Hi.
Qed.

(** No step of a path fails. *)
Fixpoint derivable_path (n : hdnode) (ids : list Z) : Prop :=
  match ids with
  | [] => True
  | i :: ids => derivable n i /\ forall n', hdnode_private_ckd n i = Some (true, n') -> derivable_path n' ids
  end.

(** The children along a path of numbers. *)
Fixpoint derive_path (n : hdnode) (ids : list Z) : option hdnode :=
  match ids with
  | [] => Some n
  | i :: ids => '(ok, n) ← hdnode_private_ckd n i; if ok : bool then derive_path n ids else None
  end.

Lemma strtoull_range s : 0 <= (strtoull s).1.1.
Proof.
  unfold strtoull. cbv zeta. set (r := match skip_spaces s with [] => _ | _ => _ end). destruct r as [[neg ds] sk].
  assert (forall l v n, 0 <= v -> 0 <= (take_digits l v n).1) as H.
  { induction l as [|c l IH]; intros v n Hv; cbn [take_digits]; [done|]. destruct (is_digit c) eqn:E; [|done]. apply IH.
    destruct (digit_not c E) as (_ & _ & _ & _ & _ & Hd). lia. }
  specialize (H ds 0 O ltac:(lia)). destruct (take_digits ds 0 0) as [v m]. cbn [fst] in H. destruct (m =? 0)%nat; [done|].
  destruct (2 ^ 64 - 1 <? v); [done|]. cbn [fst]. destruct neg; [|done]. apply (wrap_range 64). lia.
Qed.

Lemma token_index_range pch i : token_index pch = Some i -> urange 32 i.
Proof.
  unfold token_index. destruct (component_prime pch false) as [prm|]; [|done]. cbn [mbind option_bind].
  pose proof (strtoull_range pch) as Hr. destruct (strtoull pch) as [[idx e] er]. cbn [fst] in Hr. destruct (2 ^ 32 - 1 <? idx) eqn:E; [done|]. apply Z.ltb_ge in E.
  intros [= <-]. unfold urange. destruct prm; [|lia].
  assert (Z.lor idx HARDENED = wrap 32 (Z.lor idx HARDENED)) as ->; [|apply wrap_range; lia].
  unfold wrap. rewrite <- Z.land_ones, Z.land_lor_distr_l, !Z.land_ones by lia. change (HARDENED mod 2 ^ 32) with HARDENED. by rewrite Z.mod_small by lia.
Qed.

Lemma child_ok n i n' : node_ok n -> derivable n i -> urange 32 i -> nd_depth n + 1 < 256 -> hdnode_private_ckd n i = Some (true, n') ->
  node_ok n' /\ nd_depth n' = nd_depth n + 1.
Proof.
  intros [Hd Hf Hc Hcc Hk] Hdv Hi Hlt E. destruct (private_ckd_spec n i Hk Hdv) as (p' & _ & _ & Hs & Hk'). rewrite Hs in E. injection E as <-.
  assert (nd_depth n + 1 = u32 (nd_depth n + 1)) as Ed by (rewrite wrap_small; [done|unfold urange in *; lia]).
  split; [|exact (eq_sym Ed)]. split; cbn [child_of nd_depth nd_fingerprint nd_child_num nd_chain_code].
  - rewrite <- Ed. unfold urange in *. lia.
  - apply fingerprint_range.
  - exact Hi.
  - unfold child_data. by rewrite length_drop, hmac_sha512_length.
  - exact Hk'.
Qed.

(** Along a path both sides stay together. *)
Lemma path_loops n toks ids : node_ok n -> mapM token_index toks = Some ids -> derivable_path n ids -> nd_depth n + Z.of_nat (length toks) < 256 ->
  exists n', path_loop false n toks = Some (true, n') /\ derive_path n ids = Some n' /\ node_ok n' /\
    (Forall (fun i => Z.land i HARDENED = 0) ids -> forall k, path_loop true (with_private n k) toks = Some (true, match toks with [] => with_private n' k | _ => neuter n' end)).
Proof.
  revert n ids. induction toks as [|pch toks IH]; intros n ids Hn Hm Hd Hl; cbn [mapM] in Hm.
  - injection Hm as <-. by exists n.
  - apply bind_Some in Hm as (i & Ei & Hm). apply bind_Some in Hm as (ids' & Eis & [= <-]). cbn [derivable_path] in Hd. destruct Hd as [Hdi Hd].
    destruct Hn as [Hn1 Hn2 Hn3 Hn4 Hk] eqn:En. clear En. assert (node_ok n) as Hn' by done.
    destruct (private_ckd_spec n i Hk Hdi) as (p' & _ & _ & Hs & _). set (n1 := child_of _ _ _ _) in Hs.
    destruct (child_ok n i n1 Hn' Hdi (token_index_range _ _ Ei)) as [Hn1' Hdep]; [cbn [length] in Hl; lia|done|].
    destruct (IH n1 ids' Hn1' Eis (Hd n1 Hs)) as (n' & Hp & Hdp & Hnn & Hpub); [cbn [length] in Hl; lia|].
    exists n'. cbn [path_loop derive_path]. rewrite path_step_private, Ei, Hs. cbn [mbind option_bind negb]. split_and!; [done..|].
    intros Hall k. apply Forall_cons in Hall as [Hi Hall]. rewrite (path_step_public _ _ i Ei Hi).
    destruct (ckd_commutes n i Hk Hdi Hi) as (n2 & Hs2 & _ & Hpc). rewrite Hs in Hs2. injection Hs2 as <-. rewrite Hpc. cbn [mbind option_bind negb].
    unfold neuter at 1. rewrite (Hpub Hall). by destruct toks.
Qed.

(** The text of a node is read back: the private text gives the node, the public text the node
    without its private key, on each chain, for depths below 256. *)
Theorem extended_key_round_trip (n : hdnode) (c : chain_name) (Hn : node_ok n) :
  (exists s, hdnode_serialize_private n (chain_params c) HDKEYLEN = s ++ [byte_zero] /\ length s = 111%nat /\
     hdnode_deserialize s (chain_params c) = Some (true, n)) /\
  (exists s, hdnode_serialize_public n (chain_params c) HDKEYLEN = s ++ [byte_zero] /\ length s = 111%nat /\
     hdnode_deserialize s (chain_params c) = Some (true, neuter n)).
Proof.
  destruct (deserialize_private n c Hn) as (s & _ & Hs), (deserialize_public n c Hn) as (s' & _ & Hs'). split; [by exists s|by exists s'].
Qed.

(** The components of a path. *)
Definition path_tokens (keypath : bytes) : list bytes := tokens [] (drop 2 keypath).

Definition path_head (keypath : bytes) : Prop := (length keypath < 1024)%nat /\ take 2 keypath = [Byte.x6d; slash].

Lemma generate_key_spec n g keypath pub : path_head keypath -> keyed n -> length (nd_chain_code n) = 32%nat ->
  hd_generate_key g keypath (if pub : bool then nd_public_key n else nd_private_key n) (nd_depth n) (nd_chain_code n) pub =
  path_loop pub (mk_node (nd_depth n) 0 0 (nd_chain_code n) (if pub then nd_private_key g else nd_private_key n) (nd_public_key n)) (path_tokens keypath).
Proof.
  intros [Hl Hh] (Hk & p & Hp & Hpub) Hc. unfold hd_generate_key. rewrite (proj2 (Nat.ltb_lt _ _)) by done. cbn [negb].
  destruct keypath as [|m [|s kp]]; [done..|]. cbn [take] in Hh. injection Hh as -> ->. cbn [byte_eqb orb].
  change (byte_eqb Byte.x6d Byte.x6d) with true. change (byte_eqb slash slash) with true. cbn [negb orb]. unfold path_tokens. cbn [drop]. rewrite drop_0.
  destruct pub; cbn [mbind option_bind]; [by rewrite !take_ge by (rewrite ?Hpub, ?serialize_length; lia)|].
  rewrite (take_ge (nd_private_key n)), (take_ge (nd_chain_code n)) by lia.
  rewrite (fill_public_spec _ p) by done. cbn [mbind option_bind with_private with_public with_chain with_place nd_depth nd_fingerprint nd_child_num nd_chain_code nd_private_key nd_public_key].
  by rewrite Hpub.
Qed.

(** C13: the public tree: whoever has the public text of a node derives, along a path without
    hardened components, the public texts of the same nodes as the owner of the private text. *)
Theorem public_tree (n g g' : hdnode) (keypath : bytes) (ids : list Z) (is_testnet : bool) (Hn : node_ok n) (Hp : path_head keypath)
  (Hi : mapM token_index (path_tokens keypath) = Some ids) (Hne : ids <> []) (Hpub : Forall (fun i => Z.land i HARDENED = 0) ids)
  (Hd : derivable_path (with_place n (nd_depth n) 0 0) ids) (Hdepth : nd_depth n + Z.of_nat (length ids) < 256) :
  let chain := chain_of_flag is_testnet in
  exists prv pub child_prv child_pub,
    hdnode_serialize_private n chain HDKEYLEN = prv ++ [byte_zero] /\
    getHDPubKey prv is_testnet = Some (pub ++ [byte_zero]) /\
    deriveExtKeyFromHDKey g prv keypath is_testnet = Some (child_prv ++ [byte_zero]) /\
    getHDPubKey child_prv is_testnet = Some (child_pub ++ [byte_zero]) /\
    deriveExtPubKeyFromHDKey g' pub keypath is_testnet = Some (child_pub ++ [byte_zero]).
Proof.
  cbv zeta. assert (chain_of_flag is_testnet = chain_params (if is_testnet then CHAIN_TEST else CHAIN_MAIN)) as Ec by (by destruct is_testnet).
  unfold getHDPubKey, deriveExtKeyFromHDKey, deriveExtPubKeyFromHDKey. rewrite Ec. set (c := if is_testnet then _ else _). clearbody c. clear Ec.
  set (n0 := with_place n (nd_depth n) 0 0) in *. assert (node_ok n0) as Hn0 by (destruct Hn; by split).
  assert (length (path_tokens keypath) = length ids) as Hlt by (by eapply length_mapM).
  destruct (path_loops n0 (path_tokens keypath) ids Hn0 Hi Hd) as (n' & Hl & _ & Hn' & Hpl); [cbn; lia|]. specialize (Hpl Hpub).
  destruct (deserialize_private n c Hn) as (prv & _ & E1 & _ & D1). destruct (deserialize_public n c Hn) as (pub & _ & E2 & _ & D2).
  destruct (deserialize_private n' c Hn') as (prv' & _ & E1' & _ & D1'). destruct (deserialize_public n' c Hn') as (pub' & _ & E2' & _ & D2').
  exists prv, pub, prv', pub'. split_and!; [exact E1| | | |].
  - rewrite D1. cbn [mbind option_bind]. by rewrite E2.
  - rewrite D1. cbn [mbind option_bind]. destruct Hn as [_ _ _ Hc Hk].
    pose proof (generate_key_spec n g keypath false Hp Hk Hc) as ->. change (mk_node _ _ _ _ _ _) with n0. rewrite Hl. cbn [mbind option_bind]. by rewrite E1'.
  - rewrite D1'. cbn [mbind option_bind]. by rewrite E2'.
  - rewrite D2. cbn [mbind option_bind]. destruct Hn as [_ _ _ Hc Hk].
    cbn [neuter with_private nd_public_key nd_depth nd_chain_code].
    pose proof (generate_key_spec n g' keypath true Hp Hk Hc) as ->. change (mk_node _ _ _ _ _ _) with (with_private n0 (nd_private_key g')). rewrite Hpl.
    destruct (path_tokens keypath); [by destruct ids|]. cbn [mbind option_bind]. unfold hdnode_serialize_public in *. by rewrite <- E2'.
Qed.

(** A path that does not start as it should is refused before the node has been written to, but
    the wrapper returns the text of the node all the same: of whatever its memory holds. *)
Theorem refused_path_exported (g : hdnode) (extkey keypath : bytes) (is_testnet ok : bool) (parent : hdnode)
  (Hd : hdnode_deserialize extkey (chain_of_flag is_testnet) = Some (ok, parent)) (Hl : (length keypath < 1024)%nat) (Hh : take 2 keypath <> [Byte.x6d; slash]) :
  deriveExtKeyFromHDKey g extkey keypath is_testnet = Some (hdnode_serialize_private g (chain_of_flag is_testnet) HDKEYLEN).
Proof.
  unfold deriveExtKeyFromHDKey. rewrite Hd. cbn [mbind option_bind]. unfold hd_generate_key. rewrite (proj2 (Nat.ltb_lt _ _)) by done. cbn [negb].
  destruct keypath as [|m [|s kp]]; [done..|]. destruct (byte_eqb m Byte.x6d) eqn:Em; [|done]. destruct (byte_eqb s slash) eqn:Es; [|done].
  apply Byte.byte_dec_bl in Em, Es. subst. done.
Qed.

(** ** BIP 44 *)

(** [%u] *)
Fixpoint decimal (fuel : nat) (x : Z) : bytes :=
  match fuel with
  | O => []
  | Datatypes.S fuel => (if x <? 10 then [] else decimal fuel (x / 10)) ++ [digit_char (x mod 10)]
  end.
Definition print_u (x : Z) : bytes := decimal 10 x.

Definition UINT32_MAX_DIGITS : nat := 10.
Definition BIP44_KEY_PATH_MAX_LENGTH : nat := 255.
Definition SLIP44_KEY_PATH : bytes := list_byte_of_string "m/44'/".
Definition BIP44_COIN_TYPE : bytes := [Byte.x33].
Definition BIP44_COIN_TYPE_TEST : bytes := [Byte.x31].
Definition BIP44_CHANGE_EXTERNAL : bytes := [Byte.x30].
Definition BIP44_CHANGE_INTERNAL : bytes := [Byte.x31].

(** What [snprintf] leaves in a buffer, without the terminator. *)
Definition snprintf (size : nat) (text : bytes) : bytes := take (size - 1) text.

(** The text of the path; [None] for a pointer that is NULL. *)
Definition bip44_path (account address_index : option Z) (change_level custom_path : option bytes) (is_testnet : bool) : bytes :=
  let number x := from_option (fun x => snprintf (UINT32_MAX_DIGITS + 1) (print_u x)) [] x in
  let acct_str := number account in
  let addr_idx_str := number address_index in
  let coin := SLIP44_KEY_PATH ++ (if is_testnet then BIP44_COIN_TYPE_TEST else BIP44_COIN_TYPE) ++ [Byte.x27] in
  snprintf BIP44_KEY_PATH_MAX_LENGTH
    match custom_path, account, change_level, address_index with
    | Some custom, _, _, _ => custom ++ addr_idx_str
    | None, None, _, _ => coin
    | None, Some _, None, _ => coin ++ slash :: acct_str ++ [Byte.x27]
    | None, Some _, Some change, None => coin ++ slash :: acct_str ++ Byte.x27 :: slash :: change
    | None, Some _, Some change, Some _ => coin ++ slash :: acct_str ++ Byte.x27 :: slash :: change ++ slash :: addr_idx_str
    end.

(** The result, [keypath] and the key, which has some contents before. *)
Definition derive_bip44_extended_key (node master_key : hdnode) (account address_index : option Z) (change_level custom_path : option bytes)
    (is_testnet : bool) (keypath : bytes) : option (Z * bytes * hdnode) :=
  match change_level with
  | Some change =>
      if negb (bytes_eqb change BIP44_CHANGE_EXTERNAL) && negb (bytes_eqb change BIP44_CHANGE_INTERNAL) then Some (-1, keypath, node)
      else
        let keypath := bip44_path account address_index change_level custom_path is_testnet in
        '(ok, key) ← hd_generate_key node keypath (nd_private_key master_key) (nd_depth master_key) (nd_chain_code master_key) false;
        Some (if negb ok then (-1, keypath, key) else (0, keypath, key))
  | None =>
      let keypath := bip44_path account address_index change_level custom_path is_testnet in
      '(ok, key) ← hd_generate_key node keypath (nd_private_key master_key) (nd_depth master_key) (nd_chain_code master_key) false;
      Some (if negb ok then (-1, keypath, key) else (0, keypath, key))
  end.

(** The result, the text and the path. *)
Definition derive_bip44 (use_public : bool) (node : hdnode) (hd_privkey_master : bytes) (account : option Z) (change_level : option bytes)
    (address_index : option Z) (path : option bytes) (keypath : bytes) : option (bool * bytes * bytes) :=
  let is_testnet := isTestnetFromB58Prefix hd_privkey_master in
  let chain := chain_of_flag is_testnet in
  '(ok, master_key) ← hdnode_deserialize hd_privkey_master chain;
  if negb ok then Some (false, [], keypath)
  else
    '(r, keypath, derived_key) ← derive_bip44_extended_key node master_key account address_index change_level path is_testnet keypath;
    if negb (r =? 0) then Some (false, [], keypath)
    else Some (true, (if use_public then hdnode_serialize_public else hdnode_serialize_private) derived_key chain HDKEYLEN, keypath).

Definition deriveBIP44ExtendedKey := derive_bip44 false.
Definition deriveBIP44ExtendedPublicKey := derive_bip44 true.

(** ** The text of a path *)

Lemma digit_split x : 0 <= x -> 10 <= x -> 0 <= x / 10 < x.
Proof. intros. split; [by apply Z.div_pos|]. apply Z.div_lt; lia. Qed.

Lemma num_val_snoc ds d : num_val (ds ++ [d]) = 10 * num_val ds + digit_value d.
Proof. unfold num_val. by rewrite foldl_app. Qed.

Lemma decimal_spec fuel x : 0 <= x < 10 ^ Z.of_nat fuel -> (0 < fuel)%nat ->
  all_digits (decimal fuel x) /\ decimal fuel x <> [] /\ (length (decimal fuel x) <= fuel)%nat /\ num_val (decimal fuel x) = x.
Proof.
  revert x. induction fuel as [|fuel IH]; intros x Hx Hf; [lia|]. cbn [decimal].
  destruct (digit_char_spec (x mod 10) (Z.mod_pos_bound x 10 ltac:(lia))) as [Hd Hv].
  assert (num_val [digit_char (x mod 10)] = x mod 10) as Hone by (unfold num_val; cbn [foldl]; by rewrite Hv).
  destruct (Z.ltb_spec x 10) as [H|H].
  - split_and!; [by constructor|done|cbn; lia|]. cbn [app]. rewrite Hone, Z.mod_small; lia.
  - rewrite Nat2Z.inj_succ, Z.pow_succ_r in Hx by lia.
    destruct fuel as [|fuel']; [cbn in Hx; lia|]. pose proof (Z.div_lt_upper_bound x 10 (10 ^ Z.of_nat (Datatypes.S fuel')) ltac:(lia) ltac:(lia)) as Hu.
    destruct (IH (x / 10)) as (H1 & H2 & H3 & H4); [split; [apply Z.div_pos; lia|done]|lia|]. split_and!.
    + apply Forall_app. split; [done|by constructor].
    + by destruct (decimal _ _).
    + rewrite length_app. cbn [length]. lia.
    + rewrite num_val_snoc, H4, Hv. pose proof (Z.div_mod x 10 ltac:(lia)). lia.
Qed.

(** A component: digits and, when it is hardened, a prime. *)
Definition component (s : bytes * bool) : bytes := s.1 ++ (if s.2 then [Byte.x27] else []).
Definition component_ok (s : bytes * bool) : Prop := all_digits s.1 /\ s.1 <> [] /\ num_val s.1 < 2 ^ 32.
Definition component_index (s : bytes * bool) : Z := if s.2 then Z.lor (num_val s.1) HARDENED else num_val s.1.
Definition path_text (l : list (bytes * bool)) : bytes := Byte.x6d :: concat (map (fun s => slash :: component s) l).

Lemma not_slash s : component_ok s -> Forall (fun c => byte_eqb c slash = false) (component s) /\ component s <> [].
Proof.
  intros (Hd & Hne & _). split; [|unfold component; by destruct s.1]. apply Forall_app. split; [|destruct s.2; by repeat constructor].
  apply (Forall_impl _ _ _ Hd). intros c Hc. by destruct c.
Qed.

Lemma tokens_piece cur pc rest : Forall (fun c => byte_eqb c slash = false) pc -> tokens cur (pc ++ rest) = tokens (rev pc ++ cur) rest.
Proof.
  intros H. revert cur. induction H as [|c pc Hc _ IH]; intros cur; [done|]. cbn [app tokens rev]. rewrite Hc, IH. by rewrite <- app_assoc.
Qed.

Lemma path_tokens_text l : Forall component_ok l -> path_tokens (path_text l) = map component l.
Proof.
  intros Hl. unfold path_tokens, path_text. destruct l as [|s l]; [done|]. apply Forall_cons in Hl as [Hs Hl]. cbn [map concat app drop]. rewrite drop_0.
  revert s Hs. induction Hl as [|s' l Hs' Hl IH]; intros s Hs; destruct (not_slash s Hs) as [Hns Hne]; cbn [map concat app].
  - rewrite tokens_piece, app_nil_r by done. cbn [tokens]. destruct (rev (component s)) eqn:E; [by apply (f_equal (@rev _)) in E; rewrite rev_involutive in E|].
    by rewrite <- E, rev_involutive.
  - rewrite tokens_piece, app_nil_r by done. cbn [tokens]. change (byte_eqb slash slash) with true. cbn iota.
    destruct (rev (component s)) eqn:E; [by apply (f_equal (@rev _)) in E; rewrite rev_involutive in E|]. rewrite <- E, rev_involutive. f_equal. by apply IH.
Qed.

Lemma component_prime_text s : all_digits s.1 -> component_prime (component s) false = Some s.2.
Proof.
  destruct s as [ds h]. unfold component. cbn [fst snd]. intros Hd. induction Hd as [|d ds Hd _ IH]; [by destruct h|]. cbn [app component_prime].
  assert (is_prime d = false) as -> by (by destruct d). by rewrite Hd.
Qed.

Lemma take_digits_all ds t v n : all_digits ds -> match t with [] => True | c :: _ => is_digit c = false end ->
  take_digits (ds ++ t) v n = (foldl (fun v c => 10 * v + digit_value c) v ds, (n + length ds)%nat).
Proof.
  intros Hd Ht. revert v n. induction Hd as [|d ds Hd _ IH]; intros v n; cbn [app take_digits foldl length].
  - rewrite Nat.add_0_r. destruct t as [|c t]; [done|]. cbn [take_digits]. by rewrite Ht.
  - rewrite Hd, IH. f_equal. lia.
Qed.

Lemma token_index_text s : component_ok s -> token_index (component s) = Some (component_index s).
Proof.
  intros (Hd & Hne & Hr). unfold token_index. rewrite component_prime_text by done. cbn [mbind option_bind].
  assert (strtoull (component s) = (num_val s.1, length s.1, false)) as ->.
  { unfold strtoull, component. destruct s as [[|d ds] h]; [done|]. cbn [fst snd app] in *. pose proof (Forall_inv Hd) as Hd0.
    apply digit_not in Hd0 as (Hsp & Hm & Hp & _). cbn [skip_spaces]. rewrite Hsp, Nat.sub_diag, Hm, Hp.
    change (d :: ds ++ (if h then [Byte.x27] else [])) with ((d :: ds) ++ (if h then [Byte.x27] else [])).
    rewrite take_digits_all by (by destruct h). fold (num_val (d :: ds)). cbn [length Nat.add Nat.eqb]. rewrite (proj2 (Z.ltb_ge _ _)) by lia. done. }
  rewrite (proj2 (Z.ltb_ge _ _)) by lia. done.
Qed.

Lemma path_indexes l : Forall component_ok l -> mapM token_index (path_tokens (path_text l)) = Some (map component_index l).
Proof.
  intros Hl. rewrite path_tokens_text by done. induction Hl as [|s l Hs _ IH]; [done|]. cbn [map mapM]. rewrite token_index_text by done.
  cbn [mbind option_bind]. by rewrite IH.
Qed.

(** A path is followed: for a path written with decimal numbers, each with a prime or without, the
    node that is generated from the private key of a node is the one its children lead to, and
    the private and the public tree have the same node when no component has a prime. *)
Theorem path_followed (n g g' : hdnode) (l : list (bytes * bool)) (Hn : node_ok n) (Hne : l <> []) (Hl : Forall component_ok l)
  (Hlen : (length (path_text l) < 1024)%nat) (Hd : derivable_path (with_place n (nd_depth n) 0 0) (map component_index l))
  (Hdepth : nd_depth n + Z.of_nat (length l) < 256) :
  exists n', derive_path (with_place n (nd_depth n) 0 0) (map component_index l) = Some n' /\ node_ok n' /\
    hd_generate_key g (path_text l) (nd_private_key n) (nd_depth n) (nd_chain_code n) false = Some (true, n') /\
    (Forall (fun i => Z.land i HARDENED = 0) (map component_index l) ->
     hd_generate_key g' (path_text l) (nd_public_key n) (nd_depth n) (nd_chain_code n) true = Some (true, neuter n')).
Proof.
  set (n0 := with_place n (nd_depth n) 0 0) in *. assert (node_ok n0) as Hn0 by (destruct Hn; by split).
  destruct (path_loops n0 _ _ Hn0 (path_indexes l Hl) Hd) as (n' & Hp & Hdp & Hn' & Hpub).
  { rewrite path_tokens_text, length_map by done. exact Hdepth. }
  assert (path_head (path_text l)) as Hh by (split; [done|by destruct l]).
  exists n'. destruct Hn as [_ _ _ Hc Hk]. split_and!; [done..| |].
  - pose proof (generate_key_spec n g (path_text l) false Hh Hk Hc) as ->. exact Hp.
  - intros Hall. pose proof (generate_key_spec n g' (path_text l) true Hh Hk Hc) as ->. specialize (Hpub Hall (nd_private_key g')).
    rewrite path_tokens_text in * by done. by destruct l.
Qed.

Definition coin_type (is_testnet : bool) : bytes := if is_testnet then BIP44_COIN_TYPE_TEST else BIP44_COIN_TYPE.
Definition change_text (internal : bool) : bytes := if internal then BIP44_CHANGE_INTERNAL else BIP44_CHANGE_EXTERNAL.

(** The components of an address. *)
Definition bip44_components (is_testnet internal : bool) (account index : Z) : list (bytes * bool) :=
  [([Byte.x34; Byte.x34], true); (coin_type is_testnet, true); (print_u account, true); (change_text internal, false); (print_u index, false)].

Lemma print_u_spec x : urange 32 x -> all_digits (print_u x) /\ print_u x <> [] /\ (length (print_u x) <= 10)%nat /\ num_val (print_u x) = x.
Proof. intros Hx. apply decimal_spec; [unfold urange in Hx; cbn; lia|lia]. Qed.

Lemma bip44_components_ok t b a i : urange 32 a -> urange 32 i -> Forall component_ok (bip44_components t b a i) /\ (length (path_text (bip44_components t b a i)) <= 34)%nat.
Proof.
  intros Ha Hi. destruct (print_u_spec a Ha) as (A1 & A2 & A3 & A4), (print_u_spec i Hi) as (I1 & I2 & I3 & I4). split.
  - repeat (apply Forall_cons; split); [| | | | |by apply Forall_nil]; split_and!; cbn [fst snd].
    all: try (match goal with |- all_digits _ => destruct t, b; unfold all_digits; cbn [coin_type change_text]; (repeat (apply Forall_cons; split; [reflexivity|])); apply Forall_nil end).
    all: try (by destruct t); try (by destruct b); try done.
    all: unfold urange in *; lia.
  - unfold path_text, bip44_components, component. cbn [map concat app fst snd]. cbn [length]. rewrite !length_app. cbn [length].
    destruct t, b; cbn [coin_type change_text BIP44_COIN_TYPE BIP44_COIN_TYPE_TEST BIP44_CHANGE_INTERNAL BIP44_CHANGE_EXTERNAL length app]; repeat (rewrite ?length_app; cbn [length]); lia.
Qed.

Lemma bip44_path_text t b a i : urange 32 a -> urange 32 i ->
  bip44_path (Some a) (Some i) (Some (change_text b)) None t = path_text (bip44_components t b a i).
Proof.
  intros Ha Hi. destruct (print_u_spec a Ha) as (_ & _ & A3 & _), (print_u_spec i Hi) as (_ & _ & I3 & _).
  destruct (bip44_components_ok t b a i Ha Hi) as [_ Hlen].
  unfold bip44_path. cbn [from_option]. assert (forall x, urange 32 x -> snprintf (UINT32_MAX_DIGITS + 1) (print_u x) = print_u x) as Es.
  { intros x Hx. destruct (print_u_spec x Hx) as (_ & _ & H & _). unfold snprintf, UINT32_MAX_DIGITS. by rewrite take_ge by lia. }
  rewrite !Es by done.
  assert ((SLIP44_KEY_PATH ++ (if t then BIP44_COIN_TYPE_TEST else BIP44_COIN_TYPE) ++ [Byte.x27]) ++
    slash :: print_u a ++ Byte.x27 :: slash :: change_text b ++ slash :: print_u i = path_text (bip44_components t b a i)) as ->.
  { unfold path_text, bip44_components, component. cbn [map concat app fst snd]. fold (coin_type t). rewrite !app_nil_r.
    change SLIP44_KEY_PATH with [Byte.x6d; slash; Byte.x34; Byte.x34; Byte.x27; slash]. cbn [app]. repeat (rewrite <- ?app_assoc; cbn [app]). done. }
  unfold snprintf. rewrite take_ge; [done|]. unfold BIP44_KEY_PATH_MAX_LENGTH. lia.
Qed.

Lemma private_text_chain n c s : node_ok n -> c <> CHAIN_REGTEST -> hdnode_serialize_private n (chain_params c) HDKEYLEN = s ++ [byte_zero] -> length s = 111%nat ->
  isTestnetFromB58Prefix s = bool_decide (c = CHAIN_TEST).
Proof.
  intros Hn Hc Hs Hl. unfold isTestnetFromB58Prefix. rewrite <- (chain_from_app s [byte_zero]), <- Hs by (by destruct s).
  unfold hdnode_serialize_private, hdnode_serialize in *. pose proof (node_data_length n (b58prefix_bip32_privkey (chain_params c)) false Hn) as Hlen.
  destruct (encode_check_spec (node_data n (b58prefix_bip32_privkey (chain_params c)) false) ltac:(lia)) as (s' & _ & _ & E).
  assert (exists rest, node_data n (b58prefix_bip32_privkey (chain_params c)) false = be_enc 4 (b58prefix_bip32_privkey (chain_params c)) ++ rest /\ length rest = 74%nat) as (rest & Er & Hr).
  { eexists. split; [reflexivity|]. unfold node_data, write_be in Hlen. rewrite length_app, be_enc_length in Hlen. unfold write_be. lia. }
  rewrite Er in *. rewrite (chain_detected c _ Hc (text_extended c (b58prefix_bip32_privkey (chain_params c)) rest HDKEYLEN (or_introl eq_refl) Hr
    ltac:(rewrite E in *; destruct (_ <=? _); [by destruct s|cbn [fst]; lia]))).
  done.
Qed.

(** The keys of BIP 44: from the text of a master key of the main or the test chain, the chain
    of the coin is recognised, the path of purpose, coin, account, change and index is written,
    and the text of the private or public key it leads to is given. *)
Theorem bip44_account (n g : hdnode) (c : chain_name) (a i : Z) (internal use_public : bool) (kp : bytes)
  (Hn : node_ok n) (Hc : c <> CHAIN_REGTEST) (Ha : urange 31 a) (Hi : urange 31 i) (Hdepth : nd_depth n < 251)
  (ids := [44 + HARDENED; (if bool_decide (c = CHAIN_TEST) then 1 else 3) + HARDENED; Z.lor a HARDENED; (if internal then 1 else 0); i])
  (Hd : derivable_path (with_place n (nd_depth n) 0 0) ids) :
  exists s n', hdnode_serialize_private n (chain_params c) HDKEYLEN = s ++ [byte_zero] /\
    derive_path (with_place n (nd_depth n) 0 0) ids = Some n' /\ node_ok n' /\
    derive_bip44 use_public g s (Some a) (Some (change_text internal)) (Some i) None kp =
    Some (true, (if use_public then hdnode_serialize_public else hdnode_serialize_private) n' (chain_params c) HDKEYLEN,
          path_text (bip44_components (bool_decide (c = CHAIN_TEST)) internal a i)).
Proof.
  assert (urange 32 a /\ urange 32 i) as [Ha' Hi'] by (unfold urange in *; lia). set (t := bool_decide (c = CHAIN_TEST)) in *.
  destruct (bip44_components_ok t internal a i Ha' Hi') as [Hok Hlen].
  assert (map component_index (bip44_components t internal a i) = ids) as Eids.
  { destruct (print_u_spec a Ha') as (_ & _ & _ & A4), (print_u_spec i Hi') as (_ & _ & _ & I4).
    unfold ids, bip44_components. cbn [map]. unfold component_index. cbn [fst snd]. rewrite A4, I4. by destruct t, internal. }
  destruct (path_loops (with_place n (nd_depth n) 0 0) _ _ ltac:(by destruct Hn; split) (path_indexes _ Hok)) as (n' & Hp & Hdp & Hn' & _).
  { by rewrite Eids. }
  { rewrite path_tokens_text, length_map by done. cbn. lia. }
  rewrite Eids in Hdp. destruct (deserialize_private n c Hn) as (s & _ & Es & Hl & Ed). exists s, n'. split_and!; [done..|].
  unfold derive_bip44. rewrite (private_text_chain n c s Hn Hc Es Hl). fold t.
  assert (chain_of_flag t = chain_params c) as -> by (unfold t; by destruct c). rewrite Ed. cbn [mbind option_bind negb].
  unfold derive_bip44_extended_key.
  assert (negb (bytes_eqb (change_text internal) BIP44_CHANGE_EXTERNAL) && negb (bytes_eqb (change_text internal) BIP44_CHANGE_INTERNAL) = false) as -> by (by destruct internal).
  rewrite bip44_path_text by done. destruct Hn as [_ _ _ Hcc Hk].
  pose proof (generate_key_spec n g (path_text (bip44_components t internal a i)) false) as ->; [|split; [lia|done]|done|done].
  change (mk_node _ _ _ _ _ _) with (with_place n (nd_depth n) 0 0). rewrite Hp. cbn. done.
Qed.
End with_library.

(** ** A node over the integers, where no step fails *)

Definition all_keys : Secp256k1 := integers (fun _ => true).
Definition no_keys : Secp256k1 := integers (fun _ => false).
#[export] Instance all_keys_group : Secp256k1Group all_keys := integers_group _.
#[export] Instance no_keys_group : Secp256k1Group no_keys := integers_group _.

Definition demo_node : hdnode := mk_node 0 0 0 (zeros 32) (replicate 32 Byte.x01) (Byte.x02 :: replicate 32 Byte.x01).

Lemma demo_node_ok : node_ok (L := all_keys) demo_node.
Proof. split; try done. split; [done|]. exists (of_bytes 32 (replicate 32 Byte.x01)). split; reflexivity. Qed.

Lemma always_derivable n ids : derivable_path (L := all_keys) n ids.
Proof. revert n. induction ids as [|i ids IH]; intros n; [done|]. cbn [derivable_path]. split; [|intros n' _; apply IH]. split; reflexivity. Qed.

Lemma failed_child_reported_witness :
  exists k, hdnode_private_ckd (L := no_keys) demo_node 0 =
    Some (true, mk_node 0 (key_fingerprint (nd_public_key demo_node)) 0 (drop 32 (child_data demo_node 0)) k (nd_public_key demo_node)).
Proof. apply (failed_child_reported (L := no_keys) demo_node 0); [reflexivity|by left]. Defined.

Lemma extended_key_round_trip_witness :
  exists s, hdnode_serialize_private demo_node dogecoin_chainparams_main HDKEYLEN = s ++ [byte_zero] /\ length s = 111%nat /\
    hdnode_deserialize (L := all_keys) s dogecoin_chainparams_main = Some (true, demo_node).
Proof. apply (extended_key_round_trip (L := all_keys) demo_node CHAIN_MAIN demo_node_ok). Defined.

(** [m/7/8] *)
Definition demo_path : list (bytes * bool) := [([Byte.x37], false); ([Byte.x38], false)].

Lemma demo_keypath_ok : Forall component_ok demo_path.
Proof.
  repeat (apply Forall_cons; split); [..|by apply Forall_nil]; split_and!; try done.
  all: apply Forall_cons; split; [reflexivity|by apply Forall_nil].
Qed.

Lemma public_tree_witness :
  exists prv pub child_prv child_pub,
    hdnode_serialize_private demo_node dogecoin_chainparams_main HDKEYLEN = prv ++ [byte_zero] /\
    getHDPubKey (L := all_keys) prv false = Some (pub ++ [byte_zero]) /\
    deriveExtKeyFromHDKey (L := all_keys) hdnode_new prv (path_text demo_path) false = Some (child_prv ++ [byte_zero]) /\
    getHDPubKey (L := all_keys) child_prv false = Some (child_pub ++ [byte_zero]) /\
    deriveExtPubKeyFromHDKey (L := all_keys) hdnode_new pub (path_text demo_path) false = Some (child_pub ++ [byte_zero]).
Proof.
  apply (public_tree (L := all_keys) demo_node hdnode_new hdnode_new (path_text demo_path) [7; 8] false demo_node_ok); try reflexivity.
  - split; [cbn; lia|reflexivity].
  - discriminate.
  - repeat constructor.
  - apply always_derivable.
Defined.

Lemma path_followed_witness :
  exists n', derive_path (L := all_keys) demo_node [7; 8] = Some n' /\ node_ok (L := all_keys) n' /\
    hd_generate_key (L := all_keys) hdnode_new (path_text demo_path) (nd_private_key demo_node) 0 (zeros 32) false = Some (true, n') /\
    (Forall (fun i => Z.land i HARDENED = 0) [7; 8] ->
     hd_generate_key (L := all_keys) hdnode_new (path_text demo_path) (nd_public_key demo_node) 0 (zeros 32) true = Some (true, neuter n')).
Proof.
  apply (path_followed (L := all_keys) demo_node hdnode_new hdnode_new demo_path demo_node_ok); [discriminate|apply demo_keypath_ok|cbn; lia|apply always_derivable|reflexivity].
Defined.

Lemma bip44_account_witness :
  exists s n', hdnode_serialize_private demo_node dogecoin_chainparams_main HDKEYLEN = s ++ [byte_zero] /\
    derive_path (L := all_keys) demo_node [44 + HARDENED; 3 + HARDENED; HARDENED; 0; 5] = Some n' /\ node_ok (L := all_keys) n' /\
    derive_bip44 (L := all_keys) true hdnode_new s (Some 0) (Some BIP44_CHANGE_EXTERNAL) (Some 5) None [] =
    Some (true, hdnode_serialize_public n' dogecoin_chainparams_main HDKEYLEN, list_byte_of_string "m/44'/3'/0'/0/5").
Proof.
  apply (bip44_account (L := all_keys) demo_node hdnode_new CHAIN_MAIN 0 5 false true [] demo_node_ok); [discriminate|done|done|reflexivity|apply always_derivable].
Defined.
