(* ===== verification/Psbt.v ===== *)
(** * Partially signed transactions ([src/src/psbt.c])

    The data of BIP 174, its format, and the checks of the parser.  A vector with a count is a
    list, an array with a length the bytes that are used; [None] is a NULL pointer.  The roles
    that work on the data are in [PsbtRoles]. *)

From S2P Require Import Prelude Mem Serialize Script Sha256 Tx.

Local Open Scope Z_scope.

#[local] Opaque dogecoin_hash.

Definition PSBT_MAGIC_BYTES : bytes := [Byte.x70; Byte.x73; Byte.x62; Byte.x74; Byte.xff].
Definition PSBT_MAGIC_LEN : nat := 5.

Definition PSBT_GLOBAL_UNSIGNED_TX : Z := 0x00.
Definition PSBT_GLOBAL_XPUB : Z := 0x01.
Definition PSBT_GLOBAL_VERSION : Z := 0xFB.
Definition PSBT_IN_NON_WITNESS_UTXO : Z := 0x00.
Definition PSBT_IN_PARTIAL_SIG : Z := 0x02.
Definition PSBT_IN_SIGHASH_TYPE : Z := 0x03.
Definition PSBT_IN_REDEEM_SCRIPT : Z := 0x04.
Definition PSBT_IN_BIP32_DERIVATION : Z := 0x06.
Definition PSBT_IN_FINAL_SCRIPTSIG : Z := 0x07.
Definition PSBT_OUT_REDEEM_SCRIPT : Z := 0x00.
Definition PSBT_OUT_BIP32_DERIVATION : Z := 0x02.
Definition PSBT_VERSION_0 : Z := 0.
Definition PSBT_MAX_PUBKEY_LEN : Z := 33.
Definition PSBT_MAX_SIG_LEN : Z := 74.

(** ** Data *)

Record psbt_partialsig := mk_sig { ps_pubkey : bytes; ps_sig : bytes }.
Record psbt_keypath := mk_keypath { kp_pubkey : bytes; kp_fingerprint : Z; kp_path : list Z }.
Record psbt_xpub := mk_xpub { xp_xpub : bytes; xp_fingerprint : Z; xp_path : list Z }.
Record psbt_unknown := mk_unknown { uk_key : bytes; uk_value : bytes }.

Record psbt_input := mk_input {
  non_witness_utxo : option tx; redeem_script : option bytes; final_script_sig : option bytes;
  sighash_type : Z; has_sighash_type : bool;
  partial_sigs : list psbt_partialsig; keypaths : list psbt_keypath; in_unknowns : list psbt_unknown }.

Record psbt_output := mk_output {
  out_redeem_script : option bytes; out_keypaths : list psbt_keypath; out_unknowns : list psbt_unknown }.

Record psbt := mk_psbt {
  psbt_tx : option tx; psbt_version : Z; xpubs : list psbt_xpub;
  inputs : list psbt_input; outputs : list psbt_output; unknowns : list psbt_unknown }.

(** What [dogecoin_calloc] gives. *)
Definition psbt_input_zero : psbt_input := mk_input None None None 0 false [] [] [].
Definition psbt_output_zero : psbt_output := mk_output None [] [].

Definition psbt_new : psbt := mk_psbt (Some tx_new) 0 [] [] [] [].

(** Updates of one field. *)
Definition in_utxo (i : psbt_input) (t : option tx) : psbt_input :=
  mk_input t (redeem_script i) (final_script_sig i) (sighash_type i) (has_sighash_type i) (partial_sigs i) (keypaths i) (in_unknowns i).
Definition in_redeem (i : psbt_input) (s : option bytes) : psbt_input :=
  mk_input (non_witness_utxo i) s (final_script_sig i) (sighash_type i) (has_sighash_type i) (partial_sigs i) (keypaths i) (in_unknowns i).
Definition in_final (i : psbt_input) (s : option bytes) : psbt_input :=
  mk_input (non_witness_utxo i) (redeem_script i) s (sighash_type i) (has_sighash_type i) (partial_sigs i) (keypaths i) (in_unknowns i).
Definition in_sighash (i : psbt_input) (ty : Z) (has : bool) : psbt_input :=
  mk_input (non_witness_utxo i) (redeem_script i) (final_script_sig i) ty has (partial_sigs i) (keypaths i) (in_unknowns i).
Definition in_sigs (i : psbt_input) (l : list psbt_partialsig) : psbt_input :=
  mk_input (non_witness_utxo i) (redeem_script i) (final_script_sig i) (sighash_type i) (has_sighash_type i) l (keypaths i) (in_unknowns i).
Definition in_keypaths (i : psbt_input) (l : list psbt_keypath) : psbt_input :=
  mk_input (non_witness_utxo i) (redeem_script i) (final_script_sig i) (sighash_type i) (has_sighash_type i) (partial_sigs i) l (in_unknowns i).
Definition in_more (i : psbt_input) (l : list psbt_unknown) : psbt_input :=
  mk_input (non_witness_utxo i) (redeem_script i) (final_script_sig i) (sighash_type i) (has_sighash_type i) (partial_sigs i) (keypaths i) l.
Definition out_redeem (o : psbt_output) (s : option bytes) : psbt_output := mk_output s (out_keypaths o) (out_unknowns o).
Definition out_paths (o : psbt_output) (l : list psbt_keypath) : psbt_output := mk_output (out_redeem_script o) l (out_unknowns o).
Definition out_more (o : psbt_output) (l : list psbt_unknown) : psbt_output := mk_output (out_redeem_script o) (out_keypaths o) l.
Definition with_tx (p : psbt) (t : tx) (ins : list psbt_input) (outs : list psbt_output) : psbt :=
  mk_psbt (Some t) (psbt_version p) (xpubs p) ins outs (unknowns p).
Definition with_version (p : psbt) (v : Z) : psbt := mk_psbt (psbt_tx p) v (xpubs p) (inputs p) (outputs p) (unknowns p).
Definition with_xpubs (p : psbt) (l : list psbt_xpub) : psbt := mk_psbt (psbt_tx p) (psbt_version p) l (inputs p) (outputs p) (unknowns p).
Definition with_more (p : psbt) (l : list psbt_unknown) : psbt := mk_psbt (psbt_tx p) (psbt_version p) (xpubs p) (inputs p) (outputs p) l.
Definition with_inputs (p : psbt) (l : list psbt_input) : psbt := mk_psbt (psbt_tx p) (psbt_version p) (xpubs p) l (outputs p) (unknowns p).
Definition with_outputs (p : psbt) (l : list psbt_output) : psbt := mk_psbt (psbt_tx p) (psbt_version p) (xpubs p) (inputs p) l (unknowns p).

(** [txin->script_sig && txin->script_sig->len > 0] *)
Definition has_script (i : tx_in) : bool := match script_sig i with Some (_ :: _) => true | _ => false end.

(** [None]: NULL. *)
Definition psbt_create (t : tx) : option psbt :=
  ins ← vin t;
  outs ← vout t;
  if existsb has_script ins then None
  else Some (mk_psbt (Some (tx_copy tx_new t)) PSBT_VERSION_0 []
               (replicate (length ins) psbt_input_zero) (replicate (length outs) psbt_output_zero) []).

(** ** Writing *)

(** Lengths are converted to 32 bits. *)
Definition ser_psbt_kv (s key val : bytes) : bytes :=
  let s := ser_varlen s (u32 (Z.of_nat (length key))) in
  let s := ser_bytes s key in
  let s := ser_varlen s (u32 (Z.of_nat (length val))) in
  ser_bytes s val.

Definition ser_psbt_sep (s : bytes) : bytes := ser_bytes s [Byte.x00].

Definition key_of (ty : Z) (b : bytes) : bytes := byte.of_Z ty :: b.

(** A fingerprint and a path. *)
Definition path_bytes (fingerprint : Z) (path : list Z) : bytes := le_enc 4 fingerprint ++ concat (map (le_enc 4) path).

Definition ser_xpub (s : bytes) (x : psbt_xpub) : bytes :=
  ser_psbt_kv s (key_of PSBT_GLOBAL_XPUB (take 78 (xp_xpub x))) (path_bytes (xp_fingerprint x) (xp_path x)).
Definition ser_unknown (s : bytes) (u : psbt_unknown) : bytes := ser_psbt_kv s (uk_key u) (uk_value u).
Definition ser_sig (s : bytes) (p : psbt_partialsig) : bytes := ser_psbt_kv s (key_of PSBT_IN_PARTIAL_SIG (ps_pubkey p)) (ps_sig p).
Definition ser_keypath (ty : Z) (s : bytes) (k : psbt_keypath) : bytes :=
  ser_psbt_kv s (key_of ty (kp_pubkey k)) (path_bytes (kp_fingerprint k) (kp_path k)).

(** A string is only written when it is not empty. *)
Definition ser_script (ty : Z) (s : bytes) (script : option bytes) : bytes :=
  match script with Some (b :: l) => ser_psbt_kv s (key_of ty []) (b :: l) | _ => s end.

Definition ser_input (s : bytes) (i : psbt_input) : bytes :=
  let s := match non_witness_utxo i with
           | Some t => ser_psbt_kv s (key_of PSBT_IN_NON_WITNESS_UTXO []) (tx_serialize [] t) | None => s end in
  let s := foldl ser_sig s (partial_sigs i) in
  let s := if has_sighash_type i then ser_psbt_kv s (key_of PSBT_IN_SIGHASH_TYPE []) (le_enc 4 (sighash_type i)) else s in
  let s := ser_script PSBT_IN_REDEEM_SCRIPT s (redeem_script i) in
  let s := foldl (ser_keypath PSBT_IN_BIP32_DERIVATION) s (keypaths i) in
  let s := ser_script PSBT_IN_FINAL_SCRIPTSIG s (final_script_sig i) in
  let s := foldl ser_unknown s (in_unknowns i) in
  ser_psbt_sep s.

Definition ser_output (s : bytes) (o : psbt_output) : bytes :=
  let s := ser_script PSBT_OUT_REDEEM_SCRIPT s (out_redeem_script o) in
  let s := foldl (ser_keypath PSBT_OUT_BIP32_DERIVATION) s (out_keypaths o) in
  let s := foldl ser_unknown s (out_unknowns o) in
  ser_psbt_sep s.

Definition psbt_serialize (p : psbt) : option bytes :=
  t ← psbt_tx p;
  let s := ser_bytes [] PSBT_MAGIC_BYTES in
  let s := ser_psbt_kv s (key_of PSBT_GLOBAL_UNSIGNED_TX []) (tx_serialize [] t) in
  let s := foldl ser_xpub s (xpubs p) in
  let s := if psbt_version p =? PSBT_VERSION_0 then s
           else ser_psbt_kv s (key_of PSBT_GLOBAL_VERSION []) (le_enc 4 (psbt_version p)) in
  let s := foldl ser_unknown s (unknowns p) in
  let s := ser_psbt_sep s in
  let s := foldl ser_input s (inputs p) in
  Some (foldl ser_output s (outputs p)).

(** ** Reading *)

(** [None]: the separator. *)
Definition deser_psbt_kv : deser (option (bytes * bytes)) :=
  klen ← deser_varlen;
  if klen =? 0 then mret None
  else
    n ← deser_remaining;
    _ ← deser_guard (negb (n <? klen));
    key ← deser_bytes klen;
    vlen ← deser_varlen;
    if 0 <? vlen then
      n ← deser_remaining;
      _ ← deser_guard (negb (n <? vlen));
      val ← deser_bytes vlen;
      mret (Some (key, val))
    else mret (Some (key, [])).

(** The loop over a map: [field] takes a key and its value; [None]: a failure, or the fuel is spent. *)
Fixpoint deser_map {A} (field : A -> bytes -> bytes -> option A) (fuel : nat) (a : A) : deser A :=
  match fuel with
  | O => deser_fail
  | S fuel =>
      kv ← deser_psbt_kv;
      match kv with
      | None => mret a
      | Some (key, val) => match field a key val with None => deser_fail | Some a => deser_map field fuel a end
      end
  end.

(** A pair takes at least two bytes. *)
Definition deser_fields {A} (field : A -> bytes -> bytes -> option A) (a : A) : deser A :=
  fun buf => deser_map field (S (length buf)) a buf.

Definition key_type (key : bytes) : Z := byte.unsigned (hd Byte.x00 key).
Definition klen (key : bytes) : Z := Z.of_nat (length key).

Definition path_of (val : bytes) : list Z :=
  map (fun i => le_dec (take 4 (drop (4 + 4 * i) val))) (seq 0 ((length val - 4) / 4)).

(** The end of each of the three switches: a key that has not been there yet. *)
Definition add_unknown (l : list psbt_unknown) (key val : bytes) : option (list psbt_unknown) :=
  if existsb (fun u => bytes_eqb (uk_key u) key) l then None else Some (l ++ [mk_unknown key val]).

Definition add_keypath (l : list psbt_keypath) (key val : bytes) : option (list psbt_keypath) :=
  if Z.of_nat (length val) <? 4 then None
  else if existsb (fun k => bytes_eqb (kp_pubkey k) (tl key)) l then None
  else Some (l ++ [mk_keypath (tl key) (le_dec (take 4 val)) (path_of val)]).

(** The state of the first loop: [psbt], [got_tx], [got_version]. *)
Definition global_field (g : psbt * bool * bool) (key val : bytes) : option (psbt * bool * bool) :=
  let '(p, got_tx, got_version) := g in
  let type := key_type key in
  let vlen := Z.of_nat (length val) in
  if (type =? PSBT_GLOBAL_UNSIGNED_TX) && (klen key =? 1) then
    if got_tx || (vlen =? 0) then None
    else
      let '(ok, t, consumed) := tx_deserialize_ex val tx_new false in
      if negb ok then None
      else if negb (consumed =? vlen) then None
      else
        let ins := default [] (vin t) in
        if existsb has_script ins then None
        else Some (with_tx p t (replicate (length ins) psbt_input_zero) (replicate (length (default [] (vout t))) psbt_output_zero),
                   true, got_version)
  else if (type =? PSBT_GLOBAL_VERSION) && (klen key =? 1) then
    if got_version || negb (vlen =? 4) then None
    else Some (with_version p (le_dec (take 4 val)), got_tx, true)
  else if (type =? PSBT_GLOBAL_XPUB) && (klen key =? 79) then
    if vlen <? 4 then None
    else if existsb (fun x => bytes_eqb (xp_xpub x) (take 78 (tl key))) (xpubs p) then None
    else Some (with_xpubs p (xpubs p ++ [mk_xpub (take 78 (tl key)) (le_dec (take 4 val)) (path_of val)]), got_tx, got_version)
  else if (type =? PSBT_GLOBAL_UNSIGNED_TX) || (type =? PSBT_GLOBAL_XPUB) || (type =? PSBT_GLOBAL_VERSION) then None
  else
    l ← add_unknown (unknowns p) key val;
    Some (with_more p l, got_tx, got_version).

Definition input_field (i : psbt_input) (key val : bytes) : option psbt_input :=
  let type := key_type key in
  let vlen := Z.of_nat (length val) in
  if (type =? PSBT_IN_NON_WITNESS_UTXO) && (klen key =? 1) then
    if bool_decide (is_Some (non_witness_utxo i)) || (vlen =? 0) then None
    else
      let '(ok, t, consumed) := tx_deserialize val tx_new in
      if negb ok then None else Some (in_utxo i (Some t))
  else if (type =? PSBT_IN_PARTIAL_SIG) && (klen key =? 34) then
    if (vlen =? 0) || (PSBT_MAX_SIG_LEN <? vlen) then None
    else if existsb (fun s => bytes_eqb (ps_pubkey s) (tl key)) (partial_sigs i) then None
    else Some (in_sigs i (partial_sigs i ++ [mk_sig (tl key) val]))
  else if (type =? PSBT_IN_SIGHASH_TYPE) && (klen key =? 1) then
    if has_sighash_type i || negb (vlen =? 4) then None
    else Some (in_sighash i (le_dec (take 4 val)) true)
  else if (type =? PSBT_IN_REDEEM_SCRIPT) && (klen key =? 1) then
    if bool_decide (is_Some (redeem_script i)) then None else Some (in_redeem i (Some val))
  else if (type =? PSBT_IN_BIP32_DERIVATION) && (klen key =? 34) then
    l ← add_keypath (keypaths i) key val;
    Some (in_keypaths i l)
  else if (type =? PSBT_IN_FINAL_SCRIPTSIG) && (klen key =? 1) then
    if bool_decide (is_Some (final_script_sig i)) then None else Some (in_final i (Some val))
  else if (type =? PSBT_IN_NON_WITNESS_UTXO) || (type =? PSBT_IN_PARTIAL_SIG) || (type =? PSBT_IN_SIGHASH_TYPE) ||
          (type =? PSBT_IN_REDEEM_SCRIPT) || (type =? PSBT_IN_BIP32_DERIVATION) || (type =? PSBT_IN_FINAL_SCRIPTSIG) then None
  else
    l ← add_unknown (in_unknowns i) key val;
    Some (in_more i l).

Definition output_field (o : psbt_output) (key val : bytes) : option psbt_output :=
  let type := key_type key in
  if (type =? PSBT_OUT_REDEEM_SCRIPT) && (klen key =? 1) then
    if bool_decide (is_Some (out_redeem_script o)) then None else Some (out_redeem o (Some val))
  else if (type =? PSBT_OUT_BIP32_DERIVATION) && (klen key =? 34) then
    l ← add_keypath (out_keypaths o) key val;
    Some (out_paths o l)
  else if (type =? PSBT_OUT_REDEEM_SCRIPT) || (type =? PSBT_OUT_BIP32_DERIVATION) then None
  else
    l ← add_unknown (out_unknowns o) key val;
    Some (out_more o l).

(** One map for each element. *)
Fixpoint deser_each {A} (field : A -> bytes -> bytes -> option A) (l : list A) : deser (list A) :=
  match l with
  | [] => mret []
  | a :: l => a ← deser_fields field a; l ← deser_each field l; mret (a :: l)
  end.

Definition deser_psbt : deser psbt :=
  '(p, got_tx, _) ← deser_fields global_field (mk_psbt None PSBT_VERSION_0 [] [] [] [], false, false);
  _ ← deser_guard got_tx;
  ins ← deser_each input_field (inputs p);
  outs ← deser_each output_field (outputs p);
  mret (with_outputs (with_inputs p ins) outs).

(** What is behind the last map is not looked at. *)
Definition psbt_deserialize (data : bytes) : option psbt :=
  if (length data <? PSBT_MAGIC_LEN + 1)%nat then None
  else if negb (bytes_eqb (take PSBT_MAGIC_LEN data) PSBT_MAGIC_BYTES) then None
  else (deser_psbt (drop PSBT_MAGIC_LEN data)).1.

(** ** Well-formed data *)

Definition path_ok (fingerprint : Z) (path : list Z) : Prop :=
  urange 32 fingerprint /\ Forall (urange 32) path /\ 4 + 4 * Z.of_nat (length path) < 2 ^ 32.
Definition sig_ok (s : psbt_partialsig) : Prop := length (ps_pubkey s) = 33%nat /\ (1 <= length (ps_sig s) <= 74)%nat.
Definition keypath_ok (k : psbt_keypath) : Prop := length (kp_pubkey k) = 33%nat /\ path_ok (kp_fingerprint k) (kp_path k).
Definition xpub_ok (x : psbt_xpub) : Prop := length (xp_xpub x) = 78%nat /\ path_ok (xp_fingerprint x) (xp_path x).
Definition size_ok (b : bytes) : Prop := Z.of_nat (length b) < 2 ^ 32.
Definition unknown_ok (known : list Z) (u : psbt_unknown) : Prop :=
  uk_key u <> [] /\ size_ok (uk_key u) /\ size_ok (uk_value u) /\ key_type (uk_key u) ∉ known.
Definition script_ok (s : option bytes) : Prop := match s with Some b => size_ok b | None => True end.

(** All of the kind, and no key twice. *)
Definition distinct {A} (ok : A -> Prop) (key : A -> bytes) (l : list A) : Prop := Forall ok l /\ NoDup (map key l).

Definition global_types : list Z := [PSBT_GLOBAL_UNSIGNED_TX; PSBT_GLOBAL_XPUB; PSBT_GLOBAL_VERSION].
Definition input_types : list Z :=
  [PSBT_IN_NON_WITNESS_UTXO; PSBT_IN_PARTIAL_SIG; PSBT_IN_SIGHASH_TYPE; PSBT_IN_REDEEM_SCRIPT; PSBT_IN_BIP32_DERIVATION; PSBT_IN_FINAL_SCRIPTSIG].
Definition output_types : list Z := [PSBT_OUT_REDEEM_SCRIPT; PSBT_OUT_BIP32_DERIVATION].

Record input_wf (i : psbt_input) : Prop := {
  wf_sigs : distinct sig_ok ps_pubkey (partial_sigs i);
  wf_keypaths : distinct keypath_ok kp_pubkey (keypaths i);
  wf_unknowns : distinct (unknown_ok input_types) uk_key (in_unknowns i);
  wf_redeem : script_ok (redeem_script i);
  wf_final : script_ok (final_script_sig i);
  wf_sighash : urange 32 (sighash_type i) /\ (has_sighash_type i = false -> sighash_type i = 0) }.

Record output_wf (o : psbt_output) : Prop := {
  wf_out_redeem : script_ok (out_redeem_script o);
  wf_out_keypaths : distinct keypath_ok kp_pubkey (out_keypaths o);
  wf_out_unknowns : distinct (unknown_ok output_types) uk_key (out_unknowns o) }.

Record psbt_wf (p : psbt) : Prop := {
  wf_tx : exists t ins outs, psbt_tx p = Some t /\ vin t = Some ins /\ vout t = Some outs /\ existsb has_script ins = false /\
            length (inputs p) = length ins /\ length (outputs p) = length outs;
  wf_version : urange 32 (psbt_version p);
  wf_xpubs : distinct xpub_ok xp_xpub (xpubs p);
  wf_inputs : Forall input_wf (inputs p);
  wf_outputs : Forall output_wf (outputs p);
  wf_more : distinct (unknown_ok global_types) uk_key (unknowns p) }.

(** What is written as it is: transactions that are read back, and no empty scripts. *)
Definition tx_writable (t : tx) : Prop := exists ins outs, tx_ok t ins outs /\ size_ok (tx_serialize [] t).
Definition input_normal (i : psbt_input) : Prop :=
  redeem_script i <> Some [] /\ final_script_sig i <> Some [] /\
  match non_witness_utxo i with Some t => tx_writable t /\ vin t <> Some [] | None => True end.
Definition output_normal (o : psbt_output) : Prop := out_redeem_script o <> Some [].
Definition psbt_normal (p : psbt) : Prop :=
  (exists t, psbt_tx p = Some t /\ tx_writable t) /\ Forall input_normal (inputs p) /\ Forall output_normal (outputs p).

(** ** Maps as lists of pairs *)

Definition kv_bytes (kv : bytes * bytes) : bytes := ser_psbt_kv [] kv.1 kv.2.
Definition kvs_bytes (l : list (bytes * bytes)) : bytes := concat (map kv_bytes l).
Definition kv_ok (kv : bytes * bytes) : Prop := kv.1 <> [] /\ size_ok kv.1 /\ size_ok kv.2.

Lemma ser_kv_app s k v : ser_psbt_kv s k v = s ++ kv_bytes (k, v).
Proof.
  unfold ser_psbt_kv, kv_bytes, ser_psbt_kv. cbn [fst snd]. rewrite !ser_bytes_app.
  rewrite (ser_varlen_appends (ser_varlen s _ ++ k)), (ser_varlen_appends s), (ser_varlen_appends (ser_varlen [] _ ++ k)).
  by rewrite <- !app_assoc.
Qed.

Lemma kvs_bytes_app l l' : kvs_bytes (l ++ l') = kvs_bytes l ++ kvs_bytes l'.
Proof. unfold kvs_bytes. by rewrite map_app, concat_app. Qed.

Lemma foldl_kvs {A} (f : bytes -> A -> bytes) (kv : A -> bytes * bytes) (l : list A) s :
  (forall s a, f s a = s ++ kv_bytes (kv a)) -> foldl f s l = s ++ kvs_bytes (map kv l).
Proof.
  intros Hf. revert s. induction l as [|a l IH]; intros s; cbn [foldl map]; [by rewrite app_nil_r|].
  rewrite IH, Hf. unfold kvs_bytes. cbn [map concat]. by rewrite app_assoc.
Qed.

Definition kv_of_script (ty : Z) (o : option bytes) : list (bytes * bytes) :=
  match o with Some (b :: l) => [(key_of ty [], b :: l)] | _ => [] end.
Definition kv_of_sig (s : psbt_partialsig) : bytes * bytes := (key_of PSBT_IN_PARTIAL_SIG (ps_pubkey s), ps_sig s).
Definition kv_of_keypath (ty : Z) (k : psbt_keypath) : bytes * bytes := (key_of ty (kp_pubkey k), path_bytes (kp_fingerprint k) (kp_path k)).
Definition kv_of_xpub (x : psbt_xpub) : bytes * bytes :=
  (key_of PSBT_GLOBAL_XPUB (take 78 (xp_xpub x)), path_bytes (xp_fingerprint x) (xp_path x)).
Definition kv_of_unknown (u : psbt_unknown) : bytes * bytes := (uk_key u, uk_value u).

Definition kvs_of_input (i : psbt_input) : list (bytes * bytes) :=
  match non_witness_utxo i with Some t => [(key_of PSBT_IN_NON_WITNESS_UTXO [], tx_serialize [] t)] | None => [] end ++
  map kv_of_sig (partial_sigs i) ++
  (if has_sighash_type i then [(key_of PSBT_IN_SIGHASH_TYPE [], le_enc 4 (sighash_type i))] else []) ++
  kv_of_script PSBT_IN_REDEEM_SCRIPT (redeem_script i) ++
  map (kv_of_keypath PSBT_IN_BIP32_DERIVATION) (keypaths i) ++
  kv_of_script PSBT_IN_FINAL_SCRIPTSIG (final_script_sig i) ++ map kv_of_unknown (in_unknowns i).

Definition kvs_of_output (o : psbt_output) : list (bytes * bytes) :=
  kv_of_script PSBT_OUT_REDEEM_SCRIPT (out_redeem_script o) ++
  map (kv_of_keypath PSBT_OUT_BIP32_DERIVATION) (out_keypaths o) ++ map kv_of_unknown (out_unknowns o).

Definition kvs_of_global (p : psbt) (t : tx) : list (bytes * bytes) :=
  [(key_of PSBT_GLOBAL_UNSIGNED_TX [], tx_serialize [] t)] ++ map kv_of_xpub (xpubs p) ++
  (if psbt_version p =? PSBT_VERSION_0 then [] else [(key_of PSBT_GLOBAL_VERSION [], le_enc 4 (psbt_version p))]) ++
  map kv_of_unknown (unknowns p).

Lemma ser_script_kvs ty s o : ser_script ty s o = s ++ kvs_bytes (kv_of_script ty o).
Proof.
  destruct o as [[|b l]|]; cbn [ser_script kv_of_script]; try by rewrite app_nil_r.
  rewrite ser_kv_app. unfold kvs_bytes. cbn [map concat]. by rewrite app_nil_r.
Qed.

Definition map_bytes (kvs : list (bytes * bytes)) : bytes := kvs_bytes kvs ++ [Byte.x00].

Lemma kvs_bytes_1 k v : kvs_bytes [(k, v)] = kv_bytes (k, v).
Proof. unfold kvs_bytes. cbn [map concat]. by rewrite app_nil_r. Qed.

Lemma ser_input_kvs s i : ser_input s i = s ++ map_bytes (kvs_of_input i).
Proof.
  unfold ser_input, ser_psbt_sep, map_bytes, kvs_of_input. rewrite ser_bytes_app.
  rewrite (foldl_kvs ser_unknown kv_of_unknown) by (intros; apply ser_kv_app). rewrite ser_script_kvs.
  rewrite (foldl_kvs _ (kv_of_keypath PSBT_IN_BIP32_DERIVATION)) by (intros; apply ser_kv_app). rewrite ser_script_kvs.
  rewrite !kvs_bytes_app, !app_assoc. do 5 f_equal.
  destruct (has_sighash_type i); rewrite ?ser_kv_app, ?kvs_bytes_1, ?app_nil_r; repeat f_equal.
  all: rewrite (foldl_kvs _ kv_of_sig) by (intros; apply ser_kv_app); f_equal.
  all: destruct (non_witness_utxo i); by rewrite ?ser_kv_app, ?kvs_bytes_1, ?app_nil_r.
Qed.

Lemma ser_output_kvs s o : ser_output s o = s ++ map_bytes (kvs_of_output o).
Proof.
  unfold ser_output, ser_psbt_sep, map_bytes, kvs_of_output. rewrite ser_bytes_app.
  rewrite (foldl_kvs ser_unknown kv_of_unknown) by (intros; apply ser_kv_app).
  rewrite (foldl_kvs _ (kv_of_keypath PSBT_OUT_BIP32_DERIVATION)) by (intros; apply ser_kv_app). rewrite ser_script_kvs.
  by rewrite !kvs_bytes_app, !app_assoc.
Qed.

Lemma foldl_each {A} (f : bytes -> A -> bytes) (g : A -> bytes) (l : list A) s :
  (forall s a, f s a = s ++ g a) -> foldl f s l = s ++ concat (map g l).
Proof.
  intros Hf. revert s. induction l as [|a l IH]; intros s; cbn [foldl map concat]; [by rewrite app_nil_r|].
  by rewrite IH, Hf, app_assoc.
Qed.

Lemma psbt_serialize_kvs p t : psbt_tx p = Some t ->
  psbt_serialize p = Some (PSBT_MAGIC_BYTES ++ map_bytes (kvs_of_global p t) ++
    concat (map (map_bytes ∘ kvs_of_input) (inputs p)) ++ concat (map (map_bytes ∘ kvs_of_output) (outputs p))).
Proof.
  intros Ht. unfold psbt_serialize. rewrite Ht. cbn [mbind option_bind]. f_equal.
  rewrite (foldl_each _ (map_bytes ∘ kvs_of_output)) by apply ser_output_kvs.
  rewrite (foldl_each _ (map_bytes ∘ kvs_of_input)) by apply ser_input_kvs.
  rewrite !app_assoc. do 2 f_equal. unfold ser_psbt_sep, map_bytes, kvs_of_global. rewrite ser_bytes_app, app_assoc. f_equal.
  rewrite (foldl_kvs ser_unknown kv_of_unknown) by (intros; apply ser_kv_app). rewrite !kvs_bytes_app, !app_assoc. f_equal.
  rewrite kvs_bytes_1. destruct (psbt_version p =? PSBT_VERSION_0); rewrite ?ser_kv_app, ?kvs_bytes_1, ?app_nil_r; repeat f_equal.
  all: rewrite (foldl_kvs _ kv_of_xpub) by (intros; apply ser_kv_app); by rewrite ?ser_kv_app, ?app_assoc.
Qed.

(** *** Reading a list of pairs *)

Fixpoint run_fields {A} (field : A -> bytes -> bytes -> option A) (a : A) (kvs : list (bytes * bytes)) : option A :=
  match kvs with
  | [] => Some a
  | kv :: kvs => a ← field a kv.1 kv.2; run_fields field a kvs
  end.

Lemma run_fields_app {A} (field : A -> bytes -> bytes -> option A) a l l' :
  run_fields field a (l ++ l') = (run_fields field a l ≫= fun a => run_fields field a l').
Proof. revert a. induction l as [|kv l IH]; intros a; [done|]. cbn. destruct (field a kv.1 kv.2); [apply IH|done]. Qed.

Lemma deser_kv_ok kv rest : kv_ok kv -> deser_psbt_kv (kv_bytes kv ++ rest) = (Some (Some kv), rest).
Proof.
  destruct kv as [k v]. intros (Hk & Hkl & Hvl). cbn [fst snd] in *. unfold size_ok in *.
  assert (0 < Z.of_nat (length k)) as Hk0 by (destruct k; [done|cbn [length]; lia]).
  assert (urange 32 (Z.of_nat (length k))) as Uk by (unfold urange; lia).
  assert (urange 32 (Z.of_nat (length v))) as Uv by (unfold urange; lia).
  unfold kv_bytes, ser_psbt_kv. cbn [fst snd]. rewrite !ser_bytes_app, ser_varlen_appends, <- !app_assoc.
  rewrite !wrap_small by done. unfold deser_psbt_kv.
  rewrite (deser_bind_some _ _ _ _ _ (varlen_round_trip _ _ Uk)). rewrite (proj2 (Z.eqb_neq _ _)) by lia.
  rewrite (deser_bind_some deser_remaining _ _ _ _ eq_refl). rewrite length_app, (proj2 (Z.ltb_ge _ _)) by lia. cbn [negb].
  rewrite (deser_bind_some (deser_guard true) _ _ _ _ eq_refl). rewrite (deser_bind_some _ _ _ _ _ (deser_bytes_app _ k _ eq_refl)).
  rewrite (deser_bind_some _ _ _ _ _ (varlen_round_trip _ _ Uv)).
  destruct (Z.ltb_spec 0 (Z.of_nat (length v))).
  - rewrite (deser_bind_some deser_remaining _ _ _ _ eq_refl). rewrite length_app, (proj2 (Z.ltb_ge _ _)) by lia. cbn [negb].
    rewrite (deser_bind_some (deser_guard true) _ _ _ _ eq_refl). by rewrite (deser_bind_some _ _ _ _ _ (deser_bytes_app _ v _ eq_refl)).
  - destruct v; [done|cbn [length] in *; lia].
Qed.

Lemma deser_sep rest : deser_psbt_kv (Byte.x00 :: rest) = (Some None, rest).
Proof.
  change (Byte.x00 :: rest) with (ser_varlen [] 0 ++ rest). unfold deser_psbt_kv.
  by rewrite (deser_bind_some _ _ _ _ _ (varlen_round_trip 0 rest ltac:(unfold urange; lia))).
Qed.

Lemma deser_map_kvs {A} (field : A -> bytes -> bytes -> option A) kvs : Forall kv_ok kvs -> forall fuel a a' rest, (length kvs < fuel)%nat ->
  run_fields field a kvs = Some a' -> deser_map field fuel a (map_bytes kvs ++ rest) = (Some a', rest).
Proof.
  induction 1 as [|kv kvs Hkv _ IH]; intros [|fuel] a a' rest Hf Hr; cbn [length] in Hf; try lia; cbn [deser_map].
  - injection Hr as ->. by rewrite (deser_bind_some _ _ _ _ _ (deser_sep rest)).
  - unfold map_bytes, kvs_bytes. cbn [map concat]. rewrite <- !app_assoc.
    rewrite (deser_bind_some _ _ _ _ _ (deser_kv_ok kv _ Hkv)). cbn [run_fields] in Hr. destruct kv as [k v]. cbn [fst snd] in Hr.
    destruct (field a k v) as [a1|]; [|done]. cbn [mbind option_bind] in Hr.
    rewrite app_assoc. apply IH; [lia|done].
Qed.

Lemma length_kvs_bytes kvs : (length kvs <= length (kvs_bytes kvs))%nat.
Proof.
  induction kvs as [|kv kvs IH]; [done|]. unfold kvs_bytes in *. cbn [map concat length]. rewrite length_app.
  enough (1 <= length (kv_bytes kv))%nat by lia. unfold kv_bytes, ser_psbt_kv. rewrite !ser_bytes_app, ser_varlen_appends, !length_app.
  unfold ser_varlen. repeat case_match; unfold ser_bytes, ser_u16, ser_u32, sink_append, bytes_sink; rewrite ?length_app; cbn [length app]; lia.
Qed.

Lemma deser_fields_kvs {A} (field : A -> bytes -> bytes -> option A) kvs a a' rest : Forall kv_ok kvs ->
  run_fields field a kvs = Some a' -> deser_fields field a (map_bytes kvs ++ rest) = (Some a', rest).
Proof.
  intros Hk Hr. unfold deser_fields. apply deser_map_kvs; try done. unfold map_bytes. rewrite !length_app.
  pose proof (length_kvs_bytes kvs). lia.
Qed.

(** *** Groups of pairs *)

Lemma existsb_key {A} (key : A -> bytes) (l : list A) b : b ∉ map key l -> existsb (fun a => bytes_eqb (key a) b) l = false.
Proof.
  intros H. apply not_true_is_false. intros (a & Hi & He)%existsb_exists. apply H. apply bool_decide_eq_true in He. subst b.
  apply list_elem_of_In. by apply in_map.
Qed.

(** Pairs that each add an element at the end of a list. *)
Lemma run_group {A B} (field : A -> bytes -> bytes -> option A) (kv : B -> bytes * bytes) (put : list B -> A) (ok : B -> Prop) (key : B -> bytes) :
  (forall l b, ok b -> key b ∉ map key l -> field (put l) (kv b).1 (kv b).2 = Some (put (l ++ [b]))) ->
  forall l l0, Forall ok l -> NoDup (map key (l0 ++ l)) -> run_fields field (put l0) (map kv l) = Some (put (l0 ++ l)).
Proof.
  intros Hf l. induction l as [|b l IH]; intros l0 Hok Hnd; cbn [map run_fields]; [by rewrite app_nil_r|].
  apply Forall_cons_1 in Hok as [Hb Hok]. rewrite Hf; [|done|].
  - cbn [mbind option_bind]. rewrite (IH (l0 ++ [b])) by (rewrite <- ?app_assoc; done). by rewrite <- app_assoc.
  - rewrite map_app in Hnd. cbn [map] in Hnd. apply NoDup_app in Hnd as (_ & Hd & _). intros Hi. apply (Hd _ Hi). by left.
Qed.

Lemma klen_key ty b : klen (key_of ty b) = 1 + Z.of_nat (length b).
Proof. unfold klen, key_of. cbn [length]. lia. Qed.

Lemma key_type_key ty b : urange 8 ty -> key_type (key_of ty b) = ty.
Proof. intros. unfold key_type, key_of. cbn [hd]. rewrite byte_unsigned_of_Z. by apply wrap_small. Qed.

Lemma path_bytes_fields fp path : path_ok fp path ->
  le_dec (take 4 (path_bytes fp path)) = fp /\ path_of (path_bytes fp path) = path /\
  Z.of_nat (length (path_bytes fp path)) = 4 + 4 * Z.of_nat (length path).
Proof.
  intros (Hf & Hp & _). assert (length (concat (map (le_enc 4) path)) = (4 * length path)%nat) as Hl.
  { rewrite (length_concat_const 4), length_map; [lia|]. intros b (x & <- & _)%list_elem_of_In%in_map_iff. apply le_enc_length. }
  assert (length (path_bytes fp path) = (4 + 4 * length path)%nat) as Hlen by (unfold path_bytes; rewrite length_app, le_enc_length; lia).
  split; [|split; [|lia]].
  - unfold path_bytes. rewrite take_app_exact by apply le_enc_length. by apply le_dec_enc_small.
  - unfold path_of. rewrite Hlen. replace ((4 + 4 * length path - 4) / 4)%nat with (length path)
      by (replace (4 + 4 * length path - 4)%nat with (length path * 4)%nat by lia; by rewrite Nat.div_mul).
    clear Hl Hlen. induction Hp as [|x path Hx Hp IH] in fp, Hf |- *; [done|].
    cbn [length seq map]. apply (f_equal2 cons).
    + unfold path_bytes. cbn [map concat]. rewrite drop_app_exact by apply le_enc_length.
      rewrite take_app_exact by apply le_enc_length. by apply le_dec_enc_small.
    + rewrite <- seq_shift, map_map. rewrite <- (IH x Hx) at 2. apply map_ext. intros i. f_equal. f_equal.
      replace (4 + 4 * S i)%nat with (4 + (4 + 4 * i))%nat by lia. by rewrite <- drop_drop.
Qed.

Lemma add_keypath_ok l ty k : urange 8 ty -> keypath_ok k -> kp_pubkey k ∉ map kp_pubkey l ->
  add_keypath l (kv_of_keypath ty k).1 (kv_of_keypath ty k).2 = Some (l ++ [k]).
Proof.
  intros Ht [Hk Hp] Hn. destruct (path_bytes_fields _ _ Hp) as (E1 & E2 & E3). unfold add_keypath, kv_of_keypath. cbn [fst snd].
  rewrite E1, E2, E3, (proj2 (Z.ltb_ge _ _)) by lia. cbn [key_of tl]. rewrite (existsb_key kp_pubkey) by done. by destruct k.
Qed.

Lemma add_unknown_ok l u : uk_key u ∉ map uk_key l -> add_unknown l (uk_key u) (uk_value u) = Some (l ++ [u]).
Proof. intros Hn. unfold add_unknown. rewrite (existsb_key uk_key) by done. by destruct u. Qed.

Ltac types := rewrite ?key_type_key, ?klen_key by done; cbn [length Z.of_nat];
  rewrite ?Z.eqb_refl; unfold PSBT_GLOBAL_UNSIGNED_TX, PSBT_GLOBAL_XPUB, PSBT_GLOBAL_VERSION, PSBT_IN_NON_WITNESS_UTXO, PSBT_IN_PARTIAL_SIG,
    PSBT_IN_SIGHASH_TYPE, PSBT_IN_REDEEM_SCRIPT, PSBT_IN_BIP32_DERIVATION, PSBT_IN_FINAL_SCRIPTSIG, PSBT_OUT_REDEEM_SCRIPT,
    PSBT_OUT_BIP32_DERIVATION; cbn [Z.eqb Pos.eqb andb orb].

Lemma input_sig_field i l s : sig_ok s -> ps_pubkey s ∉ map ps_pubkey l ->
  input_field (in_sigs i l) (kv_of_sig s).1 (kv_of_sig s).2 = Some (in_sigs i (l ++ [s])).
Proof.
  intros [Hk Hs] Hn. unfold input_field, kv_of_sig. cbn [fst snd]. types. rewrite Hk. change (1 + Z.of_nat 33 =? 34) with true. cbv iota.
  rewrite (proj2 (Z.eqb_neq _ _)), (proj2 (Z.ltb_ge _ _)) by (unfold PSBT_MAX_SIG_LEN; lia). cbn [orb key_of tl partial_sigs in_sigs].
  rewrite (existsb_key ps_pubkey) by done. by destruct s.
Qed.

Lemma input_keypath_field i l k : keypath_ok k -> kp_pubkey k ∉ map kp_pubkey l ->
  input_field (in_keypaths i l) (kv_of_keypath PSBT_IN_BIP32_DERIVATION k).1 (kv_of_keypath PSBT_IN_BIP32_DERIVATION k).2 = Some (in_keypaths i (l ++ [k])).
Proof.
  intros Hk Hn. unfold input_field. rewrite (add_keypath_ok (keypaths (in_keypaths i l)) PSBT_IN_BIP32_DERIVATION k) by done.
  unfold kv_of_keypath. cbn [fst snd]. types. by rewrite (proj1 Hk).
Qed.

Lemma unknown_type (known : list Z) u ty : unknown_ok known u -> ty ∈ known -> (key_type (uk_key u) =? ty) = false.
Proof. intros (_ & _ & _ & H) Hi. apply Z.eqb_neq. by intros <-. Qed.

Lemma input_unknown_field i l u : unknown_ok input_types u -> uk_key u ∉ map uk_key l ->
  input_field (in_more i l) (kv_of_unknown u).1 (kv_of_unknown u).2 = Some (in_more i (l ++ [u])).
Proof.
  intros Hu Hn. unfold input_field, kv_of_unknown. cbn [fst snd]. cbv zeta.
  rewrite !(unknown_type input_types u) by (done || (unfold input_types; set_solver)). cbn [andb orb in_unknowns in_more].
  by rewrite add_unknown_ok.
Qed.

Lemma output_keypath_field o l k : keypath_ok k -> kp_pubkey k ∉ map kp_pubkey l ->
  output_field (out_paths o l) (kv_of_keypath PSBT_OUT_BIP32_DERIVATION k).1 (kv_of_keypath PSBT_OUT_BIP32_DERIVATION k).2 = Some (out_paths o (l ++ [k])).
Proof.
  intros Hk Hn. unfold output_field. rewrite (add_keypath_ok (out_keypaths (out_paths o l)) PSBT_OUT_BIP32_DERIVATION k) by done.
  unfold kv_of_keypath. cbn [fst snd]. types. by rewrite (proj1 Hk).
Qed.

Lemma output_unknown_field o l u : unknown_ok output_types u -> uk_key u ∉ map uk_key l ->
  output_field (out_more o l) (kv_of_unknown u).1 (kv_of_unknown u).2 = Some (out_more o (l ++ [u])).
Proof.
  intros Hu Hn. unfold output_field, kv_of_unknown. cbn [fst snd]. cbv zeta.
  rewrite !(unknown_type output_types u) by (done || (unfold output_types; set_solver)). cbn [andb orb out_unknowns out_more].
  by rewrite add_unknown_ok.
Qed.

Lemma global_xpub_field p v l x : xpub_ok x -> xp_xpub x ∉ map xp_xpub l ->
  global_field (with_xpubs p l, true, v) (kv_of_xpub x).1 (kv_of_xpub x).2 = Some (with_xpubs p (l ++ [x]), true, v).
Proof.
  intros [Hk Hp] Hn. destruct (path_bytes_fields _ _ Hp) as (E1 & E2 & E3). unfold global_field, kv_of_xpub. cbn [fst snd].
  rewrite E1, E2, E3. types. rewrite length_take, Hk. change (1 + Z.of_nat (78 `min` 78) =? 79) with true. cbv iota.
  rewrite (proj2 (Z.ltb_ge _ _)) by lia. cbn [key_of tl xpubs with_xpubs]. rewrite take_take, take_ge by (rewrite Hk; lia).
  rewrite (existsb_key xp_xpub) by done. by destruct x.
Qed.

Lemma global_unknown_field p v l u : unknown_ok global_types u -> uk_key u ∉ map uk_key l ->
  global_field (with_more p l, true, v) (kv_of_unknown u).1 (kv_of_unknown u).2 = Some (with_more p (l ++ [u]), true, v).
Proof.
  intros Hu Hn. unfold global_field, kv_of_unknown. cbn [fst snd]. cbv zeta.
  rewrite !(unknown_type global_types u) by (done || (unfold global_types; set_solver)). cbn [andb orb unknowns with_more].
  by rewrite add_unknown_ok.
Qed.

Lemma run_distinct {A B} (field : A -> bytes -> bytes -> option A) (kv : B -> bytes * bytes) (put : list B -> A) (ok : B -> Prop) (key : B -> bytes) a l :
  (forall l b, ok b -> key b ∉ map key l -> field (put l) (kv b).1 (kv b).2 = Some (put (l ++ [b]))) ->
  put [] = a -> distinct ok key l -> run_fields field a (map kv l) = Some (put l).
Proof. intros Hf <- [Hok Hnd]. exact (run_group field kv put ok key Hf l [] Hok Hnd). Qed.

Lemma run_input_sigs a l : partial_sigs a = [] -> distinct sig_ok ps_pubkey l -> run_fields input_field a (map kv_of_sig l) = Some (in_sigs a l).
Proof. intros Ha. apply run_distinct; [apply input_sig_field|]. destruct a; cbn in *. by subst. Qed.

Lemma run_input_keypaths a l : keypaths a = [] -> distinct keypath_ok kp_pubkey l ->
  run_fields input_field a (map (kv_of_keypath PSBT_IN_BIP32_DERIVATION) l) = Some (in_keypaths a l).
Proof. intros Ha. apply run_distinct; [apply input_keypath_field|]. destruct a; cbn in *. by subst. Qed.

Lemma run_input_unknowns a l : in_unknowns a = [] -> distinct (unknown_ok input_types) uk_key l ->
  run_fields input_field a (map kv_of_unknown l) = Some (in_more a l).
Proof. intros Ha. apply run_distinct; [apply input_unknown_field|]. destruct a; cbn in *. by subst. Qed.

Lemma run_output_keypaths a l : out_keypaths a = [] -> distinct keypath_ok kp_pubkey l ->
  run_fields output_field a (map (kv_of_keypath PSBT_OUT_BIP32_DERIVATION) l) = Some (out_paths a l).
Proof. intros Ha. apply run_distinct; [apply output_keypath_field|]. destruct a; cbn in *. by subst. Qed.

Lemma run_output_unknowns a l : out_unknowns a = [] -> distinct (unknown_ok output_types) uk_key l ->
  run_fields output_field a (map kv_of_unknown l) = Some (out_more a l).
Proof. intros Ha. apply run_distinct; [apply output_unknown_field|]. destruct a; cbn in *. by subst. Qed.

Lemma run_xpubs p v l : xpubs p = [] -> distinct xpub_ok xp_xpub l ->
  run_fields global_field (p, true, v) (map kv_of_xpub l) = Some (with_xpubs p l, true, v).
Proof.
  intros Hp. apply (run_distinct global_field kv_of_xpub (fun l => (with_xpubs p l, true, v))); [intros; by apply global_xpub_field|].
  destruct p; cbn in *. by subst.
Qed.

Lemma run_more p v l : unknowns p = [] -> distinct (unknown_ok global_types) uk_key l ->
  run_fields global_field (p, true, v) (map kv_of_unknown l) = Some (with_more p l, true, v).
Proof.
  intros Hp. apply (run_distinct global_field kv_of_unknown (fun l => (with_more p l, true, v))); [intros; by apply global_unknown_field|].
  destruct p; cbn in *. by subst.
Qed.

Lemma length_nonzero (b : bytes) : b <> [] -> (Z.of_nat (length b) =? 0) = false.
Proof. intros H. apply Z.eqb_neq. destruct b; [done|cbn [length]; lia]. Qed.

Lemma tx_nonempty t : tx_writable t -> (Z.of_nat (length (tx_serialize [] t)) =? 0) = false.
Proof. intros (ins & outs & H & _). pose proof (tx_serialize_length_ge t ins outs H). apply Z.eqb_neq. lia. Qed.

Lemma read_tx t w : tx_writable t -> (w = true -> vin t <> Some []) ->
  tx_deserialize_ex (tx_serialize [] t) tx_new w = (true, t, Z.of_nat (length (tx_serialize [] t))).
Proof.
  intros (ins & outs & H & _) Hw. rewrite <- (app_nil_r (tx_serialize [] t)) at 1.
  apply (tx_deserialize_serialize t tx_new ins outs); try done. intros E ->. by apply Hw, (ok_vin _ _ _ H).
Qed.

Lemma run_input_utxo o : match o with Some t => tx_writable t /\ vin t <> Some [] | None => True end ->
  run_fields input_field psbt_input_zero
    (match o with Some t => [(key_of PSBT_IN_NON_WITNESS_UTXO [], tx_serialize [] t)] | None => [] end) = Some (in_utxo psbt_input_zero o).
Proof.
  destruct o as [t|]; [|done]. intros [Ht Hv]. cbn [run_fields fst snd]. unfold input_field. types. rewrite (tx_nonempty t Ht).
  cbn [orb bool_decide non_witness_utxo psbt_input_zero]. unfold tx_deserialize. by rewrite (read_tx t true Ht).
Qed.

Lemma run_input_script a ty put get : (ty, put, get) = (PSBT_IN_REDEEM_SCRIPT, in_redeem, redeem_script) \/ (ty, put, get) = (PSBT_IN_FINAL_SCRIPTSIG, in_final, final_script_sig) ->
  forall o, get a = None -> o <> Some [] -> run_fields input_field a (kv_of_script ty o) = Some (put a o).
Proof.
  intros H o Ha Ho. destruct o as [[|b l]|]; [done| |].
  - cbn [kv_of_script run_fields fst snd]. unfold input_field. destruct H as [[= -> -> ->]|[= -> -> ->]]; types; by rewrite Ha.
  - cbn [kv_of_script run_fields]. destruct H as [[= -> -> ->]|[= -> -> ->]]; destruct a; cbn in *; by subst.
Qed.

Lemma run_input i : input_wf i -> input_normal i -> run_fields input_field psbt_input_zero (kvs_of_input i) = Some i.
Proof.
  intros [Hs Hk Hu _ _ [Hsr Hs0]] (Hr & Hf & Ht). unfold kvs_of_input. rewrite run_fields_app, run_input_utxo by done. cbn [mbind option_bind].
  rewrite run_fields_app, run_input_sigs by done. cbn [mbind option_bind].
  set (a := in_sigs _ _). rewrite run_fields_app. assert (run_fields input_field a
     (if has_sighash_type i then [(key_of PSBT_IN_SIGHASH_TYPE [], le_enc 4 (sighash_type i))] else []) =
     Some (in_sighash a (sighash_type i) (has_sighash_type i))) as ->.
  { destruct (has_sighash_type i) eqn:E; cbn [run_fields fst snd].
    - unfold input_field. types. change (has_sighash_type a) with false. cbn [orb negb].
      rewrite take_ge by (rewrite le_enc_length; lia). by rewrite le_dec_enc_small.
    - by rewrite Hs0. }
  cbn [mbind option_bind]. rewrite run_fields_app, (run_input_script _ _ in_redeem redeem_script) by auto. cbn [mbind option_bind].
  rewrite run_fields_app, run_input_keypaths by done. cbn [mbind option_bind].
  rewrite run_fields_app, (run_input_script _ _ in_final final_script_sig) by auto. cbn [mbind option_bind].
  rewrite run_input_unknowns by done. by destruct i.
Qed.

Lemma run_output o : output_wf o -> output_normal o -> run_fields output_field psbt_output_zero (kvs_of_output o) = Some o.
Proof.
  intros [_ Hk Hu] Hn. unfold kvs_of_output. rewrite run_fields_app.
  assert (run_fields output_field psbt_output_zero (kv_of_script PSBT_OUT_REDEEM_SCRIPT (out_redeem_script o)) =
          Some (out_redeem psbt_output_zero (out_redeem_script o))) as ->.
  { unfold output_normal in Hn. destruct (out_redeem_script o) as [[|b l]|]; [done| |done]. reflexivity. }
  cbn [mbind option_bind]. rewrite run_fields_app, run_output_keypaths by done. cbn [mbind option_bind]. rewrite run_output_unknowns by done. by destruct o.
Qed.

(** *** Every pair can be written *)

Lemma key_of_ok ty b v : Z.of_nat (length b) < 2 ^ 32 - 1 -> size_ok v -> kv_ok (key_of ty b, v).
Proof. intros Hb Hv. split; [done|]. split; [|done]. unfold size_ok, key_of. cbn [fst length]. lia. Qed.

Lemma script_kvs_ok ty o : script_ok o -> Forall kv_ok (kv_of_script ty o).
Proof. intros H. destruct o as [[|b l]|]; cbn [kv_of_script]; constructor; [|constructor]. apply key_of_ok; [cbn; lia|done]. Qed.

Lemma path_size fp path : path_ok fp path -> size_ok (path_bytes fp path).
Proof. intros H. destruct (path_bytes_fields _ _ H) as (_ & _ & E). unfold size_ok. rewrite E. apply H. Qed.

Lemma map_kvs_ok {A} (ok : A -> Prop) (kv : A -> bytes * bytes) l : (forall a, ok a -> kv_ok (kv a)) -> Forall ok l -> Forall kv_ok (map kv l).
Proof. intros H Hl. apply Forall_map. by eapply Forall_impl. Qed.

Lemma kv_of_sig_ok s : sig_ok s -> kv_ok (kv_of_sig s).
Proof. intros [Hk Hs]. apply key_of_ok; [rewrite Hk; lia|]. unfold size_ok. lia. Qed.
Lemma kv_of_keypath_ok ty k : keypath_ok k -> kv_ok (kv_of_keypath ty k).
Proof. intros [Hk Hp]. apply key_of_ok; [rewrite Hk; lia|by apply path_size]. Qed.
Lemma kv_of_xpub_ok x : xpub_ok x -> kv_ok (kv_of_xpub x).
Proof. intros [Hk Hp]. apply key_of_ok; [rewrite length_take, Hk; lia|by apply path_size]. Qed.
Lemma kv_of_unknown_ok known u : unknown_ok known u -> kv_ok (kv_of_unknown u).
Proof. intros (H1 & H2 & H3 & _). by split. Qed.

Lemma four_bytes_ok ty z : kv_ok (key_of ty [], le_enc 4 z).
Proof. apply key_of_ok; [cbn; lia|]. unfold size_ok. rewrite le_enc_length. lia. Qed.

Lemma kvs_of_input_ok i : input_wf i -> input_normal i -> Forall kv_ok (kvs_of_input i).
Proof.
  intros [[Hs _] [Hk _] [Hu _] Hr Hf _] (_ & _ & Ht). unfold kvs_of_input. repeat (apply Forall_app; split).
  - destruct (non_witness_utxo i) as [t|]; constructor; [|constructor]. destruct Ht as [(? & ? & _ & Ht) _]. apply key_of_ok; [cbn; lia|done].
  - by apply (map_kvs_ok _ _ _ kv_of_sig_ok).
  - destruct (has_sighash_type i); constructor; [apply four_bytes_ok|constructor].
  - by apply script_kvs_ok.
  - by apply (map_kvs_ok _ _ _ (fun k => kv_of_keypath_ok _ k)).
  - by apply script_kvs_ok.
  - by eapply map_kvs_ok; [apply kv_of_unknown_ok|].
Qed.

Lemma kvs_of_output_ok o : output_wf o -> Forall kv_ok (kvs_of_output o).
Proof.
  intros [Hr [Hk _] [Hu _]]. unfold kvs_of_output. repeat (apply Forall_app; split).
  - by apply script_kvs_ok.
  - by apply (map_kvs_ok _ _ _ (fun k => kv_of_keypath_ok _ k)).
  - by eapply map_kvs_ok; [apply kv_of_unknown_ok|].
Qed.

Lemma deser_each_ok {A} (field : A -> bytes -> bytes -> option A) (kvs : A -> list (bytes * bytes)) zero l rest :
  Forall (fun a => Forall kv_ok (kvs a) /\ run_fields field zero (kvs a) = Some a) l ->
  deser_each field (replicate (length l) zero) (concat (map (map_bytes ∘ kvs) l) ++ rest) = (Some l, rest).
Proof.
  induction 1 as [|a l [Hk Hr] _ IH]; [done|]. cbn [length replicate deser_each map concat]. rewrite <- app_assoc.
  rewrite (deser_bind_some _ _ _ _ _ (deser_fields_kvs field (kvs a) zero a _ Hk Hr)).
  by rewrite (deser_bind_some _ _ _ _ _ IH).
Qed.

Lemma run_global p t ins outs : psbt_tx p = Some t -> vin t = Some ins -> vout t = Some outs -> existsb has_script ins = false ->
  tx_writable t -> urange 32 (psbt_version p) -> distinct xpub_ok xp_xpub (xpubs p) -> distinct (unknown_ok global_types) uk_key (unknowns p) ->
  run_fields global_field (mk_psbt None PSBT_VERSION_0 [] [] [] [], false, false) (kvs_of_global p t) =
  Some (mk_psbt (Some t) (psbt_version p) (xpubs p) (replicate (length ins) psbt_input_zero) (replicate (length outs) psbt_output_zero) (unknowns p),
        true, negb (psbt_version p =? 0)).
Proof.
  intros Ht Hi Ho He Hw Hv Hx Hu. unfold kvs_of_global. set (q := mk_psbt (Some t) 0 [] (replicate (length ins) psbt_input_zero) (replicate (length outs) psbt_output_zero) []).
  rewrite run_fields_app. assert (run_fields global_field (mk_psbt None PSBT_VERSION_0 [] [] [] [], false, false)
      [(key_of PSBT_GLOBAL_UNSIGNED_TX [], tx_serialize [] t)] = Some (q, true, false)) as ->.
  { cbn [run_fields fst snd]. unfold global_field. types. rewrite (tx_nonempty t Hw). cbn [orb].
    rewrite (read_tx t false Hw) by done. cbn [negb]. rewrite Z.eqb_refl, Hi, Ho. cbn [negb]. change (default [] (Some ins)) with ins. by rewrite He. }
  cbn [mbind option_bind]. rewrite run_fields_app, run_xpubs by done. cbn [mbind option_bind]. rewrite run_fields_app.
  assert (run_fields global_field (with_xpubs q (xpubs p), true, false)
     (if psbt_version p =? PSBT_VERSION_0 then [] else [(key_of PSBT_GLOBAL_VERSION [], le_enc 4 (psbt_version p))]) =
     Some (with_version (with_xpubs q (xpubs p)) (psbt_version p), true, negb (psbt_version p =? 0))) as ->.
  { unfold PSBT_VERSION_0. destruct (Z.eqb_spec (psbt_version p) 0) as [->|N]; [done|]. cbn [run_fields fst snd]. unfold global_field. types.
    rewrite take_ge by (rewrite le_enc_length; lia). by rewrite le_dec_enc_small. }
  cbn [mbind option_bind]. by rewrite run_more.
Qed.

Lemma psbt_read_back (p : psbt) (rest : bytes) (Hw : psbt_wf p) (Hn : psbt_normal p) :
  exists data, psbt_serialize p = Some data /\ psbt_deserialize (data ++ rest) = Some p.
Proof.
  destruct Hw as [(t & ins & outs & Ht & Hi & Ho & He & Hli & Hlo) Hv Hx Hins Houts Hu]. destruct Hn as ((t' & Ht' & Hwr) & Hni & Hno).
  rewrite Ht in Ht'. injection Ht' as <-. eexists. split; [by apply psbt_serialize_kvs|]. rewrite <- !app_assoc.
  unfold psbt_deserialize. change PSBT_MAGIC_LEN with 5%nat. rewrite (take_app_exact PSBT_MAGIC_BYTES), (drop_app_exact PSBT_MAGIC_BYTES) by done.
  rewrite length_app, (proj2 (Nat.ltb_ge _ _)).
  2:{ unfold map_bytes. rewrite !length_app. cbn [length PSBT_MAGIC_BYTES]. lia. }
  unfold bytes_eqb. rewrite bool_decide_eq_true_2 by done. cbn [negb]. unfold deser_psbt.
  assert (Forall kv_ok (kvs_of_global p t)) as Hg.
  { unfold kvs_of_global. destruct Hx as [Hx _], Hu as [Hu _]. repeat (apply Forall_app; split).
    - constructor; [|constructor]. destruct Hwr as (? & ? & _ & Hs). apply key_of_ok; [cbn; lia|done].
    - by apply (map_kvs_ok _ _ _ kv_of_xpub_ok).
    - destruct (psbt_version p =? PSBT_VERSION_0); constructor; [apply four_bytes_ok|constructor].
    - by eapply map_kvs_ok; [apply kv_of_unknown_ok|]. }
  rewrite (deser_bind_some _ _ _ _ _ (deser_fields_kvs _ _ _ _ _ Hg (run_global p t ins outs Ht Hi Ho He Hwr Hv Hx Hu))).
  rewrite (deser_bind_some (deser_guard true) _ _ _ _ eq_refl). cbn [inputs outputs].
  rewrite <- Hli, <- Hlo. erewrite deser_bind_some.
  2:{ apply deser_each_ok. clear - Hins Hni. induction Hins as [|i l Hi _ IH]; [constructor|]. apply Forall_cons_1 in Hni as [Hn Hni].
      constructor; [|by apply IH]. split; [by apply kvs_of_input_ok|by apply run_input]. }
  erewrite deser_bind_some.
  2:{ apply deser_each_ok. clear - Houts Hno. induction Houts as [|i l Hi _ IH]; [constructor|]. apply Forall_cons_1 in Hno as [Hn Hno].
      constructor; [|by apply IH]. split; [by apply kvs_of_output_ok|by apply run_output]. }
  cbn. f_equal. destruct p; cbn in *. by subst.
Qed.

(** C20: the format is read back: a transaction under construction whose data are well-formed, and
    which has no empty script and no previous transaction without inputs, is what the parser
    makes of the bytes it is written as, whatever bytes follow. *)
Theorem psbt_round_trip (p : psbt) (rest : bytes) (Hw : psbt_wf p) (Hn : psbt_normal p) :
  exists data, psbt_serialize p = Some data /\ psbt_deserialize (data ++ rest) = Some p.
Proof. by apply psbt_read_back. Qed.

(** ** What the parser accepts is well-formed *)

Lemma deser_guard_inv b buf u rest : deser_guard b buf = (Some u, rest) -> b = true /\ rest = buf.
Proof. destruct b; cbn; [by intros [= _ <-]|done]. Qed.

Lemma deser_bytes_inv n buf b rest : deser_bytes n buf = (Some b, rest) -> Z.of_nat (length b) <= Z.max 0 n.
Proof.
  unfold deser_bytes. destruct (Z.ltb_spec (Z.of_nat (length buf)) n); [done|]. intros [= <- _]. rewrite length_take. lia.
Qed.

Lemma deser_bytes_full n buf b rest : 0 <= n -> deser_bytes n buf = (Some b, rest) -> Z.of_nat (length b) = n.
Proof.
  unfold deser_bytes. destruct (Z.ltb_spec (Z.of_nat (length buf)) n); [done|]. intros Hn [= <- _]. rewrite length_take. lia.
Qed.

Lemma le_dec_urange k b : (length b = k)%nat -> urange (8 * Z.of_nat k) (le_dec b).
Proof. intros <-. apply le_dec_range. Qed.

Lemma deser_varlen_range buf n rest : deser_varlen buf = (Some n, rest) -> urange 32 n.
Proof.
  unfold deser_varlen. intros (c & b1 & Ec & H)%deser_bind_inv.
  assert (urange 8 (le_dec c)) as Hc by (apply (le_dec_urange 1); apply deser_bytes_full in Ec; lia).
  unfold urange in *. repeat case_match.
  all: try (apply deser_bind_inv in H as (v & b2 & Ev & H)).
  all: repeat match goal with
       | H : deser_u16 _ = _ |- _ => unfold deser_u16 in H
       | H : deser_u32 _ = _ |- _ => unfold deser_u32 in H
       | H : deser_u64 _ = _ |- _ => unfold deser_u64 in H
       | H : deser_guard _ _ = _ |- _ => apply deser_guard_inv in H as [? ->]
       | H : (_ ≫= _) _ = _ |- _ => apply deser_bind_inv in H as (? & ? & ? & H)
       | H : mret _ _ = _ |- _ => injection H as <- _
       | H : deser_bytes ?n _ = _ |- _ => apply deser_bytes_full in H; [|lia]
       end.
  all: try lia.
  - pose proof (le_dec_urange 2 v ltac:(lia)) as U. unfold urange in U. lia.
  - pose proof (le_dec_urange 4 v ltac:(lia)) as U. unfold urange in U. lia.
  - apply (wrap_range 32). lia.
Qed.

Lemma deser_kv_inv buf kv rest : deser_psbt_kv buf = (Some (Some kv), rest) -> kv_ok kv.
Proof.
  unfold deser_psbt_kv. intros (kl & b1 & Ek & H)%deser_bind_inv. apply deser_varlen_range in Ek. unfold urange in Ek.
  destruct (Z.eqb_spec kl 0) as [|Nk]; [done|]. apply deser_bind_inv in H as (n & b2 & _ & H).
  apply deser_bind_inv in H as (u & b3 & _ & H). apply deser_bind_inv in H as (key & b4 & Hk & H). apply deser_bytes_full in Hk; [|lia].
  apply deser_bind_inv in H as (vl & b5 & Ev & H). apply deser_varlen_range in Ev. unfold urange in Ev.
  assert (key <> []) as Nkey by (destruct key; [cbn [length] in Hk; lia|done]).
  destruct (Z.ltb_spec 0 vl).
  - apply deser_bind_inv in H as (n' & b6 & _ & H). apply deser_bind_inv in H as (u' & b7 & _ & H).
    apply deser_bind_inv in H as (val & b8 & Hv & H). apply deser_bytes_full in Hv; [|lia].
    injection H as <- _. unfold kv_ok, size_ok. cbn [fst snd]. split; [done|lia].
  - injection H as <- _. unfold kv_ok, size_ok. cbn [fst snd length]. split; [done|lia].
Qed.

(** What every field preserves holds behind the map. *)
Lemma deser_map_inv {A} (field : A -> bytes -> bytes -> option A) (P : A -> Prop) :
  (forall a k v a', P a -> kv_ok (k, v) -> field a k v = Some a' -> P a') ->
  forall fuel a buf a' rest, P a -> deser_map field fuel a buf = (Some a', rest) -> P a'.
Proof.
  intros Hf. induction fuel as [|fuel IH]; intros a buf a' rest Ha H; [done|]. cbn [deser_map] in H.
  apply deser_bind_inv in H as ([[k v]|] & b1 & Ek & H).
  - apply deser_kv_inv in Ek. destruct (field a k v) as [a1|] eqn:E; [|done]. eapply IH; [|exact H]. by eapply Hf.
  - by injection H as <- _.
Qed.

Lemma deser_each_inv {A} (field : A -> bytes -> bytes -> option A) (P : A -> Prop) :
  (forall a k v a', P a -> kv_ok (k, v) -> field a k v = Some a' -> P a') ->
  forall l buf l' rest, Forall P l -> deser_each field l buf = (Some l', rest) -> Forall P l' /\ length l' = length l.
Proof.
  intros Hf. induction l as [|a l IH]; intros buf l' rest Hl H; cbn [deser_each] in H.
  - by injection H as <- _.
  - apply Forall_cons_1 in Hl as [Ha Hl]. apply deser_bind_inv in H as (a' & b1 & Ea & H). apply deser_bind_inv in H as (l1 & b2 & El & H).
    injection H as <- _. destruct (IH _ _ _ Hl El) as [Hl1 Hlen]. split; [|cbn [length]; lia]. constructor; [|done].
    unfold deser_fields in Ea. by eapply deser_map_inv in Ea.
Qed.

Lemma existsb_key_false {A} (key : A -> bytes) (l : list A) b : existsb (fun a => bytes_eqb (key a) b) l = false -> b ∉ map key l.
Proof.
  intros H Hi. apply list_elem_of_In, in_map_iff in Hi as (a & <- & Hi). apply not_true_iff_false in H. apply H.
  apply existsb_exists. exists a. split; [done|]. unfold bytes_eqb. by apply bool_decide_eq_true.
Qed.

Lemma distinct_snoc {A} (ok : A -> Prop) (key : A -> bytes) l a : distinct ok key l -> ok a -> key a ∉ map key l -> distinct ok key (l ++ [a]).
Proof.
  intros [H1 H2] Ha Hn. split; [apply Forall_app; split; [done|by constructor]|].
  rewrite map_app. apply NoDup_app. split; [done|]. split; [|apply NoDup_singleton]. intros x Hx Hi. cbn [map] in Hi. apply list_elem_of_singleton in Hi. by subst.
Qed.

Lemma path_of_ok fp val : 4 <= Z.of_nat (length val) -> size_ok val -> fp = le_dec (take 4 val) -> path_ok fp (path_of val).
Proof.
  intros Hl Hs ->. unfold size_ok in Hs. assert (Z.of_nat (length (path_of val)) = (Z.of_nat (length val) - 4) / 4) as E.
  { unfold path_of. rewrite length_map, length_seq, Nat2Z.inj_div, Nat2Z.inj_sub by lia. done. }
  split; [apply (le_dec_urange 4); rewrite length_take; lia|]. split.
  - unfold path_of. apply Forall_map, Forall_forall. intros i Hi%list_elem_of_In%in_seq. apply (le_dec_urange 4). rewrite length_take, length_drop.
    pose proof (Nat.Div0.mul_div_le (length val - 4) 4). lia.
  - rewrite E. pose proof (Z.mul_div_le (Z.of_nat (length val) - 4) 4 ltac:(lia)). lia.
Qed.

Lemma add_keypath_inv l key val l' : distinct keypath_ok kp_pubkey l -> size_ok val -> klen key = 34 -> add_keypath l key val = Some l' ->
  distinct keypath_ok kp_pubkey l'.
Proof.
  intros Hl Hs Hk. unfold add_keypath. destruct (Z.ltb_spec (Z.of_nat (length val)) 4); [done|].
  destruct (existsb _ l) eqn:E; [done|]. intros [= <-]. apply distinct_snoc; [done| |by apply existsb_key_false in E].
  split; [|by apply path_of_ok]. cbn [kp_pubkey]. unfold klen in Hk. destruct key; cbn [length tl] in *; lia.
Qed.

Lemma add_unknown_inv known l key val l' : distinct (unknown_ok known) uk_key l -> kv_ok (key, val) -> key_type key ∉ known ->
  add_unknown l key val = Some l' -> distinct (unknown_ok known) uk_key l'.
Proof.
  intros Hl (Hk & Hks & Hvs) Ht. unfold add_unknown. destruct (existsb _ l) eqn:E; [done|]. intros [= <-].
  apply distinct_snoc; [done| |by apply existsb_key_false in E]. by split.
Qed.

Ltac unknown_key :=
  repeat match goal with H : (_ || _) = false |- _ => apply orb_false_iff in H as [? ?] end;
  repeat match goal with H : (_ =? _) = false |- _ => apply Z.eqb_neq in H end.

Ltac split_conds :=
  repeat match goal with
  | H : (if ?b then _ else _) = Some _ |- _ => let E := fresh "E" in destruct b eqn:E; [try done|try done]
  end.

Lemma input_field_wf i k v i' : input_wf i -> kv_ok (k, v) -> input_field i k v = Some i' -> input_wf i'.
Proof.
  intros [Hs Hkp Hu Hr Hf Hh] Hkv H. pose proof Hkv as (_ & Hks & Hvs). cbn [fst snd] in Hks, Hvs. unfold input_field in H. cbv zeta in H.
  destruct ((key_type k =? PSBT_IN_NON_WITNESS_UTXO) && (klen k =? 1)) eqn:E1.
  { split_conds. destruct (tx_deserialize v tx_new) as [[ok t] c]. split_conds. injection H as <-. by split. }
  destruct ((key_type k =? PSBT_IN_PARTIAL_SIG) && (klen k =? 34)) eqn:E2.
  { apply andb_true_iff in E2 as [_ Ek]. apply Z.eqb_eq in Ek. split_conds. injection H as <-. apply orb_false_iff in E as [Ea Eb].
    apply Z.eqb_neq in Ea. apply Z.ltb_ge in Eb. unfold PSBT_MAX_SIG_LEN in Eb. split; try done. cbn [in_sigs partial_sigs].
    apply distinct_snoc; [done| |by apply existsb_key_false]. unfold sig_ok. cbn [ps_pubkey ps_sig]. unfold klen in Ek.
    destruct k; cbn [length tl] in *; lia. }
  destruct ((key_type k =? PSBT_IN_SIGHASH_TYPE) && (klen k =? 1)) eqn:E3.
  { split_conds. injection H as <-. apply orb_false_iff in E as [_ E]. apply negb_false_iff, Z.eqb_eq in E. split; try done. cbn [in_sighash sighash_type has_sighash_type].
    split; [|done]. apply (le_dec_urange 4). rewrite length_take. lia. }
  destruct ((key_type k =? PSBT_IN_REDEEM_SCRIPT) && (klen k =? 1)) eqn:E4.
  { split_conds. injection H as <-. by split. }
  destruct ((key_type k =? PSBT_IN_BIP32_DERIVATION) && (klen k =? 34)) eqn:E5.
  { apply andb_true_iff in E5 as [_ Ek]. apply Z.eqb_eq in Ek. destruct (add_keypath (keypaths i) k v) as [l|] eqn:Ea; [|done]. injection H as <-.
    split; try done. by eapply add_keypath_inv. }
  destruct ((key_type k =? PSBT_IN_FINAL_SCRIPTSIG) && (klen k =? 1)) eqn:E6.
  { split_conds. injection H as <-. by split. }
  split_conds. unknown_key. destruct (add_unknown (in_unknowns i) k v) as [l|] eqn:Ea; [|done]. injection H as <-. split; try done.
  eapply add_unknown_inv; [exact Hu|done| |done]. unfold input_types. set_solver.
Qed.

Lemma output_field_wf o k v o' : output_wf o -> kv_ok (k, v) -> output_field o k v = Some o' -> output_wf o'.
Proof.
  intros [Hr Hkp Hu] Hkv H. pose proof Hkv as (_ & Hks & Hvs). cbn [fst snd] in Hks, Hvs. unfold output_field in H. cbv zeta in H.
  destruct ((key_type k =? PSBT_OUT_REDEEM_SCRIPT) && (klen k =? 1)) eqn:E1.
  { split_conds. injection H as <-. by split. }
  destruct ((key_type k =? PSBT_OUT_BIP32_DERIVATION) && (klen k =? 34)) eqn:E2.
  { apply andb_true_iff in E2 as [_ Ek]. apply Z.eqb_eq in Ek. destruct (add_keypath (out_keypaths o) k v) as [l|] eqn:Ea; [|done]. injection H as <-.
    split; try done. by eapply add_keypath_inv. }
  split_conds. unknown_key. destruct (add_unknown (out_unknowns o) k v) as [l|] eqn:Ea; [|done]. injection H as <-. split; try done.
  eapply add_unknown_inv; [exact Hu|done| |done]. unfold output_types. set_solver.
Qed.

(** The state of the first loop: with the transaction, everything but the maps of its parts. *)
Record global_inv (g : psbt * bool * bool) : Prop := {
  gi_tx : g.1.2 = true -> exists t ins outs, psbt_tx g.1.1 = Some t /\ vin t = Some ins /\ vout t = Some outs /\ existsb has_script ins = false /\
            inputs g.1.1 = replicate (length ins) psbt_input_zero /\ outputs g.1.1 = replicate (length outs) psbt_output_zero;
  gi_version : urange 32 (psbt_version g.1.1);
  gi_xpubs : distinct xpub_ok xp_xpub (xpubs g.1.1);
  gi_more : distinct (unknown_ok global_types) uk_key (unknowns g.1.1) }.

Lemma tx_vectors b w t c : tx_deserialize_ex b tx_new w = (true, t, c) -> exists ins outs, vin t = Some ins /\ vout t = Some outs.
Proof.
  unfold tx_deserialize_ex. repeat (case_match; try done). all: intros [= <- _]; cbn; eauto.
Qed.

Lemma global_field_inv g k v g' : global_inv g -> kv_ok (k, v) -> global_field g k v = Some g' -> global_inv g'.
Proof.
  destruct g as [[p got_tx] got_version]. intros [Ht Hv Hx Hu] Hkv H. pose proof Hkv as (_ & Hks & Hvs). cbn [fst snd] in *.
  unfold global_field in H. cbv zeta in H.
  destruct ((key_type k =? PSBT_GLOBAL_UNSIGNED_TX) && (klen k =? 1)) eqn:E1.
  { split_conds. destruct (tx_deserialize_ex v tx_new false) as [[ok t] c] eqn:Et. split_conds. injection H as <-. apply negb_false_iff in E0 as ->.
    destruct (tx_vectors _ _ _ _ Et) as (ins & outs & Hi & Ho). split; try done. intros _. exists t, ins, outs. cbn [fst snd psbt_tx with_tx inputs outputs].
    rewrite Hi, Ho. rewrite Hi in *. by split_and!. }
  destruct ((key_type k =? PSBT_GLOBAL_VERSION) && (klen k =? 1)) eqn:E2.
  { split_conds. injection H as <-. apply orb_false_iff in E as [_ E]. apply negb_false_iff, Z.eqb_eq in E. split; try done.
    cbn. apply (le_dec_urange 4). rewrite length_take. lia. }
  destruct ((key_type k =? PSBT_GLOBAL_XPUB) && (klen k =? 79)) eqn:E3.
  { apply andb_true_iff in E3 as [_ Ek]. apply Z.eqb_eq in Ek. split_conds. injection H as <-. apply Z.ltb_ge in E. split; try done. cbn [fst snd xpubs with_xpubs].
    apply distinct_snoc; [done| |by apply existsb_key_false]. split; [|by apply path_of_ok]. cbn [xp_xpub]. unfold klen in Ek.
    destruct k; cbn [length tl] in *; [lia|]. rewrite length_take. lia. }
  split_conds. unknown_key. destruct (add_unknown (unknowns p) k v) as [l|] eqn:Ea; [|done]. injection H as <-. split; try done.
  eapply add_unknown_inv; [exact Hu|done| |done]. unfold global_types. set_solver.
Qed.

Lemma distinct_nil {A} (ok : A -> Prop) (key : A -> bytes) : distinct ok key [].
Proof. split; constructor. Qed.

Lemma input_zero_wf : input_wf psbt_input_zero.
Proof. split; try apply distinct_nil; try done. Qed.

Lemma output_zero_wf : output_wf psbt_output_zero.
Proof. split; try apply distinct_nil; done. Qed.

(** C21: whatever bytes the parser accepts, the result is well-formed: there is a transaction without
    scripts in its inputs and one map for each input and output, keys and values have the sizes
    the format and the fixed arrays of the program allow, no key occurs twice in a map, and what
    is kept as unknown is not a known field of a wrong size. *)
Theorem psbt_deserialize_wf (data : bytes) (p : psbt) (H : psbt_deserialize data = Some p) : psbt_wf p.
Proof.
  unfold psbt_deserialize in H. destruct (length data <? PSBT_MAGIC_LEN + 1)%nat; [done|]. destruct (negb _); [done|].
  destruct (deser_psbt (drop PSBT_MAGIC_LEN data)) as [o rest] eqn:E. cbn [fst] in H. subst o. unfold deser_psbt in E.
  apply deser_bind_inv in E as ([[q got_tx] got_version] & b1 & Eg & E). cbn beta iota in E.
  apply deser_bind_inv in E as (u & b2 & Et & E). apply deser_guard_inv in Et as [-> ->].
  apply deser_bind_inv in E as (ins' & b3 & Ei & E). apply deser_bind_inv in E as (outs' & b4 & Eo & E). injection E as <- _.
  unfold deser_fields in Eg. apply (deser_map_inv global_field global_inv global_field_inv) in Eg as [Ht Hv Hx Hu].
  2:{ split; try apply distinct_nil; done. }
  destruct (Ht eq_refl) as (t & ins & outs & Hpt & Hi & Ho & He & Hri & Hro). cbn [fst snd] in *. rewrite Hri in Ei. rewrite Hro in Eo.
  apply (deser_each_inv input_field input_wf input_field_wf) in Ei as [Wi Li]; [|apply Forall_replicate, input_zero_wf].
  apply (deser_each_inv output_field output_wf output_field_wf) in Eo as [Wo Lo]; [|apply Forall_replicate, output_zero_wf].
  split; try done. exists t, ins, outs. cbn [psbt_tx with_outputs with_inputs inputs outputs]. split_and!; try done; by rewrite ?Li, ?Lo, ?length_replicate.
Qed.

(** ** An example *)

Definition demo_utxo : tx := demo_tx.
Definition demo_unsigned : tx := mk_tx 1 (Some [mk_tx_in (mk_outpoint (zeros 32) 0) (Some []) 9]) (Some [demo_out]) 5.
Definition demo_input : psbt_input :=
  mk_input (Some demo_utxo) (Some [Byte.x51]) None 1 true [mk_sig (zeros 33) [Byte.x30]] [mk_keypath (zeros 33) 7 [44; 3; 0]]
    [mk_unknown [Byte.xfc; Byte.x01] [Byte.x02]].
Definition demo_output : psbt_output := mk_output None [mk_keypath (zeros 33) 7 []] [].
Definition demo_psbt : psbt :=
  mk_psbt (Some demo_unsigned) 0 [mk_xpub (zeros 78) 7 [1]] [demo_input] [demo_output] [mk_unknown [Byte.xf0] []].

Ltac small := unfold urange, srange, size_ok; vm_compute; done.

Lemma demo_unsigned_writable : tx_writable demo_unsigned.
Proof.
  exists [mk_tx_in (mk_outpoint (zeros 32) 0) (Some []) 9], [demo_out]. split; [|small].
  split; try done.
  - apply List.Forall_cons; [|apply List.Forall_nil]. split_and!; try done. by exists [].
  - apply List.Forall_cons; [|apply List.Forall_nil]. split; [done|]. by exists [Byte.x52].
Qed.

Lemma one_distinct {A} (ok : A -> Prop) (key : A -> bytes) a : ok a -> distinct ok key [a].
Proof. intros H. split; [by constructor|]. apply NoDup_singleton. Qed.

Lemma demo_path_ok path : Forall (urange 32) path -> 4 + 4 * Z.of_nat (length path) < 2 ^ 32 -> path_ok 7 path.
Proof. intros. split; [small|]. by split. Qed.

Lemma demo_unknown_ok known u : uk_key u <> [] -> size_ok (uk_key u) -> size_ok (uk_value u) -> bool_decide (key_type (uk_key u) ∈ known) = false ->
  unknown_ok known u.
Proof. intros ? ? ? H. split_and!; try done. by apply bool_decide_eq_false in H. Qed.

Lemma demo_psbt_wf : psbt_wf demo_psbt.
Proof.
  split.
  - eexists _, _, _. by split_and!.
  - small.
  - apply one_distinct. split; [done|]. apply demo_path_ok; [repeat constructor; small|done].
  - constructor; [|constructor]. split.
    + apply one_distinct. split; [done|cbn; lia].
    + apply one_distinct. split; [done|]. apply demo_path_ok; [repeat constructor; small|done].
    + apply one_distinct. by apply demo_unknown_ok.
    + small.
    + done.
    + by split.
  - constructor; [|constructor]. split; [done| |apply distinct_nil].
    apply one_distinct. split; [done|]. apply demo_path_ok; [constructor|done].
  - apply one_distinct. by apply demo_unknown_ok.
Qed.

Lemma demo_psbt_normal : psbt_normal demo_psbt.
Proof.
  split; [eexists; split; [done|apply demo_unsigned_writable]|]. split; constructor; try constructor; try done.
  split; [done|]. split; [|done]. exists [demo_in], [demo_out]. split; [apply demo_tx_ok|small].
Qed.

Lemma psbt_round_trip_witness :
  exists data, psbt_serialize demo_psbt = Some data /\ psbt_deserialize (data ++ [Byte.xff]) = Some demo_psbt.
Proof. apply (psbt_round_trip demo_psbt [Byte.xff] demo_psbt_wf demo_psbt_normal). Defined.

Lemma psbt_deserialize_wf_witness :
  psbt_wf (default psbt_new (psbt_deserialize (default [] (psbt_serialize demo_psbt)))).
Proof. apply (psbt_deserialize_wf (default [] (psbt_serialize demo_psbt))). vm_compute. reflexivity. Defined.

(** A key pair may be added twice, and what is then written is refused. *)
Example double_keypath_refused :
  let k := mk_keypath (zeros 33) 7 [] in
  (p ← psbt_create demo_unsigned; d ← psbt_serialize (with_inputs p [in_keypaths psbt_input_zero [k; k]]); Some (psbt_deserialize d)) = Some None.
Proof. vm_compute. reflexivity. Qed.
