(* ===== verification/PsbtRoles.v ===== *)
(** * The roles of a partially signed transaction ([src/src/psbt.c])

    Updater, signer, combiner, finalizer and extractor of BIP 174.  The operations on keys, which
    are calls of the curve library, are parameters. *)

From S2P Require Import Prelude Mem Serialize Script Sha256 Rmd160 Utils Tx Base64 Psbt.

Local Open Scope Z_scope.

#[local] Opaque dogecoin_hash sha256_raw rmd160.

(** ** Helpers *)

Definition ser_script_push (s data : bytes) : bytes :=
  let len := Z.of_nat (length data) in
  let s := if len <=? 75 then ser_bytes s [byte.of_Z len]
           else if len <=? 255 then ser_bytes s [Byte.x4c; byte.of_Z len]
           else ser_bytes (ser_bytes s [Byte.x4d]) (le_enc 2 (u16 len)) in
  ser_bytes s data.

Definition hash160_buf (data : bytes) : bytes := rmd160 (sha256_raw data) 32.

(** The loop over the keys, with what has been found; [None]: false. *)
Fixpoint multisig_keys (fuel : nat) (p : bytes) (keys : list bytes) : option (list bytes * bytes) :=
  match fuel with
  | O => None
  | S fuel =>
      match p with
      | b :: p' =>
          if byte.unsigned b =? 0x21 then
            if (length p' <? 0x21)%nat || (16 <=? length keys)%nat then None
            else multisig_keys fuel (drop 0x21 p') (keys ++ [take 0x21 p'])
          else Some (keys, p)
      | [] => Some (keys, [])
      end
  end.

Definition is_op_n (b : Byte.byte) : bool := (0x51 <=? byte.unsigned b) && (byte.unsigned b <=? 0x60).

(** The number of signatures, and the keys. *)
Definition psbt_parse_multisig (script : bytes) : option (Z * list bytes) :=
  if (length script <? 3)%nat then None
  else
    match script with
    | [] => None
    | b :: p =>
        if negb (is_op_n b) then None
        else
          let m := byte.unsigned b - 0x50 in
          '(keys, p) ← multisig_keys (S (length p)) p [];
          let n := Z.of_nat (length keys) in
          if n =? 0 then None
          else
            match p with
            | [o; c] =>
                if negb (is_op_n o) then None
                else if negb (byte.unsigned o - 0x50 =? n) then None
                else if negb (byte.unsigned c =? 0xae) then None
                else if n <? m then None
                else Some (m, keys)
            | _ => None
            end
    end.

Definition psbt_input_finalized_clear (i : psbt_input) : psbt_input :=
  mk_input (non_witness_utxo i) None (final_script_sig i) 0 false [] [] (in_unknowns i).

(** Updating the element at an index. *)
Definition upd_input (p : psbt) (idx : nat) (i : psbt_input) : psbt := with_inputs p (<[idx := i]> (inputs p)).
Definition upd_output (p : psbt) (idx : nat) (o : psbt_output) : psbt := with_outputs p (<[idx := o]> (outputs p)).

(** ** Text *)

Definition psbt_to_base64 (p : psbt) : option bytes := raw ← psbt_serialize p; Some (base64_encode raw).
Definition psbt_from_base64 (b64 : bytes) : option psbt := psbt_deserialize (base64_decode b64).

Definition psbt_to_hex (p : psbt) : option bytes :=
  raw ← psbt_serialize p;
  Some (concat (map hex_byte raw)).

(** [actual_len ? actual_len : bin_len] is the same number. *)
Definition psbt_from_hex (hex : bytes) : option psbt :=
  if negb (Z.of_nat (length hex) mod 2 =? 0) then None
  else let '(bin, actual_len) := utils_hex_to_bin hex (length hex) in psbt_deserialize (take actual_len bin).

(** ** Updater *)

Definition psbt_input_set_utxo (p : psbt) (idx : nat) (utxo : tx) : bool * psbt :=
  match inputs p !! idx with
  | None => (false, p)
  | Some i => (true, upd_input p idx (in_utxo i (Some (tx_copy tx_new utxo))))
  end.

Definition psbt_input_set_redeemscript (p : psbt) (idx : nat) (script : bytes) : bool * psbt :=
  match inputs p !! idx with
  | None => (false, p)
  | Some i => (true, upd_input p idx (in_redeem i (Some script)))
  end.

Definition psbt_input_set_sighash (p : psbt) (idx : nat) (ty : Z) : bool * psbt :=
  match inputs p !! idx with
  | None => (false, p)
  | Some i => (true, upd_input p idx (in_sighash i ty true))
  end.

(** Without a look at the keys that are there. *)
Definition psbt_input_add_keypath (p : psbt) (idx : nat) (pubkey : bytes) (fingerprint : Z) (path : list Z) : bool * psbt :=
  match inputs p !! idx with
  | None => (false, p)
  | Some i =>
      if PSBT_MAX_PUBKEY_LEN <? Z.of_nat (length pubkey) then (false, p)
      else (true, upd_input p idx (in_keypaths i (keypaths i ++ [mk_keypath pubkey fingerprint path])))
  end.

Definition psbt_output_set_redeemscript (p : psbt) (idx : nat) (script : bytes) : bool * psbt :=
  match outputs p !! idx with
  | None => (false, p)
  | Some o => (true, upd_output p idx (out_redeem o (Some script)))
  end.

Definition psbt_output_add_keypath (p : psbt) (idx : nat) (pubkey : bytes) (fingerprint : Z) (path : list Z) : bool * psbt :=
  match outputs p !! idx with
  | None => (false, p)
  | Some o =>
      if PSBT_MAX_PUBKEY_LEN <? Z.of_nat (length pubkey) then (false, p)
      else (true, upd_output p idx (out_paths o (out_keypaths o ++ [mk_keypath pubkey fingerprint path])))
  end.

(** ** Signer *)

(** [spk[2..21]] of a pay-to-script-hash script. *)
Definition p2sh_hash (spk : bytes) : option bytes :=
  let at_ i := byte.unsigned (nth i spk byte_zero) in
  if negb (length spk =? 23)%nat || negb (at_ 0%nat =? 0xa9) || negb (at_ 1%nat =? 0x14) || negb (at_ 22%nat =? 0x87) then None
  else Some (take 20 (drop 2 spk)).

(** The outer [None]: undefined behaviour, an index without an input of the transaction; the inner one: NULL. *)
Definition psbt_get_script_for_input (p : psbt) (idx : nat) : option (option bytes) :=
  i ← inputs p !! idx;
  match non_witness_utxo i with
  | None => Some None
  | Some utxo =>
      t ← psbt_tx p;
      ins ← vin t;
      txin ← ins !! idx;
      if negb (bytes_eqb (tx_hash utxo) (take 32 (op_hash (prevout txin)))) then Some None
      else
        match vout utxo with
        | None => Some None
        | Some outs =>
            if Z.of_nat (length outs) <=? op_n (prevout txin) then Some None
            else
              txout ← outs !! Z.to_nat (op_n (prevout txin));
              match script_pubkey txout with
              | None => Some None
              | Some spk =>
                  match redeem_script i with
                  | Some redeem =>
                      match p2sh_hash spk with
                      | None => Some None
                      | Some h => if bytes_eqb (hash160_buf redeem) h then Some (Some redeem) else Some None
                      end
                  | None => Some (Some spk)
                  end
              end
        end
  end.

(** The signature of a key, in the place of an earlier one. *)
Fixpoint put_sig (l : list psbt_partialsig) (pubkey sig : bytes) : list psbt_partialsig :=
  match l with
  | [] => [mk_sig pubkey sig]
  | s :: l => if bytes_eqb (ps_pubkey s) pubkey then mk_sig (ps_pubkey s) sig :: l else s :: put_sig l pubkey sig
  end.

Section signer.
Context {key : Type} (pubkey_from_key : key -> bytes) (pubkey_is_valid : bytes -> bool)
  (key_sign_hash_compact : key -> bytes -> bytes) (compact_to_der_normalized : bytes -> bytes).

(** [None]: undefined behaviour. *)
Definition psbt_sign_input (p : psbt) (idx : nat) (privkey : key) : option (bool * psbt) :=
  match inputs p !! idx with
  | None => Some (false, p)
  | Some i =>
      if bool_decide (is_Some (final_script_sig i)) then Some (true, p)
      else
        script ← psbt_get_script_for_input p idx;
        match script with
        | None => Some (false, p)
        | Some script =>
            let pubkey := pubkey_from_key privkey in
            if negb (pubkey_is_valid pubkey) then Some (false, p)
            else
              let sighash := if has_sighash_type i then s32 (sighash_type i) else SIGHASH_ALL in
              t ← psbt_tx p;
              r ← tx_sighash t script idx sighash;
              match r with
              | (true, Some sighash_bytes) =>
                  let sigcompact := key_sign_hash_compact privkey sighash_bytes in
                  let sigder := compact_to_der_normalized sigcompact ++ [byte.of_Z sighash] in
                  Some (true, upd_input p idx (in_sigs i (put_sig (partial_sigs i) pubkey sigder)))
              | _ => Some (false, p)
              end
        end
  end.

Definition sign_step (privkey : key) (st : option (bool * psbt)) (idx : nat) : option (bool * psbt) :=
  '(any, p) ← st;
  script ← psbt_get_script_for_input p idx;
  match script with
  | None => Some (any, p)
  | Some _ => '(ok, p) ← psbt_sign_input p idx privkey; Some (any || ok, p)
  end.

Definition psbt_sign (p : psbt) (privkey : key) : option (bool * psbt) :=
  foldl (sign_step privkey) (Some (false, p)) (seq 0 (length (inputs p))).
End signer.

(** ** Combiner *)

(** What [dst] does not have is copied from [src]; [None]: both are set and differ. *)
Definition merge_option {A} (same : A -> A -> bool) (copy : A -> A) (d s : option A) : option (option A) :=
  match d, s with
  | Some a, Some b => if same a b then Some d else None
  | None, Some b => Some (Some (copy b))
  | _, None => Some d
  end.

Definition same_tx (a b : tx) : bool := bytes_eqb (tx_serialize [] a) (tx_serialize [] b).

(** Elements with a key that is not there yet. *)
Definition merge_new {A} (key : A -> bytes) (d s : list A) : list A :=
  foldl (fun d a => if existsb (fun b => bytes_eqb (key b) (key a)) d then d else d ++ [a]) d s.

(** The same, with a conflict when the values differ; a conflict leaves what has been merged. *)
Fixpoint merge_unknowns (d s : list psbt_unknown) : bool * list psbt_unknown :=
  match s with
  | [] => (true, d)
  | u :: s =>
      match List.find (fun b => bytes_eqb (uk_key b) (uk_key u)) d with
      | Some b => if bytes_eqb (uk_value b) (uk_value u) then merge_unknowns d s else (false, d)
      | None => merge_unknowns (d ++ [u]) s
      end
  end.

(** The result and [*di]. *)
Definition combine_input (di si : psbt_input) : bool * psbt_input :=
  match merge_option same_tx (tx_copy tx_new) (non_witness_utxo di) (non_witness_utxo si) with
  | None => (false, di)
  | Some utxo =>
      let di := in_utxo di utxo in
      match merge_option bytes_eqb id (redeem_script di) (redeem_script si) with
      | None => (false, di)
      | Some redeem =>
          let di := in_redeem di redeem in
          match merge_option bytes_eqb id (final_script_sig di) (final_script_sig si) with
          | None => (false, di)
          | Some final =>
              let di := in_final di final in
              if has_sighash_type di && has_sighash_type si && negb (sighash_type di =? sighash_type si) then (false, di)
              else
                let di := if negb (has_sighash_type di) && has_sighash_type si then in_sighash di (sighash_type si) true else di in
                let di := in_sigs di (merge_new ps_pubkey (partial_sigs di) (partial_sigs si)) in
                let di := in_keypaths di (merge_new kp_pubkey (keypaths di) (keypaths si)) in
                let '(ok, l) := merge_unknowns (in_unknowns di) (in_unknowns si) in
                (ok, in_more di l)
          end
      end
  end.

Definition combine_output (d s : psbt_output) : bool * psbt_output :=
  match merge_option bytes_eqb id (out_redeem_script d) (out_redeem_script s) with
  | None => (false, d)
  | Some redeem =>
      let d := out_redeem d redeem in
      let d := out_paths d (merge_new kp_pubkey (out_keypaths d) (out_keypaths s)) in
      let '(ok, l) := merge_unknowns (out_unknowns d) (out_unknowns s) in
      (ok, out_more d l)
  end.

(** Up to the first that fails. *)
Fixpoint combine_each {A} (f : A -> A -> bool * A) (d s : list A) : bool * list A :=
  match d, s with
  | a :: d, b :: s =>
      let '(ok, a) := f a b in
      if ok then let '(ok, l) := combine_each f d s in (ok, a :: l) else (false, a :: d)
  | _, _ => (true, d)
  end.

(** The result and [*dst]; [None]: a transaction is NULL, which is then written. *)
Definition psbt_combine (dst src : psbt) : option (bool * psbt) :=
  if negb (length (inputs dst) =? length (inputs src))%nat then Some (false, dst)
  else if negb (length (outputs dst) =? length (outputs src))%nat then Some (false, dst)
  else
    t ← psbt_tx dst;
    t' ← psbt_tx src;
    Some (if negb (same_tx t t') then (false, dst)
          else
            let '(ok, ins) := combine_each combine_input (inputs dst) (inputs src) in
            let dst := with_inputs dst ins in
            if negb ok then (false, dst)
            else
              let '(ok, outs) := combine_each combine_output (outputs dst) (outputs src) in
              let dst := with_outputs dst outs in
              if negb ok then (false, dst)
              else
                let dst := with_xpubs dst (merge_new xp_xpub (xpubs dst) (xpubs src)) in
                let '(ok, l) := merge_unknowns (unknowns dst) (unknowns src) in
                (ok, with_more dst l)).

(** ** Finalizer *)

(** The signatures in the order of the keys, up to [m] of them. *)
Fixpoint push_sigs (keys : list bytes) (sigs : list psbt_partialsig) (m pushed : Z) (ss : bytes) : Z * bytes :=
  match keys with
  | [] => (pushed, ss)
  | k :: keys =>
      if pushed <? m then
        match List.find (fun s => bytes_eqb (ps_pubkey s) k) sigs with
        | Some s => push_sigs keys sigs m (pushed + 1) (ser_script_push ss (ps_sig s))
        | None => push_sigs keys sigs m pushed ss
        end
      else (pushed, ss)
  end.

(** The script of an input that spends [spk]; [None]: false. *)
Definition finalize_script (i : psbt_input) (spk : bytes) : option bytes :=
  let type := (script_classify spk []).1 in
  if decide (type = TX_PUBKEYHASH) then
    match partial_sigs i with
    | [ps] => Some (ser_script_push (ser_script_push [] (ps_sig ps)) (ps_pubkey ps))
    | _ => None
    end
  else
    match redeem_script i with
    | Some redeem =>
        if decide (type = TX_SCRIPTHASH) then
          let inner := (script_classify redeem []).1 in
          if decide (inner = TX_PUBKEYHASH) then
            match partial_sigs i with
            | [ps] => Some (ser_script_push (ser_script_push (ser_script_push [] (ps_sig ps)) (ps_pubkey ps)) redeem)
            | _ => None
            end
          else if decide (inner = TX_MULTISIG) then
            '(m, keys) ← psbt_parse_multisig redeem;
            if Z.of_nat (length (partial_sigs i)) <? m then None
            else
              let '(pushed, ss) := push_sigs keys (partial_sigs i) m 0 (ser_bytes [] [Byte.x00]) in
              if pushed <? m then None else Some (ser_script_push ss redeem)
          else None
        else None
    | None => None
    end.

(** [None]: undefined behaviour. *)
Definition psbt_finalize_input (p : psbt) (idx : nat) : option (bool * psbt) :=
  match inputs p !! idx with
  | None => Some (false, p)
  | Some i =>
      if bool_decide (is_Some (final_script_sig i)) then Some (true, p)
      else
        match non_witness_utxo i with
        | None => Some (false, p)
        | Some utxo =>
            t ← psbt_tx p;
            ins ← vin t;
            txin ← ins !! idx;
            match vout utxo with
            | None => Some (false, p)
            | Some outs =>
                if Z.of_nat (length outs) <=? op_n (prevout txin) then Some (false, p)
                else
                  txout ← outs !! Z.to_nat (op_n (prevout txin));
                  match script_pubkey txout with
                  | None => Some (false, p)
                  | Some spk =>
                      Some (match finalize_script i spk with
                            | None => (false, p)
                            | Some ss => (true, upd_input p idx (psbt_input_finalized_clear (in_final i (Some ss))))
                            end)
                  end
            end
        end
  end.

Definition finalize_step (st : option (bool * psbt)) (idx : nat) : option (bool * psbt) :=
  '(all, p) ← st;
  '(ok, p) ← psbt_finalize_input p idx;
  Some ((if ok : bool then all else false), p).

Definition psbt_finalize (p : psbt) : option (bool * psbt) :=
  foldl finalize_step (Some (true, p)) (seq 0 (length (inputs p))).

(** ** Extractor and checks *)

Definition set_script_sig (i : tx_in) (script : bytes) : tx_in := mk_tx_in (prevout i) (Some script) (sequence i).

(** The outer [None]: undefined behaviour, more maps than inputs; the inner one: NULL. *)
Definition psbt_extract (p : psbt) : option (option tx) :=
  match psbt_tx p with
  | None => Some None
  | Some t =>
      match mapM final_script_sig (inputs p) with
      | None => Some None
      | Some scripts =>
          let t := tx_copy tx_new t in
          ins ← vin t;
          if (length ins <? length scripts)%nat then None
          else Some (Some (set_vin t (zip_with set_script_sig ins scripts ++ drop (length scripts) ins)))
      end
  end.

(** The outer [None]: undefined behaviour. *)
Definition psbt_is_valid (p : psbt) : option bool :=
  match psbt_tx p with
  | None => Some false
  | Some t =>
      ins ← vin t;
      if negb (length (inputs p) =? length ins)%nat then Some false
      else
        outs ← vout t;
        if negb (length (outputs p) =? length outs)%nat then Some false
        else Some (negb (existsb has_script ins))
  end.

Definition psbt_is_finalized (p : psbt) : option bool :=
  ok ← psbt_is_valid p;
  Some (if negb ok then false else forallb (fun i => bool_decide (is_Some (final_script_sig i))) (inputs p)).

(** ** Signing *)

Lemma find_by_key {A} (key : A -> bytes) l k a : List.find (fun b => bytes_eqb (key b) k) l = Some a -> a ∈ l /\ key a = k.
Proof. intros H. apply find_some in H as [Hi He]. apply bool_decide_eq_true in He. split; [by apply list_elem_of_In|done]. Qed.

(** The element with a key. *)
Definition lookup_key {A} (key : A -> bytes) (l : list A) (k : bytes) : option A := List.find (fun a => bytes_eqb (key a) k) l.

Lemma bytes_eqb_refl b : bytes_eqb b b = true.
Proof. by apply bool_decide_eq_true. Qed.

Lemma bytes_eqb_ne a b : a <> b -> bytes_eqb a b = false.
Proof. intros. by apply bool_decide_eq_false. Qed.

Lemma lookup_put_sig l pk sig k :
  lookup_key ps_pubkey (put_sig l pk sig) k = if bytes_eqb pk k then Some (mk_sig pk sig) else lookup_key ps_pubkey l k.
Proof.
  unfold lookup_key. induction l as [|s l IH]; cbn [put_sig List.find ps_pubkey]; [done|].
  destruct (bytes_eqb (ps_pubkey s) pk) eqn:E; cbn [List.find ps_pubkey].
  - apply bool_decide_eq_true in E as ->. by destruct (bytes_eqb pk k).
  - rewrite IH. destruct (bytes_eqb (ps_pubkey s) k) eqn:E2; [|done]. apply bool_decide_eq_true in E2 as <-.
    apply bool_decide_eq_false in E. by rewrite bytes_eqb_ne by congruence.
Qed.

(** The previous output an input may be signed for: it belongs to the transaction the input names,
    and a script behind a hash is the one that is hashed. *)
Definition spends (p : psbt) (idx : nat) (script : bytes) : Prop :=
  exists i t ins txin utxo outs txout spk,
    inputs p !! idx = Some i /\ psbt_tx p = Some t /\ vin t = Some ins /\ ins !! idx = Some txin /\
    non_witness_utxo i = Some utxo /\ tx_hash utxo = take 32 (op_hash (prevout txin)) /\
    vout utxo = Some outs /\ outs !! Z.to_nat (op_n (prevout txin)) = Some txout /\ script_pubkey txout = Some spk /\
    match redeem_script i with
    | Some redeem => script = redeem /\ p2sh_hash spk = Some (hash160_buf redeem)
    | None => script = spk
    end.

Lemma get_script_spends p idx script : psbt_get_script_for_input p idx = Some (Some script) -> spends p idx script.
Proof.
  unfold psbt_get_script_for_input. intros H. destruct (inputs p !! idx) as [i|] eqn:Ei; [|done]. cbn [mbind option_bind] in H.
  destruct (non_witness_utxo i) as [utxo|] eqn:Eu; [|done]. destruct (psbt_tx p) as [t|] eqn:Et; [|done]. cbn [mbind option_bind] in H.
  destruct (vin t) as [ins|] eqn:Ev; [|done]. cbn [mbind option_bind] in H. destruct (ins !! idx) as [txin|] eqn:Ex; [|done]. cbn [mbind option_bind] in H.
  destruct (bytes_eqb (tx_hash utxo) _) eqn:Eh; [|done]. cbn [negb] in H. apply bool_decide_eq_true in Eh.
  destruct (vout utxo) as [outs|] eqn:Eo; [|done]. destruct (_ <=? _); [done|].
  destruct (outs !! _) as [txout|] eqn:Eout; [|done]. cbn [mbind option_bind] in H. destruct (script_pubkey txout) as [spk|] eqn:Es; [|done].
  exists i, t, ins, txin, utxo, outs, txout, spk. split_and!; try done.
  destruct (redeem_script i) as [r|]; [|by injection H as ->]. destruct (p2sh_hash spk) as [h|]; [|done].
  destruct (bytes_eqb (hash160_buf r) h) eqn:E; [|done]. apply bool_decide_eq_true in E. injection H as <-. by rewrite E.
Qed.

(** An input is only signed for an output that the given previous transaction really has: when the
    signer succeeds on an input that is not finished, that transaction has the identifier the
    input names, a redeem script has the hash of the output, and what is added is the signature
    of the hash of this transaction, input and script, in the place of the same key's; every
    other signature and every other input stay as they are. *)
Theorem sign_input_checks {key} (pubkey_from_key : key -> bytes) (pubkey_is_valid : bytes -> bool) (sign : key -> bytes -> bytes)
  (to_der : bytes -> bytes) (p p' : psbt) (idx : nat) (k : key) (i : psbt_input)
  (Hi : inputs p !! idx = Some i) (Hf : final_script_sig i = None)
  (H : psbt_sign_input pubkey_from_key pubkey_is_valid sign to_der p idx k = Some (true, p')) :
  exists script t hash i',
    spends p idx script /\ pubkey_is_valid (pubkey_from_key k) = true /\ psbt_tx p = Some t /\
    let ty := if has_sighash_type i then s32 (sighash_type i) else SIGHASH_ALL in
    tx_sighash t script idx ty = Some (true, Some hash) /\
    p' = with_inputs p (<[idx := i']> (inputs p)) /\
    lookup_key ps_pubkey (partial_sigs i') (pubkey_from_key k) = Some (mk_sig (pubkey_from_key k) (to_der (sign k hash) ++ [byte.of_Z ty])) /\
    (forall pk, pk <> pubkey_from_key k -> lookup_key ps_pubkey (partial_sigs i') pk = lookup_key ps_pubkey (partial_sigs i) pk) /\
    in_sigs i' (partial_sigs i) = i.
Proof.
  unfold psbt_sign_input in H. rewrite Hi, Hf in H. cbn [bool_decide] in H.
  destruct (psbt_get_script_for_input p idx) as [[script|]|] eqn:Es; [|done|done]. cbn [mbind option_bind] in H. apply get_script_spends in Es.
  destruct (pubkey_is_valid _) eqn:Ev; [|done]. cbn [negb] in H. destruct (psbt_tx p) as [t|] eqn:Et; [|done]. cbn [mbind option_bind] in H.
  destruct (tx_sighash t script idx _) as [[[] [hash|]]|] eqn:Eh; try done. cbn [mbind option_bind] in H. injection H as <-.
  set (sigder := to_der (sign k hash) ++ _) in *. exists script, t, hash, (in_sigs i (put_sig (partial_sigs i) (pubkey_from_key k) sigder)). cbv zeta. split_and!; try done.
  - cbn [partial_sigs in_sigs]. by rewrite lookup_put_sig, bytes_eqb_refl.
  - intros pk Hpk. cbn [partial_sigs in_sigs]. by rewrite lookup_put_sig, bytes_eqb_ne by congruence.
  - by destruct i.
Qed.

(** ** Combining *)

(** The first of the two that is set. *)
Definition left_or {A} (d s : option A) : option A := match d with Some _ => d | None => s end.

Definition agree {A} (d s : option A) (same : A -> A -> Prop) : Prop := forall a b, d = Some a -> s = Some b -> same a b.

(** The values of the keys that are in both. *)
Definition agree_unknowns (d s : list psbt_unknown) : Prop :=
  forall k, agree (lookup_key uk_key d k) (lookup_key uk_key s k) (fun a b => uk_value a = uk_value b).

Lemma lookup_key_app {A} (key : A -> bytes) l l' k : lookup_key key (l ++ l') k = left_or (lookup_key key l k) (lookup_key key l' k).
Proof. unfold lookup_key. induction l as [|a l IH]; [done|]. cbn [app List.find]. by destruct (bytes_eqb (key a) k). Qed.

Lemma lookup_key_cons {A} (key : A -> bytes) a l k : lookup_key key (a :: l) k = if bytes_eqb (key a) k then Some a else lookup_key key l k.
Proof. done. Qed.

Lemma lookup_key_in {A} (key : A -> bytes) l k a : lookup_key key l k = Some a -> k ∈ map key l /\ key a = k.
Proof.
  intros H. apply find_by_key in H as [Hi <-]. split; [|done]. apply list_elem_of_In, in_map. by apply list_elem_of_In.
Qed.

Lemma lookup_key_none {A} (key : A -> bytes) l k : k ∉ map key l -> lookup_key key l k = None.
Proof. intros H. destruct (lookup_key key l k) eqn:E; [|done]. by apply lookup_key_in in E as [E _]. Qed.

Lemma left_or_assoc {A} (a b c : option A) : left_or (left_or a b) c = left_or a (left_or b c).
Proof. by destruct a. Qed.

Lemma lookup_merge_new {A} (key : A -> bytes) s d k : lookup_key key (merge_new key d s) k = left_or (lookup_key key d k) (lookup_key key s k).
Proof.
  unfold merge_new. revert d. induction s as [|a s IH]; intros d; cbn [foldl]; [by destruct (lookup_key key d k)|].
  rewrite IH, lookup_key_cons. destruct (existsb _ d) eqn:E.
  - apply existsb_exists in E as (b & Hb & E). destruct (bytes_eqb (key a) k) eqn:Ek; [|done]. apply bool_decide_eq_true in Ek as <-.
    destruct (lookup_key key d (key a)) eqn:El; [done|]. unfold lookup_key in El. by rewrite (find_none _ _ El b Hb) in E.
  - rewrite lookup_key_app, left_or_assoc. f_equal. rewrite lookup_key_cons. by destruct (bytes_eqb (key a) k).
Qed.

Lemma merge_unknowns_union s d l : merge_unknowns d s = (true, l) ->
  (forall k, lookup_key uk_key l k = left_or (lookup_key uk_key d k) (lookup_key uk_key s k)) /\ agree_unknowns d s.
Proof.
  revert d. induction s as [|u s IH]; intros d H; cbn [merge_unknowns] in H.
  - injection H as <-. split; [intros k; by destruct (lookup_key uk_key d k)|]. by intros k a b _ [=].
  - fold (lookup_key uk_key d (uk_key u)) in H. destruct (lookup_key uk_key d (uk_key u)) as [b|] eqn:E.
    + destruct (bytes_eqb (uk_value b) (uk_value u)) eqn:Ev; [|done]. apply bool_decide_eq_true in Ev. destruct (IH d H) as [IH1 IH2]. split.
      * intros k. rewrite IH1, lookup_key_cons. destruct (bytes_eqb (uk_key u) k) eqn:Ek; [|done]. apply bool_decide_eq_true in Ek as <-. by rewrite E.
      * intros k a c Ha. rewrite lookup_key_cons. destruct (bytes_eqb (uk_key u) k) eqn:Ek; [|by apply IH2].
        apply bool_decide_eq_true in Ek as <-. intros [= <-]. congruence.
    + destruct (IH _ H) as [IH1 IH2]. split.
      * intros k. rewrite IH1, lookup_key_app, left_or_assoc. f_equal. rewrite !lookup_key_cons. by destruct (bytes_eqb (uk_key u) k).
      * intros k a c Ha. rewrite lookup_key_cons. destruct (bytes_eqb (uk_key u) k) eqn:Ek.
        -- apply bool_decide_eq_true in Ek as <-. congruence.
        -- apply IH2. by rewrite lookup_key_app, Ha.
Qed.

Lemma merge_unknowns_succeeds s d : NoDup (map uk_key s) -> agree_unknowns d s -> (merge_unknowns d s).1 = true.
Proof.
  revert d. induction s as [|u s IH]; intros d Hn Ha; [done|]. cbn [map] in Hn. apply NoDup_cons in Hn as [Hu Hn].
  assert (forall k b, lookup_key uk_key s k = Some b -> lookup_key uk_key (u :: s) k = Some b /\ k <> uk_key u) as Hs.
  { intros k b Hb. assert (k <> uk_key u) as N by (intros ->; by apply lookup_key_in in Hb as [Hb _]).
    rewrite lookup_key_cons, bytes_eqb_ne by congruence. done. }
  cbn [merge_unknowns]. fold (lookup_key uk_key d (uk_key u)). destruct (lookup_key uk_key d (uk_key u)) as [b|] eqn:E.
  - rewrite (Ha (uk_key u) b u E) by (by rewrite lookup_key_cons, bytes_eqb_refl). rewrite bytes_eqb_refl. apply IH; [done|].
    intros k a c Hak Hc. destruct (Hs k c Hc) as [Hc' _]. by apply (Ha k).
  - apply IH; [done|]. intros k a c Hak Hc. destruct (Hs k c Hc) as [Hc' N]. rewrite lookup_key_app, lookup_key_cons, bytes_eqb_ne in Hak by congruence.
    apply (Ha k); [|done]. by destruct (lookup_key uk_key d k).
Qed.

(** [i] has what [d] has, and what only [s] has. *)
Record input_union (d s i : psbt_input) : Prop := {
  un_utxo : non_witness_utxo i = left_or (non_witness_utxo d) (non_witness_utxo s);
  un_redeem : redeem_script i = left_or (redeem_script d) (redeem_script s);
  un_final : final_script_sig i = left_or (final_script_sig d) (final_script_sig s);
  un_sighash : has_sighash_type i = has_sighash_type d || has_sighash_type s /\
    sighash_type i = if has_sighash_type d then sighash_type d else if has_sighash_type s then sighash_type s else sighash_type d;
  un_sigs : forall k, lookup_key ps_pubkey (partial_sigs i) k = left_or (lookup_key ps_pubkey (partial_sigs d) k) (lookup_key ps_pubkey (partial_sigs s) k);
  un_keypaths : forall k, lookup_key kp_pubkey (keypaths i) k = left_or (lookup_key kp_pubkey (keypaths d) k) (lookup_key kp_pubkey (keypaths s) k);
  un_unknowns : forall k, lookup_key uk_key (in_unknowns i) k = left_or (lookup_key uk_key (in_unknowns d) k) (lookup_key uk_key (in_unknowns s) k) }.

Record input_agree (d s : psbt_input) : Prop := {
  ag_utxo : agree (non_witness_utxo d) (non_witness_utxo s) (fun a b => tx_serialize [] a = tx_serialize [] b);
  ag_redeem : agree (redeem_script d) (redeem_script s) eq;
  ag_final : agree (final_script_sig d) (final_script_sig s) eq;
  ag_sighash : has_sighash_type d = true -> has_sighash_type s = true -> sighash_type d = sighash_type s;
  ag_unknowns : agree_unknowns (in_unknowns d) (in_unknowns s) }.

Lemma merge_option_spec {A} (same : A -> A -> bool) copy (P : A -> A -> Prop) d s : (forall a b, same a b = true <-> P a b) -> (forall a, copy a = a) ->
  merge_option same copy d s = Some (left_or d s) /\ agree d s P \/ merge_option same copy d s = None /\ ~ agree d s P.
Proof.
  intros HP HC. destruct d as [a|], s as [b|]; cbn [merge_option left_or]; rewrite ?HC; try by (left; split; [done|]; intros ? ? ? ?).
  destruct (same a b) eqn:E; [left|right]; (split; [done|]).
  - intros a' b' [= <-] [= <-]. by apply HP.
  - intros H. apply not_true_iff_false in E. apply E, HP. by apply H.
Qed.

Lemma bytes_same a b : bytes_eqb a b = true <-> a = b.
Proof. apply bool_decide_eq_true. Qed.
Lemma tx_same a b : same_tx a b = true <-> tx_serialize [] a = tx_serialize [] b.
Proof. apply bool_decide_eq_true. Qed.

Lemma tx_copy_same t : tx_copy tx_new t = t.
Proof.
  destruct t as [v [i|] [o|] l]; unfold tx_copy; cbn; f_equal; f_equal; try done.
  all: erewrite map_ext; [apply map_id|]; by intros [].
Qed.

Lemma combine_input_spec d s : NoDup (map uk_key (in_unknowns s)) ->
  (exists i, combine_input d s = (true, i) /\ input_union d s i /\ input_agree d s) \/ ((combine_input d s).1 = false /\ ~ input_agree d s).
Proof.
  intros Hn. unfold combine_input.
  destruct (merge_option_spec _ _ _ (non_witness_utxo d) (non_witness_utxo s) tx_same tx_copy_same) as [[-> A1]|[-> N]]; [|right; split; [done|by intros []]].
  cbn [redeem_script in_utxo final_script_sig has_sighash_type sighash_type partial_sigs keypaths in_unknowns in_redeem in_final].
  destruct (merge_option_spec _ id _ (redeem_script d) (redeem_script s) bytes_same (fun _ => eq_refl)) as [[-> A2]|[-> N]]; [|right; split; [done|by intros []]].
  destruct (merge_option_spec _ id _ (final_script_sig d) (final_script_sig s) bytes_same (fun _ => eq_refl)) as [[-> A3]|[-> N]]; [|right; split; [done|by intros []]].
  set (di := in_final _ _). destruct (has_sighash_type d && has_sighash_type s && negb (sighash_type d =? sighash_type s)) eqn:Eh.
  { right. split; [done|]. intros []. apply andb_true_iff in Eh as [[Hd Hs]%andb_true_iff Hne]. by rewrite ag_sighash0, Z.eqb_refl in Hne. }
  assert (has_sighash_type d = true -> has_sighash_type s = true -> sighash_type d = sighash_type s) as A4.
  { intros Hd Hs. rewrite Hd, Hs in Eh. cbn [andb] in Eh. apply negb_false_iff in Eh. by apply Z.eqb_eq. }
  clear Eh. set (dj := if negb (has_sighash_type d) && has_sighash_type s then in_sighash di (sighash_type s) true else di).
  assert (partial_sigs dj = partial_sigs d /\ keypaths dj = keypaths d /\ in_unknowns dj = in_unknowns d) as (Es & Ek & Eu).
  { unfold dj, di. by destruct (negb _ && _). }
  cbn [partial_sigs keypaths in_unknowns in_sigs in_keypaths]. rewrite Es, Ek, Eu.
  destruct (merge_unknowns (in_unknowns d) (in_unknowns s)) as [[] l] eqn:El.
  - apply merge_unknowns_union in El as [E1 E2]. left. eexists. split; [done|]. split; [|by split].
    split; cbn [non_witness_utxo redeem_script final_script_sig has_sighash_type sighash_type partial_sigs keypaths in_unknowns in_more in_keypaths in_sigs].
    1-3: unfold dj, di; by destruct (negb _ && _).
    + unfold dj, di. by destruct (has_sighash_type d) eqn:?, (has_sighash_type s) eqn:?.
    + intros k. apply lookup_merge_new.
    + intros k. apply lookup_merge_new.
    + done.
  - right. split; [done|]. intros []. apply (merge_unknowns_succeeds _ _ Hn) in ag_unknowns0. by rewrite El in ag_unknowns0.
Qed.

Record output_union (d s o : psbt_output) : Prop := {
  ou_redeem : out_redeem_script o = left_or (out_redeem_script d) (out_redeem_script s);
  ou_keypaths : forall k, lookup_key kp_pubkey (out_keypaths o) k = left_or (lookup_key kp_pubkey (out_keypaths d) k) (lookup_key kp_pubkey (out_keypaths s) k);
  ou_unknowns : forall k, lookup_key uk_key (out_unknowns o) k = left_or (lookup_key uk_key (out_unknowns d) k) (lookup_key uk_key (out_unknowns s) k) }.

Record output_agree (d s : psbt_output) : Prop := {
  oa_redeem : agree (out_redeem_script d) (out_redeem_script s) eq;
  oa_unknowns : agree_unknowns (out_unknowns d) (out_unknowns s) }.

Lemma combine_output_spec d s : NoDup (map uk_key (out_unknowns s)) ->
  (exists o, combine_output d s = (true, o) /\ output_union d s o /\ output_agree d s) \/ ((combine_output d s).1 = false /\ ~ output_agree d s).
Proof.
  intros Hn. unfold combine_output.
  destruct (merge_option_spec _ id _ (out_redeem_script d) (out_redeem_script s) bytes_same (fun _ => eq_refl)) as [[-> A1]|[-> N]]; [|right; split; [done|by intros []]].
  cbn [out_unknowns out_keypaths out_redeem out_paths].
  destruct (merge_unknowns (out_unknowns d) (out_unknowns s)) as [[] l] eqn:El.
  - apply merge_unknowns_union in El as [E1 E2]. left. eexists. split; [done|]. split; [|by split]. split; [done| |done].
    intros k. apply lookup_merge_new.
  - right. split; [done|]. intros []. apply (merge_unknowns_succeeds _ _ Hn) in oa_unknowns0. by rewrite El in oa_unknowns0.
Qed.

(** Element by element. *)
Lemma combine_each_spec {A} (f : A -> A -> bool * A) (U : A -> A -> A -> Prop) (G : A -> A -> Prop) d s :
  length d = length s ->
  (forall a b, b ∈ s -> (exists c, f a b = (true, c) /\ U a b c /\ G a b) \/ ((f a b).1 = false /\ ~ G a b)) ->
  (exists l, combine_each f d s = (true, l) /\ Forall2 G d s /\ Forall3 U d s l) \/ ((combine_each f d s).1 = false /\ ~ Forall2 G d s).
Proof.
  revert s. induction d as [|a d IH]; intros [|b s] Hl Hf; try done; cbn [combine_each].
  - left. exists []. split; [done|]. split; constructor.
  - destruct (Hf a b ltac:(by left)) as [(c & E & HU & HG)|[E N]].
    + rewrite E. destruct (IH s ltac:(by injection Hl)) as [(l & El & HG' & HU')|[El N]].
      * intros x y Hy. apply Hf. by right.
      * left. exists (c :: l). rewrite El. split; [done|]. split; by constructor.
      * right. destruct (combine_each f d s) as [[] l]; [done|]. split; [done|]. intros H. by inversion H.
    + right. destruct (f a b) as [[] c]; [done|]. split; [done|]. intros H. by inversion H.
Qed.

(** Two that can be combined. *)
Record psbt_agree (d s : psbt) : Prop := {
  pa_tx : exists t t', psbt_tx d = Some t /\ psbt_tx s = Some t' /\ tx_serialize [] t = tx_serialize [] t';
  pa_inputs : Forall2 input_agree (inputs d) (inputs s);
  pa_outputs : Forall2 output_agree (outputs d) (outputs s);
  pa_more : agree_unknowns (unknowns d) (unknowns s) }.

Record psbt_union (d s p : psbt) : Prop := {
  pu_tx : psbt_tx p = psbt_tx d /\ psbt_version p = psbt_version d;
  pu_inputs : Forall3 input_union (inputs d) (inputs s) (inputs p);
  pu_outputs : Forall3 output_union (outputs d) (outputs s) (outputs p);
  pu_xpubs : forall k, lookup_key xp_xpub (xpubs p) k = left_or (lookup_key xp_xpub (xpubs d) k) (lookup_key xp_xpub (xpubs s) k);
  pu_more : forall k, lookup_key uk_key (unknowns p) k = left_or (lookup_key uk_key (unknowns d) k) (lookup_key uk_key (unknowns s) k) }.

(** C18: combining takes everything either side has: two well-formed ones are combined exactly when they
    are for the same transaction and what both have set is equal, scripts, previous transactions,
    hash types and unknown fields; the result has for every key what the first has and, where
    it has nothing, what the second has. *)
Theorem psbt_combine_correct (dst src : psbt) (Hd : psbt_wf dst) (Hs : psbt_wf src) :
  (psbt_agree dst src -> exists p, psbt_combine dst src = Some (true, p)) /\
  (forall p, psbt_combine dst src = Some (true, p) -> psbt_agree dst src /\ psbt_union dst src p).
Proof.
  destruct Hd as [(t & _ & _ & Ht & _) _ _ _ _ _], Hs as [(t' & _ & _ & Ht' & _) _ _ Hsi Hso [_ Hsm]].
  unfold psbt_combine. rewrite Ht, Ht'. cbn [mbind option_bind].
  assert (~ length (inputs dst) = length (inputs src) -> ~ psbt_agree dst src) as Ni by (intros N []; by apply N, (Forall2_length _ _ _ pa_inputs0)).
  assert (~ length (outputs dst) = length (outputs src) -> ~ psbt_agree dst src) as No by (intros N []; by apply N, (Forall2_length _ _ _ pa_outputs0)).
  destruct (Nat.eqb_spec (length (inputs dst)) (length (inputs src))) as [Li|N]; [|split; [intros H; by apply Ni in H|done]]. cbn [negb].
  destruct (Nat.eqb_spec (length (outputs dst)) (length (outputs src))) as [Lo|N]; [|split; [intros H; by apply No in H|done]]. cbn [negb].
  destruct (same_tx t t') eqn:Et; cbn [negb].
  2:{ split; [|done]. intros [(a & b & Ha & Hb & E) _ _ _]. rewrite Ht in Ha. rewrite Ht' in Hb. injection Ha as <-. injection Hb as <-.
      apply tx_same in E. congruence. }
  apply tx_same in Et.
  assert (forall a b, b ∈ inputs src -> (exists c, combine_input a b = (true, c) /\ input_union a b c /\ input_agree a b) \/ ((combine_input a b).1 = false /\ ~ input_agree a b)) as Ci.
  { intros a b Hb. apply combine_input_spec. rewrite Forall_forall in Hsi. by destruct (Hsi b Hb) as [_ _ [_ H] _ _ _]. }
  assert (forall a b, b ∈ outputs src -> (exists c, combine_output a b = (true, c) /\ output_union a b c /\ output_agree a b) \/ ((combine_output a b).1 = false /\ ~ output_agree a b)) as Co.
  { intros a b Hb. apply combine_output_spec. rewrite Forall_forall in Hso. by destruct (Hso b Hb) as [_ _ [_ H]]. }
  destruct (combine_each_spec _ _ _ _ _ Li Ci) as [(ins & -> & Gi & Ui)|[Ei N]].
  2:{ destruct (combine_each combine_input (inputs dst) (inputs src)) as [[] ins]; [done|]. split; [by intros []|done]. }
  cbn [negb outputs with_inputs]. destruct (combine_each_spec _ _ _ _ _ Lo Co) as [(outs & -> & Go & Uo)|[Eo N]].
  2:{ destruct (combine_each combine_output (outputs dst) (outputs src)) as [[] outs]; [done|]. split; [by intros []|done]. }
  cbn [negb xpubs unknowns with_xpubs with_outputs with_inputs]. destruct (merge_unknowns (unknowns dst) (unknowns src)) as [[] l] eqn:El.
  - apply merge_unknowns_union in El as [E1 E2]. split; [intros _; by eexists|]. intros p [= <-]. split.
    + split; try done. by exists t, t'.
    + split; try done. intros k. apply lookup_merge_new.
  - split; [|done]. intros []. apply (merge_unknowns_succeeds _ _ Hsm) in pa_more0. by rewrite El in pa_more0.
Qed.

(** ** Finishing an input with several signatures *)

Definition push_of (b : bytes) : bytes := ser_script_push [] b.

Lemma ser_script_push_app s b : ser_script_push s b = s ++ push_of b.
Proof. unfold push_of, ser_script_push. rewrite !ser_bytes_app. repeat case_match; by rewrite <- ?app_assoc. Qed.

(** The signatures that are there for the keys, in the order of the keys. *)
Definition sigs_of (keys : list bytes) (sigs : list psbt_partialsig) : list bytes :=
  omap (fun k => ps_sig <$> lookup_key ps_pubkey sigs k) keys.

Lemma push_sigs_spec keys sigs m pushed ss : pushed <= m ->
  let chosen := take (Z.to_nat (m - pushed)) (sigs_of keys sigs) in
  push_sigs keys sigs m pushed ss = (pushed + Z.of_nat (length chosen), ss ++ concat (map push_of chosen)).
Proof.
  cbv zeta. revert pushed ss. induction keys as [|k keys IH]; intros pushed ss Hp; cbn [push_sigs sigs_of omap list_omap].
  - rewrite take_nil. cbn. by rewrite Z.add_0_r, app_nil_r.
  - destruct (Z.ltb_spec pushed m) as [Hlt|Hge].
    + fold (lookup_key ps_pubkey sigs k). destruct (lookup_key ps_pubkey sigs k) as [s|]; cbn [fmap option_fmap option_map].
      * rewrite IH by lia. rewrite ser_script_push_app. replace (Z.to_nat (m - pushed)) with (S (Z.to_nat (m - (pushed + 1)))) by lia.
        cbn [take map concat length]. rewrite <- app_assoc. f_equal. unfold sigs_of. lia.
      * by rewrite IH by lia.
    + replace (Z.to_nat (m - pushed)) with 0%nat by lia. cbn. by rewrite Z.add_0_r, app_nil_r.
Qed.

(** No more than there are signatures, when no key occurs twice. *)
Lemma length_sigs_of keys sigs : NoDup keys -> (length (sigs_of keys sigs) <= length sigs)%nat.
Proof.
  intros Hn. rewrite <- (length_map ps_pubkey sigs).
  assert (exists ks, sublist ks keys /\ length ks = length (sigs_of keys sigs) /\ forall k, k ∈ ks -> k ∈ map ps_pubkey sigs) as (ks & Hs & <- & Hi).
  { clear Hn. induction keys as [|k keys (ks & Hs & Hl & Hi)]; [exists []; split_and!; [constructor|done|by intros ? ?%elem_of_nil]|].
    cbn [sigs_of omap list_omap]. destruct (lookup_key ps_pubkey sigs k) as [s|] eqn:E; cbn [fmap option_fmap option_map].
    - exists (k :: ks). split_and!; [by constructor|cbn [length]; by rewrite Hl|]. intros k' [->|Hk]%elem_of_cons; [|by apply Hi].
      by apply lookup_key_in in E as [E _].
    - exists ks. split_and!; [by constructor|done|done]. }
  assert (NoDup ks) as Hn' by (by eapply sublist_NoDup). apply submseteq_length, NoDup_submseteq; [done|exact Hi].
Qed.

Lemma multisig_keys_spec ks tail fuel acc : Forall (fun k => length k = 33%nat) ks -> (length acc + length ks <= 16)%nat -> (length ks < fuel)%nat ->
  match tail with b :: _ => byte.unsigned b <> 0x21 | [] => True end ->
  multisig_keys fuel (concat (map (cons Byte.x21) ks) ++ tail) acc = Some (acc ++ ks, tail).
Proof.
  intros Hk. revert fuel acc. induction Hk as [|k ks Hk _ IH]; intros [|fuel] acc Ha Hf Ht; cbn [length] in *; try lia; cbn [map concat app multisig_keys].
  - rewrite app_nil_r. destruct tail as [|b tail]; [done|]. by rewrite (proj2 (Z.eqb_neq _ _)) by done.
  - change (byte.unsigned Byte.x21 =? 0x21) with true. cbv iota. rewrite <- app_assoc, length_app, Hk.
    rewrite (proj2 (Nat.ltb_ge _ _)), (proj2 (Nat.leb_gt _ _)) by lia. cbn [orb].
    rewrite drop_app_exact, take_app_exact by done. rewrite IH by (rewrite ?length_app; cbn [length]; lia || done). by rewrite <- app_assoc.
Qed.

(** The keys as they are pushed. *)
Definition key_bytes (keys : list pubkey) : list bytes := map (fun pk => take (pubkey_len pk) (pk_bytes pk)) keys.

Lemma op_n_byte n : 1 <= n <= 16 -> exists b, encode_op_n n = Some (byte.unsigned b) /\ byte.unsigned b = n + 0x50.
Proof.
  intros Hn. exists (byte.of_Z (n + 0x50)). rewrite byte_unsigned_of_Z, wrap_small by (unfold urange; lia). split; [|done].
  unfold encode_op_n, OP_1. rewrite (proj2 (Z.leb_le 0 n)), (proj2 (Z.leb_le n 16)), (proj2 (Z.eqb_neq n 0)) by lia. cbn [andb]. f_equal. lia.
Qed.

Lemma build_multisig_bytes m keys s : Forall (fun pk => pk_compressed pk = true /\ pubkey_ok pk) keys ->
  script_build_multisig m (Some keys) = (true, s) -> 0 <= m ->
  exists bm bn, byte.unsigned bm = m + 0x50 /\ byte.unsigned bn = Z.of_nat (length keys) + 0x50 /\ 1 <= m <= Z.of_nat (length keys) /\
    (length keys <= 16)%nat /\ s = bm :: concat (map (cons Byte.x21) (key_bytes keys)) ++ [bn; Byte.xae].
Proof.
  intros Hk. unfold script_build_multisig. set (n := Z.of_nat (length keys)).
  destruct (Z.eqb_spec n 0); [done|]. destruct (_ || _) eqn:E1; [done|]. destruct ((16 <? n) || _) eqn:E2; [done|]. intros H Hm.
  apply orb_false_iff in E1 as [E1a%Z.eqb_neq E1b%Z.ltb_ge], E2 as [E2a%Z.ltb_ge E2b%Z.ltb_ge].
  destruct (op_n_byte m ltac:(lia)) as (bm & Em & Vm), (op_n_byte n ltac:(lia)) as (bn & En & Vn). rewrite Em, En in H. injection H as <-.
  exists bm, bn. split_and!; try done; try lia. unfold script_append_op, sink_append, bytes_sink. rewrite !le_enc_1.
  assert (forall ks s, Forall (fun pk => pk_compressed pk = true /\ pubkey_ok pk) ks ->
    foldl (fun s pk => script_append_pushdata s (take (pubkey_len pk) (pk_bytes pk))) s ks = s ++ concat (map (cons Byte.x21) (key_bytes ks))) as Hfold.
  { intros ks s' Hks. revert s'. induction Hks as [|pk ks [Hc Hpk] _ IH]; intros s'; cbn [foldl key_bytes map concat]; [by rewrite app_nil_r|].
    pose proof (key_item_length pk Hpk) as Hlen. assert (pubkey_len pk = 33%nat) as Lk by (unfold pubkey_len; by rewrite Hc). rewrite Lk in *.
    rewrite IH, append_pushdata_bytes by (rewrite Hlen; lia). rewrite Hlen. change (push_header (Z.of_nat 33)) with [Byte.x21].
    by rewrite <- !app_assoc. }
  rewrite (Hfold keys _ Hk). change (le_enc 1 OP_CHECKMULTISIG) with [Byte.xae]. by rewrite <- !app_assoc.
Qed.

Lemma length_key_bytes keys : Forall (fun pk => pk_compressed pk = true /\ pubkey_ok pk) keys -> Forall (fun k => length k = 33%nat) (key_bytes keys).
Proof.
  intros H. unfold key_bytes. apply Forall_map. eapply Forall_impl; [exact H|]. intros pk [Hc Hpk]. cbn. rewrite (key_item_length pk Hpk).
  unfold pubkey_len. by rewrite Hc.
Qed.

Lemma parse_build_multisig m keys s : Forall (fun pk => pk_compressed pk = true /\ pubkey_ok pk) keys ->
  script_build_multisig m (Some keys) = (true, s) -> 0 <= m -> psbt_parse_multisig s = Some (m, key_bytes keys).
Proof.
  intros Hk Hs Hm. destruct (build_multisig_bytes m keys s Hk Hs Hm) as (bm & bn & Vm & Vn & Hmn & Hn & ->).
  assert (length (key_bytes keys) = length keys) as Hl by (unfold key_bytes; apply length_map).
  unfold psbt_parse_multisig. rewrite (proj2 (Nat.ltb_ge _ _)) by (cbn [length]; rewrite length_app; cbn [length]; lia).
  assert (forall b n, byte.unsigned b = n + 0x50 -> 1 <= n <= 16 -> is_op_n b = true) as Hop.
  { intros b n E Hb. unfold is_op_n. rewrite E. apply andb_true_iff. lia. }
  rewrite (Hop bm m Vm) by lia. cbn [negb]. rewrite multisig_keys_spec; [|by apply length_key_bytes|cbn [length]; lia| |lia].
  - cbn [mbind option_bind app]. rewrite Hl, (Hop bn _ Vn) by lia. rewrite (proj2 (Z.eqb_neq _ _)) by lia. rewrite Vn, Vm.
    replace (Z.of_nat (length keys) + 0x50 - 0x50) with (Z.of_nat (length keys)) by lia. rewrite Z.eqb_refl.
    change (byte.unsigned Byte.xae =? 0xae) with true. cbn [negb]. rewrite (proj2 (Z.ltb_ge _ _)) by lia. do 2 f_equal. lia.
  - rewrite length_app. enough (length (key_bytes keys) <= length (concat (map (cons Byte.x21) (key_bytes keys))))%nat by lia.
    clear. induction (key_bytes keys) as [|k l IH]; [done|]. cbn [map concat length]. rewrite length_app. cbn [length]. lia.
Qed.

Lemma hash160_length b : length (hash160_buf b) = 20%nat.
Proof. apply rmd160_length. Qed.


Definition demo_key (b : Byte.byte) : pubkey := mk_pubkey true (Byte.x02 :: b :: zeros 63).
Definition demo_keys : list pubkey := [demo_key Byte.x0a; demo_key Byte.x0b; demo_key Byte.x0c].
Definition demo_redeem : bytes := (script_build_multisig 2 (Some demo_keys)).2.
Definition demo_multisig_input : psbt_input :=
  mk_input None (Some demo_redeem) None 0 false [mk_sig (take 33 (pk_bytes (demo_key Byte.x0c))) [Byte.x30; Byte.x01]; mk_sig (take 33 (pk_bytes (demo_key Byte.x0a))) [Byte.x31; Byte.x01]] [] [].


Lemma psbt_combine_correct_witness :
  (psbt_agree demo_psbt demo_psbt -> exists p, psbt_combine demo_psbt demo_psbt = Some (true, p)) /\
  (forall p, psbt_combine demo_psbt demo_psbt = Some (true, p) -> psbt_agree demo_psbt demo_psbt /\ psbt_union demo_psbt demo_psbt p).
Proof. apply (psbt_combine_correct demo_psbt demo_psbt demo_psbt_wf demo_psbt_wf). Defined.

(** ** From creation to extraction *)

Lemma imap_lookup_step {A} (g : nat -> A -> A) (l : list A) k x : l !! k = Some x ->
  <[k := g k x]> (imap (fun j y => if (j <? k)%nat then g j y else y) l) = imap (fun j y => if (j <? S k)%nat then g j y else y) l.
Proof.
  intros Hx. apply list_eq. intros j. rewrite list_lookup_imap. destruct (decide (j = k)) as [->|N].
  - rewrite list_lookup_insert_eq by (rewrite length_imap; by eapply lookup_lt_Some). rewrite Hx. cbn [fmap option_fmap option_map]. by rewrite (proj2 (Nat.ltb_lt k (S k))) by lia.
  - rewrite list_lookup_insert_ne, list_lookup_imap by done. destruct (l !! j) as [y|]; [|done]. cbn [fmap option_fmap option_map]. f_equal.
    destruct (Nat.ltb_spec j k), (Nat.ltb_spec j (S k)); try done; lia.
Qed.

(** A loop over the inputs whose steps each change the input at their index. *)
Lemma loop_inputs {St A} (step : St -> nat -> St) (mk : nat -> list A -> St) (g : nat -> A -> A) (l : list A) :
  (forall k x l', l !! k = Some x -> l' !! k = Some x -> length l' = length l -> step (mk k l') k = mk (S k) (<[k := g k x]> l')) ->
  foldl step (mk 0%nat l) (seq 0 (length l)) = mk (length l) (imap g l).
Proof.
  intros Hstep. assert (forall n, (n <= length l)%nat ->
    foldl step (mk 0%nat l) (seq 0 n) = mk n (imap (fun j y => if (j <? n)%nat then g j y else y) l)) as H.
  { induction n as [|n IH]; intros Hn.
    - cbn [seq foldl]. f_equal. symmetry. apply list_eq. intros j. rewrite list_lookup_imap. by destruct (l !! j).
    - rewrite seq_S, foldl_app, IH by lia. cbn [foldl]. destruct (lookup_lt_is_Some_2 l n ltac:(lia)) as [x Hx].
      rewrite (Hstep n x); [|done| |by rewrite length_imap].
      + f_equal. by apply imap_lookup_step.
      + rewrite list_lookup_imap, Hx. cbn [fmap option_fmap option_map]. by rewrite Nat.ltb_irrefl. }
  rewrite H by done. f_equal. apply imap_ext. intros j y Hj. apply lookup_lt_Some in Hj. by rewrite (proj2 (Nat.ltb_lt _ _)).
Qed.

Lemma no_scripts_list l : Forall (fun i => script_sig i = Some []) l -> existsb has_script l = false.
Proof. induction 1 as [|i l E _ IH]; [done|]. cbn [existsb]. rewrite IH. unfold has_script. by rewrite E. Qed.

(** The previous transaction of each input. *)
Definition set_utxos (p : psbt) (utxos : list tx) : psbt :=
  foldl (fun p idx => match utxos !! idx with Some u => (psbt_input_set_utxo p idx u).2 | None => p end) p (seq 0 (length (inputs p))).

Section workflow.
Context {key : Type} (pubkey_from_key : key -> bytes) (pubkey_is_valid : bytes -> bool)
  (sign : key -> bytes -> bytes) (to_der : bytes -> bytes).
Context (k : key) (Hvalid : pubkey_is_valid (pubkey_from_key k) = true).

(** [u] pays the output [o] names to the key. *)
Definition pays_key (o : tx_outpoint) (u : tx) : Prop :=
  tx_hash u = take 32 (op_hash o) /\ 0 <= op_n o /\
  exists outs txout, vout u = Some outs /\ outs !! Z.to_nat (op_n o) = Some txout /\
    script_pubkey txout = Some (script_build_p2pkh (hash160_buf (pubkey_from_key k))).

Definition spk : bytes := script_build_p2pkh (hash160_buf (pubkey_from_key k)).

(** The signature of an input, with its type. *)
Definition signature (t : tx) (idx : nat) : bytes :=
  match tx_sighash t spk idx SIGHASH_ALL with
  | Some (_, Some h) => to_der (sign k h) ++ [byte.of_Z SIGHASH_ALL]
  | _ => []
  end.

Definition signed_script (t : tx) (idx : nat) : bytes := push_of (signature t idx) ++ push_of (pubkey_from_key k).

Lemma sighash_all_some t ins outs idx : vin t = Some ins -> vout t = Some outs -> (idx < length ins)%nat ->
  Forall (fun i => is_Some (script_sig i)) ins -> exists h, tx_sighash t spk idx SIGHASH_ALL = Some (true, Some h).
Proof.
  intros Hi Ho Hidx Hs. unfold tx_sighash, sighash_preimage. rewrite tx_copy_same, Hi, Ho. cbn [mbind option_bind].
  rewrite (proj2 (Nat.leb_gt _ _)) by lia. rewrite set_scripts_spec by done. cbn [mbind option_bind].
  change (Z.land SIGHASH_ALL 0x1f) with 1. change (1 =? SIGHASH_NONE) with false. change (1 =? SIGHASH_SINGLE) with false. cbv iota zeta.
  by eexists.
Qed.

Lemma p2pkh_class : (script_classify spk []).1 = TX_PUBKEYHASH.
Proof.
  destruct (script_classify_built (hash160_buf (pubkey_from_key k)) 2 demo_keys demo_redeem (hash160_length _)) as (E & _).
  - repeat (constructor; [by vm_compute|]). constructor.
  - lia.
  - vm_compute. reflexivity.
  - unfold spk. by rewrite E.
Qed.

Section steps.
Context (t : tx) (ins : list tx_in) (outs : list tx_out) (utxos : list tx).
Context (Hi : vin t = Some ins) (Ho : vout t = Some outs) (Hs : Forall (fun i => script_sig i = Some []) ins).
Context (Hu : Forall2 (fun i u => pays_key (prevout i) u) ins utxos).

(** The inputs in the three stages. *)
Definition with_utxo (idx : nat) : psbt_input := in_utxo psbt_input_zero (utxos !! idx).
Definition signed (idx : nat) : psbt_input := in_sigs (with_utxo idx) [mk_sig (pubkey_from_key k) (signature t idx)].
Definition finished (idx : nat) : psbt_input := psbt_input_finalized_clear (in_final (signed idx) (Some (signed_script t idx))).

Let base : psbt := mk_psbt (Some t) PSBT_VERSION_0 [] (replicate (length ins) psbt_input_zero) (replicate (length outs) psbt_output_zero) [].
Let stage (f : nat -> psbt_input) : psbt := with_inputs base (map f (seq 0 (length ins))).

Lemma imap_replicate (f : nat -> psbt_input) n : imap (fun j _ => f j) (replicate n psbt_input_zero) = map f (seq 0 n).
Proof. apply list_eq. intros j. rewrite list_lookup_imap, list_lookup_fmap. destruct (decide (j < n)%nat).
  - rewrite lookup_replicate_2, lookup_seq_lt by lia. done.
  - rewrite (proj1 (lookup_replicate_None n _ j)) by lia. rewrite lookup_seq_ge by lia. done.
Qed.

Lemma imap_map_seq (f g : nat -> psbt_input) n : imap (fun j _ => g j) (map f (seq 0 n)) = map g (seq 0 n).
Proof. apply list_eq. intros j. rewrite list_lookup_imap, !list_lookup_fmap. destruct (decide (j < n)%nat).
  - by rewrite lookup_seq_lt by lia.
  - by rewrite lookup_seq_ge by lia.
Qed.

Lemma stage_lookup (f : nat -> psbt_input) idx x : map f (seq 0 (length ins)) !! idx = Some x -> x = f idx /\ (idx < length ins)%nat.
Proof.
  intros H. rewrite list_lookup_fmap in H. destruct (decide (idx < length ins)%nat).
  - rewrite lookup_seq_lt in H by lia. by injection H as <-.
  - by rewrite lookup_seq_ge in H by lia.
Qed.

Lemma utxo_of idx : (idx < length ins)%nat -> exists i u, ins !! idx = Some i /\ utxos !! idx = Some u /\ pays_key (prevout i) u.
Proof.
  intros H. destruct (lookup_lt_is_Some_2 ins idx H) as [i Ei]. destruct (Forall2_lookup_l _ _ _ _ _ Hu Ei) as (u & Eu & P). by exists i, u.
Qed.

Lemma set_utxos_stage : set_utxos base utxos = stage with_utxo.
Proof.
  unfold set_utxos. change (inputs base) with (replicate (length ins) psbt_input_zero).
  pose proof (loop_inputs (fun p idx => match utxos !! idx with Some u => (psbt_input_set_utxo p idx u).2 | None => p end)
    (fun _ l => with_inputs base l) (fun idx _ => with_utxo idx) (replicate (length ins) psbt_input_zero)) as L.
  rewrite imap_replicate in L. apply L. intros idx x l' Hx Hx' Hl. apply lookup_replicate in Hx as [-> Hlt].
  destruct (utxo_of idx Hlt) as (i & u & Ei & Eu & _). rewrite Eu. unfold psbt_input_set_utxo. cbn [inputs with_inputs]. rewrite Hx'.
  cbn [snd]. unfold upd_input, with_utxo. by rewrite tx_copy_same, Eu.
Qed.

Lemma sign_stage : psbt_sign pubkey_from_key pubkey_is_valid sign to_der (stage with_utxo) k = Some (negb (length ins =? 0)%nat, stage signed).
Proof.
  unfold psbt_sign. change (inputs (stage with_utxo)) with (map with_utxo (seq 0 (length ins))).
  pose proof (loop_inputs (sign_step pubkey_from_key pubkey_is_valid sign to_der k)
    (fun n l => Some (negb (n =? 0)%nat, with_inputs base l)) (fun idx _ => signed idx) (map with_utxo (seq 0 (length ins)))) as L.
  rewrite imap_map_seq, length_map, length_seq in L. rewrite length_map, length_seq. apply L.
  intros idx x l' Hx Hx' _. apply stage_lookup in Hx as [-> Hlt]. destruct (utxo_of idx Hlt) as (i & u & Ei & Eu & Hh & Hn & outs' & txout & Hvo & Hout & Hspk).
  assert (psbt_get_script_for_input (with_inputs base l') idx = Some (Some spk)) as Eg.
  { unfold psbt_get_script_for_input. cbn [inputs with_inputs]. rewrite Hx'. cbn [mbind option_bind]. unfold with_utxo. rewrite Eu. cbn [non_witness_utxo in_utxo].
    change (psbt_tx (with_inputs base l')) with (Some t). cbn [mbind option_bind]. rewrite Hi. cbn [mbind option_bind]. rewrite Ei. cbn [mbind option_bind].
    rewrite Hh, bytes_eqb_refl, Hvo. cbn [negb]. rewrite (proj2 (Z.leb_gt _ _)) by (apply lookup_lt_Some in Hout; lia). rewrite Hout. cbn [mbind option_bind].
    by rewrite Hspk. }
  destruct (sighash_all_some t ins outs idx Hi Ho Hlt) as [h Eh]; [eapply Forall_impl; [exact Hs|]; by intros ? ->|].
  unfold sign_step. cbn [mbind option_bind]. rewrite Eg. cbn [mbind option_bind]. unfold psbt_sign_input. cbn [inputs with_inputs]. rewrite Hx'.
  change (final_script_sig (with_utxo idx)) with (@None bytes). cbn [bool_decide]. rewrite Eg. cbn [mbind option_bind]. rewrite Hvalid. cbn [negb].
  change (has_sighash_type (with_utxo idx)) with false. cbv iota zeta. change (psbt_tx (with_inputs base l')) with (Some t). cbn [mbind option_bind].
  rewrite Eh. cbn [mbind option_bind]. unfold signed, signature. rewrite Eh. by destruct idx.
Qed.

Lemma finalize_stage : psbt_finalize (stage signed) = Some (true, stage finished).
Proof.
  unfold psbt_finalize. change (inputs (stage signed)) with (map signed (seq 0 (length ins))).
  pose proof (loop_inputs finalize_step (fun n l => Some (true, with_inputs base l)) (fun idx _ => finished idx) (map signed (seq 0 (length ins)))) as L.
  rewrite imap_map_seq, length_map, length_seq in L. rewrite length_map, length_seq. apply L.
  intros idx x l' Hx Hx' _. apply stage_lookup in Hx as [-> Hlt]. destruct (utxo_of idx Hlt) as (i & u & Ei & Eu & Hh & Hn & outs' & txout & Hvo & Hout & Hspk).
  unfold finalize_step. cbn [mbind option_bind]. unfold psbt_finalize_input. cbn [inputs with_inputs]. rewrite Hx'.
  change (final_script_sig (signed idx)) with (@None bytes). cbn [bool_decide]. assert (non_witness_utxo (signed idx) = Some u) as -> by (unfold signed, with_utxo; by rewrite Eu).
  change (psbt_tx (with_inputs base l')) with (Some t). cbn [mbind option_bind]. rewrite Hi. cbn [mbind option_bind]. rewrite Ei. cbn [mbind option_bind].
  rewrite Hvo, (proj2 (Z.leb_gt _ _)) by (apply lookup_lt_Some in Hout; lia). rewrite Hout. cbn [mbind option_bind]. rewrite Hspk. fold spk.
  unfold finalize_script. rewrite p2pkh_class, decide_True by done. cbn [partial_sigs signed in_sigs ps_sig ps_pubkey].
  rewrite !ser_script_push_app. done.
Qed.
Lemma mapM_finished : mapM final_script_sig (map finished (seq 0 (length ins))) = Some (map (signed_script t) (seq 0 (length ins))).
Proof. generalize (seq 0 (length ins)). induction l as [|j l IH]; [done|]. cbn [map mapM]. rewrite IH. done. Qed.

Lemma zip_scripts : zip_with set_script_sig ins (map (signed_script t) (seq 0 (length ins))) = imap (fun idx i => set_script_sig i (signed_script t idx)) ins.
Proof.
  apply list_eq. intros j. rewrite lookup_zip_with, list_lookup_fmap, list_lookup_imap. destruct (ins !! j) as [i|] eqn:E; [|done].
  rewrite lookup_seq_lt by (by eapply lookup_lt_Some). done.
Qed.

Lemma no_scripts : existsb has_script ins = false.
Proof. by apply no_scripts_list. Qed.

Lemma extract_stage : psbt_is_finalized (stage finished) = Some true /\
  psbt_extract (stage finished) = Some (Some (set_vin t (imap (fun idx i => set_script_sig i (signed_script t idx)) ins))).
Proof.
  split.
  - unfold psbt_is_finalized, psbt_is_valid. change (psbt_tx (stage finished)) with (Some t). cbv beta iota. rewrite Hi. cbn [mbind option_bind].
    change (inputs (stage finished)) with (map finished (seq 0 (length ins))). rewrite length_map, length_seq, Nat.eqb_refl. cbn [negb]. rewrite Ho. cbn [mbind option_bind].
    change (outputs (stage finished)) with (replicate (length outs) psbt_output_zero). rewrite length_replicate, Nat.eqb_refl, no_scripts. cbn [negb mbind option_bind]. f_equal.
    apply forallb_forall. intros x (j & <- & _)%in_map_iff. done.
  - unfold psbt_extract. change (psbt_tx (stage finished)) with (Some t). cbv beta iota. change (inputs (stage finished)) with (map finished (seq 0 (length ins))).
    rewrite mapM_finished, tx_copy_same, Hi. cbn [mbind option_bind]. rewrite length_map, length_seq, Nat.ltb_irrefl, zip_scripts, drop_all. by rewrite app_nil_r.
Qed.

Lemma create_base : psbt_create t = Some base.
Proof. unfold psbt_create. rewrite Hi, Ho. cbn [mbind option_bind]. by rewrite no_scripts, tx_copy_same. Qed.
End steps.

(** C17: the roles together: a transaction whose inputs all spend outputs of one key is created as a
    partially signed one, given its previous transactions, signed, finished and extracted, and
    the result is that transaction with, in each input, the signature of its own hash and the
    key.  (The operations on keys are parameters, of which only that the key is valid is asked.) *)
Theorem p2pkh_workflow (t : tx) (ins : list tx_in) (outs : list tx_out) (utxos : list tx)
  (Hi : vin t = Some ins) (Ho : vout t = Some outs) (Hs : Forall (fun i => script_sig i = Some []) ins)
  (Hu : Forall2 (fun i u => pays_key (prevout i) u) ins utxos) :
  exists p0 p1 p2,
    psbt_create t = Some p0 /\
    psbt_sign pubkey_from_key pubkey_is_valid sign to_der (set_utxos p0 utxos) k = Some (negb (length ins =? 0)%nat, p1) /\
    psbt_finalize p1 = Some (true, p2) /\ psbt_is_finalized p2 = Some true /\
    psbt_extract p2 = Some (Some (set_vin t (imap (fun idx i => set_script_sig i (signed_script t idx)) ins))).
Proof.
  eexists _, _, _. split; [by apply (create_base t ins outs)|].
  rewrite (set_utxos_stage t ins outs utxos) by done. split; [by apply (sign_stage t ins outs)|].
  split; [by apply (finalize_stage t ins outs)|]. by apply (extract_stage t ins outs).
Qed.
End workflow.

(** A transaction that pays the key of the example, and one that spends it. *)
Definition demo_pk : bytes := Byte.x02 :: zeros 32.
Definition demo_payment : tx := mk_tx 1 (Some [demo_in]) (Some [mk_tx_out 100 (Some (script_build_p2pkh (hash160_buf demo_pk)))]) 5.
Definition demo_spend : tx := mk_tx 1 (Some [mk_tx_in (mk_outpoint (tx_hash demo_payment) 0) (Some []) 9]) (Some [demo_out]) 5.

Lemma p2pkh_workflow_witness :
  let sign (_ : unit) (h : bytes) := h in let der (b : bytes) := b in let pk (_ : unit) := demo_pk in let valid (_ : bytes) := true in
  exists p0 p1 p2,
    psbt_create demo_spend = Some p0 /\
    psbt_sign pk valid sign der (set_utxos p0 [demo_payment]) tt = Some (true, p1) /\
    psbt_finalize p1 = Some (true, p2) /\ psbt_is_finalized p2 = Some true /\
    psbt_extract p2 = Some (Some (set_vin demo_spend
      [set_script_sig (mk_tx_in (mk_outpoint (tx_hash demo_payment) 0) (Some []) 9) (signed_script pk sign der tt demo_spend 0)])).
Proof.
  cbv zeta. apply (p2pkh_workflow (fun _ => demo_pk) (fun _ => true) (fun _ h => h) (fun b => b) tt eq_refl demo_spend
    [mk_tx_in (mk_outpoint (tx_hash demo_payment) 0) (Some []) 9] [demo_out] [demo_payment]); [done|done|by constructor|].
  constructor; [|constructor]. split; [|split; [done|]].
  - cbn [prevout op_hash]. symmetry. apply take_ge. unfold tx_hash. rewrite dogecoin_hash_length. lia.
  - eexists _, _. split; [done|]. split; done.
Defined.

Definition demo_unsigned_psbt : psbt := mk_psbt (Some demo_spend) 0 [] [in_utxo psbt_input_zero (Some demo_payment)] [psbt_output_zero] [].
Definition demo_sign (_ : unit) (h : bytes) : bytes := h.
Definition demo_signed_psbt : psbt :=
  (default (false, demo_unsigned_psbt) (psbt_sign_input (fun _ => demo_pk) (fun _ => true) demo_sign (fun b => b) demo_unsigned_psbt 0 tt)).2.

Lemma sign_input_checks_witness :
  let i := in_utxo psbt_input_zero (Some demo_payment) in
  exists script t hash i',
    spends demo_unsigned_psbt 0 script /\ true = true /\ psbt_tx demo_unsigned_psbt = Some t /\
    let ty := if has_sighash_type i then s32 (sighash_type i) else SIGHASH_ALL in
    tx_sighash t script 0 ty = Some (true, Some hash) /\
    demo_signed_psbt = with_inputs demo_unsigned_psbt (<[0%nat := i']> (inputs demo_unsigned_psbt)) /\
    lookup_key ps_pubkey (partial_sigs i') demo_pk = Some (mk_sig demo_pk (demo_sign tt hash ++ [byte.of_Z ty])) /\
    (forall pk, pk <> demo_pk -> lookup_key ps_pubkey (partial_sigs i') pk = lookup_key ps_pubkey (partial_sigs i) pk) /\
    in_sigs i' (partial_sigs i) = i.
Proof.
  apply (sign_input_checks (fun _ => demo_pk) (fun _ => true) demo_sign (fun b => b) demo_unsigned_psbt demo_signed_psbt 0 tt
    (in_utxo psbt_input_zero (Some demo_payment)) eq_refl eq_refl).
  vm_compute. reflexivity.
Defined.

(** ** Text *)

Lemma hex_of_bytes_read (data : bytes) : hex_to_bin_loop hex_to_bin_byte (concat (hex_byte <$> data)) = data.
Proof.
  rewrite <- (app_nil_r (concat _)), hex_loop_spec; [by rewrite app_nil_r|]. intros b.
  destruct (hex_byte_spec b) as (hi & lo & ? & ? & E & _ & _ & _ & _ & _ & E' & _). eauto.
Qed.

(** The two texts of a partially signed transaction are read back. *)
Theorem psbt_text_round_trip (p : psbt) (Hw : psbt_wf p) (Hn : psbt_normal p) :
  (psbt_to_base64 p ≫= psbt_from_base64) = Some p /\ (psbt_to_hex p ≫= psbt_from_hex) = Some p.
Proof.
  assert (exists data, psbt_serialize p = Some data /\ psbt_deserialize data = Some p) as (data & Es & Ed).
  { destruct (psbt_read_back p [] Hw Hn) as (data & Es & Ed). exists data. by rewrite app_nil_r in Ed. }
  unfold psbt_to_base64, psbt_to_hex. rewrite Es. cbn [mbind option_bind]. split.
  - unfold psbt_from_base64. by rewrite base64_decode_encode.
  - unfold psbt_from_hex, utils_hex_to_bin. change (concat (map hex_byte data)) with (concat (hex_byte <$> data)).
    rewrite firstn_all, hex_length, Nat2Z.inj_mul, Z.mul_comm, Z.mod_mul by done. cbn [Z.eqb negb].
    rewrite take_ge by (rewrite hex_length; lia). by rewrite hex_of_bytes_read.
Qed.

Lemma psbt_text_round_trip_witness :
  (psbt_to_base64 demo_psbt ≫= psbt_from_base64) = Some demo_psbt /\ (psbt_to_hex demo_psbt ≫= psbt_from_hex) = Some demo_psbt.
Proof. apply (psbt_text_round_trip demo_psbt demo_psbt_wf demo_psbt_normal). Defined.
